(* ===== verification/_CoqProject ===== *)
-Q . S2P
Prelude.v
Sorting.v
GraphqlTypes.v
StoreValue.v
LfuCache.v
EntityCache.v
EthTypes.v
Manifest.v
EthFilters.v
Triggers.v
Hosts.v
StoreQuery.v
StoreEvents.v
Metadata.v
Float64.v
BlockStream.v
GraphqlSchema.v
Coercion.v
Introspection.v
GraphqlQuery.v
QueryBuild.v
Schema.v
Sql.v
Selects.v
Layout.v
RelationalQueries.v
FilterQueries.v
Execution.v
Prefetch.v
PrefetchTree.v
QueryCache.v
MetadataEntities.v
MetadataLoad.v
ColumnValues.v
Collation.v
Patterns.v
FilterMeaning.v
Versions.v
VersionedTables.v
Reverts.v
EntityRows.v
RelationalStore.v
StoreViews.v
QueryMeaning.v
PostgresStore.v
StoreBlocks.v
Deployments.v
MetadataReverts.v
Transactions.v
StoreProperties.v
ProofOfIndexing.v
HostExports.v
InstanceManager.v
BlockMeaning.v
BlockProcessing.v
