(* ===== verification/Prelude.v ===== *)
(** * graph-node: a verification library

    This library models the core of graph-node, the Rust indexing server under
    [src/packages/graph-node], and proves what makes it correct.  Paths below
    are relative to that directory.

    ** The program

    A subgraph is described by a manifest: data sources (contracts) with
    handlers.  A block stream follows the chain of an Ethereum network and
    finds the blocks with triggers (logs, calls, blocks) for the subgraph's
    data sources; runtime hosts run the handlers for each trigger; handlers
    read and write entities through a cache, whose modifications are written
    to the store when a block is done.  Metadata about subgraphs is itself
    kept in entities.

    ** The files

    - [Prelude] (this file): outcomes of Rust code ([res]), machine integers,
      automation, lemmas on lists.
    - [Sorting]: stable sorting with a comparison that may panic, and its
      uniqueness, as [sort] and [sort_by] of the standard library.
    - [Float64]: the operations on [f64] the block stream uses.
    - [GraphqlTypes], [StoreValue]: values, value types and entities
      ([graph/src/data/store/mod.rs], [scalar.rs]), identifiers
      ([graph/src/data/subgraph/mod.rs]); reading and writing values as
      GraphQL values is a round trip, merging does not depend on the order of
      a hash map.
    - [LfuCache]: [graph/src/util/lfu_cache.rs]; it is a map, keeps its weight
      and frequency invariant, and evicts stale and rarely used entries first
      down to the limit.
    - [EntityCache]: the entity cache of [graph/src/components/store.rs]; it
      refines a map from keys to entities, and a block of operations refines
      their application to the store one by one, with a minimal list of
      modifications.
    - [EthTypes]: blocks, calls, pointers and triggers
      ([graph/src/components/ethereum/types.rs]); triggers are sorted into the
      order in which handlers are to run.
    - [Manifest]: manifests, their resolution and validation, dynamic data
      sources and their stored form ([graph/src/data/subgraph/mod.rs],
      [schema.rs]).
    - [EthFilters]: log, call and block filters
      ([graph/src/components/ethereum/adapter.rs]); they match what the data
      sources want, and the requests made from a log filter return exactly
      that.
    - [Triggers]: finding the triggers of a block or a range of blocks (same
      file), completely and in order.
    - [Hosts]: runtime hosts and subgraph instances
      ([runtime/wasm/src/host.rs], [core/src/subgraph/instance.rs]); filtering
      triggers before running them changes nothing, apart from block handlers
      with a call filter, whose triggers the filters do not let through.
    - [MetadataEntities], [MetadataLoad]: the entities metadata is kept in, the
      operations that write them ([graph/src/data/subgraph/schema.rs]) and the
      loading of dynamic data sources ([core/src/subgraph/loader.rs]); what was
      written is loaded again.
    - [ProofOfIndexing]: [graph/src/components/subgraph/proof_of_indexing/].
    - [HostExports]: what a mapping can call
      ([runtime/wasm/src/host_exports.rs], [module/mod.rs]); mappings are trees
      of calls ([MappingProgram]), and running one does to the block's state
      what its calls mean for a map of entities.
    - [InstanceManager], [BlockMeaning], [BlockProcessing]: the instance manager
      ([core/src/subgraph/instance_manager.rs]), what a block means to the map of
      entities the store holds (which handlers run on what, which data sources
      are created, which proofs of indexing are written), and the theorems:
      processing a block does what the block means in one transaction, it ends,
      and the cache agrees with the store over a whole run.
    - [StoreQuery], [StoreEvents], [Metadata]: queries to the store and their
      simplification, events and their throttling, versions and assignments
      ([graph/src/components/store.rs] and parts of [schema.rs] and
      [block_stream.rs]).
    - [BlockStream]: [chain/ethereum/src/block_stream.rs]; each step moves the
      subgraph's pointer the right way, polls lose nothing, and against a
      stable chain the stream catches up with the head and delivers every
      trigger in order, from the chain itself or from any branch that ends
      below the head.

    - [GraphqlSchema]: the syntax trees of GraphQL schemas (the data of the
      graphql-parser crate), lookups in them ([graphql/src/schema/ast.rs],
      [graph/src/data/graphql/]), the names of filters, and the validation of
      entities before they are written, which is exactly conformance to the
      schema, but that a list field takes a scalar too.
    - [Coercion]: coercion of input values, arguments and variables
      ([graphql/src/values/coercion.rs], parts of [execution.rs] and
      [query.rs]); it ends, its results have the declared types, and it is a
      retraction onto the values that have them.
    - [Introspection]: the introspection schema
      ([graphql/src/introspection/schema.rs]), written out.
    - [GraphqlQuery]: the preparation of a query
      ([graphql/src/execution/query.rs], [graphql/src/query/]): validation is
      exactly validity, the complexity is exact up to overflow, the top-level
      fields are partitioned by block.
    - [QueryBuild]: from coerced arguments to a query to the store
      ([graphql/src/store/query.rs]).
    - [Execution]: the execution of a query over prefetched objects
      ([graphql/src/execution/execution.rs], [resolver.rs],
      [graphql/src/store/resolver.rs]); collecting fields ends whatever the
      fragments, results have the shape of the query, and each field is executed
      with the value that was prefetched for it.
    - [Prefetch], [PrefetchTree]: the prefetching of a query
      ([graphql/src/store/prefetch.rs]): the store answers one query for each
      field of each type of parent, and the answers are put back below their
      parents.  The children of each parent are exactly those the store has
      for it, in its order and windowed exactly; every prefetched object, at
      every depth, has the answers of the store under each field collected for
      its type, which are all fields the execution collects on an object type;
      prefetching ends.
    - [QueryCache]: the caches of query results (same file and [cache.rs]) as a
      step relation; however requests interleave each is served a result of
      its own.

    - [Schema]: the schemas of subgraphs, their imports and their validation
      ([graph/src/data/schema.rs]), which is exactly validity by a declarative
      definition of the rules the code has, and of the rules it documents where
      the two do not differ.

    The Postgres store ([store/postgres/src/]):

    - [Sql]: the syntax of the statements the store writes and what PostgreSQL
      makes of them.
    - [Layout]: the tables and columns of a schema ([relational.rs],
      [catalog.rs]).
    - [RelationalQueries]: the statements for entities and the reading of rows
      ([relational_queries.rs], [sql_value.rs], [block_range.rs]).
    - [Selects]: the queries of the store as an algebra of selects, with what
      PostgreSQL makes of them.
    - [FilterQueries]: [FilterQuery] with its filters, windows, sort keys and
      ranges ([relational_queries.rs]).
    - [RelationalStore]: the operations of a layout on the database
      ([relational.rs]).
    - [PostgresStore]: connections, the pointer of a deployment, transacting
      and reverting blocks ([entities.rs], [metadata.rs], [store.rs]).
    - [Collation]: how texts and numbers are ordered; comparing the prefixes of
      texts first compares the texts.
    - [ColumnValues], [EntityRows]: values and entities survive being written
      and read back.
    - [Versions], [VersionedTables], [Reverts]: rows as versions of entities,
      what the statements do to them, what a revert reports.
    - [StoreViews]: the specification: a store is a view, from entity types,
      blocks and ids to entities, and each operation does to the view what
      [View] says.
    - [Patterns], [FilterMeaning], [QueryMeaning]: filters select the entities that satisfy
      them, and a query returns the ones selected, sorted, from [skip] on and at
      most [first].  [Patterns] is about the patterns of [like]; [FilterMeaning]
      also has the filters that mean something else than their names say.
    - [StoreBlocks], [Deployments], [MetadataReverts], [Transactions]: the same
      for whole blocks, the row of a deployment and the metadata.
    - [StoreProperties]: the theorems about the store: transacting and
      reverting blocks refine the view, a revert undoes a block, the past can
      not be written, entities are found by their ids and by queries.

    A block goes from [BlockStream] to [InstanceManager.process_block], which
    runs its triggers in the hosts of [Hosts] with [HostExports.run_program]
    over an [EntityCache], extends the filters of [EthFilters] for created data
    sources, whose triggers [Triggers] finds and whose entities
    [MetadataEntities] writes, and ends with [EntityCache.as_modifications], whose modifications
    [PostgresStore.transact_block_operations] writes.
    A query goes from [GraphqlQuery.query_new] through
    [GraphqlQuery.query_block_constraint] to
    [QueryCache.step], which runs
    [Execution.execute_root_selection_set_uncached]; the resolver of that is
    [Execution.StoreResolver], whose prefetching, [Prefetch.run], builds the
    store's queries with [QueryBuild.build_query] from the arguments [Coercion]
    coerces.  The store answers them with
    [PostgresStore.store_query_values], of which [PostgresStore.execute_query]
    and [RelationalStore.layout_query] are the steps.

    ** How code is modelled

    A function that returns [Result] and may panic returns [res E A], with
    [Panic] for an [unwrap], [expect] or [assert!] that fails.  Loops that may
    fail are [fold_res] and [map_res].  Mutable state is passed along.  Hash
    maps and sets are [gmap] and [gset]; where the code's result depends on
    the order of a hash map the order is an argument or the theorem holds for
    all orders.  [u64] values are integers; arithmetic on them wraps
    ([wrap64]) where it is not guarded.  Hashes and addresses are integers.

    Code outside the repository is a type class of the file that calls it,
    with laws as hypotheses where a theorem needs them: the priority queue of
    the LFU cache, the graph map of the log filter, the YAML, ABI and IPFS
    services of a manifest ([ManifestEnv]), Ethereum nodes ([EthereumAdapter],
    [ChainClient]), the mapping thread ([HostEnv], [MappingThread]) and the
    services mappings call ([RuntimeServices]), stable hashes
    ([StableHashing]), the text of hashes ([MetadataText]), the store
    ([MetaStore], [Prefetch.QueryStore], [RuntimeStore], [SubgraphStore]).
    The database is the class [Sql.Postgres]; its law [PostgresLaws] is that a
    statement does what [Sql.meaning] says, in any order of rows, and says
    nothing of statements the store does not write; [Selects.PostgresQueries]
    with [PostgresQueriesLaws] is the same for queries, and says nothing of
    those whose result PostgreSQL leaves open.  [CharacterCollation] is the
    collation: texts are ordered character by character.  [Sql.PgText] is the text
    of numbers and texts for search, [Inflector] the crate that changes the
    case of names, [Schema.SyntaxText] the printing of syntax trees,
    [HashOrder] the order of hash maps.
    Each file with such a class has a concrete instance in its module
    [Witness], at which the theorems with hypotheses are applied.

    ** Fuel

    [LfuCache.evict_loop], [EthFilters.logs_filters_loop],
    [BlockStream.poll_loop] and [BlockStream.reconcile] take fuel.  Enough is,
    in this order: the number of entries plus one; that of the edges of the graph
    (every turn removes a vertex with an edge); twice the number of answers
    waiting, plus three (every turn either uses up an answer or is followed by
    one that does); one for each block to revert or to pass over, plus one.
    [MetadataEntities.load_loop] needs one more than the number of data
    sources, [InstanceManager.created_loop] one more than the limit on them
    (every turn adds a host or is the last).
    For GraphQL: [GraphqlQuery.validate_fields_inner] has enough fuel exactly
    when fragments are not circular below the selection set ([validation_exact]);
    [GraphqlQuery.complexity_inner] counts down the code's own bound on the
    depth; [Execution.collect_set] needs the number of fragments not yet
    visited times the depth of their selection sets, plus the depth of the set;
    [Prefetch.collect_fields_inner] needs [PrefetchTree.collect_fuel] and
    [Prefetch.execute_selection_set] the nesting of fields in the query;
    [Coercion.coerce_to_definition] the depth of objects in the value,
    variables included; [QueryBuild.collect_loop] one for each field below the
    field; [Execution.execute_selection_set_to_map] recurses as deep as the
    value it executes on, and its theorems hold for any fuel.
    The theorems about these functions state that they return a result.

    ** What is not modelled

    Of the Postgres store: JSONB storage and the migration from it, which old
    subgraphs keep; the metadata operations, which [Metadata] and
    [MetadataEntities] have at the level of entities; the caches of layouts and schemas; the chain store and the cache
    of calls, which are input and output; notifications.  Queries for windows
    and for several types of entities have their definitions, but the theorem
    about queries is about a single type.  Deriving API schemas
    and the introspection resolver: the schema of a query is an argument.
    The WebAssembly engine and its memory, the network indexer, load
    management, the registrar, servers, metrics and logging, which are third-party
    code, input and output, or apart from the path of a block or a query. *)

From stdpp Require Import prelude list strings gmap fin_maps sorting.
From Stdlib Require Import ZArith Lia.

(** ** Outcomes of Rust code

    A Rust function that returns [Result] and may also panic (an [unwrap],
    an [expect], an [assert!]) is modelled by a value of [res E A]. *)
Inductive res (E A : Type) : Type :=
| Ok (a : A)
| Err (e : E)
| Panic.
Arguments Ok {E A} a.
Arguments Err {E A} e.
Arguments Panic {E A}.

Definition res_bind {E A B} (m : res E A) (f : A -> res E B) : res E B :=
  match m with Ok a => f a | Err e => Err e | Panic => Panic end.

Definition res_map {E A B} (f : A -> B) (m : res E A) : res E B :=
  res_bind m (fun a => Ok (f a)).

Definition map_err {E F A} (f : E -> F) (m : res E A) : res F A :=
  match m with Ok a => Ok a | Err e => Err (f e) | Panic => Panic end.

(** [Option::ok_or] and [Option::unwrap]. *)
Definition ok_or {E A} (o : option A) (e : E) : res E A :=
  match o with Some a => Ok a | None => Err e end.

Definition unwrap {E A} (o : option A) : res E A :=
  match o with Some a => Ok a | None => Panic end.

Definition is_ok {E A} (m : res E A) : bool :=
  match m with Ok _ => true | _ => false end.

Declare Scope gn_scope.
Delimit Scope gn_scope with gn.
Notation "'let?' x := m 'in' k" := (res_bind m (fun x => k))
  (at level 10, x pattern, m at level 100, k at level 200,
   format "'let?'  x  :=  m  'in' '//' k") : gn_scope.
Open Scope gn_scope.

(** [iter().map(f).collect::<Result<Vec<_>, _>>()]: stops at the first
    failure. *)
Definition map_res {E A B} (f : A -> res E B) : list A -> res E (list B) :=
  fix go (l : list A) :=
    match l with
    | [] => Ok []
    | x :: l => res_bind (f x) (fun y => res_bind (go l) (fun ys => Ok (y :: ys)))
    end.

(** A [for] loop whose body may fail. *)
Definition fold_res {E A S} (f : S -> A -> res E S) : S -> list A -> res E S :=
  fix go (s : S) (l : list A) :=
    match l with
    | [] => Ok s
    | x :: l => res_bind (f s x) (fun s' => go s' l)
    end.

(** ** Machine integers: [w]-bit values are [Z]s, arithmetic wraps. *)
Definition wrap_u (w z : Z) : Z := z mod 2 ^ w.
Definition wrap_i (w z : Z) : Z := (z + 2 ^ (w - 1)) mod 2 ^ w - 2 ^ (w - 1).

Abbreviation wrap64 := (wrap_u 64).
Abbreviation wrap32 := (wrap_u 32).
Abbreviation u64_max := (2 ^ 64 - 1)%Z.

Definition is_u64 (z : Z) : Prop := (0 <= z < 2 ^ 64)%Z.
Definition is_u32 (z : Z) : Prop := (0 <= z < 2 ^ 32)%Z.
Definition is_i32 (z : Z) : Prop := (- 2 ^ 31 <= z < 2 ^ 31)%Z.

#[export] Instance is_u64_dec z : Decision (is_u64 z).
Proof. unfold is_u64. apply _. Defined.
#[export] Instance is_u32_dec z : Decision (is_u32 z).
Proof. unfold is_u32. apply _. Defined.
#[export] Instance is_i32_dec z : Decision (is_i32 z).
Proof. unfold is_i32. apply _. Defined.

Section words.
  Open Scope Z_scope.

Lemma wrap64_small z : is_u64 z -> wrap64 z = z.
Proof. intros H. apply Z.mod_small, H. Qed.

Lemma wrap64_range z : is_u64 (wrap64 z).
Proof. apply Z.mod_pos_bound. lia. Qed.

Lemma wrap64_add_l a b : wrap64 (wrap64 a + b) = wrap64 (a + b).
Proof. apply Zplus_mod_idemp_l. Qed.

Lemma wrap64_sub_l a b : wrap64 (wrap64 a - b) = wrap64 (a - b).
Proof. apply Zminus_mod_idemp_l. Qed.

Lemma wrap_i32_small z : is_i32 z -> wrap_i 32 z = z.
Proof. unfold is_i32, wrap_i. intros H. rewrite Z.mod_small; lia. Qed.

Lemma wrap_i32_range z : is_i32 (wrap_i 32 z).
Proof.
    unfold is_i32, wrap_i.
    pose proof (Z.mod_pos_bound (z + 2 ^ (32 - 1)) (2 ^ 32)). lia.
Qed.
End words.

(** ** Automation *)
Create HintDb gn.
Create Rewrite HintDb gn.
#[export] Hint Resolve wrap64_range wrap_i32_range : gn.
#[export] Hint Rewrite wrap64_add_l wrap64_sub_l : gn.

(** Case analysis on a successful [res] computation. *)
Ltac res_inv :=
  repeat match goal with
  | H : res_bind ?m _ = Ok _ |- _ =>
      let E := fresh "E" in destruct m eqn:E; simpl in H; try discriminate H
  | H : Ok _ = Ok _ |- _ => injection H as H; subst
  | H : Err _ = Ok _ |- _ => discriminate H
  | H : Panic = Ok _ |- _ => discriminate H
  end.

Ltac case_bools :=
  repeat match goal with
  | H : context [if ?b then _ else _] |- _ => destruct b eqn:?
  | |- context [if ?b then _ else _] => destruct b eqn:?
  end.

(** A preorder on what a function shows is a preorder. *)
Lemma preorder_on {A B} (f : A -> B) (R : B -> B -> Prop) :
  PreOrder R -> PreOrder (fun x y => R (f x) (f y)).
Proof. intros [Hr Ht]. split; [intros x; apply Hr|]. intros x y z. apply Ht. Qed.

(** ** Lemmas on [res] *)
Section res_lemmas.
Context {E A B : Type}.

Lemma map_res_cons (f : A -> res E B) x l :
    map_res f (x :: l)
    = res_bind (f x) (fun y => res_bind (map_res f l) (fun ys => Ok (y :: ys))).
Proof. done. Qed.

Lemma map_res_ok_length (f : A -> res E B) l r :
    map_res f l = Ok r -> length r = length l.
Proof.
    revert r. induction l as [|x l IH]; simpl; intros r H; res_inv; [done|].
    simpl. f_equal. by apply IH.
Qed.

Lemma map_res_Forall2 (f : A -> res E B) l r :
    map_res f l = Ok r <-> Forall2 (fun x y => f x = Ok y) l r.
Proof.
    revert r. induction l as [|x l IH]; simpl; intros r.
    - split; [intros H; res_inv; constructor|]. by inversion 1.
    - split.
      + intros H. res_inv. constructor; [done|]. by apply IH.
      + inversion 1 as [|? y ? r' Hx Hl]; subst. rewrite Hx. simpl.
        apply IH in Hl. by rewrite Hl.
Qed.

Lemma map_res_all_ok (f : A -> res E B) (g : A -> B) l :
    (forall x, x ∈ l -> f x = Ok (g x)) -> map_res f l = Ok (g <$> l).
Proof.
    induction l as [|x l IH]; simpl; intros H; [done|].
    rewrite H by left. simpl. rewrite IH; [done|]. intros y Hy. apply H. by right.
Qed.

Lemma map_res_no_panic (f : A -> res E B) l :
    (forall x, x ∈ l -> f x <> Panic) -> map_res f l <> Panic.
Proof.
    induction l as [|x l IH]; intros H; [done|]. rewrite map_res_cons.
    pose proof (H x ltac:(left)). destruct (f x); try done. cbn [res_bind].
    pose proof (IH (fun y Hy => H y (list_elem_of_further _ _ _ Hy))).
    by destruct (map_res f l).
Qed.

Lemma fold_res_cons {S} (f : S -> A -> res E S) s x l :
    fold_res f s (x :: l) = res_bind (f s x) (fun s' => fold_res f s' l).
Proof. done. Qed.

Lemma fold_res_app {S} (f : S -> A -> res E S) s l1 l2 :
    fold_res f s (l1 ++ l2) = res_bind (fold_res f s l1) (fun s' => fold_res f s' l2).
Proof.
    revert s. induction l1 as [|x l1 IH]; intros s; simpl; [done|].
    destruct (f s x); simpl; auto.
Qed.

(** A relation that every turn of a loop stays in relates the loop's ends. *)
Lemma fold_res_relates {S} (R : S -> S -> Prop) `{!PreOrder R} (f : S -> A -> res E S) s l s' :
    (forall s x s', x ∈ l -> f s x = Ok s' -> R s s') -> fold_res f s l = Ok s' -> R s s'.
Proof.
    revert s. induction l as [|x l IH]; intros s Hf; simpl; [by intros [= <-]|].
    destruct (f s x) as [s1| |] eqn:Hx; simpl; try done. intros Hl.
    transitivity s1; [apply (Hf s x s1); [left|done]|].
    apply IH; [|done]. intros t y t' Hy. apply Hf. by right.
Qed.

Lemma fold_res_fails {S} (f : S -> A -> res E S) s l e :
    fold_res f s l = Err e -> exists x s0, x ∈ l /\ f s0 x = Err e.
Proof.
    revert s. induction l as [|x l IH]; intros s; [done|]. rewrite fold_res_cons.
    destruct (f s x) as [s1|e1|] eqn:Hx; cbn [res_bind]; [|intros [= ->]|done].
    - intros (y & s0 & Hy & Hf)%IH. exists y, s0. split; [by right|done].
    - exists x, s. split; [left|done].
Qed.

Lemma fold_res_no_panic {S} (P : S -> Prop) (f : S -> A -> res E S) s l :
    P s ->
    (forall s x, x ∈ l -> P s -> f s x <> Panic /\ forall s', f s x = Ok s' -> P s') ->
    fold_res f s l <> Panic.
Proof.
    revert s. induction l as [|x l IH]; intros s Hs H; [done|]. rewrite fold_res_cons.
    destruct (H s x ltac:(left) Hs) as [Hp Hok].
    destruct (f s x) as [s'| |]; try done. cbn [res_bind].
    apply IH; [by apply Hok|]. intros s1 y Hy. apply H. by right.
Qed.

(** Two loops whose bodies agree on the states that come up. *)
Lemma fold_res_ext_inv {S} (P : S -> Prop) (f g : S -> A -> res E S) s l :
    P s ->
    (forall s x, x ∈ l -> P s -> f s x = g s x /\ forall s', f s x = Ok s' -> P s') ->
    fold_res f s l = fold_res g s l.
Proof.
    revert s. induction l as [|x l IH]; intros s Hs H; [done|]. rewrite !fold_res_cons.
    destruct (H s x ltac:(left) Hs) as [<- Hok]. destruct (f s x) as [s'| |]; try done.
    cbn [res_bind]. apply IH; [by apply Hok|]. intros s1 y Hy. apply H. by right.
Qed.

(** Invariant rule for fallible loops. *)
Lemma fold_res_inv {S} (f : S -> A -> res E S) (P : S -> Prop) s l s' :
    P s ->
    (forall s x s', x ∈ l -> P s -> f s x = Ok s' -> P s') ->
    fold_res f s l = Ok s' -> P s'.
Proof.
    revert s. induction l as [|x l IH]; simpl; intros s Hs Hf H; res_inv; [done|].
    eapply IH; [| |done].
    - eapply Hf; [by left|done|done].
    - intros s1 y s2 Hy. apply Hf. by right.
Qed.
End res_lemmas.

(** ** Lemmas on lists *)
Lemma filter_none {A} (P : A -> Prop) `{!forall x, Decision (P x)} (l : list A) :
  (forall x, x ∈ l -> ~ P x) -> filter P l = [].
Proof.
  induction l as [|x l IH]; intros Hl; [done|]. rewrite filter_cons.
  rewrite decide_False by (apply Hl; left). apply IH. intros y Hy. apply Hl. by right.
Qed.

Lemma filter_all {A} (P : A -> Prop) `{!forall x, Decision (P x)} (l : list A) :
  (forall x, x ∈ l -> P x) -> filter P l = l.
Proof.
  induction l as [|x l IH]; intros Hl; [done|]. rewrite filter_cons.
  rewrite decide_True by (apply Hl; left). f_equal. apply IH. intros y Hy. apply Hl. by right.
Qed.

Lemma filter_ext_in {A} (P Q : A -> Prop) `{!forall x, Decision (P x)}
  `{!forall x, Decision (Q x)} (l : list A) :
  (forall x, x ∈ l -> P x <-> Q x) -> filter P l = filter Q l.
Proof.
  induction l as [|x l IH]; intros Hl; [done|]. rewrite !filter_cons.
  rewrite IH by (intros y Hy; apply Hl; by right).
  apply decide_ext, Hl. left.
Qed.

(** ** More of the standard library *)

(** [Iterator::any] with a test that may panic. *)
Definition any_res {E A} (f : A -> res E bool) : list A -> res E bool :=
  fix go (l : list A) :=
    match l with
    | [] => Ok false
    | x :: l => res_bind (f x) (fun b : bool => if b then Ok true else go l)
    end.

Lemma any_res_pure {E A} (f : A -> res E bool) (p : A -> bool) l :
  (forall x, x ∈ l -> f x = Ok (p x)) -> any_res f l = Ok (existsb p l).
Proof.
  induction l as [|x l IH]; simpl; intros Hl; [done|].
  rewrite (Hl x) by left. simpl. destruct (p x); [done|].
  apply IH. intros y Hy. apply Hl. by right.
Qed.

Lemma existsb_true_iff {A} (p : A -> bool) l :
  existsb p l = true <-> exists x, x ∈ l /\ p x = true.
Proof. rewrite existsb_exists. setoid_rewrite list_elem_of_In. done. Qed.

Lemma existsb_false_iff {A} (p : A -> bool) l :
  existsb p l = false <-> forall x, x ∈ l -> p x = false.
Proof.
  rewrite <- not_true_iff_false, existsb_true_iff. split.
  - intros H x Hx. destruct (p x) eqn:E; [|done]. exfalso. eauto.
  - intros H (x & Hx & Hp). by rewrite H in Hp.
Qed.

(** [Vec::dedup]: remove elements equal to their predecessor. *)
Fixpoint dedup {A} `{EqDecision A} (l : list A) : list A :=
  match l with
  | x :: ((y :: _) as l') => if decide (x = y) then dedup l' else x :: dedup l'
  | _ => l
  end.

Lemma dedup_all_equal {A} `{EqDecision A} (x : A) l :
  (forall y, y ∈ l -> y = x) -> dedup (x :: l) = [x].
Proof.
  revert x. induction l as [|y l IH]; intros x Hl; [done|].
  assert (y = x) as -> by (apply Hl; left). cbn [dedup]. rewrite decide_True by done.
  apply IH. intros z Hz. apply Hl. by right.
Qed.

Lemma elem_of_dedup {A} `{EqDecision A} (l : list A) z : z ∈ dedup l <-> z ∈ l.
Proof.
  induction l as [|x l IH]; [done|]. destruct l as [|y l]; [done|].
  change (dedup (x :: y :: l)) with
    (if decide (x = y) then dedup (y :: l) else x :: dedup (y :: l)).
  case_decide; [subst; rewrite IH; set_solver|]. rewrite !elem_of_cons, IH. set_solver.
Qed.

Lemma dedup_nil_iff {A} `{EqDecision A} (l : list A) : dedup l = [] <-> l = [].
Proof.
  split; [|by intros ->]. intros H. destruct l as [|x l]; [done|].
  assert (Hx : x ∈ dedup (x :: l)) by (rewrite elem_of_dedup; left).
  rewrite H in Hx. by apply elem_of_nil in Hx.
Qed.

Lemma fmap_inverse {A B} (f : A -> B) (g : B -> A) (l : list A) :
  (forall x, g (f x) = x) -> g <$> (f <$> l) = l.
Proof.
  intros H. induction l as [|x l IH]; [done|]. rewrite !fmap_cons. by rewrite H, IH.
Qed.

Lemma fmap_inverse_to {A B C} (f : A -> B) (g : B -> C) (h : A -> C) (l : list A) :
  (forall x, g (f x) = h x) -> g <$> (f <$> l) = h <$> l.
Proof.
  intros H. induction l as [|x l IH]; [done|]. rewrite !fmap_cons. by rewrite H, IH.
Qed.

Lemma cons_eq_iff {A} (x y : A) l k : x :: l = y :: k <-> x = y /\ l = k.
Proof. naive_solver. Qed.

(** A computation that can only panic, used where errors are possible. *)
Definition lift_panic {E A} (m : res Empty_set A) : res E A :=
  match m with Ok a => Ok a | Err e => match e with end | Panic => Panic end.

Lemma omap_cons_eq {A B} (f : A -> option B) x l :
  omap f (x :: l) = match f x with Some y => y :: omap f l | None => omap f l end.
Proof. done. Qed.

(** [Iterator::filter] with a test that may panic. *)
Definition filter_res {E A} (f : A -> res E bool) : list A -> res E (list A) :=
  fix go (l : list A) :=
    match l with
    | [] => Ok []
    | x :: l =>
        res_bind (f x) (fun b : bool =>
          res_bind (go l) (fun r => Ok (if b then x :: r else r)))
    end.

Lemma filter_res_elem {E A} (f : A -> res E bool) l r x :
  filter_res f l = Ok r -> x ∈ r <-> x ∈ l /\ f x = Ok true.
Proof.
  revert r. induction l as [|y l IH]; intros r H; cbn [filter_res] in H.
  { injection H as <-. set_solver. }
  fold (filter_res f) in H. res_inv. rewrite elem_of_cons. specialize (IH _ eq_refl).
  destruct a; rewrite ?elem_of_cons, IH; split; intros Hx; [| | |].
  - destruct Hx as [->|[? ?]]; auto.
  - destruct Hx as [[->|?] ?]; auto.
  - destruct Hx; auto.
  - destruct Hx as [[->|?] ?]; [congruence|auto].
Qed.

Lemma filter_res_ok {E A} (f : A -> res E bool) (p : A -> bool) l :
  (forall x, x ∈ l -> f x = Ok (p x)) -> filter_res f l = Ok (filter (fun x => p x) l).
Proof.
  induction l as [|x l IH]; intros Hf; [done|]. simpl. rewrite (Hf x) by left. cbn [res_bind].
  rewrite IH by (intros y Hy; apply Hf; by right). simpl. rewrite filter_cons.
  by destruct (p x).
Qed.

(** ** Chains of steps

    [fold_rel R l s s']: from [s] to [s'] by one step for each element, in
    order.  It is the meaning of a loop whose turns mean [R]. *)
Inductive fold_rel {A S : Type} (R : A -> S -> S -> Prop) : list A -> S -> S -> Prop :=
| fold_rel_nil s : fold_rel R [] s s
| fold_rel_cons x l s s1 s' : R x s s1 -> fold_rel R l s1 s' -> fold_rel R (x :: l) s s'.

Section fold_rel.
Context {A S : Type}.
Implicit Types (R : A -> S -> S -> Prop) (l : list A).

Lemma fold_rel_relates R (Q : S -> S -> Prop) `{!PreOrder Q} l s s' :
  (forall x s s', x ∈ l -> R x s s' -> Q s s') -> fold_rel R l s s' -> Q s s'.
Proof.
  intros HR Hf. revert HR. induction Hf as [s|x l s s1 s' Hx _ IH]; intros HR; [reflexivity|].
  transitivity s1; [apply (HR x); [left|done]|]. apply IH. intros y t t' Hy. apply HR. by right.
Qed.

Lemma fold_rel_mono R R' l s s' :
  (forall x s s', x ∈ l -> R x s s' -> R' x s s') -> fold_rel R l s s' -> fold_rel R' l s s'.
Proof.
  intros HR Hf. revert HR. induction Hf as [s|x l s s1 s' Hx _ IH]; intros HR; [constructor|].
  econstructor; [apply HR; [left|exact Hx]|]. apply IH. intros y t t' Hy. apply HR. by right.
Qed.

Lemma fold_rel_fold_res {E} (f : S -> A -> res E S) l s s' :
  fold_res f s l = Ok s' <-> fold_rel (fun x s s' => f s x = Ok s') l s s'.
Proof.
  split.
  - revert s. induction l as [|x l IH]; intros s; cbn [fold_res]; [intros [= <-]; constructor|].
    destruct (f s x) as [s1| |] eqn:Hx; cbn [res_bind]; try done.
    intros Hl. econstructor; [exact Hx|]. by apply IH.
  - induction 1 as [|x l s s1 s' Hx _ IH]; [done|]. cbn [fold_res]. by rewrite Hx.
Qed.
End fold_rel.

(** A loop over the elements a test selects is one over all that passes over the
    others. *)
Lemma fold_rel_filter_res {E A S} (f : A -> res E bool) (R : A -> S -> S -> Prop) l r s s' :
  filter_res f l = Ok r -> fold_rel R r s s' ->
  fold_rel (fun x s s' => f x = Ok true /\ R x s s' \/ f x = Ok false /\ s' = s) l s s'.
Proof.
  revert r s. induction l as [|x l IH]; intros r s; cbn [filter_res].
  { intros [= <-] Hf. inversion Hf. constructor. }
  fold (filter_res f). destruct (f x) as [b| |] eqn:Hx; cbn [res_bind]; try done.
  destruct (filter_res f l) as [r'| |]; cbn [res_bind]; try done. intros [= <-] Hf.
  destruct b; [inversion_clear Hf|]; (econstructor; [|by eapply IH]); auto.
Qed.
