(* ===== verification/Sorting.v ===== *)
(** * Rust's stable sort

    [slice::sort] and [sort_by] of the language's library: the stable sort by a
    comparison that may itself panic.  It is executable, as an insertion sort;
    the library promises a stable sorted permutation for a total preorder, and
    [stable_sorted_unique] shows there is only one, so the algorithm the
    library uses does not matter for the comparisons the program has. *)
From stdpp Require Import prelude list sorting.
From Stdlib Require Import ZArith Lia.
From S2P Require Import Prelude.

Section sort.
Context {E A : Type}.

(** Insert behind every element that is not greater. *)
Fixpoint insert_by (cmp : A -> A -> res E comparison) (x : A) (l : list A)
  : res E (list A) :=
  match l with
  | [] => Ok [x]
  | y :: l' =>
      let? c := cmp y x in
      match c with
      | Gt => Ok (x :: l)
      | _ => let? r := insert_by cmp x l' in Ok (y :: r)
      end
  end.

Definition sort_by (cmp : A -> A -> res E comparison) (l : list A) : res E (list A) :=
  fold_res (fun acc x => insert_by cmp x acc) [] l.
End sort.

(** ** Total preorders given by a comparison *)
Section total.
Context {A : Type} (c : A -> A -> comparison).

Definition cle (x y : A) : Prop := c x y <> Gt.

(** What the documentation of [Ord] asks of [cmp] on the elements at hand. *)
Record total_preorder_on (P : A -> Prop) : Prop := {
  tp_opp : forall x y, P x -> P y -> c y x = CompOpp (c x y);
  tp_trans : forall x y z, P x -> P y -> P z -> cle x y -> cle y z -> cle x z;
}.

Definition same_class (x y : A) : bool :=
  match c x y with Eq => true | _ => false end.

(** A stable sorted rearrangement: sorted, and the elements of a class are
    those of the original list in their original order. *)
Definition stable_sorted (l r : list A) : Prop :=
  l ≡ₚ r /\ StronglySorted cle r
  /\ forall x, x ∈ l -> filter (fun y => same_class x y) r = filter (fun y => same_class x y) l.

Fixpoint insert_pure (x : A) (l : list A) : list A :=
  match l with
  | [] => [x]
  | y :: l' => match c y x with Gt => x :: l | _ => y :: insert_pure x l' end
  end.

Definition sort_pure (l : list A) : list A :=
  foldl (fun acc x => insert_pure x acc) [] l.

Lemma insert_pure_perm x l : insert_pure x l ≡ₚ x :: l.
Proof.
  induction l as [|y l IH]; simpl; [done|].
  destruct (c y x); rewrite ?IH; try done; by rewrite Permutation_swap.
Qed.

Lemma foldl_insert_perm acc l :
  foldl (fun acc x => insert_pure x acc) acc l ≡ₚ acc ++ l.
Proof.
  revert acc. induction l as [|x l IH]; intros acc; simpl; [by rewrite app_nil_r|].
  rewrite IH, insert_pure_perm. apply Permutation_middle.
Qed.

Lemma sort_pure_perm l : sort_pure l ≡ₚ l.
Proof. apply (foldl_insert_perm []). Qed.

Section preorder.
Context (P : A -> Prop) (TP : total_preorder_on P).

Lemma tp_refl x : P x -> c x x = Eq.
Proof.
  intros Hx. pose proof (tp_opp P TP x x Hx Hx) as H. by destruct (c x x).
Qed.

Lemma tp_gt_le x y : P x -> P y -> c y x = Gt -> cle x y.
Proof. intros Hx Hy H. unfold cle. rewrite (tp_opp P TP y x Hy Hx), H. done. Qed.

Lemma tp_class_sym x y : P x -> P y -> same_class x y = same_class y x.
Proof.
  intros Hx Hy. unfold same_class. rewrite (tp_opp P TP x y Hx Hy). by destruct (c x y).
Qed.

(** Members of a class compare alike with everything. *)
Lemma tp_class_gt x y z :
  P x -> P y -> P z -> same_class z x = true -> same_class z y = true -> c y x = Eq.
Proof.
  unfold same_class. intros Hx Hy Hz H1 H2.
  destruct (c z x) eqn:E1; try done. destruct (c z y) eqn:E2; try done.
  assert (L1 : cle y x).
  { apply (tp_trans P TP y z x); try done; unfold cle; [|by rewrite E1].
    by rewrite (tp_opp P TP z y Hz Hy), E2. }
  assert (L2 : cle x y).
  { apply (tp_trans P TP x z y); try done; unfold cle; [|by rewrite E2].
    by rewrite (tp_opp P TP z x Hz Hx), E1. }
  unfold cle in *. rewrite (tp_opp P TP y x Hy Hx) in L2. by destruct (c y x).
Qed.

Lemma insert_pure_sorted x l :
  P x -> Forall P l -> StronglySorted cle l -> StronglySorted cle (insert_pure x l).
Proof.
  intros Hx Hl S. induction S as [|y l S IH F]; simpl; [by repeat constructor|].
  apply Forall_cons in Hl as [Hy Hl]. specialize (IH Hl).
  assert (Hins : cle y x -> StronglySorted cle (y :: insert_pure x l)).
  { intros L. constructor; [done|]. rewrite insert_pure_perm. by constructor. }
  destruct (c y x) eqn:E; [apply Hins; unfold cle; by rewrite E..|].
  constructor; [by constructor|]. constructor; [by apply tp_gt_le|].
  rewrite Forall_forall in F, Hl |- *. intros z Hz.
  apply (tp_trans P TP x y z); auto. by apply tp_gt_le.
Qed.

Lemma insert_pure_class z x l :
  P z -> P x -> Forall P l -> StronglySorted cle l ->
  filter (fun y => same_class z y) (insert_pure x l)
  = filter (fun y => same_class z y) (l ++ [x]).
Proof.
  intros Hz Hx Hl S. induction S as [|y l S IH F]; simpl; [done|].
  apply Forall_cons in Hl as [Hy Hl]. specialize (IH Hl).
  destruct (c y x) eqn:E; [rewrite !filter_cons, IH; done..|].
  rewrite app_comm_cons, filter_app.
  destruct (same_class z x) eqn:Ezx.
  - assert (N : filter (fun y0 => same_class z y0) (y :: l) = []).
    { apply filter_none. intros w Hw Hc. apply Is_true_true in Hc.
      apply elem_of_cons in Hw as [->|Hw].
      - by rewrite (tp_class_gt x y z) in E.
      - rewrite Forall_forall in F, Hl. specialize (F w Hw). specialize (Hl w Hw).
        pose proof (tp_class_gt w x z Hl Hx Hz Hc Ezx) as E2.
        assert (cle y x); [|done].
        apply (tp_trans P TP y w x); try done. unfold cle.
        by rewrite (tp_opp P TP x w), E2. }
    rewrite N, !filter_cons, Ezx. simpl. rewrite filter_cons in N. by rewrite N.
  - rewrite !filter_cons, Ezx. simpl. rewrite filter_nil. by rewrite app_nil_r.
Qed.

Lemma sort_pure_loop acc l :
  Forall P acc -> Forall P l -> StronglySorted cle acc ->
  StronglySorted cle (foldl (fun acc x => insert_pure x acc) acc l)
  /\ forall z, P z ->
      filter (fun y => same_class z y) (foldl (fun acc x => insert_pure x acc) acc l)
      = filter (fun y => same_class z y) (acc ++ l).
Proof.
  revert acc. induction l as [|x l IH]; intros acc Ha Hl S; simpl.
  - split; [done|]. intros z _. by rewrite app_nil_r.
  - apply Forall_cons in Hl as [Hx Hl].
    destruct (IH (insert_pure x acc)) as [S' C']; [|done|by apply insert_pure_sorted|].
    { rewrite insert_pure_perm. by constructor. }
    split; [done|]. intros z Hz. rewrite (C' z Hz), !filter_app.
    rewrite insert_pure_class by done. rewrite filter_app, !filter_cons, filter_nil.
    rewrite <- app_assoc. f_equal. by destruct (decide (same_class z x)).
Qed.

Lemma sort_pure_stable_sorted l : Forall P l -> stable_sorted l (sort_pure l).
Proof.
  intros Hl. destruct (sort_pure_loop [] l) as [S C]; [by constructor|done|constructor|].
  split; [by rewrite sort_pure_perm|]. split; [done|].
  intros x Hx. apply C. rewrite Forall_forall in Hl. auto.
Qed.

(** There is one stable sorted rearrangement. *)
Lemma sorted_class_unique r1 r2 :
  Forall P r1 -> r1 ≡ₚ r2 -> StronglySorted cle r1 -> StronglySorted cle r2 ->
  (forall x, x ∈ r1 ->
    filter (fun y => same_class x y) r1 = filter (fun y => same_class x y) r2) ->
  r1 = r2.
Proof.
  intros Hr Hp S1. revert r2 Hp Hr.
  induction S1 as [|x r1 S1 IH F1]; intros r2 Hp Hr S2 C.
  { by apply Permutation_nil_l in Hp. }
  destruct S2 as [|y r2 S2 F2].
  { by apply symmetry, Permutation_nil_cons in Hp. }
  apply Forall_cons in Hr as [Hx Hr].
  assert (Hy : P y).
  { assert (Hin : y ∈ x :: r1) by (rewrite Hp; left).
    apply elem_of_cons in Hin as [->|Hin]; [done|]. rewrite Forall_forall in Hr. auto. }
  assert (Lxy : cle x y).
  { assert (Hin : y ∈ x :: r1) by (rewrite Hp; left).
    apply elem_of_cons in Hin as [->|Hin]; [unfold cle; by rewrite tp_refl|].
    rewrite Forall_forall in F1. auto. }
  assert (Lyx : cle y x).
  { assert (Hin : x ∈ y :: r2) by (rewrite <- Hp; left).
    apply elem_of_cons in Hin as [->|Hin]; [unfold cle; by rewrite tp_refl|].
    rewrite Forall_forall in F2. auto. }
  assert (Exy : c x y = Eq).
  { unfold cle in *. rewrite (tp_opp P TP x y Hx Hy) in Lyx. by destruct (c x y). }
  assert (x = y) as ->.
  { pose proof (C x ltac:(left)) as Cx. rewrite !filter_cons in Cx.
    rewrite !decide_True in Cx by (unfold same_class; by rewrite ?tp_refl, ?Exy).
    by injection Cx. }
  f_equal. apply Permutation_cons_inv in Hp. apply (IH r2 Hp Hr S2).
  intros z Hz. pose proof (C z ltac:(by right)) as Cz. rewrite !filter_cons in Cz.
  destruct (decide (same_class z y)); [by injection Cz|done].
Qed.

Lemma stable_sorted_unique l r1 r2 :
  Forall P l -> stable_sorted l r1 -> stable_sorted l r2 -> r1 = r2.
Proof.
  intros Hl (P1 & S1 & C1) (P2 & S2 & C2).
  apply sorted_class_unique; try done.
  - by rewrite <- P1.
  - by rewrite <- P1.
  - intros x Hx. rewrite <- P1 in Hx. by rewrite C1, C2.
Qed.
End preorder.

(** When no comparison fails, [sort_by] is the pure sort. *)
Lemma insert_by_ok {E} (cmp : A -> A -> res E comparison) x l :
  (forall y, y ∈ l -> cmp y x = Ok (c y x)) ->
  insert_by cmp x l = Ok (insert_pure x l).
Proof.
  induction l as [|y l IH]; intros H; [done|]. cbn [insert_by insert_pure].
  rewrite (H y) by left. cbn [res_bind].
  destruct (c y x); [rewrite IH; [done|]; intros z Hz; apply H; by right..|done].
Qed.

Lemma sort_by_ok {E} (cmp : A -> A -> res E comparison) l :
  (forall x y, x ∈ l -> y ∈ l -> cmp x y = Ok (c x y)) ->
  sort_by cmp l = Ok (sort_pure l).
Proof.
  intros H. unfold sort_by, sort_pure.
  assert (G : forall acc l', (forall x, x ∈ acc ++ l' -> x ∈ l) ->
    fold_res (fun acc x => insert_by cmp x acc) acc l'
    = Ok (foldl (fun acc x => insert_pure x acc) acc l')).
  { intros acc l'. revert acc. induction l' as [|x l' IH]; intros acc Hin; [done|].
    rewrite fold_res_cons. rewrite insert_by_ok.
    - cbn [res_bind]. rewrite IH; [done|]. intros z. rewrite insert_pure_perm. intros Hz.
      apply Hin. rewrite <- Permutation_middle. done.
    - intros y Hy. apply H; apply Hin; set_solver. }
  apply G. done.
Qed.
End total.

Lemma total_preorder_weaken {A} (c : A -> A -> comparison) (P Q : A -> Prop) :
  (forall x, Q x -> P x) -> total_preorder_on c P -> total_preorder_on c Q.
Proof. intros H [O T]. split; eauto. Qed.

(** Comparing by an integer key is a total preorder. *)
Lemma key_total_preorder {A} (k : A -> Z) P :
  total_preorder_on (fun x y => Z.compare (k x) (k y)) P.
Proof.
  split.
  - intros x y _ _. apply Z.compare_antisym.
  - unfold cle. intros x y z _ _ _. rewrite !Z.compare_gt_iff. lia.
Qed.
