(* ===== verification/GraphqlTypes.v ===== *)
(** * Shared GraphQL data

    The syntax-tree data of the third-party [graphql_parser] crate that the
    source matches on (values, types, source positions) and the error type of
    query execution, [graph/src/data/query/error.rs]. *)

From stdpp Require Import prelude list strings.
From Stdlib Require Import ZArith Floats.SpecFloat.
From S2P Require Import Prelude.

Record Pos := mk_Pos { pos_line : Z; pos_column : Z }.

(** [graphql_parser::schema::Type]. *)
Inductive GType :=
| NamedType (name : string)
| ListType (inner : GType)
| NonNullType (inner : GType).

#[export] Instance GType_eq_dec : EqDecision GType.
Proof. solve_decision. Defined.

(** [graphql_parser::query::Value].  An integer is the [Number] of the crate,
    an object is the [BTreeMap] as the list of its bindings in key order. *)
Inductive qvalue :=
| QVariable (name : string)
| QInt (n : Z)
| QFloat (f : spec_float)
| QString (s : string)
| QBoolean (b : bool)
| QNull
| QEnum (name : string)
| QList (l : list qvalue)
| QObject (fields : list (string * qvalue)).

Inductive QueryExecutionError :=
| OperationNameRequired
| OperationNotFound (s : string)
| NotSupported (s : string)
| NoRootSubscriptionObjectType
| NonNullError (p : Pos) (s : string)
| ListValueError (p : Pos) (s : string)
| NamedTypeError (s : string)
| AbstractTypeError (s : string)
| InvalidArgumentError (p : Pos) (name : string) (v : qvalue)
| MissingArgumentError (p : Pos) (name : string)
| InvalidVariableTypeError (p : Pos) (name : string)
| MissingVariableError (p : Pos) (name : string)
| ResolveEntityError (id e q1 q2 : string)
| ResolveEntitiesError (s : string)
| OrderByNotSupportedError (entity field : string)
| OrderByNotSupportedForType (s : string)
| FilterNotSupportedError (v filter : string)
| UnknownField (p : Pos) (t s : string)
| EmptyQuery
| MultipleSubscriptionFields
| SubgraphDeploymentIdError (s : string)
| RangeArgumentsError (args : list string) (first_limit : Z)
| InvalidFilterError
| EntityFieldError (e a : string)
| ListTypesError (s : string) (l : list string)
| ListFilterError (f : string)
| ValueParseError (t e : string)
| AttributeTypeError (value : qvalue) (ty : GType)
| EntityParseError (s : string)
| StoreErr (s : string)
| QTimeout
| EmptySelectionSet (s : string)
| AmbiguousDerivedFromResult (p : Pos) (field target_type target_field : string)
| QUnimplemented (s : string)
| EnumCoercionError (p : Pos) (name : string) (v : qvalue) (e : string) (l : list string)
| ScalarCoercionError (p : Pos) (name : string) (v : qvalue) (s : string)
| TooComplex (complexity max_complexity : Z)
| TooDeep (max_depth : Z)
| TooExpensive
| Throttled
| UndefinedFragment (s : string)
| IncorrectPrefetchResult (slow prefetch : qvalue)
| PanicError (s : string)
| EventStreamError
| FulltextQueryRequiresFilter
| DeploymentReverted.

(** Results of query execution. *)
Abbreviation qres := (res QueryExecutionError).

(** Induction on values that reaches list elements and object fields. *)
Section qvalue_rect.
Variable P : qvalue -> Prop.
Hypothesis HVar : forall s, P (QVariable s).
Hypothesis HInt : forall i, P (QInt i).
Hypothesis HFloat : forall f, P (QFloat f).
Hypothesis HString : forall s, P (QString s).
Hypothesis HBool : forall b, P (QBoolean b).
Hypothesis HNull : P QNull.
Hypothesis HEnum : forall s, P (QEnum s).
Hypothesis HList : forall l, Forall P l -> P (QList l).
Hypothesis HObject : forall l, Forall (fun kv => P kv.2) l -> P (QObject l).

Fixpoint qvalue_nested_ind (v : qvalue) : P v :=
    match v with
    | QVariable s => HVar s | QInt i => HInt i | QFloat f => HFloat f
    | QString s => HString s | QBoolean b => HBool b | QNull => HNull
    | QEnum s => HEnum s
    | QList l => HList l ((fix go l : Forall P l :=
        match l with
        | [] => Forall_nil_2 P
        | x :: l => Forall_cons_2 P x l (qvalue_nested_ind x) (go l)
        end) l)
    | QObject l => HObject l ((fix go l : Forall (fun kv => P kv.2) l :=
        match l with
        | [] => Forall_nil_2 _
        | x :: l => Forall_cons_2 (fun kv => P kv.2) x l (qvalue_nested_ind x.2) (go l)
        end) l)
    end.
End qvalue_rect.

#[export] Instance spec_float_eq_dec : EqDecision spec_float.
Proof. solve_decision. Defined.
