(* ===== verification/StoreValue.v ===== *)
(** * Attribute values, entities and identifiers

    Models [graph/src/data/store/mod.rs] (values, value types, entities, node
    ids), the representation part of [graph/src/data/store/scalar.rs] and the
    identifier checks of [graph/src/data/subgraph/mod.rs].

    A [BigInt] is a [Z] and a [BigDecimal] a pair of digits and scale, as in
    the crates the source wraps; equality of decimals is numeric, so equality
    of values is coarser than Leibniz equality and is the setoid equality
    [≡] of this development.  The textual conversions of the third-party
    number crates are section variables. *)

From stdpp Require Import prelude list strings gmap fin_maps.
From Stdlib Require Import Ascii.
From Stdlib Require Import ZArith Lia.
From Stdlib Require Strings.Byte.
From Stdlib Require Import DecimalString DecimalZ.
From S2P Require Import Prelude.
From S2P Require Import GraphqlTypes.

#[export] Instance byte_eq_dec : EqDecision Byte.byte := Strings.Byte.byte_eq_dec.

(** ** Decimals: the number [bd_digits * 10 ^ (- bd_scale)]. *)
Record BigDecimal := mk_BigDecimal { bd_digits : Z; bd_scale : Z }.

Definition BigDecimal_eqb (a b : BigDecimal) : bool :=
  if (bd_scale a <=? bd_scale b)%Z
  then (bd_digits a * 10 ^ (bd_scale b - bd_scale a) =? bd_digits b)%Z
  else (bd_digits b * 10 ^ (bd_scale a - bd_scale b) =? bd_digits a)%Z.

Lemma pow10_pos n : (0 <= n -> 0 < 10 ^ n)%Z.
Proof. intros. apply Z.pow_pos_nonneg; lia. Qed.

(** Scaling both decimals to any common exponent decides equality. *)
Lemma BigDecimal_eqb_common a b (s : Z) :
  (bd_scale a <= s)%Z -> (bd_scale b <= s)%Z ->
  BigDecimal_eqb a b = true <->
  (bd_digits a * 10 ^ (s - bd_scale a) = bd_digits b * 10 ^ (s - bd_scale b))%Z.
Proof.
  intros Ha Hb. unfold BigDecimal_eqb. destruct a as [da sa], b as [db sb]; simpl in *.
  destruct (Z.leb_spec sa sb) as [H|H]; rewrite Z.eqb_eq.
  - replace (s - sa)%Z with ((sb - sa) + (s - sb))%Z by lia.
    rewrite Z.pow_add_r by lia. pose proof (pow10_pos (s - sb)). nia.
  - replace (s - sb)%Z with ((sa - sb) + (s - sa))%Z by lia.
    rewrite Z.pow_add_r by lia. pose proof (pow10_pos (s - sa)). nia.
Qed.

(** ** Values *)

(** [ValueType], line for line. *)
Inductive ValueType :=
| VT_Boolean | VT_BigInt | VT_Bytes | VT_BigDecimal | VT_Int | VT_String | VT_List.

#[export] Instance ValueType_eq_dec : EqDecision ValueType.
Proof. solve_decision. Defined.

Definition ValueType_from_str (s : string) : res string ValueType :=
  if String.eqb s "Boolean" then Ok VT_Boolean
  else if String.eqb s "BigInt" then Ok VT_BigInt
  else if String.eqb s "Bytes" then Ok VT_Bytes
  else if String.eqb s "BigDecimal" then Ok VT_BigDecimal
  else if String.eqb s "Int" then Ok VT_Int
  else if String.eqb s "String" || String.eqb s "ID" then Ok VT_String
  else if String.eqb s "List" then Ok VT_List
  else Err s.

Definition is_scalar (s : string) : bool :=
  match ValueType_from_str s with
  | Ok VT_List => false
  | Ok _ => true
  | _ => false
  end.

Inductive Value :=
| VString (s : string)
| VInt (i : Z)
| VBigDecimal (d : BigDecimal)
| VBool (b : bool)
| VList (l : list Value)
| VNull
| VBytes (b : list Byte.byte)
| VBigInt (n : Z).

(** The induction principle for values that reaches the elements of lists. *)
Section value_rect.
Variable P : Value -> Prop.
Hypothesis HString : forall s, P (VString s).
Hypothesis HInt : forall i, P (VInt i).
Hypothesis HDec : forall d, P (VBigDecimal d).
Hypothesis HBool : forall b, P (VBool b).
Hypothesis HList : forall l, Forall P l -> P (VList l).
Hypothesis HNull : P VNull.
Hypothesis HBytes : forall b, P (VBytes b).
Hypothesis HBigInt : forall n, P (VBigInt n).

Fixpoint Value_nested_ind (v : Value) : P v :=
    match v with
    | VString s => HString s | VInt i => HInt i | VBigDecimal d => HDec d
    | VBool b => HBool b | VNull => HNull | VBytes b => HBytes b
    | VBigInt n => HBigInt n
    | VList l => HList l ((fix go l : Forall P l :=
        match l with
        | [] => Forall_nil_2 P
        | x :: l => Forall_cons_2 P x l (Value_nested_ind x) (go l)
        end) l)
    end.
End value_rect.

(** The derived [PartialEq] of [Value]. *)
Fixpoint Value_eqb (v w : Value) : bool :=
  match v, w with
  | VString a, VString b => String.eqb a b
  | VInt a, VInt b => Z.eqb a b
  | VBigDecimal a, VBigDecimal b => BigDecimal_eqb a b
  | VBool a, VBool b => Bool.eqb a b
  | VList a, VList b =>
      (fix go (a b : list Value) : bool :=
        match a, b with
        | [], [] => true
        | x :: a, y :: b => Value_eqb x y && go a b
        | _, _ => false
        end) a b
  | VNull, VNull => true
  | VBytes a, VBytes b => bool_decide (a = b)
  | VBigInt a, VBigInt b => Z.eqb a b
  | _, _ => false
  end.

#[export] Instance Value_equiv : Equiv Value := fun v w => Value_eqb v w = true.
#[export] Instance Value_equiv_dec : RelDecision (≡@{Value}).
Proof. intros v w. unfold equiv, Value_equiv. apply _. Defined.

Lemma Value_equiv_list l k : VList l ≡ VList k <-> Forall2 (≡) l k.
Proof.
  unfold equiv, Value_equiv. simpl. revert k.
  induction l as [|x l IH]; intros [|y k]; simpl.
  - split; [constructor|done].
  - split; [done|inversion 1].
  - split; [done|inversion 1].
  - rewrite andb_true_iff, IH. split.
    + intros [? ?]. by constructor.
    + by inversion 1.
Qed.

Lemma BigDecimal_eqb_refl d : BigDecimal_eqb d d = true.
Proof. apply (BigDecimal_eqb_common _ _ (bd_scale d)); lia. Qed.

Lemma BigDecimal_eqb_sym a b : BigDecimal_eqb a b = true -> BigDecimal_eqb b a = true.
Proof.
  rewrite !(BigDecimal_eqb_common _ _ (Z.max (bd_scale a) (bd_scale b))) by lia. lia.
Qed.

Lemma BigDecimal_eqb_trans a b c :
  BigDecimal_eqb a b = true -> BigDecimal_eqb b c = true -> BigDecimal_eqb a c = true.
Proof.
  rewrite !(BigDecimal_eqb_common _ _
    (Z.max (bd_scale a) (Z.max (bd_scale b) (bd_scale c)))) by lia. lia.
Qed.

#[export] Instance Value_equivalence : Equivalence (≡@{Value}).
Proof.
  split.
  - intros v. induction v as [| | | |l IH| | |] using Value_nested_ind;
      unfold equiv, Value_equiv; simpl.
    + apply String.eqb_refl.
    + apply Z.eqb_refl.
    + apply BigDecimal_eqb_refl.
    + apply Bool.eqb_reflx.
    + apply Value_equiv_list. induction IH; by constructor.
    + done.
    + by apply bool_decide_eq_true.
    + apply Z.eqb_refl.
  - intros v. induction v as [| | | |l IH| | |] using Value_nested_ind; intros [];
      unfold equiv, Value_equiv; simpl; try done.
    + rewrite !String.eqb_eq. done.
    + rewrite !Z.eqb_eq. done.
    + apply BigDecimal_eqb_sym.
    + rewrite !Bool.eqb_true_iff. done.
    + intros H%Value_equiv_list. apply Value_equiv_list. revert IH.
      induction H; intros IH; inversion IH; subst; constructor; auto.
    + rewrite !bool_decide_eq_true. done.
    + rewrite !Z.eqb_eq. done.
  - intros v. induction v as [| | | |l IH| | |] using Value_nested_ind; intros [] [];
      unfold equiv, Value_equiv; simpl; try done.
    + rewrite !String.eqb_eq. congruence.
    + rewrite !Z.eqb_eq. congruence.
    + apply BigDecimal_eqb_trans.
    + rewrite !Bool.eqb_true_iff. congruence.
    + intros H1%Value_equiv_list H2%Value_equiv_list. apply Value_equiv_list.
      revert H2. generalize l1. revert IH.
      induction H1; intros IH l2 H2; inversion H2; inversion IH; subst;
        constructor; eauto.
    + rewrite !bool_decide_eq_true. congruence.
    + rewrite !Z.eqb_eq. congruence.
Qed.

Lemma Value_eqb_VNull_r v : Value_eqb v VNull = true <-> v = VNull.
Proof. by destruct v. Qed.

(** ** The number and hex crates

    Textual conversions of [num-bigint], [bigdecimal] and [hex], and the
    integer view of the parser's [Number]: what the source takes from them,
    with the documented laws it relies on. *)
Class ScalarText := {
  hex_encode : list Byte.byte -> string;
  hex_decode : string -> res string (list Byte.byte);
  bigint_to_string : Z -> string;
  bigint_parse : string -> res string Z;
  bigdecimal_to_string : BigDecimal -> string;
  bigdecimal_parse : string -> res string BigDecimal;
  number_from_i32 : Z -> Z;
  number_as_i64 : Z -> option Z;
}.

(** [str::trim_start_matches("0x")]: drops every leading ["0x"]. *)
Fixpoint trim_0x (s : string) : string :=
  match s with
  | String "0"%char (String "x"%char r) => trim_0x r
  | _ => s
  end.

Class ScalarTextLaws {ST : ScalarText} : Prop := {
  hex_roundtrip b : hex_decode (hex_encode b) = Ok b;
(** hex digits: there is no ["x"] in an encoding *)
  hex_no_prefix b : trim_0x (hex_encode b) = hex_encode b;
  bigint_roundtrip n : bigint_parse (bigint_to_string n) = Ok n;
  bigdecimal_roundtrip d : exists d',
    bigdecimal_parse (bigdecimal_to_string d) = Ok d' /\ BigDecimal_eqb d' d = true;
  number_i32 i : is_i32 i -> number_as_i64 (number_from_i32 i) = Some i;
}.

Section conversions.
Context {ST : ScalarText}.

(** [Display] and [FromStr] of [Bytes]. *)
Definition Bytes_to_string (b : list Byte.byte) : string := "0x" +:+ hex_encode b.
Definition Bytes_from_str (s : string) : res string (list Byte.byte) :=
    hex_decode (trim_0x s).

(** The normalising constructor of [BigDecimal] is applied to what is
      parsed; it is a parameter here and is modelled in [Scalar]. *)
Variable normalize : BigDecimal -> BigDecimal.

Definition BigDecimal_from_str (s : string) : res string BigDecimal :=
    res_map normalize (bigdecimal_parse s).

(** [Value::from_query_value]: structural on the value; a [NonNullType]
      only changes the type. *)
Fixpoint from_query_value (value : qvalue) : GType -> qres Value :=
    fix on_type (ty : GType) : qres Value :=
      match ty with
      | NonNullType t => on_type t
      | ListType t =>
          match value with
          | QList values =>
              res_map VList (map_res (fun v => from_query_value v t) values)
          | QInt i =>
              res_map (fun i => VInt (wrap_i 32 i))
                (ok_or (number_as_i64 i) (NamedTypeError "Int"))
          | QBoolean b => Ok (VBool b)
          | QNull => Ok VNull
          | _ => Err (AttributeTypeError value ty)
          end
      | NamedType n =>
          match value with
          | QList values =>
              res_map VList (map_res (fun v => from_query_value v (NamedType n)) values)
          | QEnum e => Ok (VString e)
          | QString s =>
              if String.eqb n "Bytes" then
                res_map VBytes (map_err (ValueParseError "Bytes") (Bytes_from_str s))
              else if String.eqb n "BigInt" then
                res_map VBigInt (map_err (ValueParseError "BigInt") (bigint_parse s))
              else if String.eqb n "BigDecimal" then
                res_map VBigDecimal
                  (map_err (ValueParseError "BigDecimal") (BigDecimal_from_str s))
              else Ok (VString s)
          | QInt i =>
              res_map (fun i => VInt (wrap_i 32 i))
                (ok_or (number_as_i64 i) (NamedTypeError "Int"))
          | QBoolean b => Ok (VBool b)
          | QNull => Ok VNull
          | _ => Err (AttributeTypeError value ty)
          end
      end.

(** [impl From<Value> for query::Value]. *)
Fixpoint to_query_value (v : Value) : qvalue :=
    match v with
    | VString s => QString s
    | VInt i => QInt (number_from_i32 i)
    | VBigDecimal d => QString (bigdecimal_to_string d)
    | VBool b => QBoolean b
    | VNull => QNull
    | VList values => QList (to_query_value <$> values)
    | VBytes b => QString (Bytes_to_string b)
    | VBigInt n => QString (bigint_to_string n)
    end.
End conversions.

(** The values a field of a given type stores. *)
Fixpoint value_has_type (v : Value) : GType -> bool :=
  fix on_type (ty : GType) : bool :=
    match ty with
    | NonNullType t => on_type t
    | ListType t =>
        match v with
        | VList l => forallb (fun x => value_has_type x t) l
        | VNull => true
        | _ => false
        end
    | NamedType n =>
        match v with
        | VNull => true
        | VBytes _ => String.eqb n "Bytes"
        | VBigInt _ => String.eqb n "BigInt"
        | VBigDecimal _ => String.eqb n "BigDecimal"
        | VInt i => String.eqb n "Int" && bool_decide (is_i32 i)
        | VBool _ => String.eqb n "Boolean"
        | VString _ => negb (String.eqb n "Bytes" || String.eqb n "BigInt"
                             || String.eqb n "BigDecimal")
        | VList l => forallb (fun x => value_has_type x (NamedType n)) l
        end
    end.

(** [Value::type_name]. *)
Fixpoint type_name (v : Value) : string :=
  match v with
  | VBigDecimal _ => "BigDecimal"
  | VBigInt _ => "BigInt"
  | VBool _ => "Boolean"
  | VBytes _ => "Bytes"
  | VInt _ => "Int"
  | VList (x :: _) => "[" +:+ type_name x +:+ "]"
  | VList [] => "[Any]"
  | VNull => "Null"
  | VString _ => "String"
  end.

(** The projections [as_string], [as_int], ... *)
Definition as_string (v : Value) := match v with VString s => Some s | _ => None end.
Definition as_int (v : Value) := match v with VInt i => Some i | _ => None end.
Definition as_big_decimal (v : Value) := match v with VBigDecimal d => Some d | _ => None end.
Definition as_bool (v : Value) := match v with VBool b => Some b | _ => None end.
Definition as_list (v : Value) := match v with VList l => Some l | _ => None end.
Definition as_bytes (v : Value) := match v with VBytes b => Some b | _ => None end.
Definition as_bigint (v : Value) := match v with VBigInt n => Some n | _ => None end.

(** ** Entities: [HashMap<Attribute, Value>] *)
Abbreviation Attribute := string (only parsing).
Abbreviation Entity := (gmap string Value).

(** [PartialEq] of hash maps: the same keys with equal values. *)
Definition entity_eqb (a b : Entity) : bool :=
  bool_decide (map_relation (fun _ => (≡)) (fun _ _ => False) (fun _ _ => False) a b).

Lemma entity_eqb_spec a b : entity_eqb a b = true <-> a ≡ b.
Proof.
  unfold entity_eqb. rewrite bool_decide_eq_true, map_equiv_iff. unfold map_relation.
  apply forall_proper. intros k. destruct (a !! k), (b !! k); simpl; split; intros Hk;
    try done; try (by constructor); by inversion Hk.
Qed.

#[export] Instance entity_equiv_dec : RelDecision (≡@{Entity}).
Proof.
  intros a b. destruct (entity_eqb a b) eqn:Hab.
  - left. by apply entity_eqb_spec.
  - right. rewrite <-entity_eqb_spec. congruence.
Defined.

Definition entity_new : Entity := ∅.

(** [Entity::id] *)
Definition entity_id (e : Entity) : res string string :=
  match e !! "id" with
  | None => Err "Entity is missing an `id` attribute"
  | Some (VString s) => Ok s
  | Some _ => Err "Entity has non-string `id` attribute"
  end.

(** [Entity::set]: [HashMap::insert] of the converted arguments. *)
Definition entity_set (e : Entity) (name : string) (v : Value) : Entity := <[name := v]> e.

(** The bodies of the two merge loops; the loops run over the entries of the
    update in the (unspecified) order of a hash map. *)
Definition merge_step (e : Entity) (kv : string * Value) : Entity := <[kv.1 := kv.2]> e.
Definition merge_remove_null_step (e : Entity) (kv : string * Value) : Entity :=
  match kv.2 with
  | VNull => delete kv.1 e
  | v => <[kv.1 := v]> e
  end.

(** [Entity::merge] and [Entity::merge_remove_null_fields] *)
Definition merge (e update : Entity) : Entity :=
  foldl merge_step e (map_to_list update).
Definition merge_remove_null_fields (e update : Entity) : Entity :=
  foldl merge_remove_null_step e (map_to_list update).

(** ** Identifiers *)
Definition is_ascii_digit (c : ascii) : bool :=
  (48 <=? nat_of_ascii c)%nat && (nat_of_ascii c <=? 57)%nat.
Definition is_ascii_alphabetic (c : ascii) : bool :=
  ((65 <=? nat_of_ascii c)%nat && (nat_of_ascii c <=? 90)%nat)
  || ((97 <=? nat_of_ascii c)%nat && (nat_of_ascii c <=? 122)%nat).
Definition is_ascii_alphanumeric (c : ascii) : bool :=
  is_ascii_alphabetic c || is_ascii_digit c.

(** [s.chars().all(p)] for a predicate that only accepts ASCII characters:
    a multi-byte character has no ASCII byte, so the test on the bytes of the
    string is the test on its characters. *)
Fixpoint all_chars (p : ascii -> bool) (s : string) : bool :=
  match s with
  | EmptyString => true
  | String c r => p c && all_chars p r
  end.

Definition id_char (c : ascii) : bool := is_ascii_alphanumeric c || Ascii.eqb c "_".

(** [NodeId::new] *)
Definition NodeId_new (s : string) : res unit string :=
  if (63 <? String.length s)%nat then Err tt
  else if negb (all_chars id_char s) then Err tt
  else Ok s.

(** [SubgraphDeploymentId::new]: the error is the rejected string. *)
Abbreviation SubgraphDeploymentId := string (only parsing).
Definition SubgraphDeploymentId_new (s : string) : res string SubgraphDeploymentId :=
  if (46 <? String.length s)%nat then Err s
  else if negb (all_chars id_char s) then Err s
  else Ok s.

Definition SUBGRAPHS_ID : SubgraphDeploymentId := "subgraphs".
Definition is_meta (id : SubgraphDeploymentId) : bool := String.eqb id SUBGRAPHS_ID.

(** [s.split("/")] *)
Fixpoint split_slash (s : string) : list string :=
  match s with
  | EmptyString => [EmptyString]
  | String c r =>
      if Ascii.eqb c "/" then EmptyString :: split_slash r
      else match split_slash r with
           | p :: ps => String c p :: ps
           | [] => [String c EmptyString]
           end
  end.

Fixpoint last_char (s : string) : option ascii :=
  match s with
  | EmptyString => None
  | String c EmptyString => Some c
  | String _ r => last_char r
  end.
Definition first_char (s : string) : option ascii :=
  match s with EmptyString => None | String c _ => Some c end.

Fixpoint any_char (p : ascii -> bool) (s : string) : bool :=
  match s with
  | EmptyString => false
  | String c r => p c || any_char p r
  end.

Definition name_char (c : ascii) : bool :=
  is_ascii_alphanumeric c || Ascii.eqb c "-" || Ascii.eqb c "_" || Ascii.eqb c "/".

(** The loop body of [SubgraphName::new] on one part; [unwrap] of the first
    and last character may panic. *)
Definition check_name_part (part : string) : res unit unit :=
  if String.eqb part "" || (32 <? String.length part)%nat then Err tt
  else if String.eqb part "graphql" then Err tt
  else
    let? first := unwrap (first_char part) in
    let? last := unwrap (last_char part) in
    if negb (is_ascii_alphanumeric first) || negb (is_ascii_alphanumeric last)
       || negb (any_char is_ascii_alphabetic part)
    then Err tt else Ok tt.

(** [SubgraphName::new] *)
Definition SubgraphName_new (s : string) : res unit string :=
  if String.eqb s "" || (255 <? String.length s)%nat then Err tt
  else if negb (all_chars name_char s) then Err tt
  else
    let? _ := map_res check_name_part (split_slash s) in
    Ok s.

(** [SubgraphVersionSummary] and [AssignmentEvent] *)
Record SubgraphVersionSummary := {
  sv_id : string;
  sv_subgraph_id : string;
  sv_deployment_id : SubgraphDeploymentId;
  sv_pending : bool;
  sv_current : bool;
}.

Inductive AssignmentEvent :=
| AE_Add (subgraph_id : SubgraphDeploymentId) (node_id : string)
| AE_Remove (subgraph_id : SubgraphDeploymentId) (node_id : string).
Definition AssignmentEvent_node_id (e : AssignmentEvent) : string :=
  match e with AE_Add _ n => n | AE_Remove _ n => n end.

(** ** Theorems on merging *)

(** What an update does to the value of one attribute. *)
Definition strip_null (o : option Value) : option Value :=
  match o with Some VNull => None | o => o end.

Definition merge_remove_null_spec (cur upd : option Value) : option Value :=
  match upd with None => cur | Some v => strip_null (Some v) end.

Lemma foldl_merge_lookup l e k :
  NoDup l.*1 ->
  foldl merge_step e l !! k =
  match (list_to_map l : Entity) !! k with Some v => Some v | None => e !! k end.
Proof.
  revert e. induction l as [|[k' v] l IH]; intros e Hnd; simpl; [by rewrite lookup_empty|].
  inversion Hnd as [|? ? Hk' Hl]; subst. rewrite IH by done. unfold merge_step. simpl.
  destruct (decide (k' = k)) as [->|Hne].
  - rewrite !lookup_insert_eq.
    by rewrite (proj1 (not_elem_of_list_to_map l k)).
  - by rewrite !lookup_insert_ne.
Qed.

Lemma foldl_merge_remove_null_lookup l e k :
  NoDup l.*1 ->
  foldl merge_remove_null_step e l !! k =
  merge_remove_null_spec (e !! k) ((list_to_map l : Entity) !! k).
Proof.
  revert e. induction l as [|[k' v] l IH]; intros e Hnd; simpl; [by rewrite lookup_empty|].
  inversion Hnd as [|? ? Hk' Hl]; subst. rewrite IH by done.
  destruct (decide (k' = k)) as [->|Hne].
  - rewrite lookup_insert_eq, (proj1 (not_elem_of_list_to_map l k)) by done.
    unfold merge_remove_null_step; destruct v; simpl;
      by rewrite ?lookup_insert_eq, ?lookup_delete_eq.
  - rewrite lookup_insert_ne by done. unfold merge_remove_null_step; destruct v; simpl;
      by rewrite ?lookup_insert_ne, ?lookup_delete_ne.
Qed.

Lemma merge_union e u : merge e u = u ∪ e.
Proof.
  apply map_eq. intros k. unfold merge.
  rewrite foldl_merge_lookup, list_to_map_to_list by apply NoDup_fst_map_to_list.
  rewrite lookup_union. by destruct (u !! k), (e !! k).
Qed.

Lemma merge_remove_null_lookup e u k :
  merge_remove_null_fields e u !! k = merge_remove_null_spec (e !! k) (u !! k).
Proof.
  unfold merge_remove_null_fields.
  by rewrite foldl_merge_remove_null_lookup, list_to_map_to_list
    by apply NoDup_fst_map_to_list.
Qed.
#[export] Hint Rewrite merge_union merge_remove_null_lookup : gn.

(** An entity that stores no nulls, the form in which the store keeps them. *)
Definition no_nulls (e : Entity) : Prop := forall k, e !! k <> Some VNull.

Lemma merge_remove_null_no_nulls e u :
  no_nulls e -> no_nulls (merge_remove_null_fields e u).
Proof.
  intros He k. rewrite merge_remove_null_lookup. specialize (He k).
  destruct (u !! k) as [[]|]; simpl; done.
Qed.

(** Merging twice with null removal is merging once with the merged update:
    the law that lets updates be accumulated before they are applied. *)
Lemma merge_remove_null_assoc e u1 u2 :
  merge_remove_null_fields (merge_remove_null_fields e u1) u2
  = merge_remove_null_fields e (merge u1 u2).
Proof.
  apply map_eq. intros k.
  rewrite !merge_remove_null_lookup, merge_union, lookup_union.
  by destruct (u2 !! k) as [[]|], (u1 !! k) as [[]|]; simpl.
Qed.

Lemma merge_remove_null_empty e : merge_remove_null_fields e ∅ = e.
Proof. done. Qed.

#[export] Instance merge_remove_null_proper :
  Proper ((≡@{Entity}) ==> (≡@{Entity}) ==> (≡@{Entity})) merge_remove_null_fields.
Proof.
  intros e1 e2 He u1 u2 Hu k. rewrite !merge_remove_null_lookup.
  specialize (He k). specialize (Hu k). inversion Hu as [v w Hvw|]; simpl; [|done].
  destruct v, w; simpl; try done; try by constructor.
Qed.

(** Entities differ only in which absent fields are written as nulls. *)
Definition null_equiv (a b : Entity) : Prop := forall k, strip_null (a !! k) = strip_null (b !! k).

(** ** Theorems on identifiers *)
Definition valid_name_part (part : string) : Prop :=
  (0 < String.length part <= 32)%nat /\ part <> "graphql" /\
  (exists c, first_char part = Some c /\ is_ascii_alphanumeric c = true) /\
  (exists c, last_char part = Some c /\ is_ascii_alphanumeric c = true) /\
  any_char is_ascii_alphabetic part = true.

Lemma last_char_nonempty c s : exists d, last_char (String c s) = Some d.
Proof. revert c. induction s as [|d s IH]; intros c; simpl; [by eexists|]. apply IH. Qed.

Lemma check_name_part_spec part :
  check_name_part part = Ok tt /\ valid_name_part part
  \/ check_name_part part = Err tt /\ ~ valid_name_part part.
Proof.
  unfold check_name_part, valid_name_part.
  destruct (String.eqb_spec part "") as [->|Hne]; simpl.
  { right. split; [done|]. intros [[]]. simpl in *. lia. }
  destruct (Nat.ltb_spec 32 (String.length part)) as [Hlen|Hlen].
  { right. split; [done|]. intros [[]]. lia. }
  destruct (String.eqb_spec part "graphql") as [->|Hgql].
  { right. split; [done|]. intros (_ & Hg & _). done. }
  destruct part as [|c r]; [done|]. simpl first_char.
  destruct (last_char_nonempty c r) as [d Hd]. rewrite Hd.
  simpl res_bind.
  destruct (is_ascii_alphanumeric c) eqn:Hc; simpl;
    [|right; split; [done|]; intros (_ & _ & (c' & [= <-] & Hc') & _); congruence].
  destruct (is_ascii_alphanumeric d) eqn:Hd'; simpl;
    [|right; split; [done|]; intros (_ & _ & _ & (d' & [= <-] & ?) & _); congruence].
  destruct (is_ascii_alphabetic c || any_char is_ascii_alphabetic r) eqn:Ha; simpl;
    [left|right].
  - split; [done|]. split; [simpl in *; lia|]. eauto 10.
  - split; [done|]. intros (_ & _ & _ & _ & Hany). congruence.
Qed.

Lemma map_res_check_name_parts parts :
  (exists r, map_res check_name_part parts = Ok r) /\ Forall valid_name_part parts
  \/ map_res check_name_part parts = Err tt /\ ~ Forall valid_name_part parts.
Proof.
  induction parts as [|p parts IH]; simpl; [left; eauto|].
  destruct (check_name_part_spec p) as [[-> Hp]|[-> Hp]]; simpl.
  - destruct IH as [[[r ->] Hr]|[-> Hr]]; simpl; [left; eauto|right].
    split; [done|]. by inversion 1.
  - right. split; [done|]. by inversion 1.
Qed.

(** ** Round trip of values through query values *)
Fixpoint decimals (v : Value) : list BigDecimal :=
  match v with
  | VBigDecimal d => [d]
  | VList l => flat_map decimals l
  | _ => []
  end.

Section roundtrip.
Context {ST : ScalarText} {STL : ScalarTextLaws}.
Variable normalize : BigDecimal -> BigDecimal.

(** Decimals within the 34 significant digits that normalisation keeps. *)
Definition representable (d : BigDecimal) : Prop :=
    forall d', BigDecimal_eqb d' d = true -> BigDecimal_eqb (normalize d') d = true.

Lemma Bytes_roundtrip b : Bytes_from_str (Bytes_to_string b) = Ok b.
Proof.
    unfold Bytes_from_str, Bytes_to_string.
    change (trim_0x ("0x" +:+ hex_encode b)) with (trim_0x (hex_encode b)).
    by rewrite hex_no_prefix, hex_roundtrip.
Qed.

Lemma from_to_query_list (f : qvalue -> qres Value) l :
    Forall (fun x => exists x', f (to_query_value x) = Ok x' /\ x' ≡ x) l ->
    exists l', map_res f (to_query_value <$> l) = Ok l' /\ VList l' ≡ VList l.
Proof.
    induction 1 as [|x l (x' & Hx & Hxe) _ (l' & Hl & Hle)].
    - by exists [].
    - exists (x' :: l'). rewrite fmap_cons, map_res_cons, Hx. simpl res_bind.
      rewrite Hl. split; [done|].
      apply Value_equiv_list. constructor; [done|]. by apply Value_equiv_list.
Qed.

Lemma forallb_Forall_impl {A} (p : A -> bool) (P Q : A -> Prop) l :
    Forall (fun x => p x = true -> Q x -> P x) l ->
    forallb p l = true -> Forall Q l -> Forall P l.
Proof.
    induction 1 as [|x l Hx _ IH]; simpl; intros Hp HQ; [constructor|].
    apply andb_true_iff in Hp as [Hpx Hpl]. inversion HQ; subst. constructor; auto.
Qed.

Lemma Forall_decimals l :
    Forall representable (flat_map decimals l) ->
    Forall (fun v => Forall representable (decimals v)) l.
Proof.
    induction l as [|v l IH]; simpl; intros Hl; constructor.
    - by apply Forall_app in Hl as [? _].
    - apply IH. by apply Forall_app in Hl as [_ ?].
Qed.

Lemma from_to_query v : forall ty,
    value_has_type v ty = true -> Forall representable (decimals v) ->
    exists v', from_query_value normalize (to_query_value v) ty = Ok v' /\ v' ≡ v.
Proof.
    induction v as [s|i|d|b|l IH| |b|n] using Value_nested_ind; intros ty;
      induction ty as [name|t IHt|t IHt]; intros Hty Hdec;
      try (by apply IHt); simpl in *; try done; try (by eexists).
    - exists (VString s). apply negb_true_iff in Hty.
      destruct (String.eqb name "Bytes"), (String.eqb name "BigInt"),
        (String.eqb name "BigDecimal"); done.
    - apply andb_true_iff in Hty as [_ Hi%bool_decide_eq_true].
      rewrite number_i32 by done. simpl. rewrite wrap_i32_small by done. by eexists.
    - apply String.eqb_eq in Hty as ->. simpl.
      destruct (bigdecimal_roundtrip d) as (d' & Hd' & Hdd). unfold BigDecimal_from_str.
      rewrite Hd'. simpl. eexists. split; [done|]. inversion Hdec as [|? ? Hd]; subst.
      by apply Hd.
    - destruct (from_to_query_list
        (fun x => from_query_value normalize x (NamedType name)) l) as (l' & -> & Hl').
      + apply Forall_decimals in Hdec. eapply forallb_Forall_impl; [|apply Hty|apply Hdec].
        eapply Forall_impl; [apply IH|]. auto.
      + by eexists.
    - destruct (from_to_query_list
        (fun x => from_query_value normalize x t) l) as (l' & -> & Hl').
      + apply Forall_decimals in Hdec. eapply forallb_Forall_impl; [|apply Hty|apply Hdec].
        eapply Forall_impl; [apply IH|]. auto.
      + by eexists.
    - apply String.eqb_eq in Hty as ->. simpl. rewrite Bytes_roundtrip. by eexists.
    - apply String.eqb_eq in Hty as ->. simpl. rewrite bigint_roundtrip. by eexists.
Qed.
End roundtrip.

(** ** Properties *)

(** writing a stored value out as a GraphQL value and reading it back at
    the type of its field gives an equal value, for every value that has the
    type (decimals within the digits that normalisation keeps). *)
Lemma query_value_roundtrip {ST : ScalarText} {STL : ScalarTextLaws} normalize v ty :
  value_has_type v ty = true ->
  Forall (representable normalize) (decimals v) ->
  exists v', from_query_value normalize (to_query_value v) ty = Ok v' /\ v' ≡ v.
Proof. apply from_to_query. Qed.

(** the two merge loops do not depend on the iteration order of the
    update's hash map; every attribute ends up as the update's value or, where
    the update is silent, as it was, and a null in the update removes the
    attribute in [merge_remove_null_fields]. *)
Lemma merge_order_irrelevant (e u : Entity) (l : list (string * Value)) (k : string) :
  l ≡ₚ map_to_list u ->
  foldl merge_step e l !! k = match u !! k with Some v => Some v | None => e !! k end
  /\ foldl merge_remove_null_step e l !! k
     = match u !! k with
       | Some VNull => None
       | Some v => Some v
       | None => e !! k
       end.
Proof.
  intros Hl.
  assert (Hnd : NoDup l.*1) by (rewrite Hl; apply NoDup_fst_map_to_list).
  assert (Hm : (list_to_map l : Entity) = u).
  { rewrite (list_to_map_proper l (map_to_list u)) by done. apply list_to_map_to_list. }
  rewrite foldl_merge_lookup, foldl_merge_remove_null_lookup, Hm by done.
  split; [done|]. by destruct (u !! k) as [[]|].
Qed.

Lemma merge_order_irrelevant_witness :
  foldl merge_remove_null_step {["a" := VInt 1; "b" := VInt 2]}
    [("a", VNull); ("c", VInt 3)] !! "a" = None.
Proof.
  eapply eq_trans.
  - apply (merge_order_irrelevant {["a" := VInt 1; "b" := VInt 2]}
      {["a" := VNull; "c" := VInt 3]} [("a", VNull); ("c", VInt 3)] "a").
    vm_compute. first [reflexivity | apply Permutation_swap].
  - reflexivity.
Defined.

(** [SubgraphName::new] never panics on the [unwrap]s of the first and
    last character, accepts exactly the names whose [/]-separated parts are
    all well formed, and returns the name it was given. *)
Lemma SubgraphName_new_spec (s : string) :
  SubgraphName_new s <> Panic /\
  (forall n, SubgraphName_new s = Ok n <->
     n = s /\ (0 < String.length s <= 255)%nat /\ all_chars name_char s = true
     /\ Forall valid_name_part (split_slash s)).
Proof.
  unfold SubgraphName_new.
  destruct (String.eqb_spec s "") as [->|Hne]; simpl.
  { split; [done|]. intros n. split; [done|]. simpl. intros (_ & ? & _). lia. }
  assert (0 < String.length s)%nat by (destruct s; simpl; [done|lia]).
  destruct (Nat.ltb_spec 255 (String.length s)) as [Hl|Hl].
  { split; [done|]. intros n. split; [done|]. intros (_ & ? & _). lia. }
  destruct (all_chars name_char s); simpl.
  2: { split; [done|]. intros n. split; [done|]. intros (_ & _ & ? & _). done. }
  destruct (map_res_check_name_parts (split_slash s)) as [[[r ->] Hf]|[-> Hf]]; simpl.
  - split; [done|]. intros n. split; [intros [= <-]|intros (-> & _)]; auto.
  - split; [done|]. intros n. split; [done|]. tauto.
Qed.

(** ** A concrete instance of the crates, for the witnesses *)
Module TextInstance.
Definition hex_digit (n : nat) : ascii :=
    ascii_of_nat (if (n <? 10)%nat then 48 + n else 87 + n).
Definition un_hex (c : ascii) : nat :=
    let n := nat_of_ascii c in if (n <? 58)%nat then n - 48 else n - 87.
Definition byte_nat (b : Byte.byte) : nat := N.to_nat (Strings.Byte.to_N b).

Fixpoint encode (b : list Byte.byte) : string :=
    match b with
    | [] => ""
    | x :: b => String (hex_digit (byte_nat x / 16)) (String (hex_digit (byte_nat x mod 16)) (encode b))
    end.
Fixpoint decode (s : string) : res string (list Byte.byte) :=
    match s with
    | EmptyString => Ok []
    | String c (String d r) =>
        match Strings.Byte.of_N (N.of_nat (un_hex c * 16 + un_hex d)) with
        | Some x => res_bind (decode r) (fun l => Ok (x :: l))
        | None => Err "InvalidHexCharacter"
        end
    | _ => Err "OddLength"
    end.

Definition print_Z (n : Z) : string := NilEmpty.string_of_int (Z.to_int n).
Definition parse_Z (s : string) : res string Z :=
    match NilEmpty.int_of_string s with
    | Some d => Ok (Z.of_int d)
    | None => Err "invalid digit found in string"
    end.
(** Digits, the letter e and the exponent. *)
Definition print_dec (d : BigDecimal) : string :=
    print_Z (bd_digits d) +:+ String "e" (print_Z (- bd_scale d)).
Fixpoint split_e (s : string) : option (string * string) :=
    match s with
    | EmptyString => None
    | String c r =>
        if Ascii.eqb c "e" then Some (EmptyString, r)
        else (fun p => (String c p.1, p.2)) <$> split_e r
    end.
Definition parse_dec (s : string) : res string BigDecimal :=
    match split_e s with
    | Some (a, b) =>
        match parse_Z a, parse_Z b with
        | Ok n, Ok e => Ok (mk_BigDecimal n (- e))
        | _, _ => Err "invalid"
        end
    | None => Err "invalid"
    end.

#[export] Instance text : ScalarText := {|
    hex_encode := encode; hex_decode := decode;
    bigint_to_string := print_Z; bigint_parse := parse_Z;
    bigdecimal_to_string := print_dec; bigdecimal_parse := parse_dec;
    number_from_i32 := id; number_as_i64 := Some;
  |}.

Lemma byte_digits x :
    Strings.Byte.of_N (N.of_nat (un_hex (hex_digit (byte_nat x / 16)) * 16
      + un_hex (hex_digit (byte_nat x mod 16)))) = Some x.
Proof. destruct x; vm_compute; reflexivity. Qed.

Lemma parse_print n : parse_Z (print_Z n) = Ok n.
Proof.
    unfold parse_Z, print_Z. rewrite NilEmpty.isi. by rewrite DecimalZ.of_to.
Qed.

Lemma split_no_e s : split_e s = None -> forall r, split_e (s +:+ String "e" r) = Some (s, r).
Proof.
    induction s as [|c s IH]; intros Hs r; [done|]. cbn in Hs. simpl.
    destruct (Ascii.eqb c "e"); [done|]. destruct (split_e s); [done|]. by rewrite IH.
Qed.

Lemma print_Z_no_e n : split_e (print_Z n) = None.
Proof.
    assert (forall d, split_e (NilEmpty.string_of_uint d) = None) as Hd by (induction d; cbn; by rewrite ?IHd).
    unfold print_Z. destruct (Z.to_int n); cbn; by rewrite Hd.
Qed.

Lemma parse_print_dec d : parse_dec (print_dec d) = Ok d.
Proof.
    unfold parse_dec, print_dec. rewrite split_no_e by apply print_Z_no_e. rewrite !parse_print, Z.opp_involutive.
    by destruct d.
Qed.

Lemma trim_0x_id c d r :
    d <> "x"%char -> trim_0x (String c (String d r)) = String c (String d r).
Proof.
    intros Hd. destruct c as [[] [] [] [] [] [] [] []]; try reflexivity.
    by destruct d as [[] [] [] [] [] [] [] []].
Qed.

Lemma no_x x : hex_digit (byte_nat x mod 16) <> "x"%char.
Proof. by destruct x. Qed.

#[export] Instance text_laws : ScalarTextLaws.
Proof.
    split.
    - intros b. simpl. induction b as [|x b IH]; [done|]. cbn [encode decode].
      by rewrite byte_digits, IH.
    - intros b. destruct b as [|x b]; [done|]. apply trim_0x_id, no_x.
    - apply parse_print.
    - intros d. exists d. split; [apply parse_print_dec|apply BigDecimal_eqb_refl].
    - done.
Qed.
End TextInstance.

Lemma query_value_roundtrip_witness :
  exists v', from_query_value (ST := TextInstance.text) id
    (to_query_value (ST := TextInstance.text) (VList [VBytes [Byte.x00; Byte.xff]; VNull])) (ListType (NamedType "Bytes"))
    = Ok v' /\ v' ≡ VList [VBytes [Byte.x00; Byte.xff]; VNull].
Proof.
  apply (query_value_roundtrip (STL := TextInstance.text_laws) id); [vm_compute; reflexivity|constructor].
Defined.
