(* ===== verification/LfuCache.v ===== *)
(** * The LFU cache

    Models [graph/src/util/lfu_cache.rs].  The third-party [priority_queue]
    keeps items (identified by their key) with a priority; it is a finite map
    from keys to the rest of the entry and its priority, and which of several
    items of maximal priority [pop] returns, and what [extend] does with a
    key that is already present, are left to the interface [PriorityQueue].
    Sizes are [usize] values (64 bits) and arithmetic on them wraps. *)

From stdpp Require Import prelude list strings gmap fin_maps.
From Stdlib Require Import ZArith Lia.
From S2P Require Import Prelude.

Definition STALE_PERIOD : Z := 100.

Record CacheEntry (V : Type) := mk_entry {
  ce_weight : Z;
  ce_value : V;
  ce_will_stale : bool;
}.
Arguments mk_entry {V}. Arguments ce_weight {V}. Arguments ce_value {V}.
Arguments ce_will_stale {V}.

(** [type Priority = (bool, Reverse<u64>)]: stale entries first, then the
    least frequently used. *)
Record Priority := mk_prio { p_stale : bool; p_freq : Z }.

Definition prio_le (p q : Priority) : Prop :=
  p_stale p = false /\ p_stale q = true
  \/ p_stale p = p_stale q /\ (p_freq q <= p_freq p)%Z.

#[export] Instance prio_le_dec : RelDecision prio_le.
Proof. intros p q. unfold prio_le. apply _. Defined.

Lemma prio_le_total p q : prio_le p q \/ prio_le q p.
Proof. unfold prio_le. destruct p as [[] f], q as [[] g]; simpl; lia. Qed.

#[export] Instance prio_le_preorder : PreOrder prio_le.
Proof.
  split; unfold prio_le.
  - intros [[] f]; simpl; lia.
  - intros [[] f] [[] g] [[] h]; simpl; intuition (try done; lia).
Qed.

(** ** The priority queue *)
Abbreviation Queue K V := (gmap K (CacheEntry V * Priority)).

(** What the crate leaves open, with what it documents about it. *)
Class PriorityQueue (K V : Type) `{Countable K} := {
  pq_peek : Queue K V -> option K;
  pq_peek_none q : pq_peek q = None -> q = ∅;
  pq_peek_max q k : pq_peek q = Some k ->
    exists e p, q !! k = Some (e, p) /\
    forall k' e' p', q !! k' = Some (e', p') -> prio_le p' p;
  pq_resolve : CacheEntry V * Priority -> CacheEntry V * Priority ->
               CacheEntry V * Priority;
  pq_resolve_entry old new :
    (pq_resolve old new).1 = old.1 \/ (pq_resolve old new).1 = new.1;
}.

Record LfuCache (K V : Type) `{Countable K} := mk_cache {
  queue : Queue K V;
  total_weight : Z;
  stale_counter : Z;
}.
Arguments mk_cache {K V _ _}. Arguments queue {K V _ _}.
Arguments total_weight {K V _ _}. Arguments stale_counter {K V _ _}.

(** [CacheEntry::weight]: the indirect weights of value and key and the
    (compile-time) size of an entry. *)
Class CacheWeight (A : Type) := indirect_weight : A -> Z.

Section lfu.
Context {K V : Type} `{Countable K}.
Context `{CacheWeight K, CacheWeight V}.
Context {PQ : PriorityQueue K V}.
Variable size_of_entry : Z.

Definition entry_weight (key : K) (value : V) : Z :=
    wrap64 (indirect_weight value + indirect_weight key + size_of_entry).

Definition new : LfuCache K V := mk_cache ∅ 0 0.

(** [PriorityQueue::pop] *)
Definition pop (q : Queue K V) : option (K * CacheEntry V * Priority * Queue K V) :=
    match pq_peek q with
    | Some k =>
        match q !! k with
        | Some (e, p) => Some (k, e, p, delete k q)
        | None => None
        end
    | None => None
    end.

(** [get_mut]: bumps the frequency and clears [will_stale]; the entry it
      lends out is the one now in the queue. *)
Definition get_mut (c : LfuCache K V) (key : K) :
      option (CacheEntry V * Priority) * LfuCache K V :=
    match queue c !! key with
    | None => (None, c)
    | Some (e, p) =>
        let p' := mk_prio (p_stale p) (wrap64 (p_freq p + 1)) in
        let e' := mk_entry (ce_weight e) (ce_value e) false in
        (Some (e', p'),
         mk_cache (<[key := (e', p')]> (queue c)) (total_weight c) (stale_counter c))
    end.

Definition insert (c : LfuCache K V) (key : K) (value : V) : LfuCache K V :=
    let weight := entry_weight key value in
    match get_mut c key with
    | (None, c) =>
        mk_cache (<[key := (mk_entry weight value false, mk_prio false 1)]> (queue c))
          (wrap64 (total_weight c + weight)) (stale_counter c)
    | (Some (e, p), c) =>
        mk_cache (<[key := (mk_entry weight value (ce_will_stale e), p)]> (queue c))
          (wrap64 (wrap64 (total_weight c - ce_weight e) + weight)) (stale_counter c)
    end.

Definition get (c : LfuCache K V) (key : K) : option V * LfuCache K V :=
    match get_mut c key with
    | (Some (e, _), c) => (Some (ce_value e), c)
    | (None, c) => (None, c)
    end.

(** [remove] sets the priority of the key to the absolute maximum, pops and
      asserts that it popped the key; [Panic] is the failed assertion. *)
Definition remove (c : LfuCache K V) (key : K) : res unit (option V * LfuCache K V) :=
    match queue c !! key with
    | None => Ok (None, c)
    | Some (e, _) =>
        let q := <[key := (e, mk_prio true 0)]> (queue c) in
        match pop q with
        | None => Ok (None, mk_cache q (total_weight c) (stale_counter c))
        | Some (k, e, _, q') =>
            if bool_decide (k = key)
            then Ok (Some (ce_value e),
                     mk_cache q' (wrap64 (total_weight c - ce_weight e)) (stale_counter c))
            else Panic
        end
    end.

Definition contains_key (c : LfuCache K V) (key : K) : bool :=
    bool_decide (is_Some (queue c !! key)).

Definition is_empty (c : LfuCache K V) : bool := bool_decide (queue c = ∅).
Definition len (c : LfuCache K V) : nat := size (queue c).

(** The sweep over all entries at the end of a stale period. *)
Definition mark_stale (x : CacheEntry V * Priority) : CacheEntry V * Priority :=
    (mk_entry (ce_weight x.1) (ce_value x.1) true,
     mk_prio (ce_will_stale x.1) (p_freq x.2)).

(** The [while] loop of [evict_with_period], with the evicted weight as
      accumulator.  [Err tt] is lack of fuel and [Panic] the [expect] on an
      empty queue. *)
Fixpoint evict_loop (fuel : nat) (q : Queue K V) (total evicted max_weight : Z) :
      res unit (Queue K V * Z * Z) :=
    if (total <=? max_weight)%Z then Ok (q, total, evicted)
    else
      match fuel with
      | O => Err tt
      | S fuel =>
          match pop q with
          | None => Panic
          | Some (k, e, p, q') =>
              evict_loop fuel q' (wrap64 (total - ce_weight e))
                (wrap64 (evicted + ce_weight e)) max_weight
          end
      end.

(** [evict_with_period]: [Ok (None, c)] when nothing had to be evicted,
      else the evicted, the old and the new weight.  The queue has [size]
      entries, so [S size] rounds always suffice. *)
Definition evict_with_period (c : LfuCache K V) (max_weight stale_period : Z) :
      res unit (option (Z * Z * Z) * LfuCache K V) :=
    if (total_weight c <=? max_weight)%Z then Ok (None, c)
    else
      let counter := wrap64 (stale_counter c + 1) in
      let sweep := (counter =? stale_period)%Z in
      let counter := if sweep then 0%Z else counter in
      let q := if sweep then mark_stale <$> queue c else queue c in
      let old_weight := total_weight c in
      let? (q', total, evicted) :=
        evict_loop (S (size q)) q old_weight 0 max_weight in
      Ok (Some (evicted, old_weight, total), mk_cache q' total counter).

Definition evict (c : LfuCache K V) (max_weight : Z) :=
    evict_with_period c max_weight STALE_PERIOD.

(** [Extend]: the entries go to the queue, the weight is not touched. *)
Definition extend (c other : LfuCache K V) : LfuCache K V :=
    mk_cache (union_with (fun old new => Some (pq_resolve old new)) (queue c) (queue other))
      (total_weight c) (stale_counter c).
End lfu.

(** ** The weight of a queue and the invariant of the cache *)
Section lfu_lemmas.
Context {K V : Type} `{Countable K}.
Context `{CacheWeight K, CacheWeight V}.
Context {PQ : PriorityQueue K V}.
Variable size_of_entry : Z.
  Implicit Types (q : Queue K V) (c : LfuCache K V) (k : K).

Definition queue_weight q : Z := map_fold (fun _ x acc => ce_weight x.1 + acc)%Z 0%Z q.

(** [total_weight] is the sum of the weights (modulo the word size) and
      every frequency is a positive [u64]. *)
Definition cache_inv c : Prop :=
    total_weight c = wrap64 (queue_weight (queue c))
    /\ map_Forall (fun _ x => 1 <= p_freq x.2 < 2 ^ 64)%Z (queue c).

(** No entry has been accessed [u64::MAX] times. *)
Definition not_saturated c k : Prop :=
    forall x, queue c !! k = Some x -> (p_freq x.2 < u64_max)%Z.

Lemma queue_weight_empty : queue_weight ∅ = 0%Z.
Proof. apply map_fold_empty. Qed.

Lemma queue_weight_delete q k x :
    q !! k = Some x -> queue_weight q = (ce_weight x.1 + queue_weight (delete k q))%Z.
Proof.
    intros Hk. unfold queue_weight. rewrite (map_fold_delete_L _ _ k x q); [done| |done].
    intros. lia.
Qed.

Lemma queue_weight_insert q k x :
    queue_weight (<[k := x]> q) = (ce_weight x.1 + queue_weight (delete k q))%Z.
Proof.
    rewrite (queue_weight_delete _ k x) by apply lookup_insert_eq.
    by rewrite delete_insert_eq.
Qed.

Lemma queue_weight_mark_stale q : queue_weight (mark_stale <$> q) = queue_weight q.
Proof. unfold queue_weight. rewrite map_fold_fmap. done. Qed.

Lemma pop_Some q k e p q' :
    pop q = Some (k, e, p, q') ->
    q !! k = Some (e, p) /\ q' = delete k q /\
    forall k' e' p', q !! k' = Some (e', p') -> prio_le p' p.
Proof.
    unfold pop. destruct (pq_peek q) as [k0|] eqn:Hp; [|done].
    destruct (q !! k0) as [[e0 p0]|] eqn:Hk0; [|done]. intros [= <- <- <- <-].
    split_and!; [done..|]. destruct (pq_peek_max _ _ Hp) as (e & p & Hk & Hmax).
    rewrite Hk in Hk0. injection Hk0 as -> ->. done.
Qed.

Lemma pop_None q : pop q = None -> q = ∅.
Proof.
    unfold pop. destruct (pq_peek q) as [k0|] eqn:Hp; [|intros _; by apply pq_peek_none].
    destruct (pq_peek_max _ _ Hp) as (e & p & -> & _). done.
Qed.

Lemma pop_empty : pop (∅ : Queue K V) = None.
Proof.
    destruct (pop ∅) as [[[[k e] p] q']|] eqn:Hp; [|done].
    apply pop_Some in Hp as (Hk & _). by rewrite lookup_empty in Hk.
Qed.

Lemma pop_singleton k e p : pop ({[k := (e, p)]} : Queue K V) = Some (k, e, p, ∅).
Proof.
    destruct (pop _) as [[[[k0 e0] p0] q']|] eqn:Hp.
    - apply pop_Some in Hp as (Hk & -> & _).
      apply lookup_singleton_Some in Hk as [-> [= -> ->]]. by rewrite delete_singleton_eq.
    - apply pop_None in Hp. exfalso. by apply (insert_non_empty _ _ _ Hp).
Qed.

Lemma get_mut_Some c k e p :
    queue c !! k = Some (e, p) ->
    get_mut c k =
    (Some (mk_entry (ce_weight e) (ce_value e) false,
           mk_prio (p_stale p) (wrap64 (p_freq p + 1))),
     mk_cache (<[k := (mk_entry (ce_weight e) (ce_value e) false,
                       mk_prio (p_stale p) (wrap64 (p_freq p + 1)))]> (queue c))
       (total_weight c) (stale_counter c)).
Proof. unfold get_mut. by intros ->. Qed.

Lemma get_mut_None c k : queue c !! k = None -> get_mut c k = (None, c).
Proof. unfold get_mut. by intros ->. Qed.

Lemma freq_bump p : (1 <= p_freq p < 2 ^ 64)%Z -> (p_freq p < u64_max)%Z ->
    (1 <= wrap64 (p_freq p + 1) < 2 ^ 64)%Z.
Proof. intros. rewrite wrap64_small; unfold is_u64; lia. Qed.

Lemma get_mut_inv c k r c' :
    cache_inv c -> not_saturated c k -> get_mut c k = (r, c') -> cache_inv c'.
Proof.
    intros [Hw Hf] Hs. destruct (queue c !! k) as [[e p]|] eqn:Hk.
    - rewrite (get_mut_Some _ _ _ _ Hk). intros [= <- <-]. split; simpl.
      + rewrite queue_weight_insert. simpl.
        by rewrite Hw, (queue_weight_delete _ _ _ Hk).
      + apply map_Forall_insert_2; [|done]. simpl.
        apply freq_bump; [by apply (Hf k (e, p))|]. by apply (Hs (e, p)).
    - rewrite get_mut_None by done. by intros [= <- <-].
Qed.

Lemma get_inv c k r c' :
    cache_inv c -> not_saturated c k -> get c k = (r, c') -> cache_inv c'.
Proof.
    intros Hi Hs. unfold get. destruct (get_mut c k) as [[[e p]|] c1] eqn:Hg;
      intros [= <- <-]; by eapply get_mut_inv.
Qed.

Lemma wrap64_replace a b x : wrap64 (wrap64 (wrap64 (a + x) - a) + b) = wrap64 (b + x).
Proof. rewrite wrap64_sub_l, wrap64_add_l. f_equal. lia. Qed.

Lemma insert_inv c k v :
    cache_inv c -> not_saturated c k -> cache_inv (insert size_of_entry c k v).
Proof.
    intros Hi Hs. pose proof Hi as [Hw Hf]. unfold insert.
    destruct (queue c !! k) as [[e p]|] eqn:Hk.
    - rewrite (get_mut_Some _ _ _ _ Hk). split; simpl.
      + rewrite insert_insert_eq, queue_weight_insert, Hw, (queue_weight_delete _ _ _ Hk).
        simpl. apply wrap64_replace.
      + rewrite insert_insert_eq. apply map_Forall_insert_2; [|done]. simpl.
        apply freq_bump; [by apply (Hf k (e, p))|]. by apply (Hs (e, p)).
    - rewrite get_mut_None by done. split; simpl.
      + rewrite queue_weight_insert, Hw, wrap64_add_l, delete_id by done.
        simpl. f_equal. lia.
      + apply map_Forall_insert_2; [simpl; lia|done].
Qed.

Lemma mark_stale_inv q : map_Forall (fun _ x => 1 <= p_freq x.2 < 2 ^ 64)%Z q ->
    map_Forall (fun _ x => 1 <= p_freq x.2 < 2 ^ 64)%Z (mark_stale <$> q).
Proof. intros Hf. apply map_Forall_fmap. eapply map_Forall_impl; [done|]. done. Qed.

(** One bump of a key leaves every other key as it was. *)
Lemma get_mut_other c k k' r c' :
    k' <> k -> get_mut c k = (r, c') -> queue c' !! k' = queue c !! k'.
Proof.
    intros Hne. unfold get_mut. destruct (queue c !! k) as [[e p]|]; intros [= <- <-]; [|done].
    simpl. apply lookup_insert_ne. congruence.
Qed.

(** The setting of the priority in [remove] makes the key the only one of
      maximal priority. *)
Lemma remove_pops_key c k e p :
    cache_inv c -> queue c !! k = Some (e, p) ->
    pop (<[k := (e, mk_prio true 0)]> (queue c))
    = Some (k, e, mk_prio true 0, delete k (queue c)).
Proof.
    intros [_ Hf] Hk.
    destruct (pop _) as [[[[k0 e0] p0] q0]|] eqn:Hp.
    - apply pop_Some in Hp as (Hk0 & -> & Hmax).
      assert (k0 = k) as ->.
      { destruct (decide (k0 = k)) as [|Hne]; [done|]. exfalso.
        rewrite lookup_insert_ne in Hk0 by done.
        specialize (Hmax k e (mk_prio true 0) (lookup_insert_eq _ _ _)).
        pose proof (Hf k0 (e0, p0) Hk0) as Hfk. simpl in Hfk.
        destruct Hmax as [[? ?]|[? Hle]]; simpl in *; [done|lia]. }
      rewrite lookup_insert_eq in Hk0. injection Hk0 as <- <-.
      by rewrite delete_insert_eq.
    - apply pop_None in Hp. exfalso. by apply (insert_non_empty _ _ _ Hp).
Qed.
End lfu_lemmas.

(** ** The cache as a map of values

    Clients reason with [values]; [headroom c n] says that [n] more accesses
    cannot overflow a frequency. *)
Section values.
Context {K V : Type} `{Countable K}.
Context `{CacheWeight K, CacheWeight V}.
Context {PQ : PriorityQueue K V}.
Variable size_of_entry : Z.
  Implicit Types (c : LfuCache K V) (k : K).

Definition values c : gmap K V := (fun x => ce_value x.1) <$> queue c.
Definition headroom c (n : Z) : Prop :=
    map_Forall (fun _ x => p_freq x.2 + n < 2 ^ 64)%Z (queue c).

Lemma headroom_not_saturated c n k : (1 <= n)%Z -> headroom c n -> not_saturated c k.
Proof. intros Hn Hh x Hx. specialize (Hh k x Hx). simpl in Hh. lia. Qed.

Lemma headroom_weaken c n m : (m <= n)%Z -> headroom c n -> headroom c m.
Proof. intros Hn Hh k x Hx. specialize (Hh k x Hx). simpl in *. lia. Qed.

Lemma get_mut_values c k : values (get_mut c k).2 = values c.
Proof.
    unfold get_mut, values. destruct (queue c !! k) as [[e p]|] eqn:Hk; [|done]. simpl.
    rewrite fmap_insert. apply insert_id. by rewrite lookup_fmap, Hk.
Qed.

Lemma get_values c k : get c k = (values c !! k, (get c k).2) /\ values (get c k).2 = values c.
Proof.
    unfold get. pose proof (get_mut_values c k) as Hv. unfold values.
    destruct (queue c !! k) as [[e p]|] eqn:Hk.
    - rewrite (get_mut_Some _ _ _ _ Hk) in *. simpl in *. rewrite lookup_fmap, Hk. done.
    - rewrite (get_mut_None _ _ Hk) in *. simpl in *. by rewrite lookup_fmap, Hk.
Qed.

Lemma insert_values c k v : values (insert size_of_entry c k v) = <[k := v]> (values c).
Proof.
    unfold insert. pose proof (get_mut_values c k) as Hv.
    destruct (get_mut c k) as [[[e p]|] c']; simpl in *; rewrite <-Hv; unfold values; simpl;
      by rewrite fmap_insert.
Qed.

Lemma insert_other c k v k' :
    k' <> k -> queue (insert size_of_entry c k v) !! k' = queue c !! k'.
Proof.
    intros Hne. unfold insert. destruct (queue c !! k) as [[e p]|] eqn:Hk.
    - rewrite (get_mut_Some _ _ _ _ Hk). simpl. by rewrite !lookup_insert_ne.
    - rewrite get_mut_None by done. simpl. by rewrite lookup_insert_ne.
Qed.

(** A new key starts with frequency one. *)
Lemma insert_new_freq c k v x :
    values c !! k = None -> queue (insert size_of_entry c k v) !! k = Some x -> p_freq x.2 = 1%Z.
Proof.
    intros Hk. unfold values in Hk. rewrite lookup_fmap in Hk. apply fmap_None in Hk.
    unfold insert. rewrite get_mut_None by done. simpl. rewrite lookup_insert_eq. by intros [= <-].
Qed.

Lemma remove_queue c k r c' : remove c k = Ok (r, c') -> queue c' = delete k (queue c).
Proof.
    unfold remove. destruct (queue c !! k) as [[e p]|] eqn:Hk;
      [|intros [= _ <-]; by rewrite delete_id].
    destruct (pop _) as [[[[k0 e0] p0] q0]|] eqn:Hp.
    - apply pop_Some in Hp as (_ & -> & _). case_bool_decide as Hk0; [|done]. subst k0.
      intros [= _ <-]. simpl. by rewrite delete_insert_eq.
    - apply pop_None in Hp. by apply insert_non_empty in Hp.
Qed.

Lemma headroom_freq p n : (1 <= p_freq p < 2 ^ 64)%Z -> (p_freq p + (n + 1) < 2 ^ 64)%Z ->
    (0 <= n)%Z -> (wrap64 (p_freq p + 1) + n < 2 ^ 64)%Z.
Proof. intros. rewrite wrap64_small; unfold is_u64; lia. Qed.

Lemma get_headroom c k n :
    (0 <= n)%Z -> cache_inv c -> headroom c (n + 1) -> headroom (get c k).2 n.
Proof.
    intros Hn [_ Hf] Hh. unfold get. destruct (queue c !! k) as [[e p]|] eqn:Hk.
    - rewrite (get_mut_Some _ _ _ _ Hk). simpl. apply map_Forall_insert_2.
      + apply headroom_freq; [apply (Hf k _ Hk)|apply (Hh k _ Hk)|done].
      + eapply headroom_weaken; [|done]. lia.
    - rewrite get_mut_None by done. eapply headroom_weaken; [|done]. lia.
Qed.

Lemma insert_headroom c k v n :
    (0 <= n < 2 ^ 64 - 1)%Z -> cache_inv c -> headroom c (n + 1) ->
    headroom (insert size_of_entry c k v) n.
Proof.
    intros Hn [_ Hf] Hh. unfold insert. destruct (queue c !! k) as [[e p]|] eqn:Hk.
    - rewrite (get_mut_Some _ _ _ _ Hk). unfold headroom. simpl. rewrite insert_insert_eq.
      apply map_Forall_insert_2.
      + apply headroom_freq; [apply (Hf k _ Hk)|apply (Hh k _ Hk)|lia].
      + eapply headroom_weaken; [|done]. lia.
    - rewrite get_mut_None by done. apply map_Forall_insert_2; [simpl; lia|].
      eapply headroom_weaken; [|done]. lia.
Qed.

(** Inserting a key that is not there bumps no frequency. *)
Lemma insert_new_headroom c k v n :
    (0 <= n < 2 ^ 64 - 1)%Z -> values c !! k = None -> headroom c n ->
    headroom (insert size_of_entry c k v) n.
Proof.
    intros Hn Hk Hh. unfold values in Hk. rewrite lookup_fmap in Hk.
    apply fmap_None in Hk. unfold insert. rewrite get_mut_None by done.
    apply map_Forall_insert_2; [simpl; lia|done].
Qed.

Lemma insert_new_inv c k v :
    values c !! k = None -> cache_inv c -> cache_inv (insert size_of_entry c k v).
Proof.
    intros Hk Hi. apply insert_inv; [done|]. intros x Hx. unfold values in Hk.
    by rewrite lookup_fmap, Hx in Hk.
Qed.

Lemma remove_values c k : cache_inv c ->
    exists c', remove c k = Ok (values c !! k, c') /\ cache_inv c'
      /\ values c' = delete k (values c) /\ forall n, headroom c n -> headroom c' n.
Proof.
    intros Hi. unfold remove, values. rewrite lookup_fmap.
    destruct (queue c !! k) as [[e p]|] eqn:Hk.
    - rewrite (remove_pops_key _ _ _ _ Hi Hk), bool_decide_eq_true_2 by done.
      eexists. split_and!; [done| | |]; simpl.
      + destruct Hi as [Hw Hf]. split; simpl; [|by apply map_Forall_delete].
        rewrite Hw, wrap64_sub_l, (queue_weight_delete _ _ _ Hk). simpl. f_equal. lia.
      + by rewrite fmap_delete.
      + intros n Hh. by apply map_Forall_delete.
    - exists c. split_and!; [done..| |done]. rewrite delete_id; [done|].
      by rewrite lookup_fmap, Hk.
Qed.

Lemma contains_key_values c k : contains_key c k = bool_decide (is_Some (values c !! k)).
Proof.
    unfold contains_key, values. rewrite lookup_fmap. apply bool_decide_ext.
    by rewrite fmap_is_Some.
Qed.
End values.

(** ** Eviction *)
Section evict.
Context {K V : Type} `{Countable K}.
Context `{CacheWeight K, CacheWeight V}.
Context {PQ : PriorityQueue K V}.
  Implicit Types (q : Queue K V) (c : LfuCache K V) (k : K).

Lemma wrap64_move a b w : wrap64 (wrap64 (a + w) + wrap64 (b - w)) = wrap64 (a + b).
Proof.
    rewrite wrap64_add_l. unfold wrap_u. rewrite Zplus_mod_idemp_r.
    f_equal. lia.
Qed.

(** What eviction from [q] down to [q'] means: entries are kept as they are,
      and no entry is kept that should have left before one that left. *)
Record evicted_to (q q' : Queue K V) : Prop := {
    ev_subseteq : q' ⊆ q;
    ev_order k e p : q !! k = Some (e, p) -> q' !! k = None ->
      forall k' e' p', q' !! k' = Some (e', p') -> prio_le p' p;
  }.

Lemma evicted_to_refl q : evicted_to q q.
Proof. split; [done|]. congruence. Qed.

Lemma evicted_to_pop q q' k e p :
    pop q = Some (k, e, p, delete k q) -> evicted_to (delete k q) q' -> evicted_to q q'.
Proof.
    intros Hp [Hsub Hord]. apply pop_Some in Hp as (Hk & _ & Hmax). split.
    - etrans; [done|]. apply delete_subseteq.
    - intros k1 e1 p1 Hk1 Hgone k2 e2 p2 Hk2. destruct (decide (k1 = k)) as [->|Hne].
      + rewrite Hk in Hk1. injection Hk1 as <- <-. apply (Hmax k2 e2 p2).
        pose proof (lookup_weaken _ _ _ _ Hk2 Hsub) as Hx. by apply lookup_delete_Some in Hx as [_ ?].
      + apply (Hord k1 e1 p1) with (2 := Hgone) (3 := Hk2). by rewrite lookup_delete_ne.
Qed.

(** The loop pops entries until the weight is low enough, and the last one was
    still too much. *)
Definition last_was_needed (q q' : Queue K V) (total' max : Z) : Prop :=
    exists k e p, q !! k = Some (e, p) /\ q' !! k = None /\ (max < wrap64 (total' + ce_weight e))%Z.

Lemma evict_loop_spec fuel q total evicted max :
    total = wrap64 (queue_weight q) -> (0 <= max)%Z -> (size q < fuel)%nat ->
    exists q' total' evicted',
      evict_loop fuel q total evicted max = Ok (q', total', evicted')
      /\ total' = wrap64 (queue_weight q') /\ (total' <= max)%Z
      /\ wrap64 (evicted' + total') = wrap64 (evicted + total)
      /\ evicted_to q q' /\ ((max < total)%Z -> last_was_needed q q' total' max).
Proof.
    revert q total evicted. induction fuel as [|fuel IH];
      intros q total evicted Htot Hmax Hsize; [lia|]. simpl.
    destruct (Z.leb_spec total max) as [Hle|Hgt].
    { exists q, total, evicted. split_and!; try done; [apply evicted_to_refl|lia]. }
    destruct (pop q) as [[[[k e] p] q1]|] eqn:Hp.
    2: { apply pop_None in Hp as ->. change (total = 0)%Z in Htot. lia. }
    pose proof (pop_Some _ _ _ _ _ Hp) as (Hk & -> & _).
    destruct (IH (delete k q) (wrap64 (total - ce_weight e)) (wrap64 (evicted + ce_weight e)))
        as (q' & total' & evicted' & Hrun & Ht' & Hle' & Hsum & Hev & Hlast).
    - rewrite Htot, wrap64_sub_l, (queue_weight_delete _ _ _ Hk). simpl. f_equal. lia.
    - done.
    - assert (size q <> 0)%nat.
      { intros ->%map_size_empty_iff. by rewrite lookup_empty in Hk. }
      rewrite map_size_delete_Some by (by rewrite Hk). lia.
    - exists q', total', evicted'. split_and!; [done..| |by eapply evicted_to_pop|].
      + rewrite Hsum. apply wrap64_move.
      + intros _. assert (Hgone : q' !! k = None).
        { destruct (q' !! k) eqn:E; [|done]. eapply lookup_weaken in E; [|apply Hev].
          by rewrite lookup_delete_eq in E. }
        destruct (Z.leb_spec (wrap64 (total - ce_weight e)) max) as [Hle|Hgt1].
        * exists k, e, p. split_and!; [done..|]. destruct fuel; simpl in Hrun;
            rewrite (proj2 (Z.leb_le _ _) Hle) in Hrun; injection Hrun as <- <- <-;
            rewrite wrap64_add_l, Z.sub_add, Htot, wrap64_small; try apply wrap64_range; lia.
        * destruct (Hlast Hgt1) as (k1 & e1 & p1 & Hk1 & ? & ?). exists k1, e1, p1.
          split_and!; [by apply lookup_delete_Some in Hk1 as []|done..].
Qed.

(** Does this eviction end a stale period?  At its end the entries that were
    not accessed during it become stale, and all of them will be stale at the
    end of the next unless they are accessed. *)
Definition period_ends (c : LfuCache K V) (stale_period : Z) : Prop :=
    wrap64 (stale_counter c + 1) = stale_period.

#[export] Instance period_ends_dec c period : Decision (period_ends c period).
Proof. unfold period_ends. apply _. Defined.

Definition aged (c : LfuCache K V) (stale_period : Z) (x : CacheEntry V * Priority)
    : CacheEntry V * Priority :=
    if decide (period_ends c stale_period)
    then (mk_entry (ce_weight x.1) (ce_value x.1) true, mk_prio (ce_will_stale x.1) (p_freq x.2))
    else x.

(** The queue that eviction starts from. *)
Definition swept (c : LfuCache K V) (stale_period : Z) : Queue K V :=
    if (wrap64 (stale_counter c + 1) =? stale_period)%Z
    then mark_stale <$> queue c else queue c.

Lemma swept_lookup c period k : swept c period !! k = aged c period <$> queue c !! k.
Proof.
    unfold swept, aged, period_ends. destruct (Z.eqb_spec (wrap64 (stale_counter c + 1)) period);
      case_decide; try done; [apply lookup_fmap|by destruct (queue c !! k)].
Qed.

Lemma aged_weight c period x : ce_weight (aged c period x).1 = ce_weight x.1.
Proof. unfold aged. by case_decide. Qed.

Lemma queue_weight_swept c period : queue_weight (swept c period) = queue_weight (queue c).
Proof. unfold swept. case_match; [apply queue_weight_mark_stale|done]. Qed.

Lemma evict_with_period_spec c max period :
    cache_inv c -> (0 <= max)%Z ->
    (total_weight c <= max)%Z /\ evict_with_period c max period = Ok (None, c)
    \/ (max < total_weight c)%Z /\
       exists evicted c',
         evict_with_period c max period
         = Ok (Some (evicted, total_weight c, total_weight c'), c')
         /\ cache_inv c' /\ (total_weight c' <= max)%Z
         /\ wrap64 (evicted + total_weight c') = wrap64 (total_weight c)
         /\ evicted_to (swept c period) (queue c')
         /\ last_was_needed (swept c period) (queue c') (total_weight c') max.
Proof.
    intros [Hw Hf] Hmax. unfold evict_with_period.
    destruct (Z.leb_spec (total_weight c) max) as [Hle|Hgt]; [by left|right].
    split; [done|]. fold (swept c period).
    destruct (evict_loop_spec (S (size (swept c period))) (swept c period)
      (total_weight c) 0 max) as (q' & t' & ev & -> & Ht & Hle & Hsum & Hev & Hlast).
    { by rewrite queue_weight_swept. } { done. } { lia. }
    simpl. set (n := if (wrap64 (stale_counter c + 1) =? period)%Z then 0%Z else _).
    exists ev, (mk_cache q' t' n). split_and!; [done| |done|done|done|by apply Hlast].
    assert (Hsf : map_Forall (fun _ x => 1 <= p_freq x.2 < 2 ^ 64)%Z (swept c period)).
    { unfold swept. case_match; [by apply mark_stale_inv|done]. }
    split; [done|]. intros k x Hk. apply (Hsf k x).
    eapply lookup_weaken; [done|apply Hev].
Qed.

(** What eviction leaves: entries of the cache with their values and
    frequencies. *)
Lemma evict_keeps c c' max period o k x :
  evict_with_period c max period = Ok (o, c') -> queue c' !! k = Some x ->
  exists y, queue c !! k = Some y /\ ce_value y.1 = ce_value x.1 /\ p_freq y.2 = p_freq x.2.
Proof.
  unfold evict_with_period. destruct (total_weight c <=? max)%Z; [intros [= _ <-]; eauto|].
  assert (Hloop : forall fuel q t e q' t' e', evict_loop fuel q t e max = Ok (q', t', e') -> q' ⊆ q).
  { induction fuel as [|fuel IH]; intros q t e q' t' e'; simpl;
      destruct (t <=? max)%Z; try (by intros [= <-]); try done.
    destruct (pop q) as [[[[j en] pr] q1]|] eqn:Ep; [|done].
    apply pop_Some in Ep as (_ & -> & _). intros Hl. etrans; [by eapply IH|apply delete_subseteq]. }
  destruct (evict_loop _ _ _ _ _) as [[[q' t'] e']| |] eqn:E; cbn [res_bind]; try done.
  apply Hloop in E. intros [= _ <-] Hx. eapply lookup_weaken in Hx; [|exact E].
  destruct (_ =? _)%Z; [|eauto]. rewrite lookup_fmap in Hx.
  apply fmap_Some in Hx as (y & -> & ->). eauto.
Qed.

Lemma evict_values c c' max period o k v :
  evict_with_period c max period = Ok (o, c') -> values c' !! k = Some v -> values c !! k = Some v.
Proof.
  intros He. unfold values. rewrite !lookup_fmap. intros (x & Hx & ->)%fmap_Some.
  destruct (evict_keeps _ _ _ _ _ _ _ He Hx) as (y & -> & <- & _). done.
Qed.

Lemma evict_headroom c c' max period o n :
  evict_with_period c max period = Ok (o, c') -> headroom c n -> headroom c' n.
Proof.
  intros He Hh k x Hx. destruct (evict_keeps _ _ _ _ _ _ _ He Hx) as (y & Hy & _ & Hf).
  specialize (Hh k y Hy). simpl in *. by rewrite <- Hf.
Qed.
End evict.

(** ** Properties *)
Section properties.
Context {K V : Type} `{Countable K}.
Context `{CacheWeight K, CacheWeight V}.
Context {PQ : PriorityQueue K V}.
Variable size_of_entry : Z.

(** C36: the invariant of the cache (the recorded weight is the sum of the
      entries' weights, frequencies are positive) holds of a new cache and is
      preserved by every operation that works on one cache; [remove] and
      [evict_with_period] do not panic and always produce a result. *)
Theorem cache_operations_preserve_inv (c : LfuCache K V) (k : K) (v : V) (max period : Z) :
    cache_inv c -> not_saturated c k -> (0 <= max)%Z ->
    cache_inv (new (K := K) (V := V)) /\
    cache_inv (insert size_of_entry c k v) /\
    cache_inv (get c k).2 /\
    (exists r c', remove c k = Ok (r, c') /\ cache_inv c') /\
    (exists r c', evict_with_period c max period = Ok (r, c') /\ cache_inv c').
Proof.
    intros Hi Hs Hmax. split_and!.
    - split; [done|apply map_Forall_empty].
    - by apply insert_inv.
    - destruct (get c k) eqn:Hg. by eapply get_inv.
    - destruct (remove_values c k Hi) as (c' & -> & ? & _). eauto.
    - destruct (evict_with_period_spec c max period Hi Hmax)
        as [[_ ->]|(_ & ev & c' & -> & ? & _)]; eauto.
Qed.

(** C26: eviction ends within the weight limit, evicts no more than it has to
      and reports exactly the weight that left the cache.  What it keeps it
      keeps as it is, up to staleness at the end of a period, and it keeps no
      entry that had to leave before one it evicts: stale entries go first, then
      the least frequently used. *)
Theorem evict_within_limit_in_order (c : LfuCache K V) (max period : Z) :
    cache_inv c -> (0 <= max < total_weight c)%Z ->
    exists evicted c',
      evict_with_period c max period
      = Ok (Some (evicted, total_weight c, total_weight c'), c')
      /\ (total_weight c' <= max)%Z
      /\ wrap64 evicted = wrap64 (total_weight c - total_weight c')
      /\ (forall k x', queue c' !! k = Some x' -> exists x, queue c !! k = Some x /\ x' = aged c period x)
      /\ (forall k x k' x', queue c !! k = Some x -> queue c' !! k = None -> queue c' !! k' = Some x' ->
            let gone := (aged c period x).2 in
            (p_stale x'.2 = true -> p_stale gone = true)
            /\ (p_stale x'.2 = p_stale gone -> (p_freq gone <= p_freq x'.2)%Z))
      /\ (exists k x, queue c !! k = Some x /\ queue c' !! k = None
            /\ (max < wrap64 (total_weight c' + ce_weight x.1))%Z).
Proof.
    intros Hi [Hmax Hlt].
    destruct (evict_with_period_spec c max period Hi Hmax)
      as [[? _]|(_ & ev & c' & He & _ & Hle & Hsum & [Hsub Hord] & Hlast)]; [lia|].
    exists ev, c'. split_and!; [done|done| | | |].
    - rewrite <-wrap64_sub_l, <-Hsum, wrap64_sub_l. f_equal. lia.
    - intros k x' Hk. eapply lookup_weaken in Hk; [|done]. rewrite swept_lookup in Hk.
      apply fmap_Some in Hk as (x & ? & ->). eauto.
    - intros k x k' [e' p'] Hk Hgone Hk' gone.
      assert (Hle' : prio_le p' gone).
      { eapply (Hord k (aged c period x).1 gone); [|done..]. rewrite swept_lookup, Hk. simpl. subst gone. by destruct (aged c period x). }
      simpl in *. destruct Hle' as [[-> ->]|[-> ?]]; by split.
    - destruct Hlast as (k & e & p & Hk & ? & Hw). rewrite swept_lookup in Hk.
      apply fmap_Some in Hk as (x & Hx & Ha). exists k, x. split_and!; [done..|].
      by rewrite <-(aged_weight c period x), <-Ha.
Qed.

(** [insert], [get] and [remove] act on the queue as a finite map: a
      lookup after an insertion finds the inserted value, removal takes exactly
      the key out, and every other key keeps its entry. *)
Lemma cache_is_a_map (c : LfuCache K V) (k k' : K) (v : V) :
    cache_inv c ->
    (get (insert size_of_entry c k v) k).1 = Some v /\
    (k' <> k -> queue (insert size_of_entry c k v) !! k' = queue c !! k') /\
    (k' <> k -> queue (get c k).2 !! k' = queue c !! k') /\
    (forall r c', remove c k = Ok (r, c') ->
       queue c' = delete k (queue c) /\
       r = (fun x => ce_value x.1) <$> queue c !! k).
Proof.
    intros Hi. split_and!.
    - unfold get, insert. destruct (queue c !! k) as [[e p]|] eqn:Hk.
      + rewrite (get_mut_Some _ _ _ _ Hk). unfold get_mut. simpl. by rewrite lookup_insert_eq.
      + rewrite (get_mut_None c k Hk). unfold get_mut. simpl. by rewrite lookup_insert_eq.
    - intros Hne. unfold insert. destruct (get_mut c k) as [[[e p]|] c1] eqn:Hg; simpl;
        rewrite lookup_insert_ne by congruence; apply (get_mut_other _ _ _ _ _ Hne Hg).
    - intros Hne. unfold get. destruct (get_mut c k) as [[[e p]|] c1] eqn:Hg; simpl;
        apply (get_mut_other _ _ _ _ _ Hne Hg).
    - intros r c'. unfold remove. destruct (queue c !! k) as [[e p]|] eqn:Hk.
      + rewrite (remove_pops_key _ _ _ _ Hi Hk), bool_decide_eq_true_2 by done.
        by intros [= <- <-].
      + intros [= <- <-]. by rewrite delete_id.
Qed.

(** [extend] breaks the weight accounting: extending an empty cache with
      one entry, removing that entry and evicting hits the [expect] on an empty
      queue, because the weight of the added entry was never counted. *)
Lemma extend_then_evict_panics (k : K) (e : CacheEntry V) (p : Priority) (max : Z) :
    (1 <= p_freq p)%Z -> (0 < ce_weight e < 2 ^ 64)%Z -> (0 <= max < 2 ^ 64 - ce_weight e)%Z ->
    let other := mk_cache {[ k := (e, p) ]} (ce_weight e) 0 in
    exists c, remove (extend new other) k = Ok (Some (ce_value e), c)
              /\ queue c = ∅ /\ evict_with_period c max STALE_PERIOD = Panic.
Proof.
    intros Hp He Hmax other.
    assert (Hq : queue (extend (new (K := K) (V := V)) other) = {[ k := (e, p) ]}).
    { apply map_eq. intros k'. unfold extend. simpl. rewrite lookup_union_with, lookup_empty.
      by destruct ({[k := (e, p)]} !! k'). }
    unfold remove. rewrite Hq, lookup_singleton_eq, insert_singleton_eq, pop_singleton.
    rewrite bool_decide_eq_true_2 by done. eexists. split_and!; [done..|].
    unfold evict_with_period. simpl.
    assert (Hw : wrap64 (0 - ce_weight e) = (2 ^ 64 - ce_weight e)%Z).
    { unfold wrap_u. symmetry. apply (Z.mod_unique _ _ (-1)); lia. }
    rewrite Hw. destruct (Z.leb_spec (2 ^ 64 - ce_weight e) max); [lia|].
    replace (wrap64 (0 + 1) =? STALE_PERIOD)%Z with false by done.
    cbn [evict_loop]. rewrite map_size_empty. simpl.
    destruct (Z.leb_spec (2 ^ 64 - ce_weight e) max); [lia|].
    by rewrite pop_empty.
Qed.
End properties.

(** ** A concrete queue: scan for an entry of maximal priority. *)
Section scan_queue.
Context {K V : Type} `{Countable K}.

Fixpoint scan (l : list (K * (CacheEntry V * Priority))) : option (K * Priority) :=
    match l with
    | [] => None
    | (k, (_, p)) :: l =>
        match scan l with
        | Some (k', p') => if decide (prio_le p p') then Some (k', p') else Some (k, p)
        | None => Some (k, p)
        end
    end.

Lemma scan_spec l :
    match scan l with
    | None => l = []
    | Some (k, p) => (exists e, (k, (e, p)) ∈ l) /\ forall x, x ∈ l -> prio_le x.2.2 p
    end.
Proof.
    induction l as [|[k [e p]] l IH]; simpl; [done|].
    destruct (scan l) as [[k' p']|].
    - destruct IH as [[e' He'] Hmax]. case_decide as Hle.
      + split; [exists e'; by right|]. intros x [->|Hx]%elem_of_cons; [done|auto].
      + split; [exists e; by left|]. intros x [->|Hx]%elem_of_cons; [reflexivity|].
        etrans; [by apply Hmax|]. by destruct (prio_le_total p p').
    - subst l. split; [exists e; by left|]. intros x ->%list_elem_of_singleton. reflexivity.
Qed.

Program Definition scan_queue : PriorityQueue K V := {|
    pq_peek q := fst <$> scan (map_to_list q);
    pq_resolve old new := new;
  |}.
  Next Obligation.
    simpl. intros q. pose proof (scan_spec (map_to_list q)) as Hs. revert Hs.
    destruct (scan _) as [[k p]|]; intros Hs Hq; [done|]. by apply map_to_list_empty_iff.
Qed.
  Next Obligation.
    simpl. intros q k. pose proof (scan_spec (map_to_list q)) as Hs. revert Hs.
    destruct (scan _) as [[k0 p]|]; intros Hs Hq; [|done]. injection Hq as <-.
    destruct Hs as [[e He] Hmax]. exists e, p. split; [by apply elem_of_map_to_list|].
    intros k' e' p' Hk'. apply (Hmax (k', (e', p'))). by apply elem_of_map_to_list.
Qed.
  Next Obligation. intros. by right. Qed.
End scan_queue.

Module Witness.
#[local] Instance wk : CacheWeight string := fun s => Z.of_nat (String.length s).
#[local] Instance wv : CacheWeight Z := id.
#[local] Existing Instance scan_queue.

Definition cache : LfuCache string Z :=
    insert 8 (get (insert 8 (insert 8 new "panda" 2%Z) "cow" 1%Z) "cow").2 "lion" 30%Z.

Lemma cache_inv_cache : cache_inv cache.
Proof. split; [reflexivity|]. apply (bool_decide_unpack (map_Forall _ _)). vm_compute. exact I. Qed.

Lemma cache_not_saturated k : not_saturated cache k.
Proof.
    intros x Hx. assert (Hall : map_Forall (fun _ x => p_freq x.2 < u64_max)%Z (queue cache)).
    { apply (bool_decide_unpack (map_Forall _ _)). vm_compute. exact I. }
    by apply (Hall k).
Qed.

Lemma cache_operations_preserve_inv_witness :
    exists r c', evict_with_period cache 60 STALE_PERIOD = Ok (r, c') /\ cache_inv c'.
Proof.
    apply (cache_operations_preserve_inv 8 cache "cow" 1%Z 60);
      [apply cache_inv_cache|apply cache_not_saturated|done].
Defined.

Lemma evict_within_limit_in_order_witness :
    exists evicted c', evict_with_period cache 60 STALE_PERIOD
      = Ok (Some (evicted, total_weight cache, total_weight c'), c')
      /\ (total_weight c' <= 60)%Z.
Proof.
    destruct (evict_within_limit_in_order cache 60 STALE_PERIOD) as (ev & c' & ? & ? & _);
      [apply cache_inv_cache|vm_compute; done|eauto].
Defined.

Lemma cache_is_a_map_witness : (get (insert 8 cache "cow" 7%Z) "cow").1 = Some 7%Z.
Proof. apply (cache_is_a_map 8 cache "cow" "panda" 7%Z). apply cache_inv_cache. Defined.

Lemma extend_then_evict_panics_witness :
    let other := mk_cache {[ "cow" := (mk_entry 12 1%Z false, mk_prio false 1) ]} 12 0 in
    exists c, remove (extend new other) "cow" = Ok (Some 1%Z, c)
              /\ queue c = ∅ /\ evict_with_period c 100 STALE_PERIOD = Panic.
Proof.
    apply (extend_then_evict_panics "cow" (mk_entry 12 1%Z false) (mk_prio false 1) 100);
      simpl; lia.
Defined.
End Witness.
