(* ===== verification/EntityCache.v ===== *)
(** * The entity cache

    Models the entity cache of [graph/src/components/store.rs]: keys,
    modifications, operations and [EntityCache] with its LFU cache of the
    store's state and its accumulated updates.  The store is an interface
    (the [Store] trait): two lookups and the laws they obey for an abstract
    store state. *)

From stdpp Require Import prelude list strings gmap fin_maps sorting.
From Stdlib Require Import ZArith Lia.
From S2P Require Import Prelude.
From S2P Require Import GraphqlTypes.
From S2P Require Import StoreValue.
From S2P Require Import LfuCache.

(** ** Keys *)
Record EntityKey := mk_key {
  subgraph_id : string;
  entity_type : string;
  key_entity_id : string;
}.

#[export] Instance EntityKey_eq_dec : EqDecision EntityKey.
Proof. solve_decision. Defined.

#[export] Instance EntityKey_countable : Countable EntityKey.
Proof.
  refine (inj_countable'
    (fun k => (subgraph_id k, entity_type k, key_entity_id k))
    (fun t => mk_key t.1.1 t.1.2 t.2) _).
  by intros [].
Defined.

(** The derived [Ord] of keys, and the iteration order of a [BTreeMap]. *)
Definition cmp_then (c d : comparison) : comparison := match c with Eq => d | _ => c end.
Definition key_compare (a b : EntityKey) : comparison :=
  cmp_then (String.compare (subgraph_id a) (subgraph_id b))
    (cmp_then (String.compare (entity_type a) (entity_type b))
       (String.compare (key_entity_id a) (key_entity_id b))).

Section btree.
Context {K V : Type} `{Countable K} (compare : K -> K -> comparison).
Definition btree_le (a b : K * V) : Prop := compare a.1 b.1 <> Gt.
#[local] Instance btree_le_dec : RelDecision btree_le.
Proof. intros a b. unfold btree_le. apply _. Defined.
Definition btree_list (m : gmap K V) : list (K * V) := merge_sort btree_le (map_to_list m).

Lemma btree_list_perm m : btree_list m ≡ₚ map_to_list m.
Proof. apply merge_sort_Permutation. Qed.

Lemma elem_of_btree_list m k v : (k, v) ∈ btree_list m <-> m !! k = Some v.
Proof. rewrite btree_list_perm. apply elem_of_map_to_list. Qed.

Lemma NoDup_btree_keys m : NoDup (btree_list m).*1.
Proof. rewrite btree_list_perm. apply NoDup_fst_map_to_list. Qed.
End btree.

(** ** Operations and modifications *)
Inductive EntityOperation :=
| OpSet (key : EntityKey) (data : Entity)
| OpRemove (key : EntityKey).

Inductive EntityModification :=
| Insert (key : EntityKey) (data : Entity)
| Overwrite (key : EntityKey) (data : Entity)
| Remove (key : EntityKey).

Definition entity_key (m : EntityModification) : EntityKey :=
  match m with Insert k _ | Overwrite k _ | Remove k => k end.
Definition mod_is_meta (m : EntityModification) : bool := is_meta (subgraph_id (entity_key m)).
Definition is_remove (m : EntityModification) : bool :=
  match m with Remove _ => true | _ => false end.

(** ** The store interface *)
Class Store := {
  store_get : EntityKey -> qres (option Entity);
  store_get_many : string -> gmap string (list string) -> qres (gmap string (list Entity));
}.

(** Entities that come out of the store carry their type in [__typename]. *)
Definition untag (e : Entity) : Entity := delete "__typename" e.

(** Equality of entities as the store sees them. *)
Definition same_entity (a b : Entity) : Prop := untag a ≡ untag b.

#[export] Instance same_entity_equivalence : Equivalence same_entity.
Proof.
  unfold same_entity. split.
  - by intros a.
  - intros a b Hab. by symmetry.
  - intros a b c Hab Hbc. by etrans.
Qed.

Abbreviation same := (option_Forall2 same_entity).

(** The store answers lookups from a state [S]; [get_many] returns exactly
    the existing entities among the requested ones. *)
Class StoreLaws {ST : Store} (S : gmap EntityKey Entity) : Prop := {
  get_law k : exists r, store_get k = Ok r /\ same r (S !! k);
  get_many_ok sg ids : exists r, store_get_many sg ids = Ok r;
  get_many_nodup sg ids r ty es :
    store_get_many sg ids = Ok r -> r !! ty = Some es -> NoDup (entity_id <$> es);
  get_many_sound sg ids r ty es e :
    store_get_many sg ids = Ok r -> r !! ty = Some es -> e ∈ es ->
    exists id l, entity_id e = Ok id /\ ids !! ty = Some l /\ id ∈ l /\
      same (Some e) (S !! mk_key sg ty id);
  get_many_complete sg ids r ty l id e0 :
    store_get_many sg ids = Ok r -> ids !! ty = Some l -> id ∈ l ->
    S !! mk_key sg ty id = Some e0 ->
    exists es e, r !! ty = Some es /\ e ∈ es /\ entity_id e = Ok id;
}.

(** ** The cache *)
Section cache.
Context {ST : Store}.
Context `{CacheWeight EntityKey, CacheWeight (option Entity)}.
Context {PQ : PriorityQueue EntityKey (option Entity)}.
Variable size_of_entry : Z.

  Abbreviation EntityLfu := (LfuCache EntityKey (option Entity)).

Record EntityCache := mk_EntityCache {
    current : EntityLfu;
    updates : gmap EntityKey (option Entity);
  }.

Definition cache_new : EntityCache := mk_EntityCache new ∅.
Definition with_current (cur : EntityLfu) : EntityCache := mk_EntityCache cur ∅.

(** [LfuCache::get_entity] *)
Definition get_entity (cur : EntityLfu) (key : EntityKey) : EntityLfu * qres (option Entity) :=
    match LfuCache.get cur key with
    | (None, cur) =>
        match store_get key with
        | Ok entity =>
            let entity := untag <$> entity in
            (LfuCache.insert size_of_entry cur key entity, Ok entity)
        | Err e => (cur, Err e)
        | Panic => (cur, Panic)
        end
    | (Some data, cur) => (cur, Ok data)
    end.

(** [EntityCache::get] *)
Definition cache_get (c : EntityCache) (key : EntityKey) : EntityCache * qres (option Entity) :=
    let '(cur, r) := get_entity (current c) key in
    (mk_EntityCache cur (updates c),
     let? entity := r in
     Ok match entity, updates c !! key with
        | e, None => e
        | _, Some None => None
        | None, Some u => u
        | Some e, Some (Some u) => Some (merge_remove_null_fields e u)
        end).

(** [EntityCache::remove] *)
Definition cache_remove (c : EntityCache) (key : EntityKey) : EntityCache :=
    mk_EntityCache (current c) (<[key := None]> (updates c)).

(** The loop of [set] after a removal: [entry(field).or_insert(Null)] for
      every field of the current entity. *)
Definition or_insert_null (entity : Entity) (field : string) : Entity :=
    match entity !! field with Some _ => entity | None => <[field := VNull]> entity end.
Definition null_missing (entity cur : Entity) : Entity :=
    foldl or_insert_null entity (map_to_list cur).*1.

(** [EntityCache::set] *)
Definition cache_set (c : EntityCache) (key : EntityKey) (entity : Entity) :
      EntityCache * qres unit :=
    match updates c !! key with
    | None => (mk_EntityCache (current c) (<[key := Some entity]> (updates c)), Ok tt)
    | Some (Some prev_update) =>
        (mk_EntityCache (current c) (<[key := Some (merge prev_update entity)]> (updates c)),
         Ok tt)
    | Some None =>
        let '(cur, r) := get_entity (current c) key in
        match r with
        | Ok e =>
            let entity := match e with Some e => null_missing entity e | None => entity end in
            (mk_EntityCache cur (<[key := Some entity]> (updates c)), Ok tt)
        | Err e => (mk_EntityCache cur (updates c), Err e)
        | Panic => (mk_EntityCache cur (updates c), Panic)
        end
    end.

Definition apply_op (c : EntityCache) (op : EntityOperation) : EntityCache * qres unit :=
    match op with
    | OpSet key data => cache_set c key data
    | OpRemove key => (cache_remove c key, Ok tt)
    end.

(** [EntityCache::append]: stops at the first failing operation. *)
Fixpoint append (c : EntityCache) (operations : list EntityOperation) :
      EntityCache * qres unit :=
    match operations with
    | [] => (c, Ok tt)
    | op :: operations =>
        match apply_op c op with
        | (c, Ok _) => append c operations
        | r => r
        end
    end.

(** [EntityCache::extend] *)
Definition update_op (u : EntityKey * option Entity) : EntityOperation :=
    match u.2 with Some e => OpSet u.1 e | None => OpRemove u.1 end.
Definition cache_extend (c other : EntityCache) : EntityCache * qres unit :=
    append (mk_EntityCache (LfuCache.extend (current c) (current other)) (updates c))
      (update_op <$> btree_list key_compare (updates other)).

(** ** [as_modifications] *)

(** The keys of the updates that the cache does not know, grouped by
      subgraph and entity type. *)
Definition missing (c : EntityCache) : list EntityKey :=
    filter (fun k => contains_key (current c) k = false)
      (btree_list key_compare (updates c)).*1.

Definition push_missing (m : gmap string (gmap string (list string))) (k : EntityKey) :
      gmap string (gmap string (list string)) :=
    let types := default ∅ (m !! subgraph_id k) in
    let ids := default [] (types !! entity_type k) in
    <[subgraph_id k := <[entity_type k := ids ++ [key_entity_id k]]> types]> m.
Definition missing_by_subgraph (c : EntityCache) := foldl push_missing ∅ (missing c).

Definition insert_loaded (sg ty : string) (cur : EntityLfu) (e : Entity) : qres EntityLfu :=
    match entity_id e with
    | Ok id => Ok (LfuCache.insert size_of_entry cur (mk_key sg ty id) (Some e))
    | _ => Panic
    end.

Definition load_subgraph (cur : EntityLfu) (x : string * gmap string (list string)) :
      qres EntityLfu :=
    let? loaded := store_get_many x.1 x.2 in
    fold_res (fun cur te => fold_res (insert_loaded x.1 te.1) cur te.2) cur
      (btree_list String.compare loaded).

Definition load_missing (c : EntityCache) : qres EntityLfu :=
    fold_res load_subgraph (current c) (btree_list String.compare (missing_by_subgraph c)).

(** The body of the loop over the updates. *)
Definition modify_step (s : EntityLfu * list EntityModification)
      (u : EntityKey * option Entity) : qres (EntityLfu * list EntityModification) :=
    let '(cur, mods) := s in
    let '(key, update) := u in
    let? (old, cur) := map_err (fun _ => PanicError "") (LfuCache.remove cur key) in
    match mjoin old, update with
    | None, Some u =>
        let data := merge_remove_null_fields entity_new u in
        Ok (LfuCache.insert size_of_entry cur key (Some data), mods ++ [Insert key data])
    | Some e, Some u =>
        let data := merge_remove_null_fields e u in
        let cur := LfuCache.insert size_of_entry cur key (Some data) in
        if entity_eqb e data then Ok (cur, mods)
        else Ok (cur, mods ++ [Overwrite key data])
    | Some _, None =>
        Ok (LfuCache.insert size_of_entry cur key None, mods ++ [Remove key])
    | None, None => Ok (cur, mods)
    end.

Definition as_modifications (c : EntityCache) : qres (list EntityModification * EntityLfu) :=
    let? cur := load_missing c in
    let? (cur, mods) := fold_res modify_step (cur, [])
      (btree_list key_compare (updates c)) in
    Ok (mods, cur).
End cache.

(** ** The abstract view of the cache *)

(** What applying the modifications does to the state of the store. *)
Definition apply_mod (S : gmap EntityKey Entity) (m : EntityModification) :
    gmap EntityKey Entity :=
  match m with
  | Insert k data | Overwrite k data => <[k := data]> S
  | Remove k => delete k S
  end.
Definition apply_mods := foldl apply_mod.

(** The entity a mapping should see under a key: the store's entity with the
    update applied. *)
Definition updated (cur : option Entity) (upd : option (option Entity)) : option Entity :=
  match upd with
  | None => cur
  | Some None => None
  | Some (Some u) => Some (merge_remove_null_fields (default ∅ cur) u)
  end.

(** ** Equality up to the type tag *)
Lemma same_entity_lookup a b :
  same_entity a b <-> forall f, f <> "__typename" -> a !! f ≡ b !! f.
Proof.
  unfold same_entity, untag. rewrite map_equiv_iff. split.
  - intros Hab f Hf. specialize (Hab f). by rewrite !lookup_delete_ne in Hab.
  - intros Hab f. destruct (decide (f = "__typename")) as [->|Hne].
    + by rewrite !lookup_delete_eq.
    + rewrite !lookup_delete_ne by done. by apply Hab.
Qed.

Lemma same_entity_untag e : same_entity (untag e) e.
Proof.
  apply same_entity_lookup. intros f Hf. unfold untag. by rewrite lookup_delete_ne.
Qed.

#[export] Instance same_equivalence : Equivalence same.
Proof.
  split.
  - intros [a|]; constructor. reflexivity.
  - intros a b []; constructor. by symmetry.
  - intros a b c Hab Hbc. inversion Hab as [? ? H1|]; subst; inversion Hbc as [? ? H2|]; subst;
      constructor. by etrans.
Qed.

Lemma same_untag r : same (untag <$> r) r.
Proof. destruct r; constructor. apply same_entity_untag. Qed.

#[export] Instance merge_remove_null_same :
  Proper (same_entity ==> same_entity ==> same_entity) merge_remove_null_fields.
Proof.
  intros e1 e2 He u1 u2 Hu. rewrite same_entity_lookup in *. intros f Hf.
  rewrite !merge_remove_null_lookup. specialize (He f Hf). specialize (Hu f Hf).
  inversion Hu as [v w Hvw|]; simpl; [|done].
  destruct v, w; simpl; try done; by constructor.
Qed.

#[export] Instance updated_same : Proper (same ==> eq ==> same) updated.
Proof.
  intros c1 c2 Hc upd ? <-. destruct upd as [[u|]|]; simpl; [|constructor|done].
  constructor. apply merge_remove_null_same; [|reflexivity].
  destruct Hc; simpl; [done|reflexivity].
Qed.

Lemma same_inv_l a r : same (Some a) r -> exists b, r = Some b /\ same_entity a b.
Proof. inversion 1; subst; eauto. Qed.

Lemma same_inv_none r : same None r -> r = None.
Proof. by inversion 1. Qed.

Lemma null_missing_lookup cur entity f :
  null_missing entity cur !! f =
  match entity !! f with
  | Some v => Some v
  | None => match cur !! f with Some _ => Some VNull | None => None end
  end.
Proof.
  unfold null_missing.
  assert (Hl : forall l e, foldl or_insert_null e l !! f =
    match e !! f with Some v => Some v
    | None => if decide (f ∈ l) then Some VNull else None end).
  { induction l as [|g l IH]; intros e; cbn [foldl].
    { destruct (e !! f); [done|]. by rewrite decide_False by apply not_elem_of_nil. }
    rewrite IH. unfold or_insert_null. destruct (e !! g) eqn:Hg.
    - destruct (e !! f) eqn:Hf; [done|].
      assert (f <> g) by congruence.
      destruct (decide (f ∈ l)), (decide (f ∈ g :: l)); set_solver.
    - destruct (decide (f = g)) as [->|Hne].
      + rewrite lookup_insert_eq, Hg, decide_True by left. done.
      + rewrite lookup_insert_ne by done. destruct (e !! f); [done|].
        destruct (decide (f ∈ l)), (decide (f ∈ g :: l)); set_solver. }
  rewrite Hl. destruct (entity !! f); [done|].
  destruct (cur !! f) as [v|] eqn:Hv.
  - rewrite decide_True; [done|]. apply list_elem_of_fmap. exists (f, v).
    split; [done|]. by apply elem_of_map_to_list.
  - rewrite decide_False; [done|]. intros ((f' & v) & -> & Hin)%list_elem_of_fmap.
    apply elem_of_map_to_list in Hin. simpl in Hv. congruence.
Qed.

(** A set after a removal replaces the stored entity. *)
Lemma null_missing_replaces cur old u :
  same_entity cur old ->
  same_entity (merge_remove_null_fields old (null_missing u cur))
    (merge_remove_null_fields ∅ u).
Proof.
  rewrite !same_entity_lookup. intros Hco f Hf. specialize (Hco f Hf).
  rewrite !merge_remove_null_lookup, null_missing_lookup, lookup_empty.
  destruct (u !! f) as [v|]; [done|]. inversion Hco; done.
Qed.

(** ** Lookups preserve the agreement of cache and store *)
Section agreement.
Context {ST : Store}.
Context `{CacheWeight EntityKey, CacheWeight (option Entity)}.
Context {PQ : PriorityQueue EntityKey (option Entity)}.
Variable size_of_entry : Z.
Context (S : gmap EntityKey Entity) {SL : StoreLaws S}.

Definition agrees (cur : LfuCache EntityKey (option Entity)) (T : gmap EntityKey Entity) : Prop :=
    cache_inv cur /\ forall k v, values cur !! k = Some v -> same v (T !! k).

Lemma insert_new_agrees cur T k v :
    values cur !! k = None -> agrees cur T -> same v (T !! k) ->
    agrees (LfuCache.insert size_of_entry cur k v) T.
Proof.
    intros Hk [Hi Ha] Hv. split; [by apply insert_new_inv|]. intros k' v'.
    rewrite insert_values. intros [[<- <-]|[_ Hk']]%lookup_insert_Some; [done|by apply Ha].
Qed.

Lemma get_entity_spec cur k n :
    (0 <= n < 2 ^ 64 - 1)%Z -> agrees cur S -> headroom cur (n + 1) ->
    exists cur' r, get_entity size_of_entry cur k = (cur', Ok r)
      /\ same r (S !! k) /\ agrees cur' S /\ headroom cur' n.
Proof.
    intros Hn [Hi Ha] Hh. unfold get_entity.
    assert (Hs : not_saturated cur k) by (eapply headroom_not_saturated; [|done]; lia).
    assert (Hh' : headroom (get cur k).2 n) by (apply get_headroom; auto; lia).
    destruct (get_values cur k) as [Hg Hv].
    destruct (get cur k) as [g cur1] eqn:Hget. simpl in *. injection Hg as ->.
    assert (Hi' : cache_inv cur1) by (by eapply get_inv).
    destruct (values cur !! k) as [r|] eqn:Hk.
    - eexists _, _. split_and!; [done|by apply Ha|split; [done|]|done].
      intros k' v'. rewrite Hv. apply Ha.
    - destruct (get_law k) as (r & -> & Hr). eexists _, _. split_and!; [done| | |].
      + etrans; [apply same_untag|done].
      + apply insert_new_agrees; [by rewrite Hv| |by etrans; [apply same_untag|]].
        split; [done|]. intros k' v'. rewrite Hv. apply Ha.
      + apply insert_new_headroom; [done|by rewrite Hv|done].
Qed.
End agreement.

(** ** The cache implements a map of entities

    [implements c S W]: over the store state [S], the cache stands for the map
    [W] from keys to the entities that exist. *)
Section implements.
Context {ST : Store}.
Context `{CacheWeight EntityKey, CacheWeight (option Entity)}.
Context {PQ : PriorityQueue EntityKey (option Entity)}.
Variable size_of_entry : Z.
Context (S : gmap EntityKey Entity) {SL : StoreLaws S}.
  Implicit Types (W : gmap EntityKey Entity) (c : EntityCache).

Definition implements c W (n : Z) : Prop :=
    agrees (current c) S /\ headroom (current c) n /\
    forall k, same (updated (S !! k) (updates c !! k)) (W !! k).

(** The operations on [W]. *)
Definition set_spec W (k : EntityKey) (e : Entity) : gmap EntityKey Entity :=
    <[k := merge_remove_null_fields (default ∅ (W !! k)) e]> W.
Definition op_spec W (op : EntityOperation) : gmap EntityKey Entity :=
    match op with OpSet k e => set_spec W k e | OpRemove k => delete k W end.

Lemma updated_set cur prev e :
    updated cur (Some (Some (merge prev e)))
    = Some (merge_remove_null_fields (default ∅ (updated cur (Some (Some prev)))) e).
Proof. simpl. by rewrite merge_remove_null_assoc. Qed.

Lemma implements_update c cur W k u w n :
    agrees cur S -> headroom cur n ->
    (forall k, same (updated (S !! k) (updates c !! k)) (W !! k)) ->
    same (updated (S !! k) (Some u)) w ->
    implements (mk_EntityCache cur (<[k := u]> (updates c)))
      (partial_alter (fun _ => w) k W) n.
Proof.
    intros Ha Hh HW Hk. split_and!; [done..|]. intros k'. simpl.
    destruct (decide (k' = k)) as [->|Hne].
    - by rewrite lookup_insert_eq, lookup_partial_alter_eq.
    - by rewrite lookup_insert_ne, lookup_partial_alter_ne.
Qed.

Lemma cache_remove_implements c W k n :
    implements c W n -> implements (cache_remove c k) (delete k W) n.
Proof.
    intros (Ha & Hh & HW). by apply (implements_update c (current c) W k None None).
Qed.

Lemma cache_set_implements c W k e n :
    (0 <= n < 2 ^ 64 - 1)%Z -> implements c W (n + 1) ->
    exists c', cache_set size_of_entry c k e = (c', Ok tt)
      /\ implements c' (set_spec W k e) n.
Proof.
    intros Hn (Ha & Hh & HW). pose proof (HW k) as Hk.
    assert (Hmerge : forall u, same (updated (S !! k) u) (W !! k) ->
      same (Some (merge_remove_null_fields (default ∅ (updated (S !! k) u)) e))
        (Some (merge_remove_null_fields (default ∅ (W !! k)) e))).
    { intros u Hu. constructor. apply merge_remove_null_same; [|reflexivity].
      destruct Hu; simpl; [done|reflexivity]. }
    assert (Hh' : headroom (current c) n) by (eapply headroom_weaken; [|done]; lia).
    unfold cache_set. destruct (updates c !! k) as [[prev|]|] eqn:Hu.
    - eexists. split; [done|]. apply implements_update; [done..|].
      rewrite updated_set. by apply Hmerge.
    - destruct (get_entity_spec size_of_entry S (current c) k n Hn Ha Hh)
        as (cur' & r & -> & Hr & Ha' & Hh2).
      eexists. split; [done|]. apply implements_update; [done..|]. simpl in Hk.
      etrans; [|by apply (Hmerge (Some None))]. simpl. constructor.
      destruct Hr as [r0 s0 Hrs|]; simpl; [|reflexivity].
      by apply null_missing_replaces.
    - eexists. split; [done|]. apply implements_update; [done..|]. by apply (Hmerge None).
Qed.

Lemma append_implements ops c W n :
    (0 <= n)%Z -> (n + Z.of_nat (length ops) < 2 ^ 64)%Z ->
    implements c W (n + Z.of_nat (length ops)) ->
    exists c', append size_of_entry c ops = (c', Ok tt)
      /\ implements c' (foldl op_spec W ops) n.
Proof.
    revert c W. induction ops as [|op ops IH]; intros c W Hn Hlen Hc; simpl length in *.
    - exists c. split; [done|]. by replace (n + Z.of_nat 0)%Z with n in Hc by lia.
    - simpl. destruct op as [k e|k]; simpl.
      + replace (n + Z.of_nat (Datatypes.S (length ops)))%Z
          with (n + Z.of_nat (length ops) + 1)%Z in Hc by lia.
        destruct (cache_set_implements c W k e (n + Z.of_nat (length ops)))
          as (c1 & -> & Hc1); [lia|done|]. apply IH; [done|lia|done].
      + apply IH; [done|lia|]. apply cache_remove_implements. destruct Hc as (Ha & Hh & HW).
        refine (conj Ha (conj _ HW)). eapply headroom_weaken; [|done]. lia.
Qed.

(** [get] shows the entity of the map; nulls of a freshly created entity are
      still visible as such. *)
Definition visible (a b : option Entity) : Prop :=
    option_Forall2 (fun x y => same_entity (merge_remove_null_fields ∅ x)
                                 (merge_remove_null_fields ∅ y)) a b.

Lemma merge_empty_idem e u :
    merge_remove_null_fields ∅ (merge_remove_null_fields e u)
    = merge_remove_null_fields (merge_remove_null_fields ∅ e) u.
Proof.
    apply map_eq. intros f. rewrite !merge_remove_null_lookup, lookup_empty.
    by destruct (u !! f) as [[]|], (e !! f) as [[]|].
Qed.

Lemma same_visible a b : same a b -> visible a b.
Proof. intros []; constructor. by apply merge_remove_null_same. Qed.

Lemma cache_get_implements c W k n :
    (0 <= n < 2 ^ 64 - 1)%Z -> implements c W (n + 1) ->
    exists c' r, cache_get size_of_entry c k = (c', Ok r)
      /\ visible r (W !! k) /\ implements c' W n.
Proof.
    intros Hn (Ha & Hh & HW). unfold cache_get.
    destruct (get_entity_spec size_of_entry S (current c) k n Hn Ha Hh)
      as (cur' & r & -> & Hr & Ha' & Hh2).
    do 2 eexists. refine (conj eq_refl (conj _ (conj Ha' (conj Hh2 HW)))).
    pose proof (HW k) as Hk. destruct (updates c !! k) as [[u|]|] eqn:Hu.
    - destruct Hr as [a b Hab|]; simpl in Hk.
      + apply same_visible. etrans; [|done]. constructor. by apply merge_remove_null_same.
      + apply same_inv_l in Hk as (w & -> & Hw). constructor.
        etrans; [|by apply merge_remove_null_same]. rewrite merge_empty_idem. reflexivity.
    - simpl in Hk. inversion Hk. destruct r; constructor.
    - apply same_visible. destruct r; by etrans.
Qed.
End implements.

(** ** Grouping of the missing keys *)
Definition requested (m : gmap string (gmap string (list string))) (k : EntityKey) : Prop :=
  exists types l, m !! subgraph_id k = Some types /\ types !! entity_type k = Some l
    /\ key_entity_id k ∈ l.

Lemma push_missing_requested m k k' :
  requested (push_missing m k) k' <-> k' = k \/ requested m k'.
Proof.
  unfold requested, push_missing. destruct k as [sg ty id], k' as [sg' ty' id']; simpl.
  set (types := default ∅ (m !! sg)). set (ids := default [] (types !! ty)).
  destruct (decide (sg' = sg)) as [->|Hsg].
  2: { rewrite lookup_insert_ne by done. naive_solver. }
  rewrite lookup_insert_eq. destruct (decide (ty' = ty)) as [->|Hty].
  - split.
    + intros (t & l & [= <-] & Hl & Hin). rewrite lookup_insert_eq in Hl.
      injection Hl as <-. apply elem_of_app in Hin as [Hin| ->%list_elem_of_singleton]; [right|auto].
      unfold ids, types in Hin. destruct (m !! sg) as [t|] eqn:Hm; simpl in Hin.
      * destruct (t !! ty) as [l|] eqn:Ht; simpl in Hin; [eauto|by apply not_elem_of_nil in Hin].
      * rewrite lookup_empty in Hin. by apply not_elem_of_nil in Hin.
    + intros Hor. do 2 eexists. split; [done|]. rewrite lookup_insert_eq. split; [done|].
      apply elem_of_app. destruct Hor as [[= ->]|(t & l & Hm & Ht & Hin)].
      * right. by apply list_elem_of_singleton.
      * left. unfold ids, types. by rewrite Hm; simpl; rewrite Ht.
  - split.
    + intros (t & l & [= <-] & Hl & Hin). rewrite lookup_insert_ne in Hl by done. right.
      unfold types in Hl. destruct (m !! sg) as [t|] eqn:Hm; simpl in Hl; [eauto|].
      by rewrite lookup_empty in Hl.
    + intros [[= ]|(t & l & Hm & Ht & Hin)]; [done|].
      do 2 eexists. split; [done|]. rewrite lookup_insert_ne by done.
      unfold types. rewrite Hm. simpl. eauto.
Qed.

Lemma missing_requested ks k : requested (foldl push_missing ∅ ks) k <-> k ∈ ks.
Proof.
  assert (Hg : forall m, requested (foldl push_missing m ks) k <-> k ∈ ks \/ requested m k).
  { induction ks as [|k0 ks IH]; intros m; simpl.
    - rewrite elem_of_nil. tauto.
    - rewrite IH, push_missing_requested, elem_of_cons. tauto. }
  rewrite Hg. split; [|auto]. intros [?|(t & l & Hm & _)]; [done|].
  by rewrite lookup_empty in Hm.
Qed.

(** ** Loading what is missing *)
Section load.
Context {ST : Store}.
Context `{CacheWeight EntityKey, CacheWeight (option Entity)}.
Context {PQ : PriorityQueue EntityKey (option Entity)}.
Variable size_of_entry : Z.
Context (S : gmap EntityKey Entity) {SL : StoreLaws S}.
  Implicit Types (P Q : EntityKey -> Prop).

(** The cache has grown from [cur0] by entities of the store with keys
      in [P]; the new entries have not been accessed. *)
Definition grown (cur0 cur : LfuCache EntityKey (option Entity)) P : Prop :=
    agrees cur S /\
    (forall k v, values cur0 !! k = Some v -> values cur !! k = Some v) /\
    (forall k, is_Some (values cur !! k) -> is_Some (values cur0 !! k) \/ P k) /\
    (forall k x, queue cur !! k = Some x -> queue cur0 !! k = Some x \/ p_freq x.2 = 1%Z).

Lemma grown_weaken cur0 cur P Q :
    (forall k, P k -> Q k) -> grown cur0 cur P -> grown cur0 cur Q.
Proof. intros HPQ (? & ? & Hdom & ?). split_and!; [done..| |done]. intros k Hk. naive_solver. Qed.

Lemma grown_insert cur0 cur P k e :
    grown cur0 cur P -> values cur0 !! k = None -> ~ P k -> same (Some e) (S !! k) ->
    let cur' := LfuCache.insert size_of_entry cur k (Some e) in
    grown cur0 cur' (fun k' => P k' \/ k' = k)
    /\ (forall k', is_Some (values cur !! k') -> is_Some (values cur' !! k'))
    /\ is_Some (values cur' !! k).
Proof.
    intros (Ha & Hold & Hdom & Hfreq) Hk HPk He cur'.
    assert (Hnew : values cur !! k = None).
    { destruct (values cur !! k) as [v|] eqn:Hv; [|done].
      destruct (Hdom k) as [Hs|]; [by rewrite Hv| |done]. rewrite Hk in Hs. by destruct Hs. }
    assert (Hv : values cur' = <[k := Some e]> (values cur)) by apply insert_values.
    split; [split_and!|split].
    - by apply insert_new_agrees.
    - intros k' v Hk'. rewrite Hv, lookup_insert_ne; [by apply Hold|]. congruence.
    - intros k'. rewrite Hv. intros [<-|[_ Hs]]%lookup_insert_is_Some; [auto|].
      destruct (Hdom k' Hs); auto.
    - intros k' x Hx. destruct (decide (k' = k)) as [->|Hne].
      + right. by eapply insert_new_freq.
      + apply Hfreq. by rewrite <-(insert_other size_of_entry cur k (Some e) k' Hne).
    - intros k' Hs. rewrite Hv. apply lookup_insert_is_Some'. auto.
    - rewrite Hv, lookup_insert_eq. eauto.
Qed.

(** One type's entities. *)
Lemma load_entities cur0 sg ty es cur P :
    grown cur0 cur P -> NoDup (entity_id <$> es) ->
    (forall e, e ∈ es -> exists id, entity_id e = Ok id
       /\ same (Some e) (S !! mk_key sg ty id)
       /\ values cur0 !! mk_key sg ty id = None /\ ~ P (mk_key sg ty id)) ->
    exists cur', fold_res (insert_loaded size_of_entry sg ty) cur es = Ok cur'
      /\ grown cur0 cur' (fun k => P k \/ subgraph_id k = sg /\ entity_type k = ty)
      /\ (forall k, is_Some (values cur !! k) -> is_Some (values cur' !! k))
      /\ forall e id, e ∈ es -> entity_id e = Ok id -> is_Some (values cur' !! mk_key sg ty id).
Proof.
    revert cur P. induction es as [|e es IH]; intros cur P Hg Hnd Hes.
    { exists cur. split_and!; [done| |done|].
      - eapply grown_weaken; [|done]. auto.
      - intros e id He. by apply not_elem_of_nil in He. }
    rewrite fmap_cons in Hnd. apply NoDup_cons in Hnd as [Hnotin Hnd].
    destruct (Hes e) as (id & Hid & Hsame & Hfresh & HP); [by left|].
    destruct (grown_insert cur0 cur P (mk_key sg ty id) e Hg Hfresh HP Hsame)
      as (Hg1 & Hmono1 & Hin1).
    destruct (IH _ _ Hg1 Hnd) as (cur' & Hf & Hg' & Hmono & Hall).
    { intros e' He'. destruct (Hes e') as (id' & Hid' & ? & ? & ?); [by right|].
      exists id'. split_and!; [done..|]. intros [?|[= ->]]; [done|].
      apply Hnotin. rewrite <-Hid' in Hid. apply list_elem_of_fmap. eauto. }
    exists cur'. split_and!.
    - simpl. unfold insert_loaded at 1. by rewrite Hid.
    - eapply grown_weaken; [|done]. intros k [[?| ->]|?]; auto.
    - auto.
    - intros e' id' [->|He']%elem_of_cons Hid'; [|by eapply Hall].
      rewrite Hid in Hid'. injection Hid' as <-. by apply Hmono.
Qed.

(** One subgraph's types. *)
Lemma load_types cur0 sg l cur P :
    grown cur0 cur P -> NoDup l.*1 ->
    (forall ty es, (ty, es) ∈ l -> NoDup (entity_id <$> es)) ->
    (forall ty es e, (ty, es) ∈ l -> e ∈ es -> exists id, entity_id e = Ok id
       /\ same (Some e) (S !! mk_key sg ty id)
       /\ values cur0 !! mk_key sg ty id = None /\ ~ P (mk_key sg ty id)) ->
    exists cur', fold_res (fun cur te => fold_res (insert_loaded size_of_entry sg te.1) cur te.2)
        cur l = Ok cur'
      /\ grown cur0 cur' (fun k => P k \/ subgraph_id k = sg /\ entity_type k ∈ l.*1)
      /\ (forall k, is_Some (values cur !! k) -> is_Some (values cur' !! k))
      /\ forall ty es e id, (ty, es) ∈ l -> e ∈ es -> entity_id e = Ok id ->
           is_Some (values cur' !! mk_key sg ty id).
Proof.
    revert cur P. induction l as [|[ty es] l IH]; intros cur P Hg Hnd Hdup Hes.
    { exists cur. split_and!; [done| |done|].
      - eapply grown_weaken; [|done]. auto.
      - intros ty es e id Hin. by apply not_elem_of_nil in Hin. }
    apply NoDup_cons in Hnd as [Hnotin Hnd].
    destruct (load_entities cur0 sg ty es cur P Hg) as (cur1 & Hf1 & Hg1 & Hmono1 & Hall1).
    { apply (Hdup ty). by left. }
    { intros e He. apply (Hes ty es); [by left|done]. }
    destruct (IH cur1 _ Hg1 Hnd) as (cur' & Hf & Hg' & Hmono & Hall).
    { intros ty' es' Hin. apply (Hdup ty'). by right. }
    { intros ty' es' e Hin He. destruct (Hes ty' es' e) as (id & ? & ? & ? & ?); [by right|done|].
      exists id. split_and!; [done..|]. simpl. intros [?|[_ ->]]; [done|].
      apply Hnotin. apply list_elem_of_fmap. by exists (ty, es'). }
    exists cur'. split_and!.
    - simpl. by rewrite Hf1.
    - eapply grown_weaken; [|done]. intros k [[?|[-> ->]]|[-> ?]]; [auto| |]; right;
        (split; [done|]); simpl; [by left|by right].
    - auto.
    - intros ty' es' e id [[= -> ->]|Hin]%elem_of_cons He Hid.
      + apply Hmono. by eapply Hall1.
      + by eapply Hall.
Qed.
End load.

Section load_all.
Context {ST : Store}.
Context `{CacheWeight EntityKey, CacheWeight (option Entity)}.
Context {PQ : PriorityQueue EntityKey (option Entity)}.
Variable size_of_entry : Z.
Context (S : gmap EntityKey Entity) {SL : StoreLaws S}.
  Abbreviation EntityLfu := (LfuCache EntityKey (option Entity)).

(** Every entity of the store asked for by [ids] is cached. *)
Definition all_loaded (cur : EntityLfu) (sg : string) (ids : gmap string (list string)) : Prop :=
    forall ty l id e, ids !! ty = Some l -> id ∈ l -> S !! mk_key sg ty id = Some e ->
    is_Some (values cur !! mk_key sg ty id).

Lemma load_subgraph_spec cur0 cur P sg ids :
    grown S cur0 cur P ->
    (forall k, subgraph_id k = sg -> ~ P k) ->
    (forall ty l id, ids !! ty = Some l -> id ∈ l -> values cur0 !! mk_key sg ty id = None) ->
    exists cur', load_subgraph size_of_entry cur (sg, ids) = Ok cur'
      /\ grown S cur0 cur' (fun k => P k \/ subgraph_id k = sg)
      /\ (forall k, is_Some (values cur !! k) -> is_Some (values cur' !! k))
      /\ all_loaded cur' sg ids.
Proof.
    intros Hg HP Hfresh. destruct (get_many_ok sg ids) as [r Hr].
    destruct (load_types size_of_entry S cur0 sg (btree_list String.compare r) cur P Hg)
      as (cur' & Hf & Hg' & Hmono & Hall).
    - apply NoDup_btree_keys.
    - intros ty es Hin%elem_of_btree_list. by eapply get_many_nodup.
    - intros ty es e Hin%elem_of_btree_list He.
      destruct (get_many_sound sg ids r ty es e Hr Hin He) as (id & l & Hid & Hl & Hil & Hs).
      exists id. split_and!; [done..|by eapply Hfresh|by apply HP].
    - exists cur'. split_and!.
      + unfold load_subgraph. cbn [fst snd]. by rewrite Hr.
      + eapply grown_weaken; [|done]. intros k [?|[? _]]; auto.
      + done.
      + intros ty l id e Hl Hil He.
        destruct (get_many_complete sg ids r ty l id e Hr Hl Hil He) as (es & e' & Hes & Hin & Hid).
        apply (Hall ty es e' id); [by apply elem_of_btree_list|done..].
Qed.

Lemma load_subgraphs_spec cur0 l cur P :
    grown S cur0 cur P -> NoDup l.*1 ->
    (forall sg k, sg ∈ l.*1 -> subgraph_id k = sg -> ~ P k) ->
    (forall sg ids ty li id, (sg, ids) ∈ l -> ids !! ty = Some li -> id ∈ li ->
       values cur0 !! mk_key sg ty id = None) ->
    exists cur', fold_res (load_subgraph size_of_entry) cur l = Ok cur'
      /\ agrees cur' S
      /\ (forall k x, queue cur' !! k = Some x -> queue cur0 !! k = Some x \/ p_freq x.2 = 1%Z)
      /\ (forall k, is_Some (values cur !! k) -> is_Some (values cur' !! k))
      /\ forall sg ids, (sg, ids) ∈ l -> all_loaded cur' sg ids.
Proof.
    revert cur P. induction l as [|[sg ids] l IH]; intros cur P Hg Hnd HP Hfresh.
    { exists cur. split_and!; [done|by apply Hg|apply Hg|done|]. intros sg ids Hin.
      by apply not_elem_of_nil in Hin. }
    apply NoDup_cons in Hnd as [Hnotin Hnd].
    destruct (load_subgraph_spec cur0 cur P sg ids Hg) as (cur1 & Hf1 & Hg1 & Hmono1 & Hall1).
    { intros k. apply HP. by left. }
    { intros ty li id. apply Hfresh. by left. }
    destruct (IH cur1 _ Hg1 Hnd) as (cur' & Hf & Ha & Hfreq & Hmono & Hall).
    { intros sg' k Hin Hk [HPk|Hk']; [|by subst].
      by apply (HP sg' k); [right|..]. }
    { intros sg' ids' ty li id Hin. apply Hfresh. by right. }
    exists cur'. split_and!; [by simpl; rewrite Hf1|done|done|auto|].
    intros sg' ids' [[= -> ->]|Hin]%elem_of_cons; [|by apply Hall].
    intros ty li id e Hl Hil He. eapply Hmono, Hall1; done.
Qed.

Lemma elem_of_missing c k :
    k ∈ missing c <-> is_Some (updates c !! k) /\ values (current c) !! k = None.
Proof.
    unfold missing. rewrite list_elem_of_filter, contains_key_values, bool_decide_eq_false,
      <-eq_None_not_Some, list_elem_of_fmap. split.
    - intros [Hv ([k' u] & -> & Hin%elem_of_btree_list)]. simpl. eauto.
    - intros [[u Hu] Hv]. split; [done|]. exists (k, u). split; [done|].
      by apply elem_of_btree_list.
Qed.

Lemma load_missing_spec c :
    agrees (current c) S ->
    exists cur, load_missing size_of_entry c = Ok cur /\ agrees cur S
      /\ (forall k x, queue cur !! k = Some x ->
            queue (current c) !! k = Some x \/ p_freq x.2 = 1%Z)
      /\ forall k, is_Some (updates c !! k) -> values cur !! k = None -> S !! k = None.
Proof.
    intros Ha. unfold load_missing, missing_by_subgraph.
    assert (Hg : grown S (current c) (current c) (fun _ => False)) by (split_and!; auto).
    destruct (load_subgraphs_spec _ (btree_list String.compare
      (foldl push_missing ∅ (missing c))) _ _ Hg) as (cur & Hf & Hcur & Hfreq & Hmono & Hall).
    - apply NoDup_btree_keys.
    - auto.
    - intros sg ids ty li id Hin%elem_of_btree_list His Hid.
      assert (Hm : mk_key sg ty id ∈ missing c) by (apply missing_requested; do 2 eexists; eauto).
      by apply elem_of_missing in Hm as [_ ?].
    - exists cur. split_and!; [done|done|done|]. intros k Hu Hv.
      destruct (S !! k) as [e|] eqn:He; [exfalso|done].
      assert (Hm : k ∈ missing c).
      { apply elem_of_missing. split; [done|]. destruct (values (current c) !! k) eqn:Hk; [|done].
        destruct (Hmono k) as [? Hs]; [by rewrite Hk|]. congruence. }
      apply missing_requested in Hm as (types & l & Htypes & Hl & Hid).
      destruct k as [sg ty id]; simpl in *.
      destruct (Hall sg types (proj2 (elem_of_btree_list _ _ _ _) Htypes) ty l id e Hl Hid He)
        as [? Hs]. congruence.
Qed.
End load_all.

(** ** From updates to modifications *)
Section modify.
Context {ST : Store}.
Context `{CacheWeight EntityKey, CacheWeight (option Entity)}.
Context {PQ : PriorityQueue EntityKey (option Entity)}.
Variable size_of_entry : Z.
Context (S : gmap EntityKey Entity).
  Abbreviation EntityLfu := (LfuCache EntityKey (option Entity)).

(** The entities whose update writes a [__typename], which the store does not
    keep. *)
Variable tagged : EntityKey -> Prop.

(** A modification that is needed: it changes what the store holds. *)
Definition needed (m : EntityModification) : Prop :=
    match m with
    | Insert k _ => S !! k = None
    | Overwrite k data => exists e, S !! k = Some e /\ (~ same_entity e data \/ tagged k)
    | Remove k => is_Some (S !! k)
    end.

(** An update that changes an entity and writes no [__typename] changes more
    than that. *)
Lemma merge_differs e e0 u :
  same_entity e e0 -> u !! "__typename" = None ->
  ~ (e ≡ merge_remove_null_fields e u) -> ~ same_entity e0 (merge_remove_null_fields e u).
Proof.
  intros He Hu Hne Hsame. apply Hne. apply map_equiv_iff. intros f.
  destruct (decide (f = "__typename")) as [->|Hf].
  - rewrite merge_remove_null_lookup, Hu. by destruct (e !! "__typename").
  - assert (same_entity e (merge_remove_null_fields e u)) as Hed by (by etrans).
    by apply (proj1 (same_entity_lookup _ _) Hed).
Qed.

(** The state of the loop after the updates [done]. *)
Record modified (done_ : list (EntityKey * option Entity)) (cur : EntityLfu)
      (mods : list EntityModification) : Prop := {
    md_agrees : agrees cur (apply_mods S mods);
    md_done k u : (k, u) ∈ done_ -> same (apply_mods S mods !! k) (updated (S !! k) (Some u));
    md_other k : k ∉ done_.*1 -> apply_mods S mods !! k = S !! k;
    md_keys : entity_key <$> mods `sublist_of` done_.*1;
    md_needed : Forall needed mods;
  }.

Lemma apply_mods_snoc mods m : apply_mods S (mods ++ [m]) = apply_mod (apply_mods S mods) m.
Proof. unfold apply_mods. by rewrite foldl_app. Qed.

Lemma apply_mod_other T m k : k <> entity_key m -> apply_mod T m !! k = T !! k.
Proof. intros Hk. destruct m; simpl in *; by rewrite ?lookup_insert_ne, ?lookup_delete_ne. Qed.

(** Re-inserting the key that was taken out of the cache. *)
Lemma reinsert_agrees cur T T' k v :
    agrees cur T -> values cur !! k = None ->
    (forall k', k' <> k -> T' !! k' = T !! k') -> same v (T' !! k) ->
    agrees (LfuCache.insert size_of_entry cur k v) T'.
Proof.
    intros [Hi Ha] Hk HT Hv. apply insert_new_agrees; [done| |done].
    split; [done|]. intros k' v' Hk'. rewrite HT; [by apply Ha|]. congruence.
Qed.

(** One more update is accounted for when the modifications afterwards give
      its key the updated entity and leave every other key alone. *)
Lemma modified_extend done_ cur mods cur' mods' k u :
    modified done_ cur mods -> k ∉ done_.*1 ->
    agrees cur' (apply_mods S mods') ->
    same (apply_mods S mods' !! k) (updated (S !! k) (Some u)) ->
    (forall k', k' <> k -> apply_mods S mods' !! k' = apply_mods S mods !! k') ->
    entity_key <$> mods' `sublist_of` (done_ ++ [(k, u)]).*1 -> Forall needed mods' ->
    modified (done_ ++ [(k, u)]) cur' mods'.
Proof.
    intros [_ Hdone Hother _ _] Hk Ha' Hnew Hrest Hks Hn. split; [done| | |done|done].
    - intros k' u' [Hin|Hin]%elem_of_app.
      + rewrite Hrest; [by apply Hdone|]. intros ->. apply Hk.
        apply list_elem_of_fmap. by exists (k, u').
      + apply list_elem_of_singleton in Hin as [= -> ->]. done.
    - intros k'. rewrite fmap_app, not_elem_of_app. intros [Hk' Hne].
      rewrite Hrest; [by apply Hother|]. intros ->. apply Hne. by left.
Qed.

Lemma modified_skip done_ cur mods cur' k u :
    modified done_ cur mods -> k ∉ done_.*1 -> agrees cur' (apply_mods S mods) ->
    same (apply_mods S mods !! k) (updated (S !! k) (Some u)) ->
    modified (done_ ++ [(k, u)]) cur' mods.
Proof.
    intros Hm Hk Ha Hnew. eapply modified_extend; [done..| |].
    - rewrite fmap_app. apply sublist_inserts_r, Hm.
    - apply Hm.
Qed.

Lemma modified_snoc done_ cur mods cur1 u v m :
    let k := entity_key m in
    modified done_ cur mods -> k ∉ done_.*1 ->
    agrees cur1 (apply_mods S mods) -> values cur1 !! k = None ->
    same v (apply_mod (apply_mods S mods) m !! k) ->
    same (apply_mod (apply_mods S mods) m !! k) (updated (S !! k) (Some u)) ->
    needed m ->
    modified (done_ ++ [(k, u)]) (LfuCache.insert size_of_entry cur1 k v) (mods ++ [m]).
Proof.
    intros k Hm Hk Ha Hnone Hv Hnew Hneed.
    apply (modified_extend done_ cur mods); [exact Hm|exact Hk|..].
    - rewrite apply_mods_snoc. eapply reinsert_agrees; [exact Ha|exact Hnone| |exact Hv].
      intros k' Hne. by apply apply_mod_other.
    - by rewrite apply_mods_snoc.
    - intros k' Hne. rewrite apply_mods_snoc. by apply apply_mod_other.
    - rewrite !fmap_app. apply sublist_app; [apply Hm|done].
    - apply Forall_app. split; [apply Hm|by apply Forall_singleton].
Qed.

(** The cases of the body of the loop, with the cache [cur1] from which the
      key has been taken out. *)
Lemma modify_cases done_ cur mods cur1 k u old :
    modified done_ cur mods -> k ∉ done_.*1 ->
    agrees cur1 (apply_mods S mods) -> values cur1 !! k = None -> same old (S !! k) ->
    (forall e, u = Some e -> is_Some (e !! "__typename") -> tagged k) ->
    exists cur' mods',
      match old, u with
      | None, Some u =>
          let data := merge_remove_null_fields entity_new u in
          Ok (LfuCache.insert size_of_entry cur1 k (Some data), mods ++ [Insert k data])
      | Some e, Some u =>
          let data := merge_remove_null_fields e u in
          let cur := LfuCache.insert size_of_entry cur1 k (Some data) in
          if entity_eqb e data then Ok (cur, mods) else Ok (cur, mods ++ [Overwrite k data])
      | Some _, None =>
          Ok (LfuCache.insert size_of_entry cur1 k None, mods ++ [Remove k])
      | None, None => Ok (cur1, mods)
      end = (Ok (cur', mods') : qres _)
      /\ modified (done_ ++ [(k, u)]) cur' mods'
      /\ forall k', k' <> k -> values cur' !! k' = values cur1 !! k'.
Proof.
    intros Hm Hk Ha Hnone Hold Htag. pose proof (md_other _ _ _ Hm k Hk) as HSk.
    assert (Hins : forall v k', k' <> k ->
      values (LfuCache.insert size_of_entry cur1 k v) !! k' = values cur1 !! k').
    { intros v k' Hne. by rewrite insert_values, lookup_insert_ne. }
    destruct old as [e|].
    - apply same_inv_l in Hold as (e0 & HS & He). rewrite HS in HSk. destruct u as [u|].
      + set (data := merge_remove_null_fields e u).
        assert (Hdata : same (Some data) (updated (Some e0) (Some (Some u)))).
        { constructor. by apply merge_remove_null_same. }
        simpl. destruct (entity_eqb e data) eqn:Heq; eexists _, _;
          (split; [done|split; [|by apply Hins]]).
        * apply entity_eqb_spec in Heq. assert (Hed : same_entity data e0).
          { etrans; [|exact He]. unfold same_entity, untag. by rewrite <-Heq. }
          eapply modified_skip; [done..| |].
          -- eapply reinsert_agrees; [done..|]. rewrite HSk. by constructor.
          -- rewrite HSk, HS. etrans; [|exact Hdata]. constructor. by symmetry.
        * apply (modified_snoc done_ cur mods cur1 (Some u) (Some data) (Overwrite k data));
            simpl; rewrite ?lookup_insert_eq, ?HS; try done.
          exists e0. split; [done|]. destruct (u !! "__typename") as [t|] eqn:Eu; [right; eauto|left].
          apply merge_differs; [done..|]. rewrite <-entity_eqb_spec. fold data. congruence.
      + eexists _, _. split; [done|split; [|by apply Hins]].
        apply (modified_snoc done_ cur mods cur1 None None (Remove k)); simpl;
          rewrite ?lookup_delete_eq, ?HS; try done; constructor.
    - apply same_inv_none in Hold as HS. rewrite HS in HSk. destruct u as [u|]; simpl.
      + eexists _, _. split; [done|split; [|by apply Hins]].
        apply (modified_snoc done_ cur mods cur1 (Some u) _ (Insert k _)); simpl;
          rewrite ?lookup_insert_eq, ?HS; done.
      + eexists _, _. split; [done|split; [|done]].
        eapply modified_skip; [done..|]. rewrite HSk. simpl. constructor.
Qed.

Lemma modified_step done_ cur mods k u :
    modified done_ cur mods -> k ∉ done_.*1 ->
    (values cur !! k = None -> S !! k = None) ->
    (forall e, u = Some e -> is_Some (e !! "__typename") -> tagged k) ->
    exists cur' mods', modify_step size_of_entry (cur, mods) (k, u) = Ok (cur', mods')
      /\ modified (done_ ++ [(k, u)]) cur' mods'
      /\ forall k', k' <> k -> values cur' !! k' = values cur !! k'.
Proof.
    intros Hm Hk Hnone Htag. pose proof (md_agrees _ _ _ Hm) as [Hi Ha].
    destruct (remove_values cur k Hi) as (cur1 & Hrem & Hi1 & Hv1 & _).
    destruct (modify_cases done_ cur mods cur1 k u (mjoin (values cur !! k)))
      as (cur' & mods' & Hstep & Hm' & Hrest); [done|done| | | |exact Htag|].
    - split; [done|]. intros k' v'. rewrite Hv1. intros [_ ?]%lookup_delete_Some. by apply Ha.
    - rewrite Hv1. apply lookup_delete_eq.
    - destruct (values cur !! k) as [v|] eqn:Hv; simpl.
      + rewrite <-(md_other _ _ _ Hm k Hk). by apply Ha.
      + rewrite Hnone by done. constructor.
    - exists cur', mods'. split; [|split; [done|]].
      + unfold modify_step. rewrite Hrem. exact Hstep.
      + intros k' Hne. by rewrite Hrest, Hv1, lookup_delete_ne.
Qed.

Lemma modify_loop l done_ cur mods :
    modified done_ cur mods -> NoDup (done_ ++ l).*1 ->
    (forall k, k ∈ l.*1 -> values cur !! k = None -> S !! k = None) ->
    (forall k e, (k, Some e) ∈ l -> is_Some (e !! "__typename") -> tagged k) ->
    exists cur' mods', fold_res (modify_step size_of_entry) (cur, mods) l = Ok (cur', mods')
      /\ modified (done_ ++ l) cur' mods'.
Proof.
    revert done_ cur mods. induction l as [|[k u] l IH]; intros done_ cur mods Hm Hnd Hnone Htag.
    { exists cur, mods. by rewrite app_nil_r. }
    rewrite fmap_app, fmap_cons in Hnd. apply NoDup_app in Hnd as (Hnd1 & Hdisj & Hnd2).
    apply NoDup_cons in Hnd2 as [Hkl Hnd2]. cbn [fst] in *.
    destruct (modified_step done_ cur mods k u Hm) as (cur1 & mods1 & Hstep & Hm1 & Hrest).
    { intros Hin. apply (Hdisj k Hin). by left. }
    { apply Hnone. by left. }
    { intros e ->. apply Htag. by left. }
    destruct (IH (done_ ++ [(k, u)]) cur1 mods1) as (cur' & mods' & Hf & Hm').
    { done. }
    { rewrite <-app_assoc. simpl. rewrite fmap_app. simpl. apply NoDup_app. split_and!; [done..|].
      by apply NoDup_cons. }
    { intros k' Hk' Hv. rewrite Hrest in Hv by congruence. apply Hnone; [by right|done]. }
    { intros k' e Hin. apply Htag. by right. }
    exists cur', mods'. rewrite <-app_assoc in Hm'. split; [|done].
    rewrite fold_res_cons, Hstep. exact Hf.
Qed.
End modify.

(** ** Properties *)
Section properties.
Context {ST : Store}.
Context `{CacheWeight EntityKey, CacheWeight (option Entity)}.
Context {PQ : PriorityQueue EntityKey (option Entity)}.
Variable size_of_entry : Z.
Context (S : gmap EntityKey Entity) {SL : StoreLaws S}.

(** The updates of the cache that write a [__typename]. *)
Definition tag_written c (k : EntityKey) : Prop :=
  exists u, updates c !! k = Some (Some u) /\ is_Some (u !! "__typename").

Lemma as_modifications_spec c :
    agrees (current c) S ->
    exists mods cur, as_modifications size_of_entry c = Ok (mods, cur)
      /\ modified S (tag_written c) (btree_list key_compare (updates c)) cur mods.
Proof.
    intros Ha. unfold as_modifications.
    destruct (load_missing_spec size_of_entry S c Ha) as (cur0 & -> & Ha0 & _ & Hnone).
    destruct (modify_loop size_of_entry S (tag_written c) (btree_list key_compare (updates c)) [] cur0 [])
      as (cur & mods & Hf & Hm).
    - split; [done| |done|done|constructor]. intros k u Hin. by apply not_elem_of_nil in Hin.
    - apply NoDup_btree_keys.
    - intros k ((k' & u) & -> & Hin%elem_of_btree_list)%list_elem_of_fmap Hv.
      apply Hnone; [|done]. exists u. exact Hin.
    - intros k e Hin%elem_of_btree_list ?. by exists e.
    - exists mods, cur. simpl res_bind. by rewrite Hf.
Qed.

(** The frequencies of the cache that is returned: an entry of an updated key
    is new, every other entry was there before or is new. *)
Lemma modify_step_freq s u s' k x :
    modify_step size_of_entry s u = Ok s' -> queue s'.1 !! k = Some x ->
    k <> u.1 /\ queue s.1 !! k = Some x \/ p_freq x.2 = 1%Z.
Proof.
    destruct s as [cur mods], u as [key u]. unfold modify_step.
    destruct (LfuCache.remove cur key) as [[old cur1]| |] eqn:Hr; cbn [map_err res_bind]; try done.
    pose proof (remove_queue _ _ _ _ Hr) as Hq.
    assert (Hnone : values cur1 !! key = None).
    { unfold values. by rewrite Hq, lookup_fmap, lookup_delete_eq. }
    assert (Hins : forall v, queue (LfuCache.insert size_of_entry cur1 key v) !! k = Some x ->
      k <> key /\ queue cur !! k = Some x \/ p_freq x.2 = 1%Z).
    { intros v Hx. destruct (decide (k = key)) as [->|Hne]; [right; by eapply insert_new_freq|].
      left. split; [done|]. rewrite insert_other in Hx by done. rewrite Hq in Hx.
      by rewrite lookup_delete_ne in Hx. }
    destruct (mjoin old) as [e|], u as [u|]; cbn [fst snd].
    - destruct (entity_eqb _ _); intros [= <-]; apply Hins.
    - intros [= <-]; apply Hins.
    - intros [= <-]; apply Hins.
    - intros [= <-]. cbn [fst]. rewrite Hq. intros [Hne Hx]%lookup_delete_Some. auto.
Qed.

Lemma modify_loop_freq l s s' k x :
    fold_res (modify_step size_of_entry) s l = Ok s' -> queue s'.1 !! k = Some x ->
    k ∉ l.*1 /\ queue s.1 !! k = Some x \/ p_freq x.2 = 1%Z.
Proof.
    revert s. induction l as [|u l IH]; intros s.
    { intros [= <-] Hx. left. split; [apply not_elem_of_nil|done]. }
    rewrite fold_res_cons, fmap_cons, not_elem_of_cons.
    destruct (modify_step _ s u) as [s1| |] eqn:E; cbn [res_bind]; try done. intros Hf Hx.
    destruct (IH _ Hf Hx) as [[Hk Hx1]|]; [|by right].
    destruct (modify_step_freq _ _ _ _ _ E Hx1) as [[]|]; auto.
Qed.

Lemma as_modifications_freq c mods cur k x :
    agrees (current c) S -> as_modifications size_of_entry c = Ok (mods, cur) ->
    queue cur !! k = Some x ->
    updates c !! k = None /\ queue (current c) !! k = Some x \/ p_freq x.2 = 1%Z.
Proof.
    intros Ha. unfold as_modifications.
    destruct (load_missing_spec size_of_entry S c Ha) as (cur0 & -> & _ & Hfreq & _).
    cbn [res_bind]. destruct (fold_res _ _ _) as [[cur1 mods1]| |] eqn:E; cbn [res_bind]; try done.
    intros [= <- <-] Hx. destruct (modify_loop_freq _ _ _ _ _ E Hx) as [[Hk Hx0]|]; [|by right].
    destruct (Hfreq _ _ Hx0) as [Hc|]; [left|by right]. split; [|done].
    destruct (updates c !! k) as [u|] eqn:Hu; [|done]. exfalso. apply Hk.
    apply list_elem_of_fmap. exists (k, u). split; [done|]. by apply elem_of_btree_list.
Qed.

Lemma modified_all c cur mods k :
    modified S (tag_written c) (btree_list key_compare (updates c)) cur mods ->
    same (apply_mods S mods !! k) (updated (S !! k) (updates c !! k)).
Proof.
    intros Hm. destruct (updates c !! k) as [u|] eqn:Hu.
    - eapply md_done; [done|]. by apply elem_of_btree_list.
    - rewrite (md_other _ _ _ _ _ Hm); [done|].
      intros ((k' & u) & -> & Hin%elem_of_btree_list)%list_elem_of_fmap. simpl in Hu. congruence.
Qed.

(** C17: the cache implements a map: reading through a cache that stands for
      [W] shows the entity [W] holds, and applying a list of operations takes
      it to a cache that stands for [W] with the operations applied: a set
      merges into the present entity, drops nulls and, after a removal, starts
      afresh; a remove deletes.  No operation fails while the store answers. *)
Theorem cache_refines_entity_map (c : EntityCache) (W : gmap EntityKey Entity)
      (ops : list EntityOperation) (k : EntityKey) (n : Z) :
    (0 <= n)%Z -> (n + 1 + Z.of_nat (length ops) < 2 ^ 64 - 1)%Z ->
    implements S c W (n + 1 + Z.of_nat (length ops)) ->
    exists c1 c2 r,
      append size_of_entry c ops = (c1, Ok tt)
      /\ cache_get size_of_entry c1 k = (c2, Ok r)
      /\ visible r (foldl op_spec W ops !! k)
      /\ implements S c1 (foldl op_spec W ops) (n + 1)
      /\ implements S c2 (foldl op_spec W ops) n.
Proof.
    intros Hn Hlen Hc.
    destruct (append_implements size_of_entry S ops c W (n + 1)) as (c1 & Happ & Hc1);
      [lia|lia|done|].
    destruct (cache_get_implements size_of_entry S c1 (foldl op_spec W ops) k n) as (c2 & r & Hget & Hvis & Hc2);
      [lia|done|].
    exists c1, c2, r. refine (conj Happ (conj Hget (conj Hvis (conj Hc1 Hc2)))).
Qed.

(** C5: one block: starting from a cache that agrees with the store, apply
      the operations of the block, turn the accumulated updates into
      modifications and apply those to the store.  The store ends up as if the
      operations had been applied to it one by one, and the cache that is
      returned agrees with the new store, ready for the next block. *)
Theorem block_of_operations_refines_store (cur0 : LfuCache EntityKey (option Entity))
      (ops : list EntityOperation) :
    agrees cur0 S -> headroom cur0 (Z.of_nat (length ops)) ->
    (Z.of_nat (length ops) < 2 ^ 64)%Z ->
    exists c mods cur,
      append size_of_entry (with_current cur0) ops = (c, Ok tt)
      /\ as_modifications size_of_entry c = Ok (mods, cur)
      /\ agrees cur (apply_mods S mods)
      /\ forall k, same (apply_mods S mods !! k) (foldl op_spec S ops !! k).
Proof.
    intros Ha Hh Hlen.
    destruct (append_implements size_of_entry S ops (with_current cur0) S 0)
      as (c & Happ & Hc); [done|lia| |].
    { split; [done|]. split; [by rewrite Z.add_0_l|]. intros k. simpl.
      rewrite lookup_empty. reflexivity. }
    destruct Hc as (Hca & _ & HW).
    destruct (as_modifications_spec c Hca) as (mods & cur & Hmods & Hm).
    exists c, mods, cur. refine (conj Happ (conj Hmods (conj (md_agrees _ _ _ _ _ Hm) _))).
    intros k. etrans; [by eapply modified_all|]. apply HW.
Qed.

(** C29: the modifications are minimal, as the comment on [EntityCache]
      promises: no entity appears in more than one of them, and each one
      changes what the store holds: an insertion is of an absent entity, an
      overwrite differs from the stored entity in more than [__typename], unless
      the update writes that, and a removal is of a present one. *)
Theorem modifications_are_minimal (c : EntityCache) :
    agrees (current c) S ->
    exists mods cur,
      as_modifications size_of_entry c = Ok (mods, cur)
      /\ NoDup (entity_key <$> mods)
      /\ Forall (needed S (tag_written c)) mods
      /\ forall m, m ∈ mods -> is_Some (updates c !! entity_key m).
Proof.
    intros Ha. destruct (as_modifications_spec c Ha) as (mods & cur & Hmods & Hm).
    pose proof (md_keys _ _ _ _ _ Hm) as Hsub.
    exists mods, cur. split_and!; [done| |by apply Hm|].
    - eapply sublist_NoDup; [|done]. apply NoDup_btree_keys.
    - intros m Hmm. assert (Hk : entity_key m ∈ (btree_list key_compare (updates c)).*1).
      { eapply elem_of_submseteq; [by apply list_elem_of_fmap_2|]. by apply sublist_submseteq. }
      apply list_elem_of_fmap in Hk as ((k & u) & -> & Hin%elem_of_btree_list). by exists u.
Qed.
End properties.

(** an entity that [as_modifications] loads with [get_many] keeps its
    [__typename] in the cache, and a later [get] through that cache shows it to
    the mapping, although a lookup that misses the cache strips it. *)
Lemma typename_leaks_through_get_many {ST : Store}
    `{CacheWeight EntityKey, CacheWeight (option Entity)}
    {PQ : PriorityQueue EntityKey (option Entity)} (size_of_entry : Z)
    (k : EntityKey) (e u : Entity) :
  store_get_many (subgraph_id k) {[entity_type k := [key_entity_id k]]}
    = Ok {[entity_type k := [e]]} ->
  entity_id e = Ok (key_entity_id k) ->
  e !! "__typename" = Some (VString (entity_type k)) -> u !! "__typename" = None ->
  store_get k = Ok (Some e) ->
  (exists mods cur c r,
     as_modifications size_of_entry (mk_EntityCache new {[k := Some u]}) = Ok (mods, cur)
     /\ cache_get size_of_entry (with_current cur) k = (c, Ok (Some r))
     /\ r !! "__typename" = Some (VString (entity_type k)))
  /\ exists c r, cache_get size_of_entry cache_new k = (c, Ok (Some r))
     /\ r !! "__typename" = None.
Proof.
  intros Hmany Hid Htag Hu Hget. destruct k as [sg ty id]; simpl in *. set (k := mk_key sg ty id) in *.
  split.
  - assert (Hload : load_missing size_of_entry (mk_EntityCache new {[k := Some u]})
      = Ok (LfuCache.insert size_of_entry new k (Some e))).
    { unfold load_missing, missing_by_subgraph, missing, btree_list. simpl.
      rewrite map_to_list_singleton.
      replace (foldl push_missing ∅ _) with
        ({[sg := {[ty := [id]]}]} : gmap string (gmap string (list string))) by reflexivity.
      rewrite map_to_list_singleton. cbn. unfold load_subgraph. cbn [fst snd].
      rewrite Hmany. simpl. unfold btree_list. rewrite map_to_list_singleton. cbn.
      unfold insert_loaded. by rewrite Hid. }
    set (cur := LfuCache.insert size_of_entry new k (Some e)) in Hload.
    assert (Hv : values cur = {[k := Some e]}) by (unfold cur; by rewrite insert_values).
    assert (Hi : cache_inv cur).
    { unfold cur. apply insert_inv; [split; [done|apply map_Forall_empty]|].
      intros x Hx. simpl in Hx. by rewrite lookup_empty in Hx. }
    destruct (remove_values cur k Hi) as (cur1 & Hrem & Hi1 & Hv1 & _).
    set (data := merge_remove_null_fields e u).
    assert (Hdata : data !! "__typename" = Some (VString ty)).
    { unfold data. by rewrite merge_remove_null_lookup, Hu. }
    set (cur2 := LfuCache.insert size_of_entry cur1 k (Some data)).
    assert (Hv2 : values cur2 !! k = Some (Some data)).
    { unfold cur2. rewrite insert_values. apply lookup_insert_eq. }
    exists (if entity_eqb e data then [] else [Overwrite k data]), cur2.
    unfold as_modifications. rewrite Hload. simpl. unfold btree_list.
    rewrite map_to_list_singleton. simpl. unfold modify_step.
    rewrite Hrem, Hv, lookup_singleton_eq. simpl. fold data cur2.
    unfold cache_get, get_entity, with_current. simpl.
    destruct (get_values cur2 k) as [Hg _]. rewrite Hv2 in Hg. rewrite Hg, lookup_empty.
    do 2 eexists. split; [by destruct (entity_eqb e data)|]. split; [done|done].
  - do 2 eexists. split.
    + unfold cache_get, get_entity, cache_new. simpl. unfold get. rewrite get_mut_None by done.
      rewrite Hget. simpl. rewrite lookup_empty. reflexivity.
    + unfold untag. apply lookup_delete_eq.
Qed.

(** ** Concrete stores: any map whose entities carry their ids. *)
Module MapStore.
Definition has_id (k : EntityKey) (e : Entity) : bool :=
  match e !! "id" with Some (VString s) => String.eqb s (key_entity_id k) | _ => false end.
Definition well_formed (m : gmap EntityKey Entity) : Prop := map_Forall (fun k e => has_id k e = true) m.

Section map.
Variable m : gmap EntityKey Entity.
Hypothesis wf : well_formed m.

Definition tag (k : EntityKey) (e : Entity) : Entity := <["__typename" := VString (entity_type k)]> e.

Definition get_tagged (k : EntityKey) : option Entity := tag k <$> m !! k.

#[export] Instance store : Store := {|
  store_get k := Ok (get_tagged k);
  store_get_many sg ids :=
    Ok (map_imap (fun ty l => Some (omap (fun id => get_tagged (mk_key sg ty id)) (remove_dups l))) ids);
|}.

Lemma tag_same k e : same_entity (tag k e) e.
Proof. apply same_entity_lookup. intros f Hf. unfold tag. by rewrite lookup_insert_ne. Qed.

Lemma tag_id k e : m !! k = Some e -> entity_id (tag k e) = Ok (key_entity_id k).
Proof.
  intros Hk. specialize (wf k e Hk). unfold has_id in wf. unfold entity_id, tag.
  rewrite lookup_insert_ne by done. destruct (e !! "id") as [v|]; [|done]. destruct v; try done.
  by apply String.eqb_eq in wf as ->.
Qed.

Lemma store_laws : StoreLaws m.
Proof.
  split.
  - intros k. eexists. split; [reflexivity|]. unfold get_tagged.
    destruct (m !! k); constructor. apply tag_same.
  - intros sg ids. eexists. reflexivity.
  - intros sg ids r ty es [= <-]. rewrite map_lookup_imap.
    destruct (ids !! ty) as [l|]; [|done]. cbn. intros [= <-].
    assert (Hnd : NoDup (remove_dups l)) by apply NoDup_remove_dups.
    induction (remove_dups l) as [|id l' IH]; [constructor|]. apply NoDup_cons in Hnd as [Hid Hnd].
    rewrite omap_cons_eq. unfold get_tagged at 1. destruct (m !! mk_key sg ty id) as [e|] eqn:E; [|by apply IH].
    cbn. apply NoDup_cons. split; [|by apply IH]. rewrite (tag_id _ _ E). cbn.
    intros (e' & He' & Hin)%list_elem_of_fmap. apply list_elem_of_omap in Hin as (id' & Hid' & Hg).
    unfold get_tagged in Hg. destruct (m !! mk_key sg ty id') as [e2|] eqn:E2; [|done].
    injection Hg as <-. rewrite (tag_id _ _ E2) in He'. injection He' as ->. done.
  - intros sg ids r ty es e [= <-]. rewrite map_lookup_imap.
    destruct (ids !! ty) as [l|]; [|done]. cbn. intros [= <-] Hin.
    apply list_elem_of_omap in Hin as (id & Hid & Hg). rewrite elem_of_remove_dups in Hid.
    unfold get_tagged in Hg. destruct (m !! mk_key sg ty id) as [e2|] eqn:E2; [|done]. injection Hg as <-.
    exists id, l. rewrite (tag_id _ _ E2). split_and!; try done. rewrite E2. constructor. apply tag_same.
  - intros sg ids r ty l id e0 [= <-] Hl Hid Hk. rewrite map_lookup_imap, Hl. cbn.
    exists (omap (fun id => get_tagged (mk_key sg ty id)) (remove_dups l)), (tag (mk_key sg ty id) e0).
    split; [done|]. split; [|by apply (tag_id (mk_key sg ty id))].
    apply list_elem_of_omap. exists id. rewrite elem_of_remove_dups. split; [done|].
    unfold get_tagged. by rewrite Hk.
Qed.
End map.
End MapStore.

Module Witness.
#[local] Instance wk : CacheWeight EntityKey := fun k => Z.of_nat (String.length (key_entity_id k)).
#[local] Instance wv : CacheWeight (option Entity) :=
    fun e => match e with Some e => Z.of_nat (size e) | None => 0%Z end.
#[local] Existing Instance scan_queue.

Definition cat : EntityKey := mk_key "sub" "Pet" "cat".
Definition cat_entity : Entity := {["id" := VString "cat"; "age" := VInt 3]}.
Definition pets : gmap EntityKey Entity := {[cat := cat_entity]}.
#[local] Instance single : Store := MapStore.store pets.
#[local] Instance single_laws : StoreLaws pets :=
  MapStore.store_laws pets (proj2 (map_Forall_singleton _ _ _) eq_refl).

Definition ops : list EntityOperation :=
    [OpSet cat {["age" := VInt 4]}; OpRemove cat;
     OpSet cat {["id" := VString "cat"; "age" := VNull]}].

Lemma new_agrees : agrees new pets.
Proof.
    split; [split; [done|apply map_Forall_empty]|]. intros k v Hk. by vm_compute in Hk.
Qed.

Lemma new_headroom n : headroom (K := EntityKey) (V := option Entity) new n.
Proof. apply map_Forall_empty. Qed.

Lemma cache_refines_entity_map_witness :
    exists c1 c2 r, append 8 cache_new ops = (c1, Ok tt) /\ cache_get 8 c1 cat = (c2, Ok r)
      /\ visible r (foldl op_spec pets ops !! cat).
Proof.
    destruct (cache_refines_entity_map 8 pets cache_new pets ops cat 0)
      as (c1 & c2 & r & ? & ? & ? & _); [lia|vm_compute; done| |eauto 10].
    split; [apply new_agrees|split; [apply new_headroom|]]. intros k. simpl.
    rewrite lookup_empty. reflexivity.
Defined.

Lemma block_of_operations_refines_store_witness :
    exists c mods cur, append 8 (with_current new) ops = (c, Ok tt)
      /\ as_modifications 8 c = Ok (mods, cur) /\ agrees cur (apply_mods pets mods)
      /\ forall k, same (apply_mods pets mods !! k) (foldl op_spec pets ops !! k).
Proof.
    apply (block_of_operations_refines_store 8 pets new ops);
      [apply new_agrees|apply new_headroom|vm_compute; done].
Defined.

Lemma modifications_are_minimal_witness :
    exists mods cur, as_modifications 8 (mk_EntityCache new {[cat := Some {["age" := VInt 4]}]}) = Ok (mods, cur)
      /\ Forall (needed pets (tag_written (mk_EntityCache new {[cat := Some {["age" := VInt 4]}]}))) mods.
Proof.
    destruct (modifications_are_minimal 8 pets (mk_EntityCache new {[cat := Some {["age" := VInt 4]}]}))
      as (mods & cur & ? & _ & ? & _); [apply new_agrees|eauto].
Defined.

Lemma typename_leaks_through_get_many_witness :
    exists c r, cache_get 8 cache_new cat = (c, Ok (Some r)) /\ r !! "__typename" = None.
Proof.
    apply (typename_leaks_through_get_many 8 cat (MapStore.tag cat cat_entity)
      {["age" := VInt 4]}); vm_compute; reflexivity.
Defined.
End Witness.
