(* ===== verification/EthTypes.v ===== *)
(** * Ethereum data: blocks, calls, block pointers and triggers

    Models [graph/src/components/ethereum/types.rs].  Hashes and addresses are
    integers, as are the fixed-width numbers of the web3 crate; of the crate's
    records ([Block], [Transaction], [Log], [Trace]) the fields the program
    reads are kept, with their optionality.  [as_u64] on a 64-bit number is the
    identity.  A function that unwraps an absent field panics.  The lower-case
    hexadecimal rendering of a hash is the crate's and is an argument. *)

From stdpp Require Import prelude list strings gmap pretty sorting.
From Stdlib Require Import ZArith Lia.
From Stdlib Require Strings.Byte.
From S2P Require Import Prelude.
From S2P Require Import Sorting.
From S2P Require Import StoreValue.
From S2P Require Import EntityCache.

(** ** Data of the web3 crate *)
Abbreviation H256 := Z.
Abbreviation Address := Z.

Record Transaction := mk_tx {
  tx_hash : H256;
  tx_index : option Z;
  tx_from : Address;
  tx_to : option Address;
  tx_value : Z;
  tx_gas : Z;
  tx_gas_price : Z;
  tx_input : list Byte.byte;
}.

(** [Block<T>]: the transactions are hashes or full transactions. *)
Record Block (T : Type) := mk_block {
  b_hash : option H256;
  b_parent_hash : H256;
  b_uncles_hash : H256;
  b_author : Address;
  b_state_root : H256;
  b_transactions_root : H256;
  b_receipts_root : H256;
  b_number : option Z;
  b_gas_used : Z;
  b_gas_limit : Z;
  b_timestamp : Z;
  b_difficulty : Z;
  b_total_difficulty : option Z;
  b_size : option Z;
  b_transactions : list T;
}.
Arguments mk_block {T}.
Arguments b_hash {T}. Arguments b_parent_hash {T}. Arguments b_uncles_hash {T}.
Arguments b_author {T}. Arguments b_state_root {T}. Arguments b_transactions_root {T}.
Arguments b_receipts_root {T}. Arguments b_number {T}. Arguments b_gas_used {T}.
Arguments b_gas_limit {T}. Arguments b_timestamp {T}. Arguments b_difficulty {T}.
Arguments b_total_difficulty {T}. Arguments b_size {T}. Arguments b_transactions {T}.

Record Log := mk_log {
  l_address : Address;
  l_topics : list H256;
  l_data : list Byte.byte;
  l_block_hash : option H256;
  l_block_number : option Z;
  l_transaction_hash : option H256;
  l_transaction_index : option Z;
  l_log_index : option Z;
}.

Record Receipt := mk_receipt { r_transaction_hash : H256; r_logs : list Log }.

Record CallAction := mk_call_action {
  ca_from : Address; ca_to : Address; ca_value : Z; ca_input : list Byte.byte
}.
Record CallResult := mk_call_result { cr_gas_used : Z; cr_output : list Byte.byte }.

(** Of the actions and results of a trace only calls matter to the program. *)
Inductive Action := Action_Call (c : CallAction) | Action_Other.
Inductive TraceRes := Res_Call (r : CallResult) | Res_Other.

Record Trace := mk_trace {
  t_action : Action;
  t_result : option TraceRes;
  t_transaction_position : option Z;
  t_transaction_hash : option H256;
  t_block_number : Z;
  t_block_hash : H256;
  t_error : option string;
}.

(** ** Block pointers *)
Record EthereumBlockPointer := mk_ptr { ptr_hash : H256; ptr_number : Z }.

#[export] Instance ptr_eq_dec : EqDecision EthereumBlockPointer.
Proof. solve_decision. Defined.

(** ** Blocks *)
Abbreviation LightEthereumBlock := (Block Transaction).

Record EthereumBlock := mk_eth_block {
  eb_block : LightEthereumBlock;
  eb_transaction_receipts : list Receipt;
}.

Record EthereumCall := mk_call {
  call_from : Address;
  call_to : Address;
  call_value : Z;
  call_gas_used : Z;
  call_input : list Byte.byte;
  call_output : list Byte.byte;
  call_block_number : Z;
  call_block_hash : H256;
  call_transaction_hash : option H256;
  call_transaction_index : Z;
}.

#[export] Instance call_eq_dec : EqDecision EthereumCall.
Proof. solve_decision. Defined.

Record EthereumBlockWithCalls := mk_block_with_calls {
  bwc_ethereum_block : EthereumBlock;
  bwc_calls : list EthereumCall;
}.

Inductive BlockFinality :=
| Final (b : LightEthereumBlock)
| NonFinal (b : EthereumBlockWithCalls).

(** [LightEthereumBlockExt::number] *)
Definition light_number (b : LightEthereumBlock) : res Empty_set Z := unwrap (b_number b).

Definition transaction_for_log (b : LightEthereumBlock) (l : Log) : option Transaction :=
  hash ← l_transaction_hash l;
  snd <$> list_find (fun tx => tx_hash tx = hash) (b_transactions b).

Definition transaction_for_call (b : LightEthereumBlock) (c : EthereumCall) : option Transaction :=
  hash ← call_transaction_hash c;
  snd <$> list_find (fun tx => tx_hash tx = hash) (b_transactions b).

Definition parent_ptr (b : LightEthereumBlock) : res Empty_set (option EthereumBlockPointer) :=
  let? n := light_number b in
  Ok (if decide (n = 0)%Z then None else Some (mk_ptr (b_parent_hash b) (n - 1)%Z)).

Definition light_block (b : BlockFinality) : LightEthereumBlock :=
  match b with Final b => b | NonFinal b => eb_block (bwc_ethereum_block b) end.

Definition finality_number (b : BlockFinality) : res Empty_set Z :=
  match b with
  | Final b => light_number b
  | NonFinal b => light_number (eb_block (bwc_ethereum_block b))
  end.

(** [From<Block<T>>] and [From<EthereumBlock>] for pointers. *)
Definition ptr_of_block {T} (b : Block T) : res Empty_set EthereumBlockPointer :=
  let? h := unwrap (b_hash b) in
  let? n := unwrap (b_number b) in
  Ok (mk_ptr h n).

Definition ptr_of_ethereum_block (b : EthereumBlock) : res Empty_set EthereumBlockPointer :=
  let? h := unwrap (b_hash (eb_block b)) in
  let? n := unwrap (b_number (eb_block b)) in
  Ok (mk_ptr h n).

Definition ptr_of_u64 (h : H256) (number : Z) : res Empty_set EthereumBlockPointer :=
  if decide (Z.shiftl 1 63 <= number)%Z then Panic else Ok (mk_ptr h number).

(** [number as u64] reinterprets the 64 bits. *)
Definition ptr_of_i64 (h : H256) (number : Z) : res Empty_set EthereumBlockPointer :=
  if decide (number < 0)%Z then Panic else Ok (mk_ptr h (wrap64 number)).

Definition ptr_of_call (c : EthereumCall) : EthereumBlockPointer :=
  mk_ptr (call_block_hash c) (call_block_number c).

Definition ptr_of_finality (b : BlockFinality) : res Empty_set EthereumBlockPointer :=
  match b with
  | Final b => ptr_of_block b
  | NonFinal b => ptr_of_ethereum_block (bwc_ethereum_block b)
  end.

(** ** Rendering *)
Class HashHex := { hash_hex : H256 -> string }.

Definition ptr_hash_hex `{HashHex} (p : EthereumBlockPointer) : string := hash_hex (ptr_hash p).

Definition ptr_display `{HashHex} (p : EthereumBlockPointer) : string :=
  ("#" +:+ pretty (ptr_number p) +:+ " (" +:+ hash_hex (ptr_hash p) +:+ ")")%string.

Definition light_format `{HashHex} (b : LightEthereumBlock) : string :=
  (from_option (fun n => "#" +:+ pretty n) "none" (b_number b)
   +:+ " (" +:+ from_option hash_hex "-" (b_hash b) +:+ ")")%string.

Definition to_entity_key `{HashHex} (p : EthereumBlockPointer) (subgraph : string) : EntityKey :=
  mk_key subgraph "Block" (hash_hex (ptr_hash p)).

(** ** Data passed to handlers *)
Record EthereumBlockData := mk_block_data {
  bd_hash : H256;
  bd_parent_hash : H256;
  bd_uncles_hash : H256;
  bd_author : Address;
  bd_state_root : H256;
  bd_transactions_root : H256;
  bd_receipts_root : H256;
  bd_number : Z;
  bd_gas_used : Z;
  bd_gas_limit : Z;
  bd_timestamp : Z;
  bd_difficulty : Z;
  bd_total_difficulty : Z;
  bd_size : option Z;
}.

Definition block_data_of_block {T} (b : Block T) : res Empty_set EthereumBlockData :=
  let? h := unwrap (b_hash b) in
  let? n := unwrap (b_number b) in
  Ok {| bd_hash := h;
        bd_parent_hash := b_parent_hash b;
        bd_uncles_hash := b_uncles_hash b;
        bd_author := b_author b;
        bd_state_root := b_state_root b;
        bd_transactions_root := b_transactions_root b;
        bd_receipts_root := b_receipts_root b;
        bd_number := n;
        bd_gas_used := b_gas_used b;
        bd_gas_limit := b_gas_limit b;
        bd_timestamp := b_timestamp b;
        bd_difficulty := b_difficulty b;
        bd_total_difficulty := default 0%Z (b_total_difficulty b);
        bd_size := b_size b |}.

Record EthereumTransactionData := mk_transaction_data {
  td_hash : H256;
  td_index : Z;
  td_from : Address;
  td_to : option Address;
  td_value : Z;
  td_gas_used : Z;
  td_gas_price : Z;
  td_input : list Byte.byte;
}.

Definition transaction_data_of (tx : Transaction) : res Empty_set EthereumTransactionData :=
  let? i := unwrap (tx_index tx) in
  Ok {| td_hash := tx_hash tx;
        td_index := i;
        td_from := tx_from tx;
        td_to := tx_to tx;
        td_value := tx_value tx;
        td_gas_used := tx_gas tx;
        td_gas_price := tx_gas_price tx;
        td_input := tx_input tx |}.

(** ** Calls from traces *)
Definition try_from_trace (t : Trace) : option EthereumCall :=
  if decide (is_Some (t_error t)) then None else
  match t_action t with
  | Action_Call call =>
      if decide (4 <= length (ca_input call)) then
        match t_result t with
        | Some (Res_Call result) =>
            transaction_index ← t_transaction_position t;
            Some {| call_from := ca_from call;
                    call_to := ca_to call;
                    call_value := ca_value call;
                    call_gas_used := cr_gas_used result;
                    call_input := ca_input call;
                    call_output := cr_output result;
                    call_block_number := t_block_number t;
                    call_block_hash := t_block_hash t;
                    call_transaction_hash := t_transaction_hash t;
                    call_transaction_index := transaction_index |}
        | _ => None
        end
      else None
  | _ => None
  end.

(** ** Triggers *)
Inductive EthereumBlockTriggerType :=
| Every
| WithCallTo (a : Address).

#[export] Instance trigger_type_eq_dec : EqDecision EthereumBlockTriggerType.
Proof. solve_decision. Defined.

Inductive EthereumTrigger :=
| TBlock (p : EthereumBlockPointer) (k : EthereumBlockTriggerType)
| TCall (c : EthereumCall)
| TLog (l : Log).

Definition trigger_eqb (a b : EthereumTrigger) : bool :=
  match a, b with
  | TBlock ap ak, TBlock bp bk => bool_decide (ap = bp) && bool_decide (ak = bk)
  | TCall a, TCall b => bool_decide (a = b)
  | TLog a, TLog b =>
      bool_decide (l_transaction_hash a = l_transaction_hash b)
      && bool_decide (l_log_index a = l_log_index b)
  | _, _ => false
  end.

Definition trigger_block_number (t : EthereumTrigger) : res Empty_set Z :=
  match t with
  | TBlock p _ => Ok (ptr_number p)
  | TCall c => Ok (call_block_number c)
  | TLog l => unwrap (l_block_number l)
  end.

Definition trigger_block_hash (t : EthereumTrigger) : res Empty_set H256 :=
  match t with
  | TBlock p _ => Ok (ptr_hash p)
  | TCall c => Ok (call_block_hash c)
  | TLog l => unwrap (l_block_hash l)
  end.

(** [Ord] for [Option<T>]: [None] first. *)
Definition opt_cmp (a b : option Z) : comparison :=
  match a, b with
  | None, None => Eq
  | None, Some _ => Lt
  | Some _, None => Gt
  | Some x, Some y => Z.compare x y
  end.

Definition trigger_cmp (a b : EthereumTrigger) : res Empty_set comparison :=
  match a, b with
  | TBlock _ _, TBlock _ _ => Ok Eq
  | TBlock _ _, _ => Ok Gt
  | _, TBlock _ _ => Ok Lt
  | TCall a, TCall b => Ok (Z.compare (call_transaction_index a) (call_transaction_index b))
  | TLog a, TLog b => Ok (opt_cmp (l_log_index a) (l_log_index b))
  | TCall a, TLog b =>
      let? bi := unwrap (l_transaction_index b) in
      if decide (call_transaction_index a = bi) then Ok Gt
      else Ok (Z.compare (call_transaction_index a) bi)
  | TLog a, TCall b =>
      let? ai := unwrap (l_transaction_index a) in
      if decide (ai = call_transaction_index b) then Ok Lt
      else Ok (Z.compare ai (call_transaction_index b))
  end.

Record EthereumBlockWithTriggers := mk_block_with_triggers {
  bwt_ethereum_block : BlockFinality;
  bwt_triggers : list EthereumTrigger;
}.

Definition block_with_triggers_new (triggers : list EthereumTrigger) (b : BlockFinality)
  : res Empty_set EthereumBlockWithTriggers :=
  let? sorted := sort_by trigger_cmp triggers in
  Ok (mk_block_with_triggers b sorted).

(** ** The order of triggers *)
Definition is_block_trigger (t : EthereumTrigger) : bool :=
  match t with TBlock _ _ => true | _ => false end.

Definition trigger_tx (t : EthereumTrigger) : option Z :=
  match t with
  | TBlock _ _ => None
  | TCall c => Some (call_transaction_index c)
  | TLog l => l_transaction_index l
  end.

Definition is_call_of (tx : Z) (t : EthereumTrigger) : bool :=
  match t with TCall c => bool_decide (call_transaction_index c = tx) | _ => false end.

(** What a node reports of a block: every log names its transaction, and logs
    are numbered through the block in the order of the transactions. *)
Record consistent_triggers (ts : list EthereumTrigger) : Prop := {
  ct_index : forall l, TLog l ∈ ts -> is_Some (l_transaction_index l);
  ct_order : forall a b i j, TLog a ∈ ts -> TLog b ∈ ts ->
    l_transaction_index a = Some i -> l_transaction_index b = Some j ->
    opt_cmp (l_log_index a) (l_log_index b) <> Gt -> (i <= j)%Z;
}.

(** The order in which handlers are to run: by transaction, in a transaction
    the logs by their index and then the calls, and block handlers last. *)
Definition runs_before (a b : EthereumTrigger) : Prop :=
  match a, b with
  | _, TBlock _ _ => True
  | TBlock _ _, _ => False
  | _, _ =>
      exists i j, trigger_tx a = Some i /\ trigger_tx b = Some j
      /\ ((i < j)%Z \/ i = j /\
          match a, b with
          | TLog a, TLog b => opt_cmp (l_log_index a) (l_log_index b) <> Gt
          | TCall _, TLog _ => False
          | _, _ => True
          end)
  end.

(** [trigger_cmp] without its panics. *)
Definition pure_cmp (a b : EthereumTrigger) : comparison :=
  match trigger_cmp a b with Ok c => c | _ => Eq end.

Section order.
Open Scope Z_scope.

Lemma opt_cmp_opp a b : opt_cmp b a = CompOpp (opt_cmp a b).
Proof. destruct a, b; simpl; try done. apply Z.compare_antisym. Qed.

Lemma opt_cmp_trans a b c :
  opt_cmp a b <> Gt -> opt_cmp b c <> Gt -> opt_cmp a c <> Gt.
Proof. destruct a, b, c; simpl; try done. rewrite !Z.compare_gt_iff. lia. Qed.

Lemma opt_cmp_refl a : opt_cmp a a = Eq.
Proof. destruct a; simpl; [apply Z.compare_refl|done]. Qed.

Context (ts : list EthereumTrigger) (CT : consistent_triggers ts).

Lemma trigger_cmp_pure a b :
  a ∈ ts -> b ∈ ts -> trigger_cmp a b = Ok (pure_cmp a b).
Proof.
  intros Ha Hb. unfold pure_cmp.
  destruct a as [| |la], b as [| |lb]; cbn [trigger_cmp]; try done.
  - destruct (ct_index ts CT lb Hb) as [i ->]. simpl. by case_decide.
  - destruct (ct_index ts CT la Ha) as [i ->]. simpl. by case_decide.
Qed.

(** On consistent triggers the comparison of the code is the intended order. *)
Lemma pure_cmp_runs_before a b :
  a ∈ ts -> b ∈ ts -> pure_cmp a b <> Gt <-> runs_before a b.
Proof.
  intros Ha Hb. unfold pure_cmp, runs_before.
  destruct a as [|ca|la], b as [|cb|lb]; simpl; try (split; done).
  - rewrite Z.compare_gt_iff. split.
    + intros H. eexists _, _. split; [done|]. split; [done|]. lia.
    + intros (i & j & [= <-] & [= <-] & H). lia.
  - destruct (ct_index ts CT lb Hb) as [j Hj]. rewrite Hj. simpl. case_decide; split.
    + done.
    + intros (? & ? & [= <-] & [= <-] & H'). lia.
    + rewrite Z.compare_gt_iff. intros H'. eexists _, _. split; [done|]. split; [done|]. lia.
    + rewrite Z.compare_gt_iff. intros (? & ? & [= <-] & [= <-] & H'). lia.
  - destruct (ct_index ts CT la Ha) as [i Hi]. rewrite Hi. simpl. case_decide; split.
    + intros _. eexists _, _. split; [done|]. split; [done|]. by right.
    + done.
    + rewrite Z.compare_gt_iff. intros H'. eexists _, _. split; [done|]. split; [done|]. lia.
    + rewrite Z.compare_gt_iff. intros (? & ? & [= <-] & [= <-] & H'). lia.
  - destruct (ct_index ts CT la Ha) as [i Hi], (ct_index ts CT lb Hb) as [j Hj].
    rewrite Hi, Hj. split.
    + intros H. eexists _, _. split; [done|]. split; [done|].
      pose proof (ct_order ts CT la lb i j Ha Hb Hi Hj H) as L.
      destruct (decide (i = j)); [by right|left; lia].
    + intros (? & ? & [= <-] & [= <-] & [L|[_ L]]); [|done]. intros G.
      assert (O : opt_cmp (l_log_index lb) (l_log_index la) <> Gt)
        by (by rewrite opt_cmp_opp, G).
      pose proof (ct_order ts CT lb la j i Hb Ha Hj Hi O). lia.
Qed.

Lemma pure_cmp_opp a b : a ∈ ts -> b ∈ ts -> pure_cmp b a = CompOpp (pure_cmp a b).
Proof.
  intros Ha Hb. unfold pure_cmp.
  destruct a as [|ca|la], b as [|cb|lb]; simpl; try done.
  - apply Z.compare_antisym.
  - destruct (ct_index ts CT lb Hb) as [j ->]. simpl.
    repeat case_decide; try done; try congruence. apply Z.compare_antisym.
  - destruct (ct_index ts CT la Ha) as [j ->]. simpl.
    repeat case_decide; try done; try congruence. apply Z.compare_antisym.
  - apply opt_cmp_opp.
Qed.

Lemma runs_before_trans a b c : runs_before a b -> runs_before b c -> runs_before a c.
Proof.
  unfold runs_before. destruct a, b, c; try done;
    intros (i & j & Ei & Ej & H1) (j' & k & Ej' & Ek & H2);
    rewrite Ej in Ej'; injection Ej' as <-; exists i, k; (split; [done|]); (split; [done|]);
    destruct H1 as [?|[-> H1]], H2 as [?|[-> H2]]; try (left; lia);
    (right; split; [done|]); try done.
  by eapply opt_cmp_trans.
Qed.

Lemma pure_cmp_preorder : total_preorder_on pure_cmp (fun t => t ∈ ts).
Proof.
  split; [intros; by apply pure_cmp_opp|].
  unfold cle. intros a b c Ha Hb Hc. rewrite !pure_cmp_runs_before by done.
  apply runs_before_trans.
Qed.

Lemma sorted_runs_before r :
  ts ≡ₚ r -> StronglySorted (cle pure_cmp) r -> StronglySorted runs_before r.
Proof.
  intros P S.
  assert (Hin : Forall (fun t => t ∈ ts) r) by (apply Forall_forall; intros; by rewrite P).
  revert Hin. clear P. induction S as [|x l S IH F]; [constructor|].
  intros Hin. apply Forall_cons in Hin as [Hx Hl]. constructor; [auto|].
  rewrite Forall_forall in F, Hl |- *. intros y Hy.
  apply pure_cmp_runs_before; auto. by apply F.
Qed.

Lemma class_block p k t : t ∈ ts -> same_class pure_cmp (TBlock p k) t = is_block_trigger t.
Proof. intros _. by destruct t. Qed.

Lemma class_call c t :
  t ∈ ts -> same_class pure_cmp (TCall c) t = is_call_of (call_transaction_index c) t.
Proof.
  intros Ht. unfold same_class, pure_cmp. destruct t as [|d|l]; simpl; [done| |].
  - destruct (Z.compare_spec (call_transaction_index c) (call_transaction_index d));
      [by rewrite bool_decide_true|by rewrite bool_decide_false by lia..].
  - destruct (ct_index ts CT l Ht) as [j ->]. simpl. case_decide; [done|].
    by destruct (Z.compare_spec (call_transaction_index c) j).
Qed.

(** A class keeps its order under the sort, also when it is empty. *)
Lemma filter_class_eq (f : EthereumTrigger -> bool) r :
  stable_sorted pure_cmp ts r ->
  (forall t, t ∈ ts -> f t = true -> forall u, u ∈ ts -> same_class pure_cmp t u = f u) ->
  filter f r = filter f ts.
Proof.
  intros (P & _ & S) Hf.
  destruct (filter f ts) as [|t fs] eqn:E.
  - apply filter_none. intros t Ht Hft. rewrite <- P in Ht.
    by apply (filter_nil_not_elem_of _ _ t E).
  - assert (Ht : t ∈ filter f ts) by (rewrite E; left).
    apply list_elem_of_filter in Ht as [Hft Ht]. apply Is_true_true in Hft.
    rewrite <- E. specialize (S t Ht).
    rewrite (filter_ext_in f (fun u => same_class pure_cmp t u) r),
      (filter_ext_in f (fun u => same_class pure_cmp t u) ts); [done| |];
      intros u Hu; [|rewrite <- P in Hu]; by rewrite (Hf t Ht Hft u).
Qed.
End order.

(** ** Properties *)

(** The triggers of a block are sorted without a panic into the order the
    handlers are to run in: a permutation of the triggers, by transaction,
    logs (by log index) before the calls of the same transaction, block
    triggers last; block triggers, and the calls of one transaction, keep
    their order; and every other stable sort by the program's comparison gives
    the same list. *)
Lemma block_triggers_in_handler_order (ts : list EthereumTrigger) (b : BlockFinality) :
  consistent_triggers ts ->
  exists r, block_with_triggers_new ts b = Ok (mk_block_with_triggers b r)
  /\ r ≡ₚ ts
  /\ StronglySorted runs_before r
  /\ filter is_block_trigger r = filter is_block_trigger ts
  /\ (forall tx, filter (is_call_of tx) r = filter (is_call_of tx) ts)
  /\ forall r', stable_sorted pure_cmp ts r' -> r' = r.
Proof.
  intros CT. pose proof (pure_cmp_preorder ts CT) as TP.
  assert (Hts : Forall (fun t => t ∈ ts) ts) by by apply Forall_forall.
  pose proof (sort_pure_stable_sorted pure_cmp _ TP ts Hts) as S.
  exists (sort_pure pure_cmp ts). unfold block_with_triggers_new.
  rewrite (sort_by_ok pure_cmp) by (intros; by apply (trigger_cmp_pure ts CT)).
  split; [done|]. split; [apply sort_pure_perm|]. split.
  - destruct S as (P & S & _). by apply (sorted_runs_before ts CT).
  - split; [|split].
    + apply (filter_class_eq ts); [done|]. intros [p k| |] _ Hb u Hu; try done.
      by apply (class_block ts).
    + intros tx. apply (filter_class_eq ts); [done|]. intros [|c|] _ Hb u Hu; try done.
      simpl in Hb. apply bool_decide_eq_true in Hb as <-. by apply (class_call ts CT).
    + intros r' S'. by apply (stable_sorted_unique pure_cmp _ TP ts).
Qed.

(** A call trigger is made from a trace exactly when the trace has no
    error, is a CALL with at least the four bytes of a function selector, has
    a call result and belongs to a transaction; and its fields are those of
    the trace. *)
Lemma try_from_trace_spec (t : Trace) (c : EthereumCall) :
  try_from_trace t = Some c <->
  exists call result,
    t_error t = None /\ t_action t = Action_Call call
    /\ t_result t = Some (Res_Call result)
    /\ (4 <= length (call_input c)) /\ call_input c = ca_input call
    /\ t_transaction_position t = Some (call_transaction_index c)
    /\ call_from c = ca_from call /\ call_to c = ca_to call /\ call_value c = ca_value call
    /\ call_gas_used c = cr_gas_used result /\ call_output c = cr_output result
    /\ call_transaction_hash c = t_transaction_hash t
    /\ ptr_of_call c = mk_ptr (t_block_hash t) (t_block_number t).
Proof.
  unfold try_from_trace, ptr_of_call. split.
  - destruct (t_error t) eqn:E; [by rewrite decide_True|].
    rewrite decide_False by by intros [].
    destruct (t_action t) as [call|]; [|done]. case_decide; [|done].
    destruct (t_result t) as [[result|]|]; try done.
    destruct (t_transaction_position t); simpl; [|done]. intros [= <-].
    by exists call, result.
  - intros (call & result & -> & -> & -> & L & I & P & F & To & V & G & O & H & B).
    rewrite decide_False by by intros []. rewrite I in L. rewrite decide_True by done.
    rewrite P. simpl. f_equal. destruct c; simpl in *. by simplify_eq.
Qed.

(** A block pointer made from a database number ([i64]) is the one made
    from the same 64 bits read as [u64]: both panic from [2^63] on, and a
    pointer that is made has a number below [2^63]. *)
Lemma block_pointer_numbers (h : H256) (n : Z) :
  is_u64 n ->
  ptr_of_u64 h n = ptr_of_i64 h (wrap_i 64 n)
  /\ (ptr_of_u64 h n = Panic <-> (2 ^ 63 <= n)%Z)
  /\ (forall p, ptr_of_u64 h n = Ok p -> ptr_number p = n /\ (ptr_number p < 2 ^ 63)%Z).
Proof.
  unfold is_u64, ptr_of_u64, ptr_of_i64. rewrite Z.shiftl_mul_pow2 by lia. intros Hn.
  assert (W : (n < 2 ^ 63 -> wrap_i 64 n = n)%Z).
  { intros L. unfold wrap_i. rewrite Z.mod_small; lia. }
  assert (W' : (2 ^ 63 <= n -> wrap_i 64 n = n - 2 ^ 64)%Z).
  { intros L. unfold wrap_i.
    rewrite (Z.mod_eq _ (2 ^ 64)) by done.
    replace ((n + 2 ^ (64 - 1)) / 2 ^ 64)%Z with 1%Z; [lia|].
    apply (Z.div_unique _ _ _ (n + 2 ^ (64 - 1) - 2 ^ 64)); lia. }
  case_decide as L.
  - rewrite W', decide_True by lia. split; [done|]. split; [|done]. split; [lia|done].
  - rewrite W, decide_False, wrap64_small by (done || lia).
    split; [done|]. split; [split; [done|lia]|]. intros p [= <-]. simpl. lia.
Qed.

(** ** Witnesses *)
Module Witness.
Definition log (tx i : Z) : Log := mk_log 1 [7%Z] [] (Some 9%Z) (Some 5%Z) (Some tx) (Some tx) (Some i).
Definition call (tx to : Z) : EthereumCall :=
  mk_call 2 to 0 0 [] [] 5 9 (Some tx) tx.
Definition triggers : list EthereumTrigger :=
  [TBlock (mk_ptr 9 5) Every; TCall (call 0 3); TLog (log 1 4); TCall (call 0 2); TLog (log 0 2);
   TBlock (mk_ptr 9 5) (WithCallTo 3); TLog (log 0 1)].
Definition block : BlockFinality :=
  Final (mk_block (Some 9%Z) 8 0 0 0 0 0 (Some 5%Z) 0 0 0 0 None None []).

Lemma triggers_consistent : consistent_triggers triggers.
Proof.
  assert (L : forall l, TLog l ∈ triggers -> l = log 1 4 \/ l = log 0 2 \/ l = log 0 1).
  { intros l. unfold triggers. rewrite !elem_of_cons, elem_of_nil. naive_solver. }
  split.
  - intros l [->|[->| ->]]%L; by eexists.
  - intros a b i j [->|[->| ->]]%L [->|[->| ->]]%L [= <-] [= <-]; vm_compute; done.
Qed.

Lemma block_triggers_in_handler_order_witness :
  block_with_triggers_new triggers block
  = Ok (mk_block_with_triggers block
      [TLog (log 0 1); TLog (log 0 2); TCall (call 0 3); TCall (call 0 2); TLog (log 1 4);
       TBlock (mk_ptr 9 5) Every; TBlock (mk_ptr 9 5) (WithCallTo 3)])
  /\ exists r, block_with_triggers_new triggers block = Ok (mk_block_with_triggers block r)
     /\ StronglySorted runs_before r.
Proof.
  split; [vm_compute; reflexivity|].
  destruct (block_triggers_in_handler_order triggers block triggers_consistent)
    as (r & E & _ & S & _).
  exists r. split; [exact E|exact S].
Defined.

Lemma block_pointer_numbers_witness :
  ptr_of_u64 1 (2 ^ 63) = Panic /\ ptr_of_u64 1 7 = Ok (mk_ptr 1 7).
Proof.
  assert (H1 : is_u64 (2 ^ 63)) by (unfold is_u64; lia).
  split; [apply (block_pointer_numbers 1 (2 ^ 63) H1); lia|].
  assert (H2 : is_u64 7) by (unfold is_u64; lia).
  rewrite (proj1 (block_pointer_numbers 1 7 H2)). reflexivity.
Defined.

(** Without consistent log indexes the comparison has a cycle. *)
Lemma trigger_cmp_cycle :
  trigger_cmp (TLog (log 2 1)) (TLog (log 0 2)) = Ok Lt
  /\ trigger_cmp (TLog (log 0 2)) (TCall (call 1 3)) = Ok Lt
  /\ trigger_cmp (TCall (call 1 3)) (TLog (log 2 1)) = Ok Lt.
Proof. by vm_compute. Qed.
End Witness.
