(* ===== verification/Manifest.v ===== *)
(** * Subgraph manifests and data sources

    Models the manifest part of [graph/src/data/subgraph/mod.rs], the entities
    data sources are stored as ([graph/src/data/subgraph/schema.rs], the
    structs and the conversions between them and the manifest's types) and
    [graph/src/util/ethereum.rs:string_to_h256].

    The class [ManifestEnv] holds what these functions call: the link resolver
    (files by link), the parsers of contracts, schemas, versions, addresses and
    wasm modules, Keccak hashing, and the schema component, whose validation is
    modelled as an interface.  Futures that run concurrently are resolved in
    program order; when several fail, the one reported first in time is not
    determined by the program, the model reports the first in program order. *)

From stdpp Require Import prelude list strings gmap pretty.
From Stdlib Require Import ZArith Lia.
From Stdlib Require Strings.Byte.
From S2P Require Import Prelude.
From S2P Require Import Sorting.
From S2P Require Import StoreValue.
From S2P Require Import EthTypes.

#[local] Open Scope string_scope.
#[local] Open Scope list_scope.

(** ** Strings *)

(** [str::replace(pat, "")], [pat] not empty: [skip] counts the characters of
    a match that are still to be dropped. *)
Fixpoint remove_from (pat : string) (skip : nat) (s : string) : string :=
  match s with
  | EmptyString => EmptyString
  | String c s' =>
      match skip with
      | S k => remove_from pat k s'
      | O => if String.prefix pat s then remove_from pat (String.length pat - 1) s'
             else String c (remove_from pat 0 s')
      end
  end.

Definition str_remove (pat s : string) : string := remove_from pat 0 s.

(** [str::trim_start_matches]: drop the prefix as often as it occurs; every
    round shortens the string, so its length is enough fuel. *)
Fixpoint trim_start_fuel (n : nat) (pat s : string) : string :=
  match n with
  | O => s
  | S n =>
      if String.prefix pat s
      then trim_start_fuel n pat (String.substring (String.length pat) (String.length s) s)
      else s
  end.

Definition trim_start_matches (pat s : string) : string :=
  trim_start_fuel (String.length s) pat s.

(** The number with the given big-endian bytes. *)
Definition be_bytes (l : list Byte.byte) : Z :=
  foldl (fun acc b => acc * 256 + Z.of_N (Byte.to_N b))%Z 0%Z l.

(** ** What the manifest code calls *)
Record NodeCapabilities := mk_caps { cap_archive : bool; cap_traces : bool }.

#[export] Instance NodeCapabilities_eq_dec : EqDecision NodeCapabilities.
Proof. solve_decision. Defined.

(** The payloads of a wasm module: an import section is a list of imports, an
    import may have a field name, and both may fail to parse ([None]). *)
Inductive WasmPayload :=
| ImportSection (imports : list (option (option string)))
| OtherPayload.

Class ManifestEnv := {
  Contract : Type;
  Schema : Type;
  SchemaSet : Type;
  SchemaImportError : Type;
  SchemaValidationError : Type;
  Failure : Type;
  Version : Type;
  cat : string -> res Failure (list Byte.byte);
  string_from_utf8 : list Byte.byte -> res Failure string;
  contract_load : list Byte.byte -> res Failure Contract;
  schema_parse : string -> string -> res Failure Schema;
  version_parse : string -> option Version;
  version_new : Z -> Z -> Z -> Version;
  version_leb : Version -> Version -> bool;
  unsupported_spec_version : string -> string -> Failure;
  address_from_str : string -> option Address;
  wasm_payloads : list Byte.byte -> list (option WasmPayload);
  keccak256 : list Byte.byte -> list Byte.byte;
  resolve_schema_references : Schema -> SchemaSet * list SchemaImportError;
  schema_validate : Schema -> SchemaSet -> res (list SchemaValidationError) unit;
}.

(** ** Data sources *)
Record Link := mk_link { link_str : string }.

Record Source := mk_source {
  src_address : option Address;
  src_abi : string;
  src_start_block : Z;
}.

Record TemplateSource := mk_template_source { tsrc_abi : string }.

Inductive BlockHandlerFilter := FilterCall.

#[export] Instance BlockHandlerFilter_eq_dec : EqDecision BlockHandlerFilter.
Proof. solve_decision. Defined.

Record MappingBlockHandler := mk_block_handler {
  bh_handler : string;
  bh_filter : option BlockHandlerFilter;
}.

Record MappingCallHandler := mk_call_handler {
  ch_function : string;
  ch_handler : string;
}.

Record MappingEventHandler := mk_event_handler {
  eh_event : string;
  eh_topic0 : option H256;
  eh_handler : string;
}.

Record UnresolvedMappingABI := mk_uabi { uabi_name : string; uabi_file : Link }.

Record UnresolvedMapping := mk_umapping {
  um_kind : string;
  um_api_version : string;
  um_language : string;
  um_entities : list string;
  um_abis : list UnresolvedMappingABI;
  um_block_handlers : list MappingBlockHandler;
  um_call_handlers : list MappingCallHandler;
  um_event_handlers : list MappingEventHandler;
  um_file : Link;
}.

Record BaseDataSource (M T : Type) := mk_data_source {
  ds_kind : string;
  ds_network : option string;
  ds_name : string;
  ds_source : Source;
  ds_mapping : M;
  ds_context : option Entity;
  ds_templates : list T;
}.
Arguments mk_data_source {M T}.
Arguments ds_kind {M T}. Arguments ds_network {M T}. Arguments ds_name {M T}.
Arguments ds_source {M T}. Arguments ds_mapping {M T}. Arguments ds_context {M T}.
Arguments ds_templates {M T}.

Record BaseDataSourceTemplate (M : Type) := mk_template {
  dt_kind : string;
  dt_network : option string;
  dt_name : string;
  dt_source : TemplateSource;
  dt_mapping : M;
}.
Arguments mk_template {M}.
Arguments dt_kind {M}. Arguments dt_network {M}. Arguments dt_name {M}.
Arguments dt_source {M}. Arguments dt_mapping {M}.

Abbreviation UnresolvedDataSourceTemplate := (BaseDataSourceTemplate UnresolvedMapping).
Abbreviation UnresolvedDataSource := (BaseDataSource UnresolvedMapping UnresolvedDataSourceTemplate).

Record Graft := mk_graft { graft_base : string; graft_block : Z }.

Record BaseSubgraphManifest (S D T : Type) := mk_manifest {
  sm_id : string;
  sm_location : string;
  sm_spec_version : string;
  sm_description : option string;
  sm_repository : option string;
  sm_schema : S;
  sm_data_sources : list D;
  sm_graft : option Graft;
  sm_templates : list T;
}.
Arguments mk_manifest {S D T}.
Arguments sm_id {S D T}. Arguments sm_location {S D T}. Arguments sm_spec_version {S D T}.
Arguments sm_description {S D T}. Arguments sm_repository {S D T}. Arguments sm_schema {S D T}.
Arguments sm_data_sources {S D T}. Arguments sm_graft {S D T}. Arguments sm_templates {S D T}.

(** Two manifests are equal when they come from the same link. *)
Definition manifest_eqb {S D T} (a b : BaseSubgraphManifest S D T) : bool :=
  String.eqb (sm_location a) (sm_location b).

(** ** The stored form of data sources *)
Record EthereumContractSourceEntity := mk_source_entity {
  se_address : option Address;
  se_abi : string;
  se_start_block : Z;
}.
Record EthereumContractDataSourceTemplateSourceEntity := mk_tsource_entity { tse_abi : string }.
Record EthereumContractAbiEntity := mk_abi_entity { abe_name : string; abe_file : string }.
Record EthereumBlockHandlerFilterEntity := mk_filter_entity { fe_kind : option string }.
Record EthereumBlockHandlerEntity := mk_bh_entity {
  bhe_handler : string;
  bhe_filter : option EthereumBlockHandlerFilterEntity;
}.
Record EthereumCallHandlerEntity := mk_ch_entity { che_function : string; che_handler : string }.
Record EthereumContractEventHandlerEntity := mk_eh_entity {
  ehe_event : string;
  ehe_topic0 : option H256;
  ehe_handler : string;
}.
Record EthereumContractMappingEntity := mk_mapping_entity {
  me_kind : string;
  me_api_version : string;
  me_language : string;
  me_file : string;
  me_entities : list string;
  me_abis : list EthereumContractAbiEntity;
  me_block_handlers : list EthereumBlockHandlerEntity;
  me_call_handlers : list EthereumCallHandlerEntity;
  me_event_handlers : list EthereumContractEventHandlerEntity;
}.
Record EthereumContractDataSourceTemplateEntity := mk_template_entity {
  te_kind : string;
  te_network : option string;
  te_name : string;
  te_source : EthereumContractDataSourceTemplateSourceEntity;
  te_mapping : EthereumContractMappingEntity;
}.
Record DynamicEthereumContractDataSourceEntity := mk_dynamic_entity {
  de_kind : string;
  de_deployment : string;
  de_ethereum_block_hash : H256;
  de_ethereum_block_number : Z;
  de_network : option string;
  de_name : string;
  de_source : EthereumContractSourceEntity;
  de_mapping : EthereumContractMappingEntity;
  de_templates : list EthereumContractDataSourceTemplateEntity;
  de_context : option Entity;
}.

(** *** From the stored form to the manifest's types *)
Definition source_of_entity (e : EthereumContractSourceEntity) : Source :=
  mk_source (se_address e) (se_abi e) (se_start_block e).

Definition template_source_of_entity (e : EthereumContractDataSourceTemplateSourceEntity)
  : TemplateSource := mk_template_source (tse_abi e).

Definition abi_of_entity (e : EthereumContractAbiEntity) : UnresolvedMappingABI :=
  mk_uabi (abe_name e) (mk_link (abe_file e)).

Definition block_handler_of_entity (e : EthereumBlockHandlerEntity) : MappingBlockHandler :=
  mk_block_handler (bhe_handler e) None.

Definition call_handler_of_entity (e : EthereumCallHandlerEntity) : MappingCallHandler :=
  mk_call_handler (che_function e) (che_handler e).

Definition event_handler_of_entity (e : EthereumContractEventHandlerEntity)
  : MappingEventHandler :=
  mk_event_handler (ehe_event e) (ehe_topic0 e) (ehe_handler e).

Definition mapping_of_entity (e : EthereumContractMappingEntity) : UnresolvedMapping :=
  {| um_kind := me_kind e;
     um_api_version := me_api_version e;
     um_language := me_language e;
     um_entities := me_entities e;
     um_abis := abi_of_entity <$> me_abis e;
     um_event_handlers := event_handler_of_entity <$> me_event_handlers e;
     um_call_handlers := call_handler_of_entity <$> me_call_handlers e;
     um_block_handlers := block_handler_of_entity <$> me_block_handlers e;
     um_file := mk_link (me_file e) |}.

Definition template_of_entity (e : EthereumContractDataSourceTemplateEntity)
  : UnresolvedDataSourceTemplate :=
  {| dt_kind := te_kind e;
     dt_network := te_network e;
     dt_name := te_name e;
     dt_source := template_source_of_entity (te_source e);
     dt_mapping := mapping_of_entity (te_mapping e) |}.

(** *** From the manifest's types to the stored form *)
Definition entity_of_source (s : Source) : EthereumContractSourceEntity :=
  mk_source_entity (src_address s) (src_abi s) (src_start_block s).

Definition entity_of_template_source (s : TemplateSource)
  : EthereumContractDataSourceTemplateSourceEntity := mk_tsource_entity (tsrc_abi s).

Definition entity_of_block_handler (h : MappingBlockHandler) : EthereumBlockHandlerEntity :=
  mk_bh_entity (bh_handler h)
    (match bh_filter h with
     | Some FilterCall => Some (mk_filter_entity (Some "call"))
     | None => None
     end).

Definition entity_of_call_handler (h : MappingCallHandler) : EthereumCallHandlerEntity :=
  mk_ch_entity (ch_function h) (ch_handler h).

Definition entity_of_event_handler (h : MappingEventHandler)
  : EthereumContractEventHandlerEntity :=
  mk_eh_entity (eh_event h) (eh_topic0 h) (eh_handler h).

Section manifest.
Context `{ME : ManifestEnv}.

Record MappingABI := mk_abi { abi_name : string; abi_contract : Contract; abi_link : Link }.

Record Mapping := mk_mapping {
  m_kind : string;
  m_api_version : string;
  m_language : string;
  m_entities : list string;
  m_abis : list MappingABI;
  m_block_handlers : list MappingBlockHandler;
  m_call_handlers : list MappingCallHandler;
  m_event_handlers : list MappingEventHandler;
  m_runtime : list Byte.byte;
  m_link : Link;
}.

Definition DataSourceTemplate : Type := BaseDataSourceTemplate Mapping.
Definition DataSource : Type := BaseDataSource Mapping DataSourceTemplate.
Definition UnresolvedSubgraphManifest : Type :=
  BaseSubgraphManifest Link UnresolvedDataSource UnresolvedDataSourceTemplate.
Definition SubgraphManifest : Type := BaseSubgraphManifest Schema DataSource DataSourceTemplate.

(** *** The stored form of resolved data sources *)
Definition entity_of_abi (a : MappingABI) : EthereumContractAbiEntity :=
  mk_abi_entity (abi_name a) (link_str (abi_link a)).

Definition entity_of_mapping (m : Mapping) : EthereumContractMappingEntity :=
  {| me_kind := m_kind m;
     me_api_version := m_api_version m;
     me_language := m_language m;
     me_file := link_str (m_link m);
     me_entities := m_entities m;
     me_abis := entity_of_abi <$> m_abis m;
     me_block_handlers := entity_of_block_handler <$> m_block_handlers m;
     me_call_handlers := entity_of_call_handler <$> m_call_handlers m;
     me_event_handlers := entity_of_event_handler <$> m_event_handlers m |}.

Definition entity_of_template (t : DataSourceTemplate) : EthereumContractDataSourceTemplateEntity :=
  {| te_kind := dt_kind t;
     te_name := dt_name t;
     te_network := dt_network t;
     te_source := entity_of_template_source (dt_source t);
     te_mapping := entity_of_mapping (dt_mapping t) |}.

Definition dynamic_entity_of (deployment : string) (d : DataSource) (p : EthereumBlockPointer)
  : DynamicEthereumContractDataSourceEntity :=
  {| de_kind := ds_kind d;
     de_deployment := deployment;
     de_ethereum_block_hash := ptr_hash p;
     de_ethereum_block_number := ptr_number p;
     de_name := ds_name d;
     de_network := ds_network d;
     de_source := entity_of_source (ds_source d);
     de_mapping := entity_of_mapping (ds_mapping d);
     de_templates := entity_of_template <$> ds_templates d;
     de_context := ds_context d |}.

(** The conversion at the end of [UnresolvedDataSource::try_from_value], after
    the fields have been read from the value. *)
Definition unresolved_of_dynamic (e : DynamicEthereumContractDataSourceEntity)
  : UnresolvedDataSource :=
  {| ds_kind := de_kind e;
     ds_name := de_name e;
     ds_network := de_network e;
     ds_source := source_of_entity (de_source e);
     ds_mapping := mapping_of_entity (de_mapping e);
     ds_templates := template_of_entity <$> de_templates e;
     ds_context := de_context e |}.

(** *** Handlers *)
Definition string_bytes (s : string) : list Byte.byte := String.list_byte_of_string s.

Definition string_to_h256 (s : string) : H256 :=
  be_bytes (keccak256 (string_bytes (str_remove " " s))).

Definition topic0 (h : MappingEventHandler) : H256 :=
  default (string_to_h256 (str_remove "indexed " (eh_event h))) (eh_topic0 h).

(** The first four bytes of the hash of a function's signature. *)
Definition function_selector (h : MappingCallHandler) : list Byte.byte :=
  take 4 (keccak256 (string_bytes (ch_function h))).

(** *** Mappings *)
Definition import_named (host_fn : string) (i : option (option string)) : res Empty_set bool :=
  let? import := unwrap i in
  Ok (bool_decide (import = Some host_fn)).

Definition payload_imports (host_fn : string) (p : option WasmPayload) : res Empty_set bool :=
  let? payload := unwrap p in
  match payload with
  | ImportSection s => any_res (import_named host_fn) s
  | OtherPayload => Ok false
  end.

Definition calls_host_fn (m : Mapping) (host_fn : string) : res Empty_set bool :=
  any_res (payload_imports host_fn) (wasm_payloads (m_runtime m)).

Definition has_call_handler (m : Mapping) : bool :=
  negb (bool_decide (length (m_call_handlers m) = 0)).

Definition has_block_handler_with_call_filter (m : Mapping) : bool :=
  existsb (fun h => match bh_filter h with Some FilterCall => true | _ => false end)
    (m_block_handlers m).

Definition required_capabilities (m : Mapping) : res Empty_set NodeCapabilities :=
  let traces := has_block_handler_with_call_filter m || has_call_handler m in
  let? archive := calls_host_fn m "ethereum.call" in
  Ok (mk_caps archive traces).

(** *** Resolving links *)
Definition resolve_abi (u : UnresolvedMappingABI) : res Failure MappingABI :=
  let? contract_bytes := cat (link_str (uabi_file u)) in
  let? contract := contract_load contract_bytes in
  Ok (mk_abi (uabi_name u) contract (uabi_file u)).

Definition resolve_mapping (u : UnresolvedMapping) : res Failure Mapping :=
  let? abis := map_res resolve_abi (um_abis u) in
  let? runtime := cat (link_str (um_file u)) in
  Ok {| m_kind := um_kind u;
        m_api_version := um_api_version u;
        m_language := um_language u;
        m_entities := um_entities u;
        m_abis := abis;
        m_block_handlers := um_block_handlers u;
        m_call_handlers := um_call_handlers u;
        m_event_handlers := um_event_handlers u;
        m_runtime := runtime;
        m_link := um_file u |}.

Definition resolve_template (u : UnresolvedDataSourceTemplate) : res Failure DataSourceTemplate :=
  let? mapping := resolve_mapping (dt_mapping u) in
  Ok (mk_template (dt_kind u) (dt_network u) (dt_name u) (dt_source u) mapping).

Definition resolve_data_source (u : UnresolvedDataSource) : res Failure DataSource :=
  let? mapping := resolve_mapping (ds_mapping u) in
  let? templates := map_res resolve_template (ds_templates u) in
  Ok (mk_data_source (ds_kind u) (ds_network u) (ds_name u) (ds_source u) mapping
        (ds_context u) templates).

Definition resolve_schema (file : Link) (id : string) : res Failure Schema :=
  let? schema_bytes := cat (link_str file) in
  let? text := string_from_utf8 schema_bytes in
  schema_parse text id.

Definition resolve_manifest (u : UnresolvedSubgraphManifest) : res Failure SubgraphManifest :=
  let supported :=
    match version_parse (sm_spec_version u) with
    | Some ver => version_leb ver (version_new 0 0 3)
    | None => false
    end in
  if negb supported then Err (unsupported_spec_version (sm_id u) (sm_spec_version u)) else
  let? schema := resolve_schema (sm_schema u) (sm_id u) in
  let? data_sources := map_res resolve_data_source (sm_data_sources u) in
  let? templates := map_res resolve_template (sm_templates u) in
  Ok {| sm_id := sm_id u;
        sm_location := sm_location u;
        sm_spec_version := sm_spec_version u;
        sm_description := sm_description u;
        sm_repository := sm_repository u;
        sm_schema := schema;
        sm_data_sources := data_sources;
        sm_graft := sm_graft u;
        sm_templates := templates |}.

(** *** Data sources from templates *)
Record DataSourceTemplateInfo := mk_template_info {
  ti_data_source : string;
  ti_template : DataSourceTemplate;
  ti_params : list string;
  ti_context : option Entity;
}.

Inductive TemplateError :=
| AddressMissing (template : string)
| InvalidAddress (template : string).

Definition data_source_of_template (info : DataSourceTemplateInfo) : res TemplateError DataSource :=
  let template := ti_template info in
  let? param := ok_or (ti_params info !! 0) (AddressMissing (dt_name template)) in
  let? address := ok_or (address_from_str (trim_start_matches "0x" param))
                    (InvalidAddress (dt_name template)) in
  Ok {| ds_kind := dt_kind template;
        ds_network := dt_network template;
        ds_name := dt_name template;
        ds_source := mk_source (Some address) (tsrc_abi (dt_source template)) 0;
        ds_mapping := dt_mapping template;
        ds_context := ti_context info;
        ds_templates := [] |}.

(** *** Validation *)
Inductive SubgraphManifestValidationError :=
| NoDataSources
| SourceAddressRequired
| MultipleEthereumNetworks
| EthereumNetworkRequired
| DataSourceBlockHandlerLimitExceeded
| BlockNotFound (block : string)
| SchemaImportErrors (errors : list SchemaImportError)
| SchemaValidationErrors (errors : list SchemaValidationError)
| GraftBaseInvalid (msg : string).

(** [Graft::validate]; the store's error is represented by its message.  A
    block number is an [i32], and [as u64] sign-extends it. *)
Definition graft_validate (block_ptr : string -> res string (option EthereumBlockPointer))
    (g : Graft) : res Empty_set (list SubgraphManifestValidationError) :=
  match block_ptr (graft_base g) with
  | Panic => Panic
  | Err e => Ok [GraftBaseInvalid e]
  | Ok None =>
      Ok [GraftBaseInvalid ("failed to graft onto `" +:+ graft_base g
            +:+ "` since it has not processed any blocks")]
  | Ok (Some ptr) =>
      if decide (ptr_number ptr < wrap64 (graft_block g))%Z then
        Ok [GraftBaseInvalid ("failed to graft onto `" +:+ graft_base g +:+ "` at block "
              +:+ pretty (graft_block g) +:+ " since it has only processed block "
              +:+ pretty (ptr_number ptr))]
      else Ok []
  end.

(** The loop that counts handlers of each kind in a data source. *)
Definition count_handlers (hs : list MappingBlockHandler) : nat * nat :=
  foldl (fun '(non_filtered, filtered) h =>
           match bh_filter h with
           | None => (S non_filtered, filtered)
           | Some _ => (non_filtered, S filtered)
           end) (0, 0) hs.

Definition too_many_block_handlers (d : DataSource) : bool :=
  if bool_decide (length (m_block_handlers (ds_mapping d)) = 0) then false else
  let '(non_filtered, filtered) := count_handlers (m_block_handlers (ds_mapping d)) in
  bool_decide (1 < non_filtered) || bool_decide (1 < filtered).

Definition lacks_address (d : DataSource) : bool :=
  let no_source_address := bool_decide (src_address (ds_source d) = None) in
  let has_call_handlers := negb (bool_decide (length (m_call_handlers (ds_mapping d)) = 0)) in
  let has_block_handlers := negb (bool_decide (length (m_block_handlers (ds_mapping d)) = 0)) in
  no_source_address && (has_call_handlers || has_block_handlers).

Definition ethereum_networks (ds : list DataSource) : list string :=
  omap ds_network (filter (fun d => ds_kind d = "ethereum/contract") ds).

Definition push_if {A} (b : bool) (x : A) (l : list A) : list A := if b then l ++ [x] else l.

Definition manifest_validate (DISABLE_GRAFTS : bool)
    (block_ptr : string -> res string (option EthereumBlockPointer)) (m : SubgraphManifest)
  : res (list SubgraphManifestValidationError) (SubgraphManifest * list SchemaImportError) :=
  let (schemas, import_errors) := resolve_schema_references (sm_schema m) in
  let errors := push_if (bool_decide (length (sm_data_sources m) = 0)) NoDataSources [] in
  let errors := push_if (existsb lacks_address (sm_data_sources m)) SourceAddressRequired errors in
  let errors := push_if (existsb too_many_block_handlers (sm_data_sources m))
                  DataSourceBlockHandlerLimitExceeded errors in
  let networks := dedup (sort_pure String.compare (ethereum_networks (sm_data_sources m))) in
  let errors :=
    match length networks with
    | 0 => errors ++ [EthereumNetworkRequired]
    | 1 => errors
    | _ => errors ++ [MultipleEthereumNetworks]
    end in
  let? errors :=
    match schema_validate (sm_schema m) schemas with
    | Ok _ => Ok errors
    | Err schema_errors => Ok (errors ++ [SchemaValidationErrors schema_errors])
    | Panic => Panic
    end in
  let? errors :=
    match sm_graft m with
    | None => Ok errors
    | Some graft =>
        let errors := push_if DISABLE_GRAFTS
          (GraftBaseInvalid "Grafting of subgraphs is currently disabled") errors in
        match graft_validate block_ptr graft with
        | Ok es => Ok (errors ++ es)
        | _ => Panic
        end
    end in
  if bool_decide (length errors = 0) then Ok (m, import_errors) else Err errors.

(** *** Reading a manifest *)
Definition network_name (m : SubgraphManifest) : res Empty_set string :=
  unwrap (head (ethereum_networks (sm_data_sources m))).

Definition start_blocks (m : SubgraphManifest) : list Z :=
  (fun d => src_start_block (ds_source d)) <$> sm_data_sources m.

Definition mappings (m : SubgraphManifest) : list Mapping :=
  (dt_mapping <$> sm_templates m) ++ (ds_mapping <$> sm_data_sources m).

Definition requires_traces (m : SubgraphManifest) : bool :=
  existsb (fun mapping => has_call_handler mapping || has_block_handler_with_call_filter mapping)
    (mappings m).

Definition requires_archive (m : SubgraphManifest) : res Empty_set bool :=
  any_res (fun mapping => calls_host_fn mapping "ethereum.call") (mappings m).

Definition required_ethereum_capabilities (m : SubgraphManifest) : res Empty_set NodeCapabilities :=
  let? archive := any_res (fun mapping => calls_host_fn mapping "ethereum.call") (mappings m) in
  Ok (mk_caps archive
        (existsb (fun mapping => has_call_handler mapping
                                 || has_block_handler_with_call_filter mapping) (mappings m))).
End manifest.

(** ** Forgetting what resolution fetched *)
Section forget.
Context `{ME : ManifestEnv}.

Definition forget_abi (a : MappingABI) : UnresolvedMappingABI := mk_uabi (abi_name a) (abi_link a).

Definition forget_mapping (m : Mapping) : UnresolvedMapping :=
  mk_umapping (m_kind m) (m_api_version m) (m_language m) (m_entities m)
    (forget_abi <$> m_abis m) (m_block_handlers m) (m_call_handlers m) (m_event_handlers m)
    (m_link m).

Definition forget_template (t : DataSourceTemplate) : UnresolvedDataSourceTemplate :=
  mk_template (dt_kind t) (dt_network t) (dt_name t) (dt_source t) (forget_mapping (dt_mapping t)).

Definition forget_data_source (d : DataSource) : UnresolvedDataSource :=
  mk_data_source (ds_kind d) (ds_network d) (ds_name d) (ds_source d)
    (forget_mapping (ds_mapping d)) (ds_context d) (forget_template <$> ds_templates d).

(** A resolved mapping carries the fetched module and contracts. *)
Definition mapping_fetched (m : Mapping) : Prop :=
  cat (link_str (m_link m)) = Ok (m_runtime m)
  /\ Forall (fun a => exists bytes, cat (link_str (abi_link a)) = Ok bytes
                      /\ contract_load bytes = Ok (abi_contract a)) (m_abis m).

Definition template_fetched (t : DataSourceTemplate) : Prop := mapping_fetched (dt_mapping t).

Definition data_source_fetched (d : DataSource) : Prop :=
  mapping_fetched (ds_mapping d) /\ Forall template_fetched (ds_templates d).

(** [collect] of a resolution that inverts [forget]. *)
Lemma map_res_inverse {F A B} (f : A -> res F B) (g : B -> A) (P : B -> Prop) l r :
  (forall x y, f x = Ok y <-> g y = x /\ P y) ->
  map_res f l = Ok r <-> g <$> r = l /\ Forall P r.
Proof.
  intros H. rewrite map_res_Forall2. split.
  - induction 1 as [|x y l r Hf _ [IH1 IH2]]; [by split|].
    apply H in Hf as [Hg HP]. split; [|by constructor].
    rewrite fmap_cons. by f_equal.
  - intros [<- HP]. induction HP as [|y r HP _ IH]; [constructor|].
    rewrite fmap_cons. constructor; [by apply H|done].
Qed.

Lemma resolve_abi_iff u a :
  resolve_abi u = Ok a <->
  forget_abi a = u /\ exists bytes, cat (link_str (abi_link a)) = Ok bytes
                      /\ contract_load bytes = Ok (abi_contract a).
Proof.
  unfold resolve_abi, forget_abi. split.
  - intros H. destruct (cat _) as [bytes| |] eqn:Ec; simpl in H; try done.
    destruct (contract_load bytes) as [c| |] eqn:El; simpl in H; try done.
    injection H as <-. simpl. split; [by destruct u|]. by exists bytes.
  - intros [<- (bytes & Ec & El)]. simpl. rewrite Ec. simpl. rewrite El. simpl. by destruct a.
Qed.

Lemma resolve_mapping_iff u m :
  resolve_mapping u = Ok m <-> forget_mapping m = u /\ mapping_fetched m.
Proof.
  unfold resolve_mapping, forget_mapping, mapping_fetched. split.
  - intros H. destruct (map_res resolve_abi (um_abis u)) as [abis| |] eqn:Ea; simpl in H; try done.
    destruct (cat _) as [bytes| |] eqn:Ec; simpl in H; try done.
    injection H as <-. simpl.
    apply (map_res_inverse _ _ _ _ _ resolve_abi_iff) in Ea as [Ea Fa].
    rewrite Ea. by destruct u.
  - intros [<- [Ec Fa]]. simpl.
    rewrite (proj2 (map_res_inverse _ _ _ _ (m_abis m) resolve_abi_iff)) by done.
    simpl. rewrite Ec. by destruct m.
Qed.

Lemma resolve_template_iff u t :
  resolve_template u = Ok t <-> forget_template t = u /\ template_fetched t.
Proof.
  unfold resolve_template, forget_template, template_fetched. split.
  - intros H. destruct (resolve_mapping _) as [m| |] eqn:Em; simpl in H; try done.
    injection H as <-. apply resolve_mapping_iff in Em as [Em Fm]. simpl.
    rewrite Em. by destruct u.
  - intros [<- Fm]. simpl. rewrite (proj2 (resolve_mapping_iff _ (dt_mapping t))) by done.
    by destruct t.
Qed.

End forget.

(** ** Validation, declaratively *)
Section validation.
Context `{ME : ManifestEnv}.

Definition handlers_limited (hs : list MappingBlockHandler) : Prop :=
  length (filter (fun h => bh_filter h = None) hs) <= 1
  /\ length (filter (fun h => bh_filter h <> None) hs) <= 1.

Definition addressed (d : DataSource) : Prop :=
  (m_call_handlers (ds_mapping d) <> [] \/ m_block_handlers (ds_mapping d) <> []) ->
  is_Some (src_address (ds_source d)).

Definition on_network (n : string) (d : DataSource) : Prop :=
  ds_kind d = "ethereum/contract" /\ ds_network d = Some n.

Definition graft_ok (DISABLE_GRAFTS : bool)
    (block_ptr : string -> res string (option EthereumBlockPointer)) (g : Graft) : Prop :=
  DISABLE_GRAFTS = false
  /\ exists p, block_ptr (graft_base g) = Ok (Some p) /\ (wrap64 (graft_block g) <= ptr_number p)%Z.

Record manifest_ok (DISABLE_GRAFTS : bool)
    (block_ptr : string -> res string (option EthereumBlockPointer)) (m : SubgraphManifest)
  : Prop := {
  mo_data_sources : sm_data_sources m <> [];
  mo_addresses : Forall addressed (sm_data_sources m);
  mo_handlers : Forall (fun d => handlers_limited (m_block_handlers (ds_mapping d)))
                  (sm_data_sources m);
  mo_network : exists n,
    (exists d, d ∈ sm_data_sources m /\ on_network n d)
    /\ forall d n', d ∈ sm_data_sources m -> on_network n' d -> n' = n;
  mo_schema : exists u,
    schema_validate (sm_schema m) (fst (resolve_schema_references (sm_schema m))) = Ok u;
  mo_graft : forall g, sm_graft m = Some g -> graft_ok DISABLE_GRAFTS block_ptr g;
}.

Lemma count_handlers_spec hs :
  count_handlers hs = (length (filter (fun h => bh_filter h = None) hs),
                       length (filter (fun h => bh_filter h <> None) hs)).
Proof.
  unfold count_handlers.
  assert (G : forall a b, foldl (fun '(non_filtered, filtered) h =>
      match bh_filter h with
      | None => (S non_filtered, filtered)
      | Some _ => (non_filtered, S filtered)
      end) (a, b) hs
    = (a + length (filter (fun h => bh_filter h = None) hs),
       b + length (filter (fun h => bh_filter h <> None) hs))).
  { induction hs as [|h hs IH]; intros a b; simpl; [by rewrite !Nat.add_0_r|].
    rewrite !filter_cons. destruct (bh_filter h) eqn:E; rewrite IH;
      repeat case_decide; try congruence; simpl; f_equal; lia. }
  apply (G 0 0).
Qed.

Lemma too_many_block_handlers_spec d :
  too_many_block_handlers d = false <-> handlers_limited (m_block_handlers (ds_mapping d)).
Proof.
  unfold too_many_block_handlers, handlers_limited. rewrite count_handlers_spec.
  case_bool_decide as E.
  - apply nil_length_inv in E as ->. simpl. split; [lia|done].
  - rewrite orb_false_iff, !bool_decide_eq_false. lia.
Qed.

Lemma lacks_address_spec d : lacks_address d = false <-> addressed d.
Proof.
  unfold lacks_address, addressed. rewrite <- not_eq_None_Some.
  destruct (m_call_handlers (ds_mapping d)), (m_block_handlers (ds_mapping d)),
    (src_address (ds_source d)); simpl; split; intros; try done; try naive_solver.
Qed.

Lemma elem_of_ethereum_networks ds n :
  n ∈ ethereum_networks ds <-> exists d, d ∈ ds /\ on_network n d.
Proof.
  unfold ethereum_networks, on_network. rewrite list_elem_of_omap.
  setoid_rewrite list_elem_of_filter. naive_solver.
Qed.

(** The three outcomes of counting the sorted, deduplicated networks. *)
Lemma networks_count ds :
  let k := length (dedup (sort_pure String.compare (ethereum_networks ds))) in
  (k = 1 <-> exists n, (exists d, d ∈ ds /\ on_network n d)
                /\ forall d n', d ∈ ds -> on_network n' d -> n' = n).
Proof.
  intros k. subst k. set (l := sort_pure _ _).
  assert (Hl : forall n, n ∈ dedup l <-> exists d, d ∈ ds /\ on_network n d).
  { intros n. rewrite elem_of_dedup. unfold l. rewrite sort_pure_perm.
    apply elem_of_ethereum_networks. }
  split.
  - destruct (dedup l) as [|n [|]] eqn:E; try done. intros _. exists n. split.
    + apply Hl. left.
    + intros d n' Hd Hn. assert (n' ∈ [n]) by (apply Hl; eauto). set_solver.
  - intros (n & Hn & U). destruct l as [|x l'] eqn:E.
    + apply Hl in Hn. by apply elem_of_nil in Hn.
    + assert (A : forall y, y ∈ x :: l' -> y = n).
      { intros y Hy. rewrite <- elem_of_dedup, Hl in Hy. destruct Hy as (d & Hd & Hy). eauto. }
      rewrite dedup_all_equal; [done|]. intros y Hy.
      rewrite (A x) by left. apply A. by right.
Qed.

Lemma graft_validate_spec block_ptr g :
  graft_validate block_ptr g = Ok [] <->
  exists p, block_ptr (graft_base g) = Ok (Some p) /\ (wrap64 (graft_block g) <= ptr_number p)%Z.
Proof.
  unfold graft_validate. destruct (block_ptr (graft_base g)) as [[p|]| |];
    [|split; [done|by intros (? & ? & ?)]..].
  case_decide as L; split; try done.
  - intros (p' & [= <-] & L'). lia.
  - intros _. exists p. split; [done|]. lia.
Qed.

Lemma push_if_nil {A} b (x : A) l : push_if b x l = [] <-> b = false /\ l = [].
Proof. destruct b; simpl; [|naive_solver]. split; [|naive_solver]. by intros [_ ?]%app_nil. Qed.

Lemma app_nil_iff {A} (l k : list A) : l ++ k = [] <-> l = [] /\ k = [].
Proof. split; [apply app_nil|by intros [-> ->]]. Qed.

Lemma finish_ok {E A} (errors : list E) (a r : A) :
  (if bool_decide (length errors = 0) then Ok a else Err errors) = Ok r
  <-> errors = [] /\ r = a.
Proof. destruct errors; simpl; naive_solver. Qed.
Lemma data_source_errors_nil ds :
  push_if (existsb too_many_block_handlers ds) DataSourceBlockHandlerLimitExceeded
    (push_if (existsb lacks_address ds) SourceAddressRequired
      (push_if (bool_decide (length ds = 0)) NoDataSources [])) = []
  <-> ds <> [] /\ Forall addressed ds
      /\ Forall (fun d => handlers_limited (m_block_handlers (ds_mapping d))) ds.
Proof.
  rewrite !push_if_nil, bool_decide_eq_false, !existsb_false_iff, !Forall_forall.
  setoid_rewrite lacks_address_spec. setoid_rewrite too_many_block_handlers_spec.
  rewrite <- (length_zero_iff_nil ds). naive_solver.
Qed.

Lemma network_errors_nil k errors :
  match k with
  | 0 => errors ++ [EthereumNetworkRequired]
  | 1 => errors
  | _ => errors ++ [MultipleEthereumNetworks]
  end = [] <-> errors = [] /\ k = 1.
Proof.
  destruct k as [|[|k]]; split; intros H; try (by apply app_nil in H as [_ ?]); naive_solver.
Qed.

(** The last part of validation, after the errors [errors]. *)
Lemma schema_and_graft_ok {X A} (disabled : bool) block_ptr (sch : res _ X) graft errors (a r : A) :
  (let? errors :=
    match sch with
    | Ok _ => Ok errors
    | Err schema_errors => Ok (errors ++ [SchemaValidationErrors schema_errors])
    | Panic => Panic
    end in
  let? errors :=
    match graft with
    | None => Ok errors
    | Some graft =>
        match graft_validate block_ptr graft with
        | Ok es => Ok (push_if disabled
            (GraftBaseInvalid "Grafting of subgraphs is currently disabled") errors ++ es)
        | _ => Panic
        end
    end in
  if bool_decide (length errors = 0) then Ok a else Err errors) = Ok r
  <-> r = a /\ errors = [] /\ (exists u, sch = Ok u)
      /\ forall g, graft = Some g -> disabled = false /\ graft_validate block_ptr g = Ok [].
Proof.
  destruct sch as [u|es|]; cbn [res_bind]; [| |split; [done|by intros (_ & _ & [u ?] & _)]].
  - destruct graft as [g|]; cbn [res_bind].
    + destruct (graft_validate block_ptr g) as [es| |] eqn:Ev; cbn [res_bind];
        [|split; [done|]; intros (_ & _ & _ & G); destruct (G g eq_refl); congruence..].
      rewrite finish_ok, app_nil_iff, push_if_nil. split.
      * intros [[[HD He] ->] ->]. split; [done|]. split; [done|]. split; [by exists u|].
        by intros g' [= <-].
      * intros (-> & He & _ & G). destruct (G g eq_refl) as [HD G2]. rewrite Ev in G2.
        by injection G2 as ->.
    + rewrite finish_ok. split; [|by intros (-> & He & _)].
      intros [He ->]. split; [done|]. split; [done|]. split; [by exists u|done].
  - assert (X0 : forall l, (errors ++ [SchemaValidationErrors es]) ++ l <> [])
      by (intros l [[_ ?]%app_nil _]%app_nil; done).
    split; [|by intros (_ & _ & [u ?] & _)]. intros H. exfalso.
    destruct graft as [g|]; cbn [res_bind] in H.
    + destruct (graft_validate block_ptr g); cbn [res_bind] in H; try done.
      apply finish_ok in H as [[_ H]%app_nil_iff%proj1%push_if_nil _]. by apply (X0 []); rewrite app_nil_r.
    + apply finish_ok in H as [H _]. by apply (X0 []); rewrite app_nil_r.
Qed.
End validation.

(** ** Properties *)
Section properties.
Context `{ME : ManifestEnv}.

(** C28: A manifest passes validation exactly when it has data sources, those
    with call or block handlers have an address, none has two block handlers
    of a kind, its Ethereum data sources name one and the same network, its
    schema is valid and its graft, if any, is allowed and onto a block the
    base has processed; the result is the manifest itself, with the import
    errors as warnings. *)
Theorem manifest_validate_spec (DISABLE_GRAFTS : bool)
    (block_ptr : string -> res string (option EthereumBlockPointer)) (m : SubgraphManifest)
    (r : SubgraphManifest * list SchemaImportError) :
  manifest_validate DISABLE_GRAFTS block_ptr m = Ok r
  <-> r = (m, snd (resolve_schema_references (sm_schema m)))
      /\ manifest_ok DISABLE_GRAFTS block_ptr m.
Proof.
  unfold manifest_validate.
  destruct (resolve_schema_references (sm_schema m)) as [schemas warnings] eqn:Er.
  cbv zeta. rewrite schema_and_graft_ok, network_errors_nil, data_source_errors_nil, networks_count.
  setoid_rewrite graft_validate_spec. simpl snd. split; intros [-> M]; (split; [done|]).
  - destruct M as (((M1 & M2 & M3) & M4) & M5 & M6). split; try done. by rewrite Er.
  - destruct M as [M1 M2 M3 M4 M5 M6]. by rewrite Er in M5.
Qed.

(** Of a manifest that validation accepts, [network_name] does not panic
    and is the network of every Ethereum data source that names one. *)
Lemma validated_network_name (DISABLE_GRAFTS : bool)
    (block_ptr : string -> res string (option EthereumBlockPointer)) (m : SubgraphManifest) :
  manifest_ok DISABLE_GRAFTS block_ptr m ->
  exists n, network_name m = Ok n
  /\ forall d n', d ∈ sm_data_sources m -> ds_kind d = "ethereum/contract" ->
       ds_network d = Some n' -> n' = n.
Proof.
  intros [_ _ _ (n & [d [Hd On]] & U) _ _]. exists n. split.
  - unfold network_name. destruct (ethereum_networks (sm_data_sources m)) as [|x l] eqn:E.
    + assert (Hn : n ∈ ethereum_networks (sm_data_sources m))
        by (apply elem_of_ethereum_networks; eauto).
      rewrite E in Hn. by apply elem_of_nil in Hn.
    + simpl. assert (Hx : x ∈ ethereum_networks (sm_data_sources m)) by (rewrite E; left).
      apply elem_of_ethereum_networks in Hx as (d' & Hd' & On'). by rewrite (U d' x).
  - intros d' n' Hd' K N. apply (U d'); [done|by split].
Qed.

(** Resolving a data source adds only what it fetches: a data source is the
    resolution of an unresolved one exactly when it has all of its fields and
    handlers, in order, and the module and contracts found at the links. *)
Lemma resolve_data_source_spec (u : UnresolvedDataSource) (d : DataSource) :
  resolve_data_source u = Ok d <-> forget_data_source d = u /\ data_source_fetched d.
Proof.
  unfold resolve_data_source, forget_data_source, data_source_fetched. split.
  - intros H. destruct (resolve_mapping _) as [m| |] eqn:Em; simpl in H; try done.
    destruct (map_res _ _) as [ts| |] eqn:Et; simpl in H; try done.
    injection H as <-. apply resolve_mapping_iff in Em as [Em Fm].
    apply (map_res_inverse _ _ _ _ _ resolve_template_iff) in Et as [Et Ft]. simpl.
    rewrite Em, Et. by destruct u.
  - intros [<- [Fm Ft]]. simpl. rewrite (proj2 (resolve_mapping_iff _ (ds_mapping d))) by done.
    simpl. rewrite (proj2 (map_res_inverse _ _ _ _ (ds_templates d) resolve_template_iff)) by done.
    by destruct d.
Qed.

(** Block handlers after a round trip through the store. *)
Definition clear_filters (u : UnresolvedMapping) : UnresolvedMapping :=
  mk_umapping (um_kind u) (um_api_version u) (um_language u) (um_entities u) (um_abis u)
    ((fun h => mk_block_handler (bh_handler h) None) <$> um_block_handlers u)
    (um_call_handlers u) (um_event_handlers u) (um_file u).

Definition unfiltered (m : Mapping) : Prop :=
  Forall (fun h => bh_filter h = None) (m_block_handlers m).

Lemma stored_mapping m :
  mapping_of_entity (entity_of_mapping m) = clear_filters (forget_mapping m).
Proof.
  unfold mapping_of_entity, entity_of_mapping, clear_filters, forget_mapping. simpl.
  rewrite (fmap_inverse entity_of_call_handler), (fmap_inverse entity_of_event_handler)
    by by intros [].
  rewrite (fmap_inverse_to entity_of_abi _ forget_abi) by by intros [? ? []].
  rewrite (fmap_inverse_to entity_of_block_handler _ (fun h => mk_block_handler (bh_handler h) None))
    by done.
  by destruct (m_link m).
Qed.

Lemma clear_filters_id m :
  clear_filters (forget_mapping m) = forget_mapping m <-> unfiltered m.
Proof.
  unfold clear_filters, forget_mapping, unfiltered. simpl. split.
  - intros [= H]. induction (m_block_handlers m) as [|h hs IH]; [constructor|].
    rewrite fmap_cons in H. injection H as Hh Hs. constructor; [by rewrite <- Hh|auto].
  - intros H. f_equal. induction H as [|h hs Hh _ IH]; [done|].
    rewrite fmap_cons, IH. f_equal. destruct h; simpl in *. by subst.
Qed.

Lemma stored_template t :
  template_of_entity (entity_of_template t) = forget_template t <-> unfiltered (dt_mapping t).
Proof.
  rewrite <- clear_filters_id, <- stored_mapping. split; intros H.
  - by apply (f_equal dt_mapping) in H.
  - unfold template_of_entity, entity_of_template, forget_template. simpl. rewrite H.
    by destruct (dt_source t).
Qed.

Lemma stored_templates ts :
  template_of_entity <$> (entity_of_template <$> ts) = forget_template <$> ts
  <-> Forall (fun t => unfiltered (dt_mapping t)) ts.
Proof.
  induction ts as [|t ts IH]; [done|].
  by rewrite !fmap_cons, cons_eq_iff, Forall_cons, stored_template, IH.
Qed.

(** A dynamic data source that is stored and read back is the data source
    that was stored exactly when none of its block handlers, nor those of its
    templates, has a filter: reading drops the filters. *)
Lemma stored_data_source_roundtrip (deployment : string) (d : DataSource)
    (p : EthereumBlockPointer) :
  unresolved_of_dynamic (dynamic_entity_of deployment d p) = forget_data_source d
  <-> unfiltered (ds_mapping d)
      /\ Forall (fun t => unfiltered (dt_mapping t)) (ds_templates d).
Proof.
  rewrite <- stored_templates, <- clear_filters_id, <- stored_mapping. split; intros H.
  - split; [by apply (f_equal ds_mapping) in H|by apply (f_equal ds_templates) in H].
  - destruct H as [H1 H2]. unfold unresolved_of_dynamic, dynamic_entity_of, forget_data_source.
    simpl. rewrite H1, H2. by destruct (ds_source d).
Qed.
End properties.

(** ** Witness *)
Module Witness.
#[local] Instance text_env : ManifestEnv := {|
  Contract := string;
  Schema := string;
  SchemaSet := unit;
  SchemaImportError := string;
  SchemaValidationError := string;
  Failure := string;
  Version := Z * Z * Z;
  cat := fun link => Ok (string_bytes link);
  string_from_utf8 := fun b => Ok (String.string_of_list_byte b);
  contract_load := fun b => Ok (String.string_of_list_byte b);
  schema_parse := fun s _ => Ok s;
  version_parse := fun s => if String.eqb s "0.0.2" then Some (0, 0, 2)%Z else None;
  version_new := fun a b c => (a, b, c);
  version_leb := fun '(a, b, c) '(a', b', c') =>
    match Z.compare a a', Z.compare b b', Z.compare c c' with
    | Lt, _, _ | Eq, Lt, _ | Eq, Eq, Lt | Eq, Eq, Eq => true
    | _, _, _ => false
    end;
  unsupported_spec_version := fun _ v => v;
  address_from_str := fun s => if String.eqb s "aa" then Some 170%Z else None;
  wasm_payloads := fun _ => [];
  keccak256 := fun b => take 32 (b ++ replicate 32 Byte.x00);
  resolve_schema_references := fun _ => (tt, []);
  schema_validate := fun s _ => if String.eqb s "" then Err ["empty"] else Ok tt;
|}.

Definition mapping (bh : list MappingBlockHandler) (ch : list MappingCallHandler)
    (eh : list MappingEventHandler) : Mapping :=
  mk_mapping "ethereum/events" "0.0.4" "wasm/assemblyscript" [] [] bh ch eh [] (mk_link "/ipfs/m").

Definition data_source (address : option Address) (start : Z) (m : Mapping) : DataSource :=
  mk_data_source "ethereum/contract" (Some "mainnet") "ds" (mk_source address "abi" start) m None [].

Definition manifest (ds : list DataSource) : SubgraphManifest :=
  mk_manifest "QmA" "/ipfs/QmA" "0.0.2" None None "type A" ds
    (Some (mk_graft "QmBase" 5)) [].

Definition base_ptr (id : string) : res string (option EthereumBlockPointer) :=
  Ok (Some (mk_ptr 1 7)).

Definition handlers : list MappingBlockHandler :=
  [mk_block_handler "every" None; mk_block_handler "calls" (Some FilterCall)].

Lemma validated_network_name_witness :
  manifest_ok false base_ptr (manifest [data_source (Some 170%Z) 3 (mapping handlers [] [])])
  /\ exists n, network_name (manifest [data_source (Some 170%Z) 3 (mapping handlers [] [])]) = Ok n.
Proof.
  assert (H : manifest_ok false base_ptr
                (manifest [data_source (Some 170%Z) 3 (mapping handlers [] [])])).
  { assert (V : manifest_validate false base_ptr
      (manifest [data_source (Some 170%Z) 3 (mapping handlers [] [])])
      = Ok (manifest [data_source (Some 170%Z) 3 (mapping handlers [] [])], []))
      by (vm_compute; reflexivity).
    split; try done.
    - repeat constructor. intros _. eexists. reflexivity.
    - repeat constructor.
    - exists "mainnet". split.
      + eexists. split; [by left|by split].
      + intros d n' [->|Hd]%elem_of_cons; [|by apply elem_of_nil in Hd].
        intros [_ [= <-]]. done.
    - by exists tt.
    - intros g [= <-]. split; [done|]. exists (mk_ptr 1 7). split; [done|]. vm_compute. done. }
  split; [exact H|].
  destruct (validated_network_name _ _ _ H) as (n & E & _). by exists n.
Defined.

Example handlers_lose_their_filter :
  m_block_handlers (mapping handlers [] []) = handlers
  /\ um_block_handlers (mapping_of_entity (entity_of_mapping (mapping handlers [] [])))
     = [mk_block_handler "every" None; mk_block_handler "calls" None].
Proof. by split. Qed.

Example topic0_ignores_indexed_and_spaces :
  topic0 (mk_event_handler "A(indexed uint256, uint)" None "h")
  = topic0 (mk_event_handler "A(uint256,uint)" None "h").
Proof. vm_compute. reflexivity. Qed.
End Witness.
