(* ===== verification/EthFilters.v ===== *)
(** * Ethereum trigger filters

    Models the filters of [graph/src/components/ethereum/adapter.rs].  The
    third-party [GraphMap] (an undirected simple graph) is the interface
    [GraphMap] with its documented behaviour as [GraphMapLaws].  Hash sets and
    hash maps are finite sets and maps; where the code iterates over one, the
    model iterates in the order of its elements, and no theorem depends on it. *)

From stdpp Require Import prelude list strings gmap fin_maps.
From Stdlib Require Import ZArith Lia.
From Stdlib Require Strings.Byte.
From S2P Require Import Prelude.
From S2P Require Import StoreValue.
From S2P Require Import EthTypes.
From S2P Require Import Manifest.

#[export] Instance byte_countable : Countable Byte.byte.
Proof.
  refine (inj_countable Byte.to_N Byte.of_N _).
  intros x. apply Byte.of_to_N.
Defined.

(** [Iterator::max_by_key]: the last of the elements with the greatest key. *)
Definition max_by_key {A} (k : A -> nat) (l : list A) : option A :=
  foldl (fun best x =>
           match best with
           | None => Some x
           | Some b => if decide (k b <= k x) then Some x else Some b
           end) None l.

(** ** The graph library *)
Class GraphMap (V G : Type) := {
  gm_empty : G;
  gm_add_edge : G -> V -> V -> G;
  gm_all_edges : G -> list (V * V);
  gm_edge_count : G -> nat;
  gm_nodes : G -> list V;
  gm_neighbors : G -> V -> list V;
  gm_remove_node : G -> V -> G;
}.

Definition has_edge `{GraphMap V G} (g : G) (a b : V) : Prop :=
  (a, b) ∈ gm_all_edges g \/ (b, a) ∈ gm_all_edges g.

Class GraphMapLaws (V G : Type) `{GM : GraphMap V G} := {
  gm_empty_edges : gm_all_edges (gm_empty (V := V) (G := G)) = [];
  gm_add_spec : forall (g : G) (a b x y : V),
    has_edge (gm_add_edge g a b) x y <->
    has_edge g x y \/ (x = a /\ y = b) \/ (x = b /\ y = a);
  gm_count_spec : forall (g : G), gm_edge_count g = length (gm_all_edges g);
  gm_nodes_spec : forall (g : G) (a b : V), has_edge g a b -> a ∈ gm_nodes g;
  gm_neighbors_spec : forall (g : G) (a b : V), b ∈ gm_neighbors g a <-> has_edge g a b;
  gm_remove_spec : forall (g : G) (a x y : V),
    has_edge (gm_remove_node g a) x y <-> has_edge g x y /\ x <> a /\ y <> a;
  gm_remove_count : forall (g : G) (a : V),
    gm_edge_count (gm_remove_node g a) + length (gm_neighbors g a) = gm_edge_count g;
}.

(** ** Log filters *)
Abbreviation EventSignature := Z.

Inductive LogFilterNode :=
| NContract (a : Address)
| NEvent (s : EventSignature).

#[export] Instance LogFilterNode_eq_dec : EqDecision LogFilterNode.
Proof. solve_decision. Defined.

Record EthGetLogsFilter := mk_get_logs {
  gl_contracts : list Address;
  gl_event_signatures : list EventSignature;
}.

(** What an [eth_getLogs] call with the filter returns: logs whose first topic
    is one of the signatures, of one of the contracts or, when no contract is
    given, of any. *)
Definition get_logs_returns (f : EthGetLogsFilter) (l : Log) : Prop :=
  (exists sig rest, l_topics l = sig :: rest /\ sig ∈ gl_event_signatures f)
  /\ (gl_contracts f = [] \/ l_address l ∈ gl_contracts f).

Section log_filter.
Context {G : Type} `{GM : GraphMap LogFilterNode G}.

Record EthereumLogFilter := mk_log_filter {
  lf_graph : G;
  lf_wildcard_events : gset EventSignature;
}.

Definition log_filter_default : EthereumLogFilter := mk_log_filter gm_empty ∅.

Definition log_matches (f : EthereumLogFilter) (log : Log) : bool :=
  match head (l_topics log) with
  | None => false
  | Some sig =>
      let contract := NContract (l_address log) in
      let event := NEvent sig in
      existsb (fun '(s, t) =>
                 bool_decide (s = contract) && bool_decide (t = event)
                 || bool_decide (t = contract) && bool_decide (s = event))
        (gm_all_edges (lf_graph f))
      || bool_decide (sig ∈ lf_wildcard_events f)
  end.

Definition log_filter_add (address : option Address) (this : EthereumLogFilter)
    (event_sig : EventSignature) : EthereumLogFilter :=
  match address with
  | Some contract =>
      mk_log_filter (gm_add_edge (lf_graph this) (NContract contract) (NEvent event_sig))
        (lf_wildcard_events this)
  | None => mk_log_filter (lf_graph this) ({[event_sig]} ∪ lf_wildcard_events this)
  end.

Definition log_filter_from_data_sources `{ManifestEnv} (ds : list DataSource)
  : EthereumLogFilter :=
  foldl (fun this d =>
           foldl (log_filter_add (src_address (ds_source d))) this
             (topic0 <$> m_event_handlers (ds_mapping d)))
    log_filter_default ds.

Definition log_filter_extend (f other : EthereumLogFilter) : EthereumLogFilter :=
  mk_log_filter
    (foldl (fun g '(s, t) => gm_add_edge g s t) (lf_graph f) (gm_all_edges (lf_graph other)))
    (lf_wildcard_events f ∪ lf_wildcard_events other).

Definition log_filter_is_empty (f : EthereumLogFilter) : bool :=
  bool_decide (gm_edge_count (lf_graph f) = 0) && bool_decide (lf_wildcard_events f = ∅).

(** One round of the loop of [eth_get_logs_filters]. *)
Definition vertex_filter (g : G) (max_vertex : LogFilterNode) : EthGetLogsFilter :=
  foldl (fun filter neighbor =>
           match neighbor with
           | NContract address =>
               mk_get_logs (gl_contracts filter ++ [address]) (gl_event_signatures filter)
           | NEvent event_sig =>
               mk_get_logs (gl_contracts filter) (gl_event_signatures filter ++ [event_sig])
           end)
    (match max_vertex with
     | NContract address => mk_get_logs [address] []
     | NEvent event_sig => mk_get_logs [] [event_sig]
     end)
    (gm_neighbors g max_vertex).

Definition filter_asserts (f : EthGetLogsFilter) : bool :=
  (bool_decide (0 < length (gl_contracts f)) && bool_decide (0 < length (gl_event_signatures f)))
  && (bool_decide (length (gl_contracts f) = 1)
      || bool_decide (length (gl_event_signatures f) = 1)).

(** The loop, [None] when the fuel does not suffice. *)
Fixpoint logs_filters_loop (fuel : nat) (g : G) (filters : list EthGetLogsFilter)
  : option (res Empty_set (list EthGetLogsFilter)) :=
  if bool_decide (0 < gm_edge_count g) then
    match fuel with
    | O => None
    | S fuel =>
        match max_by_key (fun n => length (gm_neighbors g n)) (gm_nodes g) with
        | None => Some Panic
        | Some max_vertex =>
            let filter := vertex_filter g max_vertex in
            if filter_asserts filter
            then logs_filters_loop fuel (gm_remove_node g max_vertex) (filters ++ [filter])
            else Some Panic
        end
    end
  else Some (Ok filters).

Definition wildcard_filters (f : EthereumLogFilter) : list EthGetLogsFilter :=
  (fun e => mk_get_logs [] [e]) <$> elements (lf_wildcard_events f).

(** Every round removes an edge, so their number is enough fuel
    ([logs_filters_loop_total]). *)
Definition eth_get_logs_filters (f : EthereumLogFilter)
  : option (res Empty_set (list EthGetLogsFilter)) :=
  logs_filters_loop (gm_edge_count (lf_graph f)) (lf_graph f) (wildcard_filters f).
End log_filter.
Arguments EthereumLogFilter : clear implicits.
Arguments mk_log_filter {G}.
Arguments lf_graph {G}. Arguments lf_wildcard_events {G}.

(** ** Call filters *)
Abbreviation Selector := (list Byte.byte).

Record EthereumCallFilter := mk_call_filter {
  cf_contracts : gmap Address (Z * gset Selector);
}.

(** [call.input.0[..4]] panics on a shorter input. *)
Definition call_selector (c : EthereumCall) : res Empty_set Selector :=
  if decide (4 <= length (call_input c)) then Ok (take 4 (call_input c)) else Panic.

Definition call_matches (f : EthereumCallFilter) (c : EthereumCall) : res Empty_set bool :=
  match cf_contracts f !! call_to c with
  | None => Ok false
  | Some (_, sigs) =>
      if bool_decide (sigs = ∅) then Ok true
      else let? sel := call_selector c in Ok (bool_decide (sel ∈ sigs))
  end.

(** [FromIterator<(u64, Address, [u8; 4])>] *)
Definition call_filter_add (lookup : gmap Address (Z * gset Selector))
    (x : Z * Address * Selector) : gmap Address (Z * gset Selector) :=
  let '(start_block, address, function_signature) := x in
  let lookup := match lookup !! address with
                | None => <[address := (start_block, ∅)]> lookup
                | Some _ => lookup
                end in
  alter (fun '(start, sigs) =>
           (if decide (start_block < start)%Z then start_block else start,
            {[function_signature]} ∪ sigs)) address lookup.

Definition call_filter_from_iter (l : list (Z * Address * Selector)) : EthereumCallFilter :=
  mk_call_filter (foldl call_filter_add ∅ l).

Definition call_entries `{ManifestEnv} (ds : list DataSource) : list (Z * Address * Selector) :=
  ds ≫= (fun d =>
    match src_address (ds_source d) with
    | None => []
    | Some contract_addr =>
        (fun h => (src_start_block (ds_source d), contract_addr, function_selector h))
        <$> m_call_handlers (ds_mapping d)
    end).

Definition call_filter_from_data_sources `{ManifestEnv} (ds : list DataSource)
  : EthereumCallFilter := call_filter_from_iter (call_entries ds).

Definition call_filter_merge (m : gmap Address (Z * gset Selector))
    (x : Address * (Z * gset Selector)) : gmap Address (Z * gset Selector) :=
  let '(address, (proposed_start_block, new_sigs)) := x in
  match m !! address with
  | Some (existing_start_block, existing_sigs) =>
      <[address := (proposed_start_block `min` existing_start_block,
                    existing_sigs ∪ new_sigs)%Z]> m
  | None => <[address := (proposed_start_block, new_sigs)]> m
  end.

Definition call_filter_extend (f other : EthereumCallFilter) : EthereumCallFilter :=
  mk_call_filter (foldl call_filter_merge (cf_contracts f) (map_to_list (cf_contracts other))).

Definition call_filter_is_empty (f : EthereumCallFilter) : bool :=
  bool_decide (cf_contracts f = ∅).

Definition call_filter_start_blocks (f : EthereumCallFilter) : list Z :=
  fst <$> filter (fun x => (0 < fst x)%Z) (snd <$> map_to_list (cf_contracts f)).

(** ** Block filters *)
Record EthereumBlockFilter := mk_block_filter {
  bf_contract_addresses : gset (Z * Address);
  bf_trigger_every_block : bool;
}.

Definition block_filter_default : EthereumBlockFilter := mk_block_filter ∅ false.

Definition block_filter_extend (f other : EthereumBlockFilter) : EthereumBlockFilter :=
  {| bf_trigger_every_block := bf_trigger_every_block f || bf_trigger_every_block other;
     bf_contract_addresses :=
       foldl (fun addresses '(start_block, address) =>
                match list_find (fun x => address = snd x)
                        (elements (bf_contract_addresses other)) with
                | Some (_, (other_start_block, address)) =>
                    {[((other_start_block `min` start_block)%Z, address)]} ∪ addresses
                | None => {[(start_block, address)]} ∪ addresses
                end) (∅ : gset (Z * Address)) (elements (bf_contract_addresses f)) |}.

(** The filter of one data source with an address. *)
Definition block_filter_of `{ManifestEnv} (d : DataSource) (address : Address)
  : EthereumBlockFilter :=
  let has_block_handler_with_call_filter :=
    existsb (fun h => bool_decide (bh_filter h = Some FilterCall))
      (m_block_handlers (ds_mapping d)) in
  let has_block_handler_without_filter :=
    existsb (fun h => bool_decide (bh_filter h = None)) (m_block_handlers (ds_mapping d)) in
  {| bf_trigger_every_block := has_block_handler_without_filter;
     bf_contract_addresses :=
       if has_block_handler_with_call_filter
       then {[(src_start_block (ds_source d), address)]} else ∅ |}.

Definition block_filter_from_data_sources `{ManifestEnv} (ds : list DataSource)
  : EthereumBlockFilter :=
  foldl (fun filter_opt d =>
           match src_address (ds_source d) with
           | None => filter_opt
           | Some address => block_filter_extend filter_opt (block_filter_of d address)
           end) block_filter_default ds.

Definition block_filter_start_blocks (f : EthereumBlockFilter) : list Z :=
  fst <$> filter (fun x => (0 < fst x)%Z) (elements (bf_contract_addresses f)).

(** [From<EthereumBlockFilter> for EthereumCallFilter]: of two entries with the
    same address the later one stays. *)
Definition call_filter_of_block_filter (f : EthereumBlockFilter) : EthereumCallFilter :=
  mk_call_filter
    (foldl (fun m '(start_block, address) => <[address := (start_block, ∅)]> m)
       (∅ : gmap Address (Z * gset Selector)) (elements (bf_contract_addresses f))).

(** ** Lemmas: the greatest element *)
Lemma max_by_key_spec {A} (k : A -> nat) l :
  l <> [] -> exists x, max_by_key k l = Some x /\ x ∈ l /\ forall y, y ∈ l -> k y <= k x.
Proof.
  unfold max_by_key.
  assert (G : forall l b, exists x,
    foldl (fun best x => match best with
                         | None => Some x
                         | Some b => if decide (k b <= k x) then Some x else Some b
                         end) (Some b) l = Some x
    /\ x ∈ b :: l /\ forall y, y ∈ b :: l -> k y <= k x).
  { clear l. induction l as [|z l IH]; intros b; simpl.
    - exists b. split; [done|]. split; [left|]. intros y ->%list_elem_of_singleton. done.
    - case_decide as L; [destruct (IH z) as (x & E & I & M)|destruct (IH b) as (x & E & I & M)];
        exists x; (split; [done|]).
      + split; [set_solver|]. intros y [->|Hy]%elem_of_cons; [|by apply M].
        transitivity (k z); [done|]. apply M. left.
      + split; [set_solver|]. intros y. rewrite !elem_of_cons.
        intros [->|[->|Hy]]; [apply M; left| |apply M; by right].
        transitivity (k b); [lia|]. apply M. left. }
  destruct l as [|b l]; [done|]. intros _. apply G.
Qed.

(** ** Lemmas: log filters *)
Section log_filter_lemmas.
Context {G : Type} `{GML : GraphMapLaws LogFilterNode G} `{ME : ManifestEnv}.

(** Every edge joins a contract and an event. *)
Definition bipartite (g : G) : Prop :=
  forall a b, has_edge g a b ->
    exists c s, (a = NContract c /\ b = NEvent s) \/ (a = NEvent s /\ b = NContract c).

Lemma has_edge_sym (g : G) a b : has_edge g a b -> has_edge g b a.
Proof. unfold has_edge. tauto. Qed.

Lemma empty_no_edge a b : ~ has_edge (gm_empty (G := G)) a b.
Proof. unfold has_edge. rewrite gm_empty_edges. set_solver. Qed.

Lemma no_edges (g : G) a b : gm_edge_count g = 0 -> ~ has_edge g a b.
Proof.
  rewrite gm_count_spec. intros E%nil_length_inv. unfold has_edge. rewrite E. set_solver.
Qed.

Lemma some_edge (g : G) : 0 < gm_edge_count g -> exists a b, has_edge g a b.
Proof.
  rewrite gm_count_spec. destruct (gm_all_edges g) as [|[a b] l] eqn:E; simpl; [lia|].
  intros _. exists a, b. left. rewrite E. left.
Qed.

Lemma log_matches_iff (f : EthereumLogFilter G) l :
  log_matches f l = true <->
  exists sig rest, l_topics l = sig :: rest
  /\ (has_edge (lf_graph f) (NContract (l_address l)) (NEvent sig)
      \/ sig ∈ lf_wildcard_events f).
Proof.
  unfold log_matches. destruct (l_topics l) as [|sig rest]; simpl; [naive_solver|].
  rewrite orb_true_iff, existsb_true_iff, bool_decide_eq_true. unfold has_edge. split.
  - intros H. exists sig, rest. split; [done|]. destruct H as [([s t] & Hin & H)|H]; [|by right].
    left. rewrite orb_true_iff, !andb_true_iff, !bool_decide_eq_true in H.
    destruct H as [[-> ->]|[-> ->]]; tauto.
  - intros (? & ? & [= <- <-] & [[H|H]|H]); [left; eexists; split; [exact H|]..|by right];
      simpl; rewrite !bool_decide_true by done; by rewrite ?orb_true_r.
Qed.

Definition is_edge_of (c : Address) (s : EventSignature) (a b : LogFilterNode) : Prop :=
  (a = NContract c /\ b = NEvent s) \/ (a = NEvent s /\ b = NContract c).

Lemma add_events_spec address sigs (f : EthereumLogFilter G) :
  let f' := foldl (log_filter_add address) f sigs in
  (forall a b, has_edge (lf_graph f') a b <->
     has_edge (lf_graph f) a b
     \/ exists c s, address = Some c /\ s ∈ sigs /\ is_edge_of c s a b)
  /\ (forall s, s ∈ lf_wildcard_events f' <->
     s ∈ lf_wildcard_events f \/ (address = None /\ s ∈ sigs)).
Proof.
  revert f. induction sigs as [|s sigs IH]; intros f; simpl; [set_solver|].
  destruct (IH (log_filter_add address f s)) as [IH1 IH2]. split.
  - intros a b. rewrite IH1. destruct address as [c|]; simpl; [|naive_solver].
    rewrite gm_add_spec. unfold is_edge_of. split.
    + intros [[H|H]|(c' & s' & [= <-] & Hs & H)]; [tauto|right; exists c, s; set_solver|].
      right. exists c, s'. set_solver.
    + intros [H|(c' & s' & [= <-] & [->|Hs]%elem_of_cons & H)]; [tauto|tauto|].
      right. exists c, s'. tauto.
  - intros s'. rewrite IH2. destruct address; simpl; set_solver.
Qed.

(** The edges and wildcards of a filter made from data sources. *)
Lemma from_data_sources_spec (ds : list DataSource) :
  let f := log_filter_from_data_sources (G := G) ds in
  (forall a b, has_edge (lf_graph f) a b <->
     exists d c s, d ∈ ds /\ src_address (ds_source d) = Some c
     /\ s ∈ topic0 <$> m_event_handlers (ds_mapping d) /\ is_edge_of c s a b)
  /\ (forall s, s ∈ lf_wildcard_events f <->
     exists d, d ∈ ds /\ src_address (ds_source d) = None
     /\ s ∈ topic0 <$> m_event_handlers (ds_mapping d)).
Proof.
  unfold log_filter_from_data_sources.
  assert (H : forall f0 : EthereumLogFilter G, let f := foldl (fun this d =>
      foldl (log_filter_add (src_address (ds_source d))) this
        (topic0 <$> m_event_handlers (ds_mapping d))) f0 ds in
    (forall a b, has_edge (lf_graph f) a b <-> has_edge (lf_graph f0) a b \/
       exists d c s, d ∈ ds /\ src_address (ds_source d) = Some c
       /\ s ∈ topic0 <$> m_event_handlers (ds_mapping d) /\ is_edge_of c s a b)
    /\ (forall s, s ∈ lf_wildcard_events f <-> s ∈ lf_wildcard_events f0 \/
       exists d, d ∈ ds /\ src_address (ds_source d) = None
       /\ s ∈ topic0 <$> m_event_handlers (ds_mapping d))).
  { induction ds as [|d ds IH]; intros f0; simpl; [set_solver|].
    destruct (IH (foldl (log_filter_add (src_address (ds_source d))) f0
                    (topic0 <$> m_event_handlers (ds_mapping d)))) as [IH1 IH2].
    destruct (add_events_spec (src_address (ds_source d))
                (topic0 <$> m_event_handlers (ds_mapping d)) f0) as [A1 A2].
    split.
    - intros a b. rewrite IH1, A1. setoid_rewrite elem_of_cons. split.
      + intros [[?|(c & s & ?)]|(d' & c & s & ? & ?)]; [by left|right; exists d, c, s|right; exists d', c, s]; tauto.
      + intros [?|(d' & c & s & [->|?] & ?)]; [tauto|left; right; exists c, s|right; exists d', c, s]; tauto.
    - intros s. rewrite IH2, A2. setoid_rewrite elem_of_cons. split.
      + intros [[?|?]|(d' & ? & ?)]; [by left|right; exists d|right; exists d']; tauto.
      + intros [?|(d' & [->|?] & ?)]; [tauto|tauto|right; exists d'; tauto]. }
  destruct (H log_filter_default) as [H1 H2]. split.
  - intros a b. rewrite H1. simpl. pose proof (empty_no_edge a b). tauto.
  - intros s. rewrite H2. simpl. set_solver.
Qed.

Lemma from_data_sources_bipartite (ds : list DataSource) :
  bipartite (lf_graph (log_filter_from_data_sources (G := G) ds)).
Proof.
  intros a b H. apply from_data_sources_spec in H as (d & c & s & _ & _ & _ & H).
  by exists c, s.
Qed.

Lemma extend_spec (f g : EthereumLogFilter G) :
  (forall a b, has_edge (lf_graph (log_filter_extend f g)) a b <->
     has_edge (lf_graph f) a b \/ has_edge (lf_graph g) a b)
  /\ (forall s, s ∈ lf_wildcard_events (log_filter_extend f g) <->
     s ∈ lf_wildcard_events f \/ s ∈ lf_wildcard_events g).
Proof.
  split; [|intros s; simpl; set_solver]. intros a b. simpl. unfold has_edge at 3.
  generalize (gm_all_edges (lf_graph g)) as es. intros es. revert f.
  induction es as [|[s t] es IH]; intros f; simpl; [set_solver|].
  specialize (IH (mk_log_filter (gm_add_edge (lf_graph f) s t) (lf_wildcard_events f))).
  simpl in IH. rewrite IH, gm_add_spec. set_solver.
Qed.

(** *** One round of the loop *)
Definition event_of (n : LogFilterNode) : option EventSignature :=
  match n with NEvent s => Some s | _ => None end.
Definition contract_of (n : LogFilterNode) : option Address :=
  match n with NContract c => Some c | _ => None end.

Lemma vertex_filter_eq (g : G) v :
  vertex_filter g v =
  mk_get_logs
    (option_list (contract_of v) ++ omap contract_of (gm_neighbors g v))
    (option_list (event_of v) ++ omap event_of (gm_neighbors g v)).
Proof.
  unfold vertex_filter.
  assert (H : forall l c s, foldl (fun filter neighbor =>
      match neighbor with
      | NContract address =>
          mk_get_logs (gl_contracts filter ++ [address]) (gl_event_signatures filter)
      | NEvent event_sig =>
          mk_get_logs (gl_contracts filter) (gl_event_signatures filter ++ [event_sig])
      end) (mk_get_logs c s) l = mk_get_logs (c ++ omap contract_of l) (s ++ omap event_of l)).
  { induction l as [|[a|e] l IH]; intros c s; simpl; [by rewrite !app_nil_r| |];
      rewrite IH; by rewrite <- app_assoc. }
  destruct v; apply H.
Qed.

Lemma bipartite_neighbors (g : G) v n :
  bipartite g -> n ∈ gm_neighbors g v ->
  (exists c s, v = NContract c /\ n = NEvent s) \/ (exists c s, v = NEvent s /\ n = NContract c).
Proof.
  intros B Hn%gm_neighbors_spec. destruct (B v n Hn) as (c & s & [[-> ->]|[-> ->]]); eauto.
Qed.

(** The filter of a vertex stands for the edges at that vertex, has exactly one
    contract or exactly one event, and passes the assertions. *)
Lemma vertex_filter_spec (g : G) v :
  bipartite g -> gm_neighbors g v <> [] ->
  filter_asserts (vertex_filter g v) = true
  /\ forall c s, (c ∈ gl_contracts (vertex_filter g v)
                  /\ s ∈ gl_event_signatures (vertex_filter g v))
       <-> has_edge g (NContract c) (NEvent s) /\ (v = NContract c \/ v = NEvent s).
Proof.
  intros B Hn. rewrite vertex_filter_eq. unfold filter_asserts. cbn [gl_contracts gl_event_signatures].
  pose proof (fun n => bipartite_neighbors g v n B) as BN.
  destruct v as [a|e]; simpl.
  - assert (omap contract_of (gm_neighbors g (NContract a)) = []) as ->.
    { apply elem_of_nil_inv. intros x (n & Hin & Hx)%list_elem_of_omap.
      destruct (BN n Hin) as [(? & ? & ? & ->)|(? & ? & [=] & _)]. done. }
    split.
    + destruct (gm_neighbors g (NContract a)) as [|n ns]; [done|].
      destruct (BN n ltac:(left)) as [(? & s & _ & ->)|(? & ? & [=] & _)]. done.
    + intros c s. rewrite list_elem_of_singleton, list_elem_of_omap. split.
      * intros [-> (n & Hin & Hx)]. destruct n; simplify_eq/=.
        split; [by apply gm_neighbors_spec|by left].
      * intros [H [[= ->]|[=]]]. split; [done|]. exists (NEvent s). split; [|done].
        by apply gm_neighbors_spec.
  - assert (omap event_of (gm_neighbors g (NEvent e)) = []) as ->.
    { apply elem_of_nil_inv. intros x (n & Hin & Hx)%list_elem_of_omap.
      destruct (BN n Hin) as [(? & ? & [=] & _)|(? & ? & ? & ->)]. done. }
    split.
    + destruct (gm_neighbors g (NEvent e)) as [|n ns]; [done|].
      destruct (BN n ltac:(left)) as [(? & ? & [=] & _)|(c & ? & _ & ->)]. simpl.
      by rewrite orb_true_r.
    + intros c s. rewrite list_elem_of_singleton, list_elem_of_omap. split.
      * intros [(n & Hin & Hx) ->]. destruct n; simplify_eq/=.
        split; [by apply has_edge_sym, gm_neighbors_spec|by right].
      * intros [H [[=]|[= ->]]]. split; [|done]. exists (NContract c). split; [|done].
        by apply gm_neighbors_spec, has_edge_sym.
Qed.
End log_filter_lemmas.

Section loop.
Context {G : Type} `{GML : GraphMapLaws LogFilterNode G}.

Lemma remove_node_bipartite (g : G) v : bipartite g -> bipartite (gm_remove_node g v).
Proof. intros B a b (H & _ & _)%gm_remove_spec. by apply B. Qed.

Lemma max_vertex_spec (g : G) :
  0 < gm_edge_count g ->
  exists v, max_by_key (fun n => length (gm_neighbors g n)) (gm_nodes g) = Some v
            /\ gm_neighbors g v <> [].
Proof.
  intros (a & b & H)%some_edge.
  assert (Ha : a ∈ gm_nodes g) by (eapply gm_nodes_spec, H).
  destruct (max_by_key_spec (fun n => length (gm_neighbors g n)) (gm_nodes g)) as (v & E & _ & M).
  { intros N. rewrite N in Ha. by apply elem_of_nil in Ha. }
  exists v. split; [done|]. specialize (M a Ha). apply gm_neighbors_spec in H.
  destruct (gm_neighbors g a); [by apply elem_of_nil in H|].
  intros Hv. rewrite Hv in M. simpl in M. lia.
Qed.

(** With the number of edges as fuel the loop ends without a panic; what it
    adds stands for the edges of the graph. *)
Lemma logs_filters_loop_total (g : G) fuel acc :
  bipartite g -> gm_edge_count g <= fuel ->
  exists fs, logs_filters_loop fuel g acc = Some (Ok (acc ++ fs))
  /\ Forall (fun f => filter_asserts f = true) fs
  /\ forall c s, has_edge g (NContract c) (NEvent s) <->
       exists f, f ∈ fs /\ c ∈ gl_contracts f /\ s ∈ gl_event_signatures f.
Proof.
  revert g acc. induction fuel as [|fuel IH]; intros g acc B L; cbn [logs_filters_loop];
    case_bool_decide as P; try lia.
  1, 3: exists []; rewrite app_nil_r; (split; [done|]); (split; [constructor|]); intros c s;
    split; [intros H; exfalso; eapply (no_edges g); [lia|done]|by intros (? & ?%elem_of_nil & _)].
  destruct (max_vertex_spec g P) as (v & -> & Hv).
  destruct (vertex_filter_spec g v B Hv) as [-> Hf].
  destruct (IH (gm_remove_node g v) (acc ++ [vertex_filter g v])) as (fs & E & A & H).
  { by apply remove_node_bipartite. }
  { pose proof (gm_remove_count g v). destruct (gm_neighbors g v); simpl in *; [done|lia]. }
  exists (vertex_filter g v :: fs). split; [by rewrite E, <- app_assoc|].
  split. { constructor; [|done]. by apply vertex_filter_spec. }
  intros c s. setoid_rewrite elem_of_cons. specialize (H c s). rewrite gm_remove_spec in H.
  specialize (Hf c s). split.
  - intros He. destruct (decide (NContract c = v)) as [<-|N1];
      [exists (vertex_filter g (NContract c)); split; [by left|]; apply Hf; tauto|].
    destruct (decide (NEvent s = v)) as [<-|N2];
      [exists (vertex_filter g (NEvent s)); split; [by left|]; apply Hf; tauto|].
    destruct (proj1 H) as (f & Hin & Hcs); [done|]. exists f. tauto.
  - intros (f & [->|Hin] & Hcs); [by apply Hf|]. apply H. eauto.
Qed.
End loop.

(** ** Properties of log filters *)
Section log_properties.
Context {G : Type} `{GML : GraphMapLaws LogFilterNode G} `{ME : ManifestEnv}.

(** The log filter of a list of data sources matches a log exactly when
    one of them has the log's address, or none, and a handler for the log's
    first topic. *)
Lemma log_filter_matches_data_sources (ds : list DataSource) (l : Log) :
  log_matches (log_filter_from_data_sources (G := G) ds) l = true
  <-> exists d h sig rest,
        d ∈ ds /\ h ∈ m_event_handlers (ds_mapping d)
        /\ l_topics l = sig :: rest /\ topic0 h = sig
        /\ (src_address (ds_source d) = None \/ src_address (ds_source d) = Some (l_address l)).
Proof.
  destruct (from_data_sources_spec (G := G) ds) as [E W]. cbv zeta in E, W.
  rewrite log_matches_iff. setoid_rewrite E. setoid_rewrite W.
  setoid_rewrite list_elem_of_fmap. unfold is_edge_of. split.
  - intros (sig & rest & T & [(d & c & s & Hd & A & (h & Es & Hh) & [[Ec En]|[Ec _]])
                              |(d & Hd & A & (h & Es & Hh))]); [|done|]; exists d, h, sig, rest.
    + injection Ec as <-. injection En as ->. subst. tauto.
    + subst. tauto.
  - intros (d & h & sig & rest & Hd & Hh & T & <- & [A|A]);
      exists (topic0 h), rest; (split; [done|]).
    + right. exists d. split; [done|]. split; [done|]. by exists h.
    + left. exists d, (l_address l), (topic0 h). split; [done|]. split; [done|].
      split; [by exists h|by left].
Qed.

(** Extending a log filter with another gives a filter that matches what
    either matches; and a filter over a bipartite graph is empty exactly when
    it matches no log. *)
Lemma log_filter_extend_is_union (f g : EthereumLogFilter G) (l : Log) :
  log_matches (log_filter_extend f g) l = log_matches f l || log_matches g l
  /\ (bipartite (lf_graph f) ->
      (log_filter_is_empty f = true <-> forall l', log_matches f l' = false)).
Proof.
  split.
  - apply eq_true_iff_eq. rewrite orb_true_iff, !log_matches_iff.
    destruct (extend_spec f g) as [E W]. setoid_rewrite E. setoid_rewrite W. naive_solver.
  - intros B. unfold log_filter_is_empty. rewrite andb_true_iff, !bool_decide_eq_true. split.
    + intros [E W] l'. apply not_true_is_false. rewrite log_matches_iff.
      intros (sig & rest & _ & [H|H]); [by apply (no_edges _ _ _ E) in H|set_solver].
    + intros N.
      assert (M : forall c s, ~ (has_edge (lf_graph f) (NContract c) (NEvent s)
                                 \/ s ∈ lf_wildcard_events f)).
      { intros c s H. assert (T : log_matches f (mk_log c [s] [] None None None None None) = true)
          by (apply log_matches_iff; by exists s, []). by rewrite N in T. }
      split.
      * destruct (decide (gm_edge_count (lf_graph f) = 0)) as [|P]; [done|]. exfalso.
        destruct (some_edge (lf_graph f)) as (a & b & H); [lia|].
        destruct (B a b H) as (c & s & [[-> ->]|[-> ->]]); eapply M; left; [done|].
        by apply has_edge_sym.
      * apply elem_of_equiv_empty_L. intros s H. apply (M 0%Z s). by right.
Qed.

(** C27: Turning a filter over a bipartite graph into [eth_getLogs] filters
    terminates without failing an assertion, and the calls return together
    exactly the logs the filter matches: no false positives, none missed. *)
Theorem eth_get_logs_filters_exact (f : EthereumLogFilter G) :
  bipartite (lf_graph f) ->
  exists fs, eth_get_logs_filters f = Some (Ok fs)
  /\ forall l, log_matches f l = true <-> exists gf, gf ∈ fs /\ get_logs_returns gf l.
Proof.
  intros B. unfold eth_get_logs_filters.
  destruct (logs_filters_loop_total (lf_graph f) _ (wildcard_filters f) B (le_n _))
    as (fs & E & A & H).
  exists (wildcard_filters f ++ fs). split; [done|]. intros l. rewrite log_matches_iff.
  unfold get_logs_returns, wildcard_filters. split.
  - intros (sig & rest & T & [He|W]).
    + apply H in He as (gf & Hin & Hc & Hs). exists gf.
      split; [apply elem_of_app; by right|]. split; [by exists sig, rest|by right].
    + exists (mk_get_logs [] [sig]). split.
      * apply elem_of_app; left. apply list_elem_of_fmap. exists sig. by rewrite elem_of_elements.
      * split; [exists sig, rest; split; [done|left]|by left].
  - intros (gf & [Hin|Hin]%elem_of_app & (sig & rest & T & Hs) & Hc); exists sig, rest;
      (split; [done|]).
    + right. apply list_elem_of_fmap in Hin as (e & -> & He%elem_of_elements). simpl in Hs.
      by apply list_elem_of_singleton in Hs as ->.
    + left. apply H. exists gf. split; [done|]. split; [|done].
      destruct Hc as [Hc|Hc]; [|done]. rewrite Forall_forall in A. specialize (A gf Hin).
      unfold filter_asserts in A. by rewrite Hc in A.
Qed.
End log_properties.

(** ** Lemmas: call filters *)
Section call_lemmas.
Open Scope Z_scope.

Lemma call_filter_add_lookup m s a f b :
  call_filter_add m (s, a, f) !! b =
  if decide (a = b)
  then Some (match m !! a with
             | None => (s, {[f]})
             | Some (s0, fs) => (s `min` s0, {[f]} ∪ fs)
             end)
  else m !! b.
Proof.
  unfold call_filter_add. case_decide as E.
  - subst b. destruct (m !! a) as [[s0 fs]|] eqn:El.
    + rewrite lookup_alter_eq, El. simpl. do 2 f_equal. case_decide; lia.
    + rewrite lookup_alter_eq, lookup_insert_eq. simpl.
      rewrite decide_False by lia. by rewrite union_empty_r_L.
  - destruct (m !! a); rewrite lookup_alter_ne by done; [done|].
    by rewrite lookup_insert_ne by done.
Qed.

(** What a filter made from entries holds for an address. *)
Definition entry_of (l : list (Z * Address * Selector)) (a : Address) (x : Z * gset Selector) : Prop :=
  (forall f, f ∈ snd x <-> exists s, (s, a, f) ∈ l)
  /\ (forall s f, (s, a, f) ∈ l -> fst x <= s)
  /\ exists f, (fst x, a, f) ∈ l.

Lemma call_filter_from_iter_lookup l a :
  match cf_contracts (call_filter_from_iter l) !! a with
  | Some x => entry_of l a x
  | None => forall s f, (s, a, f) ∉ l
  end.
Proof.
  unfold call_filter_from_iter, entry_of. simpl.
  induction l as [|[[s a'] f] l IH] using rev_ind; simpl.
  - rewrite lookup_empty. set_solver.
  - rewrite foldl_snoc, call_filter_add_lookup. case_decide as E.
    + subst a'. simpl. destruct (foldl call_filter_add ∅ l !! a) as [[s0 fs]|]; simpl in *.
      * destruct IH as (I1 & I2 & (f0 & I3)). repeat split.
        -- rewrite elem_of_union, elem_of_singleton, I1.
           intros [->|[s1 ?]]; [exists s|exists s1]; set_solver.
        -- intros [s1 H]. apply elem_of_union. rewrite I1. set_solver.
        -- intros s1 f1 [H|H]%elem_of_app; [specialize (I2 _ _ H); lia|].
           apply list_elem_of_singleton in H as [= -> ->]. lia.
        -- destruct (Z.min_spec s s0) as [[_ ->]|[_ ->]]; [exists f|exists f0]; set_solver.
      * split; [|split].
        -- intros f1. rewrite elem_of_singleton. split.
           ++ intros ->. exists s. set_solver.
           ++ intros [s1 [H|H]%elem_of_app]; [by apply IH in H|].
              by apply list_elem_of_singleton in H as [= _ ->].
        -- intros s1 f1 [H|H]%elem_of_app; [by apply IH in H|].
           apply list_elem_of_singleton in H as [= -> _]. done.
        -- exists f. set_solver.
    + assert (Hin : forall s1 f1, (s1, a, f1) ∈ l ++ [(s, a', f)] <-> (s1, a, f1) ∈ l).
      { intros s1 f1. rewrite elem_of_app, list_elem_of_singleton. naive_solver. }
      destruct (foldl call_filter_add ∅ l !! a) as [x|]; [|set_solver].
      setoid_rewrite Hin. exact IH.
Qed.

Definition merge_entry (x y : option (Z * gset Selector)) : option (Z * gset Selector) :=
  match x, y with
  | Some (s1, f1), Some (s2, f2) => Some (s2 `min` s1, f1 ∪ f2)
  | Some x, None => Some x
  | None, y => y
  end.

Lemma call_filter_extend_lookup f g a :
  cf_contracts (call_filter_extend f g) !! a
  = merge_entry (cf_contracts f !! a) (cf_contracts g !! a).
Proof.
  unfold call_filter_extend. simpl.
  assert (H : forall l m, NoDup (fst <$> l) ->
    foldl call_filter_merge m l !! a = merge_entry (m !! a) ((list_to_map l : gmap _ _) !! a)).
  { induction l as [|[b [s2 f2]] l IH]; intros m N; simpl.
    - rewrite lookup_empty. by destruct (m !! a) as [[? ?]|].
    - apply NoDup_cons in N as [Hb N]. rewrite IH by done.
      assert (Hl : (list_to_map l : gmap Address (Z * gset Selector)) !! b = None)
        by by apply not_elem_of_list_to_map_1.
      destruct (decide (b = a)) as [->|Ne].
      + rewrite lookup_insert_eq, Hl.
        destruct (m !! a) as [[s1 f1]|]; by rewrite lookup_insert_eq.
      + rewrite (lookup_insert_ne (list_to_map l)) by done.
        destruct (m !! b) as [[s1 f1]|]; by rewrite lookup_insert_ne. }
  rewrite H by apply NoDup_fst_map_to_list. by rewrite list_to_map_to_list.
Qed.

Definition lists_selector (f : Selector) (x : option (Z * gset Selector)) : Prop :=
  exists y, x = Some y /\ f ∈ snd y.

Lemma elem_of_merge_entry f x y :
  lists_selector f (merge_entry x y) <-> lists_selector f x \/ lists_selector f y.
Proof.
  unfold lists_selector.
  destruct x as [[s1 f1]|], y as [[s2 f2]|]; simpl; split.
  - intros (? & [= <-] & H). simpl in H. apply elem_of_union in H as [H|H]; [left|right]; eauto.
  - intros [(? & [= <-] & H)|(? & [= <-] & H)]; eexists; (split; [done|]);
      apply elem_of_union; [by left|by right].
  - intros (? & [= <-] & H). left. eauto.
  - intros [H|(? & [=] & _)]. done.
  - intros H. by right.
  - intros [(? & [=] & _)|H]. done.
  - intros (? & [=] & _).
  - intros [H|H]; done.
Qed.

(** Every address has selectors: no entry matches all calls. *)
Definition specific (f : EthereumCallFilter) : Prop :=
  map_Forall (fun _ x => snd x <> ∅) (cf_contracts f).

Lemma call_matches_specific f c :
  specific f -> (4 <= length (call_input c))%nat ->
  exists b, call_matches f c = Ok b
  /\ (b = true <-> exists x, cf_contracts f !! call_to c = Some x
                             /\ take 4 (call_input c) ∈ snd x).
Proof.
  intros S L. unfold call_matches, call_selector.
  destruct (cf_contracts f !! call_to c) as [[s sigs]|] eqn:E.
  - specialize (S _ _ E). simpl in S. rewrite bool_decide_eq_false_2 by done.
    rewrite decide_True by done. eexists. split; [reflexivity|].
    rewrite bool_decide_eq_true. naive_solver.
  - exists false. naive_solver.
Qed.

Lemma from_iter_specific l : specific (call_filter_from_iter l).
Proof.
  intros a x E. pose proof (call_filter_from_iter_lookup l a) as H. rewrite E in H.
  destruct H as (H1 & _ & (f & Hf)). intros N. simpl in N.
  assert (Hin : f ∈ snd x) by (apply H1; eauto). rewrite N in Hin. set_solver.
Qed.

Lemma extend_specific f g : specific f -> specific g -> specific (call_filter_extend f g).
Proof.
  intros Sf Sg a x. rewrite call_filter_extend_lookup.
  destruct (cf_contracts f !! a) as [[s1 f1]|] eqn:Ef, (cf_contracts g !! a) as [[s2 f2]|] eqn:Eg;
    simpl; intros [= <-]; simpl.
  - specialize (Sf _ _ Ef). simpl in Sf. set_solver.
  - by specialize (Sf _ _ Ef).
  - by specialize (Sg _ _ Eg).
Qed.
End call_lemmas.

(** ** Properties of call and block filters *)
Section call_properties.
Context `{ME : ManifestEnv}.

Lemma elem_of_call_entries (ds : list DataSource) s a f :
  (s, a, f) ∈ call_entries ds <->
  exists d h, d ∈ ds /\ src_address (ds_source d) = Some a /\ s = src_start_block (ds_source d)
              /\ h ∈ m_call_handlers (ds_mapping d) /\ f = function_selector h.
Proof.
  unfold call_entries. rewrite list_elem_of_bind. split.
  - intros (d & Hin & Hd). destruct (src_address (ds_source d)) as [b|] eqn:E;
      [|by apply elem_of_nil in Hin].
    apply list_elem_of_fmap in Hin as (h & [= -> -> ->] & Hh). by exists d, h.
  - intros (d & h & Hd & A & -> & Hh & ->). exists d. split; [|done]. rewrite A.
    apply list_elem_of_fmap. by exists h.
Qed.

(** On a call with at least a selector of input, the call filter of a list
    of data sources does not panic and matches exactly when one of them has
    the called address and a call handler for the selector. *)
Lemma call_filter_matches_data_sources (ds : list DataSource) (c : EthereumCall) :
  4 <= length (call_input c) ->
  exists b, call_matches (call_filter_from_data_sources ds) c = Ok b
  /\ (b = true <-> exists d h, d ∈ ds /\ src_address (ds_source d) = Some (call_to c)
        /\ h ∈ m_call_handlers (ds_mapping d)
        /\ function_selector h = take 4 (call_input c)).
Proof.
  intros L.
  destruct (call_matches_specific (call_filter_from_data_sources ds) c) as (b & E & B);
    [apply from_iter_specific|done|].
  exists b. split; [done|]. rewrite B.
  pose proof (call_filter_from_iter_lookup (call_entries ds) (call_to c)) as H.
  unfold call_filter_from_data_sources.
  destruct (cf_contracts _ !! call_to c) as [x|].
  - destruct H as (H1 & _ & _). split.
    + intros (? & [= <-] & Hx). apply H1 in Hx as [s Hs].
      apply elem_of_call_entries in Hs as (d & h & Hd & A & _ & Hh & F). by exists d, h.
    + intros (d & h & Hd & A & Hh & F). exists x. split; [done|]. apply H1.
      exists (src_start_block (ds_source d)). apply elem_of_call_entries. by exists d, h.
  - split; [by intros (? & ? & _)|]. intros (d & h & Hd & A & Hh & F). exfalso.
    apply (H (src_start_block (ds_source d)) (function_selector h)), elem_of_call_entries.
    by exists d, h.
Qed.

(** The start block a call filter keeps for an address is the least start
    block of the data sources with call handlers there. *)
Lemma call_filter_start_block_least (ds : list DataSource) (a : Address)
    (start : Z) (sigs : gset Selector) :
  cf_contracts (call_filter_from_data_sources ds) !! a = Some (start, sigs) ->
  (exists d, d ∈ ds /\ src_address (ds_source d) = Some a /\ src_start_block (ds_source d) = start)
  /\ forall d, d ∈ ds -> src_address (ds_source d) = Some a ->
       m_call_handlers (ds_mapping d) <> [] -> (start <= src_start_block (ds_source d))%Z.
Proof.
  intros E. pose proof (call_filter_from_iter_lookup (call_entries ds) a) as H.
  unfold call_filter_from_data_sources in E. rewrite E in H. destruct H as (_ & H2 & (f & H3)).
  simpl in *. split.
  - apply elem_of_call_entries in H3 as (d & h & Hd & A & -> & _). by exists d.
  - intros d Hd A N. destruct (m_call_handlers (ds_mapping d)) as [|h hs] eqn:Eh; [done|].
    apply (H2 _ (function_selector h)), elem_of_call_entries. exists d, h. rewrite Eh.
    repeat split; try done. left.
Qed.

(** Extending a call filter none of whose entries matches all calls of a
    contract with another such filter gives one that matches what either
    matches; filters made from data sources are such filters. *)
Lemma call_filter_extend_is_union (f g : EthereumCallFilter) (c : EthereumCall) :
  specific f -> specific g -> 4 <= length (call_input c) ->
  specific (call_filter_extend f g)
  /\ exists b1 b2, call_matches f c = Ok b1 /\ call_matches g c = Ok b2
     /\ call_matches (call_filter_extend f g) c = Ok (b1 || b2).
Proof.
  intros Sf Sg L. split; [by apply extend_specific|].
  destruct (call_matches_specific f c Sf L) as (b1 & E1 & B1).
  destruct (call_matches_specific g c Sg L) as (b2 & E2 & B2).
  destruct (call_matches_specific _ c (extend_specific f g Sf Sg) L) as (b & E & B).
  exists b1, b2. split; [done|]. split; [done|]. rewrite E. f_equal. apply eq_true_iff_eq.
  rewrite orb_true_iff, B, B1, B2, call_filter_extend_lookup.
  apply elem_of_merge_entry.
Qed.

Lemma block_filter_snoc (ds : list DataSource) d :
  block_filter_from_data_sources (ds ++ [d]) =
  match src_address (ds_source d) with
  | None => block_filter_from_data_sources ds
  | Some address =>
      block_filter_extend (block_filter_from_data_sources ds) (block_filter_of d address)
  end.
Proof. unfold block_filter_from_data_sources. by rewrite foldl_snoc. Qed.

Lemma trigger_every_block_iff (ds : list DataSource) :
  bf_trigger_every_block (block_filter_from_data_sources ds) = true <->
  exists d h, d ∈ ds /\ is_Some (src_address (ds_source d))
    /\ h ∈ m_block_handlers (ds_mapping d) /\ bh_filter h = None.
Proof.
  induction ds as [|d ds IH] using rev_ind; [set_solver|].
  rewrite block_filter_snoc. setoid_rewrite elem_of_app. setoid_rewrite list_elem_of_singleton.
  destruct (src_address (ds_source d)) as [a|] eqn:A.
  - simpl. rewrite orb_true_iff, IH, existsb_true_iff. setoid_rewrite bool_decide_eq_true. split.
    + intros [(d' & h & Hd & H)|(h & Hh & F)]; [by exists d', h; eauto|].
      exists d, h. split; [by right|]. split; [by rewrite A|done].
    + intros (d' & h & [Hd| ->] & Ha & Hh & F); [left; by exists d', h|right; by exists h].
  - rewrite IH. split; intros (d' & h & H); [exists d', h; tauto|].
    destruct H as ([Hd| ->] & [? Ha] & H); [by exists d', h; eauto|congruence].
Qed.

(** The block filter made from data sources never has a contract address,
    whatever handlers they have; it asks for every block exactly when a data
    source with an address has a block handler without a filter. *)
Lemma block_filter_drops_call_filters (ds : list DataSource) :
  bf_contract_addresses (block_filter_from_data_sources ds) = ∅
  /\ (bf_trigger_every_block (block_filter_from_data_sources ds) = true <->
      exists d h, d ∈ ds /\ is_Some (src_address (ds_source d))
        /\ h ∈ m_block_handlers (ds_mapping d) /\ bh_filter h = None).
Proof.
  split; [|apply trigger_every_block_iff].
  induction ds as [|d ds IH] using rev_ind; [done|].
  rewrite block_filter_snoc. destruct (src_address (ds_source d)); [|done].
  unfold block_filter_extend. simpl. by rewrite IH, elements_empty.
Qed.
End call_properties.

(** ** A concrete graph: the list of its edges *)
Section edge_list.
Context {V : Type} `{EqDecision V}.

Definition incident (a : V) (e : V * V) : Prop := fst e = a \/ snd e = a.

Definition other_end (a : V) (e : V * V) : option V :=
  if decide (fst e = a) then Some (snd e) else if decide (snd e = a) then Some (fst e) else None.

#[export] Instance edge_list_graph : GraphMap V (list (V * V)) := {|
  gm_empty := [];
  gm_add_edge := fun g a b =>
    if decide ((a, b) ∈ g \/ (b, a) ∈ g) then g else g ++ [(a, b)];
  gm_all_edges := fun g => g;
  gm_edge_count := fun g => length g;
  gm_nodes := fun g => remove_dups (g ≫= (fun e => [fst e; snd e]));
  gm_neighbors := fun g a => omap (other_end a) g;
  gm_remove_node := fun g a => filter (fun e => ~ incident a e) g;
|}.

#[export] Instance edge_list_laws : GraphMapLaws V (list (V * V)).
Proof.
  split; unfold has_edge; simpl.
  - done.
  - intros g a b x y. case_decide as D; [|set_solver].
    split; [tauto|]. intros [?|[[-> ->]|[-> ->]]]; tauto.
  - done.
  - intros g a b H. rewrite elem_of_remove_dups, list_elem_of_bind.
    destruct H as [H|H]; eexists; (split; [|exact H]); set_solver.
  - intros g a b. rewrite list_elem_of_omap. unfold other_end. split.
    + intros ([x y] & Hin & E). simpl in E. repeat case_decide; simplify_eq; tauto.
    + intros [H|H]; eexists; (split; [exact H|]); simpl; [by rewrite decide_True|].
      case_decide; [by subst|]. by rewrite decide_True.
  - intros g a x y. rewrite !list_elem_of_filter. unfold incident. simpl. tauto.
  - intros g a. induction g as [|e g IH]; [done|]. rewrite filter_cons.
    rewrite omap_cons_eq.
    unfold other_end at 1, incident at 1.
    repeat case_decide; simpl length; try lia; tauto.
Qed.
End edge_list.

(** ** Witnesses *)
Module Witness.
Import Manifest.Witness.
#[local] Existing Instance text_env.

Definition ev (t : Z) : MappingEventHandler := mk_event_handler "E()" (Some t) "handle".
Definition fn (s : string) : MappingCallHandler := mk_call_handler s "handle".
Definition ds1 : DataSource := data_source (Some 1%Z) 5 (mapping [] [fn "abcdef"] [ev 7; ev 8]).
Definition ds2 : DataSource := data_source (Some 2%Z) 3 (mapping [] [] [ev 7]).
Definition ds3 : DataSource := data_source None 0 (mapping [] [] [ev 9]).
Definition lf : EthereumLogFilter (list (LogFilterNode * LogFilterNode)) :=
  log_filter_from_data_sources [ds1; ds2; ds3].
Definition a_log (address topic : Z) : Log := mk_log address [topic] [] None None None None None.
Definition a_call (to : Z) (s : string) : EthereumCall :=
  mk_call 0 to 0 0 (string_bytes s) [] 5 9 None 0.

Example filters_of_lf :
  eth_get_logs_filters lf
  = Some (Ok [mk_get_logs [] [9%Z]; mk_get_logs [1%Z; 2%Z] [7%Z]; mk_get_logs [1%Z] [8%Z]]).
Proof. vm_compute. reflexivity. Qed.

Lemma log_filter_matches_data_sources_witness :
  log_matches lf (a_log 2 7) = true
  /\ exists d h sig rest, d ∈ [ds1; ds2; ds3] /\ h ∈ m_event_handlers (ds_mapping d)
       /\ l_topics (a_log 2 7) = sig :: rest /\ topic0 h = sig.
Proof.
  assert (H : log_matches lf (a_log 2 7) = true) by (vm_compute; reflexivity).
  split; [exact H|].
  destruct (proj1 (log_filter_matches_data_sources _ _) H)
    as (d & h & sig & rest & A & B & C & D & _).
  exact (ex_intro _ d (ex_intro _ h (ex_intro _ sig (ex_intro _ rest
           (conj A (conj B (conj C D))))))).
Defined.

Lemma log_filter_extend_is_union_witness :
  log_matches (log_filter_extend lf (log_filter_from_data_sources [ds3])) (a_log 5 9) = true
  /\ log_filter_is_empty lf = false.
Proof.
  split.
  - rewrite (proj1 (log_filter_extend_is_union lf (log_filter_from_data_sources [ds3]) _)).
    vm_compute. reflexivity.
  - vm_compute. reflexivity.
Defined.

Lemma eth_get_logs_filters_exact_witness :
  exists fs, eth_get_logs_filters lf = Some (Ok fs)
  /\ exists gf, gf ∈ fs /\ get_logs_returns gf (a_log 2 7).
Proof.
  destruct (eth_get_logs_filters_exact lf (from_data_sources_bipartite _)) as (fs & E & H).
  exists fs. split; [exact E|]. apply (H (a_log 2 7)). vm_compute. reflexivity.
Defined.

Lemma call_filter_matches_data_sources_witness :
  4 <= length (call_input (a_call 1 "abcd"))
  /\ exists b, call_matches (call_filter_from_data_sources [ds1; ds2]) (a_call 1 "abcd") = Ok b.
Proof.
  assert (L : 4 <= length (call_input (a_call 1 "abcd"))) by (vm_compute; lia).
  split; [exact L|].
  destruct (call_filter_matches_data_sources [ds1; ds2] _ L) as (b & E & _).
  exists b. exact E.
Defined.

Lemma call_filter_extend_is_union_witness :
  specific (call_filter_extend (call_filter_from_data_sources [ds1])
                               (call_filter_from_data_sources [ds2])).
Proof.
  refine (proj1 (call_filter_extend_is_union _ _ (a_call 1 "abcd") _ _ _)).
  - apply from_iter_specific.
  - apply from_iter_specific.
  - vm_compute. lia.
Defined.

(** An entry for all calls of a contract is narrowed by an extension. *)
Example extension_narrows :
  let all := mk_call_filter {[1%Z := (0%Z, ∅)]} in
  call_matches all (a_call 1 "zzzz") = Ok true
  /\ call_matches (call_filter_extend all (call_filter_from_data_sources [ds1]))
       (a_call 1 "zzzz") = Ok false.
Proof. split; vm_compute; reflexivity. Qed.
End Witness.
