(* ===== verification/Triggers.v ===== *)
(** * Finding the triggers of blocks

    Models the functions of [graph/src/components/ethereum/adapter.rs] that
    extract the triggers of a block or of a range of blocks.  The Ethereum
    adapter (RPC calls) is the interface [EthereumAdapter]; the futures of a
    range query complete in an order the adapter determines ([completion]).
    When several of them fail the model reports the first in program order. *)

From stdpp Require Import prelude list strings gmap fin_maps sorting.
From Stdlib Require Import ZArith Lia.
From S2P Require Import Prelude.
From S2P Require Import Sorting.
From S2P Require Import EthTypes.
From S2P Require Import EthFilters.

Class EthereumAdapter (G : Type) := {
  AdapterError : Type;
  logs_in_block_range : Z -> Z -> EthereumLogFilter G -> res AdapterError (list Log);
  calls_in_block_range : Z -> Z -> EthereumCallFilter -> res AdapterError (list EthereumCall);
  block_range_to_ptrs : Z -> Z -> res AdapterError (list EthereumBlockPointer);
  block_hash_by_block_number : Z -> bool -> res AdapterError (option H256);
  load_blocks : gset H256 -> res AdapterError (list LightEthereumBlock);
  completion : list (list EthereumTrigger) -> list (list EthereumTrigger);
}.

Section triggers.
Context {G : Type} `{GM : GraphMap LogFilterNode G} `{EA : EthereumAdapter G}.

Inductive BlocksError :=
| FromAdapter (e : AdapterError)
| NotInChain (number : Z)
| NoTriggersForBlock (block : LightEthereumBlock).

(** ** Triggers of a block at hand *)
Definition parse_log_triggers (log_filter : EthereumLogFilter G) (block : EthereumBlock)
  : list EthereumTrigger :=
  eb_transaction_receipts block ≫= (fun receipt =>
    TLog <$> filter (fun log => log_matches log_filter log) (r_logs receipt)).

Definition parse_call_triggers (call_filter : EthereumCallFilter) (block : EthereumBlockWithCalls)
  : res Empty_set (list EthereumTrigger) :=
  let? calls := filter_res (call_matches call_filter) (bwc_calls block) in
  Ok (TCall <$> calls).

Definition parse_block_triggers (block_filter : EthereumBlockFilter)
    (block : EthereumBlockWithCalls) : res Empty_set (list EthereumTrigger) :=
  let? block_ptr := ptr_of_ethereum_block (bwc_ethereum_block block) in
  let trigger_every_block := bf_trigger_every_block block_filter in
  let call_filter := call_filter_of_block_filter block_filter in
  let? calls := filter_res (call_matches call_filter) (bwc_calls block) in
  let triggers := (fun call => TBlock block_ptr (WithCallTo (call_to call))) <$> calls in
  Ok (if trigger_every_block then triggers ++ [TBlock block_ptr Every] else triggers).

(** ** Triggers of a range of blocks *)

(** The queries of [blocks_with_triggers], as results. *)
Definition range_queries (from to : Z) (log_filter : EthereumLogFilter G)
    (call_filter : EthereumCallFilter) (block_filter : EthereumBlockFilter)
  : list (res AdapterError (list EthereumTrigger)) :=
  (if log_filter_is_empty log_filter then []
   else [res_map (fmap TLog) (logs_in_block_range from to log_filter)])
  ++ (if call_filter_is_empty call_filter then []
      else [res_map (fmap TCall) (calls_in_block_range from to call_filter)])
  ++ (if bf_trigger_every_block block_filter
      then [res_map (fmap (fun ptr => TBlock ptr Every)) (block_range_to_ptrs from to)]
      else if negb (bool_decide (bf_contract_addresses block_filter = ∅))
      then [res_map (fmap (fun call => TBlock (ptr_of_call call) (WithCallTo (call_to call))))
              (calls_in_block_range from to (call_filter_of_block_filter block_filter))]
      else []).

Definition group_step (map : gmap Z (list EthereumTrigger)) (t : EthereumTrigger)
  : res Empty_set (gmap Z (list EthereumTrigger)) :=
  let? n := trigger_block_number t in
  Ok (<[n := default [] (map !! n) ++ [t]]> map).

Definition assemble_step (s : list EthereumBlockWithTriggers * gmap Z (list EthereumTrigger))
    (block : LightEthereumBlock)
  : res BlocksError (list EthereumBlockWithTriggers * gmap Z (list EthereumTrigger)) :=
  let? n := lift_panic (light_number block) in
  match snd s !! n with
  | Some triggers =>
      let? b := lift_panic (block_with_triggers_new triggers (Final block)) in
      Ok (fst s ++ [b], delete n (snd s))
  | None => Err (NoTriggersForBlock block)
  end.

Definition number_cmp (a b : EthereumBlockWithTriggers) : res Empty_set comparison :=
  let? x := finality_number (bwt_ethereum_block a) in
  let? y := finality_number (bwt_ethereum_block b) in
  Ok (Z.compare x y).

Definition blocks_with_triggers (from to : Z) (log_filter : EthereumLogFilter G)
    (call_filter : EthereumCallFilter) (block_filter : EthereumBlockFilter)
  : res BlocksError (list EthereumBlockWithTriggers) :=
  let? results := map_err FromAdapter
    (map_res (fun q => q) (range_queries from to log_filter call_filter block_filter)) in
  let triggers := mjoin (completion results) in
  let? to_hash := map_err FromAdapter (block_hash_by_block_number to true) in
  let? to_hash := ok_or to_hash (NotInChain to) in
  let? hashes := lift_panic (map_res trigger_block_hash triggers) in
  let? triggers_by_block := lift_panic (fold_res group_step ∅ triggers) in
  let block_hashes : gset H256 := {[to_hash]} ∪ list_to_set hashes in
  let triggers_by_block := match triggers_by_block !! to with
                           | None => <[to := []]> triggers_by_block
                           | Some _ => triggers_by_block
                           end in
  let? loaded := map_err FromAdapter (load_blocks block_hashes) in
  let? s := fold_res assemble_step ([], triggers_by_block) loaded in
  lift_panic (sort_by number_cmp (fst s)).

(** [assert!(blocks.len() <= 1)] and [pop] in the case of a final block. *)
Definition triggers_in_block (log_filter : EthereumLogFilter G)
    (call_filter : EthereumCallFilter) (block_filter : EthereumBlockFilter)
    (ethereum_block : BlockFinality) : res BlocksError EthereumBlockWithTriggers :=
  match ethereum_block with
  | Final block =>
      let? n := lift_panic (light_number block) in
      let? blocks := blocks_with_triggers n n log_filter call_filter block_filter in
      if decide (1 < length blocks) then Panic else
      match last blocks with
      | Some b => Ok b
      | None => lift_panic (block_with_triggers_new [] ethereum_block)
      end
  | NonFinal full_block =>
      let logs := parse_log_triggers log_filter (bwc_ethereum_block full_block) in
      let? calls := lift_panic (parse_call_triggers call_filter full_block) in
      let? blocks := lift_panic (parse_block_triggers block_filter full_block) in
      lift_panic (block_with_triggers_new (logs ++ calls ++ blocks) ethereum_block)
  end.
End triggers.

(** ** Lemmas *)
Definition on_block (n : Z) (t : EthereumTrigger) : bool :=
  match trigger_block_number t with Ok m => bool_decide (m = n) | _ => false end.

Lemma on_block_true n t : on_block n t = true <-> trigger_block_number t = Ok n.
Proof.
  unfold on_block. destruct (trigger_block_number t); rewrite ?bool_decide_eq_true; naive_solver.
Qed.

Lemma consistent_triggers_subset ts ts' :
  (forall t, t ∈ ts' -> t ∈ ts) -> consistent_triggers ts -> consistent_triggers ts'.
Proof. intros S [C1 C2]. split; [eauto|]. intros a b i j Ha Hb. apply C2; auto. Qed.

(** Sorting the triggers of a block, without a panic. *)
Lemma block_with_triggers_new_ok ts b :
  consistent_triggers ts ->
  exists r, block_with_triggers_new ts b = Ok (mk_block_with_triggers b r)
  /\ r ≡ₚ ts /\ StronglySorted runs_before r.
Proof.
  intros CT. exists (sort_pure pure_cmp ts). unfold block_with_triggers_new.
  rewrite (sort_by_ok pure_cmp) by (intros; by apply (trigger_cmp_pure ts CT)).
  split; [done|]. split; [apply sort_pure_perm|].
  destruct (sort_pure_stable_sorted pure_cmp _ (pure_cmp_preorder ts CT) ts) as (P & S & _);
    [by apply Forall_forall|]. by apply (sorted_runs_before ts CT).
Qed.

(** The grouping loop collects the triggers of each block in their order. *)
Lemma group_loop ts (m0 : gmap Z (list EthereumTrigger)) :
  (forall t, t ∈ ts -> exists n, trigger_block_number t = Ok n) ->
  exists m, fold_res group_step m0 ts = Ok m
  /\ forall n, m !! n = match filter (on_block n) ts with
                        | [] => m0 !! n
                        | f => Some (default [] (m0 !! n) ++ f)
                        end.
Proof.
  revert m0. induction ts as [|t ts IH]; intros m0 Hn; [by exists m0|].
  rewrite fold_res_cons. unfold group_step at 1.
  destruct (Hn t ltac:(left)) as [n Hnt]. rewrite Hnt. cbn [res_bind].
  destruct (IH (<[n:=default [] (m0 !! n) ++ [t]]> m0)) as (m & E & H).
  { intros t' Ht'. apply Hn. by right. }
  exists m. split; [done|]. intros k. rewrite H, filter_cons.
  destruct (decide (k = n)) as [->|Ne].
  - rewrite lookup_insert_eq, decide_True by by apply Is_true_true, on_block_true.
    simpl. destruct (filter (on_block n) ts); [done|]. by rewrite <- app_assoc.
  - rewrite lookup_insert_ne by done. rewrite decide_False; [done|].
    intros T%Is_true_true%on_block_true. congruence.
Qed.

(** Blocks with their numbers, every one of them grouped: the assembling loop
    finds each, whatever the order they are loaded in. *)
Lemma assemble_loop {G} `{EA : EthereumAdapter G} (num : LightEthereumBlock -> Z) bs acc m :
  (forall b, b ∈ bs -> b_number b = Some (num b)) -> NoDup (num <$> bs) ->
  (forall b, b ∈ bs -> exists ts, m !! num b = Some ts /\ consistent_triggers ts) ->
  exists r m', fold_res assemble_step (acc, m) bs = Ok (acc ++ r, m')
  /\ Forall2 (fun b x => bwt_ethereum_block x = Final b
                /\ exists ts, m !! num b = Some ts /\ bwt_triggers x ≡ₚ ts
                   /\ StronglySorted runs_before (bwt_triggers x)) bs r.
Proof.
  revert acc m. induction bs as [|b bs IH]; intros acc m Hn ND Hm.
  { exists [], m. rewrite app_nil_r. by split. }
  apply NoDup_cons in ND as [Nb ND].
  rewrite fold_res_cons. unfold assemble_step at 1, light_number. rewrite (Hn b) by left.
  cbn [unwrap res_bind lift_panic snd fst].
  destruct (Hm b ltac:(left)) as (ts & E & CT). rewrite E.
  destruct (block_with_triggers_new_ok ts (Final b) CT) as (sorted & -> & P & S).
  cbn [res_bind lift_panic].
  destruct (IH (acc ++ [mk_block_with_triggers (Final b) sorted]) (delete (num b) m))
    as (r & m' & E' & F); [intros; apply Hn; by right|done| |].
  { intros b' Hb'. destruct (Hm b' ltac:(by right)) as (ts' & Ets & CT'). exists ts'.
    rewrite lookup_delete_ne; [done|]. intros Eq. apply Nb. rewrite Eq.
    by apply list_elem_of_fmap_2. }
  exists (mk_block_with_triggers (Final b) sorted :: r), m'.
  rewrite E', <- app_assoc. split; [done|]. constructor; [by split; [|exists ts]|].
  eapply Forall2_impl; [exact F|]. intros b' x (Hx & ts' & Ets & Hr). split; [done|].
  exists ts'. split; [|done]. apply lookup_delete_Some in Ets. tauto.
Qed.

(** ** What a node answers about a chain *)
Section range.
Context {G : Type} `{GM : GraphMap LogFilterNode G} `{EA : EthereumAdapter G}.

(** The adapter answers the queries of [blocks_with_triggers] from one chain
    of blocks, [canonical], with the triggers [all]. *)
Record chain_answers (from to : Z) (canonical : Z -> LightEthereumBlock)
    (lf : EthereumLogFilter G) (cf : EthereumCallFilter) (bf : EthereumBlockFilter)
    (all : list EthereumTrigger) : Prop := {
  ca_range : (from <= to)%Z;
  ca_number : forall n, b_number (canonical n) = Some n;
  ca_hash : forall n, exists h, b_hash (canonical n) = Some h;
  ca_hash_inj : forall n m, b_hash (canonical n) = b_hash (canonical m) -> n = m;
  ca_queries : exists results,
    map_res (fun q => q) (range_queries from to lf cf bf) = Ok results /\ all = mjoin results;
  ca_completion : forall results, completion results ≡ₚ results;
  ca_triggers : forall t, t ∈ all -> exists n h, (from <= n <= to)%Z
    /\ trigger_block_number t = Ok n /\ trigger_block_hash t = Ok h
    /\ b_hash (canonical n) = Some h;
  ca_consistent : forall n, consistent_triggers (filter (on_block n) all);
  ca_to : block_hash_by_block_number to true = Ok (b_hash (canonical to));
  ca_load : forall ns : list Z, NoDup ns -> (forall n, n ∈ ns -> (from <= n <= to)%Z) ->
    exists bs, load_blocks (list_to_set (omap (fun n => b_hash (canonical n)) ns)) = Ok bs
               /\ bs ≡ₚ canonical <$> ns;
}.

Definition block_numbers (r : list EthereumBlockWithTriggers) : list Z :=
  omap (fun b => b_number (light_block (bwt_ethereum_block b))) r.

Lemma StronglySorted_strict (l : list Z) :
  StronglySorted Z.le l -> NoDup l -> StronglySorted Z.lt l.
Proof.
  induction 1 as [|x l S IH F]; [constructor|]. intros [Nx ND]%NoDup_cons.
  constructor; [auto|]. rewrite Forall_forall in F |- *. intros y Hy.
  specialize (F y Hy). assert (x <> y) by (intros ->; done). lia.
Qed.

Lemma omap_numbers canonical ns :
  (forall n : Z, b_number (canonical n) = Some n) ->
  forall r, Forall2 (fun n x => bwt_ethereum_block x = Final (canonical n)) ns r ->
  block_numbers r = ns.
Proof.
  intros Hn r F. unfold block_numbers. induction F as [|n x ns r Hx _ IH]; [done|].
  rewrite omap_cons_eq, Hx. simpl. by rewrite Hn, IH.
Qed.

(** Sorting blocks with known numbers. *)
Lemma number_sort r :
  (forall b, b ∈ r -> exists n, finality_number (bwt_ethereum_block b) = Ok n) ->
  exists r', sort_by number_cmp r = Ok r' /\ r' ≡ₚ r
  /\ StronglySorted Z.le (block_numbers r').
Proof.
  intros Hr.
  set (key := fun b : EthereumBlockWithTriggers =>
                match finality_number (bwt_ethereum_block b) with Ok n => n | _ => 0%Z end).
  exists (sort_pure (fun x y => Z.compare (key x) (key y)) r).
  rewrite (sort_by_ok (fun x y => Z.compare (key x) (key y))).
  2:{ intros x y Hx Hy. unfold number_cmp, key.
      destruct (Hr x Hx) as [nx ->], (Hr y Hy) as [ny ->]. done. }
  split; [done|]. split; [apply sort_pure_perm|].
  destruct (sort_pure_stable_sorted _ _ (key_total_preorder key (fun _ => True)) r)
    as (P & S & _); [by apply Forall_true|].
  set (r' := sort_pure _ r) in *.
  assert (Hr' : Forall (fun b => b_number (light_block (bwt_ethereum_block b)) = Some (key b)) r').
  { apply Forall_forall. intros b Hb. rewrite <- P in Hb. destruct (Hr b Hb) as [n Hn].
    unfold key. destruct (bwt_ethereum_block b); simpl in *; unfold light_number in *;
      by destruct (b_number _); simplify_eq/=. }
  clearbody r'. clear P. unfold block_numbers.
  induction S as [|b l S IH F]; [constructor|]. apply Forall_cons in Hr' as [Hb Hl].
  rewrite omap_cons_eq, Hb. constructor; [by apply IH|].
  apply Forall_forall. intros n (b' & Hb' & En)%list_elem_of_omap.
  rewrite Forall_forall in F, Hl. rewrite (Hl b' Hb') in En. injection En as <-.
  specialize (F b' Hb'). unfold cle in F. by rewrite Z.compare_gt_iff, Z.nlt_ge in F.
Qed.
End range.

(** ** Properties *)
Section properties.
Context {G : Type} `{GML : GraphMapLaws LogFilterNode G} `{EA : EthereumAdapter G}.

Definition trigger_no (t : EthereumTrigger) : Z :=
  match trigger_block_number t with Ok n => n | _ => 0%Z end.

(** The blocks of the answer: the last one and those with a trigger. *)
Definition wanted_numbers (to : Z) (ts : list EthereumTrigger) : gset Z :=
  {[to]} ∪ list_to_set (trigger_no <$> ts).

Lemma elem_of_wanted_numbers to ts n :
  (forall t, t ∈ ts -> exists k, trigger_block_number t = Ok k) ->
  n ∈ wanted_numbers to ts <-> n = to \/ exists t, t ∈ ts /\ trigger_block_number t = Ok n.
Proof.
  intros Hn. unfold wanted_numbers.
  rewrite elem_of_union, elem_of_singleton, elem_of_list_to_set, list_elem_of_fmap.
  unfold trigger_no. split; (intros [H|(t & H1 & H2)]; [by left|right; exists t]).
  - destruct (Hn t H2) as [k E]. rewrite E in H1. by subst.
  - by rewrite H2.
Qed.

Lemma wanted_grouped to ts (m : gmap Z (list EthereumTrigger)) n :
  (forall t, t ∈ ts -> exists k, trigger_block_number t = Ok k) ->
  (forall n, m !! n = match filter (on_block n) ts with
                      | [] => (∅ : gmap Z (list EthereumTrigger)) !! n
                      | f => Some (default [] ((∅ : gmap Z (list EthereumTrigger)) !! n) ++ f)
                      end) ->
  n ∈ wanted_numbers to ts ->
  match m !! to with None => <[to:=[]]> m | Some _ => m end !! n = Some (filter (on_block n) ts).
Proof.
  intros Hn Hm0 W.
  assert (Hm : forall k, m !! k = match filter (on_block k) ts with [] => None | f => Some f end)
    by (intros k; by rewrite Hm0, lookup_empty). clear Hm0.
  assert (Hne : filter (on_block n) ts <> [] -> m !! n = Some (filter (on_block n) ts)).
  { rewrite Hm. by destruct (filter (on_block n) ts). }
  apply elem_of_wanted_numbers in W as [->|(t & Ht & En)]; [| |done].
  - rewrite (Hm to). destruct (filter (on_block to) ts) as [|x f] eqn:Ef.
    + by rewrite lookup_insert_eq.
    + by apply Hne.
  - assert (Ne : filter (on_block n) ts <> []).
    { intros N. apply (filter_nil_not_elem_of _ _ t N); [|done].
      by apply Is_true_true, on_block_true. }
    destruct (m !! to) eqn:Eto; [by apply Hne|].
    destruct (decide (n = to)) as [->|Nt]; [rewrite Hne in Eto; done|].
    rewrite lookup_insert_ne by done. by apply Hne.
Qed.

(** The hashes collected from the triggers are those of the wanted blocks. *)
Lemma wanted_hashes (canonical : Z -> LightEthereumBlock) to h_to ts :
  (forall n, exists h, b_hash (canonical n) = Some h) ->
  b_hash (canonical to) = Some h_to ->
  ({[h_to]} ∪ list_to_set ((fun t => default 0%Z (b_hash (canonical (trigger_no t)))) <$> ts)
    : gset H256)
  = list_to_set (omap (fun n => b_hash (canonical n)) (elements (wanted_numbers to ts))).
Proof.
  intros Hash Eto. apply set_eq. intros h.
  rewrite elem_of_union, elem_of_singleton, !elem_of_list_to_set, list_elem_of_fmap,
    list_elem_of_omap. unfold wanted_numbers.
  setoid_rewrite elem_of_elements. setoid_rewrite elem_of_union.
  setoid_rewrite elem_of_singleton. setoid_rewrite elem_of_list_to_set.
  setoid_rewrite list_elem_of_fmap. split.
  - intros [->|(t & -> & Ht)]; [exists to; tauto|]. exists (trigger_no t).
    destruct (Hash (trigger_no t)) as [h ->]. split; [right; by exists t|done].
  - intros (n & [->|(t & -> & Ht)] & En); [left; congruence|].
    right. exists t. by rewrite En.
Qed.

Lemma finish_blocks canonical all ts ns bs r num (m2 : gmap Z (list EthereumTrigger)) to :
  (forall n, b_number (canonical n) = Some n) ->
  (forall b, b ∈ bs -> exists n, n ∈ ns /\ b = canonical n) ->
  (forall n, num (canonical n) = n) ->
  num <$> bs ≡ₚ ns -> NoDup ns -> ts ≡ₚ all ->
  (forall n, n ∈ ns -> m2 !! n = Some (filter (on_block n) ts)) ->
  (forall n, n ∈ ns <-> n = to \/ exists t, t ∈ all /\ trigger_block_number t = Ok n) ->
  Forall2 (fun b x => bwt_ethereum_block x = Final b
             /\ exists ts, m2 !! num b = Some ts /\ bwt_triggers x ≡ₚ ts
                /\ StronglySorted runs_before (bwt_triggers x)) bs r ->
  exists r', lift_panic (E := BlocksError) (sort_by number_cmp r) = Ok r'
  /\ StronglySorted Z.lt (block_numbers r')
  /\ (forall n, n ∈ block_numbers r' <->
        n = to \/ exists t, t ∈ all /\ trigger_block_number t = Ok n)
  /\ (forall b, b ∈ r' -> exists n, bwt_ethereum_block b = Final (canonical n)
        /\ bwt_triggers b ≡ₚ filter (on_block n) all
        /\ StronglySorted runs_before (bwt_triggers b)).
Proof.
  intros Num Hbs Hc Pn ND Pts Hm2 Hns F.
  assert (Hr : forall x, x ∈ r -> exists n, n ∈ ns /\ bwt_ethereum_block x = Final (canonical n)
    /\ bwt_triggers x ≡ₚ filter (on_block n) all /\ StronglySorted runs_before (bwt_triggers x)).
  { intros x (k & Hk)%list_elem_of_lookup.
    destruct (Forall2_lookup_r _ _ _ _ _ F Hk) as (b & Hb & Ex & ts' & Ets & Px & Sx).
    destruct (Hbs b) as (n & Hn & ->); [by eapply list_elem_of_lookup_2|].
    rewrite Hc, (Hm2 n Hn) in Ets. injection Ets as <-.
    exists n. split; [done|]. split; [done|]. split; [by rewrite Px, Pts|done]. }
  assert (En : block_numbers r = num <$> bs).
  { unfold block_numbers. clear Hr Pn. induction F as [|b x bs r (Ex & _) _ IH]; [done|].
    rewrite omap_cons_eq, Ex. destruct (Hbs b) as (n & _ & ->); [by left|].
    simpl. rewrite Num. fold block_numbers in IH. rewrite IH, Hc; [done|].
    intros b' Hb'. apply Hbs. by right. }
  destruct (number_sort r) as (r' & -> & P & S).
  { intros b Hb. destruct (Hr b Hb) as (n & _ & E & _). exists n. rewrite E. simpl.
    unfold light_number. by rewrite Num. }
  exists r'. split; [done|].
  assert (Pr : block_numbers r' ≡ₚ ns) by (unfold block_numbers in *; by rewrite P, En).
  split; [apply StronglySorted_strict; [done|by rewrite Pr]|].
  split; [intros n; by rewrite Pr|]. intros b Hb. rewrite P in Hb.
  destruct (Hr b Hb) as (n & _ & ?). by exists n.
Qed.

Lemma range_blocks_found (from to : Z) (canonical : Z -> LightEthereumBlock)
    (lf : EthereumLogFilter G) (cf : EthereumCallFilter) (bf : EthereumBlockFilter)
    (all : list EthereumTrigger) :
  chain_answers from to canonical lf cf bf all ->
  exists r, blocks_with_triggers from to lf cf bf = Ok r
  /\ StronglySorted Z.lt (block_numbers r)
  /\ (forall n, n ∈ block_numbers r <->
        n = to \/ exists t, t ∈ all /\ trigger_block_number t = Ok n)
  /\ (forall b, b ∈ r -> exists n, bwt_ethereum_block b = Final (canonical n)
        /\ bwt_triggers b ≡ₚ filter (on_block n) all
        /\ StronglySorted runs_before (bwt_triggers b)).
Proof.
  intros [Rg Num Hash Inj (results & Q & ->) Comp Trig Cons To Load].
  unfold blocks_with_triggers. rewrite Q, To. cbn [map_err res_bind].
  destruct (Hash to) as [h_to Eto]. rewrite Eto. cbn [ok_or res_bind].
  set (ts := mjoin (completion results)).
  assert (Pts : ts ≡ₚ mjoin results) by by apply join_Permutation.
  set (hsh := fun t => default 0%Z (b_hash (canonical (trigger_no t)))).
  assert (Hts : forall t, t ∈ ts -> exists n h, (from <= n <= to)%Z
    /\ trigger_block_number t = Ok n /\ trigger_block_hash t = Ok h
    /\ b_hash (canonical n) = Some h) by (intros t Ht; rewrite Pts in Ht; by apply Trig).
  rewrite (map_res_all_ok _ hsh).
  2:{ intros t Ht. destruct (Hts t Ht) as (n & h & _ & En & Eh & Ec).
      unfold hsh, trigger_no. by rewrite En, Ec. }
  assert (Hnum : forall t, t ∈ ts -> exists k, trigger_block_number t = Ok k)
    by (intros t Ht; destruct (Hts t Ht) as (n & ? & _ & ? & _); by exists n).
  cbn [lift_panic res_bind].
  destruct (group_loop ts ∅ Hnum) as (m & -> & Hm). cbn [lift_panic res_bind].
  set (m2 := match m !! to with None => _ | _ => _ end).
  unfold hsh. rewrite (wanted_hashes canonical to h_to ts Hash Eto).
  set (ns := elements (wanted_numbers to ts)).
  assert (Hns : forall n, n ∈ ns <->
      n = to \/ exists t, t ∈ ts /\ trigger_block_number t = Ok n)
    by (intros n; unfold ns; rewrite elem_of_elements; by apply elem_of_wanted_numbers).
  destruct (Load ns) as (bs & -> & Pbs); [apply NoDup_elements| |].
  { intros n [->|(t & Ht & En)]%Hns; [lia|].
    destruct (Hts t Ht) as (n' & ? & ? & En' & _). congruence. }
  cbn [map_err res_bind].
  assert (Hbs : forall b, b ∈ bs -> exists n, n ∈ ns /\ b = canonical n).
  { intros b Hb. rewrite Pbs in Hb. apply list_elem_of_fmap in Hb as (n & -> & Hn). eauto. }
  set (num := fun b : LightEthereumBlock => default 0%Z (b_number b)).
  assert (Hc : forall n, num (canonical n) = n) by (intros n; unfold num; by rewrite Num).
  assert (Pn : num <$> bs ≡ₚ ns) by (rewrite Pbs; by rewrite (fmap_inverse canonical num)).
  destruct (assemble_loop num bs [] m2) as (r & m' & -> & F).
  { intros b Hb. destruct (Hbs b Hb) as (n & _ & ->). by rewrite Hc. }
  { rewrite Pn. apply NoDup_elements. }
  { intros b Hb. destruct (Hbs b Hb) as (n & Hn & ->). rewrite Hc.
    exists (filter (on_block n) ts). split; [apply wanted_grouped; [done..|by apply elem_of_elements]|].
    apply (consistent_triggers_subset (filter (on_block n) (mjoin results))); [|done].
    intros t. by rewrite Pts. }
  cbn [res_bind fst app]. apply (finish_blocks canonical (mjoin results) ts ns bs r num m2); try done.
  - apply NoDup_elements.
  - intros n Hn. unfold m2. apply wanted_grouped; [done..|by apply elem_of_elements].
  - intros n. rewrite Hns. split; (intros [?|(t & Ht & ?)]; [by left|right; exists t]);
      by rewrite Pts in *.
Qed.

(** C15: When the adapter answers from one chain, [blocks_with_triggers] does
    not fail, whatever order queries and blocks come in: the blocks are those
    of the chain, in strictly increasing order, exactly the blocks with a
    trigger and the last block of the range, and each has all of its triggers,
    in handler order. *)
Theorem blocks_with_triggers_complete (from to : Z) (canonical : Z -> LightEthereumBlock)
    (lf : EthereumLogFilter G) (cf : EthereumCallFilter) (bf : EthereumBlockFilter)
    (all : list EthereumTrigger) :
  chain_answers from to canonical lf cf bf all ->
  exists r, blocks_with_triggers from to lf cf bf = Ok r
  /\ StronglySorted Z.lt (block_numbers r)
  /\ (forall n, n ∈ block_numbers r <->
        n = to \/ exists t, t ∈ all /\ trigger_block_number t = Ok n)
  /\ (forall b, b ∈ r -> exists n, bwt_ethereum_block b = Final (canonical n)
        /\ bwt_triggers b ≡ₚ filter (on_block n) all
        /\ StronglySorted runs_before (bwt_triggers b)).
Proof. apply range_blocks_found. Qed.
Lemma elem_of_parse_log_triggers (lf : EthereumLogFilter G) b t :
  t ∈ parse_log_triggers lf b <->
  exists receipt l, receipt ∈ eb_transaction_receipts b /\ l ∈ r_logs receipt
    /\ log_matches lf l = true /\ t = TLog l.
Proof.
  unfold parse_log_triggers. rewrite list_elem_of_bind. setoid_rewrite list_elem_of_fmap.
  setoid_rewrite list_elem_of_filter. setoid_rewrite Is_true_true.
  split; intros H; decompose [ex and] H; eauto 10.
Qed.

Definition wants_calls_to (bf : EthereumBlockFilter) (a : Address) : bool :=
  existsb (fun x => bool_decide (snd x = a)) (elements (bf_contract_addresses bf)).

Lemma wants_calls_to_true bf a :
  wants_calls_to bf a = true <-> exists s, (s, a) ∈ bf_contract_addresses bf.
Proof.
  unfold wants_calls_to. rewrite existsb_true_iff. setoid_rewrite bool_decide_eq_true.
  setoid_rewrite elem_of_elements. split.
  - intros ([s a'] & H & E). simpl in E. subst. by exists s.
  - intros [s H]. by exists (s, a).
Qed.

(** Addresses of a block filter match all calls to them. *)
Lemma call_matches_block_filter bf c :
  call_matches (call_filter_of_block_filter bf) c
  = Ok (wants_calls_to bf (call_to c)).
Proof.
  unfold call_matches, call_filter_of_block_filter. simpl.
  assert (H : forall l (m : gmap Address (Z * gset Selector)),
    (exists s, foldl (fun m '(start_block, address) => <[address := (start_block, ∅)]> m) m l
      !! call_to c = Some (s, ∅) /\ (exists s', (s', call_to c) ∈ l))
    \/ (foldl (fun m '(start_block, address) => <[address := (start_block, ∅)]> m) m l
      !! call_to c = m !! call_to c /\ forall s', (s', call_to c) ∉ l)).
  { induction l as [|[s a] l IH]; intros m; simpl; [right; set_solver|].
    destruct (IH (<[a:=(s, ∅)]> m)) as [(s1 & E & [s' Hin])|[E N]].
    - left. exists s1. split; [done|]. exists s'. by right.
    - rewrite E. destruct (decide (a = call_to c)) as [->|Ne].
      + left. exists s. rewrite lookup_insert_eq. split; [done|]. exists s. left.
      + right. rewrite lookup_insert_ne by done. split; [done|].
        intros s' [E'|Hin]%elem_of_cons; [by injection E'|by apply (N s')]. }
  destruct (H (elements (bf_contract_addresses bf)) ∅) as [(s & -> & [s' Hin])|[-> N]].
  - rewrite bool_decide_eq_true_2 by done. f_equal. symmetry. apply wants_calls_to_true.
    exists s'. by apply elem_of_elements.
  - rewrite lookup_empty. f_equal. symmetry. apply not_true_is_false.
    rewrite wants_calls_to_true. intros [s Hin]. apply (N s). by apply elem_of_elements.
Qed.

(** What is to be found in a block. *)
Definition block_has_trigger (lf : EthereumLogFilter G) (cf : EthereumCallFilter)
    (bf : EthereumBlockFilter) (b : EthereumBlockWithCalls) (p : EthereumBlockPointer)
    (t : EthereumTrigger) : Prop :=
  match t with
  | TLog l => exists receipt, receipt ∈ eb_transaction_receipts (bwc_ethereum_block b)
                /\ l ∈ r_logs receipt /\ log_matches lf l = true
  | TCall c => c ∈ bwc_calls b /\ call_matches cf c = Ok true
  | TBlock p' (WithCallTo a) => p' = p /\ (exists s, (s, a) ∈ bf_contract_addresses bf)
                /\ exists c, c ∈ bwc_calls b /\ call_to c = a
  | TBlock p' Every => p' = p /\ bf_trigger_every_block bf = true
  end.

Lemma found_triggers lf cf bf b p t (pc : EthereumCall -> bool) :
  (forall c, c ∈ bwc_calls b -> call_matches cf c = Ok (pc c)) ->
  let calls := (fun call => TBlock p (WithCallTo (call_to call)))
    <$> filter (fun c => wants_calls_to bf (call_to c)) (bwc_calls b) in
  t ∈ parse_log_triggers lf (bwc_ethereum_block b)
      ++ (TCall <$> filter (fun c => pc c) (bwc_calls b))
      ++ (if bf_trigger_every_block bf then calls ++ [TBlock p Every] else calls)
  <-> block_has_trigger lf cf bf b p t.
Proof.
  intros Hpc calls.
  assert (Hcalls : t ∈ calls <-> exists a, t = TBlock p (WithCallTo a)
    /\ (exists s, (s, a) ∈ bf_contract_addresses bf) /\ exists c, c ∈ bwc_calls b /\ call_to c = a).
  { unfold calls. rewrite list_elem_of_fmap. setoid_rewrite list_elem_of_filter.
    setoid_rewrite Is_true_true. setoid_rewrite wants_calls_to_true. split.
    - intros (c & -> & Hs & Hc). exists (call_to c). eauto.
    - intros (a & -> & Hs & c & Hc & <-). by exists c. }
  assert (Hbl : t ∈ (if bf_trigger_every_block bf then calls ++ [TBlock p Every] else calls)
    <-> t ∈ calls \/ (bf_trigger_every_block bf = true /\ t = TBlock p Every)).
  { destruct (bf_trigger_every_block bf); [rewrite elem_of_app, list_elem_of_singleton|];
      naive_solver. }
  rewrite !elem_of_app, Hbl, Hcalls, elem_of_parse_log_triggers, list_elem_of_fmap.
  setoid_rewrite list_elem_of_filter. setoid_rewrite Is_true_true. clear Hcalls Hbl.
  unfold block_has_trigger. destruct t as [p' [|a]|c|l]; split.
  - intros [(?&?&?&?&?&[=])|[(?&[=]&_)|[(?&[=]&_)|[? [= ->]]]]]. done.
  - intros [-> ?]. tauto.
  - intros [(?&?&?&?&?&[=])|[(?&[=]&_)|[(?&[= -> <-]&?)|[? [=]]]]]. done.
  - intros [-> ?]. right. right. left. by exists a.
  - intros [(?&?&?&?&?&[=])|[(?&[= <-]&Hc&?)|[(?&[=]&_)|[? [=]]]]]. by rewrite Hpc, Hc.
  - intros [Hin E]. right. left. exists c. rewrite Hpc in E by done. by injection E.
  - intros [(r&?&?&?&?&[= <-])|[(?&[=]&_)|[(?&[=]&_)|[? [=]]]]]. by exists r.
  - intros (r & ?). left. exists r, l. tauto.
Qed.

Lemma block_triggers_found (lf : EthereumLogFilter G) (cf : EthereumCallFilter)
    (bf : EthereumBlockFilter) (b : EthereumBlockWithCalls) (p : EthereumBlockPointer) :
  ptr_of_ethereum_block (bwc_ethereum_block b) = Ok p ->
  (forall c, c ∈ bwc_calls b -> 4 <= length (call_input c)) ->
  consistent_triggers
    ((eb_transaction_receipts (bwc_ethereum_block b) ≫= (fun r => TLog <$> r_logs r))
     ++ (TCall <$> bwc_calls b)) ->
  exists r, triggers_in_block lf cf bf (NonFinal b) = Ok (mk_block_with_triggers (NonFinal b) r)
  /\ StronglySorted runs_before r
  /\ forall t, t ∈ r <-> block_has_trigger lf cf bf b p t.
Proof.
  intros Hp Hc CT. unfold triggers_in_block, parse_call_triggers, parse_block_triggers.
  set (pc := fun c => match call_matches cf c with Ok b => b | _ => false end).
  assert (Hpc : forall c, c ∈ bwc_calls b -> call_matches cf c = Ok (pc c)).
  { intros c Hin. unfold pc, call_matches, call_selector. specialize (Hc c Hin).
    destruct (cf_contracts cf !! call_to c) as [[s sigs]|]; [|done].
    case_bool_decide; [done|]. by rewrite decide_True. }
  rewrite (filter_res_ok _ _ _ Hpc). cbn [lift_panic res_bind]. rewrite Hp. cbn [res_bind].
  rewrite (filter_res_ok _ (fun c => wants_calls_to bf (call_to c)))
    by (intros; apply call_matches_block_filter).
  cbn [lift_panic res_bind].
  set (all := _ ++ _ ++ _).
  assert (Hall : forall t, t ∈ all <-> block_has_trigger lf cf bf b p t)
    by (intros t; by apply found_triggers).
  destruct (block_with_triggers_new_ok all (NonFinal b)) as (r & -> & P & S).
  { destruct CT as [C1 C2]. split.
    - intros l (receipt & Hr & Hl & _)%Hall. apply C1, elem_of_app. left.
      apply list_elem_of_bind. exists receipt. split; [|done]. by apply list_elem_of_fmap_2.
    - intros l1 l2 i j (r1 & Hr1 & Hl1 & _)%Hall (r2 & Hr2 & Hl2 & _)%Hall.
      apply C2; apply elem_of_app; left; apply list_elem_of_bind;
        [exists r1|exists r2]; (split; [by apply list_elem_of_fmap_2|done]). }
  exists r. split; [done|]. split; [done|]. intros t. by rewrite P.
Qed.

(** The triggers of a block that may still be reorganised are found
    without a panic when the block has a hash and a number and its calls have
    a selector: in handler order, the logs the log filter matches, the calls
    the call filter matches, a block trigger for every call to an address of
    the block filter, and one for the block itself if it asks for every block. *)
Lemma triggers_of_block_at_hand (lf : EthereumLogFilter G) (cf : EthereumCallFilter)
    (bf : EthereumBlockFilter) (b : EthereumBlockWithCalls) (p : EthereumBlockPointer) :
  ptr_of_ethereum_block (bwc_ethereum_block b) = Ok p ->
  (forall c, c ∈ bwc_calls b -> 4 <= length (call_input c)) ->
  consistent_triggers
    ((eb_transaction_receipts (bwc_ethereum_block b) ≫= (fun r => TLog <$> r_logs r))
     ++ (TCall <$> bwc_calls b)) ->
  exists r, triggers_in_block lf cf bf (NonFinal b) = Ok (mk_block_with_triggers (NonFinal b) r)
  /\ StronglySorted runs_before r
  /\ forall t, t ∈ r <-> block_has_trigger lf cf bf b p t.
Proof. apply block_triggers_found. Qed.
End properties.

(** On the way through final blocks a filter that asks for every block hides
    the addresses it also has: no trigger for a call is produced. *)
Lemma every_block_hides_calls {G} `{GM : GraphMap LogFilterNode G} `{EA : EthereumAdapter G}
    from to (lf : EthereumLogFilter G) cf bf results p a :
  bf_trigger_every_block bf = true ->
  map_res (fun q => q) (range_queries from to lf cf bf) = Ok results ->
  TBlock p (WithCallTo a) ∉ mjoin results.
Proof.
  intros Ev R (ts & Hin & Hts)%list_elem_of_join. unfold range_queries in R. rewrite Ev in R.
  apply map_res_Forall2 in R. apply list_elem_of_lookup in Hts as [k Hk].
  destruct (Forall2_lookup_r _ _ _ _ _ R Hk) as (q & Hq & Eq).
  apply list_elem_of_lookup_2 in Hq. rewrite !elem_of_app in Hq.
  destruct Hq as [Hq|[Hq|Hq]];
    [destruct (log_filter_is_empty lf)|destruct (call_filter_is_empty cf)|];
    rewrite ?list_elem_of_singleton in Hq; try (by apply elem_of_nil in Hq); subst q;
    match type of Eq with res_map _ ?m = _ => destruct m; try done end;
    injection Eq as <-; by apply list_elem_of_fmap in Hin as (? & [=] & _).
Qed.

(** ** Witnesses *)
Module Witness.
Abbreviation Graph := (list (LogFilterNode * LogFilterNode)).

Definition canonical (n : Z) : LightEthereumBlock :=
  mk_block (Some (n + 100)%Z) (n + 99) 0 0 0 0 0 (Some n) 0 0 0 0 None None [].

Definition a_log (i : Z) : Log :=
  mk_log 1 [7%Z] [] (Some 104%Z) (Some 4%Z) (Some 0%Z) (Some 0%Z) (Some i).
Definition a_call : EthereumCall := mk_call 0 2 0 0 (replicate 4 Byte.x01) [] 4 104 None 0.

#[local] Instance node : EthereumAdapter Graph := {|
  AdapterError := unit;
  logs_in_block_range := fun _ _ _ => Ok [a_log 1; a_log 0];
  calls_in_block_range := fun _ _ _ => Ok [];
  block_range_to_ptrs := fun from to => Ok [];
  block_hash_by_block_number := fun n _ => Ok (Some (n + 100)%Z);
  load_blocks := fun hs => Ok ((fun h => canonical (h - 100)) <$> elements hs);
  completion := reverse;
|}.

Definition lf : EthereumLogFilter Graph := mk_log_filter [(NContract 1%Z, NEvent 7%Z)] ∅.
Definition cf : EthereumCallFilter := mk_call_filter ∅.
Definition bf : EthereumBlockFilter := mk_block_filter ∅ false.

Lemma logs_consistent ts :
  (forall t, t ∈ ts -> t = TLog (a_log 1) \/ t = TLog (a_log 0) \/ t = TCall a_call) ->
  consistent_triggers ts.
Proof.
  intros H. split.
  - intros l [[= ->]|[[= ->]|[=]]]%H; by eexists.
  - intros a b i j [[= ->]|[[= ->]|[=]]]%H [[= ->]|[[= ->]|[=]]]%H [= <-] [= <-] _; done.
Qed.

Lemma node_answers :
  chain_answers 3 5 canonical lf cf bf [TLog (a_log 1); TLog (a_log 0)].
Proof.
  split.
  - done.
  - done.
  - intros n. by eexists.
  - intros n m [= E]. lia.
  - exists [[TLog (a_log 1); TLog (a_log 0)]]. by split.
  - intros r. apply reverse_Permutation.
  - intros t. rewrite !elem_of_cons, elem_of_nil.
    intros [->|[->|[]]]; exists 4%Z, 104%Z; split; done || lia.
  - intros n. apply logs_consistent. intros t [_ H]%list_elem_of_filter.
    rewrite !elem_of_cons, elem_of_nil in H. tauto.
  - done.
  - intros ns ND _. eexists. split; [reflexivity|].
    assert (E : omap (fun n => b_hash (canonical n)) ns = (fun n => n + 100)%Z <$> ns).
    { induction ns as [|n ns IH]; [done|]. apply NoDup_cons in ND as [_ ND].
      by rewrite omap_cons_eq, IH. }
    rewrite E, elements_list_to_set by (apply NoDup_fmap_2; [intros x y; lia|done]).
    by rewrite (fmap_inverse_to (fun n => n + 100)%Z _ canonical)
      by (intros n; f_equal; lia).
Qed.

Lemma blocks_with_triggers_complete_witness :
  exists r, blocks_with_triggers 3 5 lf cf bf = Ok r /\ block_numbers r = [4%Z; 5%Z].
Proof.
  destruct (blocks_with_triggers_complete 3 5 canonical lf cf bf _ node_answers)
    as (r & E & S & N & _).
  exists r. split; [exact E|].
  apply (f_equal (fun x => match x with Ok r => block_numbers r | _ => [] end)) in E.
  rewrite <- E. vm_compute. reflexivity.
Defined.

Definition full_block : EthereumBlockWithCalls :=
  mk_block_with_calls
    (mk_eth_block (canonical 4) [mk_receipt 0 [a_log 1; a_log 0]]) [a_call].

Lemma triggers_of_block_at_hand_witness :
  exists r, triggers_in_block lf cf (mk_block_filter {[(0%Z, 2%Z)]} true) (NonFinal full_block)
            = Ok (mk_block_with_triggers (NonFinal full_block) r)
  /\ TBlock (mk_ptr 104 4) (WithCallTo 2) ∈ r /\ TBlock (mk_ptr 104 4) Every ∈ r.
Proof.
  destruct (triggers_of_block_at_hand lf cf (mk_block_filter {[(0%Z, 2%Z)]} true) full_block
              (mk_ptr 104 4)) as (r & E & _ & H).
  - reflexivity.
  - intros c ->%list_elem_of_singleton. vm_compute. lia.
  - apply logs_consistent. intros t. simpl. rewrite !elem_of_cons, elem_of_nil. tauto.
  - exists r. split; [exact E|]. split; apply H.
    + split; [reflexivity|]. split; [exists 0%Z; set_solver|].
      exists a_call. split; [by left|reflexivity].
    + split; reflexivity.
Defined.
End Witness.
