(* ===== verification/Hosts.v ===== *)
(** * Runtime hosts and subgraph instances

    Models [runtime/wasm/src/host.rs] (which triggers a host handles, how it
    picks the handler and what it sends to the mapping thread) and
    [core/src/subgraph/instance.rs].  The class [HostEnv] holds the foreign
    parts: the ABI library, version parsing, the builder's environment, and the
    mapping thread itself, [send_mapping_request], which runs a handler on a
    block state of type [St]. *)

From stdpp Require Import prelude list strings gmap fin_maps.
From Stdlib Require Import ZArith Lia.
From Stdlib Require Strings.Byte.
From S2P Require Import Prelude.
From S2P Require Import StoreValue.
From S2P Require Import EthTypes.
From S2P Require Import Manifest.
From S2P Require Import EthFilters.

Class HostEnv (ME : ManifestEnv) := {
  Sender : Type;
  St : Type;
  SendError : Type;
  AbiEvent : Type;
  AbiFunction : Type;
  Token : Type;
  api_version_ok : string -> option bool;
  contract_eqb : Contract -> Contract -> bool;
  contract_event_with_signature : Contract -> string -> option AbiEvent;
  contract_function_with_signature : Contract -> string -> option AbiFunction;
  parse_log : AbiEvent -> list H256 -> list Byte.byte -> option (list Token);
  decode_input : AbiFunction -> list Byte.byte -> option (list Token);
  decode_output : AbiFunction -> list Byte.byte -> option (list Token);
  function_inputs : AbiFunction -> list string;
  function_outputs : AbiFunction -> list string;
  spawn_mapping : list Byte.byte -> res SendError Sender;
  store_for_network : string -> bool;
  adapter_with_capabilities : string -> NodeCapabilities -> bool;
}.

Section hosts.
Context {ME : ManifestEnv} {HE : HostEnv ME}.

(** What a mapping can ask of its host; the services it reaches are parameters
    of the functions that use them. *)
Record HostExports := mk_host_exports {
  he_subgraph_id : string;
  he_api_version : string;
  he_data_source_name : string;
  he_data_source_address : option Address;
  he_data_source_network : string;
  he_data_source_context : option Entity;
  he_causality_region : string;
  he_templates : list DataSourceTemplate;
  he_abis : list MappingABI;
}.

Definition host_exports_new (subgraph_id api_version data_source_name : string)
    (data_source_address : option Address) (data_source_network : string)
    (data_source_context : option Entity) (templates : list DataSourceTemplate)
    (abis : list MappingABI) : HostExports :=
  mk_host_exports subgraph_id api_version data_source_name data_source_address
    data_source_network data_source_context ("ethereum/" +:+ data_source_network) templates abis.

Record RuntimeHostConfig := mk_config {
  rc_subgraph_id : string;
  rc_mapping : Mapping;
  rc_data_source_network : string;
  rc_data_source_name : string;
  rc_data_source_context : option Entity;
  rc_contract : Source;
  rc_templates : list DataSourceTemplate;
}.

Record RuntimeHost := mk_host {
  rh_data_source_name : string;
  rh_contract : Source;
  rh_contract_abi : MappingABI;
  rh_event_handlers : list MappingEventHandler;
  rh_call_handlers : list MappingCallHandler;
  rh_block_handlers : list MappingBlockHandler;
  rh_sender : Sender;
  rh_host_exports : HostExports;
}.

Inductive HostError :=
| InvalidApiVersion (version : string)
| UnsupportedApiVersion (version : string)
| NoAbiEntry (data_source abi : string)
| NoStore (network : string)
| NoAdapter (network : string) (capabilities : NodeCapabilities)
| SpawnFailed (e : SendError)
| DataSourceLimitExceeded (max : nat)
| ErrorsLoadingDataSources (errors : list HostError)
| NoTopics
| NoEventHandler (data_source : string)
| EventNotInAbi (event : string)
| MultipleHandlers (event : string)
| ShortCallInput
| NoCallHandler (data_source : string)
| FunctionNotInAbi (function : string)
| UndecodableInput
| WrongInputCount
| UndecodableOutput
| WrongOutputCount
| NoEveryHandler (data_source : string)
| NoCallToHandler (data_source : string)
| NoTransactionForEvent
| NoTransactionForCall
| MappingFailed (e : SendError).

(** ** Making a host *)
Definition runtime_host_new (config : RuntimeHostConfig) (sender : Sender)
  : res HostError RuntimeHost :=
  let mapping := rc_mapping config in
  let? supported := ok_or (api_version_ok (m_api_version mapping))
                      (InvalidApiVersion (m_api_version mapping)) in
  if negb supported then Err (UnsupportedApiVersion (m_api_version mapping)) else
  let? abi := ok_or
    (snd <$> list_find (fun abi => abi_name abi = src_abi (rc_contract config)) (m_abis mapping))
    (NoAbiEntry (rc_data_source_name config) (src_abi (rc_contract config))) in
  Ok {| rh_data_source_name := rc_data_source_name config;
        rh_contract := rc_contract config;
        rh_contract_abi := abi;
        rh_event_handlers := m_event_handlers mapping;
        rh_call_handlers := m_call_handlers mapping;
        rh_block_handlers := m_block_handlers mapping;
        rh_sender := sender;
        rh_host_exports :=
          host_exports_new (rc_subgraph_id config) (m_api_version mapping)
            (rc_data_source_name config) (src_address (rc_contract config))
            (rc_data_source_network config) (rc_data_source_context config)
            (rc_templates config) (m_abis mapping) |}.

(** [RuntimeHostBuilder::build] *)
Definition host_config (network_name subgraph_id : string) (d : DataSource)
    (top_level_templates : list DataSourceTemplate) : RuntimeHostConfig :=
  {| rc_subgraph_id := subgraph_id;
     rc_mapping := ds_mapping d;
     rc_data_source_network := network_name;
     rc_data_source_name := ds_name d;
     rc_data_source_context := ds_context d;
     rc_contract := ds_source d;
     rc_templates :=
       match top_level_templates with [] => ds_templates d | _ => top_level_templates end |}.

Definition host_build (network_name subgraph_id : string) (d : DataSource)
    (top_level_templates : list DataSourceTemplate) (sender : Sender)
  : res HostError RuntimeHost :=
  if negb (store_for_network network_name) then Err (NoStore network_name) else
  let? caps := lift_panic (required_capabilities (ds_mapping d)) in
  if negb (adapter_with_capabilities network_name caps) then Err (NoAdapter network_name caps) else
  runtime_host_new (host_config network_name subgraph_id d top_level_templates) sender.

(** ** Matching *)
Definition matches_call_address (h : RuntimeHost) (c : EthereumCall) : bool :=
  match src_address (rh_contract h) with None => true | Some addr => bool_decide (addr = call_to c) end.

Definition selects (target_method_id : list Byte.byte) (handler : MappingCallHandler) : bool :=
  bool_decide (target_method_id = function_selector handler).

Definition matches_call_function (h : RuntimeHost) (c : EthereumCall) : res Empty_set bool :=
  let? target_method_id := call_selector c in
  Ok (existsb (selects target_method_id) (rh_call_handlers h)).

Definition matches_log_address (h : RuntimeHost) (l : Log) : bool :=
  match src_address (rh_contract h) with None => true | Some addr => bool_decide (addr = l_address l) end.

Definition matches_log_signature (h : RuntimeHost) (l : Log) : bool :=
  match head (l_topics l) with
  | None => false
  | Some topic => existsb (fun handler => bool_decide (topic = topic0 handler)) (rh_event_handlers h)
  end.

Definition handler_for_block (h : RuntimeHost) (k : EthereumBlockTriggerType)
  : res HostError MappingBlockHandler :=
  match k with
  | Every =>
      ok_or (snd <$> list_find (fun handler => bh_filter handler = None) (rh_block_handlers h))
        (NoEveryHandler (rh_data_source_name h))
  | WithCallTo _ =>
      ok_or (snd <$> list_find (fun handler => bh_filter handler = Some FilterCall)
                       (rh_block_handlers h))
        (NoCallToHandler (rh_data_source_name h))
  end.

Definition matches_block_trigger (h : RuntimeHost) (k : EthereumBlockTriggerType) : bool :=
  let source_address_matches :=
    match k with
    | WithCallTo address =>
        match src_address (rh_contract h) with
        | None => false
        | Some addr => bool_decide (addr = address)
        end
    | Every => true
    end in
  source_address_matches && is_ok (handler_for_block h k).

Definition host_matches_log (h : RuntimeHost) (l : Log) : res Empty_set bool :=
  if matches_log_address h l && matches_log_signature h l then
    let? n := unwrap (l_block_number l) in
    Ok (bool_decide (src_start_block (rh_contract h) <= n)%Z)
  else Ok false.

Definition host_matches_call (h : RuntimeHost) (c : EthereumCall) : res Empty_set bool :=
  if matches_call_address h c then
    let? f := matches_call_function h c in
    Ok (f && bool_decide (src_start_block (rh_contract h) <= call_block_number c)%Z)
  else Ok false.

Definition host_matches_block (h : RuntimeHost) (k : EthereumBlockTriggerType) (n : Z) : bool :=
  matches_block_trigger h k && bool_decide (src_start_block (rh_contract h) <= n)%Z.

(** ** Processing *)
Definition handlers_for_log (h : RuntimeHost) (l : Log) : res HostError (list MappingEventHandler) :=
  let? topic := ok_or (l_topics l !! 0) NoTopics in
  let handlers := filter (fun handler => topic = topic0 handler) (rh_event_handlers h) in
  if bool_decide (length handlers = 0) then Err (NoEventHandler (rh_data_source_name h))
  else Ok handlers.

Definition handler_for_call (h : RuntimeHost) (c : EthereumCall) : res HostError MappingCallHandler :=
  if decide (length (call_input c) < 4) then Err ShortCallInput else
  let? target_method_id := lift_panic (call_selector c) in
  ok_or (snd <$> list_find (selects target_method_id) (rh_call_handlers h))
    (NoCallHandler (rh_data_source_name h)).

Inductive MappingTrigger :=
| MTLog (transaction : Transaction) (log : Log) (params : list Token) (handler : MappingEventHandler)
| MTCall (transaction : Transaction) (call : EthereumCall)
    (inputs outputs : list (string * Token)) (handler : MappingCallHandler)
| MTBlock (handler : MappingBlockHandler).

(** The mapping thread, and the errors that come back from it. *)
Context (send_mapping_request :
  RuntimeHost -> string -> MappingTrigger -> LightEthereumBlock -> St -> res SendError St).

Definition send (h : RuntimeHost) (handler : string) (t : MappingTrigger)
    (b : LightEthereumBlock) (s : St) : res HostError St :=
  map_err MappingFailed (send_mapping_request h handler t b s).

Definition with_event_abi (contract : Contract) (handler : MappingEventHandler)
  : res HostError (MappingEventHandler * AbiEvent) :=
  let? event_abi := ok_or (contract_event_with_signature contract (eh_event handler))
                      (EventNotInAbi (eh_event handler)) in
  Ok (handler, event_abi).

Definition decode_log (l : Log) (x : MappingEventHandler * AbiEvent)
  : option (MappingEventHandler * list Token) :=
  params ← parse_log (snd x) (l_topics l) (l_data l);
  Some (fst x, params).

Definition process_log (h : RuntimeHost) (b : LightEthereumBlock) (tx : Transaction) (l : Log)
    (s : St) : res HostError St :=
  let? potential_handlers := handlers_for_log h l in
  let? valid_handlers :=
    map_res (with_event_abi (abi_contract (rh_contract_abi h))) potential_handlers in
  let matching_handlers := omap (decode_log l) valid_handlers in
  match last matching_handlers with
  | None => Ok s
  | Some (event_handler, params) =>
      if decide (length matching_handlers = 1)
      then send h (eh_handler event_handler) (MTLog tx l params event_handler) b s
      else Err (MultipleHandlers (eh_event event_handler))
  end.

Definition process_call (h : RuntimeHost) (b : LightEthereumBlock) (tx : Transaction)
    (c : EthereumCall) (s : St) : res HostError St :=
  let? call_handler := handler_for_call h c in
  let? function_abi :=
    ok_or (contract_function_with_signature (abi_contract (rh_contract_abi h))
             (ch_function call_handler))
      (FunctionNotInAbi (ch_function call_handler)) in
  let? tokens := ok_or (decode_input function_abi (drop 4 (call_input c))) UndecodableInput in
  if decide (length tokens <> length (function_inputs function_abi)) then Err WrongInputCount else
  let inputs := zip (function_inputs function_abi) tokens in
  let? tokens := ok_or (decode_output function_abi (call_output c)) UndecodableOutput in
  if decide (length tokens <> length (function_outputs function_abi)) then Err WrongOutputCount else
  let outputs := zip (function_outputs function_abi) tokens in
  send h (ch_handler call_handler) (MTCall tx c inputs outputs call_handler) b s.

(** The rendering of the block's hash and number for the log message unwraps
    them. *)
Definition process_block (h : RuntimeHost) (b : LightEthereumBlock)
    (k : EthereumBlockTriggerType) (s : St) : res HostError St :=
  let? block_handler := handler_for_block h k in
  let? _ := lift_panic (unwrap (b_hash b)) in
  let? _ := lift_panic (unwrap (b_number b)) in
  send h (bh_handler block_handler) (MTBlock block_handler) b s.

(** ** Subgraph instances *)
Record SubgraphInstance := mk_instance {
  si_subgraph_id : string;
  si_network : string;
  si_hosts : list RuntimeHost;
  si_module_cache : gmap (list Byte.byte) Sender;
}.

(** The hosts that match (all are asked first, for their count), and
    processing in each of them in order. *)
Definition in_matching_hosts (matches : RuntimeHost -> res Empty_set bool)
    (process : RuntimeHost -> St -> res HostError St) (hosts : list RuntimeHost) (s : St)
  : res HostError St :=
  let? matching_hosts := lift_panic (filter_res matches hosts) in
  fold_res (fun s h => process h s) s matching_hosts.

Definition process_trigger_in_runtime_hosts (hosts : list RuntimeHost) (b : LightEthereumBlock)
    (t : EthereumTrigger) (s : St) : res HostError St :=
  match t with
  | TLog l =>
      let? tx := ok_or (transaction_for_log b l) NoTransactionForEvent in
      in_matching_hosts (fun h => host_matches_log h l) (fun h => process_log h b tx l) hosts s
  | TCall c =>
      let? tx := ok_or (transaction_for_call b c) NoTransactionForCall in
      in_matching_hosts (fun h => host_matches_call h c) (fun h => process_call h b tx c) hosts s
  | TBlock p k =>
      in_matching_hosts (fun h => Ok (host_matches_block h k (ptr_number p)))
        (fun h => process_block h b k) hosts s
  end.

Definition process_trigger (i : SubgraphInstance) := process_trigger_in_runtime_hosts (si_hosts i).

Definition instance_matches_log (i : SubgraphInstance) (l : Log) : res Empty_set bool :=
  any_res (fun h => host_matches_log h l) (si_hosts i).

(** [new_host]: the module cache is extended also when the build fails. *)
Definition new_host (i : SubgraphInstance) (d : DataSource)
    (top_level_templates : list DataSourceTemplate)
  : SubgraphInstance * res HostError RuntimeHost :=
  let module_bytes := m_runtime (ds_mapping d) in
  let module_hash := keccak256 module_bytes in
  match si_module_cache i !! module_hash with
  | Some sender => (i, host_build (si_network i) (si_subgraph_id i) d top_level_templates sender)
  | None =>
      match spawn_mapping module_bytes with
      | Ok sender =>
          (mk_instance (si_subgraph_id i) (si_network i) (si_hosts i)
             (<[module_hash := sender]> (si_module_cache i)),
           host_build (si_network i) (si_subgraph_id i) d top_level_templates sender)
      | Err e => (i, Err (SpawnFailed e))
      | Panic => (i, Panic)
      end
  end.

Definition new_hosts_step (templates : list DataSourceTemplate)
    (x : SubgraphInstance * (list RuntimeHost * list HostError))
    (d : DataSource) : res HostError (SubgraphInstance * (list RuntimeHost * list HostError)) :=
  let '(i, (hosts, errors)) := x in
  let '(i, r) := new_host i d templates in
  match r with
  | Ok h => Ok (i, (hosts ++ [h], errors))
  | Err e => Ok (i, (hosts, errors ++ [e]))
  | Panic => Panic
  end.

Definition from_manifest (m : SubgraphManifest) : res HostError SubgraphInstance :=
  let? network := lift_panic (Manifest.network_name m) in
  let this := mk_instance (sm_id m) network [] ∅ in
  let? x := fold_res (new_hosts_step (sm_templates m)) (this, ([], [])) (sm_data_sources m) in
  let '(this, (hosts, errors)) := x in
  if negb (bool_decide (length errors = 0)) then Err (ErrorsLoadingDataSources errors) else
  Ok (mk_instance (si_subgraph_id this) (si_network this) hosts (si_module_cache this)).

(** *** Dynamic data sources *)
Definition source_eqb (a b : Source) : bool :=
  bool_decide (src_address a = src_address b) && String.eqb (src_abi a) (src_abi b)
  && Z.eqb (src_start_block a) (src_start_block b).

Definition abi_eqb (a b : MappingABI) : bool :=
  String.eqb (abi_name a) (abi_name b) && contract_eqb (abi_contract a) (abi_contract b)
  && String.eqb (link_str (abi_link a)) (link_str (abi_link b)).

#[local] Instance event_handler_eq_dec : EqDecision MappingEventHandler.
Proof using. solve_decision. Defined.
#[local] Instance call_handler_eq_dec : EqDecision MappingCallHandler.
Proof using. solve_decision. Defined.
#[local] Instance block_handler_eq_dec : EqDecision MappingBlockHandler.
Proof using. solve_decision. Defined.

Definition context_eqb (a b : option Entity) : bool :=
  match a, b with
  | None, None => true
  | Some a, Some b => entity_eqb a b
  | _, _ => false
  end.

Definition host_eqb (a b : RuntimeHost) : bool :=
  String.eqb (rh_data_source_name a) (rh_data_source_name b)
  && source_eqb (rh_contract a) (rh_contract b)
  && abi_eqb (rh_contract_abi a) (rh_contract_abi b)
  && bool_decide (rh_event_handlers a = rh_event_handlers b)
  && bool_decide (rh_call_handlers a = rh_call_handlers b)
  && bool_decide (rh_block_handlers a = rh_block_handlers b)
  && context_eqb (he_data_source_context (rh_host_exports a))
       (he_data_source_context (rh_host_exports b)).

Definition add_dynamic_data_source (MAX_DATA_SOURCES : option nat) (i : SubgraphInstance)
    (d : DataSource) (top_level_templates : list DataSourceTemplate)
  : SubgraphInstance * res HostError (option RuntimeHost) :=
  let limit_exceeded :=
    match MAX_DATA_SOURCES with
    | Some max_data_sources => bool_decide (max_data_sources <= length (si_hosts i))
    | None => false
    end in
  if limit_exceeded then (i, Err (DataSourceLimitExceeded (default 0 MAX_DATA_SOURCES))) else
  let '(i, r) := new_host i d top_level_templates in
  match r with
  | Ok host =>
      if existsb (fun h => host_eqb h host) (si_hosts i) then (i, Ok None)
      else (mk_instance (si_subgraph_id i) (si_network i) (si_hosts i ++ [host]) (si_module_cache i),
            Ok (Some host))
  | Err e => (i, Err e)
  | Panic => (i, Panic)
  end.
End hosts.

(** ** Lemmas *)
Section lemmas.
Context {ME : ManifestEnv} {HE : HostEnv ME}.

(** [h] is a host of the data source. *)
Definition host_of (d : DataSource) (h : RuntimeHost) : Prop :=
  rh_contract h = ds_source d /\ rh_event_handlers h = m_event_handlers (ds_mapping d)
  /\ rh_call_handlers h = m_call_handlers (ds_mapping d)
  /\ rh_block_handlers h = m_block_handlers (ds_mapping d).

Lemma runtime_host_new_host_of network id d templates sender h :
  runtime_host_new (host_config network id d templates) sender = Ok h -> host_of d h.
Proof.
  unfold runtime_host_new, host_of.
  destruct (ok_or _ _) as [supported| |]; cbn [res_bind]; try done.
  destruct (negb supported); [done|].
  destruct (ok_or _ _) as [abi| |]; cbn [res_bind]; try done. by intros [= <-].
Qed.

Lemma list_find_is_Some {A} (P : A -> Prop) `{!forall x, Decision (P x)} l :
  (exists x, x ∈ l /\ P x) -> exists i x, list_find P l = Some (i, x).
Proof.
  intros (x & Hx & Px). destruct (list_find_elem_of P l x Hx Px) as [[i y] E]. eauto.
Qed.

Lemma list_find_elem {A} (P : A -> Prop) `{!forall x, Decision (P x)} l i x :
  list_find P l = Some (i, x) -> x ∈ l /\ P x.
Proof.
  intros (Hi & Px & _)%list_find_Some. split; [by eapply list_elem_of_lookup_2|done].
Qed.

Lemma matches_log_signature_true h l :
  matches_log_signature h l = true <-> exists sig rest handler,
    l_topics l = sig :: rest /\ handler ∈ rh_event_handlers h /\ topic0 handler = sig.
Proof.
  unfold matches_log_signature. destruct (l_topics l) as [|sig rest]; simpl; [naive_solver|].
  rewrite existsb_true_iff. setoid_rewrite bool_decide_eq_true. naive_solver.
Qed.

Lemma host_matches_log_true h l :
  host_matches_log h l = Ok true <->
  matches_log_address h l = true /\ matches_log_signature h l = true
  /\ exists n, l_block_number l = Some n /\ (src_start_block (rh_contract h) <= n)%Z.
Proof.
  unfold host_matches_log. rewrite <- Logic.and_assoc, <- andb_true_iff.
  destruct (matches_log_address h l && matches_log_signature h l) eqn:E; [|naive_solver].
  destruct (l_block_number l) as [n|]; simpl; [|naive_solver].
  split.
  - intros [= H%bool_decide_eq_true]. split; [done|]. by exists n.
  - intros [_ (? & [= <-] & H)]. by rewrite bool_decide_eq_true_2.
Qed.

Lemma host_matches_call_true h c :
  host_matches_call h c = Ok true <->
  matches_call_address h c = true /\ 4 <= length (call_input c)
  /\ (exists handler, handler ∈ rh_call_handlers h
       /\ function_selector handler = take 4 (call_input c))
  /\ (src_start_block (rh_contract h) <= call_block_number c)%Z.
Proof.
  unfold host_matches_call, matches_call_function, call_selector, selects.
  destruct (matches_call_address h c); [|naive_solver].
  case_decide as L; simpl; [|split; [done|naive_solver]]. split.
  - intros [= H]. apply andb_true_iff in H as [H1 H2%bool_decide_eq_true].
    apply existsb_true_iff in H1 as (handler & Hin & E%bool_decide_eq_true).
    split; [done|]. split; [done|]. split; [by exists handler|done].
  - intros (_ & _ & (handler & Hin & E) & S). f_equal. apply andb_true_iff.
    rewrite bool_decide_eq_true, existsb_true_iff. split; [|done].
    exists handler. by rewrite bool_decide_eq_true.
Qed.

Lemma host_matches_block_true h k n :
  host_matches_block h k n = true <->
  match k with
  | Every => exists handler, handler ∈ rh_block_handlers h /\ bh_filter handler = None
  | WithCallTo a => src_address (rh_contract h) = Some a
      /\ exists handler, handler ∈ rh_block_handlers h /\ bh_filter handler = Some FilterCall
  end /\ (src_start_block (rh_contract h) <= n)%Z.
Proof.
  unfold host_matches_block, matches_block_trigger, handler_for_block.
  rewrite !andb_true_iff, bool_decide_eq_true.
  assert (F : forall P (D : forall x, Decision (P x)) e,
    is_ok (ok_or (snd <$> list_find P (rh_block_handlers h)) e : res HostError _) = true
    <-> exists handler, handler ∈ rh_block_handlers h /\ P handler).
  { intros P D e. split.
    - destruct (list_find P (rh_block_handlers h)) as [[i x]|] eqn:E; [|done].
      intros _. exists x. by eapply list_find_elem.
    - intros H. by destruct (list_find_is_Some P _ H) as (i & x & ->). }
  destruct k as [|a]; rewrite F; [naive_solver|].
  destruct (src_address (rh_contract h)); rewrite ?bool_decide_eq_true; naive_solver.
Qed.

(** *** What a host does with a trigger

    [handled h t]: the host has a handler for the trigger, its contract is the
    one the trigger comes from, if it has one, and the trigger's block is not
    before the start block. *)
Definition filter_of (k : EthereumBlockTriggerType) : option BlockHandlerFilter :=
  match k with Every => None | WithCallTo _ => Some FilterCall end.

Definition contract_is (h : RuntimeHost) (a : Address) : Prop :=
  src_address (rh_contract h) = None \/ src_address (rh_contract h) = Some a.

Definition handled (h : RuntimeHost) (t : EthereumTrigger) : Prop :=
  match t with
  | TLog l =>
      contract_is h (l_address l)
      /\ (exists x, x ∈ rh_event_handlers h /\ head (l_topics l) = Some (topic0 x))
      /\ exists n, l_block_number l = Some n /\ (src_start_block (rh_contract h) <= n)%Z
  | TCall c =>
      contract_is h (call_to c) /\ 4 <= length (call_input c)
      /\ (exists x, x ∈ rh_call_handlers h /\ function_selector x = take 4 (call_input c))
      /\ (src_start_block (rh_contract h) <= call_block_number c)%Z
  | TBlock p k =>
      (exists x, x ∈ rh_block_handlers h /\ bh_filter x = filter_of k)
      /\ (forall a, k = WithCallTo a -> src_address (rh_contract h) = Some a)
      /\ (src_start_block (rh_contract h) <= ptr_number p)%Z
  end.

Definition host_matches (h : RuntimeHost) (t : EthereumTrigger) : res Empty_set bool :=
  match t with
  | TLog l => host_matches_log h l
  | TCall c => host_matches_call h c
  | TBlock p k => Ok (host_matches_block h k (ptr_number p))
  end.

Lemma contract_is_address h a :
  contract_is h a
  <-> match src_address (rh_contract h) with None => true | Some addr => bool_decide (addr = a) end = true.
Proof.
  unfold contract_is. destruct (src_address (rh_contract h)); rewrite ?bool_decide_eq_true; naive_solver.
Qed.

Lemma handled_matches h t : handled h t <-> host_matches h t = Ok true.
Proof.
  destruct t as [p k|c|l]; cbn [handled host_matches].
  - assert (forall b, (Ok b : res Empty_set bool) = Ok true <-> b = true) as -> by (by split; [intros [= ->]|intros ->]).
    rewrite host_matches_block_true. destruct k; cbn [filter_of]; naive_solver.
  - rewrite host_matches_call_true, contract_is_address. done.
  - rewrite host_matches_log_true, contract_is_address, matches_log_signature_true.
    unfold matches_log_address. split; intros (? & Hx & ?); (split; [done|]); (split; [|done]).
    + destruct Hx as (x & ? & Hx). destruct (l_topics l) as [|sig rest] eqn:E; [done|].
      injection Hx as ->. by exists (topic0 x), rest, x.
    + destruct Hx as (sig & rest & x & E & ? & <-). exists x. by rewrite E.
Qed.

Lemma not_handled h t : host_matches h t = Ok false -> ~ handled h t.
Proof. rewrite handled_matches. congruence. Qed.

(** The handlers of a log's event that can decode it, with the parameters. *)
Definition decodings (h : RuntimeHost) (l : Log) : list (MappingEventHandler * list Token) :=
  omap (fun x =>
    event ← contract_event_with_signature (abi_contract (rh_contract_abi h)) (eh_event x);
    params ← parse_log event (l_topics l) (l_data l);
    Some (x, params))
  (filter (fun x => head (l_topics l) = Some (topic0 x)) (rh_event_handlers h)).

(** [host_call h b t o]: the call of a handler that a handled trigger leads to;
    a log that no handler can decode leads to none. *)
Inductive host_call (h : RuntimeHost) (b : LightEthereumBlock) :
    EthereumTrigger -> option (string * MappingTrigger) -> Prop :=
| call_for_log l tx x params :
    transaction_for_log b l = Some tx -> decodings h l = [(x, params)] ->
    host_call h b (TLog l) (Some (eh_handler x, MTLog tx l params x))
| no_call_for_log l : decodings h l = [] -> host_call h b (TLog l) None
| call_for_call c tx i x f inputs outputs :
    transaction_for_call b c = Some tx ->
    list_find (fun x => function_selector x = take 4 (call_input c)) (rh_call_handlers h) = Some (i, x) ->
    contract_function_with_signature (abi_contract (rh_contract_abi h)) (ch_function x) = Some f ->
    decode_input f (drop 4 (call_input c)) = Some inputs -> length inputs = length (function_inputs f) ->
    decode_output f (call_output c) = Some outputs -> length outputs = length (function_outputs f) ->
    host_call h b (TCall c)
      (Some (ch_handler x,
             MTCall tx c (zip (function_inputs f) inputs) (zip (function_outputs f) outputs) x))
| call_for_block p k i x :
    list_find (fun x => bh_filter x = filter_of k) (rh_block_handlers h) = Some (i, x) ->
    host_call h b (TBlock p k) (Some (bh_handler x, MTBlock x)).

Section calls.
Context (send_request :
  RuntimeHost -> string -> MappingTrigger -> LightEthereumBlock -> St -> res SendError St).

Definition answer (h : RuntimeHost) (b : LightEthereumBlock) (o : option (string * MappingTrigger))
    (s : St) : res HostError St :=
  match o with
  | None => Ok s
  | Some (handler, mt) => send send_request h handler mt b s
  end.

(** The result is the mapping thread's, or there was none to ask. *)
Definition from_thread (r : res HostError St) : Prop :=
  match r with Ok _ | Err (MappingFailed _) => True | _ => False end.

Lemma valid_decodings h l handlers valid :
  map_res (with_event_abi (abi_contract (rh_contract_abi h))) handlers = Ok valid ->
  omap (decode_log l) valid
  = omap (fun x => event ← contract_event_with_signature (abi_contract (rh_contract_abi h)) (eh_event x);
                   params ← parse_log event (l_topics l) (l_data l); Some (x, params)) handlers.
Proof.
  revert valid. induction handlers as [|x handlers IH]; intros valid; [by intros [= <-]|].
  rewrite map_res_cons. unfold with_event_abi at 1.
  destruct (contract_event_with_signature _ _) as [event|] eqn:Ee; cbn [ok_or res_bind]; [|done].
  destruct (map_res _ handlers) as [valid'| |]; cbn [res_bind]; try done. intros [= <-].
  rewrite !omap_cons_eq, (IH valid' eq_refl). cbn. rewrite Ee. cbn. done.
Qed.

Lemma map_abi_errors contract handlers :
  match map_res (with_event_abi contract) handlers with
  | Err (MappingFailed _) => False
  | _ => True
  end.
Proof.
  induction handlers as [|x handlers IH]; [done|]. rewrite map_res_cons. unfold with_event_abi at 1.
  destruct (contract_event_with_signature _ _); cbn [ok_or res_bind]; [|done].
  by destruct (map_res _ handlers).
Qed.

Lemma process_log_calls h b tx l s :
  transaction_for_log b l = Some tx -> from_thread (process_log send_request h b tx l s) ->
  exists o, host_call h b (TLog l) o /\ process_log send_request h b tx l s = answer h b o s.
Proof.
  intros Htx. unfold process_log, handlers_for_log.
  destruct (l_topics l !! 0) as [topic|] eqn:Et; cbn [ok_or res_bind]; [|done].
  destruct (bool_decide _); cbn [res_bind]; [done|].
  pose proof (map_abi_errors (abi_contract (rh_contract_abi h))
    (filter (fun handler => topic = topic0 handler) (rh_event_handlers h))) as He.
  destruct (map_res _ _) as [valid|e|] eqn:Ev; cbn [res_bind]; [|by destruct e|done].
  apply (valid_decodings h l) in Ev.
  assert (Hd : omap (decode_log l) valid = decodings h l).
  { rewrite Ev. unfold decodings. f_equal. destruct (l_topics l) as [|? ts]; [done|].
    cbn in Et. injection Et as ->. cbn. apply list_filter_iff. intros x. naive_solver. }
  rewrite Hd. destruct (last (decodings h l)) as [[x params]|] eqn:El.
  - case_decide as Hlen; [|done]. intros _. destruct (decodings h l) as [|[y ps] [|]] eqn:E; try done.
    cbn in El. injection El as -> ->.
    exists (Some (eh_handler x, MTLog tx l params x)). split; [by eapply call_for_log|done].
  - intros _. exists None. split; [|done]. apply no_call_for_log. by apply last_None in El.
Qed.

Lemma process_call_calls h b tx c s :
  transaction_for_call b c = Some tx -> from_thread (process_call send_request h b tx c s) ->
  exists o, host_call h b (TCall c) o /\ process_call send_request h b tx c s = answer h b o s.
Proof.
  intros Htx. unfold process_call, handler_for_call, call_selector.
  case_decide as L; cbn [res_bind]; [done|]. rewrite decide_True by lia. cbn [lift_panic res_bind].
  destruct (list_find _ _) as [[i x]|] eqn:Ex; cbn [ok_or res_bind fmap option_fmap option_map snd]; [|done].
  destruct (contract_function_with_signature _ _) as [f|] eqn:Ef; cbn [ok_or res_bind]; [|done].
  destruct (decode_input _ _) as [inputs|] eqn:Ei; cbn [ok_or res_bind]; [|done].
  case_decide as Li; [done|]. destruct (decode_output _ _) as [outputs|] eqn:Eo; cbn [ok_or res_bind]; [|done].
  case_decide as Lo; [done|]. intros _.
  exists (Some (ch_handler x, MTCall tx c (zip (function_inputs f) inputs) (zip (function_outputs f) outputs) x)).
  split; [|done]. eapply call_for_call; try done.
  rewrite <- Ex. apply list_find_ext. intros y. unfold selects. rewrite Is_true_true, bool_decide_eq_true.
  naive_solver.
Qed.

Lemma handler_for_block_found h k :
  exists e, (forall e', e <> MappingFailed e')
  /\ handler_for_block h k
     = ok_or (snd <$> list_find (fun x => bh_filter x = filter_of k) (rh_block_handlers h)) e.
Proof.
  unfold handler_for_block.
  destruct k; eexists; (split; [|do 2 f_equal; by apply list_find_ext]); done.
Qed.

Lemma process_block_calls h b p k s :
  from_thread (process_block send_request h b k s) ->
  exists o, host_call h b (TBlock p k) o /\ process_block send_request h b k s = answer h b o s.
Proof.
  unfold process_block. destruct (handler_for_block_found h k) as (e & He & ->).
  destruct (list_find _ _) as [[i x]|] eqn:Ex; cbn [ok_or res_bind fmap option_fmap option_map snd].
  - destruct (b_hash b); cbn [unwrap lift_panic res_bind]; [|done].
    destruct (b_number b); cbn [unwrap lift_panic res_bind]; [|done]. intros _.
    exists (Some (bh_handler x, MTBlock x)). split; [by eapply call_for_block|done].
  - destruct e; try done. by destruct (He e).
Qed.

(** What a host does with a trigger, and what processing a trigger does: the
    hosts that handle it are called, in order. *)
Definition host_sends (b : LightEthereumBlock) (t : EthereumTrigger) (h : RuntimeHost) (s s' : St) : Prop :=
  handled h t /\ (exists o, host_call h b t o /\ answer h b o s = Ok s') \/ ~ handled h t /\ s' = s.

(** A failure of the mapping thread comes from a call that was due. *)
Definition call_fails (hosts : list RuntimeHost) (b : LightEthereumBlock) (t : EthereumTrigger)
    (e : SendError) : Prop :=
  exists h handler mt s, h ∈ hosts /\ handled h t /\ host_call h b t (Some (handler, mt))
    /\ send_request h handler mt b s = Err e.

Section matching.
Context (b : LightEthereumBlock) (t : EthereumTrigger) (process : RuntimeHost -> St -> res HostError St).
Hypothesis process_calls : forall h s, from_thread (process h s) ->
  exists o, host_call h b t o /\ process h s = answer h b o s.

Lemma in_matching_hosts_sends hosts s s' :
  in_matching_hosts (fun h => host_matches h t) process hosts s = Ok s' ->
  fold_rel (host_sends b t) hosts s s'.
Proof.
  unfold in_matching_hosts.
  destruct (filter_res _ hosts) as [matching| |] eqn:Ef; cbn [lift_panic res_bind]; try done.
  intros Hf. apply fold_rel_fold_res in Hf. eapply fold_rel_filter_res in Hf; [|exact Ef].
  eapply fold_rel_mono; [|exact Hf]. intros h x y _ [[Hm Hx]|[Hm ->]].
  - left. split; [by apply handled_matches|]. rewrite <- Hx.
    destruct (process_calls h x) as (o & Ho & E); [by rewrite Hx|]. by exists o.
  - right. split; [by apply not_handled|done].
Qed.

Lemma in_matching_hosts_fails hosts s e :
  in_matching_hosts (fun h => host_matches h t) process hosts s = Err (MappingFailed e) ->
  call_fails hosts b t e.
Proof.
  unfold in_matching_hosts.
  destruct (filter_res _ hosts) as [matching| |] eqn:Ef; cbn [lift_panic res_bind]; try done.
  intros Hf. apply fold_res_fails in Hf as (h & x & Hh & Hx).
  apply (filter_res_elem _ _ _ _ Ef) in Hh as [Hh Hm].
  destruct (process_calls h x) as (o & Ho & E); [by rewrite Hx|]. rewrite Hx in E.
  destruct o as [[handler mt]|]; [|done]. exists h, handler, mt, x. split_and!; [done|by apply handled_matches|done|].
  unfold answer, send in E. destruct (send_request _ _ _ _ _); try done. cbn in E. congruence.
Qed.
End matching.

Lemma process_trigger_sends hosts b t s s' :
  process_trigger_in_runtime_hosts send_request hosts b t s = Ok s' ->
  fold_rel (host_sends b t) hosts s s'.
Proof.
  destruct t as [p k|c|l]; cbn [process_trigger_in_runtime_hosts].
  - apply (in_matching_hosts_sends b (TBlock p k)). intros h x. apply process_block_calls.
  - destruct (transaction_for_call b c) as [tx|] eqn:Etx; cbn [ok_or res_bind]; [|done].
    apply (in_matching_hosts_sends b (TCall c)). intros h x. by apply process_call_calls.
  - destruct (transaction_for_log b l) as [tx|] eqn:Etx; cbn [ok_or res_bind]; [|done].
    apply (in_matching_hosts_sends b (TLog l)). intros h x. by apply process_log_calls.
Qed.

Lemma process_trigger_fails hosts b t s e :
  process_trigger_in_runtime_hosts send_request hosts b t s = Err (MappingFailed e) ->
  call_fails hosts b t e.
Proof.
  destruct t as [p k|c|l]; cbn [process_trigger_in_runtime_hosts].
  - apply (in_matching_hosts_fails b (TBlock p k)). intros h x. apply process_block_calls.
  - destruct (transaction_for_call b c) as [tx|] eqn:Etx; cbn [ok_or res_bind]; [|done].
    apply (in_matching_hosts_fails b (TCall c)). intros h x. by apply process_call_calls.
  - destruct (transaction_for_log b l) as [tx|] eqn:Etx; cbn [ok_or res_bind]; [|done].
    apply (in_matching_hosts_fails b (TLog l)). intros h x. by apply process_log_calls.
Qed.
End calls.
End lemmas.

(** ** Properties *)
Section properties.
Context {ME : ManifestEnv} {HE : HostEnv ME}.
Context {G : Type} `{GML : GraphMapLaws LogFilterNode G}.

(** Whether filters let a trigger through, and whether those of data sources
    do. *)
Definition passes (lf : EthereumLogFilter G) (cf : EthereumCallFilter) (bf : EthereumBlockFilter)
    (t : EthereumTrigger) : bool :=
  match t with
  | TLog l => log_matches lf l
  | TCall c => match call_matches cf c with Ok b => b | _ => false end
  | TBlock _ Every => bf_trigger_every_block bf
  | TBlock _ (WithCallTo a) => bool_decide (a ∈ (set_map snd (bf_contract_addresses bf) : gset Address))
  end.

Definition wanted (ds : list DataSource) (t : EthereumTrigger) : bool :=
  passes (log_filter_from_data_sources (G := G) ds) (call_filter_from_data_sources ds)
    (block_filter_from_data_sources ds) t.

(** Block handlers with a call filter are the exception: the block filter loses
    the addresses of their contracts ([block_filter_drops_call_filters]). *)
Definition call_filtered (h : RuntimeHost) : Prop :=
  exists x, x ∈ rh_block_handlers h /\ bh_filter x = Some FilterCall.

Definition with_call (t : EthereumTrigger) : bool :=
  match t with TBlock _ (WithCallTo _) => true | _ => false end.

(** Their triggers never pass. *)
Lemma with_call_not_wanted ds t : with_call t = true -> wanted ds t = false.
Proof.
  destruct t as [p [|a]|c|l]; try done. intros _. unfold wanted, passes.
  destruct (block_filter_drops_call_filters ds) as [-> _]. by rewrite set_map_empty.
Qed.

Lemma wanted_log ds d h l :
  d ∈ ds -> host_of d h -> host_matches_log h l = Ok true ->
  log_matches (log_filter_from_data_sources (G := G) ds) l = true.
Proof.
  intros Hd (Hc & He & _) (A & S & _)%host_matches_log_true.
  destruct (from_data_sources_spec (G := G) ds) as [FE FW].
  apply matches_log_signature_true in S as (sig & rest & handler & T & Hin & Et).
  rewrite He in Hin. apply log_matches_iff. exists sig, rest. split; [done|].
  unfold matches_log_address in A. rewrite Hc in A.
  destruct (src_address (ds_source d)) as [a|] eqn:Ea.
  - apply bool_decide_eq_true in A as ->. left. apply FE. exists d, (l_address l), sig.
    split; [done|]. split; [done|]. split; [|by left].
    rewrite <- Et. by apply list_elem_of_fmap_2.
  - right. apply FW. exists d. split; [done|]. split; [done|].
    rewrite <- Et. by apply list_elem_of_fmap_2.
Qed.

Lemma wanted_call ds d h c :
  Forall addressed ds -> d ∈ ds -> host_of d h -> host_matches_call h c = Ok true ->
  call_matches (call_filter_from_data_sources ds) c = Ok true.
Proof.
  intros Ad Hd (Hc & _ & Hh & _) (A & L & (handler & Hin & Es) & _)%host_matches_call_true.
  rewrite Hh in Hin. rewrite Forall_forall in Ad.
  destruct (Ad d Hd) as [a Ea].
  { left. intros N. rewrite N in Hin. by apply elem_of_nil in Hin. }
  unfold matches_call_address in A. rewrite Hc, Ea in A.
  apply bool_decide_eq_true in A as ->.
  destruct (call_matches_specific (call_filter_from_data_sources ds) c
              (from_iter_specific _) L) as (b & E & B).
  rewrite E. f_equal. apply B.
  pose proof (call_filter_from_iter_lookup (call_entries ds) (call_to c)) as H.
  unfold call_filter_from_data_sources.
  assert (Hent : (src_start_block (ds_source d), call_to c, take 4 (call_input c)) ∈ call_entries ds).
  { apply elem_of_call_entries. exists d, handler. by rewrite Es. }
  destruct (cf_contracts _ !! call_to c) as [x|]; [|by apply H in Hent].
  exists x. split; [done|]. apply H. eauto.
Qed.

Lemma wanted_every ds d h n :
  Forall addressed ds -> d ∈ ds -> host_of d h -> host_matches_block h Every n = true ->
  bf_trigger_every_block (block_filter_from_data_sources ds) = true.
Proof.
  intros Ad Hd (_ & _ & _ & Hh) [(handler & Hin & F) _]%host_matches_block_true.
  rewrite Hh in Hin. rewrite Forall_forall in Ad.
  destruct (Ad d Hd) as [a Ea].
  { right. intros N. rewrite N in Hin. by apply elem_of_nil in Hin. }
  apply trigger_every_block_iff. exists d, handler. by rewrite Ea.
Qed.

(** A trigger of the block: its transaction is in it, and it is complete. *)
Definition in_block (b : LightEthereumBlock) (t : EthereumTrigger) : Prop :=
  match t with
  | TLog l => is_Some (transaction_for_log b l) /\ is_Some (l_block_number l)
  | TCall c => is_Some (transaction_for_call b c) /\ 4 <= length (call_input c)
  | TBlock _ _ => True
  end.

(** A trigger the filters hold back matches no host, and processing skips it. *)
Lemma no_matching_hosts (matches : RuntimeHost -> res Empty_set bool) process hosts (s : St) :
  (forall h, h ∈ hosts -> matches h = Ok false) ->
  in_matching_hosts matches process hosts s = Ok s.
Proof.
  intros H. unfold in_matching_hosts. rewrite (filter_res_ok _ (fun _ => false)) by done.
  rewrite filter_none by (intros; by intros ?). done.
Qed.

Lemma handled_wanted ds d h t :
  Forall addressed ds -> d ∈ ds -> host_of d h -> handled h t -> with_call t = false -> wanted ds t = true.
Proof.
  intros Ad Hd Ho Ht Hw. apply handled_matches in Ht. unfold wanted.
  destruct t as [p [|a]|c|l]; cbn [host_matches passes] in *; [| done| |].
  - injection Ht as Ht. by eapply wanted_every.
  - by rewrite (wanted_call ds d h c).
  - by eapply wanted_log.
Qed.

(** Asking a host about a trigger of the block gives an answer. *)
Lemma host_matches_total h b t : in_block b t -> exists m, host_matches h t = Ok m.
Proof.
  destruct t as [p k|c|l]; cbn [host_matches in_block]; [eauto| |].
  - intros [_ L]. unfold host_matches_call, matches_call_function, call_selector.
    rewrite decide_True by done. destruct (matches_call_address h c); simpl; eauto.
  - intros [_ [n Hn]]. unfold host_matches_log. rewrite Hn. simpl. case_match; eauto.
Qed.

Lemma unwanted_skipped send ds hosts b t (s : St) :
  Forall addressed ds ->
  (forall h, h ∈ hosts -> (exists d, d ∈ ds /\ host_of d h) /\ ~ call_filtered h) ->
  in_block b t -> ~ wanted ds t ->
  process_trigger_in_runtime_hosts send hosts b t s = Ok s.
Proof.
  intros Ad Hh B W.
  assert (Hno : forall h, h ∈ hosts -> host_matches h t = Ok false).
  { intros h Hin. destruct (Hh h Hin) as [(d & Hd & Ho) Hcf].
    destruct (host_matches_total h b t B) as [[] E]; [|done]. exfalso.
    apply handled_matches in E. destruct (with_call t) eqn:Ew; [|by apply W, Is_true_true; eapply handled_wanted].
    destruct t as [p [|a]|c|l]; try done. by destruct E as [(x & ? & ?) _]; apply Hcf; exists x. }
  destruct t as [p k|c|l]; simpl.
  - by apply no_matching_hosts.
  - destruct B as [[tx ->] _]. by apply no_matching_hosts.
  - destruct B as [[tx ->] _]. by apply no_matching_hosts.
Qed.

(** The filters let every trigger through that the host handles, block triggers
    with a call filter apart. *)
Definition covered_by (lf : EthereumLogFilter G) (cf : EthereumCallFilter)
    (bf : EthereumBlockFilter) (h : RuntimeHost) : Prop :=
  forall t, handled h t -> with_call t = false -> passes lf cf bf t = true.

(** With the filters made from data sources that passed validation no trigger a
    host of one of them would handle is filtered out. *)
Lemma filters_cover_hosts (ds : list DataSource) (d : DataSource) (h : RuntimeHost) :
  Forall addressed ds -> d ∈ ds -> host_of d h ->
  covered_by (log_filter_from_data_sources ds) (call_filter_from_data_sources ds)
    (block_filter_from_data_sources ds) h.
Proof.
  intros Ad Hd Hh t. by apply handled_wanted with d.
Qed.

(** Extended filters let through what one of the two does. *)
Lemma passes_extend lf cf bf lf' cf' bf' h t :
  specific cf -> specific cf' -> handled h t -> with_call t = false ->
  passes (log_filter_extend lf lf') (call_filter_extend cf cf') (block_filter_extend bf bf') t
  = passes lf cf bf t || passes lf' cf' bf' t.
Proof.
  intros S S' Ht Hw. destruct t as [p [|a]|c|l]; cbn [passes]; [done|done| |].
  - destruct Ht as (_ & L & _).
    by destruct (call_filter_extend_is_union cf cf' c S S' L) as (_ & b1 & b2 & -> & -> & ->).
  - by rewrite (proj1 (log_filter_extend_is_union lf lf' l)).
Qed.

Lemma covered_extend_l lf cf bf lf' cf' bf' h :
  specific cf -> specific cf' -> covered_by lf cf bf h ->
  covered_by (log_filter_extend lf lf') (call_filter_extend cf cf') (block_filter_extend bf bf') h.
Proof. intros S S' Hc t Ht Hw. by rewrite (passes_extend _ _ _ _ _ _ h), (Hc t Ht Hw). Qed.

Lemma covered_extend_r lf cf bf lf' cf' bf' h :
  specific cf -> specific cf' -> covered_by lf' cf' bf' h ->
  covered_by (log_filter_extend lf lf') (call_filter_extend cf cf') (block_filter_extend bf bf') h.
Proof. intros S S' Hc t Ht Hw. by rewrite (passes_extend _ _ _ _ _ _ h), (Hc t Ht Hw), orb_true_r. Qed.

(** Running triggers one after the other. *)
Definition run_triggers send (hosts : list RuntimeHost) (b : LightEthereumBlock)
    (ts : list EthereumTrigger) (s : St) : res HostError St :=
  fold_res (fun s t => process_trigger_in_runtime_hosts send hosts b t s) s ts.

(** C6: Filtering is an optimisation: for hosts of validated data sources that
    have no block handler with a call filter, running only the triggers of a
    block that the filters let through gives the same state, or the same error,
    as running all of them. *)
Theorem filtering_changes_nothing send (ds : list DataSource) (hosts : list RuntimeHost)
    (b : LightEthereumBlock) (ts : list EthereumTrigger) (s : St) :
  Forall addressed ds ->
  (forall h, h ∈ hosts -> (exists d, d ∈ ds /\ host_of d h) /\ ~ call_filtered h) ->
  Forall (in_block b) ts ->
  run_triggers send hosts b ts s = run_triggers send hosts b (filter (wanted ds) ts) s.
Proof.
  intros Ad Hh B. unfold run_triggers. revert s.
  induction B as [|t ts Ht _ IH]; intros s; [done|].
  rewrite filter_cons, fold_res_cons. case_decide as W.
  - rewrite fold_res_cons.
    destruct (process_trigger_in_runtime_hosts send hosts b t s); simpl; [apply IH|done..].
  - rewrite (unwanted_skipped send ds hosts b t s) by done. apply IH.
Qed.

(** A host that matches a trigger has a handler for it: the errors for a
    missing handler are unreachable for matching hosts, and the handler found
    is one of the host's, for the trigger's topic, selector or filter. *)
Lemma matching_host_has_handler (h : RuntimeHost) :
  (forall l, host_matches_log h l = Ok true ->
     exists handlers, handlers_for_log h l = Ok handlers /\ handlers <> []
     /\ Forall (fun x => x ∈ rh_event_handlers h /\ head (l_topics l) = Some (topic0 x)) handlers)
  /\ (forall c, host_matches_call h c = Ok true ->
     exists x, handler_for_call h c = Ok x /\ x ∈ rh_call_handlers h
     /\ function_selector x = take 4 (call_input c))
  /\ (forall k n, host_matches_block h k n = true ->
     exists x, handler_for_block h k = Ok x /\ x ∈ rh_block_handlers h
     /\ bh_filter x = match k with Every => None | WithCallTo _ => Some FilterCall end).
Proof.
  split; [|split].
  - intros l (_ & S & _)%host_matches_log_true.
    apply matches_log_signature_true in S as (sig & rest & x & T & Hx & Et).
    unfold handlers_for_log. rewrite T. simpl.
    assert (Hin : x ∈ filter (fun handler => sig = topic0 handler) (rh_event_handlers h))
      by by apply list_elem_of_filter.
    destruct (filter _ _) as [|y ys] eqn:Ef; [by apply elem_of_nil in Hin|]. simpl.
    eexists. split; [reflexivity|]. split; [done|]. rewrite <- Ef. apply Forall_forall.
    intros z [-> Hz]%list_elem_of_filter. done.
  - intros c (_ & L & (x & Hx & Es) & _)%host_matches_call_true.
    unfold handler_for_call, call_selector. rewrite decide_False, decide_True by lia. simpl.
    destruct (list_find_is_Some (selects (take 4 (call_input c))) (rh_call_handlers h))
      as (i & y & Ey).
    { exists x. split; [done|]. unfold selects. by rewrite Es, bool_decide_eq_true_2. }
    rewrite Ey. exists y. apply list_find_elem in Ey as [Hy Sy].
    split; [done|]. split; [done|]. unfold selects in Sy.
    by apply Is_true_true, bool_decide_eq_true in Sy.
  - intros k n [H _]%host_matches_block_true. unfold handler_for_block. destruct k as [|a].
    + destruct (list_find_is_Some (fun x => bh_filter x = None) _ H) as (i & y & Ey).
      rewrite Ey. exists y. by apply list_find_elem in Ey as [Hy Fy].
    + destruct H as [_ H].
      destruct (list_find_is_Some (fun x => bh_filter x = Some FilterCall) _ H) as (i & y & Ey).
      rewrite Ey. exists y. by apply list_find_elem in Ey as [Hy Fy].
Qed.

(** What every run of a handler does to the state, processing a trigger does. *)
Lemma process_relates (R : St -> St -> Prop) `{!PreOrder R} run hosts b t s s' :
  (forall h handler mt s s', h ∈ hosts -> run h handler mt b s = Ok s' -> R s s') ->
  process_trigger_in_runtime_hosts run hosts b t s = Ok s' -> R s s'.
Proof.
  intros HR.
  assert (Hsend : forall h handler mt s s', h ∈ hosts -> send run h handler mt b s = Ok s' -> R s s').
  { intros h handler mt x y Hh. unfold send.
    destruct (run h handler mt b x) eqn:E; cbn; try done. intros [= <-]. by eapply HR. }
  assert (Hin : forall matches (process : RuntimeHost -> St -> res HostError St),
    (forall h x y, h ∈ hosts -> process h x = Ok y -> R x y) ->
    in_matching_hosts matches process hosts s = Ok s' -> R s s').
  { intros matches process HP. unfold in_matching_hosts.
    destruct (filter_res matches hosts) as [matching| |] eqn:Ef; cbn [lift_panic res_bind]; try done.
    apply fold_res_relates; [done|]. intros x h y Hh. apply HP.
    by apply (filter_res_elem _ _ _ _ Ef) in Hh as [? _]. }
  destruct t as [p k|c|l]; cbn [process_trigger_in_runtime_hosts].
  - apply Hin. intros h x y Hh. unfold process_block. intros Hp. res_inv. by eapply Hsend.
  - destruct (transaction_for_call b c) as [tx|]; cbn [ok_or res_bind]; [|done].
    apply Hin. intros h x y Hh. unfold process_call. intros Hp. res_inv. 
    repeat (case_decide; [done|]; res_inv). by eapply Hsend.
  - destruct (transaction_for_log b l) as [tx|]; cbn [ok_or res_bind]; [|done].
    apply Hin. intros h x y Hh. unfold process_log. intros Hp. res_inv.
    destruct (last _) as [[handler params]|]; [|by injection Hp as <-].
    case_decide; [|done]. by eapply Hsend.
Qed.

(** No two hosts of an instance are equal in the sense of the code. *)
Definition distinct_hosts (hosts : list RuntimeHost) : Prop :=
  forall i j a b, i < j -> hosts !! i = Some a -> hosts !! j = Some b -> host_eqb a b = false.

Lemma new_host_hosts (i : SubgraphInstance) d ts :
  si_hosts (fst (new_host i d ts)) = si_hosts i.
Proof.
  unfold new_host. destruct (_ !! _); [done|]. by destruct (spawn_mapping _).
Qed.

(** What a new host is. *)
Lemma new_host_spec (i : SubgraphInstance) d ts i' h :
  new_host i d ts = (i', Ok h) ->
  host_of d h /\ he_subgraph_id (rh_host_exports h) = si_subgraph_id i.
Proof.
  assert (Hb : forall sender, host_build (si_network i) (si_subgraph_id i) d ts sender = Ok h ->
    host_of d h /\ he_subgraph_id (rh_host_exports h) = si_subgraph_id i).
  { intros sender. unfold host_build. destruct (negb _); [done|]. intros H. res_inv.
    destruct (negb _); [done|]. split; [by eapply runtime_host_new_host_of|].
    unfold runtime_host_new in H. res_inv. destruct (negb _); [done|]. by res_inv. }
  unfold new_host. destruct (_ !! _); [intros [= <- ?]; by eapply Hb|].
  destruct (spawn_mapping _); intros [= <- ?]; by eapply Hb.
Qed.

Lemma new_host_id (i : SubgraphInstance) d ts :
  si_subgraph_id (fst (new_host i d ts)) = si_subgraph_id i.
Proof.
  unfold new_host. destruct (_ !! _); [done|]. by destruct (spawn_mapping _).
Qed.

(** A new host is built for the instance, which keeps its network. *)
Lemma new_host_built (i : SubgraphInstance) d ts i' h :
  new_host i d ts = (i', Ok h) ->
  exists sender, host_build (si_network i) (si_subgraph_id i) d ts sender = Ok h.
Proof.
  unfold new_host. destruct (_ !! _) as [sender|]; [intros [= <- ?]; eauto|].
  destruct (spawn_mapping _) as [sender| |]; intros [= <- ?]; eauto.
Qed.

Lemma new_host_network (i : SubgraphInstance) d ts : si_network (fst (new_host i d ts)) = si_network i.
Proof. unfold new_host. destruct (_ !! _); [done|]. by destruct (spawn_mapping _). Qed.

Lemma add_dynamic_data_source_made max (i : SubgraphInstance) d ts i' o :
  add_dynamic_data_source max i d ts = (i', Ok o) ->
  si_network i' = si_network i /\ si_subgraph_id i' = si_subgraph_id i
  /\ (forall m, max = Some m -> length (si_hosts i) < m)
  /\ exists sender h, host_build (si_network i) (si_subgraph_id i) d ts sender = Ok h
     /\ match o with
        | Some h' => h' = h /\ si_hosts i' = si_hosts i ++ [h]
                     /\ forall k, k ∈ si_hosts i -> host_eqb k h = false
        | None => si_hosts i' = si_hosts i /\ exists k, k ∈ si_hosts i /\ host_eqb k h = true
        end.
Proof.
  unfold add_dynamic_data_source.
  destruct (match max with Some m => _ | None => _ end) eqn:El; [done|].
  pose proof (new_host_built i d ts) as Hb. pose proof (new_host_network i d ts) as Hn.
  pose proof (new_host_id i d ts) as Hid. pose proof (new_host_hosts i d ts) as Hh.
  destruct (new_host i d ts) as [i1 [h1| |]]; try done. cbn in Hid, Hh, Hn.
  destruct (Hb i1 h1 eq_refl) as [sender Hs].
  assert (Hlt : forall m, max = Some m -> length (si_hosts i) < m).
  { intros m ->. apply bool_decide_eq_false in El. lia. }
  destruct (existsb _ _) eqn:Ee; intros [= <- <-]; cbn; rewrite ?Hh; do 3 (split; [done|]);
    exists sender, h1; (split; [done|]).
  - split; [done|]. apply existsb_true_iff in Ee. by rewrite Hh in Ee.
  - split_and!; [done..|]. intros k Hk. apply not_true_is_false. intros E.
    rewrite Hh in Ee. apply not_true_iff_false in Ee. apply Ee. apply existsb_true_iff. eauto.
Qed.

Lemma add_dynamic_data_source_adds max (i : SubgraphInstance) d ts i' h :
  add_dynamic_data_source max i d ts = (i', Ok (Some h)) ->
  host_of d h /\ he_subgraph_id (rh_host_exports h) = si_subgraph_id i
  /\ si_hosts i' = si_hosts i ++ [h] /\ si_subgraph_id i' = si_subgraph_id i
  /\ forall m, max = Some m -> length (si_hosts i') <= m.
Proof.
  unfold add_dynamic_data_source.
  destruct (match max with Some m => _ | None => _ end) eqn:El; [done|].
  pose proof (new_host_spec i d ts) as Hs. pose proof (new_host_id i d ts) as Hid.
  pose proof (new_host_hosts i d ts) as Hh.
  destruct (new_host i d ts) as [i1 [h1| |]]; try done. cbn in Hid, Hh.
  destruct (existsb _ _); [done|]. intros [= <- <-]. destruct (Hs i1 h1 eq_refl) as [? ?].
  cbn. rewrite Hh. split_and!; try done. intros m ->.
  apply bool_decide_eq_false in El. rewrite length_app. cbn. lia.
Qed.

Lemma add_dynamic_data_source_none max (i : SubgraphInstance) d ts i' :
  add_dynamic_data_source max i d ts = (i', Ok None) ->
  si_hosts i' = si_hosts i /\ si_subgraph_id i' = si_subgraph_id i.
Proof.
  unfold add_dynamic_data_source.
  destruct (match max with Some m => _ | None => _ end) eqn:El; [done|].
  pose proof (new_host_id i d ts) as Hid. pose proof (new_host_hosts i d ts) as Hh.
  destruct (new_host i d ts) as [i1 [h1| |]]; try done. cbn in Hid, Hh.
  destruct (existsb _ _); [|done]. by intros [= <-].
Qed.

(** Adding a dynamic data source keeps the hosts distinct and in order and
    never lets their number exceed the limit; the data source's host is
    appended exactly when it is returned, and when nothing is returned for a
    data source that could be built, an equal host was there. *)
Lemma add_dynamic_data_source_spec (max : option nat) (i : SubgraphInstance) (d : DataSource) ts :
  distinct_hosts (si_hosts i) ->
  let '(i', r) := add_dynamic_data_source max i d ts in
  distinct_hosts (si_hosts i')
  /\ (forall m, max = Some m -> length (si_hosts i) <= m -> length (si_hosts i') <= m)
  /\ match r with
     | Ok (Some h) => si_hosts i' = si_hosts i ++ [h]
     | Ok None => si_hosts i' = si_hosts i
         /\ exists h h', h ∈ si_hosts i /\ snd (new_host i d ts) = Ok h' /\ host_eqb h h' = true
     | _ => si_hosts i' = si_hosts i
     end.
Proof.
  intros D. unfold add_dynamic_data_source.
  assert (L : forall b : bool, b = match max with
      | Some m => bool_decide (m <= length (si_hosts i)) | None => false end ->
      b = false -> forall m, max = Some m -> length (si_hosts i) < m).
  { intros b -> Hb m ->. apply bool_decide_eq_false in Hb. lia. }
  destruct (match max with Some m => _ | None => _ end) eqn:E; [by split; [|split]|].
  specialize (L false eq_refl eq_refl). pose proof (new_host_hosts i d ts) as N.
  destruct (new_host i d ts) as [i' r]. simpl in N.
  destruct r as [h| |]; rewrite ?N; [|by split; [|split]..].
  destruct (existsb _ _) eqn:Ex.
  - rewrite N. split; [done|]. split; [done|]. split; [done|].
    apply existsb_true_iff in Ex as (h' & Hin & Eq). by exists h', h.
  - simpl. split; [|split; [|done]].
    + rewrite existsb_false_iff in Ex. intros j k a b Hjk.
      rewrite !lookup_app. destruct (si_hosts i !! j) as [a'|] eqn:Ea.
      * intros [= ->]. destruct (si_hosts i !! k) as [b'|] eqn:Eb; [intros [= ->]; by eapply D|].
        intros [_ <-]%list_lookup_singleton_Some. apply Ex. by eapply list_elem_of_lookup_2.
      * intros [? _]%list_lookup_singleton_Some Hk. exfalso.
        apply lookup_ge_None in Ea. rewrite lookup_ge_None_2 in Hk by lia.
        apply list_lookup_singleton_Some in Hk as [? _]. lia.
    + intros m Hm _. rewrite length_app. simpl. specialize (L m Hm). lia.
Qed.
End properties.

(** ** Witnesses *)
Module Witness.
Import Manifest.Witness.
Import EthFilters.Witness.
#[local] Existing Instance text_env.
Abbreviation Graph := (list (LogFilterNode * LogFilterNode)).

#[local] Instance thread_env : HostEnv text_env := {|
  Sender := nat;
  St := list string;
  SendError := string;
  AbiEvent := string;
  AbiFunction := string;
  Token := Byte.byte;
  api_version_ok := fun v => Some (String.eqb v "0.0.4");
  contract_eqb := String.eqb;
  contract_event_with_signature := fun _ e => Some e;
  contract_function_with_signature := fun _ f => Some f;
  parse_log := fun _ _ data => Some data;
  decode_input := fun _ data => Some data;
  decode_output := fun _ data => Some data;
  function_inputs := fun _ => [];
  function_outputs := fun _ => [];
  spawn_mapping := fun _ => Ok 1;
  store_for_network := fun n => String.eqb n "mainnet";
  adapter_with_capabilities := fun _ _ => true;
|}.

(** A thread that records the handlers it runs. *)
Definition record (h : RuntimeHost) (handler : string) (t : MappingTrigger)
    (b : LightEthereumBlock) (s : list string) : res string (list string) := Ok (s ++ [handler]).

Definition with_abi (d : DataSource) : DataSource :=
  let m := ds_mapping d in
  mk_data_source (ds_kind d) (ds_network d) (ds_name d) (ds_source d)
    (mk_mapping (m_kind m) (m_api_version m) (m_language m) (m_entities m)
       [mk_abi "abi" "contract" (mk_link "/ipfs/abi")] (m_block_handlers m) (m_call_handlers m)
       (m_event_handlers m) (m_runtime m) (m_link m))
    (ds_context d) (ds_templates d).

Definition d1 : DataSource := with_abi ds1.
Definition d3 : DataSource := with_abi ds3.

Definition tx : Transaction := mk_tx 77 (Some 0%Z) 0 None 0 0 0 [].
Definition block : LightEthereumBlock :=
  mk_block (Some 104%Z) 103 0 0 0 0 0 (Some 6%Z) 0 0 0 0 None None [tx].
Definition log (address topic : Z) : Log :=
  mk_log address [topic] [] (Some 104%Z) (Some 6%Z) (Some 77%Z) (Some 0%Z) (Some 0%Z).

Lemma addressed_ds : Forall addressed [d1; d3].
Proof.
  constructor; [|constructor; [|constructor]].
  - intros _. by eexists.
  - intros [H|H]; by exfalso; apply H.
Qed.

Definition hosts : list RuntimeHost :=
  match runtime_host_new (host_config "mainnet" "Qm" d1 []) 1,
        runtime_host_new (host_config "mainnet" "Qm" d3 []) 1 with
  | Ok a, Ok b => [a; b]
  | _, _ => []
  end.

Definition triggers : list EthereumTrigger :=
  [TLog (log 1 7); TLog (log 2 8); TLog (log 5 9); TBlock (mk_ptr 104 6) Every].

Lemma filtering_changes_nothing_witness :
  filter (wanted (G := Graph) [d1; d3]) triggers = [TLog (log 1 7); TLog (log 5 9)]
  /\ run_triggers record hosts block triggers []
     = run_triggers record hosts block (filter (wanted (G := Graph) [d1; d3]) triggers) []
  /\ run_triggers record hosts block triggers [] = Ok ["handle"; "handle"].
Proof.
  split; [vm_compute; reflexivity|]. split; [|vm_compute; reflexivity].
  apply (filtering_changes_nothing record [d1; d3] hosts block triggers []).
  - exact addressed_ds.
  - intros h. unfold hosts. cbn. intros [->|[->|[]%elem_of_nil]%elem_of_cons]%elem_of_cons.
    + split; [exists d1; split; [left|by repeat split]|]. intros (x & Hx & Hf). cbn in Hx.
      repeat (apply elem_of_cons in Hx as [->|Hx]; [done|]). by apply elem_of_nil in Hx.
    + split; [exists d3; split; [right; left|by repeat split]|]. intros (x & Hx & Hf). cbn in Hx.
      repeat (apply elem_of_cons in Hx as [->|Hx]; [done|]). by apply elem_of_nil in Hx.
  - repeat constructor; simpl; eexists; reflexivity.
Defined.

Lemma add_dynamic_data_source_spec_witness :
  let i := mk_instance "Qm" "mainnet" hosts ∅ in
  distinct_hosts hosts
  /\ length (si_hosts (fst (add_dynamic_data_source (Some 2) i d1 []))) <= 2.
Proof.
  intros i.
  assert (D : distinct_hosts hosts).
  { intros j k a b Hjk. destruct j as [|[|j]], k as [|[|k]]; try lia; cbn; try done.
    intros [= <-] [= <-]. vm_compute. reflexivity. }
  split; [exact D|].
  pose proof (add_dynamic_data_source_spec (Some 2) i d1 [] D) as H.
  destruct (add_dynamic_data_source (Some 2) i d1 []) as [i' r].
  exact (proj1 (proj2 H) 2 eq_refl (le_n 2)).
Defined.
End Witness.
