(* ===== verification/StoreQuery.v ===== *)
(** * Store queries

    Models the query language of [graph/src/components/store.rs]: filters,
    collections, windows, [EntityQuery] with its builder functions and
    [simplify].  The loggers of a query are left out.

    The meaning of a query is what the store promises, stated here as
    [selects]: comparisons other than those [simplify] introduces are an
    argument, as is the link through a parent. *)

From stdpp Require Import prelude list strings gmap.
From Stdlib Require Import ZArith Lia.
From S2P Require Import Prelude.
From S2P Require Import StoreValue.

(** ** Filters *)
Inductive EntityFilter :=
| FAnd (fs : list EntityFilter)
| FOr (fs : list EntityFilter)
| FEqual (a : string) (v : Value)
| FNot (a : string) (v : Value)
| FGreaterThan (a : string) (v : Value)
| FLessThan (a : string) (v : Value)
| FGreaterOrEqual (a : string) (v : Value)
| FLessOrEqual (a : string) (v : Value)
| FIn (a : string) (vs : list Value)
| FNotIn (a : string) (vs : list Value)
| FContains (a : string) (v : Value)
| FNotContains (a : string) (v : Value)
| FStartsWith (a : string) (v : Value)
| FNotStartsWith (a : string) (v : Value)
| FEndsWith (a : string) (v : Value)
| FNotEndsWith (a : string) (v : Value).

Definition new_equal (a : string) (v : Value) : EntityFilter := FEqual a v.
Definition new_in (a : string) (vs : list Value) : EntityFilter := FIn a vs.

Definition and_maybe (self : EntityFilter) (other : option EntityFilter) : EntityFilter :=
  match other with
  | Some other =>
      match self, other with
      | FAnd fs1, FAnd fs2 => FAnd (fs1 ++ fs2)
      | FAnd fs1, f2 => FAnd (fs1 ++ [f2])
      | f1, FAnd fs2 => FAnd (fs2 ++ [f1])
      | f1, f2 => FAnd [f1; f2]
      end
  | None => self
  end.

(** ** Queries *)
Inductive EntityOrder :=
| Ascending (a : string) (t : ValueType)
| Descending (a : string) (t : ValueType)
| DefaultOrder
| Unordered.

Record EntityRange := mk_range { er_first : option Z; er_skip : Z }.

Definition range_first (n : Z) : EntityRange := mk_range (Some n) 0.

Inductive WindowAttribute := WScalar (name : string) | WList (name : string).

Definition attribute_name (w : WindowAttribute) : string :=
  match w with WScalar name => name | WList name => name end.

Inductive ParentLink :=
| PList (ids : list (list string))
| PScalar (ids : list string).

Inductive ChildMultiplicity := Single | Many.

Inductive EntityLink :=
| Direct (a : WindowAttribute) (m : ChildMultiplicity)
| Parent (l : ParentLink).

Record EntityWindow := mk_window {
  ew_child_type : string;
  ew_ids : list string;
  ew_link : EntityLink;
}.

Inductive EntityCollection :=
| All (types : list string)
| Window (windows : list EntityWindow).

Definition BLOCK_NUMBER_MAX : Z := 2 ^ 31 - 1.

Record EntityQuery := mk_query {
  eq_subgraph_id : string;
  eq_block : Z;
  eq_collection : EntityCollection;
  eq_filter : option EntityFilter;
  eq_order : EntityOrder;
  eq_range : EntityRange;
}.

Definition query_new (subgraph_id : string) (block : Z) (collection : EntityCollection)
  : EntityQuery := mk_query subgraph_id block collection None DefaultOrder (range_first 100).

Definition query_filter (q : EntityQuery) (f : EntityFilter) : EntityQuery :=
  mk_query (eq_subgraph_id q) (eq_block q) (eq_collection q) (Some f) (eq_order q) (eq_range q).

Definition query_order (q : EntityQuery) (o : EntityOrder) : EntityQuery :=
  mk_query (eq_subgraph_id q) (eq_block q) (eq_collection q) (eq_filter q) o (eq_range q).

Definition query_range (q : EntityQuery) (r : EntityRange) : EntityQuery :=
  mk_query (eq_subgraph_id q) (eq_block q) (eq_collection q) (eq_filter q) (eq_order q) r.

Definition query_first (q : EntityQuery) (n : Z) : EntityQuery :=
  query_range q (mk_range (Some n) (er_skip (eq_range q))).

Definition query_skip (q : EntityQuery) (n : Z) : EntityQuery :=
  query_range q (mk_range (er_first (eq_range q)) n).

Definition simplify (q : EntityQuery) : EntityQuery :=
  match eq_collection q with
  | Window [w] =>
      match ew_ids w, ew_link w with
      | [id], Direct attribute _ =>
          let filter :=
            match attribute with
            | WScalar name => FEqual name (VString id)
            | WList name => FContains name (VList [VString id])
            end in
          {| eq_subgraph_id := eq_subgraph_id q;
             eq_block := eq_block q;
             eq_collection := All [ew_child_type w];
             eq_filter := Some (and_maybe filter (eq_filter q));
             eq_order := eq_order q;
             eq_range := eq_range q |}
      | _, _ => q
      end
  | _ => q
  end.

(** ** What a query selects *)
Section semantics.
Context (atom : EntityFilter -> Entity -> bool).
Context (parent_linked : ParentLink -> list string -> string -> Entity -> bool).

Fixpoint sat (f : EntityFilter) (e : Entity) : bool :=
  match f with
  | FAnd fs => (fix all (fs : list EntityFilter) := match fs with [] => true | f :: fs => sat f e && all fs end) fs
  | FOr fs => (fix any (fs : list EntityFilter) := match fs with [] => false | f :: fs => sat f e || any fs end) fs
  | f => atom f e
  end.

Definition has_value (a : string) (v : Value) (e : Entity) : bool :=
  match e !! a with Some w => Value_eqb w v | None => false end.

Definition holds_values (a : string) (vs : list Value) (e : Entity) : bool :=
  match e !! a with
  | Some (VList ws) => forallb (fun v => existsb (fun w => Value_eqb w v) ws) vs
  | _ => false
  end.

(** The entity belongs to the parent with the given id. *)
Definition direct_child (attribute : WindowAttribute) (id : string) (e : Entity) : bool :=
  match attribute with
  | WScalar name => has_value name (VString id) e
  | WList name => holds_values name [VString id] e
  end.

Definition in_window (w : EntityWindow) (ty id : string) (e : Entity) : bool :=
  String.eqb ty (ew_child_type w)
  && existsb (String.eqb id) (ew_ids w)
  && match ew_link w with
     | Direct attribute _ => direct_child attribute id e
     | Parent l => parent_linked l (ew_ids w) id e
     end.

(** The entities a query is about, before order and range: [e], of type [ty],
    is selected (in a window for some parent). *)
Definition in_collection (c : EntityCollection) (ty : string) (e : Entity) : bool :=
  match c with
  | All types => existsb (String.eqb ty) types
  | Window ws => existsb (fun w => existsb (fun id => in_window w ty id e) (ew_ids w)) ws
  end.

Definition selects (q : EntityQuery) (ty : string) (e : Entity) : bool :=
  in_collection (eq_collection q) ty e
  && match eq_filter q with None => true | Some f => sat f e end.

Lemma sat_and fs e : sat (FAnd fs) e = forallb (fun f => sat f e) fs.
Proof. simpl. induction fs as [|f fs IH]; simpl; [done|by rewrite IH]. Qed.

Lemma sat_or fs e : sat (FOr fs) e = existsb (fun f => sat f e) fs.
Proof. simpl. induction fs as [|f fs IH]; simpl; [done|by rewrite IH]. Qed.

Lemma sat_and_maybe f o e :
  sat (and_maybe f o) e = sat f e && match o with None => true | Some g => sat g e end.
Proof.
  destruct o as [g|]; [|by rewrite andb_true_r].
  assert (A : forall fs1 fs2, sat (FAnd (fs1 ++ fs2)) e = sat (FAnd fs1) e && sat (FAnd fs2) e)
    by (intros; by rewrite !sat_and, forallb_app).
  assert (O : forall h, sat (FAnd [h]) e = sat h e)
    by (intros; rewrite sat_and; simpl; by rewrite andb_true_r).
  destruct f, g; unfold and_maybe; try (by rewrite A, ?O, 1?andb_comm);
    try (by rewrite A, ?O);
    rewrite (A [_] [_] : sat (FAnd [_; _]) e = _); by rewrite !O.
Qed.

(** The filter that replaces a window means what the store promises for it. *)
Hypothesis atom_equal : forall a id e, atom (FEqual a (VString id)) e = has_value a (VString id) e.
Hypothesis atom_contains :
  forall a id e, atom (FContains a (VList [VString id])) e = holds_values a [VString id] e.

(** C37: Simplifying a query does not change what it selects, nor its subgraph,
    block, order and range; and it removes a window with a single parent id
    and a direct link. *)
Theorem simplify_preserves_meaning (q : EntityQuery) :
  (forall ty e, selects (simplify q) ty e = selects q ty e)
  /\ eq_subgraph_id (simplify q) = eq_subgraph_id q /\ eq_block (simplify q) = eq_block q
  /\ eq_order (simplify q) = eq_order q /\ eq_range (simplify q) = eq_range q
  /\ forall ty id a m, eq_collection q = Window [mk_window ty [id] (Direct a m)] ->
       eq_collection (simplify q) = All [ty].
Proof.
  unfold simplify.
  destruct (eq_collection q) as [types|[|w [|]]] eqn:Ec; try (by repeat split; [..|intros; congruence]).
  destruct w as [ty' ids link]. simpl.
  destruct ids as [|id [|]]; [by repeat split; [..|intros; congruence]| |by repeat split; [..|intros; congruence]].
  destruct link as [attribute m|l]; [|by repeat split; [..|intros; congruence]].
  repeat split; [|intros; by simplify_eq]. intros ty e. unfold selects. rewrite Ec. simpl.
  rewrite sat_and_maybe. unfold in_window. simpl. rewrite String.eqb_refl, !orb_false_r. simpl.
  rewrite andb_true_r.
  assert (D : sat (match attribute with
                   | WScalar name => FEqual name (VString id)
                   | WList name => FContains name (VList [VString id])
                   end) e = direct_child attribute id e).
  { destruct attribute; simpl; [apply atom_equal|apply atom_contains]. }
  by rewrite D, andb_assoc.
Qed.
End semantics.

(** ** Witness *)
Definition sample_atom (f : EntityFilter) (e : Entity) : bool :=
  match f with
  | FEqual a v => has_value a v e
  | FContains a (VList vs) => holds_values a vs e
  | _ => true
  end.

Lemma simplify_preserves_meaning_witness :
  let q := query_filter (query_new "sub" 7
             (Window [mk_window "Child" ["p"] (Direct (WScalar "parent") Many)]))
             (FOr [FEqual "x" (VInt 1); FEqual "x" (VInt 2)]) in
  let e : Entity := {["parent" := VString "p"; "x" := VInt 2]} in
  selects sample_atom (fun _ _ _ _ => false) (simplify q) "Child" e = true
  /\ selects sample_atom (fun _ _ _ _ => false) q "Child" e = true
  /\ selects sample_atom (fun _ _ _ _ => false) (simplify q) "Child" {["parent" := VString "o"]} = false.
Proof.
  intros q e.
  pose proof (simplify_preserves_meaning sample_atom (fun _ _ _ _ => false)
                (fun _ _ _ => eq_refl) (fun _ _ _ => eq_refl) q) as [H _].
  split; [vm_compute; reflexivity|]. split.
  - rewrite <- (H "Child" e). vm_compute. reflexivity.
  - vm_compute. reflexivity.
Defined.
