(* ===== verification/StoreEvents.v ===== *)
(** * Store events

    Models the events of [graph/src/components/store.rs]: entity changes,
    [StoreEvent], metadata operations, and the two stream transformers
    [filter_by_entities] and [throttle_while_syncing].

    A (fused) stream is the list of what its successive polls return; when the
    list is exhausted the stream has ended.  The throttled stream is a state
    and a function for one poll, whose inputs are the clock's: whether the
    synced flag is due for a refresh (and what the store answers), and whether
    the delay has elapsed. *)

From stdpp Require Import prelude list strings gmap.
From Stdlib Require Import ZArith Lia.
From S2P Require Import Prelude.
From S2P Require Import StoreValue.
From S2P Require Import EntityCache.
From S2P Require Import StoreQuery.

(** ** Changes *)
Inductive EntityChangeOperation := ChangeSet | ChangeRemoved.

#[export] Instance change_operation_eq_dec : EqDecision EntityChangeOperation.
Proof. solve_decision. Defined.

Record EntityChange := mk_change {
  ec_subgraph_id : string;
  ec_entity_type : string;
  ec_entity_id : string;
  ec_operation : EntityChangeOperation;
}.

#[export] Instance change_eq_dec : EqDecision EntityChange.
Proof. solve_decision. Defined.
#[export] Instance change_countable : Countable EntityChange.
Proof.
  refine (inj_countable'
    (fun c => (ec_subgraph_id c, ec_entity_type c, ec_entity_id c,
               match ec_operation c with ChangeSet => true | ChangeRemoved => false end))
    (fun x => let '(a, b, c, d) := x in
              mk_change a b c (if d : bool then ChangeSet else ChangeRemoved)) _).
  by intros [? ? ? []].
Defined.

Definition change_from_key (key : EntityKey) (operation : EntityChangeOperation) : EntityChange :=
  mk_change (subgraph_id key) (entity_type key) (key_entity_id key) operation.

Definition subgraph_entity_pair (c : EntityChange) : string * string :=
  (ec_subgraph_id c, ec_entity_type c).

(** ** Metadata operations *)
Inductive MetadataOperation :=
| MSet (entity id : string) (data : Entity)
| MRemove (entity id : string)
| MAbortUnless (description : string) (query : EntityQuery) (entity_ids : list string)
| MUpdate (entity id : string) (data : Entity).

Definition metadata_key (entity id : string) : EntityKey := mk_key SUBGRAPHS_ID entity id.

Definition change_of_metadata (op : MetadataOperation) : option EntityChange :=
  match op with
  | MSet entity id _ | MUpdate entity id _ =>
      Some (change_from_key (metadata_key entity id) ChangeSet)
  | MRemove entity id => Some (change_from_key (metadata_key entity id) ChangeRemoved)
  | MAbortUnless _ _ _ => None
  end.

(** ** Events.  The counter for the tags is passed along. *)
Record StoreEvent := mk_event { se_tag : Z; se_changes : gset EntityChange }.

Definition store_event_new (next_tag : Z) (changes : list EntityChange) : StoreEvent * Z :=
  (mk_event next_tag (list_to_set changes), wrap64 (next_tag + 1)).

Definition event_of_metadata (next_tag : Z) (ops : list MetadataOperation) : StoreEvent * Z :=
  store_event_new next_tag (omap change_of_metadata ops).

Definition change_of_modification (m : EntityModification) : EntityChange :=
  match m with
  | Insert key _ | Overwrite key _ => change_from_key key ChangeSet
  | Remove key => change_from_key key ChangeRemoved
  end.

Definition event_of_modifications (next_tag : Z) (mods : list EntityModification)
  : StoreEvent * Z := store_event_new next_tag (change_of_modification <$> mods).

Definition accumulate (ev1 : option StoreEvent) (ev2 : StoreEvent) : option StoreEvent :=
  match ev1 with
  | Some e => Some (mk_event (se_tag e) (se_changes e ∪ se_changes ev2))
  | None => Some ev2
  end.

Definition event_extend (self other : StoreEvent) : StoreEvent :=
  mk_event (se_tag self) (se_changes self ∪ se_changes other).

Definition event_eqb (a b : StoreEvent) : bool := bool_decide (se_changes a = se_changes b).

(** ** Streams *)
Inductive source_poll :=
| SItem (e : StoreEvent)
| SNotReady
| SError.

(** What a poll of the transformed stream returns. *)
Inductive poll_result :=
| PNotReady
| PReady (e : option StoreEvent)
| PError.

(** One poll of the source itself. *)
Definition source_poll_step (src : list source_poll) : poll_result * list source_poll :=
  match src with
  | [] => (PReady None, [])
  | SItem e :: src => (PReady (Some e), src)
  | SNotReady :: src => (PNotReady, src)
  | SError :: src => (PError, src)
  end.

Definition concerns (entities : list (string * string)) (event : StoreEvent) : bool :=
  existsb (fun change =>
    existsb (fun '(subgraph_id, entity_type) =>
               String.eqb subgraph_id (ec_subgraph_id change)
               && String.eqb entity_type (ec_entity_type change)) entities)
    (elements (se_changes event)).

Definition passes (entities : list (string * string)) (p : source_poll) : bool :=
  match p with SItem e => concerns entities e | _ => true end.

(** [Stream::filter] drops items and passes everything else on. *)
Definition filter_by_entities (entities : list (string * string)) (src : list source_poll)
  : list source_poll :=
  filter (fun p => passes entities p) src.

(** *** Throttling *)
Record Throttle := mk_throttle {
  th_synced : bool;
  th_pending : option StoreEvent;
  th_had_err : bool;
  th_source : list source_poll;
}.

(** What the store answers about the deployment: an error counts as not
    synced, and the subgraph of subgraphs never is. *)
Definition check_synced (is_deployment_synced : string -> res string bool) (deployment : string)
  : bool :=
  negb (String.eqb deployment SUBGRAPHS_ID)
  && match is_deployment_synced deployment with Ok b => b | _ => false end.

Record clock := mk_clock {
  (** [Some answer] when the synced flag is due for a refresh *)
  refresh : option bool;
  (** the delay has elapsed (or failed) *)
  elapsed : bool;
}.

(** The loop that takes what the source has. *)
Fixpoint drain (should_send : bool) (pending : option StoreEvent) (src : list source_poll)
  : poll_result * option StoreEvent * bool * list source_poll :=
  match src with
  | [] => (PReady pending, None, false, [])
  | SNotReady :: src =>
      match should_send, pending with
      | true, Some e => (PReady (Some e), None, false, src)
      | _, _ => (PNotReady, pending, false, src)
      end
  | SItem e :: src => drain should_send (accumulate pending e) src
  | SError :: src =>
      match pending with
      | Some e => (PReady (Some e), None, true, src)
      | None => (PError, None, false, src)
      end
  end.

Definition throttle_poll (c : clock) (s : Throttle) : poll_result * Throttle :=
  if th_had_err s
  then (PError, mk_throttle (th_synced s) (th_pending s) false (th_source s)) else
  let synced :=
    if negb (th_synced s)
    then match refresh c with Some answer => answer | None => th_synced s end
    else th_synced s in
  if synced then
    let '(r, src) := source_poll_step (th_source s) in
    (r, mk_throttle synced (th_pending s) (th_had_err s) src)
  else
    let '(r, pending, had_err, src) := drain (elapsed c) (th_pending s) (th_source s) in
    (r, mk_throttle synced pending had_err src).

Fixpoint throttle_run (cs : list clock) (s : Throttle) : list poll_result * Throttle :=
  match cs with
  | [] => ([], s)
  | c :: cs =>
      let '(r, s) := throttle_poll c s in
      let '(rs, s) := throttle_run cs s in
      (r :: rs, s)
  end.

(** The stream starts with the store's answer. *)
Definition throttle_while_syncing (synced : bool) (src : list source_poll) : Throttle :=
  mk_throttle synced None false src.

(** ** Lemmas and properties *)
Definition changes_of (o : option StoreEvent) : gset EntityChange :=
  match o with Some e => se_changes e | None => ∅ end.

Definition result_changes (r : poll_result) : gset EntityChange :=
  match r with PReady o => changes_of o | _ => ∅ end.

Definition source_changes (p : source_poll) : gset EntityChange :=
  match p with SItem e => se_changes e | _ => ∅ end.

Definition delivered (rs : list poll_result) : gset EntityChange := ⋃ (result_changes <$> rs).
Definition received (src : list source_poll) : gset EntityChange := ⋃ (source_changes <$> src).

Definition errors_in (src : list source_poll) : nat :=
  sum_list_with (fun p => match p with SError => 1 | _ => 0 end) src.
Definition errors_reported (rs : list poll_result) : nat :=
  sum_list_with (fun r => match r with PError => 1 | _ => 0 end) rs.

Lemma changes_of_accumulate o e : changes_of (accumulate o e) = changes_of o ∪ se_changes e.
Proof. destruct o; simpl; [done|]. by rewrite union_empty_l_L. Qed.

Definition err_count (b : bool) : nat := if b then 1 else 0.

(** Draining loses no change and no error, and keeps nothing that is due. *)
Lemma drain_spec should_send pending src r pending' had_err src' :
  drain should_send pending src = (r, pending', had_err, src') ->
  exists taken, src = taken ++ src'
  /\ result_changes r ∪ changes_of pending' = changes_of pending ∪ received taken
  /\ (match r with PError => 1 | _ => 0 end) + err_count had_err = errors_in taken.
Proof.
  unfold received, errors_in. revert pending. induction src as [|[e| |] src IH]; intros pending; simpl.
  - intros [= <- <- <- <-]. exists []. simpl. split; [done|]. split; [set_solver|done].
  - intros H. destruct (IH _ H) as (taken & -> & C & E). exists (SItem e :: taken).
    split; [done|]. split; [|done]. rewrite C, changes_of_accumulate. simpl. set_solver.
  - intros H. exists [SNotReady].
    destruct should_send, pending; injection H as <- <- <- <-; simpl;
      (split; [done|]; split; [set_solver|done]).
  - intros H. exists [SError].
    destruct pending; injection H as <- <- <- <-; simpl;
      (split; [done|]; split; [set_solver|done]).
Qed.

Lemma received_app a b : received (a ++ b) = received a ∪ received b.
Proof. unfold received. by rewrite fmap_app, union_list_app_L. Qed.

Lemma errors_in_app a b : errors_in (a ++ b) = errors_in a + errors_in b.
Proof. apply sum_list_with_app. Qed.

(** C35: Throttling loses nothing as long as the deployment is not found
    synced: after any number of polls, the changes delivered together with
    those pending are exactly the changes of the events taken from the source,
    and every error of the source is reported or about to be. *)
Theorem throttle_loses_nothing_while_syncing (cs : list clock) (s : Throttle) :
  th_synced s = false -> Forall (fun c => refresh c <> Some true) cs ->
  let '(rs, s') := throttle_run cs s in
  exists taken, th_source s = taken ++ th_source s'
  /\ delivered rs ∪ changes_of (th_pending s') = changes_of (th_pending s) ∪ received taken
  /\ errors_reported rs + err_count (th_had_err s') = err_count (th_had_err s) + errors_in taken.
Proof.
  intros Hs Hc. revert s Hs. induction Hc as [|c cs Hc _ IH]; intros s Hs.
  { exists []. unfold delivered, received. simpl. split; [done|]. split; [set_solver|].
    unfold errors_reported, errors_in. simpl. lia. }
  cbn [throttle_run]. destruct (throttle_poll c s) as [r s1] eqn:E.
  assert (H1 : th_synced s1 = false /\ exists taken, th_source s = taken ++ th_source s1
    /\ result_changes r ∪ changes_of (th_pending s1) = changes_of (th_pending s) ∪ received taken
    /\ (match r with PError => 1 | _ => 0 end) + err_count (th_had_err s1)
       = err_count (th_had_err s) + errors_in taken).
  { unfold throttle_poll in E. rewrite Hs in E. destruct (th_had_err s) eqn:He.
    - injection E as <- <-. split; [done|]. exists []. split; [done|]. unfold received. simpl.
      split; [set_solver|done].
    - assert (Hsy : match refresh c with Some answer => answer | None => false end = false)
        by (destruct (refresh c) as [[]|]; done).
      simpl in E. rewrite Hsy in E.
      destruct (drain (elapsed c) (th_pending s) (th_source s)) as [[[r' p'] h'] src'] eqn:Ed.
      injection E as <- <-. split; [done|]. by apply drain_spec in Ed. }
  destruct H1 as (Hs1 & taken1 & Et1 & C1 & E1). specialize (IH s1 Hs1).
  destruct (throttle_run cs s1) as [rs s2]. destruct IH as (taken2 & Et2 & C2 & E2).
  exists (taken1 ++ taken2). split; [by rewrite Et1, Et2, app_assoc|].
  unfold delivered in *. rewrite received_app, errors_in_app. cbn [fmap list_fmap union_list foldr].
  change (foldr union ∅ (result_changes <$> rs)) with (⋃ (result_changes <$> rs)).
  split; [|unfold errors_reported in *; simpl; lia].
  rewrite <- assoc_L, C2 by apply _. rewrite assoc_L by apply _. by rewrite C1, assoc_L by apply _.
Qed.

(** Events are delivered at most once per interval while syncing: a poll
    that finds the delay not elapsed returns an event only when the source has
    ended or failed, and one that finds it elapsed leaves nothing pending
    unless it reports an error. *)
Lemma throttle_rate (c : clock) (s : Throttle) :
  th_synced s = false -> refresh c <> Some true -> th_had_err s = false ->
  let '(r, s') := throttle_poll c s in
  (forall e, r = PReady (Some e) -> elapsed c = false ->
     th_source s' = [] /\ Forall (fun p => exists e, p = SItem e) (th_source s)
     \/ th_had_err s' = true)
  /\ (elapsed c = true -> th_pending s' = None).
Proof.
  intros Hs Hr He. unfold throttle_poll. rewrite He, Hs. simpl.
  replace (match refresh c with Some answer => answer | None => false end) with false
    by (destruct (refresh c) as [[]|]; done).
  generalize (th_pending s). induction (th_source s) as [|[e| |] src IH]; intros pending; simpl.
  - split; [|done]. intros e _ _. left. split; [done|constructor].
  - specialize (IH (accumulate pending e)).
    destruct (drain (elapsed c) (accumulate pending e) src) as [[[r p] h] src']. simpl in *.
    destruct IH as [H1 H2]. split; [|done]. intros e' E1 E2.
    destruct (H1 e' E1 E2) as [[? ?]|?]; [left|by right].
    split; [done|]. constructor; [by exists e|done].
  - destruct (elapsed c), pending; simpl; split; done.
  - destruct pending; simpl; split; try done. intros; by right.
Qed.

(** Once the deployment is synced a pending event is never delivered: all
    later polls return what they would return with nothing pending. *)
Lemma throttle_forgets_pending_when_synced (cs : list clock) (e : StoreEvent)
    (src : list source_poll) :
  let '(rs, s) := throttle_run cs (mk_throttle true (Some e) false src) in
  th_pending s = Some e
  /\ rs = fst (throttle_run cs (mk_throttle true None false src)).
Proof.
  revert src. induction cs as [|c cs IH]; intros src; [done|].
  cbn [throttle_run]. unfold throttle_poll. cbn [th_had_err th_synced th_pending th_source negb].
  destruct (source_poll_step src) as [r src']. specialize (IH src').
  destruct (throttle_run cs (mk_throttle true (Some e) false src')) as [rs s].
  destruct (throttle_run cs (mk_throttle true None false src')) as [rs2 s2].
  destruct IH as [H1 H2]. simpl in *. split; [done|]. by f_equal.
Qed.

(** ** Witnesses *)
Module Witness.
Definition change (id : string) : EntityChange := mk_change "sub" "T" id ChangeSet.
Definition ev (tag : Z) (id : string) : StoreEvent := mk_event tag {[change id]}.
Definition source : list source_poll :=
  [SItem (ev 1 "a"); SNotReady; SItem (ev 2 "b"); SNotReady; SItem (ev 3 "c"); SError].
Definition clocks : list clock :=
  [mk_clock None false; mk_clock (Some false) true; mk_clock None false; mk_clock None true].

Lemma throttle_loses_nothing_while_syncing_witness :
  let '(rs, s') := throttle_run clocks (throttle_while_syncing false source) in
  size (delivered rs) = 3 /\ errors_reported rs = 1
  /\ exists taken, source = taken ++ th_source s'.
Proof.
  assert (F : Forall (fun c => refresh c <> Some true) clocks) by (repeat constructor; done).
  pose proof (throttle_loses_nothing_while_syncing clocks
                (throttle_while_syncing false source) eq_refl F) as H.
  destruct (throttle_run clocks (throttle_while_syncing false source)) as [rs s'] eqn:E.
  destruct H as (taken & T & _).
  apply (f_equal fst) in E. simpl fst in E. subst rs.
  split; [vm_compute; reflexivity|]. split; [vm_compute; reflexivity|]. exists taken. exact T.
Defined.

Lemma throttle_rate_witness :
  th_pending (snd (throttle_poll (mk_clock None true)
    (throttle_while_syncing false [SItem (ev 1 "a"); SNotReady]))) = None.
Proof.
  pose proof (throttle_rate (mk_clock None true)
    (throttle_while_syncing false [SItem (ev 1 "a"); SNotReady]) eq_refl
    ltac:(discriminate) eq_refl) as H.
  destruct (throttle_poll _ _) as [r s'].
  exact (proj2 H eq_refl).
Defined.

(** An event received just before the deployment syncs is lost. *)
Example synced_loses_an_event :
  fst (throttle_run [mk_clock None false; mk_clock (Some true) true; mk_clock None true]
         (throttle_while_syncing false [SItem (ev 1 "a"); SNotReady; SNotReady; SItem (ev 2 "b")]))
  = [PNotReady; PNotReady; PReady (Some (ev 2 "b"))].
Proof. vm_compute. reflexivity. Qed.
End Witness.
