(* ===== verification/Metadata.v ===== *)
(** * Subgraph metadata: versions, deployments and assignments

    Models the default methods of the [Store] trait in
    [graph/src/components/store.rs] that read and write the subgraph of
    subgraphs, the metadata operations they use from
    [graph/src/data/subgraph/schema.rs], and
    [update_subgraph_synced_status] of
    [chain/ethereum/src/block_stream.rs].  The store's queries are the
    interface [MetaStore].  A hash set that is turned into a list is listed in
    the order of its elements. *)

From stdpp Require Import prelude list strings gmap.
From Stdlib Require Import ZArith Lia.
From S2P Require Import Prelude.
From S2P Require Import StoreValue.
From S2P Require Import EntityCache.
From S2P Require Import EthTypes.
From S2P Require Import StoreQuery.
From S2P Require Import StoreEvents.

#[local] Open Scope string_scope.
#[local] Open Scope list_scope.

(** [Result::unwrap] *)
Definition unwrap_res {E F A} (m : res E A) : res F A :=
  match m with Ok a => Ok a | _ => Panic end.

(** [TypedEntity::query] *)
Definition typed_query (TYPENAME : string) : EntityQuery :=
  query_range (query_new SUBGRAPHS_ID BLOCK_NUMBER_MAX (All [TYPENAME])) (mk_range None 0).

Definition typed_key (TYPENAME entity_id : string) : EntityKey :=
  mk_key SUBGRAPHS_ID TYPENAME entity_id.

Definition SubgraphEntity : string := "Subgraph".
Definition SubgraphVersionEntity : string := "SubgraphVersion".
Definition SubgraphDeploymentEntity : string := "SubgraphDeployment".
Definition SubgraphDeploymentAssignmentEntity : string := "SubgraphDeploymentAssignment".

Definition update_synced_operations (id : string) (synced : bool) : list MetadataOperation :=
  [MUpdate SubgraphDeploymentEntity id {["synced" := VBool synced]}].

(** [SubgraphDeploymentAssignmentEntity::new] and its [write_operations]; the
    cost is 1, an unsigned number and hence stored as a big integer. *)
Definition assignment_operations (node_id deployment_id : string) : list MetadataOperation :=
  [MSet SubgraphDeploymentAssignmentEntity deployment_id
     (<["id" := VString deployment_id]>
       (<["nodeId" := VString node_id]> {["cost" := VBigInt 1]}))].

Class MetaStore := {
  MetaError : Type;
  find : EntityQuery -> res MetaError (list Entity);
  meta_get : EntityKey -> res MetaError (option Entity);
}.

(** ** Assignments *)
Definition should_have_assignment (v : SubgraphVersionSummary) : bool :=
  sv_pending v || sv_current v.

Definition assigned (vs : list SubgraphVersionSummary) : gset string :=
  list_to_set (sv_deployment_id <$> filter (fun v => should_have_assignment v) vs).

Definition reconcile_assignments (versions_before versions_after : list SubgraphVersionSummary)
    (node_id : option string) : res Empty_set (list MetadataOperation) :=
  let assignments_before := assigned versions_before in
  let assignments_after := assigned versions_after in
  let removed_assignments := assignments_before ∖ assignments_after in
  let added_assignments := assignments_after ∖ assignments_before in
  let removals := (fun deployment_id => MRemove SubgraphDeploymentAssignmentEntity deployment_id)
                    <$> elements removed_assignments in
  let? additions := map_res (fun deployment_id =>
      let? node := unwrap node_id in Ok (assignment_operations node deployment_id))
    (elements added_assignments) in
  Ok (removals ++ mjoin additions).

Section store.
Context {MS : MetaStore}.

Definition is_deployed (id : string) : res MetaError bool :=
  if is_meta id then Ok true else
  let? entity_opt := meta_get (typed_key SubgraphDeploymentEntity id) in
  Ok (bool_decide (is_Some entity_opt)).

Definition is_deployment_synced (id : string) : res MetaError bool :=
  let? entity := meta_get (typed_key SubgraphDeploymentEntity id) in
  match entity with
  | Some entity =>
      match entity !! "synced" with
      | Some (VBool true) => Ok true
      | _ => Ok false
      end
  | None => Ok false
  end.

Definition entity_string (name : string) (e : Entity) : res MetaError string :=
  let? v := unwrap_res (ok_or (e !! name) tt) in
  unwrap_res (ok_or (as_string v) tt).

(** [Entity::get(name) == Some(&value)] *)
Definition get_is (name : string) (v : Value) (e : Entity) : bool :=
  match e !! name with Some w => Value_eqb w v | None => false end.

(** The test in [any]: an entity with the version in the field must be the
    version's subgraph. *)
Definition points_to (field version_id subgraph_id : string) (subgraph_entity : Entity)
  : res MetaError bool :=
  if get_is field (VString version_id) subgraph_entity then
    let? id := unwrap_res (entity_id subgraph_entity) in
    if String.eqb id subgraph_id then Ok true else Panic
  else Ok false.

Definition version_summary (subgraphs : list Entity) (version_entity : Entity)
  : res MetaError SubgraphVersionSummary :=
  let? version_entity_id := unwrap_res (entity_id version_entity) in
  let? subgraph_id := entity_string "subgraph" version_entity in
  let? is_current := any_res (points_to "currentVersion" version_entity_id subgraph_id) subgraphs in
  let? is_pending := any_res (points_to "pendingVersion" version_entity_id subgraph_id) subgraphs in
  let? deployment := entity_string "deployment" version_entity in
  let? deployment_id := unwrap_res (SubgraphDeploymentId_new deployment) in
  Ok {| sv_id := version_entity_id;
        sv_subgraph_id := subgraph_id;
        sv_deployment_id := deployment_id;
        sv_current := is_current;
        sv_pending := is_pending |}.

Definition read_subgraph_version_summaries (deployment_ids : list string)
  : res MetaError (list SubgraphVersionSummary * list MetadataOperation) :=
  let version_query :=
    query_filter (typed_query SubgraphVersionEntity)
      (new_in "deployment" (VString <$> deployment_ids)) in
  let? versions := find version_query in
  let? version_ids := map_res (fun e => unwrap_res (entity_id e)) versions in
  let op1 := MAbortUnless "Same set of subgraph versions must match filter" version_query
               version_ids in
  let subgraph_query :=
    query_filter (typed_query SubgraphEntity)
      (FOr [new_in "currentVersion" (VString <$> version_ids);
            new_in "pendingVersion" (VString <$> version_ids)]) in
  let? subgraphs := find subgraph_query in
  let? subgraph_ids := map_res (fun e => unwrap_res (entity_id e)) subgraphs in
  let op2 := MAbortUnless
               "Same set of subgraphs must have these versions as current or pending"
               subgraph_query (elements (list_to_set subgraph_ids : gset string)) in
  let? version_summaries := map_res (version_summary subgraphs) versions in
  Ok (version_summaries, [op1; op2]).

(** ** Marking a deployment as synced *)
Definition current_version_of (subgraph : Entity) : res MetaError (option string) :=
  match subgraph !! "currentVersion" with
  | Some (VString id) => Ok (Some id)
  | Some VNull => Ok None
  | Some _ => Panic
  | None => Ok None
  end.

Definition demote (current_version_ids : list string) (v : SubgraphVersionSummary)
  : SubgraphVersionSummary :=
  if bool_decide (sv_id v ∈ current_version_ids) then
    {| sv_id := sv_id v; sv_subgraph_id := sv_subgraph_id v;
       sv_deployment_id := sv_deployment_id v; sv_pending := sv_pending v; sv_current := false |}
  else v.

Definition promote (subgraph : Entity) : res MetaError MetadataOperation :=
  let? id := unwrap_res (entity_id subgraph) in
  let? pending := unwrap_res (ok_or (subgraph !! "pendingVersion") tt) in
  Ok (MSet SubgraphEntity id
        (<["id" := VString id]> (<["pendingVersion" := VNull]> {["currentVersion" := pending]}))).

Definition affected_deployment (version : Entity) : res MetaError string :=
  let? deployment := entity_string "deployment" version in
  unwrap_res (SubgraphDeploymentId_new deployment).

(** The operations of [update_subgraph_synced_status], [None] when the
    subgraph is not synced yet. *)
Definition synced_operations (subgraph_id : string)
    (head_ptr_opt subgraph_ptr : option EthereumBlockPointer)
  : res MetaError (option (list MetadataOperation)) :=
  if bool_decide (head_ptr_opt <> subgraph_ptr) || bool_decide (head_ptr_opt = None)
     || bool_decide (subgraph_ptr = None)
  then Ok None else
  let ops1 := update_synced_operations subgraph_id true in
  let version_query := query_filter (typed_query SubgraphVersionEntity)
                         (FEqual "deployment" (VString subgraph_id)) in
  let? versions := find version_query in
  let? version_ids := map_res (fun e => unwrap_res (entity_id e)) versions in
  let ops2 := [MAbortUnless "The same subgraph version entities must point to this deployment"
                 version_query version_ids] in
  let pending_query := query_filter (typed_query SubgraphEntity)
                         (FIn "pendingVersion" (VString <$> version_ids)) in
  let? subgraphs_to_update := find pending_query in
  let? subgraph_ids_to_update := map_res (fun e => unwrap_res (entity_id e)) subgraphs_to_update in
  let ops3 := [MAbortUnless "The same subgraph entities must have these versions pending"
                 pending_query subgraph_ids_to_update] in
  let? current := map_res current_version_of subgraphs_to_update in
  let current_version_ids := omap id current in
  let? current_versions := find (query_filter (typed_query SubgraphVersionEntity)
                                   (new_in "id" (VString <$> current_version_ids))) in
  let? hashes := map_res affected_deployment current_versions in
  let subgraph_hashes_affected := elements (list_to_set hashes : gset string) in
  let? x := read_subgraph_version_summaries subgraph_hashes_affected in
  let '(versions_before, read_summary_ops) := x in
  let versions_after := demote current_version_ids <$> versions_before in
  let? assignment_ops := lift_panic (reconcile_assignments versions_before versions_after None) in
  let? promotions := map_res promote subgraphs_to_update in
  Ok (Some (ops1 ++ ops2 ++ ops3 ++ read_summary_ops ++ assignment_ops ++ promotions)).
End store.

(** ** What operations do to the metadata *)
Definition apply_metadata (m : gmap EntityKey Entity) (op : MetadataOperation)
  : gmap EntityKey Entity :=
  match op with
  | MSet ty id data => <[metadata_key ty id := data ∪ default ∅ (m !! metadata_key ty id)]> m
  | MUpdate ty id data => alter (fun e => data ∪ e) (metadata_key ty id) m
  | MRemove ty id => delete (metadata_key ty id) m
  | MAbortUnless _ _ _ => m
  end.

Definition assignment_key (d : string) : EntityKey :=
  metadata_key SubgraphDeploymentAssignmentEntity d.

Section reconcile.
Implicit Types (m : gmap EntityKey Entity).

Lemma assignment_key_inj d d' : assignment_key d = assignment_key d' -> d = d'.
Proof. by intros [= ->]. Qed.

Lemma apply_removals ds m k :
  foldl apply_metadata m (MRemove SubgraphDeploymentAssignmentEntity <$> ds) !! k
  = if bool_decide (k ∈ assignment_key <$> ds) then None else m !! k.
Proof.
  revert m. induction ds as [|d ds IH]; intros m; [done|].
  rewrite !fmap_cons. cbn [foldl apply_metadata]. rewrite IH.
  fold (assignment_key d). destruct (decide (k = assignment_key d)) as [->|N].
  - rewrite lookup_delete_eq. rewrite (bool_decide_eq_true_2 (assignment_key d ∈ assignment_key d :: _)) by left. by case_bool_decide.
  - rewrite lookup_delete_ne by done.
    rewrite (bool_decide_ext (k ∈ assignment_key d :: (assignment_key <$> ds)) (k ∈ assignment_key <$> ds));
      [done|]. rewrite elem_of_cons. tauto.
Qed.

Definition assignment_entity (node d : string) : Entity :=
  <["id" := VString d]> (<["nodeId" := VString node]> {["cost" := VBigInt 1]}).

Lemma apply_additions node ds m k :
  NoDup ds ->
  foldl apply_metadata m (mjoin (assignment_operations node <$> ds)) !! k
  = match list_find (fun d => k = assignment_key d) ds with
    | Some (_, d) => Some (assignment_entity node d ∪ default ∅ (m !! k))
    | None => m !! k
    end.
Proof.
  revert m. induction ds as [|d ds IH]; intros m ND; [done|].
  apply NoDup_cons in ND as [Nd ND].
  rewrite fmap_cons. cbn [mjoin list_join]. unfold assignment_operations at 1.
  cbn [app foldl apply_metadata]. rewrite (IH _ ND). cbn [list_find].
  fold (assignment_key d) (assignment_entity node d).
  destruct (decide (k = assignment_key d)) as [->|N].
  - destruct (list_find _ ds) as [[i d']|] eqn:F.
    + apply list_find_Some in F as (F & E & _). apply assignment_key_inj in E as <-.
      by apply list_elem_of_lookup_2 in F.
    + by rewrite lookup_insert_eq.
  - rewrite lookup_insert_ne by done. by destruct (list_find _ ds) as [[i d']|].
Qed.

(** One deployment after the operations. *)
Lemma reconcile_lookup node (B A : gset string) m d :
  (forall d, d ∈ B ∪ A -> is_Some (m !! assignment_key d) <-> d ∈ B) -> d ∈ B ∪ A ->
  match list_find (fun d' => assignment_key d = assignment_key d') (elements (A ∖ B)) with
  | Some (_, d') => Some (assignment_entity node d' ∪
      default ∅ (if bool_decide (assignment_key d ∈ assignment_key <$> elements (B ∖ A))
                 then None else m !! assignment_key d))
  | None => if bool_decide (assignment_key d ∈ assignment_key <$> elements (B ∖ A))
            then None else m !! assignment_key d
  end
  = if decide (d ∈ A) then if decide (d ∈ B) then m !! assignment_key d
                           else Some (assignment_entity node d)
    else None.
Proof.
  intros Hm Hd.
  assert (R : assignment_key d ∈ assignment_key <$> elements (B ∖ A) <-> d ∈ B ∖ A).
  { rewrite list_elem_of_fmap. split.
    - intros (d' & E%assignment_key_inj & H). subst. by apply elem_of_elements.
    - intros H. exists d. by rewrite elem_of_elements. }
  destruct (list_find _ _) as [[i d']|] eqn:F.
  - apply list_find_Some in F as (F & E%assignment_key_inj & _). subst d'.
    apply list_elem_of_lookup_2, elem_of_elements in F.
    rewrite decide_True, decide_False by set_solver.
    rewrite bool_decide_eq_false_2 by (rewrite R; set_solver).
    destruct (m !! assignment_key d) eqn:Em; [|simpl; by rewrite right_id_L by apply _].
    exfalso. assert (d ∈ B) by (apply Hm; [done|by eexists]). set_solver.
  - apply list_find_None in F. rewrite Forall_forall in F.
    assert (Nd : d ∉ A ∖ B) by (intros H%elem_of_elements; by apply (F d H)).
    destruct (decide (d ∈ A)).
    + rewrite decide_True by set_solver. rewrite bool_decide_eq_false_2; [done|]. rewrite R. set_solver.
    + rewrite bool_decide_eq_true_2; [done|]. rewrite R. set_solver.
Qed.

(** The node is needed exactly when something is added. *)
Lemma reconcile_panics (before after : list SubgraphVersionSummary) node_id :
  reconcile_assignments before after node_id = Panic
  <-> node_id = None /\ assigned after ⊈ assigned before.
Proof.
  unfold reconcile_assignments. set (B := assigned before). set (A := assigned after).
  destruct node_id as [node|]; simpl.
  - rewrite (map_res_all_ok _ (assignment_operations node)) by done. by split; [|intros []].
  - destruct (elements (A ∖ B)) as [|d ds] eqn:E; simpl.
    + split; [done|]. intros [_ N]. exfalso. apply N. intros d Hd.
      destruct (decide (d ∈ B)) as [|Nd]; [done|].
      assert (H : d ∈ elements (A ∖ B)) by (apply elem_of_elements; set_solver).
      rewrite E in H. by apply elem_of_nil in H.
    + split; [|done]. intros _. split; [done|]. intros S.
      assert (H : d ∈ A ∖ B) by (apply elem_of_elements; rewrite E; left). set_solver.
Qed.

Lemma reconcile_operations (before after : list SubgraphVersionSummary) node_id ops :
  reconcile_assignments before after node_id = Ok ops ->
  exists node, (node_id = Some node \/ elements (assigned after ∖ assigned before) = [])
  /\ ops = (MRemove SubgraphDeploymentAssignmentEntity <$>
             elements (assigned before ∖ assigned after))
           ++ mjoin (assignment_operations node <$> elements (assigned after ∖ assigned before)).
Proof.
  unfold reconcile_assignments. intros Hops. destruct node_id as [node|].
  - rewrite (map_res_all_ok _ (assignment_operations node)) in Hops by done.
    injection Hops as <-. exists node. split; [by left|done].
  - destruct (elements (assigned after ∖ _)) as [|d ds]; [|done]. injection Hops as <-. exists "".
    split; [by right|done].
Qed.

(** C34: Reconciling assignments turns the assignments of the versions before
    into those of the versions after: applied to metadata in which exactly the
    deployments of current or pending versions before are assigned (among
    those concerned), the operations leave exactly those of the versions
    after assigned, new ones to the given node, and touch nothing else.  It
    panics exactly when an assignment is to be added and no node is given. *)
Theorem reconcile_assignments_spec (before after : list SubgraphVersionSummary)
    (node_id : option string) (m : gmap EntityKey Entity) :
  (forall d, d ∈ assigned before ∪ assigned after ->
     is_Some (m !! assignment_key d) <-> d ∈ assigned before) ->
  (reconcile_assignments before after node_id = Panic
     <-> node_id = None /\ assigned after ⊈ assigned before)
  /\ forall ops, reconcile_assignments before after node_id = Ok ops ->
     let m' := foldl apply_metadata m ops in
     (forall d, d ∈ assigned before ∪ assigned after ->
        is_Some (m' !! assignment_key d) <-> d ∈ assigned after)
     /\ (forall d node, d ∈ assigned after ∖ assigned before -> node_id = Some node ->
        m' !! assignment_key d = Some (assignment_entity node d))
     /\ (forall k, (forall d, d ∈ assigned before ∪ assigned after -> k <> assignment_key d) ->
        m' !! k = m !! k).
Proof.
  intros Hm. split; [apply reconcile_panics|]. intros ops (node & Hn & ->)%reconcile_operations.
  set (B := assigned before) in *. set (A := assigned after) in *.
  set (m' := foldl apply_metadata m _).
  assert (L : forall k, m' !! k = match list_find (fun d => k = assignment_key d) (elements (A ∖ B)) with
      | Some (_, d) => Some (assignment_entity node d ∪
          default ∅ (if bool_decide (k ∈ assignment_key <$> elements (B ∖ A)) then None else m !! k))
      | None => if bool_decide (k ∈ assignment_key <$> elements (B ∖ A)) then None else m !! k
      end).
  { intros k. unfold m'. rewrite foldl_app, apply_additions by apply NoDup_elements.
    by rewrite apply_removals. }
  clearbody m'. split; [|split].
  - intros d Hd. rewrite L, (reconcile_lookup node B A m d Hm Hd).
    repeat case_decide; split; try done; try set_solver; intros _; by eexists.
  - intros d node' Hd ->. destruct Hn as [[= <-]|En].
    + rewrite L, (reconcile_lookup node' B A m d Hm) by set_solver.
      rewrite decide_True, decide_False by set_solver. done.
    + apply elem_of_elements in Hd. rewrite En in Hd. by apply elem_of_nil in Hd.
  - intros k Hk. rewrite L.
    destruct (list_find _ _) as [[i d]|] eqn:F.
    + apply list_find_Some in F as (F & E & _). apply list_elem_of_lookup_2, elem_of_elements in F.
      exfalso. apply (Hk d); [set_solver|done].
    + rewrite bool_decide_eq_false_2; [done|]. intros (d & -> & Hd)%list_elem_of_fmap.
      apply elem_of_elements in Hd. apply (Hk d); [set_solver|done].
Qed.
End reconcile.

(** ** Demotion *)
Lemma elem_of_assigned vs d :
  d ∈ assigned vs <-> exists v, v ∈ vs /\ should_have_assignment v = true /\ sv_deployment_id v = d.
Proof.
  unfold assigned. rewrite elem_of_list_to_set, list_elem_of_fmap.
  setoid_rewrite list_elem_of_filter. setoid_rewrite Is_true_true. split.
  - intros (v & -> & Hv & Hin). by exists v.
  - intros (v & Hin & Hv & <-). by exists v.
Qed.

Lemma demote_deployment ids v : sv_deployment_id (demote ids v) = sv_deployment_id v.
Proof. unfold demote. by case_bool_decide. Qed.

Lemma demote_assignment ids v :
  should_have_assignment (demote ids v)
  = sv_pending v || (sv_current v && negb (bool_decide (sv_id v ∈ ids))).
Proof.
  unfold demote, should_have_assignment. case_bool_decide; simpl; [|by rewrite andb_true_r].
  by rewrite andb_false_r.
Qed.

(** When a deployment has synced, demoting the versions it replaces never
    needs a node: the operations only remove assignments, namely those of the
    deployments all of whose current or pending versions were current, are
    demoted and are not pending. *)
Lemma demotion_only_unassigns (ids : list string) (vs : list SubgraphVersionSummary) :
  exists ds, reconcile_assignments vs (demote ids <$> vs) None
    = Ok (MRemove SubgraphDeploymentAssignmentEntity <$> ds)
  /\ NoDup ds
  /\ forall d, d ∈ ds <->
       (exists v, v ∈ vs /\ should_have_assignment v = true /\ sv_deployment_id v = d)
       /\ forall v, v ∈ vs -> sv_deployment_id v = d -> should_have_assignment v = true ->
            sv_pending v = false /\ sv_id v ∈ ids.
Proof.
  assert (Sub : assigned (demote ids <$> vs) ⊆ assigned vs).
  { intros d (w & (v & -> & Hv)%list_elem_of_fmap & Hw & <-)%elem_of_assigned.
    apply elem_of_assigned. exists v. split; [done|]. rewrite demote_deployment. split; [|done].
    rewrite demote_assignment in Hw. unfold should_have_assignment.
    destruct (sv_pending v), (sv_current v); done. }
  exists (elements (assigned vs ∖ assigned (demote ids <$> vs))). split; [|split].
  - unfold reconcile_assignments.
    assert (E : assigned (demote ids <$> vs) ∖ assigned vs = ∅) by set_solver.
    rewrite E, elements_empty. simpl. by rewrite app_nil_r.
  - apply NoDup_elements.
  - intros d. rewrite elem_of_elements, elem_of_difference, !elem_of_assigned. split.
    + intros [Hd Nd]. split; [done|]. intros v Hv Ed Ha.
      destruct (should_have_assignment (demote ids v)) eqn:D.
      * exfalso. apply Nd. exists (demote ids v). rewrite demote_deployment.
        split; [by apply list_elem_of_fmap_2|done].
      * rewrite demote_assignment in D. unfold should_have_assignment in Ha.
        apply orb_false_iff in D as [Dp Dc]. rewrite Dp in Ha. simpl in Ha. rewrite Ha in Dc.
        split; [done|]. by case_bool_decide.
    + intros [Hd A]. split; [done|]. intros (w & (v & -> & Hv)%list_elem_of_fmap & Hw & Ed).
      rewrite demote_deployment in Ed. rewrite demote_assignment in Hw.
      destruct (A v Hv Ed) as [P I].
      { unfold should_have_assignment. destruct (sv_pending v), (sv_current v); done. }
      rewrite P, bool_decide_eq_true_2, andb_false_r in Hw by done. done.
Qed.

(** ** Witness *)
Module Witness.
Definition summary (id dep : string) (current : bool) : SubgraphVersionSummary :=
  {| sv_id := id; sv_subgraph_id := "s"; sv_deployment_id := dep;
     sv_pending := false; sv_current := current |}.

Lemma reconcile_assignments_spec_witness :
  let before := [summary "v1" "QmA" true; summary "v2" "QmB" false] in
  let after := [summary "v1" "QmA" false; summary "v2" "QmB" true] in
  let m : gmap EntityKey Entity := {[assignment_key "QmA" := assignment_entity "n0" "QmA"]} in
  exists ops, reconcile_assignments before after (Some "n1") = Ok ops
  /\ foldl apply_metadata m ops !! assignment_key "QmB" = Some (assignment_entity "n1" "QmB")
  /\ reconcile_assignments before after None = Panic.
Proof.
  intros before after m.
  assert (EB : assigned before = {["QmA"]}) by reflexivity.
  assert (EA : assigned after = {["QmB"]}) by reflexivity.
  assert (Hm : forall d, d ∈ assigned before ∪ assigned after ->
                 is_Some (m !! assignment_key d) <-> d ∈ assigned before).
  { rewrite EB, EA. intros d [->%elem_of_singleton| ->%elem_of_singleton]%elem_of_union; split; intros H.
    - by apply elem_of_singleton.
    - by eexists.
    - by destruct H.
    - by apply elem_of_singleton in H. }
  destruct (reconcile_assignments_spec before after (Some "n1") m Hm) as [_ H].
  eexists. split; [reflexivity|]. split.
  - apply (H _ eq_refl); [|done]. rewrite EB, EA. set_solver.
  - apply (reconcile_assignments_spec before after None m Hm). split; [done|].
    rewrite EB, EA. set_solver.
Defined.
End Witness.
