(* ===== verification/Float64.v ===== *)
(** * 64-bit floating-point numbers

    Rust's [f64] as far as the program computes with it: conversion from and
    to [u64], division, [max] and [min].  Numbers, division and rounding are
    those of the Standard Library's [SpecFloat] (IEEE 754 binary64, to nearest
    even); comparison is that of the values. *)

From stdpp Require Import prelude.
From Stdlib Require Import ZArith Lia Floats.SpecFloat.
From S2P Require Import Prelude.

#[local] Open Scope Z_scope.

Definition f64 : Set := spec_float.

(** [n as f64] for an unsigned [n] *)
Definition f64_of_u64 (n : Z) : f64 := binary_normalize 53 1024 n 0 false.

Definition f64_div (x y : f64) : f64 := SFdiv 53 1024 x y.

(** A finite number is [m * 2 ^ e]; two are compared at the lower exponent. *)
Definition cmp_finite (m1 e1 m2 e2 : Z) : comparison :=
  let e := Z.min e1 e2 in
  Z.compare (m1 * 2 ^ (e1 - e)) (m2 * 2 ^ (e2 - e)).

Definition mantissa (s : bool) (m : positive) : Z := if s then Z.neg m else Z.pos m.

Definition f64_cmp (x y : f64) : option comparison :=
  match x, y with
  | S754_nan, _ | _, S754_nan => None
  | S754_infinity s, S754_infinity s' => Some (Bool.compare s' s)
  | S754_infinity s, _ => Some (if s then Lt else Gt)
  | _, S754_infinity s => Some (if s then Gt else Lt)
  | S754_zero _, S754_zero _ => Some Eq
  | S754_zero _, S754_finite s m e => Some (if s then Gt else Lt)
  | S754_finite s m e, S754_zero _ => Some (if s then Lt else Gt)
  | S754_finite s m e, S754_finite s' m' e' =>
      Some (cmp_finite (mantissa s m) e (mantissa s' m') e')
  end.

Definition is_nan (x : f64) : bool := match x with S754_nan => true | _ => false end.

Definition f64_eqb (x y : f64) : bool :=
  match f64_cmp x y with Some Eq => true | _ => false end.

(** [f64::max] and [f64::min]: of a number and a NaN, the number. *)
Definition f64_max (x y : f64) : f64 :=
  match f64_cmp x y with
  | Some Lt => y
  | Some _ => x
  | None => if is_nan x then y else x
  end.

Definition f64_min (x y : f64) : f64 :=
  match f64_cmp x y with
  | Some Gt => y
  | Some _ => x
  | None => if is_nan x then y else x
  end.

(** [x as u64]: towards zero, saturating, and 0 for a NaN *)
Definition f64_to_u64 (x : f64) : Z :=
  match x with
  | S754_nan | S754_zero _ => 0
  | S754_infinity s => if s then 0 else u64_max
  | S754_finite true _ _ => 0
  | S754_finite false m e =>
      Z.min u64_max (if 0 <=? e then Z.pos m * 2 ^ e else Z.pos m / 2 ^ (- e))
  end.

(** ** Small integers are exact *)
Definition represents (x : f64) (n : Z) : Prop :=
  exists m e, x = S754_finite false m e /\ e <= 0 /\ Z.pos m = n * 2 ^ (- e).

Lemma digits_shift p k :
  Z.pos (digits2_pos (Pos.iter xO p k)) = Z.pos (digits2_pos p) + Z.pos k.
Proof.
  induction k as [|k IH] using Pos.peano_ind; [simpl; lia|].
  rewrite Pos.iter_succ. cbn [digits2_pos]. lia.
Qed.

Lemma shift_value p k : Z.pos (Pos.iter xO p k) = Z.pos p * 2 ^ Z.pos k.
Proof.
  induction k as [|k IH] using Pos.peano_ind; [simpl; lia|].
  rewrite Pos.iter_succ, Pos2Z.inj_xO, IH, Pos2Z.inj_succ, Z.pow_succ_r by lia. lia.
Qed.

Lemma digits_pow p : 2 ^ (Z.pos (digits2_pos p) - 1) <= Z.pos p.
Proof.
  induction p as [p IH|p IH|]; cbn [digits2_pos]; [..|done]; rewrite Pos2Z.inj_succ;
    replace (Z.succ (Z.pos (digits2_pos p)) - 1) with (Z.succ (Z.pos (digits2_pos p) - 1)) by lia;
    rewrite Z.pow_succ_r by lia; lia.
Qed.

Lemma digits_small p k : Z.pos p < 2 ^ k -> 0 <= k -> Z.pos (digits2_pos p) <= k.
Proof.
  intros H Hk. pose proof (digits_pow p).
  destruct (Z_le_gt_dec (Z.pos (digits2_pos p)) k) as [|G]; [done|].
  assert (2 ^ k <= 2 ^ (Z.pos (digits2_pos p) - 1)) by (apply Z.pow_le_mono_r; lia). lia.
Qed.

(** A mantissa of 53 bits needs no rounding. *)
Lemma round_exact p e :
  Z.pos (digits2_pos p) = 53 -> -1000 <= e <= 0 ->
  binary_round_aux 53 1024 false (Z.pos p) e loc_Exact = S754_finite false p e.
Proof.
  intros D He. unfold binary_round_aux, shr_fexp. cbn [Zdigits2].
  assert (F : fexp 53 1024 (Z.pos (digits2_pos p) + e) - e = 0)
    by (unfold fexp, SpecFloat.emin; lia).
  rewrite F. cbn [shr shr_record_of_loc shr_m loc_of_shr_record round_nearest_even Zdigits2].
  rewrite F. cbn [shr shr_record_of_loc shr_m].
  by replace (e <=? 1024 - 53) with true by lia.
Qed.

Lemma f64_of_u64_exact n : 0 < n < 2 ^ 53 -> represents (f64_of_u64 n) n.
Proof.
  intros [Hn Hb]. destruct n as [|p|]; [done| |done].
  pose proof (digits_small p 53 Hb ltac:(lia)) as D.
  unfold f64_of_u64, binary_normalize, binary_round, shl_align.
  replace (fexp 53 1024 (Z.pos (digits2_pos p) + 0) - 0) with (Z.pos (digits2_pos p) - 53)
    by (unfold fexp, SpecFloat.emin; lia).
  assert (F : fexp 53 1024 (Z.pos (digits2_pos p) + 0) = Z.pos (digits2_pos p) - 53)
    by (unfold fexp, SpecFloat.emin; lia).
  rewrite F. destruct (Z.pos (digits2_pos p) - 53) as [|k|k] eqn:E; [|lia|].
  - rewrite round_exact by lia. exists p, 0. split; [done|]. lia.
  - rewrite round_exact by (rewrite ?digits_shift; lia).
    exists (Pos.iter xO p k), (Z.neg k). split; [done|]. split; [lia|]. by rewrite shift_value.
Qed.

(** ** Clamping *)

(** The integer part against an exactly represented integer. *)
Lemma to_u64_ge x y n :
  represents y n -> 0 < n <= u64_max -> f64_cmp x y <> Some Lt -> is_nan x = false ->
  n <= f64_to_u64 x.
Proof.
  intros (m & e & -> & He & Hm) Hn Hc Hx.
  destruct x as [s|[]| |[] m' e']; try done; cbn [f64_cmp f64_to_u64] in *; [lia| |].
  { exfalso. apply Hc. unfold cmp_finite, mantissa. f_equal.
    assert (0 < 2 ^ (e' - Z.min e' e)) by (apply Z.pow_pos_nonneg; lia).
    assert (0 < 2 ^ (e - Z.min e' e)) by (apply Z.pow_pos_nonneg; lia).
    apply Z.compare_lt_iff. nia. }
  apply Z.min_glb; [lia|]. unfold cmp_finite, mantissa in Hc.
  assert (H : Z.pos m * 2 ^ (e - Z.min e' e) <= Z.pos m' * 2 ^ (e' - Z.min e' e)).
  { apply Z.nlt_ge. intros L. apply Hc. f_equal. by apply Z.compare_lt_iff. }
  rewrite Hm in H. destruct (Z.leb_spec 0 e').
  - rewrite Z.min_r in H by lia. replace (e - e) with 0 in H by lia.
    replace (e' - e) with (e' + - e) in H by lia. rewrite Z.pow_add_r in H by lia.
    assert (0 < 2 ^ (- e)) by (apply Z.pow_pos_nonneg; lia). nia.
  - apply Z.div_le_lower_bound; [apply Z.pow_pos_nonneg; lia|].
    destruct (Z.le_ge_cases e' e).
    + rewrite Z.min_l in H by lia. replace (e' - e') with 0 in H by lia.
      replace (- e') with (- e + (e - e')) by lia. rewrite Z.pow_add_r by lia. lia.
    + rewrite Z.min_r in H by lia. replace (e - e) with 0 in H by lia.
      replace (- e) with (- e' + (e' - e)) in H by lia. rewrite Z.pow_add_r in H by lia.
      assert (0 < 2 ^ (e' - e)) by (apply Z.pow_pos_nonneg; lia). nia.
Qed.

Lemma to_u64_le x y n :
  represents y n -> 0 < n -> f64_cmp x y <> Some Gt -> f64_to_u64 x <= n.
Proof.
  intros (m & e & -> & He & Hm) Hn Hc.
  destruct x as [s|[]| |[] m' e']; try done; cbn [f64_cmp f64_to_u64] in *; try lia.
  etransitivity; [apply Z.le_min_r|]. unfold cmp_finite, mantissa in Hc.
  assert (H : Z.pos m' * 2 ^ (e' - Z.min e' e) <= Z.pos m * 2 ^ (e - Z.min e' e)).
  { apply Z.nlt_ge. intros L. apply Hc. f_equal. by apply Z.compare_gt_iff. }
  rewrite Hm in H. destruct (Z.leb_spec 0 e').
  - rewrite Z.min_r in H by lia. replace (e - e) with 0 in H by lia.
    replace (e' - e) with (e' + - e) in H by lia. rewrite Z.pow_add_r in H by lia.
    assert (0 < 2 ^ (- e)) by (apply Z.pow_pos_nonneg; lia). nia.
  - assert (0 < 2 ^ (- e')) by (apply Z.pow_pos_nonneg; lia).
    apply Z.lt_succ_r, Z.div_lt_upper_bound; [done|].
    destruct (Z.le_ge_cases e' e).
    + rewrite Z.min_l in H by lia. replace (e' - e') with 0 in H by lia.
      replace (- e') with (- e + (e - e')) in * by lia. rewrite Z.pow_add_r in * by lia. nia.
    + rewrite Z.min_r in H by lia. replace (e - e) with 0 in H by lia.
      replace (- e) with (- e' + (e' - e)) in H by lia. rewrite Z.pow_add_r in H by lia.
      assert (0 < 2 ^ (e' - e)) by (apply Z.pow_pos_nonneg; lia). nia.
Qed.

Lemma cmp_refl x : is_nan x = false -> f64_cmp x x = Some Eq.
Proof.
  destruct x as [|[]| |]; try done. intros _. simpl. unfold cmp_finite. by rewrite Z.compare_refl.
Qed.

Lemma represents_not_nan x n : represents x n -> is_nan x = false.
Proof. by intros (? & ? & -> & _). Qed.

Lemma max_ge x y : is_nan y = false -> f64_cmp (f64_max x y) y <> Some Lt
  /\ is_nan (f64_max x y) = false.
Proof.
  intros Hy. unfold f64_max. destruct (f64_cmp x y) as [[]|] eqn:E.
  - rewrite E. split; [done|]. by destruct x.
  - by rewrite cmp_refl.
  - rewrite E. split; [done|]. by destruct x.
  - destruct x; cbn [is_nan] in *; try by destruct y. by rewrite cmp_refl.
Qed.

Lemma min_le x y : is_nan y = false -> f64_cmp (f64_min x y) y <> Some Gt.
Proof.
  intros Hy. unfold f64_min. destruct (f64_cmp x y) as [[]|] eqn:E; rewrite ?E; try done.
  - by rewrite cmp_refl.
  - destruct x; cbn [is_nan] in *; try by destruct y. by rewrite cmp_refl.
Qed.

(** [x.max(1.0).min(n as f64) as u64] is between 1 and [n]. *)
Lemma clamp_bounds x n :
  0 < n < 2 ^ 53 ->
  1 <= f64_to_u64 (f64_min (f64_max x (f64_of_u64 1)) (f64_of_u64 n)) <= n.
Proof.
  intros Hn. pose proof (f64_of_u64_exact n Hn) as Rn.
  pose proof (f64_of_u64_exact 1 ltac:(lia)) as R1.
  pose proof (represents_not_nan _ _ Rn) as Nn.
  pose proof (represents_not_nan _ _ R1) as N1.
  split; [|apply (to_u64_le _ _ n Rn); [lia|by apply min_le]].
  destruct (max_ge x (f64_of_u64 1) N1) as [Ge Nm]. unfold f64_min.
  assert (L1 : 1 <= f64_to_u64 (f64_max x (f64_of_u64 1)))
    by (apply (to_u64_ge _ _ 1 R1); [lia|exact Ge|exact Nm]).
  assert (Ln : 1 <= f64_to_u64 (f64_of_u64 n)).
  { transitivity n; [lia|]. apply (to_u64_ge _ _ n Rn); [lia| |exact Nn]. rewrite (cmp_refl _ Nn). discriminate. }
  destruct (f64_cmp (f64_max _ _) (f64_of_u64 n)) as [[]|]; [exact L1|exact L1|exact Ln|].
  rewrite Nm. exact L1.
Qed.
