(* ===== verification/BlockStream.v ===== *)
(** * The block stream

    Models [chain/ethereum/src/block_stream.rs]: how the next reconciliation
    step is chosen and done, the size of block ranges, and the state machine
    of the stream.  (The operations that mark a deployment as synced are in
    [Metadata].)

    What the code asks of the chain store, the subgraph store and the Ethereum
    node is the interface [ChainClient]; calls that change the subgraph store
    are returned as a list of [StoreCall]s.  The two pointers are read anew in
    every iteration and are arguments.  Metrics, the stopwatch and logging are
    left out.  [u64] arithmetic is that of a release build: it wraps. *)

From stdpp Require Import prelude list strings gmap sorting.
From Stdlib Require Import ZArith Lia Floats.SpecFloat.
From S2P Require Import Prelude.
From S2P Require Import StoreValue.
From S2P Require Import EthTypes.
From S2P Require Import EthFilters.
From S2P Require Import Triggers.
From S2P Require Import StoreEvents.
From S2P Require Import Metadata.
From S2P Require Import Float64.

#[local] Open Scope Z_scope.
#[local] Open Scope list_scope.

(** The configuration read from environment variables. *)
Class BlockStreamEnv := {
  MAX_BLOCK_RANGE_SIZE : Z;
  TARGET_TRIGGERS_PER_BLOCK_RANGE : Z;
}.

Class ChainClient (AE : Type) := {
  StoreError : Type;
  ancestor_block : EthereumBlockPointer -> Z -> res StoreError (option EthereumBlock);
  revert_block_operations :
    string -> EthereumBlockPointer -> EthereumBlockPointer -> res StoreError unit;
  apply_metadata_operations : list MetadataOperation -> res StoreError unit;
  is_on_main_chain : EthereumBlockPointer -> res AE bool;
  calls_in_block : Z -> H256 -> res AE (list EthereumCall);
}.

Section stream.
Context {G : Type} `{GM : GraphMap LogFilterNode G} {EA : EthereumAdapter G}
  {MS : MetaStore} {CC : ChainClient (AdapterError (G := G))} {Env : BlockStreamEnv}.

Inductive StreamError :=
| InBlocks (e : BlocksError (G := G))
| InStore (e : StoreError)
| InMetadata (e : MetaError).

Inductive StoreCall :=
| RevertBlockOperations (id : string) (from to : EthereumBlockPointer)
| ApplyMetadataOperations (ops : list MetadataOperation).

(** ** Data *)
Inductive ReconciliationStep :=
| RevertBlock (p : EthereumBlockPointer)
| ProcessDescendantBlocks (blocks : list EthereumBlockWithTriggers) (range_size : Z)
| Retry
| StepDone.

Inductive ReconciliationStepOutcome :=
| YieldBlocks (blocks : list EthereumBlockWithTriggers) (range_size : Z)
| MoreSteps
| OutcomeDone
| OutcomeRevert.

Inductive NextBlocks :=
| Blocks (blocks : list EthereumBlockWithTriggers) (range_size : Z)
| NextRevert
| NextDone.

Record BlockStreamContext := mk_context {
  ctx_subgraph_id : string;
  reorg_threshold : Z;
  log_filter : EthereumLogFilter G;
  call_filter : EthereumCallFilter;
  block_filter : EthereumBlockFilter;
  start_blocks : list Z;
  include_calls_in_blocks : bool;
  previous_triggers_per_block : f64;
  previous_block_range_size : Z;
}.

(** What the stores answer about the head of the chain and the subgraph. *)
Record Pointers := mk_pointers {
  chain_head_ptr : res StoreError (option EthereumBlockPointer);
  block_ptr : res StoreError (option EthereumBlockPointer);
}.

(** ** Choosing a step *)
Definition range_size_of (ctx : BlockStreamContext) : Z :=
  let max_range_size :=
    Z.min MAX_BLOCK_RANGE_SIZE (wrap64 (previous_block_range_size ctx * 10)) in
  if f64_eqb (previous_triggers_per_block ctx) (S754_zero false) then max_range_size
  else f64_to_u64 (f64_min (f64_max
         (f64_div (f64_of_u64 TARGET_TRIGGERS_PER_BLOCK_RANGE) (previous_triggers_per_block ctx))
         (f64_of_u64 1)) (f64_of_u64 max_range_size)).

(** [from], [to] and the range size. *)
Definition block_range (ctx : BlockStreamContext) (head_number reorg_threshold : Z)
    (subgraph_ptr : option EthereumBlockPointer) : Z * Z * Z :=
  let from := match subgraph_ptr with None => 0 | Some ptr => wrap64 (ptr_number ptr + 1) end in
  let next_start_block :=
    match filter (fun block_num => from < block_num) (start_blocks ctx) with
    | [] => u64_max
    | b :: bs => foldl Z.min b bs
    end in
  let to_limit := Z.min (wrap64 (head_number - reorg_threshold)) (wrap64 (next_start_block - 1)) in
  let range_size := range_size_of ctx in
  (from, Z.min (wrap64 (wrap64 (from + range_size) - 1)) to_limit, range_size).

Definition block_with_calls (include_calls_in_blocks : bool) (head_ancestor : EthereumBlock)
  : res StreamError EthereumBlockWithCalls :=
  if negb include_calls_in_blocks
     || bool_decide (length (eb_transaction_receipts head_ancestor) = 0%nat)
  then Ok (mk_block_with_calls head_ancestor [])
  else
    let? n := unwrap (b_number (eb_block head_ancestor)) in
    let? h := unwrap (b_hash (eb_block head_ancestor)) in
    let? calls := map_err (fun e => InBlocks (FromAdapter e)) (calls_in_block n h) in
    Ok (mk_block_with_calls head_ancestor calls).

(** The subgraph is more than the threshold behind the head. *)
Definition far_step (ctx : BlockStreamContext) (head_ptr : EthereumBlockPointer)
    (reorg_threshold : Z) (subgraph_ptr : option EthereumBlockPointer)
  : res StreamError ReconciliationStep :=
  let? on_main_chain :=
    match subgraph_ptr with
    | None => Ok true
    | Some ptr => map_err (fun e => InBlocks (FromAdapter e)) (is_on_main_chain ptr)
    end in
  if negb on_main_chain then
    let? ptr := unwrap subgraph_ptr in
    Ok (RevertBlock ptr)
  else
    let '(from, to, range_size) :=
      block_range ctx (ptr_number head_ptr) reorg_threshold subgraph_ptr in
    let? blocks := map_err InBlocks
      (blocks_with_triggers from to (log_filter ctx) (call_filter ctx) (block_filter ctx)) in
    Ok (ProcessDescendantBlocks blocks range_size).

(** The subgraph is close to the head: look at the block after it on the way
    to the head. *)
Definition near_step (ctx : BlockStreamContext) (head_ptr subgraph_ptr : EthereumBlockPointer)
  : res StreamError ReconciliationStep :=
  let offset := wrap64 (wrap64 (ptr_number head_ptr - ptr_number subgraph_ptr) - 1) in
  let? head_ancestor_opt := unwrap_res (ancestor_block head_ptr offset) in
  match head_ancestor_opt with
  | None => Ok Retry
  | Some head_ancestor =>
      if decide (b_parent_hash (eb_block head_ancestor) = ptr_hash subgraph_ptr) then
        let? block := block_with_calls (include_calls_in_blocks ctx) head_ancestor in
        let? block := map_err InBlocks
          (triggers_in_block (log_filter ctx) (call_filter ctx) (block_filter ctx)
             (NonFinal block)) in
        Ok (ProcessDescendantBlocks [block] 1)
      else Ok (RevertBlock subgraph_ptr)
  end.

Definition get_next_step (ctx : BlockStreamContext) (ptrs : Pointers)
  : res StreamError ReconciliationStep :=
  let? head_ptr_opt := unwrap_res (chain_head_ptr ptrs) in
  let? subgraph_ptr := unwrap_res (block_ptr ptrs) in
  match head_ptr_opt with
  | None => Ok StepDone
  | Some head_ptr =>
      let reorg_threshold := Z.min (reorg_threshold ctx) (ptr_number head_ptr) in
      if match subgraph_ptr with
         | Some ptr => ptr_number head_ptr <=? ptr_number ptr
         | None => false
         end
      then Ok StepDone
      else if match subgraph_ptr with
              | None => true
              | Some ptr => reorg_threshold <? wrap64 (ptr_number head_ptr - ptr_number ptr)
              end
      then far_step ctx head_ptr reorg_threshold subgraph_ptr
      else
        let? subgraph_ptr := unwrap subgraph_ptr in
        near_step ctx head_ptr subgraph_ptr
  end.

(** ** Doing a step *)
Definition do_step (ctx : BlockStreamContext) (step : ReconciliationStep)
  : res StreamError (ReconciliationStepOutcome * list StoreCall) :=
  match step with
  | Retry => Ok (MoreSteps, [])
  | StepDone => Ok (OutcomeDone, [])
  | RevertBlock subgraph_ptr =>
      let? blocks := map_err (fun e => InBlocks (FromAdapter e))
        (load_blocks {[ptr_hash subgraph_ptr]}) in
      let? block := unwrap (head blocks) in
      let? parent := lift_panic (parent_ptr block) in
      let? parent := unwrap parent in
      let? _ := map_err InStore
        (revert_block_operations (ctx_subgraph_id ctx) subgraph_ptr parent) in
      Ok (OutcomeRevert, [RevertBlockOperations (ctx_subgraph_id ctx) subgraph_ptr parent])
  | ProcessDescendantBlocks descendant_blocks range_size =>
      Ok (YieldBlocks descendant_blocks range_size, [])
  end.

(** [update_subgraph_synced_status] reads the pointers again. *)
Definition update_subgraph_synced_status (ctx : BlockStreamContext) (ptrs : Pointers)
  : res StreamError (list StoreCall) :=
  let? head_ptr_opt := map_err InStore (chain_head_ptr ptrs) in
  let? subgraph_ptr := map_err InStore (block_ptr ptrs) in
  let? ops := map_err InMetadata
    (synced_operations (ctx_subgraph_id ctx) head_ptr_opt subgraph_ptr) in
  match ops with
  | None => Ok []
  | Some ops =>
      let? _ := map_err InStore (apply_metadata_operations ops) in
      Ok [ApplyMetadataOperations ops]
  end.

(** The loop of [next_blocks].  Every iteration reads the pointers, and those
    for the synced status; without more readings it is still running. *)
Fixpoint next_blocks (ctx : BlockStreamContext) (readings : list (Pointers * Pointers))
  : option (res StreamError (NextBlocks * list StoreCall)) :=
  match readings with
  | [] => None
  | (ptrs, ptrs') :: readings =>
      match (let? step := get_next_step ctx ptrs in do_step ctx step) with
      | Ok (YieldBlocks blocks range_size, calls) => Some (Ok (Blocks blocks range_size, calls))
      | Ok (MoreSteps, _) => next_blocks ctx readings
      | Ok (OutcomeDone, _) =>
          Some (let? calls := update_subgraph_synced_status ctx ptrs' in Ok (NextDone, calls))
      | Ok (OutcomeRevert, calls) => Some (Ok (NextRevert, calls))
      | Err e => Some (Err e)
      | Panic => Some Panic
      end
  end.

(** ** The stream *)
Inductive BlockStreamState :=
| New
| Reconciliation (ctx : BlockStreamContext)
| YieldingBlocks (blocks : list EthereumBlockWithTriggers)
| RetryAfterDelay (secs : Z)
| Idle
| Transition.

Record BlockStream := mk_stream {
  bs_state : BlockStreamState;
  consecutive_err_count : Z;
  bs_ctx : BlockStreamContext;
}.

Definition stream_new (subgraph_id : string) (reorg_threshold : Z) (lf : EthereumLogFilter G)
    (cf : EthereumCallFilter) (bf : EthereumBlockFilter) (start_blocks : list Z)
    (include_calls_in_blocks : bool) : BlockStream :=
  mk_stream New 0
    (mk_context subgraph_id reorg_threshold lf cf bf start_blocks include_calls_in_blocks
       (f64_of_u64 1000000) 1).

Inductive BlockStreamEvent :=
| EvBlock (b : EthereumBlockWithTriggers)
| EvRevert.

(** What the things a poll waits for answer next: the [next_blocks] futures,
    the stream of chain head updates, the delay.  Without a further answer
    they are not ready.  Polling a future panics where [next_blocks] does: it
    unwraps what the stores return. *)
Inductive FuturePoll :=
| FReady (r : NextBlocks)
| FError (e : StreamError)
| FPanic
| FNotReady.

Inductive HeadPoll := HUpdated | HEnded | HFailed | HNotReady.

Record Answers := mk_answers {
  future_polls : list FuturePoll;
  head_polls : list HeadPoll;
  delay_polls : list bool;
}.

Inductive StreamPoll :=
| Ready (e : BlockStreamEvent)
| Failed (e : StreamError)
| HeadUpdatesFailed
| NotReady.

Definition poll_future (a : Answers) : FuturePoll * Answers :=
  match future_polls a with
  | [] => (FNotReady, a)
  | f :: fs => (f, mk_answers fs (head_polls a) (delay_polls a))
  end.

Definition poll_head (a : Answers) : HeadPoll * Answers :=
  match head_polls a with
  | [] => (HNotReady, a)
  | h :: hs => (h, mk_answers (future_polls a) hs (delay_polls a))
  end.

Definition poll_delay (a : Answers) : bool * Answers :=
  match delay_polls a with
  | [] => (false, a)
  | d :: ds => (d, mk_answers (future_polls a) (head_polls a) ds)
  end.

Definition total_triggers (blocks : list EthereumBlockWithTriggers) : Z :=
  Z.of_nat (sum_list (length ∘ bwt_triggers <$> blocks)).

Definition note_blocks (ctx : BlockStreamContext) (blocks : list EthereumBlockWithTriggers)
    (block_range_size : Z) : BlockStreamContext :=
  {| ctx_subgraph_id := ctx_subgraph_id ctx;
     reorg_threshold := reorg_threshold ctx;
     log_filter := log_filter ctx;
     call_filter := call_filter ctx;
     block_filter := block_filter ctx;
     start_blocks := start_blocks ctx;
     include_calls_in_blocks := include_calls_in_blocks ctx;
     previous_triggers_per_block :=
       f64_div (f64_of_u64 (total_triggers blocks)) (f64_of_u64 block_range_size);
     previous_block_range_size := block_range_size |}.

(** One turn of the loop: go on with a new state, leave the loop with a result and
    the state that is stored, or panic. *)
Inductive Turn :=
| Continue (s : BlockStream) (a : Answers)
| Break (r : StreamPoll) (s : BlockStream) (a : Answers)
| Panics.

Definition poll_turn (s : BlockStream) (a : Answers) : Turn :=
  let with_state st := mk_stream st (consecutive_err_count s) (bs_ctx s) in
  match bs_state s with
  | New => Continue (with_state (Reconciliation (bs_ctx s))) a
  | Reconciliation ctx =>
      let '(p, a) := poll_future a in
      match p with
      | FReady (Blocks next_blocks block_range_size) =>
          Continue (mk_stream (YieldingBlocks next_blocks) 0
                      (note_blocks (bs_ctx s) next_blocks block_range_size)) a
      | FReady NextDone => Continue (mk_stream Idle 0 (bs_ctx s)) a
      | FReady NextRevert => Break (Ready EvRevert) (with_state (Reconciliation (bs_ctx s))) a
      | FNotReady => Break NotReady (with_state (Reconciliation ctx)) a
      | FPanic => Panics
      | FError e =>
          let count := wrap32 (consecutive_err_count s + 1) in
          let secs := Z.max (wrap32 (5 * count)) 120 in
          Break (Failed e) (mk_stream (RetryAfterDelay secs) count (bs_ctx s)) a
      end
  | YieldingBlocks (next_block :: next_blocks) =>
      Break (Ready (EvBlock next_block)) (with_state (YieldingBlocks next_blocks)) a
  | YieldingBlocks [] => Continue (with_state (Reconciliation (bs_ctx s))) a
  | RetryAfterDelay secs =>
      let '(ready, a) := poll_delay a in
      if ready : bool then Continue (with_state (Reconciliation (bs_ctx s))) a
      else Break NotReady (with_state (RetryAfterDelay secs)) a
  | Idle =>
      let '(h, a) := poll_head a in
      match h with
      | HUpdated => Continue (with_state (Reconciliation (bs_ctx s))) a
      | HNotReady => Break NotReady (with_state Idle) a
      | HEnded | HFailed => Break HeadUpdatesFailed (with_state Transition) a
      end
  | Transition => Panics
  end.

(** The loop of [poll]; [None] when the fuel does not suffice. *)
Fixpoint poll_loop (fuel : nat) (s : BlockStream) (a : Answers)
  : option (res Empty_set (StreamPoll * BlockStream * Answers)) :=
  match fuel with
  | O => None
  | S fuel =>
      match poll_turn s a with
      | Continue s a => poll_loop fuel s a
      | Break r s a => Some (Ok (r, s, a))
      | Panics => Some Panic
      end
  end.

Definition answers_left (a : Answers) : nat :=
  length (future_polls a) + length (head_polls a) + length (delay_polls a).

Definition poll (s : BlockStream) (a : Answers)
  : option (res Empty_set (StreamPoll * BlockStream * Answers)) :=
  poll_loop (2 * answers_left a + 3) s a.

Definition add_answers (a b : Answers) : Answers :=
  mk_answers (future_polls a ++ future_polls b) (head_polls a ++ head_polls b)
    (delay_polls a ++ delay_polls b).

(** The polls of a stream: before each some further answers arrive. *)
Fixpoint polls (s : BlockStream) (a : Answers) (l : list Answers)
  : res Empty_set (list StreamPoll * BlockStream * Answers) :=
  match l with
  | [] => Ok ([], s, a)
  | b :: l =>
      match poll s (add_answers a b) with
      | Some (Ok (r, s, a)) =>
          let? x := polls s a l in let '(rs, s, a) := x in Ok (r :: rs, s, a)
      | _ => Panic
      end
  end.

(** ** Reconciliation against a chain that stays as it is

    The consumer of the stream processes the blocks it is given, after which
    the subgraph points to the last one; reverting moves the pointer to the
    parent. *)
Definition advance (p : option EthereumBlockPointer) (blocks : list EthereumBlockWithTriggers)
  : option EthereumBlockPointer :=
  foldl (fun p b => match ptr_of_finality (bwt_ethereum_block b) with
                    | Ok q => Some q
                    | _ => p
                    end) p blocks.

Definition after_calls (p : option EthereumBlockPointer) (calls : list StoreCall)
  : option EthereumBlockPointer :=
  foldl (fun p c => match c with
                    | RevertBlockOperations _ _ to => Some to
                    | ApplyMetadataOperations _ => p
                    end) p calls.

Fixpoint reconcile (fuel : nat) (head : EthereumBlockPointer) (ctx : BlockStreamContext)
    (p : option EthereumBlockPointer)
  : option (res StreamError (list BlockStreamEvent * option EthereumBlockPointer)) :=
  match fuel with
  | O => None
  | S fuel =>
      let prepend evs o :=
        match o with
        | Some (Ok (evs', p)) => Some (Ok (evs ++ evs', p))
        | o => o
        end in
      match (let? step := get_next_step ctx (mk_pointers (Ok (Some head)) (Ok p)) in
             do_step ctx step) with
      | Ok (YieldBlocks blocks n, _) =>
          prepend (EvBlock <$> blocks)
            (reconcile fuel head (note_blocks ctx blocks n) (advance p blocks))
      | Ok (MoreSteps, _) => reconcile fuel head ctx p
      | Ok (OutcomeDone, _) => Some (Ok ([], p))
      | Ok (OutcomeRevert, calls) =>
          prepend [EvRevert] (reconcile fuel head ctx (after_calls p calls))
      | Err e => Some (Err e)
      | Panic => Some Panic
      end
  end.

(** ** The state machine *)
Implicit Types (s : BlockStream) (a : Answers).

Definition queue s : list EthereumBlockWithTriggers :=
  match bs_state s with YieldingBlocks bs => bs | _ => [] end.

Definition blocks_of (l : list FuturePoll) : list EthereumBlockWithTriggers :=
  l ≫= (fun p => match p with FReady (Blocks bs _) => bs | _ => [] end).

Definition is_revert (p : FuturePoll) : bool :=
  match p with FReady NextRevert => true | _ => false end.

Definition future_panics (p : FuturePoll) : bool := match p with FPanic => true | _ => false end.

Definition errors_of (l : list FuturePoll) : list StreamError :=
  omap (fun p => match p with FError e => Some e | _ => None end) l.

Definition delivered (r : StreamPoll) : list EthereumBlockWithTriggers :=
  match r with Ready (EvBlock b) => [b] | _ => [] end.

Definition is_revert_event (r : StreamPoll) : bool :=
  match r with Ready EvRevert => true | _ => false end.

Definition reported (r : StreamPoll) : option StreamError :=
  match r with Failed e => Some e | _ => None end.

(** What the answers [taken] since amount to, when the results since are
    [rs]: nothing is lost, made up or reordered. *)
Definition accounts (s : BlockStream) (taken : list FuturePoll) (rs : list StreamPoll)
    (s' : BlockStream) : Prop :=
  (rs ≫= delivered) ++ queue s' = queue s ++ blocks_of taken
  /\ length (filter (fun r => is_revert_event r) rs) = length (filter (fun p => is_revert p) taken)
  /\ omap reported rs = errors_of taken
  /\ existsb future_panics taken = false.

Lemma accounts_trans s1 t1 r1 s2 t2 r2 s3 :
  accounts s1 t1 r1 s2 -> accounts s2 t2 r2 s3 -> accounts s1 (t1 ++ t2) (r1 ++ r2) s3.
Proof.
  intros (B1 & R1 & E1 & P1) (B2 & R2 & E2 & P2). split_and!.
  - unfold blocks_of in *. rewrite !bind_app, <- app_assoc, B2, app_assoc, B1, <- app_assoc. done.
  - rewrite !filter_app, !length_app. lia.
  - unfold errors_of in *. rewrite !omap_app. by rewrite E1, E2.
  - by rewrite existsb_app, P1, P2.
Qed.

(** The updates of the chain head keep coming. *)
Definition heads_fine a : Prop := Forall (fun h => h = HUpdated \/ h = HNotReady) (head_polls a).

(** One turn of the loop. *)
Definition turn_rank s : nat :=
  match bs_state s with New | YieldingBlocks [] => 1 | _ => 0 end.

Lemma poll_turn_spec s a :
  match poll_turn s a with
  | Continue s' a' =>
      2 * answers_left a' + turn_rank s' < 2 * answers_left a + turn_rank s
      /\ bs_state s' <> Transition
      /\ (exists taken, future_polls a = taken ++ future_polls a' /\ accounts s taken [] s')
      /\ (heads_fine a -> heads_fine a')
  | Break r s' a' =>
      (bs_state s' = Transition <-> r = HeadUpdatesFailed)
      /\ (forall e, r = Failed e -> exists secs, bs_state s' = RetryAfterDelay secs
            /\ secs = Z.max (wrap32 (5 * consecutive_err_count s')) 120)
      /\ (exists taken, future_polls a = taken ++ future_polls a' /\ accounts s taken [r] s')
      /\ (heads_fine a -> heads_fine a' /\ r <> HeadUpdatesFailed)
  | Panics => bs_state s = Transition \/ FPanic ∈ future_polls a
  end%nat.
Proof.
  destruct s as [st count ctx], a as [fs hs ds]. unfold poll_turn, accounts, queue, turn_rank.
  cbn [bs_state consecutive_err_count bs_ctx].
  destruct st as [|c|[|b bs]|secs| |]; try (by left).
  - simpl. split; [lia|]. split; [done|]. split; [by exists []|done].
  - unfold poll_future. cbn [future_polls].
    destruct fs as [|[[bs n| |]|e| |] fs]; cbn [bs_state]; unfold answers_left; simpl.
    + do 2 (split; [done|]). split; [by exists []|done].
    + split; [destruct bs; simpl; lia|]. split; [done|]. split; [|done].
      exists [FReady (Blocks bs n)]. split; [done|]. unfold blocks_of. simpl. by rewrite app_nil_r.
    + do 2 (split; [done|]). split; [by exists [FReady NextRevert]|done].
    + split; [lia|]. split; [done|]. split; [by exists [FReady NextDone]|done].
    + split; [done|]. split; [intros e' _; by eexists|]. split; [by exists [FError e]|done].
    + right. left.
    + do 2 (split; [done|]). split; [by exists [FNotReady]|done].
  - simpl. split; [lia|]. split; [done|]. split; [by exists []|done].
  - simpl. do 2 (split; [done|]). split; [|done]. exists []. simpl. by rewrite app_nil_r.
  - unfold poll_delay. cbn [delay_polls]. destruct ds as [|[] ds]; unfold answers_left; simpl.
    + do 2 (split; [done|]). split; [by exists []|done].
    + split; [lia|]. split; [done|]. split; [by exists []|done].
    + do 2 (split; [done|]). split; [by exists []|done].
  - unfold poll_head. cbn [head_polls]. destruct hs as [|h hs].
    { simpl. do 2 (split; [done|]). split; [by exists []|done]. }
    assert (Hh : heads_fine (mk_answers fs (h :: hs) ds) ->
                 (h = HUpdated \/ h = HNotReady) /\ heads_fine (mk_answers fs hs ds))
      by (unfold heads_fine; simpl; by intros [? ?]%Forall_cons).
    destruct h; unfold answers_left; simpl; (split; [done || lia|]); (split; [done|]);
      (split; [by exists []|]); intros [[] ?]%Hh; done.
Qed.

(** What a poll amounts to. *)
Definition poll_result s a r s' a' : Prop :=
  (bs_state s' = Transition <-> r = HeadUpdatesFailed)
  /\ (forall e, r = Failed e -> exists secs, bs_state s' = RetryAfterDelay secs
        /\ secs = Z.max (wrap32 (5 * consecutive_err_count s')) 120)
  /\ (exists taken, future_polls a = taken ++ future_polls a' /\ accounts s taken [r] s')
  /\ (heads_fine a -> heads_fine a' /\ r <> HeadUpdatesFailed).

Lemma poll_loop_spec fuel s a :
  bs_state s <> Transition -> (2 * answers_left a + turn_rank s < fuel)%nat ->
  (exists r s' a', poll_loop fuel s a = Some (Ok (r, s', a')) /\ poll_result s a r s' a')
  \/ poll_loop fuel s a = Some Panic /\ FPanic ∈ future_polls a.
Proof.
  revert s a. induction fuel as [|fuel IH]; intros s a Hs Hf; [lia|].
  cbn [poll_loop]. pose proof (poll_turn_spec s a) as T.
  destruct (poll_turn s a) as [s' a'|r s' a'|]; [| |by right; destruct T].
  - destruct T as (R & N & (taken & E & A) & F).
    destruct (IH s' a' N ltac:(lia)) as [(r & s2 & a2 & -> & H1 & H2 & (taken2 & E2 & A2) & F2)|[-> P]].
    + left. exists r, s2, a2. do 3 (split; [done|]). split; [|auto].
      exists (taken ++ taken2). split; [by rewrite E, E2, app_assoc|].
      by apply (accounts_trans s taken [] s' taken2 [r]).
    + right. split; [done|]. rewrite E. apply elem_of_app. by right.
  - left. by exists r, s', a'.
Qed.

Lemma poll_spec s a :
  bs_state s <> Transition ->
  (exists r s' a', poll s a = Some (Ok (r, s', a')) /\ poll_result s a r s' a')
  \/ poll s a = Some Panic /\ FPanic ∈ future_polls a.
Proof.
  intros Hs. apply poll_loop_spec; [done|].
  assert (turn_rank s <= 1)%nat by (unfold turn_rank; destruct (bs_state s) as [| |[]| | |]; lia).
  lia.
Qed.

(** A poll of the stream ends; it panics only when a future does, or when an
    earlier one reported that the updates of the chain head have failed.  After
    an error the stream waits before it retries, for at least two minutes. *)
Lemma poll_outcomes s a :
  (bs_state s = Transition -> poll s a = Some Panic)
  /\ (bs_state s <> Transition -> FPanic ∉ future_polls a ->
      exists r s' a', poll s a = Some (Ok (r, s', a'))
      /\ (bs_state s' = Transition <-> r = HeadUpdatesFailed)
      /\ forall e, r = Failed e -> exists secs, bs_state s' = RetryAfterDelay secs
           /\ secs = Z.max (wrap32 (5 * consecutive_err_count s')) 120 /\ 120 <= secs).
Proof.
  split.
  - intros E. unfold poll. rewrite Nat.add_comm. cbn [Nat.add poll_loop]. unfold poll_turn.
    by rewrite E.
  - intros N NP. destruct (poll_spec s a N) as [(r & s' & a' & -> & H1 & H2 & _)|[_ P]]; [|done].
    exists r, s', a'. do 2 (split; [done|]). intros e He.
    destruct (H2 e He) as (secs & ? & ?). exists secs. split; [done|]. lia.
Qed.

(** C32: While the updates of the chain head keep coming, any sequence of polls
    delivers the blocks the futures found, all of them, once and in their order
    (those not yet delivered are queued), one revert event for each revert, and
    reports each error; or it panics, which it does only when a future it polled
    does (the stores' errors are unwrapped there): as long as no future panics, no
    poll does. *)
Theorem polls_lose_nothing (l : list Answers) s a :
  bs_state s <> Transition -> heads_fine a -> Forall heads_fine l ->
  (exists rs s' a' taken, polls s a l = Ok (rs, s', a') /\ length rs = length l
   /\ future_polls a ++ (l ≫= future_polls) = taken ++ future_polls a'
   /\ accounts s taken rs s')
  \/ polls s a l = Panic /\ FPanic ∈ future_polls a ++ (l ≫= future_polls).
Proof.
  revert s a. induction l as [|b l IH]; intros s a Hs Ha Hl.
  { left. exists [], s, a, []. simpl. rewrite app_nil_r. do 3 (split; [done|]).
    unfold accounts. rewrite app_nil_r. done. }
  apply Forall_cons in Hl as [Hb Hl]. cbn [polls].
  change ((b :: l) ≫= future_polls) with (future_polls b ++ (l ≫= future_polls)).
  destruct (poll_spec s (add_answers a b) Hs) as [(r & s' & a' & -> & H1 & _ & (taken & E & A) & F)|[-> P]].
  2: { right. split; [done|]. cbn [add_answers future_polls] in P. rewrite app_assoc. apply elem_of_app. by left. }
  cbn [add_answers future_polls] in E. destruct F as [Fa Fr]; [by apply Forall_app|].
  rewrite app_assoc, E, <- app_assoc.
  destruct (IH s' a') as [(rs & s2 & a2 & taken2 & -> & L & E2 & A2)|[-> P]]; [by rewrite H1|done|done| |].
  - left. exists (r :: rs), s2, a2, (taken ++ taken2). cbn [res_bind bind_cons]. split; [done|].
    split; [simpl; by rewrite L|]. split; [by rewrite E2, app_assoc|].
    by apply (accounts_trans s taken [r] s' taken2 rs).
  - right. split; [done|]. apply elem_of_app. by right.
Qed.

(** ** Block ranges *)

(** What is kept about the previous range, and the start blocks, are as they
    should be; the configuration is sensible. *)
Definition env_ok : Prop := 1 <= MAX_BLOCK_RANGE_SIZE < 2 ^ 53.

Definition ctx_ok (ctx : BlockStreamContext) : Prop :=
  1 <= previous_block_range_size ctx <= MAX_BLOCK_RANGE_SIZE
  /\ Forall (fun b => 0 <= b < 2 ^ 64) (start_blocks ctx).

Lemma range_size_bounds ctx :
  env_ok -> ctx_ok ctx ->
  1 <= range_size_of ctx <= MAX_BLOCK_RANGE_SIZE
  /\ range_size_of ctx <= 10 * previous_block_range_size ctx.
Proof.
  intros [M1 M2] [[P1 P2] _]. unfold range_size_of, env_ok in *.
  rewrite wrap64_small by (unfold is_u64; lia).
  set (n := Z.min MAX_BLOCK_RANGE_SIZE (previous_block_range_size ctx * 10)).
  assert (H : 0 < n < 2 ^ 53) by lia. destruct (f64_eqb _ _); [lia|].
  pose proof (clamp_bounds (f64_div (f64_of_u64 TARGET_TRIGGERS_PER_BLOCK_RANGE)
    (previous_triggers_per_block ctx)) n H). lia.
Qed.

Lemma foldl_min_spec (b : Z) bs :
  foldl Z.min b bs ∈ b :: bs /\ forall x, x ∈ b :: bs -> foldl Z.min b bs <= x.
Proof.
  revert b. induction bs as [|c bs IH]; intros b; cbn [foldl].
  { split; [left|]. intros x ->%list_elem_of_singleton. done. }
  destruct (IH (Z.min b c)) as [In Le]. split.
  - apply elem_of_cons in In as [->|In]; [|by do 2 right].
    destruct (Z.min_spec b c) as [[_ ->]|[_ ->]]; [left|right; left].
  - assert (foldl Z.min (Z.min b c) bs <= Z.min b c) by (apply Le; left).
    intros x [->|[->|Hx]%elem_of_cons]%elem_of_cons; [lia|lia|]. apply Le. by right.
Qed.

(** The number below which everything is behind the subgraph. *)
Definition next_number (p : option EthereumBlockPointer) : Z :=
  match p with None => 0 | Some p => ptr_number p + 1 end.

Lemma block_range_spec ctx head_number reorg p from to size :
  env_ok -> ctx_ok ctx -> 0 <= next_number p <= head_number - reorg ->
  0 <= reorg -> head_number < 2 ^ 63 ->
  block_range ctx head_number reorg p = (from, to, size) ->
  from = next_number p /\ from <= to <= head_number - reorg
  /\ 1 <= size <= MAX_BLOCK_RANGE_SIZE /\ to - from + 1 <= size
  /\ forall b, b ∈ start_blocks ctx -> from < b -> to < b.
Proof.
  intros EO CO Hp Hr Hh. unfold block_range.
  assert (Ef : match p with None => 0 | Some ptr => wrap64 (ptr_number ptr + 1) end = next_number p).
  { destruct p; [|done]. apply wrap64_small. unfold is_u64, next_number in *. lia. }
  rewrite Ef. destruct (range_size_bounds ctx EO CO) as [Hs _]. destruct EO as [_ M].
  rewrite (wrap64_small (next_number p + _)) by (unfold is_u64; lia).
  rewrite (wrap64_small (_ - 1)) by (unfold is_u64; lia).
  rewrite (wrap64_small (head_number - _)) by (unfold is_u64; lia).
  destruct CO as [_ SB]. rewrite Forall_forall in SB.
  set (nsb := match filter _ (start_blocks ctx) with [] => _ | _ => _ end).
  assert (Hn : next_number p < nsb < 2 ^ 64
    /\ forall b, b ∈ start_blocks ctx -> next_number p < b -> nsb <= b).
  { assert (Hf : forall b, b ∈ filter (fun b => next_number p < b) (start_blocks ctx) <->
               next_number p < b /\ b ∈ start_blocks ctx) by (intros; apply list_elem_of_filter).
    subst nsb. destruct (filter _ (start_blocks ctx)) as [|b bs].
    - split; [lia|]. intros b Hb Lt. assert (Hin : b ∈ []) by (by apply Hf).
      by apply elem_of_nil in Hin.
    - destruct (foldl_min_spec b bs) as [In Le]. apply Hf in In as [? ?%SB].
      split; [lia|]. intros x Hx Lt. apply Le, Hf. done. }
  clearbody nsb. destruct Hn as [Hn1 Hn2].
  rewrite (wrap64_small (nsb - 1)) by (unfold is_u64; lia).
  intros [= <- <- <-]. split; [done|]. do 3 (split; [lia|]).
  intros b Hb Lt. specialize (Hn2 b Hb Lt). lia.
Qed.

Lemma note_blocks_ok ctx blocks size :
  ctx_ok ctx -> 1 <= size <= MAX_BLOCK_RANGE_SIZE -> ctx_ok (note_blocks ctx blocks size).
Proof. intros [_ SB] H. by split. Qed.

(** ** Steps *)

(** Numbers of blocks are far from overflowing. *)
Definition small_ptr (p : EthereumBlockPointer) : Prop := 0 <= ptr_number p < 2 ^ 63.

Definition safe_margin ctx (head_ptr : EthereumBlockPointer) : Z :=
  Z.min (reorg_threshold ctx) (ptr_number head_ptr).

Definition is_far ctx (head_ptr : EthereumBlockPointer) (sub : option EthereumBlockPointer) : bool :=
  match sub with
  | None => true
  | Some p => safe_margin ctx head_ptr <? ptr_number head_ptr - ptr_number p
  end.

Lemma get_next_step_behind ctx head_ptr sub :
  small_ptr head_ptr -> (forall p, sub = Some p -> 0 <= ptr_number p < ptr_number head_ptr) ->
  get_next_step ctx (mk_pointers (Ok (Some head_ptr)) (Ok sub))
  = if is_far ctx head_ptr sub then far_step ctx head_ptr (safe_margin ctx head_ptr) sub
    else match sub with Some p => near_step ctx head_ptr p | None => Panic end.
Proof.
  intros [H1 H2] Hs. unfold get_next_step. cbn [chain_head_ptr block_ptr unwrap_res res_bind].
  destruct sub as [p|]; [|done]. cbn [unwrap res_bind]. destruct (Hs p eq_refl) as [P1 P2].
  replace (ptr_number head_ptr <=? ptr_number p) with false by lia. unfold is_far.
  by rewrite (wrap64_small (ptr_number head_ptr - ptr_number p)) by (unfold is_u64; lia).
Qed.

Lemma near_offset (head_ptr p : EthereumBlockPointer) :
  small_ptr head_ptr -> 0 <= ptr_number p < ptr_number head_ptr ->
  wrap64 (wrap64 (ptr_number head_ptr - ptr_number p) - 1)
  = ptr_number head_ptr - ptr_number p - 1.
Proof.
  intros [? ?] ?. rewrite (wrap64_small (_ - ptr_number p)) by (unfold is_u64; lia).
  by rewrite wrap64_small by (unfold is_u64; lia).
Qed.

Lemma get_next_step_caught_up ctx head_ptr p :
  ptr_number head_ptr <= ptr_number p ->
  get_next_step ctx (mk_pointers (Ok (Some head_ptr)) (Ok (Some p))) = Ok StepDone.
Proof.
  intros H. unfold get_next_step. cbn [chain_head_ptr block_ptr unwrap_res res_bind].
  by replace (ptr_number head_ptr <=? ptr_number p) with true by lia.
Qed.

Lemma is_far_room ctx head_ptr sub :
  0 <= reorg_threshold ctx -> small_ptr head_ptr ->
  (forall p, sub = Some p -> 0 <= ptr_number p) ->
  is_far ctx head_ptr sub = true ->
  0 <= next_number sub
    <= ptr_number head_ptr - safe_margin ctx head_ptr.
Proof.
  unfold is_far, safe_margin. intros R [H1 H2] Hs F. destruct sub as [p|]; simpl in *; [|lia].
  specialize (Hs p eq_refl). lia.
Qed.

Lemma block_with_calls_block include (a : EthereumBlock) bc :
  block_with_calls include a = Ok bc -> bwc_ethereum_block bc = a.
Proof.
  unfold block_with_calls. destruct (_ || _); [by intros [= <-]|].
  destruct (b_number _); cbn [unwrap res_bind]; [|done].
  destruct (b_hash _); cbn [unwrap res_bind]; [|done].
  destruct (calls_in_block _ _); cbn; [|done..]. by intros [= <-].
Qed.

(** C20: The next step moves the subgraph's pointer the right way.  Nothing is
    done only when the pointer has reached the head.  A block is reverted only
    when it is not on the chain of the head.  Further blocks come after the
    pointer on that chain: far from the head, those of a range that begins
    right after the pointer, ends neither within the reorganisation threshold
    nor past a start block, and keeps the limits on its size; close to it, the
    one child of the pointer on the way to the head. *)
Theorem next_step_moves_right_way ctx (head_ptr : EthereumBlockPointer)
    (sub : option EthereumBlockPointer) (step : ReconciliationStep) :
  env_ok -> ctx_ok ctx -> 0 <= reorg_threshold ctx -> small_ptr head_ptr ->
  (forall p, sub = Some p -> 0 <= ptr_number p) ->
  get_next_step ctx (mk_pointers (Ok (Some head_ptr)) (Ok sub)) = Ok step ->
  let safe := ptr_number head_ptr - safe_margin ctx head_ptr in
  let ancestor p := ancestor_block head_ptr (ptr_number head_ptr - ptr_number p - 1) in
  match step with
  | StepDone => exists p, sub = Some p /\ ptr_number head_ptr <= ptr_number p
  | RevertBlock p => sub = Some p /\ ptr_number p < ptr_number head_ptr
      /\ (ptr_number p < safe /\ is_on_main_chain p = Ok false
          \/ safe <= ptr_number p /\ exists a : EthereumBlock, ancestor p = Ok (Some a)
               /\ b_parent_hash (eb_block a) <> ptr_hash p)
  | Retry => exists p, sub = Some p /\ safe <= ptr_number p < ptr_number head_ptr
               /\ ancestor p = Ok None
  | ProcessDescendantBlocks bs size =>
      (exists to, next_number sub <= to <= safe
         /\ to - next_number sub + 1 <= size <= MAX_BLOCK_RANGE_SIZE
         /\ (forall b, b ∈ start_blocks ctx -> next_number sub < b -> to < b)
         /\ (forall p, sub = Some p -> is_on_main_chain p = Ok true)
         /\ blocks_with_triggers (next_number sub) to
              (log_filter ctx) (call_filter ctx) (block_filter ctx) = Ok bs)
      \/ (exists p (a : EthereumBlock) bc b, sub = Some p /\ safe <= ptr_number p < ptr_number head_ptr
           /\ ancestor p = Ok (Some a) /\ b_parent_hash (eb_block a) = ptr_hash p
           /\ bwc_ethereum_block bc = a /\ bs = [b] /\ size = 1
           /\ triggers_in_block (log_filter ctx) (call_filter ctx) (block_filter ctx)
                (NonFinal bc) = Ok b)
  end.
Proof.
  intros EO CO R Hh Hs E safe ancestor.
  destruct (match sub with Some p => ptr_number head_ptr <=? ptr_number p | None => false end)
    eqn:D.
  { destruct sub as [p|]; [|done]. apply Z.leb_le in D. rewrite get_next_step_caught_up in E by done.
    injection E as <-. by exists p. }
  assert (Lt : forall p, sub = Some p -> ptr_number p < ptr_number head_ptr).
  { intros p ->. by apply Z.leb_gt in D. }
  rewrite get_next_step_behind in E by first [done | intros p Hp; split; [by apply Hs|by apply Lt]].
  destruct (is_far ctx head_ptr sub) eqn:F.
  - pose proof (is_far_room ctx head_ptr sub R Hh Hs F) as Room. fold safe in Room.
    unfold far_step in E. destruct (match sub with None => Ok true | Some _ => _ end)
      as [[]|e|] eqn:M; cbn [res_bind negb] in E; [| |done|done].
    + destruct (block_range _ _ _ _) as [[from to] size] eqn:B.
      apply block_range_spec in B as (-> & L1 & L2 & L3 & L4);
        [|done|done|exact Room|destruct Hh; unfold safe_margin; lia|by apply Hh].
      destruct (blocks_with_triggers _ _ _ _ _) as [bs|e|] eqn:W; cbn in E; try done.
      injection E as <-. left. exists to. split; [exact L1|]. split; [lia|]. split; [done|].
      split; [|done]. intros p ->. by destruct (is_on_main_chain p) as [[]| |].
    + destruct sub as [p|]; [|done]. injection E as <-. split; [done|]. split; [by apply Lt|].
      left. simpl in Room. split; [unfold safe in *; lia|].
      by destruct (is_on_main_chain p) as [[]| |].
  - destruct sub as [p|]; [|done]. specialize (Lt p eq_refl). unfold is_far in F.
    assert (Sp : safe <= ptr_number p) by (unfold safe; lia). unfold near_step in E.
    rewrite near_offset in E by first [done | split; [by apply Hs|done]]. fold (ancestor p) in E. destruct (ancestor p) as [[a|]| |] eqn:A; cbn [unwrap_res res_bind] in E; try done.
    + destruct (decide _) as [Eq|Ne].
      * destruct (block_with_calls _ a) as [bc| |] eqn:C; cbn [res_bind] in E; try done.
        destruct (triggers_in_block _ _ _ _) as [b| |] eqn:T;
          cbn [map_err res_bind] in E; try done.
        injection E as <-. right. exists p, a, bc, b. do 4 (split; [done|]).
        split; [|done]. by eapply block_with_calls_block.
      * injection E as <-. do 2 (split; [done|]). right. split; [done|]. by exists a.
    + injection E as <-. by exists p.
Qed.

(** ** Catching up with a chain *)
Section catching_up.
Context {GML : GraphMapLaws LogFilterNode G}.
Context (lf : EthereumLogFilter G) (cf : EthereumCallFilter) (bf : EthereumBlockFilter).
Context (include_calls : bool) (H : Z) (canonical : Z -> LightEthereumBlock) (hash : Z -> H256).
Context (full : Z -> EthereumBlock) (wanted : Z -> EthereumTrigger -> Prop).

Definition chain_ptr (n : Z) : EthereumBlockPointer := mk_ptr (hash n) n.

(** Node and chain store know one chain up to number [H], and agree on which
    triggers, [wanted], its blocks have: the node when it is asked about
    ranges, the chain store in the blocks it holds. *)
Record stable_chain : Prop := {
  sc_head : 0 <= H < 2 ^ 63;
  sc_number : forall n, b_number (canonical n) = Some n;
  sc_hash : forall n, b_hash (canonical n) = Some (hash n);
  sc_parent : forall n, 0 < n <= H -> b_parent_hash (canonical n) = hash (n - 1);
  sc_wanted : forall n t, wanted n t -> trigger_block_number t = Ok n;
  sc_range : forall from to, 0 <= from <= to -> to <= H -> exists all,
    chain_answers from to canonical lf cf bf all
    /\ forall t, t ∈ all <-> exists n, from <= n <= to /\ wanted n t;
  sc_main : forall n, 0 <= n <= H -> is_on_main_chain (chain_ptr n) = Ok true;
  sc_full : forall n, eb_block (full n) = canonical n;
  sc_ancestor : forall n, 0 < n <= H -> ancestor_block (chain_ptr H) (H - n) = Ok (Some (full n));
  sc_seen : forall n, 0 < n <= H -> exists calls,
    block_with_calls include_calls (full n) = Ok (mk_block_with_calls (full n) calls)
    /\ (forall c, c ∈ calls -> (4 <= length (call_input c))%nat)
    /\ consistent_triggers ((eb_transaction_receipts (full n) ≫= (fun r => TLog <$> r_logs r))
                            ++ (TCall <$> calls))
    /\ forall t, block_has_trigger lf cf bf (mk_block_with_calls (full n) calls) (chain_ptr n) t
                 <-> wanted n t;
}.

(** The blocks [bs] are blocks of the chain after [q] up to [to], in order and
    complete: a block that is left out has no triggers. *)
Definition delivers (q to : Z) (bs : list EthereumBlockWithTriggers) : Prop :=
  StronglySorted Z.lt (block_numbers bs)
  /\ (forall n, n ∈ block_numbers bs -> q < n <= to)
  /\ (forall n t, q < n <= to -> wanted n t -> n ∈ block_numbers bs)
  /\ forall b, b ∈ bs -> exists n, light_block (bwt_ethereum_block b) = canonical n
       /\ (forall t, t ∈ bwt_triggers b <-> wanted n t)
       /\ StronglySorted runs_before (bwt_triggers b).

(** The pointer at a number; before the first block there is none. *)
Definition at_number (q : Z) : option EthereumBlockPointer :=
  if q <? 0 then None else Some (chain_ptr q).

Lemma next_number_at q : -1 <= q -> next_number (at_number q) = q + 1.
Proof. intros Hq. unfold at_number. destruct (Z.ltb_spec q 0); simpl; lia. Qed.

Lemma delivers_app q m to bs1 bs2 :
  q <= m <= to -> delivers q m bs1 -> delivers m to bs2 -> delivers q to (bs1 ++ bs2).
Proof.
  intros L (S1 & R1 & C1 & B1) (S2 & R2 & C2 & B2).
  assert (E : block_numbers (bs1 ++ bs2) = block_numbers bs1 ++ block_numbers bs2)
    by apply omap_app. unfold delivers. rewrite E. split; [|split; [|split]].
  - apply StronglySorted_app_2; [|done..]. intros x y Hx%R1 Hy%R2. lia.
  - intros n [Hn%R1|Hn%R2]%elem_of_app; lia.
  - intros n t Hn W. apply elem_of_app. destruct (Z.le_gt_cases n m).
    + left. apply (C1 n t); [lia|done].
    + right. apply (C2 n t); [lia|done].
  - intros b [Hb|Hb]%elem_of_app; auto.
Qed.

Lemma delivers_nil q : delivers q q [].
Proof.
  split; [constructor|]. split; [intros n Hn; by apply elem_of_nil in Hn|].
  split; [intros n t Hn; lia|]. intros b Hb. by apply elem_of_nil in Hb.
Qed.

Lemma last_max (l : list Z) m :
  StronglySorted Z.lt l -> m ∈ l -> (forall x, x ∈ l -> x <= m) -> last l = Some m.
Proof.
  induction 1 as [|x l S IH F]; intros Hm L; [by apply elem_of_nil in Hm|].
  destruct l as [|y l]; [by apply list_elem_of_singleton in Hm as ->|].
  change (last (x :: y :: l)) with (last (y :: l)). apply IH; [|intros z Hz; apply L; by right].
  apply elem_of_cons in Hm as [->|Hm]; [|done]. exfalso.
  rewrite Forall_forall in F. specialize (F y ltac:(left)).
  specialize (L y ltac:(right; left)). lia.
Qed.

Context (SC : stable_chain).

Lemma advance_last bs p :
  (forall b, b ∈ bs -> exists n, light_block (bwt_ethereum_block b) = canonical n) ->
  advance p bs = match last (block_numbers bs) with Some n => Some (chain_ptr n) | None => p end.
Proof.
  revert p. induction bs as [|b bs IH]; intros p Hb; [done|].
  destruct (Hb b ltac:(left)) as [n En].
  assert (Ep : ptr_of_finality (bwt_ethereum_block b) = Ok (chain_ptr n)).
  { destruct (bwt_ethereum_block b) as [c|c]; simpl in *;
      unfold ptr_of_block, ptr_of_ethereum_block; rewrite En, (sc_hash SC), (sc_number SC); done. }
  unfold advance. cbn [foldl]. rewrite Ep. fold (advance (Some (chain_ptr n)) bs).
  rewrite IH by (intros c Hc; apply Hb; by right). unfold block_numbers at 2.
  rewrite omap_cons_eq, En, (sc_number SC). fold (block_numbers bs).
  destruct (block_numbers bs) as [|m l]; [done|].
  change (last (n :: m :: l)) with (last (m :: l)).
  by destruct (last (m :: l)) eqn:El; [|apply last_None in El].
Qed.

Lemma delivers_advance q to bs p :
  delivers q to bs -> to ∈ block_numbers bs -> advance p bs = Some (chain_ptr to).
Proof.
  intros (S & R & _ & B) Hto. rewrite advance_last.
  - rewrite (last_max _ to S Hto); [done|]. intros x Hx%R. lia.
  - intros b Hb. destruct (B b Hb) as (n & ? & _). by exists n.
Qed.

(** A stream of the subgraph [id] with these filters. *)
Context (id : string).

Definition fits (ctx : BlockStreamContext) : Prop :=
  log_filter ctx = lf /\ call_filter ctx = cf /\ block_filter ctx = bf
  /\ include_calls_in_blocks ctx = include_calls /\ ctx_subgraph_id ctx = id
  /\ ctx_ok ctx /\ 0 <= reorg_threshold ctx.

Lemma fits_note ctx bs size :
  fits ctx -> 1 <= size <= MAX_BLOCK_RANGE_SIZE -> fits (note_blocks ctx bs size).
Proof.
  intros (? & ? & ? & ? & ? & C & ?) Hs. do 5 (split; [done|]).
  split; [by apply note_blocks_ok|done].
Qed.

Lemma range_delivers from to all bs :
  0 <= from <= to -> (forall t, t ∈ all <-> exists n, from <= n <= to /\ wanted n t) ->
  StronglySorted Z.lt (block_numbers bs) ->
  (forall n, n ∈ block_numbers bs <->
        n = to \/ exists t, t ∈ all /\ trigger_block_number t = Ok n) ->
  (forall b, b ∈ bs -> exists n, bwt_ethereum_block b = Final (canonical n)
        /\ bwt_triggers b ≡ₚ filter (on_block n) all
        /\ StronglySorted runs_before (bwt_triggers b)) ->
  delivers (from - 1) to bs /\ to ∈ block_numbers bs.
Proof.
  intros Hr Hall S N B.
  assert (R : forall n, n ∈ block_numbers bs -> from <= n <= to).
  { intros n [->|(t & (m & Hm & W)%Hall & En)]%N; [lia|].
    rewrite (sc_wanted SC m t W) in En. by injection En as <-. }
  split; [|apply N; by left]. split; [done|]. split; [intros n Hn%R; lia|]. split.
  - intros n t Hn W. apply N. right. exists t. split; [|by apply (sc_wanted SC)].
    apply Hall. exists n. split; [lia|done].
  - intros b Hb. destruct (B b Hb) as (n & Eb & P & Sb). exists n.
    split; [by rewrite Eb|]. split; [|done]. intros t.
    rewrite P, list_elem_of_filter, Is_true_true, on_block_true, Hall. split.
    + intros (En & m & _ & W). rewrite (sc_wanted SC m t W) in En. by injection En as <-.
    + intros W. split; [by apply (sc_wanted SC)|]. exists n. split; [|done]. apply R.
      unfold block_numbers. apply list_elem_of_omap. exists b. split; [done|].
      rewrite Eb. apply (sc_number SC).
Qed.

(** Far from the head a range is delivered. *)
Lemma far_step_delivers ctx q :
  env_ok -> fits ctx -> -1 <= q < H ->
  is_far ctx (chain_ptr H) (at_number q) = true ->
  exists bs size to, far_step ctx (chain_ptr H) (safe_margin ctx (chain_ptr H)) (at_number q)
    = Ok (ProcessDescendantBlocks bs size)
  /\ 1 <= size <= MAX_BLOCK_RANGE_SIZE /\ q < to <= H
  /\ delivers q to bs /\ to ∈ block_numbers bs.
Proof.
  intros EO (El & Ec & Eb & _ & _ & CO & R) Hq F.
  pose proof (sc_head SC) as Hh.
  pose proof (is_far_room ctx (chain_ptr H) (at_number q) R Hh) as Room.
  specialize (Room ltac:(unfold at_number; destruct (Z.ltb_spec q 0); [done|by intros p [= <-]]) F).
  cbn [ptr_number chain_ptr] in Room.
  assert (Rg : 0 <= safe_margin ctx (chain_ptr H)) by (unfold safe_margin; simpl; lia).
  unfold far_step. set (reorg := safe_margin _ _) in *.
  assert (M : match at_number q with
              | None => Ok true
              | Some ptr => map_err (fun e => InBlocks (FromAdapter e)) (is_on_main_chain ptr)
              end = Ok true).
  { unfold at_number. destruct (Z.ltb_spec q 0); [done|]. rewrite (sc_main SC); [done|lia]. }
  rewrite M. cbn [res_bind negb].
  destruct (block_range _ _ _ _) as [[from to] size] eqn:B.
  apply block_range_spec in B as (-> & L1 & L2 & _ & _);
    [|done|done|exact Room|exact Rg|simpl; lia].
  rewrite next_number_at in * by lia. cbn [ptr_number chain_ptr] in L1.
  destruct (sc_range SC (q + 1) to ltac:(lia) ltac:(lia)) as (all & CA & Hall).
  destruct (range_blocks_found _ _ _ _ _ _ _ CA) as (bs & W & S & N & Bl).
  rewrite El, Ec, Eb, W. cbn [map_err res_bind]. exists bs, size, to.
  split; [done|]. split; [done|]. split; [lia|].
  replace q with (q + 1 - 1) at 1 by lia. apply (range_delivers _ _ all); [lia|done..].
Qed.

(** Close to the head the next block is delivered. *)
Lemma near_step_delivers ctx q :
  fits ctx -> 0 <= q < H -> 1 <= MAX_BLOCK_RANGE_SIZE ->
  exists bs, near_step ctx (chain_ptr H) (chain_ptr q) = Ok (ProcessDescendantBlocks bs 1)
  /\ delivers q (q + 1) bs /\ q + 1 ∈ block_numbers bs.
Proof.
  intros (El & Ec & Eb & Ei & _) Hq M. unfold near_step.
  rewrite near_offset by (pose proof (sc_head SC); unfold small_ptr; simpl; lia).
  cbn [ptr_number chain_ptr ptr_hash]. replace (H - q - 1) with (H - (q + 1)) by lia. rewrite (sc_ancestor SC) by lia.
  cbn [unwrap_res res_bind]. rewrite (sc_full SC), decide_True
    by (rewrite (sc_parent SC) by lia; f_equal; lia).
  destruct (sc_seen SC (q + 1) ltac:(lia)) as (calls & Ecalls & Hc & CT & W).
  rewrite Ei, Ecalls. cbn [res_bind].
  assert (Ep : ptr_of_ethereum_block (full (q + 1)) = Ok (chain_ptr (q + 1))).
  { unfold ptr_of_ethereum_block. by rewrite (sc_full SC), (sc_hash SC), (sc_number SC). }
  destruct (block_triggers_found lf cf bf (mk_block_with_calls (full (q + 1)) calls)
              (chain_ptr (q + 1)) Ep Hc CT) as (r & Er & S & Hr).
  rewrite El, Ec, Eb, Er. cbn [map_err res_bind]. eexists. split; [done|].
  set (b := mk_block_with_triggers _ _).
  assert (En : block_numbers [b] = [q + 1])
    by (unfold block_numbers, b; rewrite omap_cons_eq; simpl; by rewrite (sc_full SC), (sc_number SC)).
  rewrite En. split; [|left]. unfold delivers. rewrite En. split; [repeat constructor|].
  split; [intros n ->%list_elem_of_singleton; lia|]. split.
  - intros n t Hn _. apply list_elem_of_singleton. lia.
  - intros x ->%list_elem_of_singleton. exists (q + 1). split; [apply (sc_full SC)|].
    split; [|done]. intros t. etransitivity; [apply Hr|apply W].
Qed.

Lemma step_delivers ctx q :
  env_ok -> fits ctx -> -1 <= q < H ->
  exists bs size to, get_next_step ctx (mk_pointers (Ok (Some (chain_ptr H))) (Ok (at_number q)))
    = Ok (ProcessDescendantBlocks bs size)
  /\ 1 <= size <= MAX_BLOCK_RANGE_SIZE /\ q < to <= H
  /\ delivers q to bs /\ to ∈ block_numbers bs.
Proof.
  intros EO Ft Hq. rewrite get_next_step_behind.
  - destruct (is_far _ _ _) eqn:F; [by apply far_step_delivers|].
    unfold at_number in *. destruct (Z.ltb_spec q 0); [done|]. destruct EO as [M ?].
    destruct (near_step_delivers ctx q Ft ltac:(lia) M) as (bs & -> & D & N).
    exists bs, 1, (q + 1). split; [done|]. split; [lia|]. split; [lia|]. done.
  - apply (sc_head SC).
  - unfold at_number. destruct (Z.ltb_spec q 0); [done|]. intros p [= <-]. simpl. lia.
Qed.

(** The subgraph is [d] blocks up a branch that left the chain at number [q]. *)
Inductive forked (q : Z) : nat -> option EthereumBlockPointer -> Prop :=
| on_chain : forked q 0 (at_number q)
| off_chain d p parent b bs :
    ptr_hash p <> hash (ptr_number p) -> is_on_main_chain p = Ok false ->
    load_blocks {[ptr_hash p]} = Ok (b :: bs) -> parent_ptr b = Ok (Some parent) ->
    ptr_number p = ptr_number parent + 1 -> revert_block_operations id p parent = Ok tt ->
    forked q d (Some parent) -> forked q (S d) (Some p).

Lemma forked_number q d p : forked q d (Some p) -> 0 <= q /\ ptr_number p = q + Z.of_nat d.
Proof.
  intros F. remember (Some p) as o eqn:E. revert p E.
  induction F as [|d p parent b bs _ _ _ _ En _ F IH]; intros p' E.
  - unfold at_number in E. destruct (Z.ltb_spec q 0); [done|]. injection E as <-. simpl. lia.
  - injection E as <-. destruct (IH parent eq_refl). lia.
Qed.

(** On a branch the step is to revert. *)
Lemma step_reverts ctx q d p :
  env_ok -> fits ctx -> forked q (S d) (Some p) -> ptr_number p < H ->
  exists parent, forked q d (Some parent)
  /\ (let? step := get_next_step ctx (mk_pointers (Ok (Some (chain_ptr H))) (Ok (Some p))) in
      do_step ctx step) = Ok (OutcomeRevert, [RevertBlockOperations id p parent]).
Proof.
  intros EO (_ & _ & _ & _ & Eid & _) F Hp. destruct (forked_number _ _ _ F) as [Q Ep].
  inversion F as [|? ? parent b bs Nh Off Load Par En Rev F']; subst.
  exists parent. split; [done|]. rewrite get_next_step_behind.
  2:{ apply (sc_head SC). }
  2:{ intros p' [= <-]. simpl. lia. }
  assert (St : (if is_far ctx (chain_ptr H) (Some p)
                then far_step ctx (chain_ptr H) (safe_margin ctx (chain_ptr H)) (Some p)
                else near_step ctx (chain_ptr H) p) = Ok (RevertBlock p)).
  { destruct (is_far _ _ _).
    - unfold far_step. by rewrite Off.
    - unfold near_step.
      rewrite near_offset by (pose proof (sc_head SC); unfold small_ptr; simpl; lia).
      cbn [ptr_number chain_ptr]. replace (H - ptr_number p - 1) with (H - (ptr_number p + 1)) by lia.
      rewrite (sc_ancestor SC) by lia. cbn [unwrap_res res_bind].
      rewrite (sc_full SC), decide_False; [done|]. rewrite (sc_parent SC) by lia.
      replace (ptr_number p + 1 - 1) with (ptr_number p) by lia. by apply not_eq_sym. }
  rewrite St. cbn [res_bind do_step]. rewrite Load. cbn [map_err res_bind head unwrap].
  rewrite Par. cbn [lift_panic res_bind unwrap]. by rewrite Eid, Rev.
Qed.

Lemma reconcile_forward fuel ctx q :
  env_ok -> fits ctx -> -1 <= q <= H -> (Z.to_nat (H - q) < fuel)%nat ->
  exists bs, reconcile fuel (chain_ptr H) ctx (at_number q)
             = Some (Ok (EvBlock <$> bs, Some (chain_ptr H)))
  /\ delivers q H bs.
Proof.
  intros EO. pose proof (sc_head SC) as Hh. revert ctx q.
  induction fuel as [|fuel IH]; intros ctx q Ft Hq Hf; [lia|]. cbn [reconcile].
  destruct (decide (q = H)) as [->|Ne].
  - exists []. split; [|apply delivers_nil]. unfold at_number.
    destruct (Z.ltb_spec H 0); [lia|]. by rewrite get_next_step_caught_up.
  - destruct (step_delivers ctx q EO Ft ltac:(lia)) as (bs & size & to & -> & Hs & Ht & D & N).
    cbn [res_bind do_step]. rewrite (delivers_advance _ _ _ _ D N).
    replace (Some (chain_ptr to)) with (at_number to)
      by (unfold at_number; destruct (Z.ltb_spec to 0); [lia|done]).
    destruct (IH (note_blocks ctx bs size) to) as (bs' & -> & D'); [by apply fits_note|lia|lia|].
    exists (bs ++ bs'). rewrite fmap_app. split; [done|].
    by apply (delivers_app q to H); [lia| |].
Qed.

Lemma reconcile_back fuel ctx q d p :
  env_ok -> fits ctx -> -1 <= q <= H -> forked q d p ->
  (d = 0%nat \/ q + Z.of_nat d < H) -> (d + Z.to_nat (H - q) < fuel)%nat ->
  exists bs, reconcile fuel (chain_ptr H) ctx p
             = Some (Ok (replicate d EvRevert ++ (EvBlock <$> bs), Some (chain_ptr H)))
  /\ delivers q H bs.
Proof.
  intros EO Ft Hq F Hd Hf. revert fuel p F Hd Hf. induction d as [|d IH]; intros fuel p F Hd Hf.
  - inversion F; subst. by apply reconcile_forward; [| |lia|lia].
  - destruct fuel as [|fuel]; [lia|]. destruct p as [p|]; [|by inversion F].
    destruct (forked_number _ _ _ F) as [_ Ep].
    destruct (step_reverts ctx q d p EO Ft F ltac:(lia)) as (parent & F' & E).
    cbn [reconcile]. rewrite E. cbn [after_calls foldl].
    destruct (IH fuel (Some parent) F' ltac:(lia) ltac:(lia)) as (bs & -> & D).
    by exists bs.
Qed.

(** On a branch that is as high as the head there is nothing to do. *)
Lemma branch_waits fuel ctx q d p :
  forked q d p -> (0 < d)%nat -> H <= q + Z.of_nat d -> (0 < fuel)%nat ->
  reconcile fuel (chain_ptr H) ctx p = Some (Ok ([], p)).
Proof.
  intros F Hd Hq Hf. destruct fuel as [|fuel]; [lia|].
  destruct p as [p|]; [|by inversion F; subst; lia].
  destruct (forked_number _ _ _ F) as [_ En]. cbn [reconcile]. unfold get_next_step. cbn.
  by destruct (Z.leb_spec H (ptr_number p)); [|lia].
Qed.

(** C1: Against a chain that stays as it is the stream catches up with its head
    from any block of the chain, and from any branch lower than the head.  From
    [d] blocks up a branch that left the chain at number [q] it reverts exactly
    those [d] blocks; from there it delivers blocks of the chain, each once and in
    order, until the subgraph points to the head; every block it passes over has
    no triggers, and those it delivers have exactly theirs, in handler order.
    This takes at most one step for each block.  On a branch as high as the head
    or higher it does nothing: it waits for the head to pass it. *)
Theorem stream_catches_up fuel ctx q d p :
  env_ok -> fits ctx -> -1 <= q <= H -> forked q d p -> (d + Z.to_nat (H - q) < fuel)%nat ->
  (d = 0%nat \/ q + Z.of_nat d < H ->
   exists bs, reconcile fuel (chain_ptr H) ctx p
              = Some (Ok (replicate d EvRevert ++ (EvBlock <$> bs), Some (chain_ptr H)))
   /\ StronglySorted Z.lt (block_numbers bs)
   /\ (forall n, n ∈ block_numbers bs -> q < n <= H)
   /\ (forall n t, q < n <= H -> wanted n t -> n ∈ block_numbers bs)
   /\ forall b, b ∈ bs -> exists n, light_block (bwt_ethereum_block b) = canonical n
        /\ (forall t, t ∈ bwt_triggers b <-> wanted n t)
        /\ StronglySorted runs_before (bwt_triggers b))
  /\ ((0 < d)%nat -> H <= q + Z.of_nat d -> reconcile fuel (chain_ptr H) ctx p = Some (Ok ([], p))).
Proof.
  intros EO Ft Hq F Hf. split.
  - intros Hd. by apply reconcile_back.
  - intros Hd Hh. apply (branch_waits fuel ctx q d p F Hd Hh). lia.
Qed.
End catching_up.
End stream.

(** ** Witnesses *)
Module Witness.
Abbreviation Graph := (list (LogFilterNode * LogFilterNode)).

Definition hash (n : Z) : H256 := n + 100.
Definition block (n h parent : Z) : LightEthereumBlock :=
  mk_block (Some h) parent 0 0 0 0 0 (Some n) 0 0 0 0 None None [].
Definition canonical (n : Z) : LightEthereumBlock := block n (hash n) (hash (n - 1)).
Definition uncle : LightEthereumBlock := block 4 999 (hash 3).
Definition uncle_ptr : EthereumBlockPointer := mk_ptr 999 4.

Definition a_log (i : Z) : Log :=
  mk_log 1 [7%Z] [] (Some 104%Z) (Some 4%Z) (Some 0%Z) (Some 0%Z) (Some i).
Definition logs : list Log := [a_log 1; a_log 0].
Definition full (n : Z) : EthereumBlock :=
  mk_eth_block (canonical n) (if n =? 4 then [mk_receipt 0 logs] else []).

#[local] Instance node : EthereumAdapter Graph := {|
  AdapterError := unit;
  logs_in_block_range := fun from to _ =>
    Ok (if (from <=? 4) && (4 <=? to) then logs else []);
  calls_in_block_range := fun _ _ _ => Ok [];
  block_range_to_ptrs := fun from to => Ok [];
  block_hash_by_block_number := fun n _ => Ok (Some (hash n));
  load_blocks := fun hs =>
    Ok ((fun h => if h =? 999 then uncle else canonical (h - 100)) <$> elements hs);
  completion := reverse;
|}.

#[local] Instance meta : MetaStore := {|
  MetaError := unit;
  find := fun _ => Ok [];
  meta_get := fun _ => Ok None;
|}.

#[local] Instance client : ChainClient (AdapterError (G := Graph)) := {|
  StoreError := unit;
  ancestor_block := fun head offset => Ok (Some (full (ptr_number head - offset)));
  revert_block_operations := fun _ _ _ => Ok tt;
  apply_metadata_operations := fun _ => Ok tt;
  is_on_main_chain := fun p => Ok (ptr_hash p =? hash (ptr_number p));
  calls_in_block := fun _ _ => Ok [];
|}.

#[local] Instance defaults : BlockStreamEnv :=
  {| MAX_BLOCK_RANGE_SIZE := 2000; TARGET_TRIGGERS_PER_BLOCK_RANGE := 100 |}.

Definition lf : EthereumLogFilter Graph := mk_log_filter [(NContract 1%Z, NEvent 7%Z)] ∅.
Definition cf : EthereumCallFilter := mk_call_filter ∅.
Definition bf : EthereumBlockFilter := mk_block_filter ∅ false.
Definition wanted (n : Z) (t : EthereumTrigger) : Prop := n = 4 /\ exists l, l ∈ logs /\ t = TLog l.
Definition stream : BlockStream := stream_new "sub" 2 lf cf bf [5] false.
Definition ctx : BlockStreamContext := bs_ctx stream.

Lemma stream_logs_consistent ts :
  (forall t, t ∈ ts -> exists l, l ∈ logs /\ t = TLog l) -> consistent_triggers ts.
Proof.
  assert (L : forall l, l ∈ logs -> l_transaction_index l = Some 0).
  { intros l. unfold logs. rewrite !elem_of_cons, elem_of_nil. by intros [->|[->|[]]]. }
  intros Ht. split.
  - intros l (l' & Hl & [= ->])%Ht. rewrite (L l' Hl). by eexists.
  - intros a b i j (a' & Ha & [= ->])%Ht (b' & Hb & [= ->])%Ht.
    rewrite (L a' Ha), (L b' Hb). intros [= <-] [= <-] _. done.
Qed.

Lemma stream_node_answers from to :
  0 <= from <= to -> to <= 6 ->
  chain_answers from to canonical lf cf bf
    (if (from <=? 4) && (4 <=? to) then TLog <$> logs else []).
Proof.
  intros Hr Ht. assert (Hl : forall t, t ∈ (if (from <=? 4) && (4 <=? to) then TLog <$> logs else [])
    -> from <= 4 <= to /\ exists l, l ∈ logs /\ t = TLog l).
  { intros t. destruct (Z.leb_spec from 4), (Z.leb_spec 4 to); simpl andb; cbv iota;
      try (intros F; by apply elem_of_nil in F).
    intros (l & -> & Hl)%list_elem_of_fmap. split; [lia|]. by exists l. }
  split.
  - lia.
  - done.
  - intros n. by eexists.
  - intros n m [= E]. unfold hash in E. lia.
  - eexists [_]. split; [reflexivity|]. simpl.
    by destruct ((from <=? 4) && (4 <=? to)).
  - intros r. apply reverse_Permutation.
  - intros t (L4 & l & Hin & ->)%Hl. exists 4, 104. split; [done|].
    unfold logs in Hin. rewrite !elem_of_cons, elem_of_nil in Hin.
    by destruct Hin as [->|[->|[]]].
  - intros n. apply stream_logs_consistent. intros t [_ (_ & Hx)%Hl]%list_elem_of_filter. done.
  - done.
  - intros ns ND Hn. eexists. split; [reflexivity|].
    assert (E : omap (fun n => b_hash (canonical n)) ns = hash <$> ns).
    { clear. induction ns as [|n ns IH]; [done|]. by rewrite omap_cons_eq, IH. }
    rewrite E, elements_list_to_set
      by (apply NoDup_fmap_2; [intros x y; unfold hash; lia|done]).
    rewrite <- list_fmap_compose.
    erewrite (list_fmap_ext _ canonical ns); [done|].
    intros i n Hi. simpl. assert (from <= n <= to) by (apply Hn; by eapply list_elem_of_lookup_2).
    unfold hash at 1. destruct (Z.eqb_spec (n + 100) 999); [lia|]. unfold hash. f_equal. lia.
Qed.

Lemma chain_is_stable : stable_chain lf cf bf false 6 canonical hash full wanted.
Proof.
  split.
  - done.
  - done.
  - done.
  - done.
  - intros n t (-> & l & Hl & ->). unfold logs in Hl. rewrite !elem_of_cons, elem_of_nil in Hl.
    by destruct Hl as [->|[->|[]]].
  - intros from to Hr Ht. eexists. split; [by apply stream_node_answers|]. intros t.
    destruct (Z.leb_spec from 4), (Z.leb_spec 4 to); simpl andb; cbv iota;
      [rewrite list_elem_of_fmap|rewrite elem_of_nil..]; split.
    + intros (l & -> & Hl). exists 4. split; [lia|]. split; [done|]. by exists l.
    + intros (n & _ & _ & l & Hl & ->). by exists l.
    + done.
    + intros (n & ? & -> & _). lia.
    + done.
    + intros (n & ? & -> & _). lia.
    + done.
    + intros (n & ? & -> & _). lia.
  - intros n Hn. simpl. by rewrite Z.eqb_refl.
  - done.
  - intros n Hn. simpl. do 3 f_equal. lia.
  - intros n Hn. exists []. split; [done|]. split; [intros c Hc; by apply elem_of_nil in Hc|].
    unfold full. split.
    + apply stream_logs_consistent. intros t. simpl. destruct (n =? 4); simpl; [|intros Ht; by apply elem_of_nil in Ht].
      rewrite !elem_of_cons, elem_of_nil. unfold logs.
      intros [->|[->|[]]]; eexists; (split; [|done]); [left|right; left].
    + intros t. unfold wanted. destruct t as [p [|a]|c|l]; cbn [block_has_trigger bwc_calls bf_trigger_every_block bf bf_contract_addresses bwc_ethereum_block eb_transaction_receipts].
      * split; [by intros []|]. by intros (_ & l & _ & ?).
      * split; [intros (_ & [s Hs] & _); set_solver|]. by intros (_ & l & _ & ?).
      * split; [intros [Hc _]; by apply elem_of_nil in Hc|]. by intros (_ & l & _ & ?).
      * destruct (Z.eqb_spec n 4) as [->|Ne]; split.
        -- intros (r & ->%list_elem_of_singleton & Hl & _). split; [done|]. by exists l.
        -- intros (_ & l' & Hl & [= <-]). exists (mk_receipt 0 logs). split; [left|].
           split; [done|]. unfold logs in Hl. rewrite !elem_of_cons, elem_of_nil in Hl.
           by destruct Hl as [->|[->|[]]].
        -- intros (r & Hr & _). by apply elem_of_nil in Hr.
        -- by intros [? _].
Qed.

Lemma env : env_ok.
Proof. done. Qed.

Lemma context_fits : fits lf cf bf false "sub" ctx.
Proof.
  repeat (split; [done|]). split; [|done]. split; [done|]. repeat constructor; done.
Qed.

Lemma stream_catches_up_witness :
  exists bs, reconcile 10 (mk_ptr 106 6) ctx (Some uncle_ptr)
    = Some (Ok (EvRevert :: (EvBlock <$> bs), Some (mk_ptr 106 6)))
  /\ block_numbers bs = [4; 5; 6] /\ 4 ∈ block_numbers bs.
Proof.
  destruct (stream_catches_up lf cf bf false 6 canonical hash full wanted chain_is_stable "sub"
              10 ctx 3 1 (Some uncle_ptr)) as [Hup _].
  - apply env.
  - apply context_fits.
  - lia.
  - eapply (off_chain _ _ 3 0 uncle_ptr (mk_ptr 103 3) uncle []); try reflexivity.
    + vm_compute. discriminate.
    + apply on_chain.
  - vm_compute. lia.
  - destruct Hup as (bs & E & _ & _ & C & _); [right; vm_compute; reflexivity|].
    exists bs. split; [exact E|]. split.
    + apply (f_equal (fun x => match x with
        | Some (Ok (evs, _)) => omap (fun e => match e with EvBlock b =>
            b_number (light_block (bwt_ethereum_block b)) | _ => None end) evs
        | _ => [] end)) in E.
      change (fmap EvBlock bs) with (EvBlock <$> bs) in E.
      transitivity (omap (fun e => match e with EvBlock b =>
            b_number (light_block (bwt_ethereum_block b)) | _ => None end)
            (EvRevert :: (EvBlock <$> bs))).
      { unfold block_numbers. clear. simpl. induction bs as [|b bs IH]; [done|].
        rewrite fmap_cons, !omap_cons_eq, IH. done. }
      simpl replicate in E. simpl app in E. rewrite <- E. vm_compute. reflexivity.
    + apply (C 4 (TLog (a_log 0))); [lia|]. split; [done|]. exists (a_log 0).
      split; [right; left|done].
Defined.

Lemma next_step_moves_right_way_witness :
  get_next_step ctx (mk_pointers (Ok (Some (mk_ptr 106 6))) (Ok (Some uncle_ptr)))
    = Ok (RevertBlock uncle_ptr)
  /\ b_parent_hash (eb_block (full 5)) <> ptr_hash uncle_ptr.
Proof.
  split; [vm_compute; reflexivity|].
  pose proof (next_step_moves_right_way ctx (mk_ptr 106 6) (Some uncle_ptr) (RevertBlock uncle_ptr)
    env ltac:(apply context_fits) ltac:(vm_compute; discriminate) ltac:(by vm_compute)) as P.
  destruct P as (_ & _ & [[L _]|(_ & a & A & N)]).
  - intros p [= <-]. vm_compute. discriminate.
  - vm_compute. reflexivity.
  - vm_compute in L. discriminate.
  - vm_compute in A. injection A as <-. exact N.
Defined.

Definition no_store : @StoreError _ client := tt.

(** The error, then the blocks of the next future. *)
Lemma polls_lose_nothing_witness :
  exists rs s' a', polls stream (mk_answers [] [] [])
    [mk_answers [FError (InStore no_store)] [] [];
     mk_answers [FReady (Blocks [mk_block_with_triggers (Final uncle) []] 1)] [] [true]]
    = Ok (rs, s', a')
  /\ rs = [Failed (InStore no_store); Ready (EvBlock (mk_block_with_triggers (Final uncle) []))].
Proof.
  destruct (polls_lose_nothing
    [mk_answers [FError (InStore no_store)] [] [];
     mk_answers [FReady (Blocks [mk_block_with_triggers (Final uncle) []] 1)] [] [true]]
    stream (mk_answers [] [] [])) as [(rs & s' & a' & taken & E & _)|[_ P]].
  - discriminate.
  - constructor.
  - repeat constructor.
  - exists rs, s', a'. split; [exact E|].
    apply (f_equal (fun x => match x with Ok (rs, _, _) => rs | _ => [] end)) in E.
    symmetry. transitivity rs; [|done]. rewrite <- E. vm_compute. reflexivity.
  - exfalso. cbn in P. rewrite !elem_of_cons, elem_of_nil in P. by destruct P as [?|[?|[]]].
Defined.

(** From no triggers in a range of one block the range grows tenfold; then the
    target for the number of triggers decides. *)
Example range_sizes :
  let c1 := note_blocks ctx [] 1 in
  let c2 := note_blocks c1 [mk_block_with_triggers (Final uncle) [TLog (a_log 0); TLog (a_log 1)]] 10 in
  let c3 := note_blocks c2 [] 50 in
  (range_size_of ctx, range_size_of c1, range_size_of c2, range_size_of c3) = (1, 10, 100, 500).
Proof. vm_compute. reflexivity. Qed.
End Witness.
