(* ===== verification/GraphqlSchema.v ===== *)
(** * GraphQL schema documents

    Models [graphql/src/schema/ast.rs], [graph/src/data/graphql/ext.rs] and
    [object_or_interface.rs]: looking things up in the syntax tree of a schema,
    the names of filters, and the validation of entities.

    Of the tree of the third-party [graphql_parser] crate the fields the
    program reads are kept; descriptions are left out.  The error of
    [validate_entity] is a text; the model keeps which of its messages it is
    and what goes into it. *)

From stdpp Require Import prelude list strings gmap.
From Stdlib Require Import ZArith Lia.
From S2P Require Import Prelude.
From S2P Require Import GraphqlTypes.
From S2P Require Import StoreValue.
From S2P Require Import EntityCache.

#[local] Open Scope string_scope.
#[local] Open Scope list_scope.

(** ** Syntax *)
Record Directive := mk_directive {
  dir_name : string;
  dir_arguments : list (string * qvalue);
}.

Record InputValue := mk_input_value {
  iv_position : Pos;
  iv_name : string;
  iv_value_type : GType;
  iv_default_value : option qvalue;
}.

Record Field := mk_field {
  fd_name : string;
  fd_arguments : list InputValue;
  fd_field_type : GType;
  fd_directives : list Directive;
}.

Record ObjectType := mk_object_type {
  ot_name : string;
  ot_implements_interfaces : list string;
  ot_directives : list Directive;
  ot_fields : list Field;
}.

Record InterfaceType := mk_interface_type {
  it_name : string;
  it_directives : list Directive;
  it_fields : list Field;
}.

Record EnumType := mk_enum_type {
  et_name : string;
  et_directives : list Directive;
  et_values : list string;
}.

Record ScalarType := mk_scalar_type { st_name : string; st_directives : list Directive }.

Record InputObjectType := mk_input_object_type {
  iot_name : string;
  iot_directives : list Directive;
  iot_fields : list InputValue;
}.

Record UnionType := mk_union_type {
  ut_name : string;
  ut_directives : list Directive;
  ut_types : list string;
}.

Inductive TypeDefinition :=
| TDScalar (t : ScalarType)
| TDObject (t : ObjectType)
| TDInterface (t : InterfaceType)
| TDUnion (t : UnionType)
| TDEnum (t : EnumType)
| TDInputObject (t : InputObjectType).

Inductive DefinitionNode :=
| TypeDef (t : TypeDefinition)
| OtherDef.

Abbreviation Document := (list DefinitionNode).

Inductive ObjectOrInterface :=
| OIObject (t : ObjectType)
| OIInterface (t : InterfaceType).

(** ** Names of filters *)
Inductive FilterOp :=
| OpNot | OpGreaterThan | OpLessThan | OpGreaterOrEqual | OpLessOrEqual | OpIn | OpNotIn
| OpContains | OpNotContains | OpStartsWith | OpNotStartsWith | OpEndsWith | OpNotEndsWith
| OpEqual.

(** [str::strip_suffix], [ends_with] and [trim_end_matches], which strips the
    pattern as long as it is found. *)
Fixpoint strip_suffix (suffix s : string) : option string :=
  if String.eqb s suffix then Some ""
  else match s with
       | EmptyString => None
       | String c s => String c <$> strip_suffix suffix s
       end.

Definition ends_with (suffix s : string) : bool :=
  match strip_suffix suffix s with Some _ => true | None => false end.

Fixpoint trim_loop (fuel : nat) (suffix s : string) : string :=
  match fuel with
  | O => s
  | S fuel => match strip_suffix suffix s with
              | Some s => trim_loop fuel suffix s
              | None => s
              end
  end.

Definition trim_end_matches (suffix s : string) : string :=
  if String.eqb suffix "" then s else trim_loop (String.length s) suffix s.

Definition filter_suffixes : list (string * FilterOp) :=
  [("_not", OpNot); ("_gt", OpGreaterThan); ("_lt", OpLessThan); ("_gte", OpGreaterOrEqual);
   ("_lte", OpLessOrEqual); ("_not_in", OpNotIn); ("_in", OpIn); ("_not_contains", OpNotContains);
   ("_contains", OpContains); ("_not_starts_with", OpNotStartsWith);
   ("_not_ends_with", OpNotEndsWith); ("_starts_with", OpStartsWith); ("_ends_with", OpEndsWith)].

Definition parse_field_as_filter (key : string) : string * FilterOp :=
  let '(suffix, op) :=
    match List.find (fun x => ends_with (fst x) key) filter_suffixes with
    | Some x => x
    | None => ("", OpEqual)
    end in
  (trim_end_matches suffix key, op).

(** ** Looking things up *)
Definition get_type_name (t : TypeDefinition) : string :=
  match t with
  | TDEnum t => et_name t
  | TDInputObject t => iot_name t
  | TDInterface t => it_name t
  | TDObject t => ot_name t
  | TDScalar t => st_name t
  | TDUnion t => ut_name t
  end.

Definition get_type_definitions (schema : Document) : list TypeDefinition :=
  omap (fun d => match d with TypeDef t => Some t | OtherDef => None end) schema.

Definition as_object (t : TypeDefinition) : option ObjectType :=
  match t with TDObject t => Some t | _ => None end.
Definition as_interface (t : TypeDefinition) : option InterfaceType :=
  match t with TDInterface t => Some t | _ => None end.

Definition get_object_type_definitions (schema : Document) : list ObjectType :=
  omap as_object (get_type_definitions schema).

Definition get_interface_type_definitions (schema : Document) : list InterfaceType :=
  omap as_interface (get_type_definitions schema).

Definition get_object_type_definition (schema : Document) (name : string) : option ObjectType :=
  List.find (fun t => String.eqb (ot_name t) name) (get_object_type_definitions schema).

Definition get_input_object_definitions (schema : Document) : list InputObjectType :=
  omap (fun t => match t with TDInputObject t => Some t | _ => None end)
    (get_type_definitions schema).

Definition get_enum_definitions (schema : Document) : list EnumType :=
  omap (fun t => match t with TDEnum t => Some t | _ => None end) (get_type_definitions schema).

Definition find_interface (schema : Document) (name : string) : option InterfaceType :=
  List.find (fun t => String.eqb (it_name t) name) (get_interface_type_definitions schema).

Definition get_named_type (schema : Document) (name : string) : option TypeDefinition :=
  List.find (fun t => String.eqb (get_type_name t) name) (get_type_definitions schema).

Definition get_root_query_type (schema : Document) : option ObjectType :=
  List.find (fun t => String.eqb (ot_name t) "Query") (get_object_type_definitions schema).

Definition get_root_query_type_def (schema : Document) : option TypeDefinition :=
  TDObject <$> get_root_query_type schema.

Definition get_root_subscription_type (schema : Document) : option ObjectType :=
  List.find (fun t => String.eqb (ot_name t) "Subscription") (get_object_type_definitions schema).

Definition object_or_interface (schema : Document) (name : string) : option ObjectOrInterface :=
  match get_named_type schema name with
  | Some (TDObject t) => Some (OIObject t)
  | Some (TDInterface t) => Some (OIInterface t)
  | _ => None
  end.

(** *** Objects and interfaces *)
Definition is_object (t : ObjectOrInterface) : bool :=
  match t with OIObject _ => true | OIInterface _ => false end.
Definition is_interface (t : ObjectOrInterface) : bool :=
  match t with OIObject _ => false | OIInterface _ => true end.
Definition oi_name (t : ObjectOrInterface) : string :=
  match t with OIObject t => ot_name t | OIInterface t => it_name t end.
Definition oi_directives (t : ObjectOrInterface) : list Directive :=
  match t with OIObject t => ot_directives t | OIInterface t => it_directives t end.
Definition oi_fields (t : ObjectOrInterface) : list Field :=
  match t with OIObject t => ot_fields t | OIInterface t => it_fields t end.
Definition oi_field (t : ObjectOrInterface) (name : string) : option Field :=
  List.find (fun f => String.eqb (fd_name f) name) (oi_fields t).

(** The map from interfaces to the object types that implement them. *)
Abbreviation TypesForInterface := (gmap string (list ObjectType)).

Definition oi_object_types (types_for_interface : TypesForInterface) (t : ObjectOrInterface)
  : option (list ObjectType) :=
  match t with
  | OIObject t => Some [t]
  | OIInterface t => types_for_interface !! it_name t
  end.

(** Indexing the map panics for an unknown interface. *)
Definition oi_matches (types_for_interface : TypesForInterface) (t : ObjectOrInterface)
    (typename : string) : res Empty_set bool :=
  match t with
  | OIObject t => Ok (String.eqb (ot_name t) typename)
  | OIInterface t =>
      let? types := unwrap (types_for_interface !! it_name t) in
      Ok (existsb (fun o => String.eqb (ot_name o) typename) types)
  end.

(** *** Fields *)
Definition TYPENAME_FIELD : Field :=
  mk_field "__typename" [] (NonNullType (NamedType "String")) [].

Definition get_field (t : ObjectOrInterface) (name : string) : option Field :=
  if String.eqb name "__typename" then Some TYPENAME_FIELD else oi_field t name.

Fixpoint get_field_value_type (field_type : GType) : res string ValueType :=
  match field_type with
  | NamedType name => ValueType_from_str name
  | NonNullType inner => get_field_value_type inner
  | ListType _ => Err "Only scalar values are supported in this context"
  end.

Fixpoint get_base_type (t : GType) : string :=
  match t with
  | NamedType name => name
  | NonNullType inner => get_base_type inner
  | ListType inner => get_base_type inner
  end.

Definition NAME_ARGUMENT : list InputValue :=
  [mk_input_value (mk_Pos 0 0) "name" (NonNullType (NamedType "String")) None].

Definition get_argument_definitions (t : ObjectType) (name : string) : option (list InputValue) :=
  if String.eqb name "__type" then Some NAME_ARGUMENT
  else fd_arguments <$> get_field (OIObject t) name.

Fixpoint get_type_definition_from_type (schema : Document) (t : GType) : option TypeDefinition :=
  match t with
  | NamedType name => get_named_type schema name
  | ListType inner => get_type_definition_from_type schema inner
  | NonNullType inner => get_type_definition_from_type schema inner
  end.

Definition get_type_definition_from_field (schema : Document) (f : Field) : option TypeDefinition :=
  get_type_definition_from_type schema (fd_field_type f).

Definition find_directive (ds : list Directive) (name : string) : option Directive :=
  List.find (fun d => String.eqb (dir_name d) name) ds.

Definition get_object_type_directive (t : ObjectType) (name : string) : option Directive :=
  find_directive (ot_directives t) name.

Definition is_non_null_type (t : GType) : bool :=
  match t with NonNullType _ => true | _ => false end.

Fixpoint is_input_type (schema : Document) (t : GType) : bool :=
  match t with
  | NamedType name =>
      match get_named_type schema name with
      | Some (TDScalar _ | TDEnum _ | TDInputObject _) => true
      | _ => false
      end
  | ListType inner => is_input_type schema inner
  | NonNullType inner => is_input_type schema inner
  end.

Definition is_entity_type_definition (t : TypeDefinition) : bool :=
  match t with
  | TDObject t => bool_decide (is_Some (get_object_type_directive t "entity" : option Directive))
  | TDInterface _ => true
  | _ => false
  end.

Fixpoint is_entity_type (schema : Document) (t : GType) : bool :=
  match t with
  | NamedType name =>
      match get_named_type schema name with
      | Some d => is_entity_type_definition d
      | None => false
      end
  | ListType inner => is_entity_type schema inner
  | NonNullType inner => is_entity_type schema inner
  end.

Definition is_list_or_non_null_list_field (f : Field) : bool :=
  match fd_field_type f with
  | ListType _ => true
  | NonNullType (ListType _) => true
  | _ => false
  end.

Definition get_referenced_entity_type (schema : Document) (f : Field) : option TypeDefinition :=
  match get_type_definition_from_type schema (fd_field_type f) with
  | Some t => if is_entity_type_definition t then Some t else None
  | None => None
  end.

(** [qast::get_argument_value] *)
Definition get_argument_value (arguments : list (string * qvalue)) (name : string) : option qvalue :=
  snd <$> List.find (fun x => String.eqb (fst x) name) arguments.

Definition get_derived_from_directive (f : Field) : option Directive :=
  find_directive (fd_directives f) "derivedFrom".

Definition get_derived_from_field (t : ObjectOrInterface) (f : Field) : option Field :=
  d ← get_derived_from_directive f;
  v ← get_argument_value (dir_arguments d) "field";
  name ← match v with QString s => Some s | _ => None end;
  get_field t name.

(** ** Entities against the schema *)
Fixpoint scalar_value_type (schema : Document) (field_type : GType) : res Empty_set ValueType :=
  match field_type with
  | NamedType name =>
      match ValueType_from_str name with
      | Ok t => Ok t
      | _ => match get_named_type schema name with
             | Some (TDObject _ | TDInterface _ | TDEnum _) => Ok VT_String
             | _ => Panic
             end
      end
  | NonNullType inner => scalar_value_type schema inner
  | ListType inner => scalar_value_type schema inner
  end.

Fixpoint is_list (field_type : GType) : bool :=
  match field_type with
  | NamedType _ => false
  | NonNullType inner => is_list inner
  | ListType _ => true
  end.

Definition is_assignable_scalar (value : Value) (scalar_type : ValueType) : bool :=
  match value, scalar_type with
  | VString _, VT_String | VBigDecimal _, VT_BigDecimal | VBigInt _, VT_BigInt
  | VBool _, VT_Boolean | VBytes _, VT_Bytes | VInt _, VT_Int | VNull, _ => true
  | _, _ => false
  end.

(** The elements of a list are checked with [is_list] false. *)
Definition is_assignable (value : Value) (scalar_type : ValueType) (is_list : bool) : bool :=
  match value with
  | VList values => is_list && forallb (fun v => is_assignable_scalar v scalar_type) values
  | _ => is_assignable_scalar value scalar_type
  end.

Inductive EntityError :=
| UnknownEntityType (key : EntityKey)
| ListElement (key : EntityKey) (field : string) (ty : GType) (elt_type : string) (index : nat)
| FieldType (key : EntityKey) (field : string) (ty : GType) (value_type : string)
| MissingField (key : EntityKey) (field : string)
| DerivedField (key : EntityKey) (field : string).

(** The check for inhomogeneous lists. *)
Definition check_elements (key : EntityKey) (f : Field) (scalar_type : ValueType) (value : Value)
  : res EntityError () :=
  match value with
  | VList elts =>
      if is_list (fd_field_type f) then
        match list_find (fun elt => is_assignable elt scalar_type false = false) elts with
        | Some (index, elt) =>
            Err (ListElement key (fd_name f) (fd_field_type f) (type_name elt) index)
        | None => Ok ()
        end
      else Ok ()
  | _ => Ok ()
  end.

Definition validate_field (schema : Document) (key : EntityKey) (entity : Entity) (f : Field)
  : res EntityError () :=
  let is_derived := bool_decide (is_Some (get_derived_from_directive f : option Directive)) in
  match entity !! fd_name f, is_derived with
  | Some value, false =>
      let? scalar_type := lift_panic (scalar_value_type schema (fd_field_type f)) in
      let? _ := check_elements key f scalar_type value in
      if is_assignable value scalar_type (is_list (fd_field_type f)) then Ok ()
      else Err (FieldType key (fd_name f) (fd_field_type f) (type_name value))
  | None, false =>
      if is_non_null_type (fd_field_type f) then Err (MissingField key (fd_name f)) else Ok ()
  | Some _, true => Err (DerivedField key (fd_name f))
  | None, true => Ok ()
  end.

Definition validate_entity (schema : Document) (key : EntityKey) (entity : Entity)
  : res EntityError () :=
  let? object_type := ok_or (get_object_type_definition schema (entity_type key))
                        (UnknownEntityType key) in
  fold_res (fun _ f => validate_field schema key entity f) () (ot_fields object_type).

(** ** Names of filters: what is proved *)
Definition plain (f : string) : Prop :=
  Forall (fun x => ends_with (fst x) f = false) filter_suffixes.

Lemma string_length_app (a b : string) :
  String.length (a +:+ b) = String.length a + String.length b.
Proof.
  induction a as [|c a IH]; [done|].
  change (S (String.length (a +:+ b)) = S (String.length a + String.length b)). by rewrite IH.
Qed.

Lemma strip_suffix_app f s : strip_suffix s (f +:+ s) = Some f.
Proof.
  induction f as [|c f IH]; cbn [String.app].
  - change ("" +:+ s) with s. destruct s; cbn [strip_suffix]; [done|by rewrite String.eqb_refl].
  - change (String c f +:+ s) with (String c (f +:+ s)). cbn [strip_suffix].
    rewrite IH. destruct (String.eqb_spec (String c (f +:+ s)) s) as [E|_]; [|done].
    apply (f_equal String.length) in E. change (S (String.length (f +:+ s)) = String.length s) in E.
    rewrite string_length_app in E. lia.
Qed.

Lemma strip_suffix_spec s t r : strip_suffix s t = Some r <-> t = r +:+ s.
Proof.
  split; [|intros ->; apply strip_suffix_app]. revert r.
  induction t as [|c t IH]; intros r; cbn [strip_suffix].
  - destruct (String.eqb_spec "" s) as [<-|_]; [|done]. by intros [= <-].
  - destruct (String.eqb_spec (String c t) s) as [<-|_]; [by intros [= <-]|].
    intros (r' & E & ->)%fmap_Some. by rewrite (IH r' E).
Qed.

Lemma ends_with_spec s t : ends_with s t = true <-> exists r, t = r +:+ s.
Proof.
  unfold ends_with. destruct (strip_suffix s t) as [r|] eqn:E.
  - split; [intros _|done]. exists r. by apply strip_suffix_spec.
  - split; [done|]. intros [r ->]. by rewrite strip_suffix_app in E.
Qed.

Lemma trim_loop_stop n s t : ends_with s t = false -> trim_loop n s t = t.
Proof.
  unfold ends_with. destruct n; cbn [trim_loop]; [done|]. by destruct (strip_suffix s t).
Qed.

(** The suffix, however often it is there. *)
Fixpoint repeat_string (n : nat) (s : string) : string :=
  match n with O => "" | S n => repeat_string n s +:+ s end.

Lemma append_assoc (a b c : string) : (a +:+ b) +:+ c = a +:+ (b +:+ c).
Proof.
  induction a as [|x a IH]; [done|].
  change (String x ((a +:+ b) +:+ c) = String x (a +:+ (b +:+ c))). by rewrite IH.
Qed.

Lemma append_nil_r (a : string) : a +:+ "" = a.
Proof.
  induction a as [|x a IH]; [done|]. change (String x (a +:+ "") = String x a). by rewrite IH.
Qed.

Lemma trim_repeated n m f s :
  n <= m -> ends_with s f = false -> trim_loop m s (f +:+ repeat_string n s) = f.
Proof.
  intros Hm Hf. revert m Hm. induction n as [|n IH]; intros m Hm; cbn [repeat_string].
  - rewrite append_nil_r. by apply trim_loop_stop.
  - destruct m as [|m]; [lia|]. cbn [trim_loop].
    rewrite <- append_assoc, strip_suffix_app. apply IH. lia.
Qed.

Lemma repeat_length n s : s <> "" -> n <= String.length (repeat_string n s).
Proof.
  intros Hs. induction n as [|n IH]; cbn [repeat_string]; [lia|].
  rewrite string_length_app. destruct s; [done|]. cbn [String.length]. lia.
Qed.

Lemma trim_end_matches_repeated n f s :
  s <> "" -> ends_with s f = false -> trim_end_matches s (f +:+ repeat_string n s) = f.
Proof.
  intros Hs Hf. unfold trim_end_matches. destruct (String.eqb_spec s ""); [done|].
  apply trim_repeated; [|done]. rewrite string_length_app. pose proof (repeat_length n s Hs). lia.
Qed.

Lemma trim_loop_inv n s t : exists k, t = trim_loop n s t +:+ repeat_string k s.
Proof.
  revert t. induction n as [|n IH]; intros t; cbn [trim_loop].
  - exists 0. by rewrite append_nil_r.
  - destruct (strip_suffix s t) as [r|] eqn:E.
    + apply strip_suffix_spec in E as ->. destruct (IH r) as [k Hk]. exists (S k).
      cbn [repeat_string]. by rewrite <- append_assoc, <- Hk.
    + exists 0. by rewrite append_nil_r.
Qed.

Lemma app_suffixes (f s r t : string) :
  f +:+ s = r +:+ t ->
  (exists d, s = d +:+ t /\ r = f +:+ d) \/ (exists d, t = d +:+ s /\ f = r +:+ d).
Proof.
  revert r. induction f as [|c f IH]; intros r E.
  - left. by exists r.
  - destruct r as [|c' r]; [right; by exists (String c f)|].
    change (String c (f +:+ s) = String c' (r +:+ t)) in E. injection E as <- E.
    destruct (IH r E) as [(d & -> & ->)|(d & -> & ->)]; [left|right]; by exists d.
Qed.

(** Whether an extended name ends with a suffix. *)
Definition ends_with_app_test (t f s : string) : bool :=
  ends_with t s || match strip_suffix s t with Some d => ends_with d f | None => false end.

Lemma ends_with_app t f s : ends_with t (f +:+ s) = ends_with_app_test t f s.
Proof.
  unfold ends_with_app_test. apply eq_true_iff_eq. rewrite orb_true_iff, !ends_with_spec. split.
  - intros [r E]. destruct (app_suffixes _ _ _ _ E) as [(d & -> & _)|(d & -> & ->)].
    + left. by exists d.
    + right. rewrite strip_suffix_app. apply ends_with_spec. by exists r.
  - intros [[d ->]|H].
    + exists (f +:+ d). by rewrite append_assoc.
    + destruct (strip_suffix s t) as [d|] eqn:E; [|done].
      apply strip_suffix_spec in E as ->. apply ends_with_spec in H as [r ->].
      exists r. by rewrite append_assoc.
Qed.

Lemma plain_iff f : plain f <-> parse_field_as_filter f = (f, OpEqual).
Proof.
  unfold plain, parse_field_as_filter. split.
  - intros H.
    assert (List.find (fun x => ends_with (fst x) f) filter_suffixes = None) as ->; [|done].
    destruct (List.find _ _) as [x|] eqn:E; [|done]. apply List.find_some in E as [Hx E].
    apply list_elem_of_In in Hx. rewrite Forall_forall in H. by rewrite H in E.
  - destruct (List.find _ _) as [[s op]|] eqn:E.
    + apply List.find_some in E as [Hx E]. intros [= _ ->].
      apply list_elem_of_In in Hx. unfold filter_suffixes in Hx. by set_unfold in Hx; naive_solver.
    + intros _. apply Forall_forall. intros x Hx.
      apply (List.find_none _ _ E), list_elem_of_In, Hx.
Qed.

(** Of two suffixes of which one ends the other the longer one comes first:
    only the suffixes with [_not] compete with others. *)
Lemma find_suffix g s op :
  ends_with "_not" g = false \/ s = "_not" -> (s, op) ∈ filter_suffixes ->
  List.find (fun x => ends_with (fst x) (g +:+ s)) filter_suffixes = Some (s, op).
Proof.
  intros Hg Hs. unfold filter_suffixes in *.
  repeat first [apply elem_of_nil in Hs; done
    | apply elem_of_cons in Hs as [[= -> ->]|Hs];
      [unfold List.find, fst; rewrite !ends_with_app;
       unfold ends_with_app_test; simpl;
       first [done|destruct Hg as [Hg|Hg]; [by rewrite Hg|done]]|]].
Qed.

Lemma not_not g s op :
  s <> "_not" -> (s, op) ∈ filter_suffixes -> ends_with "_not" (g +:+ s) = false.
Proof.
  intros Hn Hs. rewrite ends_with_app. unfold filter_suffixes in Hs.
  repeat first [apply elem_of_nil in Hs; done
    | apply elem_of_cons in Hs as [[= -> ->]|Hs]; [done|]].
Qed.

(** The name of a field that does not itself end with the suffix of a
    filter, with the suffix of a filter appended one or more times, is parsed
    as the field and the filter; with no suffix it is the field and equality. *)
Lemma filter_name_roundtrip f s op n :
  plain f ->
  parse_field_as_filter f = (f, OpEqual)
  /\ ((s, op) ∈ filter_suffixes ->
      parse_field_as_filter (f +:+ repeat_string (S n) s) = (f, op)).
Proof.
  intros Hf. split; [by apply plain_iff|]. intros Hs.
  assert (Hfs : ends_with s f = false) by (apply (proj1 (Forall_forall _ _) Hf (s, op) Hs)).
  assert (Hne : s <> "").
  { intros ->. clear -Hs. unfold filter_suffixes in Hs.
    repeat apply elem_of_cons in Hs as [[= ]|Hs]. by apply elem_of_nil in Hs. }
  unfold parse_field_as_filter. cbn [repeat_string]. rewrite <- append_assoc.
  rewrite (find_suffix _ s op); [|clear Hfs|done].
  - rewrite append_assoc. change (repeat_string n s +:+ s) with (repeat_string (S n) s).
    by rewrite trim_end_matches_repeated.
  - destruct (decide (s = "_not")) as [|Hn]; [by right|left].
    destruct n as [|n]; cbn [repeat_string].
    + rewrite append_nil_r. apply (proj1 (Forall_forall _ _) Hf ("_not", OpNot)). left.
    + rewrite <- append_assoc. by apply (not_not _ s op).
Qed.

(** ** Validation of entities: what is proved *)
Inductive scalar_is : ValueType -> Value -> Prop :=
| scalar_null t : scalar_is t VNull
| scalar_string s : scalar_is VT_String (VString s)
| scalar_decimal d : scalar_is VT_BigDecimal (VBigDecimal d)
| scalar_bigint n : scalar_is VT_BigInt (VBigInt n)
| scalar_bool b : scalar_is VT_Boolean (VBool b)
| scalar_bytes b : scalar_is VT_Bytes (VBytes b)
| scalar_int i : scalar_is VT_Int (VInt i).
#[local] Hint Constructors scalar_is : core.

(** A value of a field of type [ty]: a scalar of the type's base or, for a list
    type, a list of such scalars; null for every type. *)
Definition conforms (schema : Document) (ty : GType) (v : Value) : Prop :=
  exists t, scalar_value_type schema ty = Ok t
    /\ (v = VNull
        \/ if is_list ty then exists l, v = VList l /\ Forall (scalar_is t) l else scalar_is t v).

(** A scalar given for a list, which a comment says is refused. *)
Definition scalar_for_list (schema : Document) (ty : GType) (v : Value) : Prop :=
  is_list ty = true /\ v <> VNull /\ exists t, scalar_value_type schema ty = Ok t /\ scalar_is t v.

(** What is accepted. *)
Definition stores (schema : Document) (ty : GType) (v : Value) : Prop :=
  conforms schema ty v \/ scalar_for_list schema ty v.

Definition derived (f : Field) : Prop := is_Some (get_derived_from_directive f).

Definition field_ok (schema : Document) (e : Entity) (f : Field) : Prop :=
  match e !! fd_name f with
  | Some v =>
      ~ derived f /\ (conforms schema (fd_field_type f) v \/ scalar_for_list schema (fd_field_type f) v)
  | None => derived f \/ is_non_null_type (fd_field_type f) = false
  end.

Inductive field_error (schema : Document) (key : EntityKey) (e : Entity) (f : Field)
  : EntityError -> Prop :=
| error_missing :
    e !! fd_name f = None -> ~ derived f -> is_non_null_type (fd_field_type f) = true ->
    field_error schema key e f (MissingField key (fd_name f))
| error_derived v :
    e !! fd_name f = Some v -> derived f ->
    field_error schema key e f (DerivedField key (fd_name f))
| error_element pre x post t :
    e !! fd_name f = Some (VList (pre ++ x :: post)) -> ~ derived f ->
    is_list (fd_field_type f) = true -> scalar_value_type schema (fd_field_type f) = Ok t ->
    Forall (scalar_is t) pre -> ~ scalar_is t x ->
    field_error schema key e f
      (ListElement key (fd_name f) (fd_field_type f) (type_name x) (length pre))
| error_type v :
    e !! fd_name f = Some v -> ~ derived f -> ~ stores schema (fd_field_type f) v ->
    (is_list (fd_field_type f) = true -> as_list v = None) ->
    field_error schema key e f (FieldType key (fd_name f) (fd_field_type f) (type_name v)).

Lemma is_assignable_scalar_spec v t : is_assignable_scalar v t = true <-> scalar_is t v.
Proof. split; [|by destruct 1]. destruct v, t; simpl; done || eauto. Qed.

Lemma is_assignable_false v t : is_assignable v t false = is_assignable_scalar v t.
Proof. by destruct v. Qed.

Lemma is_assignable_spec v t b :
  is_assignable v t b = true
  <-> scalar_is t v \/ exists l, v = VList l /\ b = true /\ Forall (scalar_is t) l.
Proof.
  assert (Hs : forall l, scalar_is t (VList l) -> False) by (intros l Hl; inversion Hl).
  destruct v; cbn [is_assignable]; rewrite ?is_assignable_scalar_spec; try (split; [by left|];
    by intros [H|(l' & [=] & _)]).
  rewrite andb_true_iff, forallb_forall. setoid_rewrite Forall_forall.
  setoid_rewrite is_assignable_scalar_spec. setoid_rewrite list_elem_of_In. naive_solver.
Qed.

Lemma known_or_panic schema ty :
  scalar_value_type schema ty = Panic \/ exists t, scalar_value_type schema ty = Ok t.
Proof. destruct (scalar_value_type schema ty) as [t|[]|]; eauto. Qed.

Lemma first_element_spec l t :
  match list_find (fun elt => is_assignable elt t false = false) l with
  | Some (i, x) => exists pre post, l = pre ++ x :: post /\ i = length pre
                   /\ Forall (scalar_is t) pre /\ ~ scalar_is t x
  | None => Forall (scalar_is t) l
  end.
Proof.
  destruct (list_find _ l) as [[i x]|] eqn:E.
  - apply list_find_Some in E as (Hi & Hx & Hpre). exists (take i l), (drop (S i) l).
    rewrite take_drop_middle by done. split; [done|].
    apply lookup_lt_Some in Hi as Hlt. rewrite length_take_le by lia. split; [done|].
    rewrite is_assignable_false in Hx. rewrite <- is_assignable_scalar_spec, Hx. split; [|done].
    apply Forall_lookup. intros j y Hj. apply lookup_take_Some in Hj as [Hj Hlt'].
    specialize (Hpre j y Hj Hlt'). rewrite is_assignable_false in Hpre.
    apply is_assignable_scalar_spec. by destruct (is_assignable_scalar y t).
  - apply list_find_None in E. eapply Forall_impl; [exact E|]. intros x Hx.
    cbn beta in Hx. rewrite is_assignable_false in Hx.
    apply is_assignable_scalar_spec. by destruct (is_assignable_scalar x t).
Qed.

Lemma stores_iff schema ty t v :
  scalar_value_type schema ty = Ok t ->
  stores schema ty v <-> is_assignable v t (is_list ty) = true.
Proof.
  intros E. rewrite is_assignable_spec. unfold stores, conforms, scalar_for_list. rewrite E.
  assert (v = VNull \/ v <> VNull) as Hn by (destruct v; auto; right; done).
  split.
  - intros [(t' & [= <-] & [-> |Hv])|(_ & _ & t' & [= <-] & ?)]; [left; constructor| |by left].
    destruct (is_list ty); [right; naive_solver|by left].
  - intros [Hv|(l & -> & Hl & Hf)].
    + destruct Hn as [->|Hn]; [left; eauto|]. destruct (is_list ty); [right|left]; eauto.
    + left. exists t. split; [done|]. right. rewrite Hl. eauto.
Qed.

Lemma check_elements_spec schema key e f t v :
  e !! fd_name f = Some v -> ~ derived f -> scalar_value_type schema (fd_field_type f) = Ok t ->
  match check_elements key f t v with
  | Ok _ => is_list (fd_field_type f) = true -> forall l, v = VList l -> Forall (scalar_is t) l
  | Err err => field_error schema key e f err /\ ~ stores schema (fd_field_type f) v
  | Panic => False
  end.
Proof.
  intros Ev Hd E. destruct v as [| | | |l| | |]; try (by intros _ ? [=]). cbn [check_elements].
  destruct (is_list (fd_field_type f)) eqn:El; [|done].
  pose proof (first_element_spec l t) as Hl. destruct (list_find _ l) as [[i x]|].
  - destruct Hl as (pre & post & -> & -> & Hpre & Hx). split; [by eapply error_element|].
    rewrite (stores_iff _ _ t), is_assignable_spec by done.
    intros [Hs|(l & [= <-] & _ & Hl)]; [by inversion Hs|]. apply Forall_app in Hl as [_ Hl].
    apply Forall_cons in Hl as [Hl _]. by apply Hx.
  - by intros _ l' [= <-].
Qed.

Lemma validate_field_spec schema key e f :
  match validate_field schema key e f with
  | Ok _ => field_ok schema e f
  | Err err => field_error schema key e f err /\ ~ field_ok schema e f
  | Panic => is_Some (e !! fd_name f) /\ scalar_value_type schema (fd_field_type f) = Panic
  end.
Proof.
  unfold validate_field, field_ok. fold (derived f).
  destruct (e !! fd_name f) as [v|] eqn:Ev; case_bool_decide as Hd; fold (derived f) in Hd.
  - split; [by econstructor|]. by intros [].
  - destruct (known_or_panic schema (fd_field_type f)) as [E|[t E]]; rewrite E; [done|].
    cbn [lift_panic res_bind].
    pose proof (check_elements_spec schema key e f t v Ev Hd E) as Hc.
    destruct (check_elements key f t v) as [u|err|]; cbn [res_bind]; [|naive_solver|done].
    destruct (is_assignable v t _) eqn:Ea; [split; [done|by apply (stores_iff _ _ t)]|].
    assert (Hn : ~ stores schema (fd_field_type f) v)
      by (rewrite (stores_iff _ _ t) by done; congruence).
    split; [|naive_solver]. apply error_type; try done. intros El.
    destruct v as [| | | |l| | |]; try done. exfalso. apply Hn. left. exists t. rewrite El. eauto 10.
  - by left.
  - destruct (is_non_null_type _) eqn:En; [|by right]. split; [by constructor|].
    intros [?|?]; congruence.
Qed.

(** C31: An entity passes validation exactly when its type is a known object
    type and every field of the type is fine: a derived field is not set; a set
    field holds a scalar of its base type or, for a list type, a list of such
    scalars, or null, whatever the type - or else a scalar for a list type, which
    a comment in the code wrongly says is refused; and a field that is not set is
    nullable.  Otherwise the error is that of the first field that is not fine,
    and says what is wrong with it; a list element that does not fit is named by
    its index. *)
Theorem validate_entity_spec schema key e :
  (forall t f, t ∈ get_object_type_definitions schema -> f ∈ ot_fields t ->
     scalar_value_type schema (fd_field_type f) <> Panic) ->
  match get_object_type_definition schema (entity_type key) with
  | None => validate_entity schema key e = Err (UnknownEntityType key)
  | Some t =>
      (validate_entity schema key e = Ok () <-> Forall (field_ok schema e) (ot_fields t))
      /\ (validate_entity schema key e = Ok ()
          \/ exists err pre f post, validate_entity schema key e = Err err
               /\ ot_fields t = pre ++ f :: post
               /\ Forall (field_ok schema e) pre /\ field_error schema key e f err)
  end.
Proof.
  intros Hk. unfold validate_entity.
  destruct (get_object_type_definition schema (entity_type key)) as [t|] eqn:Et; [|done].
  cbn [ok_or res_bind].
  assert (Hf : forall f, f ∈ ot_fields t -> scalar_value_type schema (fd_field_type f) <> Panic).
  { apply List.find_some in Et as [Ht _]. intros f. apply Hk, list_elem_of_In, Ht. }
  clear Et Hk. induction (ot_fields t) as [|f fs IH].
  { split; [split; [by constructor|done]|by left]. }
  rewrite fold_res_cons. pose proof (validate_field_spec schema key e f) as Hv.
  rewrite Forall_cons. destruct (validate_field schema key e f) as [[]|err|]; cbn [res_bind].
  - destruct IH as [IH1 IH2]; [intros; apply Hf; by right|]. split; [tauto|].
    destruct IH2 as [?|(err & pre & f' & post & ? & -> & ? & ?)]; [by left|right].
    exists err, (f :: pre), f', post. repeat split; eauto.
  - destruct Hv as [Hv Hn]. split; [naive_solver|right]. exists err, [], f, fs. eauto.
  - destruct Hv as [_ Hv]. by destruct (Hf f ltac:(left)).
Qed.

(** A scalar is accepted for a field of a list type. *)
Lemma scalar_fits_list schema ty t v :
  scalar_value_type schema ty = Ok t -> scalar_is t v ->
  is_assignable v t (is_list (ListType ty)) = true.
Proof. intros E Hv. apply is_assignable_spec. by left. Qed.

Module Witness.
Definition name_field : Field := mk_field "name" [] (NonNullType (NamedType "String")) [].
Definition tags_field : Field := mk_field "tags" [] (ListType (NamedType "Color")) [].
Definition toys_field : Field :=
    mk_field "toys" [] (ListType (NamedType "Toy"))
      [mk_directive "derivedFrom" [("field", QString "owner")]].
Definition Pet : ObjectType := mk_object_type "Pet" [] [] [name_field; tags_field; toys_field].
Definition schema : Document :=
    [OtherDef; TypeDef (TDInterface (mk_interface_type "Toy" [] [])); TypeDef (TDEnum (mk_enum_type "Color" [] ["red"; "blue"])); TypeDef (TDObject Pet)].
Definition cat : EntityKey := mk_key "sub" "Pet" "cat".

Lemma filter_name_roundtrip_witness :
    plain "owner" /\ parse_field_as_filter "owner_not_in" = ("owner", OpNotIn)
    /\ parse_field_as_filter "owner_in_in" = ("owner", OpIn).
Proof.
    assert (plain "owner") as Hp by (repeat constructor).
    split; [done|]. split.
    - apply (proj2 (filter_name_roundtrip "owner" "_not_in" OpNotIn 0 Hp)).
      unfold filter_suffixes. set_solver.
    - apply (proj2 (filter_name_roundtrip "owner" "_in" OpIn 1 Hp)).
      unfold filter_suffixes. set_solver.
Defined.

Lemma validate_entity_spec_witness :
    validate_entity schema cat {["name" := VString "Tom"; "tags" := VList [VString "red"]]} = Ok ()
    /\ ~ Forall (field_ok schema {["name" := VString "Tom"; "tags" := VList [VInt 3]]})
         (ot_fields Pet).
Proof.
    assert (Hk : forall t f, t ∈ get_object_type_definitions schema -> f ∈ ot_fields t ->
              scalar_value_type schema (fd_field_type f) <> Panic).
    { intros t f Ht Hf. apply list_elem_of_singleton in Ht as ->. cbn in Hf. set_unfold.
      by destruct Hf as [->|[->|[->|[]]]]. }
    split; [by vm_compute|].
    destruct (validate_entity_spec schema cat
                {["name" := VString "Tom"; "tags" := VList [VInt 3]]} Hk) as [H _].
    rewrite <- H. by vm_compute.
Defined.
End Witness.
