(* ===== verification/Coercion.v ===== *)
(** * Coercion of values

    Models [graphql/src/values/coercion.rs], [coerce_argument_values] of
    [graphql/src/execution/execution.rs] and [coerce_variables] of
    [graphql/src/execution/query.rs]: the values of arguments and variables are
    made to fit the types of the schema.

    The recursion is structural in the type and, through input objects, in
    fuel: one unit for every level of nested objects.  Nothing in this code
    panics, so [Panic] stands for a recursion that is not done when the fuel
    is (in Rust the stack overflows).  An object is a [BTreeMap]: its bindings
    are visited in key order and inserted in that order into the result, which
    is therefore a list in the same order. *)

From stdpp Require Import prelude list strings gmap pretty.
From Stdlib Require Import ZArith Lia Floats.SpecFloat.
From S2P Require Import Prelude.
From S2P Require Import GraphqlTypes.
From S2P Require Import StoreValue.
From S2P Require Import GraphqlSchema.

#[local] Open Scope string_scope.
#[local] Open Scope list_scope.

(** The values of the variables of a query. *)
Abbreviation Variables := (gmap string qvalue).

(** A variable definition of an operation. *)
Record VariableDefinition := mk_variable_definition {
  vd_position : Pos;
  vd_name : string;
  vd_var_type : GType;
  vd_default_value : option qvalue;
}.

Section coercion.
(** [Display for f64], of Rust's standard library, is left open. *)
Context (float_to_string : spec_float -> string).
Context (resolver : string -> option TypeDefinition).

(** ** Scalars and enums *)
Definition coerce_enum (t : EnumType) (v : qvalue) : res qvalue qvalue :=
  match v with
  | QNull => Ok QNull
  | QString name | QEnum name =>
      if existsb (fun value => String.eqb value name) (et_values t) then Ok (QEnum name) else Err v
  | _ => Err v
  end.

Definition coerce_scalar (t : ScalarType) (v : qvalue) : res qvalue qvalue :=
  let named := String.eqb (st_name t) in
  match v with
  | QNull => Ok QNull
  | QBoolean _ => if named "Boolean" then Ok v else Err v
  | QFloat f => if named "BigDecimal" then Ok (QString (float_to_string f)) else Err v
  | QInt i =>
      if named "BigDecimal" || named "ID" || named "BigInt" then Ok (QString (pretty i))
      else if named "Int" then if bool_decide (is_i32 i) then Ok (QInt (wrap_i 32 i)) else Err v
      else Err v
  | QString _ =>
      if named "BigDecimal" || named "String" || named "ID" || named "Bytes" || named "BigInt" then Ok v
      else Err v
  | _ => Err v
  end.

(** ** Values of a type, given the coercion to a named type *)
Section with_definition.
Context (to_definition : qvalue -> string -> res qvalue qvalue).

Fixpoint coerce_value_with (ty : GType) (value : qvalue) {struct ty} : res qvalue qvalue :=
  match ty with
  | NonNullType t => match value with QNull => Err QNull | _ => coerce_value_with t value end
  | NamedType name => match value with QNull => Ok QNull | _ => to_definition value name end
  | ListType t =>
      match value with
      | QNull => Ok QNull
      | QList values => res_map QList (map_res (coerce_value_with t) values)
      | _ => Err value
      end
  end.

Definition coerce_input_value_with (value : option qvalue) (def : InputValue)
    (variables : Variables) : res QueryExecutionError (option qvalue) :=
  let value := match value with Some (QVariable name) => variables !! name | _ => value end in
  match (match value with Some v => Some v | None => iv_default_value def end) with
  | None =>
      if is_non_null_type (iv_value_type def)
      then Err (MissingArgumentError (iv_position def) (iv_name def))
      else Ok None
  | Some value =>
      res_map Some
        (map_err (InvalidArgumentError (iv_position def) (iv_name def))
           (coerce_value_with (iv_value_type def) value))
  end.
End with_definition.

(** [t.fields.iter().find(..)] *)
Definition find_input_field (t : InputObjectType) (name : string) : option InputValue :=
  List.find (fun f => String.eqb (iv_name f) name) (iot_fields t).

Fixpoint coerce_to_definition (fuel : nat) (variables : Variables) (value : qvalue)
    (definition : string) : res qvalue qvalue :=
  match fuel with
  | O => Panic
  | S fuel =>
      match resolver definition with
      | None => Err value
      | Some (TDEnum t) => coerce_enum t value
      | Some (TDScalar t) => coerce_scalar t value
      | Some (TDInputObject t) =>
          match value with
          | QObject object =>
              let coerce_field '(name, v) :=
                let? def := ok_or (find_input_field t name) value in
                match coerce_input_value_with (coerce_to_definition fuel variables) (Some v)
                        def variables with
                | Ok (Some v) => Ok (name, v)
                | Ok None | Err _ => Err value
                | Panic => Panic
                end in
              res_map QObject (map_res coerce_field object)
          | _ => Err value
          end
      | Some _ => Err value
      end
  end.

Definition coerce_value (fuel : nat) (variables : Variables) (value : qvalue) (ty : GType)
  : res qvalue qvalue :=
  coerce_value_with (coerce_to_definition fuel variables) ty value.

Definition coerce_input_value (fuel : nat) (variables : Variables) (value : option qvalue)
    (def : InputValue) : res QueryExecutionError (option qvalue) :=
  coerce_input_value_with (coerce_to_definition fuel variables) value def variables.
End coercion.

(** ** Arguments and variables of a query *)
Section query.
Context (float_to_string : spec_float -> string).
Context (schema : Document).
Notation resolver := (get_named_type schema).

(** The state of the loop over the argument definitions: the coerced values
    and the errors. *)
Definition coerce_argument (fuel : nat) (variables : Variables) (field_name : string)
    (arguments : list (string * qvalue)) (s : Variables * list QueryExecutionError)
    (argument_def : InputValue) : res Empty_set (Variables * list QueryExecutionError) :=
  let '(coerced_values, errors) := s in
  let name := iv_name argument_def in
  match coerce_input_value float_to_string resolver fuel variables
          (get_argument_value arguments name) argument_def with
  | Ok (Some value) =>
      let value := if String.eqb name "text" then QObject [(field_name, value)] else value in
      Ok (<[name := value]> coerced_values, errors)
  | Ok None => Ok (coerced_values, errors)
  | Err e => Ok (coerced_values, errors ++ [e])
  | Panic => Panic
  end.

Definition coerce_argument_values (fuel : nat) (variables : Variables) (object_type : ObjectType)
    (field_name : string) (arguments : list (string * qvalue))
  : res (list QueryExecutionError) Variables :=
  let defs := default [] (get_argument_definitions object_type field_name) in
  let? s := lift_panic (fold_res (coerce_argument fuel variables field_name arguments) (∅, []) defs) in
  let '(coerced_values, errors) := s in
  match errors with [] => Ok coerced_values | _ => Err errors end.

Definition coerce_variable (fuel : nat) (variable_def : VariableDefinition) (value : qvalue)
  : res (list QueryExecutionError) qvalue :=
  map_err (fun v => [InvalidArgumentError (vd_position variable_def) (vd_name variable_def) v])
    (coerce_value float_to_string resolver fuel ∅ value (vd_var_type variable_def)).

(** The state of the loop over the variable definitions: the coerced values,
    the errors and the variables that are left. *)
Definition coerce_variables_step (fuel : nat)
    (s : Variables * list QueryExecutionError * Variables) (variable_def : VariableDefinition)
  : res (list QueryExecutionError) (Variables * list QueryExecutionError * Variables) :=
  let '(coerced_values, errors, variables) := s in
  let name := vd_name variable_def in
  if negb (is_input_type schema (vd_var_type variable_def)) then
    Ok (coerced_values,
        errors ++ [InvalidVariableTypeError (vd_position variable_def) name], variables)
  else
    let value := match variables !! name with
                 | Some v => Some v
                 | None => vd_default_value variable_def
                 end in
    let variables := delete name variables in
    match value with
    | None =>
        Ok (coerced_values,
            if is_non_null_type (vd_var_type variable_def)
            then errors ++ [MissingVariableError (vd_position variable_def) name] else errors,
            variables)
    | Some value =>
        let? value := coerce_variable fuel variable_def value in
        Ok (<[name := value]> coerced_values, errors, variables)
    end.

Definition coerce_variables (fuel : nat) (variable_definitions : list VariableDefinition)
    (variables : option Variables) : res (list QueryExecutionError) Variables :=
  let? s := fold_res (coerce_variables_step fuel) (∅, [], default ∅ variables)
              variable_definitions in
  let '(coerced_values, errors, _) := s in
  match errors with [] => Ok coerced_values | _ => Err errors end.
End query.

(** ** What is proved: conforming values *)

(** The values a scalar type allows, in the form the coercion gives them. *)
Inductive scalar_conforms : string -> qvalue -> Prop :=
| sc_boolean b : scalar_conforms "Boolean" (QBoolean b)
| sc_decimal s : scalar_conforms "BigDecimal" (QString s)
| sc_int i : is_i32 i -> scalar_conforms "Int" (QInt i)
| sc_string s : scalar_conforms "String" (QString s)
| sc_id s : scalar_conforms "ID" (QString s)
| sc_bytes s : scalar_conforms "Bytes" (QString s)
| sc_bigint s : scalar_conforms "BigInt" (QString s).
#[export] Hint Constructors scalar_conforms : gn.

Inductive conforms (resolver : string -> option TypeDefinition) : GType -> qvalue -> Prop :=
| conforms_null ty : is_non_null_type ty = false -> conforms resolver ty QNull
| conforms_non_null ty v : v <> QNull -> conforms resolver ty v -> conforms resolver (NonNullType ty) v
| conforms_list ty l :
    Forall (conforms resolver ty) l -> conforms resolver (ListType ty) (QList l)
| conforms_enum name t e :
    resolver name = Some (TDEnum t) -> e ∈ et_values t ->
    conforms resolver (NamedType name) (QEnum e)
| conforms_scalar name t v :
    resolver name = Some (TDScalar t) -> scalar_conforms (st_name t) v ->
    conforms resolver (NamedType name) v
| conforms_object name t fields :
    resolver name = Some (TDInputObject t) ->
    Forall (fun kv => exists def, find_input_field t kv.1 = Some def
              /\ conforms resolver (iv_value_type def) kv.2) fields ->
    conforms resolver (NamedType name) (QObject fields).
#[export] Hint Constructors conforms : gn.

Section conforming.
Context (float_to_string : spec_float -> string).
Context (resolver : string -> option TypeDefinition).
Notation coerce_to_definition := (coerce_to_definition float_to_string resolver).
Notation coerce_value := (coerce_value float_to_string resolver).
Notation coerce_input_value := (coerce_input_value float_to_string resolver).
Notation conforms := (conforms resolver).

Lemma coerce_enum_sound name t v r :
  resolver name = Some (TDEnum t) -> coerce_enum t v = Ok r -> v <> QNull ->
  r <> QNull /\ conforms (NamedType name) r.
Proof.
  intros Hr H Hv. destruct v; simpl in H; try done; case_bools; simplify_eq; split; try done;
    apply existsb_true_iff in Heqb as (e & He & ->%String.eqb_eq); eauto with gn.
Qed.

Lemma coerce_scalar_sound name t v r :
  resolver name = Some (TDScalar t) -> coerce_scalar float_to_string t v = Ok r -> v <> QNull ->
  r <> QNull /\ conforms (NamedType name) r.
Proof.
  intros Hr H Hv.
  assert (r <> QNull /\ scalar_conforms (st_name t) r) as [? ?]; [|eauto with gn].
  destruct v as [|i| | | | | | |]; simpl in H; try done; case_bools; simplify_eq; split; try done;
    rewrite ?orb_true_iff, ?String.eqb_eq in *;
    repeat match goal with H : _ \/ _ |- _ => destruct H end;
    repeat match goal with H : st_name t = _ |- _ => rewrite H in * end; auto with gn.
Qed.

Lemma coerce_value_with_sound to_definition :
  (forall v name r, v <> QNull -> to_definition v name = Ok r ->
     r <> QNull /\ conforms (NamedType name) r) ->
  forall ty v r, coerce_value_with to_definition ty v = Ok r ->
    conforms ty r /\ (v <> QNull -> r <> QNull).
Proof.
  intros Hd. induction ty as [name|ty IH|ty IH]; intros v r H; simpl in H.
  - assert (v = QNull \/ v <> QNull /\ to_definition v name = Ok r) as [->|[Hv Hr]]
      by (destruct v; eauto).
    { simplify_eq. split; [by constructor|done]. }
    split; [|intros _]; by apply (Hd v name r).
  - destruct v; try done; [simplify_eq; split; [by constructor|done]|].
    unfold res_map in H. res_inv. split; [|done]. constructor.
    apply map_res_Forall2 in E. eapply Forall2_Forall_r; [exact E|].
    apply Forall_forall. intros x _ y Hy. by apply (IH x y).
  - assert (v <> QNull) by (by intros ->).
    assert (coerce_value_with to_definition ty v = Ok r) as Hr by (by destruct v).
    destruct (IH v r Hr) as [Hc Hn]. split; [|done]. constructor; auto.
Qed.

Lemma coerce_input_value_with_sound to_definition value def variables r :
  (forall v name r, v <> QNull -> to_definition v name = Ok r ->
     r <> QNull /\ conforms (NamedType name) r) ->
  coerce_input_value_with to_definition value def variables = Ok r ->
  match r with
  | Some v => conforms (iv_value_type def) v
  | None => is_non_null_type (iv_value_type def) = false
  end.
Proof.
  intros Hd. unfold coerce_input_value_with.
  destruct (match _ with Some v => Some v | None => iv_default_value def end) as [v|].
  - intros H. unfold res_map in H. destruct (coerce_value_with _ _ v) as [w|w|] eqn:E; try done.
    simplify_eq/=. by apply (coerce_value_with_sound to_definition Hd) in E as [? _].
  - intros H. case_bools; by simplify_eq.
Qed.

Lemma coerce_to_definition_sound fuel variables v name r :
  v <> QNull -> coerce_to_definition fuel variables v name = Ok r ->
  r <> QNull /\ conforms (NamedType name) r.
Proof.
  revert v name r. induction fuel as [|fuel IH]; intros v name r Hv H; [done|]. simpl in H.
  destruct (resolver name) as [d|] eqn:Er; [|done].
  destruct d as [t|t|t|t|t|t]; try done.
  - by apply (coerce_scalar_sound name t v).
  - by apply (coerce_enum_sound name t v).
  - destruct v as [| | | | | | | |object]; try done. unfold res_map in H. res_inv.
    split; [done|]. eapply conforms_object; [done|].
    apply map_res_Forall2 in E. eapply Forall2_Forall_r; [exact E|].
    apply Forall_forall. intros [n x] _ [n' y] Hy.
    destruct (find_input_field t n) as [def|] eqn:Ef; cbn [ok_or res_bind] in Hy; [|done].
    destruct (coerce_input_value_with _ _ _ _) as [[w|]| |] eqn:Ec; try done.
    injection Hy as <- <-. exists def. split; [done|].
    by apply (coerce_input_value_with_sound _ _ _ _ _ IH) in Ec.
Qed.

Lemma coerce_value_sound fuel variables v ty r :
  coerce_value fuel variables v ty = Ok r -> conforms ty r.
Proof. intros H. by apply (coerce_value_with_sound _ (coerce_to_definition_sound fuel variables)) in H as [? _]. Qed.

Lemma coerce_input_value_sound fuel variables value def r :
  coerce_input_value fuel variables value def = Ok r ->
  match r with
  | Some v => conforms (iv_value_type def) v
  | None => is_non_null_type (iv_value_type def) = false
  end.
Proof. apply coerce_input_value_with_sound, coerce_to_definition_sound. Qed.
End conforming.

(** ** What is proved: the coercion ends *)
Fixpoint no_variables (v : qvalue) : bool :=
  match v with
  | QVariable _ => false
  | QList l => forallb no_variables l
  | QObject fields => forallb (fun kv => no_variables kv.2) fields
  | _ => true
  end.

(** How deep objects are nested. *)
Fixpoint object_depth (v : qvalue) : nat :=
  match v with
  | QList l => max_list (object_depth <$> l)
  | QObject fields => S (max_list ((fun kv => object_depth kv.2) <$> fields))
  | _ => 0
  end.

Lemma max_list_fmap_le {A} (f : A -> nat) l x : x ∈ l -> f x <= max_list (f <$> l).
Proof. intros H. apply max_list_elem_of_le, list_elem_of_fmap_2, H. Qed.

Lemma list_object_depth_le l x : x ∈ l -> object_depth x <= object_depth (QList l).
Proof. apply max_list_fmap_le. Qed.

Lemma field_object_depth_lt fields n x :
  (n, x) ∈ fields -> object_depth x < object_depth (QObject fields).
Proof.
  intros H. cbn [object_depth].
  pose proof (max_list_fmap_le (fun kv : string * qvalue => object_depth kv.2) fields (n, x) H).
  simpl in *. lia.
Qed.

Lemma conforms_no_variables resolver ty v : conforms resolver ty v -> no_variables v = true.
Proof.
  revert ty. induction v as [| | | | | | |l IH|fields IH] using qvalue_nested_ind; intros ty H;
    try done.
  - remember (QVariable s) as v. induction H; simplify_eq; auto.
    by match goal with H : scalar_conforms _ _ |- _ => inversion H end.
  - remember (QList l) as v. induction H as [| |ty l' H| |? ? ? ? Hs|]; simplify_eq; auto.
    + apply forallb_forall. intros x Hx%list_elem_of_In. rewrite Forall_forall in IH, H. eauto.
    + by inversion Hs.
  - remember (QObject fields) as v. induction H as [| | | |? ? ? ? Hs|name t f' Hr H]; simplify_eq; auto.
    + by inversion Hs.
    + apply forallb_forall. intros x Hx%list_elem_of_In. rewrite Forall_forall in IH, H.
      destruct (H x Hx) as (def & _ & Hc). eauto.
Qed.

(** The fuel a value needs: its depth and, while it may refer to variables,
    that of the values of variables and of defaults. *)
Definition need (D : nat) (v : qvalue) : nat :=
  if no_variables v then object_depth v else object_depth v + D.

Definition shallow (D : nat) (v : qvalue) : Prop := no_variables v = true /\ object_depth v <= D.

Lemma need_shallow D v : shallow D v -> need D v <= D.
Proof. intros [H1 H2]. unfold need. by rewrite H1. Qed.

Lemma need_le D v : need D v <= object_depth v + D.
Proof. unfold need. case_match; lia. Qed.

Lemma need_list D l x : x ∈ l -> need D x <= need D (QList l).
Proof.
  intros Hx. pose proof (list_object_depth_le l x Hx). unfold need.
  destruct (no_variables (QList l)) eqn:E; [|pose proof (need_le D x); unfold need in *; lia].
  cbn [no_variables] in E. rewrite forallb_forall in E.
  rewrite (E x) by (by apply list_elem_of_In). lia.
Qed.

Lemma need_field D fields n x : (n, x) ∈ fields -> need D x < need D (QObject fields).
Proof.
  intros Hx. pose proof (field_object_depth_lt fields n x Hx). unfold need.
  destruct (no_variables (QObject fields)) eqn:E; [|pose proof (need_le D x); unfold need in *; lia].
  cbn [no_variables] in E. rewrite forallb_forall in E.
  specialize (E (n, x) (proj1 (list_elem_of_In _ _) Hx)). cbn in E. rewrite E. lia.
Qed.

Lemma need_variable D fields n y :
  (n, QVariable y) ∈ fields -> D < need D (QObject fields).
Proof.
  intros Hx. unfold need. destruct (no_variables (QObject fields)) eqn:E.
  - cbn [no_variables] in E. rewrite forallb_forall in E.
    by specialize (E (n, QVariable y) (proj1 (list_elem_of_In _ _) Hx)).
  - cbn [object_depth]. lia.
Qed.

Section termination.
Context (float_to_string : spec_float -> string).
Context (resolver : string -> option TypeDefinition).
Context (D : nat) (variables : Variables).
Context (Hvars : map_Forall (fun _ => shallow D) variables).
Context (Hdefaults : forall name t def d, resolver name = Some (TDInputObject t) ->
           def ∈ iot_fields t -> iv_default_value def = Some d -> shallow D d).
Notation coerce_to_definition := (coerce_to_definition float_to_string resolver).

Lemma coerce_value_with_no_panic to_definition fuel ty v :
  (forall v name, need D v < fuel -> to_definition v name <> Panic) ->
  need D v < fuel -> coerce_value_with to_definition ty v <> Panic.
Proof.
  intros Hd. revert v. induction ty as [name|ty IH|ty IH]; intros v Hv; simpl.
  - destruct v; try done; by apply Hd.
  - destruct v as [| | | | | | |l|]; try done. unfold res_map.
    assert (map_res (coerce_value_with to_definition ty) l <> Panic) as Hl;
      [|by destruct (map_res _ l)].
    apply map_res_no_panic. intros x Hx. apply IH. pose proof (need_list D l x Hx). lia.
  - destruct v; try done; by apply IH.
Qed.

Lemma coerce_input_value_with_no_panic to_definition fuel value def :
  (forall v name, need D v < fuel -> to_definition v name <> Panic) ->
  match value with
  | Some (QVariable _) | None => D < fuel
  | Some v => need D v < fuel
  end ->
  (forall d, iv_default_value def = Some d -> shallow D d) ->
  coerce_input_value_with to_definition value def variables <> Panic.
Proof.
  intros Hd Hv Hdef. unfold coerce_input_value_with. cbv zeta.
  set (value' := match value with Some (QVariable name) => variables !! name | _ => value end).
  destruct (match value' with Some v => Some v | None => iv_default_value def end) as [v|] eqn:E;
    [|by destruct (is_non_null_type _)].
  assert (need D v < fuel) as Hn.
  { destruct (Nat.lt_ge_cases (need D v) fuel) as [|Hge]; [done|exfalso].
    assert (shallow D v -> D < fuel -> False) as Hs.
    { intros Hs HD. pose proof (need_shallow D v Hs). lia. }
    destruct value as [w|]; [|by eauto].
    destruct w as [y| | | | | | | |]; subst value'; cbn in E; try (simplify_eq; lia).
    destruct (variables !! y) as [w|] eqn:Ew; [|by eauto].
    simplify_eq. apply Hs; [by apply (Hvars y)|done]. }
  pose proof (coerce_value_with_no_panic to_definition fuel (iv_value_type def) v Hd Hn) as H.
  unfold res_map. by destruct (coerce_value_with to_definition (iv_value_type def) v).
Qed.

Lemma find_input_field_elem t n def : find_input_field t n = Some def -> def ∈ iot_fields t.
Proof. intros [H _]%List.find_some. by apply list_elem_of_In. Qed.

Lemma coerce_to_definition_no_panic fuel v name :
  need D v < fuel -> coerce_to_definition fuel variables v name <> Panic.
Proof.
  revert v name. induction fuel as [|fuel IH]; intros v name Hv; [lia|]. simpl.
  destruct (resolver name) as [[t|t|t|t|t|t]|] eqn:Er; try done.
  - destruct v; simpl; try done; by case_bools.
  - destruct v; simpl; try done; by case_bools.
  - destruct v as [| | | | | | | |fields]; try done. unfold res_map.
    match goal with |- context [map_res ?f fields] => set (g := f) end.
    assert (map_res g fields <> Panic) as H; [|by destruct (map_res g fields)].
    apply map_res_no_panic. intros [n x] Hx. unfold g.
    destruct (find_input_field t n) as [def|] eqn:Ef; [|done]. cbn [ok_or res_bind].
    assert (coerce_input_value_with (coerce_to_definition fuel variables) (Some x) def variables
            <> Panic) as H; [|by destruct (coerce_input_value_with _ _ _ _) as [[]| |]].
    apply (coerce_input_value_with_no_panic _ fuel); [exact IH| |].
    + pose proof (need_field D fields n x Hx).
      destruct x as [y| | | | | | | |]; try lia. pose proof (need_variable D fields n y Hx). lia.
    + intros d Hd. by apply (Hdefaults name t def d Er (find_input_field_elem t n def Ef)).
Qed.
End termination.

(** ** What is proved: conforming values stay as they are *)
Section conforming_values.
Context (float_to_string : spec_float -> string).
Context (resolver : string -> option TypeDefinition).
Notation coerce_to_definition := (coerce_to_definition float_to_string resolver).
Notation conforms := (conforms resolver).

Lemma map_res_id {E A} (f : A -> res E A) l :
  (forall x, x ∈ l -> f x = Ok x) -> map_res f l = Ok l.
Proof. intros H. rewrite (map_res_all_ok f id l H). by rewrite list_fmap_id. Qed.

Lemma coerce_value_with_conforming to_definition fuel ty v :
  (forall v name, v <> QNull -> conforms (NamedType name) v -> object_depth v < fuel ->
     to_definition v name = Ok v) ->
  conforms ty v -> object_depth v < fuel -> coerce_value_with to_definition ty v = Ok v.
Proof.
  intros Hd. revert v. induction ty as [name|ty IH|ty IH]; intros v Hc Hv.
  - assert (v = QNull \/ v <> QNull) as [->|Hn] by (destruct v; auto; by right); [done|].
    transitivity (to_definition v name); [by destruct v|by apply Hd].
  - inversion Hc as [| |? l Hl| | |]; subst; simpl; [done|]. unfold res_map.
    rewrite map_res_id; [done|]. intros x Hx. rewrite Forall_forall in Hl.
    apply IH; [by apply Hl|]. pose proof (list_object_depth_le l x Hx). lia.
  - inversion Hc as [? Hty|? ? Hn Hi| | | |]; subst; [done|].
    simpl. rewrite IH by done. by destruct v.
Qed.

Lemma coerce_scalar_conforming t v :
  scalar_conforms (st_name t) v -> coerce_scalar float_to_string t v = Ok v.
Proof.
  intros H. inversion H as [| |i Hi| | | |]; subst; unfold coerce_scalar;
    match goal with E : _ = st_name t |- _ => rewrite <- E end; try done.
  simpl. by rewrite bool_decide_true, wrap_i32_small.
Qed.

Lemma coerce_to_definition_conforming fuel variables v name :
  v <> QNull -> conforms (NamedType name) v -> object_depth v < fuel ->
  coerce_to_definition fuel variables v name = Ok v.
Proof.
  revert v name. induction fuel as [|fuel IH]; intros v name Hn Hc Hv; [lia|]. simpl.
  inversion Hc as [| | |? t e Hr He|? t ? Hr Hs|? t fields Hr Hf]; subst; [done| | |]; rewrite Hr.
  - simpl. assert (existsb (fun value => String.eqb value e) (et_values t) = true) as ->; [|done].
    apply existsb_true_iff. exists e. by rewrite String.eqb_refl.
  - by apply coerce_scalar_conforming.
  - unfold res_map. rewrite map_res_id; [done|]. intros [n x] Hx. rewrite Forall_forall in Hf.
    destruct (Hf (n, x) Hx) as (def & Hfind & Hcx). cbn in Hfind, Hcx.
    rewrite Hfind. cbn [ok_or res_bind].
    pose proof (field_object_depth_lt fields n x Hx). unfold coerce_input_value_with.
    assert (match x with QVariable name => variables !! name | _ => Some x end = Some x) as ->.
    { pose proof (conforms_no_variables _ _ _ Hcx). by destruct x. }
    rewrite (coerce_value_with_conforming _ fuel); [done|auto|done|lia].
Qed.
End conforming_values.

(** ** What is proved: arguments and variables *)

(** No default value of the input types refers to a variable, as the grammar
    of schemas demands. *)
Definition constant_defaults (schema : Document) : Prop :=
  forall t def d, t ∈ get_input_object_definitions schema -> def ∈ iot_fields t ->
    iv_default_value def = Some d -> no_variables d = true.

Definition constant_default (def : InputValue) : Prop :=
  forall d, iv_default_value def = Some d -> no_variables d = true.

Lemma get_named_type_elem schema name t :
  get_named_type schema name = Some t -> t ∈ get_type_definitions schema.
Proof. intros [H _]%List.find_some. by apply list_elem_of_In. Qed.

Lemma depth_bound (l : list qvalue) : exists D, forall v, v ∈ l -> object_depth v <= D.
Proof. exists (max_list (object_depth <$> l)). intros v. apply max_list_fmap_le. Qed.

Lemma defaults_bound schema :
  constant_defaults schema ->
  exists D, forall name t def d, get_named_type schema name = Some (TDInputObject t) ->
    def ∈ iot_fields t -> iv_default_value def = Some d -> shallow D d.
Proof.
  intros Hc.
  destruct (depth_bound (mjoin ((fun t => omap iv_default_value (iot_fields t))
              <$> get_input_object_definitions schema))) as [D HD].
  exists D. intros name t def d Hn%get_named_type_elem Hdef Hd.
  assert (Ht : t ∈ get_input_object_definitions schema).
  { apply list_elem_of_omap. by exists (TDInputObject t). }
  split; [by eapply Hc|]. apply HD, list_elem_of_join.
  exists (omap iv_default_value (iot_fields t)). split.
  - apply list_elem_of_omap. by exists def.
  - apply list_elem_of_fmap. by exists t.
Qed.

Lemma shallow_mono D D' v : D <= D' -> shallow D v -> shallow D' v.
Proof. intros H [? ?]. split; [done|lia]. Qed.

Section query_lemmas.
Context (float_to_string : spec_float -> string).
Context (schema : Document).
Notation resolver := (get_named_type schema).
Notation coerce_input_value := (coerce_input_value float_to_string resolver).
Notation coerce_argument_values := (coerce_argument_values float_to_string schema).
Notation coerce_variables := (coerce_variables float_to_string schema).
Notation coerce_value := (coerce_value float_to_string resolver).

(** *** Variables *)
Definition given (provided : Variables) (d : VariableDefinition) : option qvalue :=
  match provided !! vd_name d with Some v => Some v | None => vd_default_value d end.

(** What a variable is after coercion. *)
Definition variable_ok (fuel : nat) (provided : Variables) (d : VariableDefinition)
    (w : option qvalue) : Prop :=
  is_input_type schema (vd_var_type d) = true /\
  match w with
  | Some w => exists v, given provided d = Some v /\ coerce_value fuel ∅ v (vd_var_type d) = Ok w
              /\ conforms resolver (vd_var_type d) w
  | None => given provided d = None /\ is_non_null_type (vd_var_type d) = false
  end.

Lemma coerce_variables_step_spec fuel d m errs vars m1 errs1 vars1 :
  m !! vd_name d = None ->
  coerce_variables_step float_to_string schema fuel (m, errs, vars) d = Ok (m1, errs1, vars1) ->
  errs `prefix_of` errs1
  /\ (forall n, n <> vd_name d -> m1 !! n = m !! n /\ vars1 !! n = vars !! n)
  /\ (errs1 = errs -> variable_ok fuel vars d (m1 !! vd_name d)).
Proof.
  intros Hm H. unfold coerce_variables_step in H. cbv zeta in H.
  assert (Hx : forall e : QueryExecutionError, errs ++ [e] = errs -> False).
  { intros e He. apply (f_equal length) in He. rewrite length_app in He. simpl in He. lia. }
  destruct (is_input_type schema (vd_var_type d)) eqn:Ei; simpl in H.
  - unfold variable_ok, given.
    destruct (match vars !! vd_name d with Some v => Some v | None => vd_default_value d end)
      as [v|] eqn:Ev.
    + unfold coerce_variable in H.
      destruct (coerce_value fuel ∅ v (vd_var_type d)) as [w|w|] eqn:Ec; simpl in H; try done.
      simplify_eq. split; [done|]. split.
      { intros n Hn. by rewrite lookup_insert_ne, lookup_delete_ne. }
      intros _. rewrite lookup_insert_eq. split; [done|]. exists v. repeat split; try done.
      by eapply coerce_value_sound.
    + injection H as <- <- <-. split; [destruct (is_non_null_type _); [by apply prefix_app_r|done]|]. split.
      { intros n Hn. by rewrite lookup_delete_ne. }
      intros He. rewrite Hm. split; [done|]. split; [done|].
      destruct (is_non_null_type _); [|done]. by destruct (Hx _ He).
  - simplify_eq. split; [by apply prefix_app_r|]. split; [done|]. intros He. by destruct (Hx _ He).
Qed.

Lemma variable_ok_ext fuel vars vars' d w :
  vars !! vd_name d = vars' !! vd_name d -> variable_ok fuel vars d w -> variable_ok fuel vars' d w.
Proof. unfold variable_ok, given. by intros ->. Qed.

Lemma coerce_variables_fold fuel defs m errs vars m' errs' vars' :
  NoDup (vd_name <$> defs) -> (forall d, d ∈ defs -> m !! vd_name d = None) ->
  fold_res (coerce_variables_step float_to_string schema fuel) (m, errs, vars) defs
  = Ok (m', errs', vars') ->
  errs `prefix_of` errs' /\
  (errs' = errs ->
   (forall d, d ∈ defs -> variable_ok fuel vars d (m' !! vd_name d))
   /\ forall name, name ∉ (vd_name <$> defs) -> m' !! name = m !! name).
Proof.
  revert m errs vars. induction defs as [|d defs IH]; intros m errs vars Hnd Hm H.
  { simpl in H. simplify_eq. split; [done|]. intros _. split; [|done]. by intros d ?%elem_of_nil. }
  rewrite fold_res_cons in H. rewrite fmap_cons in Hnd. apply NoDup_cons in Hnd as [Hd Hnd].
  destruct (coerce_variables_step _ _ _ _ d) as [[[m1 errs1] vars1]| |] eqn:E; cbn [res_bind] in H;
    [|done|done].
  apply coerce_variables_step_spec in E as (Hp1 & Hother & Hok); [|apply Hm; left].
  assert (Hne : forall d', d' ∈ defs -> vd_name d' <> vd_name d).
  { intros d' Hd' Heq. apply Hd. rewrite <- Heq. by apply list_elem_of_fmap_2. }
  destruct (IH m1 errs1 vars1 Hnd) as [Hp2 Hrest]; [|done|].
  { intros d' Hd'. rewrite (proj1 (Hother _ (Hne d' Hd'))). apply Hm. by right. }
  split; [by etrans|]. intros ->.
  assert (errs1 = errs) as -> by (apply (anti_symm prefix); done).
  destruct (Hrest eq_refl) as [Hall Hkeep]. split.
  - intros d' [->|Hd']%elem_of_cons.
    + rewrite Hkeep by done. by apply Hok.
    + eapply variable_ok_ext; [|by apply Hall]. by apply Hother, Hne.
  - intros name Hn. rewrite fmap_cons, not_elem_of_cons in Hn. destruct Hn as [Hn1 Hn2].
    rewrite Hkeep by done. by apply Hother.
Qed.

Lemma coerce_variables_ok fuel defs provided m :
  NoDup (vd_name <$> defs) -> coerce_variables fuel defs provided = Ok m ->
  (forall d, d ∈ defs -> variable_ok fuel (default ∅ provided) d (m !! vd_name d))
  /\ forall name, name ∉ (vd_name <$> defs) -> m !! name = None.
Proof.
  intros Hnd. unfold coerce_variables.
  destruct (fold_res _ _ _) as [[[m' errs'] vars']| |] eqn:E; cbn [res_bind]; try done.
  intros H. apply coerce_variables_fold in E as [_ Hall]; [|done|by intros; rewrite lookup_empty].
  destruct errs'; [|done]. simplify_eq. destruct (Hall eq_refl) as [H1 H2]. split; [done|].
  intros name Hn. rewrite H2 by done. apply lookup_empty.
Qed.

(** Only what conforms to a type gets into the values of variables. *)
Lemma coerce_variables_no_variables fuel defs provided m :
  NoDup (vd_name <$> defs) -> coerce_variables fuel defs provided = Ok m ->
  map_Forall (fun _ v => no_variables v = true) m.
Proof.
  intros Hnd H name v Hv. destruct (coerce_variables_ok _ _ _ _ Hnd H) as [Hok Hno].
  destruct (decide (name ∈ (vd_name <$> defs))) as [Hin|Hin]; [|by rewrite Hno in Hv].
  apply list_elem_of_fmap in Hin as (d & -> & Hd). specialize (Hok d Hd). rewrite Hv in Hok.
  destruct Hok as (_ & w & _ & _ & Hc). by apply conforms_no_variables in Hc.
Qed.

Lemma coerce_variables_ends defs provided :
  constant_defaults schema ->
  exists n, forall fuel, n <= fuel -> coerce_variables fuel defs provided <> Panic.
Proof.
  intros Hc. destruct (defaults_bound schema Hc) as [D HD].
  set (vars := default ∅ provided).
  destruct (depth_bound (omap vd_default_value defs ++ (map_to_list vars).*2)) as [B HB].
  exists (S (B + D)). intros fuel Hf. unfold coerce_variables. fold vars.
  assert (fold_res (coerce_variables_step float_to_string schema fuel) (∅, [], vars) defs <> Panic)
    as Hp; [|by destruct (fold_res _ _ _) as [[[? [|]] ?]| |]].
  apply (fold_res_no_panic (fun s => s.2 ⊆ vars)); [done|].
  intros [[m errs] vs] d Hd Hvs. cbn [snd] in Hvs. unfold coerce_variables_step. cbv zeta.
  assert (Hdel : delete (vd_name d) vs ⊆ vars) by (etrans; [apply delete_subseteq|done]).
  destruct (negb _); [by split; [|intros ? [= <-]]|].
  destruct (match vs !! vd_name d with Some v => Some v | None => vd_default_value d end)
    as [v|] eqn:Ev; [|by split; [|intros ? [= <-]]].
  assert (object_depth v <= B) as Hv.
  { apply HB, elem_of_app. destruct (vs !! vd_name d) as [w|] eqn:Ew; simplify_eq.
    - right. apply list_elem_of_fmap. exists (vd_name d, v). split; [done|].
      apply elem_of_map_to_list. by apply (lookup_weaken _ _ _ _ Ew).
    - left. apply list_elem_of_omap. by exists d. }
  assert (coerce_value fuel ∅ v (vd_var_type d) <> Panic) as Hcv.
  { pose proof (need_le D v).
    apply (coerce_value_with_no_panic D) with (fuel := fuel); [|lia].
    intros v' name Hv'. by apply (coerce_to_definition_no_panic _ _ D). }
  unfold coerce_variable. destruct (coerce_value fuel ∅ v (vd_var_type d)); cbn [map_err res_bind];
    [|done|done]. by split; [|intros ? [= <-]].
Qed.

(** *** Arguments *)
Section arguments.
Context (variables : Variables) (field_name : string) (arguments : list (string * qvalue)).

(** The outcome for one argument. *)
Definition outcome (fuel : nat) (d : InputValue) : res QueryExecutionError (option qvalue) :=
  coerce_input_value fuel variables (get_argument_value arguments (iv_name d)) d.

Definition failure (fuel : nat) (d : InputValue) : option QueryExecutionError :=
  match outcome fuel d with Err e => Some e | _ => None end.

(** The search text of a fulltext query is filed under the field's name. *)
Definition filed (d : InputValue) (v : qvalue) : qvalue :=
  if String.eqb (iv_name d) "text" then QObject [(field_name, v)] else v.

Definition argument_ok (fuel : nat) (d : InputValue) (w : option qvalue) : Prop :=
  match w with
  | Some w => exists v, outcome fuel d = Ok (Some v) /\ w = filed d v
              /\ conforms resolver (iv_value_type d) v
  | None => outcome fuel d = Ok None /\ is_non_null_type (iv_value_type d) = false
  end.

Lemma coerce_argument_fold fuel defs m errs :
  NoDup (iv_name <$> defs) -> (forall d, d ∈ defs -> m !! iv_name d = None) ->
  (forall d, d ∈ defs -> outcome fuel d <> Panic) ->
  exists m',
    fold_res (coerce_argument float_to_string schema fuel variables field_name arguments)
      (m, errs) defs = Ok (m', errs ++ omap (failure fuel) defs)
    /\ (omap (failure fuel) defs = [] -> forall d, d ∈ defs -> argument_ok fuel d (m' !! iv_name d))
    /\ forall name, name ∉ (iv_name <$> defs) -> m' !! name = m !! name.
Proof.
  revert m errs. induction defs as [|d defs IH]; intros m errs Hnd Hm Hout.
  { exists m. simpl. rewrite app_nil_r. split; [done|]. split; [by intros _ d ?%elem_of_nil|done]. }
  rewrite fmap_cons in Hnd. apply NoDup_cons in Hnd as [Hd Hnd].
  assert (Hne : forall d', d' ∈ defs -> iv_name d <> iv_name d').
  { intros d' Hd' Heq. apply Hd. rewrite Heq. by apply list_elem_of_fmap_2. }
  pose proof (Hout d ltac:(left)) as Hp. rewrite fold_res_cons. unfold coerce_argument at 1.
  fold (outcome fuel d). fold (outcome fuel d) in Hp.
  assert (Hf : forall o, outcome fuel d = o ->
            failure fuel d = match o with Err e => Some e | _ => None end)
    by (by intros o <-).
  rewrite omap_cons_eq.
  destruct (outcome fuel d) as [o|e|] eqn:E; [| |done]; rewrite (Hf _ eq_refl).
  - set (m1 := match o with Some v => <[iv_name d := filed d v]> m | None => m end).
    assert (Hm1 : forall n, iv_name d <> n -> m1 !! n = m !! n).
    { intros n Hn. unfold m1. destruct o; [by rewrite lookup_insert_ne|done]. }
    destruct (IH m1 errs Hnd) as (m' & H1 & H2 & H3).
    { intros d' Hd'. rewrite Hm1 by auto. apply Hm. by right. }
    { intros d' Hd'. apply Hout. by right. }
    exists m'. split; [rewrite <- H1; by destruct o|]. split.
    + intros Hnil d' [->|Hd']%elem_of_cons; [|by apply H2].
      rewrite H3 by done. pose proof E as Es. apply coerce_input_value_sound in Es.
      unfold m1, argument_ok. destruct o as [v|].
      * rewrite lookup_insert_eq. eauto.
      * rewrite Hm by left. done.
    + intros name Hn. rewrite fmap_cons, not_elem_of_cons in Hn.
      rewrite H3 by tauto. apply Hm1. intros <-. tauto.
  - destruct (IH m (errs ++ [e]) Hnd) as (m' & H1 & H2 & H3).
    { intros d' Hd'. apply Hm. by right. }
    { intros d' Hd'. apply Hout. by right. }
    exists m'. cbn [res_bind]. rewrite H1. rewrite <- app_assoc. split; [done|]. split; [done|].
    intros name Hn. rewrite fmap_cons, not_elem_of_cons in Hn. apply H3. tauto.
Qed.
End arguments.

Lemma outcome_ends variables arguments defs :
  constant_defaults schema -> Forall constant_default defs ->
  map_Forall (fun _ v => no_variables v = true) variables ->
  exists n, forall fuel d, n <= fuel -> d ∈ defs -> outcome variables arguments fuel d <> Panic.
Proof.
  intros Hc Hdefs Hvars. destruct (defaults_bound schema Hc) as [D HD].
  destruct (depth_bound (omap iv_default_value defs ++ arguments.*2 ++ (map_to_list variables).*2))
    as [B HB].
  exists (S (B + (B + D))). intros fuel d Hf Hd. rewrite Forall_forall in Hdefs.
  assert (Hv : map_Forall (fun _ => shallow (B + D)) variables).
  { intros name v Hv. split; [by apply (Hvars name)|]. transitivity B; [|lia].
    apply HB, elem_of_app; right. apply elem_of_app; right. apply list_elem_of_fmap.
    exists (name, v). split; [done|]. by apply elem_of_map_to_list. }
  apply (coerce_input_value_with_no_panic (B + D) variables Hv _ fuel).
  - intros v name Hn. apply (coerce_to_definition_no_panic _ _ (B + D)); [done| |done].
    intros n t f x Ht Hfi Hx. apply (shallow_mono D); [lia|by eapply HD].
  - unfold get_argument_value.
    destruct (List.find _ arguments) as [[n v]|] eqn:Ef; cbn [fmap option_fmap option_map snd]; [|lia].
    apply List.find_some in Ef as [Ef _]. apply list_elem_of_In in Ef.
    assert (object_depth v <= B).
    { apply HB, elem_of_app; right. apply elem_of_app; left. by apply (list_elem_of_fmap_2 snd _ (n, v)). }
    pose proof (need_le (B + D) v). destruct v; lia.
  - intros x Hx. split; [by apply (Hdefs d)|]. transitivity B; [|lia].
    apply HB, elem_of_app; left. apply list_elem_of_omap. by exists d.
Qed.
End query_lemmas.

(** Whatever the coercion of a value gives conforms to the type it was
    coerced to: lists and objects throughout, integers in range, enum values
    of the enum, objects with known fields only, no variable left.  A value
    that conforms is coerced to itself, so coercion is a retraction onto the
    conforming values. *)
Lemma coercion_retracts float_to_string resolver fuel variables v ty :
  (forall r, coerce_value float_to_string resolver fuel variables v ty = Ok r ->
     conforms resolver ty r /\ no_variables r = true
     /\ forall fuel' variables', object_depth r < fuel' ->
          coerce_value float_to_string resolver fuel' variables' r ty = Ok r)
  /\ (conforms resolver ty v -> object_depth v < fuel ->
      coerce_value float_to_string resolver fuel variables v ty = Ok v).
Proof.
  assert (Hc : forall fuel variables v, conforms resolver ty v -> object_depth v < fuel ->
            coerce_value float_to_string resolver fuel variables v ty = Ok v).
  { intros f vars w Hw Hd. apply (coerce_value_with_conforming resolver _ f); [|done|done].
    intros. by apply coerce_to_definition_conforming. }
  split; [|by apply Hc]. intros r Hr. apply coerce_value_sound in Hr.
  split; [done|]. split; [by eapply conforms_no_variables|]. intros. by apply Hc.
Qed.

(** C23: If the variables of a query have been coerced and no default value of
    the schema refers to a variable, then the coercion of the arguments of any
    field ends.  It gives a map that holds, for every argument the field
    declares and nothing else, a value that conforms to the declared type
    (under the field's name for the search text), or nothing when the argument
    is not given, has no default and is nullable; or it gives the errors of all
    arguments that fail, in the order of their declaration. *)
Theorem query_arguments_typed float_to_string schema vdefs provided fuelv variables object_type
    field_name arguments defs :
  constant_defaults schema -> NoDup (vd_name <$> vdefs) ->
  coerce_variables float_to_string schema fuelv vdefs provided = Ok variables ->
  defs = default [] (get_argument_definitions object_type field_name) ->
  Forall constant_default defs -> NoDup (iv_name <$> defs) ->
  exists n, forall fuel, n <= fuel ->
  match coerce_argument_values float_to_string schema fuel variables object_type field_name
          arguments with
  | Ok m =>
      (forall d, d ∈ defs ->
         argument_ok float_to_string schema variables field_name arguments fuel d (m !! iv_name d))
      /\ forall name, name ∉ (iv_name <$> defs) -> m !! name = None
  | Err errors =>
      errors = omap (failure float_to_string schema variables arguments fuel) defs
      /\ errors <> []
  | Panic => False
  end.
Proof.
  intros Hc Hnv Hv Hdefs Hcd Hnd.
  apply coerce_variables_no_variables in Hv; [|done].
  destruct (outcome_ends float_to_string schema variables arguments defs Hc Hcd Hv) as [n Hn].
  exists n. intros fuel Hf.
  destruct (coerce_argument_fold float_to_string schema variables field_name arguments fuel defs
              ∅ [] Hnd) as (m' & H1 & H2 & H3); [by intros; apply lookup_empty|by auto|].
  unfold coerce_argument_values. rewrite <- Hdefs, H1. cbn [lift_panic res_bind app].
  destruct (omap _ defs) as [|e errs]; [|done]. split; [by apply H2|].
  intros name Hname. rewrite H3 by done. apply lookup_empty.
Qed.

(** The coercion of the variables of an operation ends.  On success every
    declared variable has an input type and a value that conforms to it, made
    from the value provided or else from its default; it has none exactly when
    neither is there, and then its type is nullable.  Undeclared variables are
    dropped. *)
Lemma variables_typed float_to_string schema vdefs provided :
  constant_defaults schema -> NoDup (vd_name <$> vdefs) ->
  exists n, forall fuel, n <= fuel ->
  match coerce_variables float_to_string schema fuel vdefs provided with
  | Ok m =>
      (forall d, d ∈ vdefs ->
         variable_ok float_to_string schema fuel (default ∅ provided) d (m !! vd_name d))
      /\ forall name, name ∉ (vd_name <$> vdefs) -> m !! name = None
  | Err _ => True
  | Panic => False
  end.
Proof.
  intros Hc Hnd. destruct (coerce_variables_ends float_to_string schema vdefs provided Hc) as [n Hn].
  exists n. intros fuel Hf. specialize (Hn fuel Hf).
  destruct (coerce_variables _ _ _ _ _) as [m| |] eqn:E; [|done|done].
  by eapply coerce_variables_ok.
Qed.

(** An object that lacks a field its type demands is accepted: only the fields
    that are given are looked at. *)
Lemma missing_fields_accepted float_to_string resolver name t fuel variables :
  resolver name = Some (TDInputObject t) ->
  coerce_value float_to_string resolver (S fuel) variables (QObject []) (NonNullType (NamedType name))
  = Ok (QObject []).
Proof. intros H. unfold coerce_value. simpl. by rewrite H. Qed.

Module Witness.
Definition limit : InputValue :=
    mk_input_value (mk_Pos 1 1) "limit" (NonNullType (NamedType "Int")) (Some (QInt 10)).
Definition where_arg : InputValue :=
    mk_input_value (mk_Pos 1 9) "where" (NamedType "Filter") None.
Definition Filter : InputObjectType :=
    mk_input_object_type "Filter" []
      [mk_input_value (mk_Pos 2 1) "color_in" (ListType (NamedType "Color")) None;
       mk_input_value (mk_Pos 3 1) "sub" (NamedType "Filter") None].
Definition Query : ObjectType :=
    mk_object_type "Query" [] [] [mk_field "cats" [limit; where_arg] (NamedType "Int") []].
Definition schema : Document :=
    [TypeDef (TDScalar (mk_scalar_type "Int" []));
     TypeDef (TDEnum (mk_enum_type "Color" [] ["red"; "blue"]));
     TypeDef (TDInputObject Filter); TypeDef (TDObject Query)].
Definition vdefs : list VariableDefinition :=
    [mk_variable_definition (mk_Pos 0 0) "f" (NonNullType (NamedType "Filter")) None].
Definition nested : qvalue :=
    QObject [("color_in", QList [QString "red"]); ("sub", QObject [("color_in", QNull)])].
Definition no_float (f : spec_float) : string := "".

Lemma schema_defaults : constant_defaults schema.
Proof.
    intros t def d Ht Hdef Hd. apply list_elem_of_singleton in Ht as ->. cbn in Hdef.
    set_unfold in Hdef. by destruct Hdef as [->|[->|[]]].
Qed.

Example coerced_arguments :
    coerce_argument_values no_float schema 3
      {["f" := QObject [("color_in", QList [QEnum "red"])]]} Query "cats"
      [("where", QVariable "f")]
    = Ok {["limit" := QInt 10; "where" := QObject [("color_in", QList [QEnum "red"])]]}.
Proof. reflexivity. Qed.

Lemma coercion_retracts_witness :
    conforms (get_named_type schema) (NamedType "Filter")
      (QObject [("color_in", QList [QEnum "red"]); ("sub", QObject [("color_in", QNull)])])
    /\ coerce_value no_float (get_named_type schema) 3 ∅
         (QObject [("sub", QObject [])]) (NamedType "Filter") = Ok (QObject [("sub", QObject [])]).
Proof.
    split.
    - by apply (coercion_retracts no_float (get_named_type schema) 3 ∅ nested).
    - apply (coercion_retracts no_float (get_named_type schema)); [|by vm_compute; lia].
      eapply conforms_object; [reflexivity|]. constructor; [|constructor].
      eexists. split; [reflexivity|]. by eapply conforms_object.
Defined.

Lemma query_arguments_typed_witness :
    exists variables,
      coerce_variables no_float schema 5 vdefs (Some {["f" := nested]}) = Ok variables
      /\ exists n, forall fuel, n <= fuel ->
           coerce_argument_values no_float schema fuel variables Query "cats"
             [("where", QVariable "f")] <> Panic.
Proof.
    eexists. split; [vm_compute; reflexivity|].
    match goal with |- context [coerce_argument_values _ _ _ ?m] =>
      destruct (query_arguments_typed no_float schema vdefs (Some {["f" := nested]}) 5 m
        Query "cats" [("where", QVariable "f")] [limit; where_arg]) as [n Hn] end.
    - exact schema_defaults.
    - apply NoDup_singleton.
    - vm_compute. reflexivity.
    - reflexivity.
    - constructor; [by intros d [= <-]|]. constructor; [done|constructor].
    - by apply NoDup_cons; split; [vm_compute; set_solver|apply NoDup_singleton].
    - exists n. intros fuel Hf Hp. specialize (Hn fuel Hf). by rewrite Hp in Hn.
Defined.

Lemma variables_typed_witness :
    exists n, forall fuel, n <= fuel ->
      coerce_variables no_float schema fuel vdefs (Some {["f" := nested]}) <> Panic.
Proof.
    destruct (variables_typed no_float schema vdefs (Some {["f" := nested]}) schema_defaults)
      as [n Hn]; [apply NoDup_singleton|].
    exists n. intros fuel Hf Hp. specialize (Hn fuel Hf). by rewrite Hp in Hn.
Defined.
End Witness.
