(* ===== verification/Introspection.v ===== *)
(** * The introspection schema

    Models [graphql/src/introspection/schema.rs]: the document the schema
    literal stands for (descriptions, comments and positions are left out) and
    the test for introspection fields. *)

From stdpp Require Import prelude list strings.
From S2P Require Import Prelude.
From S2P Require Import GraphqlTypes.
From S2P Require Import GraphqlSchema.

#[local] Open Scope string_scope.
#[local] Open Scope list_scope.

(** [T], [T!], [[T!]!] and so on. *)
#[local] Notation "t !" := (NonNullType t) (at level 1, format "t !").
#[local] Coercion NamedType : string >-> GType.

Definition field (name : string) (t : GType) : Field := mk_field name [] t [].
Definition arg (name : string) (t : GType) (d : option qvalue) : InputValue :=
  mk_input_value (mk_Pos 0 0) name t d.
Definition object (name : string) (fields : list Field) : DefinitionNode :=
  TypeDef (TDObject (mk_object_type name [] [] fields)).
Definition scalar (name : string) : DefinitionNode := TypeDef (TDScalar (mk_scalar_type name [])).
Definition enum (name : string) (values : list string) : DefinitionNode :=
  TypeDef (TDEnum (mk_enum_type name [] values)).

Definition include_deprecated : InputValue :=
  arg "includeDeprecated" "Boolean" (Some (QBoolean false)).

Definition Query_type : ObjectType :=
  mk_object_type "Query" [] []
    [field "__schema" "__Schema"!;
     mk_field "__type" [arg "name" "String"! None] "__Type" []].

Definition Schema_type : DefinitionNode :=
  object "__Schema"
    [field "types" (ListType "__Type"!)!; field "queryType" "__Type"!;
     field "mutationType" "__Type"; field "subscriptionType" "__Type";
     field "directives" (ListType "__Directive"!)!].

Definition Type_type : DefinitionNode :=
  object "__Type"
    [field "kind" "__TypeKind"!; field "name" "String"; field "description" "String";
     mk_field "fields" [include_deprecated] (ListType "__Field"!) [];
     field "interfaces" (ListType "__Type"!); field "possibleTypes" (ListType "__Type"!);
     mk_field "enumValues" [include_deprecated] (ListType "__EnumValue"!) [];
     field "inputFields" (ListType "__InputValue"!); field "ofType" "__Type"].

Definition INTROSPECTION_DOCUMENT : Document :=
  [scalar "Boolean"; scalar "Float"; scalar "Int"; scalar "ID"; scalar "String";
   TypeDef (TDObject Query_type); Schema_type; Type_type;
   object "__Field"
     [field "name" "String"!; field "description" "String";
      field "args" (ListType "__InputValue"!)!; field "type" "__Type"!;
      field "isDeprecated" "Boolean"!; field "deprecationReason" "String"];
   object "__InputValue"
     [field "name" "String"!; field "description" "String"; field "type" "__Type"!;
      field "defaultValue" "String"];
   object "__EnumValue"
     [field "name" "String"!; field "description" "String"; field "isDeprecated" "Boolean"!;
      field "deprecationReason" "String"];
   enum "__TypeKind"
     ["SCALAR"; "OBJECT"; "INTERFACE"; "UNION"; "ENUM"; "INPUT_OBJECT"; "LIST"; "NON_NULL"];
   object "__Directive"
     [field "name" "String"!; field "description" "String";
      field "locations" (ListType "__DirectiveLocation"!)!;
      field "args" (ListType "__InputValue"!)!];
   enum "__DirectiveLocation"
     ["QUERY"; "MUTATION"; "SUBSCRIPTION"; "FIELD"; "FRAGMENT_DEFINITION"; "FRAGMENT_SPREAD";
      "INLINE_FRAGMENT"; "SCHEMA"; "SCALAR"; "OBJECT"; "FIELD_DEFINITION";
      "ARGUMENT_DEFINITION"; "INTERFACE"; "UNION"; "ENUM"; "ENUM_VALUE"; "INPUT_OBJECT";
      "INPUT_FIELD_DEFINITION"]].

(** [*INTROSPECTION_QUERY_TYPE]: the root query type of the document. *)
Definition INTROSPECTION_QUERY_TYPE : ObjectType := Query_type.

Lemma introspection_query_type :
  get_root_query_type INTROSPECTION_DOCUMENT = Some INTROSPECTION_QUERY_TYPE.
Proof. reflexivity. Qed.

Definition is_introspection_field (name : string) : bool :=
  match oi_field (OIObject INTROSPECTION_QUERY_TYPE) name with Some _ => true | None => false end.

Lemma is_introspection_field_spec name :
  is_introspection_field name = true <-> name = "__schema" \/ name = "__type".
Proof.
  unfold is_introspection_field, oi_field, List.find. cbn [oi_fields ot_fields
    INTROSPECTION_QUERY_TYPE Query_type field fd_name].
  destruct (String.eqb_spec "__schema" name) as [<-|]; [naive_solver|].
  destruct (String.eqb_spec "__type" name) as [<-|]; naive_solver.
Qed.

(** Every type the document mentions is defined in it. *)
Lemma introspection_closed :
  forallb (fun t =>
    forallb (fun f =>
      match get_type_definition_from_field INTROSPECTION_DOCUMENT f with
      | Some _ => true
      | None => false
      end) (ot_fields t))
    (get_object_type_definitions INTROSPECTION_DOCUMENT) = true.
Proof. vm_compute. reflexivity. Qed.
