(* ===== verification/GraphqlQuery.v ===== *)
(** * GraphQL queries: syntax, validation, complexity

    Models [graphql/src/query/ast.rs], [graphql/src/query/ext.rs] and
    [graphql/src/execution/query.rs]: the preparation of a query before it is
    run, which makes sure that its fields and fragments exist and that it is
    not too complex, and the splitting of a query by block constraint.

    A complexity is a [u64]; where the code adds without a check it wraps, as in
    a release build.  The recursion of the complexity is bounded by
    the maximal depth.  That of the validation is not: it takes fuel, and
    [Panic] stands for its end as well as for an [unwrap] that fails. *)

From stdpp Require Import prelude list strings gmap.
From Stdlib Require Import ZArith Lia Ascii Floats.SpecFloat.
From S2P Require Import Prelude.
From S2P Require Import GraphqlTypes.
From S2P Require Import StoreValue.
From S2P Require Import EthTypes.
From S2P Require Import GraphqlSchema.
From S2P Require Import Coercion.
From S2P Require Import Introspection.

#[local] Open Scope string_scope.
#[local] Open Scope list_scope.

(** ** Syntax *)

(** Selection sets are lists of selections; their spans are left out.  A type
    condition is the name of the type. *)
Inductive Selection :=
| SField (f : QField)
| SSpread (fragment_name : string) (directives : list Directive)
| SInline (type_condition : option string) (directives : list Directive)
    (selection_set : list Selection)
with QField :=
| mk_qfield (position : Pos) (alias : option string) (name : string)
    (arguments : list (string * qvalue)) (directives : list Directive)
    (selection_set : list Selection).

Abbreviation SelectionSet := (list Selection).

Definition qf_position '(mk_qfield p _ _ _ _ _) : Pos := p.
Definition qf_alias '(mk_qfield _ a _ _ _ _) : option string := a.
Definition qf_name '(mk_qfield _ _ n _ _ _) : string := n.
Definition qf_arguments '(mk_qfield _ _ _ args _ _) : list (string * qvalue) := args.
Definition qf_directives '(mk_qfield _ _ _ _ ds _) : list Directive := ds.
Definition qf_selection_set '(mk_qfield _ _ _ _ _ set) : SelectionSet := set.

Record FragmentDefinition := mk_fragment {
  fr_name : string;
  fr_type_condition : string;
  fr_selection_set : SelectionSet;
}.

Inductive OperationDefinition :=
| OpSelectionSet (set : SelectionSet)
| OpQuery (name : option string) (vars : list VariableDefinition) (set : SelectionSet)
| OpMutation (name : option string) (vars : list VariableDefinition) (set : SelectionSet)
| OpSubscription (name : option string) (vars : list VariableDefinition) (set : SelectionSet).

Inductive QDefinition :=
| Operation (op : OperationDefinition)
| Fragment (f : FragmentDefinition).

(** *** [query/ast.rs] *)
Definition get_operations (document : list QDefinition) : list OperationDefinition :=
  omap (fun d => match d with Operation op => Some op | Fragment _ => None end) document.

Definition get_operation_name (op : OperationDefinition) : option string :=
  match op with
  | OpMutation name _ _ | OpQuery name _ _ | OpSubscription name _ _ => name
  | OpSelectionSet _ => None
  end.

Definition get_operation (document : list QDefinition) (name : option string)
  : qres OperationDefinition :=
  let operations := get_operations document in
  match name, operations with
  | None, [op] => Ok op
  | None, _ => Err OperationNameRequired
  | Some s, _ :: _ =>
      ok_or (List.find (fun op => match get_operation_name op with
                                  | Some n => String.eqb s n
                                  | None => false
                                  end) operations)
        (OperationNotFound s)
  | Some _, [] => Err OperationNameRequired
  end.

(** Only fields have directives as far as this function is concerned. *)
Definition get_directive (selection : Selection) (name : string) : option Directive :=
  match selection with
  | SField field => List.find (fun d => String.eqb (dir_name d) name) (qf_directives field)
  | _ => None
  end.

(** [variables.get(name)] is a boolean that holds. *)
Definition variable_is_true (variables : Variables) (name : string) : bool :=
  match variables !! name with Some (QBoolean v) => v | _ => false end.

Definition skip_selection (variables : Variables) (selection : Selection) : bool :=
  match get_directive selection "skip" with
  | Some directive =>
      match get_argument_value (dir_arguments directive) "if" with
      | Some (QBoolean skip_if) => skip_if
      | Some (QVariable name) => variable_is_true variables name
      | Some _ => false
      | None => true
      end
  | None => false
  end.

Definition include_selection (variables : Variables) (selection : Selection) : bool :=
  match get_directive selection "include" with
  | Some directive =>
      match get_argument_value (dir_arguments directive) "if" with
      | Some (QBoolean include) => include
      | Some (QVariable name) => variable_is_true variables name
      | Some _ => false
      | None => true
      end
  | None => true
  end.

Definition get_response_key (field : QField) : string := default (qf_name field) (qf_alias field).

Definition get_fragment_definition (document : list QDefinition) (name : string)
  : option FragmentDefinition :=
  List.find (fun fd => String.eqb (fr_name fd) name)
    (omap (fun d => match d with Fragment fd => Some fd | Operation _ => None end) document).

Definition get_variable_definitions (op : OperationDefinition)
  : option (list VariableDefinition) :=
  match op with
  | OpQuery _ vars _ | OpSubscription _ vars _ | OpMutation _ vars _ => Some vars
  | OpSelectionSet _ => None
  end.

(** ** Block constraints, [query/ext.rs] *)
Definition lookup_value (value : qvalue) (vars : Variables) (pos : Pos) : qres qvalue :=
  match value with
  | QVariable name => ok_or (vars !! name) (MissingVariableError pos name)
  | _ => Ok value
  end.

Inductive BlockConstraint :=
| BCHash (h : H256)
| BCNumber (n : Z)
| BCLatest.

#[export] Instance BlockConstraint_eq_dec : EqDecision BlockConstraint.
Proof. solve_decision. Defined.

(** [u64::from_str]: decimal digits, perhaps after a plus sign, that do not
    overflow. *)
Fixpoint digits_value (acc : Z) (s : string) : option Z :=
  match s with
  | EmptyString => Some acc
  | String c s =>
      if is_ascii_digit c then
        let acc := (acc * 10 + (Z.of_nat (Ascii.nat_of_ascii c) - 48))%Z in
        if bool_decide (is_u64 acc) then digits_value acc s else None
      else None
  end.

Definition u64_from_str (s : string) : option Z :=
  match s with
  | EmptyString => None
  | String "+"%char EmptyString => None
  | String "+"%char s => digits_value 0 s
  | _ => digits_value 0 s
  end.

(** [TryFromValue for u64]: a negative number wraps. *)
Definition u64_try_from_value (value : qvalue) : option Z :=
  match value with
  | QInt n => Some (wrap_u 64 n)
  | QString s => u64_from_str s
  | _ => None
  end.

(** [BlockNumber::try_from]: an [i32] from a [u64]. *)
Definition block_number_try_from (n : Z) : option Z :=
  if bool_decide (n < 2 ^ 31)%Z then Some n else None.

(** [BTreeMap::get] on the bindings of an object. *)
Definition object_get (map : list (string * qvalue)) (key : string) : option qvalue :=
  get_argument_value map key.

Section block_constraint.
Context (h256_from_str : string -> option H256).

Definition h256_try_from_value (value : qvalue) : option H256 :=
  match value with QString s => h256_from_str (trim_0x s) | _ => None end.

Definition invalid_argument (arg : string) (field : QField) (value : qvalue)
  : QueryExecutionError := InvalidArgumentError (qf_position field) arg value.

Definition field_block_constraint (field : QField) (vars : Variables) : qres BlockConstraint :=
  match get_argument_value (qf_arguments field) "block" with
  | Some value =>
      let? value := lookup_value value vars (qf_position field) in
      match value with
      | QObject map =>
          if negb (bool_decide (length map = 1)) then Err (invalid_argument "block" field value)
          else match object_get map "hash" with
          | Some hash =>
              let? hash := lookup_value hash vars (qf_position field) in
              res_map BCHash
                (ok_or (h256_try_from_value hash) (invalid_argument "block.hash" field value))
          | None =>
              match object_get map "number" with
              | Some number_value =>
                  let? number_value := lookup_value number_value vars (qf_position field) in
                  let? number := ok_or (u64_try_from_value number_value)
                                   (invalid_argument "block.number" field number_value) in
                  res_map BCNumber
                    (ok_or (block_number_try_from number)
                       (invalid_argument "block.number" field number_value))
              | None => Err (invalid_argument "block" field value)
              end
          end
      | _ => Err (invalid_argument "block" field value)
      end
  | None => Ok BCLatest
  end.
End block_constraint.

(** ** Types and fields of both schemas, [execution/execution.rs] *)
Definition starts_with_underscores (name : string) : bool := String.prefix "__" name.

Definition exec_get_named_type (schema : Document) (name : string) : option TypeDefinition :=
  if starts_with_underscores name then get_named_type INTROSPECTION_DOCUMENT name
  else get_named_type schema name.

Definition exec_get_field (object_type : ObjectOrInterface) (name : string) : option Field :=
  if String.eqb name "__schema" || String.eqb name "__type"
  then get_field (OIObject INTROSPECTION_QUERY_TYPE) name
  else get_field object_type name.

Definition exec_object_or_interface (schema : Document) (name : string)
  : option ObjectOrInterface :=
  if starts_with_underscores name then object_or_interface INTROSPECTION_DOCUMENT name
  else object_or_interface schema name.

(** ** The query *)
Inductive Kind := KQuery | KSubscription.

Inductive ComplexityError := CTooDeep | COverflow | CInvalid.

(** The schema with its id; times, texts, hashes and the logger are left out. *)
Record Query := mk_query_struct {
  q_schema_id : SubgraphDeploymentId;
  q_schema : Document;
  q_variables : Variables;
  q_selection_set : SelectionSet;
  q_network : option string;
  q_fragments : gmap string FragmentDefinition;
  q_kind : Kind;
  q_complexity : Z;
}.

Definition get_fragment {E} (q : Query) (name : string) : res E FragmentDefinition :=
  unwrap (q_fragments q !! name).

Definition is_query (q : Query) : bool :=
  match q_kind q with KQuery => true | KSubscription => false end.
Definition is_subscription (q : Query) : bool :=
  match q_kind q with KSubscription => true | KQuery => false end.

(** *** Validation of fields *)
Section validate.
Context (q : Query).
Notation schema := (q_schema q).

Definition validate_named (validate : string -> ObjectOrInterface -> SelectionSet ->
                             res Empty_set (list QueryExecutionError))
    (type_name : string) (set : SelectionSet) : res Empty_set (list QueryExecutionError) :=
  match exec_object_or_interface schema type_name with
  | Some ty => validate type_name ty set
  | None => Ok [NamedTypeError type_name]
  end.

(** One selection; [validate] is the recursive call. *)
Definition validate_selection (validate : string -> ObjectOrInterface -> SelectionSet ->
                                 res Empty_set (list QueryExecutionError))
    (type_name : string) (ty : ObjectOrInterface) (selection : Selection)
  : res Empty_set (list QueryExecutionError) :=
  match selection with
  | SField field =>
      match exec_get_field ty (qf_name field) with
      | Some s_field =>
          let base_type := get_base_type (fd_field_type s_field) in
          match exec_get_named_type schema base_type with
          | None => Ok [NamedTypeError base_type]
          | Some _ =>
              match exec_object_or_interface schema base_type with
              | Some ty => validate base_type ty (qf_selection_set field)
              | None => Ok []
              end
          end
      | None => Ok [UnknownField (qf_position field) type_name (qf_name field)]
      end
  | SSpread fragment_name _ =>
      match q_fragments q !! fragment_name with
      | Some frag => validate_named validate (fr_type_condition frag) (fr_selection_set frag)
      | None => Ok [UndefinedFragment fragment_name]
      end
  | SInline (Some type_name) _ set => validate_named validate type_name set
  | SInline None _ set => validate type_name ty set
  end.

Fixpoint validate_fields_inner (fuel : nat) (type_name : string) (ty : ObjectOrInterface)
    (selection_set : SelectionSet) : res Empty_set (list QueryExecutionError) :=
  match fuel with
  | O => Panic
  | S fuel =>
      if bool_decide (length selection_set = 0)
         && negb (String.eqb (q_schema_id q) SUBGRAPHS_ID)
      then Ok [EmptySelectionSet (oi_name ty)]
      else fold_res (fun errors selection =>
             let? e := validate_selection (validate_fields_inner fuel) type_name ty selection in
             Ok (errors ++ e)) [] selection_set
  end.

Definition validate_fields (fuel : nat) : res (list QueryExecutionError) () :=
  let? root_type := unwrap (get_root_query_type schema) in
  let? errors := lift_panic
    (validate_fields_inner fuel "Query" (OIObject root_type) (q_selection_set q)) in
  match errors with [] => Ok () | _ => Err errors end.
End validate.

(** *** Complexity *)
Definition checked_add (a b : Z) : option Z :=
  if bool_decide (a + b <= u64_max)%Z then Some (a + b)%Z else None.
Definition checked_mul (a b : Z) : option Z :=
  if bool_decide (a * b <= u64_max)%Z then Some (a * b)%Z else None.

(** The value of [first] in the query text, as a [u64]; 100 when it is not an
    integer there. *)
Definition max_entities_of (arguments : list (string * qvalue)) : Z :=
  match get_argument_value arguments "first" with
  | Some (QInt n) => wrap_u 64 n
  | _ => 100
  end.

Definition field_of_type (ty : TypeDefinition) (name : string) : option Field :=
  match ty with
  | TDObject t => exec_get_field (OIObject t) name
  | TDInterface t => exec_get_field (OIInterface t) name
  | _ => None
  end.

Section complexity.
Context (q : Query).
Notation schema := (q_schema q).

(** One selection; [inner] is the recursive call one level deeper. *)
Definition complexity_step (inner : TypeDefinition -> SelectionSet -> res ComplexityError Z)
    (ty : TypeDefinition) (total_complexity : Z) (selection : Selection) : res ComplexityError Z :=
  let add complexity := ok_or (checked_add total_complexity complexity) COverflow in
  match selection with
  | SField field =>
      match qf_selection_set field with
      | [] => Ok total_complexity
      | selection_set =>
          let? s_field := ok_or (field_of_type ty (qf_name field)) CInvalid in
          let? field_type :=
            ok_or (exec_get_named_type schema (get_base_type (fd_field_type s_field))) CInvalid in
          let? field_complexity := inner field_type selection_set in
          if is_list_or_non_null_list_field s_field then
            let max_entities := max_entities_of (qf_arguments field) in
            let? children := ok_or (checked_mul max_entities field_complexity) COverflow in
            let? complexity := ok_or (checked_add max_entities children) COverflow in
            add complexity
          else Ok (wrap64 (total_complexity + field_complexity))
      end
  | SSpread fragment_name _ =>
      let? def := get_fragment q fragment_name in
      let? ty := ok_or (exec_get_named_type schema (fr_type_condition def)) CInvalid in
      let? complexity := inner ty (fr_selection_set def) in
      add complexity
  | SInline type_condition _ selection_set =>
      let? ty := match type_condition with
                 | Some type_name => ok_or (exec_get_named_type schema type_name) CInvalid
                 | None => Ok ty
                 end in
      let? complexity := inner ty selection_set in
      add complexity
  end.

(** [levels] is [max_depth - depth]. *)
Fixpoint complexity_inner (levels : nat) (ty : TypeDefinition) (selection_set : SelectionSet)
  : res ComplexityError Z :=
  match levels with
  | O => Err CTooDeep
  | S levels => fold_res (complexity_step (complexity_inner levels) ty) 0%Z selection_set
  end.

Definition complexity (max_depth : nat) : qres Z :=
  let? root_type := unwrap (get_root_query_type_def schema) in
  match complexity_inner max_depth root_type (q_selection_set q) with
  | Ok complexity => Ok complexity
  | Err CInvalid => Ok 0%Z
  | Err CTooDeep => Err (TooDeep (Z.of_nat max_depth))
  | Err COverflow => Err (TooComplex u64_max 0)
  | Panic => Panic
  end.

Definition set_complexity (c : Z) : Query :=
  mk_query_struct (q_schema_id q) schema (q_variables q) (q_selection_set q) (q_network q)
    (q_fragments q) (q_kind q) c.

Definition check_complexity (max_complexity : option Z) (max_depth : nat)
  : res (list QueryExecutionError) Query :=
  match max_complexity with
  | Some max_complexity =>
      let? c := map_err (fun e => [e]) (complexity max_depth) in
      if bool_decide (c > max_complexity)%Z then Err [TooComplex c max_complexity]
      else Ok (set_complexity c)
  | None => Ok q
  end.
End complexity.

(** *** Preparing a query *)

(** The loop over the definitions of the document. *)
Definition definition_step
    (s : option OperationDefinition * gmap string FragmentDefinition) (d : QDefinition)
  : res (list QueryExecutionError) (option OperationDefinition * gmap string FragmentDefinition) :=
  let '(operation, fragments) := s in
  match d with
  | Operation op =>
      match operation with
      | None => Ok (Some op, fragments)
      | Some _ => Err [OperationNameRequired]
      end
  | Fragment frag => Ok (operation, <[fr_name frag := frag]> fragments)
  end.

(** Is it a query or a subscription, and its selection set. *)
Definition kind_of_operation (op : OperationDefinition)
  : res (list QueryExecutionError) (Kind * SelectionSet) :=
  match op with
  | OpQuery _ _ set => Ok (KQuery, set)
  | OpSelectionSet set => Ok (KQuery, set)
  | OpSubscription _ _ set => Ok (KSubscription, set)
  | OpMutation _ _ _ => Err [NotSupported "Mutations are not supported"]
  end.

Definition query_new (float_to_string : spec_float -> string) (fuel : nat)
    (schema_id : SubgraphDeploymentId) (schema : Document) (document : list QDefinition)
    (variables : option Variables) (network : option string) (max_complexity : option Z)
    (max_depth : nat) : res (list QueryExecutionError) Query :=
  let? s := fold_res definition_step (None, ∅) document in
  let '(operation, fragments) := s in
  let? operation := ok_or operation [OperationNameRequired] in
  let? variables := coerce_variables float_to_string schema fuel
                      (default [] (get_variable_definitions operation)) variables in
  let? k := kind_of_operation operation in
  let '(kind, selection_set) := k in
  let q := mk_query_struct schema_id schema variables selection_set network fragments kind 0 in
  let? _ := validate_fields q fuel in
  check_complexity q max_complexity max_depth.

(** *** Splitting by block constraint *)

(** [bcs.entry(bc).or_insert(..).items.push(..)] on the map as a list of its
    entries. *)
Fixpoint push_constraint (bc : BlockConstraint) (field : QField)
    (bcs : list (BlockConstraint * SelectionSet)) : list (BlockConstraint * SelectionSet) :=
  match bcs with
  | [] => [(bc, [SField field])]
  | (bc', items) :: bcs =>
      if decide (bc = bc') then (bc', items ++ [SField field]) :: bcs
      else (bc', items) :: push_constraint bc field bcs
  end.

Definition block_constraint_step (h256_from_str : string -> option H256) (vars : Variables)
    (s : list (BlockConstraint * SelectionSet) * list QueryExecutionError) (field : QField)
  : list (BlockConstraint * SelectionSet) * list QueryExecutionError :=
  let '(bcs, errors) := s in
  match field_block_constraint h256_from_str field vars with
  | Ok bc => (push_constraint bc field bcs, errors)
  | Err e => (bcs, errors ++ [e])
  | Panic => s
  end.

Definition selection_fields (set : SelectionSet) : list QField :=
  omap (fun sel => match sel with SField f => Some f | _ => None end) set.

Definition query_block_constraint (h256_from_str : string -> option H256) (q : Query)
  : res (list QueryExecutionError) (list (BlockConstraint * SelectionSet)) :=
  let '(bcs, errors) :=
    foldl (block_constraint_step h256_from_str (q_variables q)) ([], [])
      (selection_fields (q_selection_set q)) in
  match errors with [] => Ok bcs | _ => Err errors end.

(** [as_introspection_query] *)
Definition as_introspection_query (q : Query) : Query :=
  mk_query_struct (q_schema_id q) INTROSPECTION_DOCUMENT (q_variables q) (q_selection_set q)
    (q_network q) (q_fragments q) (q_kind q) (q_complexity q).

(** ** What is proved: complexity *)
Section exact.
Context (q : Query).
Notation schema := (q_schema q).

(** The complexity as a number without bounds, with the largest complexity met
    on the way: adding [c], whose largest part is [p]. *)
Definition exact_add (s : Z * Z) (c p : Z) : Z * Z :=
  (s.1 + c, Z.max s.2 (Z.max p (s.1 + c)))%Z.

Definition exact_step (inner : TypeDefinition -> SelectionSet -> res ComplexityError (Z * Z))
    (ty : TypeDefinition) (s : Z * Z) (selection : Selection) : res ComplexityError (Z * Z) :=
  match selection with
  | SField field =>
      match qf_selection_set field with
      | [] => Ok s
      | selection_set =>
          let? s_field := ok_or (field_of_type ty (qf_name field)) CInvalid in
          let? t := ok_or (exec_get_named_type schema (get_base_type (fd_field_type s_field))) CInvalid in
          let? c := inner t selection_set in
          let n := max_entities_of (qf_arguments field) in
          Ok (exact_add s (if is_list_or_non_null_list_field s_field then n + n * c.1 else c.1)%Z c.2)
      end
  | SSpread fragment_name _ =>
      let? def := get_fragment q fragment_name in
      let? t := ok_or (exec_get_named_type schema (fr_type_condition def)) CInvalid in
      let? c := inner t (fr_selection_set def) in
      Ok (exact_add s c.1 c.2)
  | SInline type_condition _ selection_set =>
      let? t := match type_condition with
                | Some type_name => ok_or (exec_get_named_type schema type_name) CInvalid
                | None => Ok ty
                end in
      let? c := inner t selection_set in
      Ok (exact_add s c.1 c.2)
  end.

Fixpoint exact_complexity (levels : nat) (ty : TypeDefinition) (selection_set : SelectionSet)
  : res ComplexityError (Z * Z) :=
  match levels with
  | O => Err CTooDeep
  | S levels => fold_res (exact_step (exact_complexity levels) ty) (0, 0)%Z selection_set
  end.

(** The result of the code against the exact one: the same modulo 2^64, or an
    overflow that is one. *)
Definition agrees (bound : Z) (code : res ComplexityError Z) (exact : res ComplexityError (Z * Z))
  : Prop :=
  match exact with
  | Ok (e, p) => (0 <= e <= p)%Z /\ (bound <= p)%Z /\ match code with
                 | Ok c => c = wrap64 e
                 | Err COverflow => (2 ^ 64 <= p)%Z
                 | _ => False
                 end
  | Err x => code = Err x \/ code = Err COverflow
  | Panic => code = Panic \/ code = Err COverflow
  end.

Lemma wrap64_le z : (0 <= z)%Z -> (0 <= wrap64 z <= z)%Z.
Proof.
  intros H. unfold wrap_u. pose proof (Z.mod_pos_bound z (2 ^ 64)).
  pose proof (Z.mod_le z (2 ^ 64)). lia.
Qed.

Lemma wrap64_eq a b : (0 <= a < 2 ^ 64)%Z -> (a mod 2 ^ 64 = b mod 2 ^ 64)%Z -> a = wrap64 b.
Proof. intros Ha H. unfold wrap_u. rewrite <- H. by rewrite Z.mod_small. Qed.

Lemma checked_add_agrees T P C p :
  (0 <= T <= P)%Z -> (0 <= C <= p)%Z ->
  agrees (Z.max P p) (ok_or (checked_add (wrap64 T) (wrap64 C)) COverflow) (Ok (exact_add (T, P) C p)).
Proof.
  intros HT HC. pose proof (wrap64_le T). pose proof (wrap64_le C).
  unfold checked_add, agrees, exact_add. cbn [fst snd].
  case_bool_decide; cbn [ok_or]; (split; [lia|split; [lia|]]); [|lia].
  apply wrap64_eq; [lia|]. unfold wrap_u. by rewrite <- Zplus_mod.
Qed.

Lemma collection_agrees T P m F p :
  (0 <= T <= P)%Z -> is_u64 m -> (0 <= F <= p)%Z ->
  agrees (Z.max P p)
    (let? children := ok_or (checked_mul m (wrap64 F)) COverflow in
     let? complexity := ok_or (checked_add m children) COverflow in
     ok_or (checked_add (wrap64 T) complexity) COverflow)
    (Ok (exact_add (T, P) (m + m * F)%Z p)).
Proof.
  intros HT Hm HF. unfold is_u64 in Hm. pose proof (wrap64_le T). pose proof (wrap64_le F).
  assert (0 <= m * F)%Z by nia. assert (m * wrap64 F <= m * F)%Z by nia.
  unfold checked_mul. case_bool_decide; cbn [ok_or res_bind]; [|simpl; lia].
  unfold checked_add at 1. case_bool_decide; cbn [ok_or res_bind]; [|simpl; lia].
  assert (m + m * wrap64 F = wrap64 (m + m * F))%Z as ->.
  { apply wrap64_eq; [lia|]. unfold wrap_u. rewrite Zplus_mod, Zmult_mod_idemp_r.
    by rewrite <- Zplus_mod. }
  assert (exact_add (T, P) (m + m * F) p
          = exact_add (T, P) (m + m * F) (Z.max p (m + m * F)))%Z as ->.
  { unfold exact_add. cbn [fst snd]. f_equal. lia. }
  pose proof (checked_add_agrees T P (m + m * F) (Z.max p (m + m * F))%Z) as H'.
  unfold agrees in *. cbn [fst snd exact_add] in *. destruct H' as (? & ? & ?); [lia|lia|].
  split; [lia|]. split; [lia|done].
Qed.

Lemma max_entities_u64 args : is_u64 (max_entities_of args).
Proof.
  unfold max_entities_of. destruct (get_argument_value args "first") as [[]|];
    try (unfold is_u64; lia). apply wrap64_range.
Qed.

(** Continuing after an inner complexity. *)
Lemma agrees_bind T b code exact (f : Z -> res ComplexityError Z) g :
  agrees b code exact ->
  (forall C p, (0 <= C <= p)%Z -> agrees (Z.max T p) (f (wrap64 C)) (Ok (g (C, p)))) ->
  (forall C p, (0 <= C <= p)%Z -> (T <= (g (C, p)).2)%Z /\ (p <= (g (C, p)).2)%Z) ->
  agrees T (res_bind code f) (let? c := exact in Ok (g c)).
Proof.
  intros Ha Hf Hg. destruct exact as [[C p]|x|]; cbn [res_bind] in *; unfold agrees in Ha;
    [|destruct Ha as [->| ->]; [by left|by right]..].
  destruct Ha as (HC & _ & Hc). specialize (Hf C p HC). specialize (Hg C p HC).
  unfold agrees in *. destruct (g (C, p)) as [e p']. destruct Hf as (? & ? & Hf). cbn [snd] in Hg.
  split; [done|]. split; [lia|].
  destruct code as [c|[]|]; try done; cbn [res_bind]; [by subst|lia].
Qed.

Lemma exact_add_peak T P C p :
  (P <= (exact_add (T, P) C p).2)%Z /\ (p <= (exact_add (T, P) C p).2)%Z.
Proof. unfold exact_add. cbn [fst snd]. lia. Qed.

Lemma step_agrees inner inner' ty T P s :
  (forall t set, agrees 0 (inner t set) (inner' t set)) -> (0 <= T <= P)%Z ->
  agrees P (complexity_step q inner ty (wrap64 T) s) (exact_step inner' ty (T, P) s).
Proof.
  intros Hi HT. unfold complexity_step, exact_step.
  assert (Hsame : forall t set,
    agrees P
      (res_bind (inner t set) (fun c => ok_or (checked_add (wrap64 T) c) COverflow))
      (res_bind (inner' t set) (fun c => Ok (exact_add (T, P) c.1 c.2)))).
  { intros t set. eapply agrees_bind; [apply Hi| |]; intros C p HC; cbn [fst snd].
    - by apply checked_add_agrees.
    - apply exact_add_peak. }
  destruct s as [field|name ds|cond ds set].
  - destruct (qf_selection_set field) as [|s0 set] eqn:Es; [simpl; lia|].
    destruct (field_of_type ty (qf_name field)) as [s_field|]; cbn [ok_or res_bind]; [|by left].
    destruct (exec_get_named_type _ _) as [t|]; cbn [ok_or res_bind]; [|by left].
    pose proof (max_entities_u64 (qf_arguments field)) as Hm.
    eapply agrees_bind; [apply Hi| |]; intros C p HC; cbv zeta; cbn [fst snd];
      [|destruct (is_list_or_non_null_list_field s_field); apply exact_add_peak].
    destruct (is_list_or_non_null_list_field s_field); [by apply collection_agrees|].
    unfold agrees, exact_add. cbn [fst snd]. split; [lia|]. split; [lia|].
    rewrite wrap64_add_l, (Z.add_comm T), wrap64_add_l. f_equal. lia.
  - unfold get_fragment, unwrap. destruct (q_fragments q !! name) as [def|]; [|by left].
    cbn [res_bind]. destruct (exec_get_named_type _ _) as [t|]; [|by left]. apply Hsame.
  - destruct cond as [name|]; [|apply Hsame].
    destruct (exec_get_named_type _ _) as [t|]; [|by left]. apply Hsame.
Qed.

Lemma fold_agrees inner inner' ty T P set :
  (forall t set, agrees 0 (inner t set) (inner' t set)) -> (0 <= T <= P)%Z ->
  agrees P (fold_res (complexity_step q inner ty) (wrap64 T) set)
    (fold_res (exact_step inner' ty) (T, P) set).
Proof.
  intros Hi. revert T P. induction set as [|s set IH]; intros T P HT; [simpl; lia|].
  rewrite !fold_res_cons. pose proof (step_agrees inner inner' ty T P s Hi HT) as Hs.
  unfold agrees in Hs. destruct (exact_step inner' ty (T, P) s) as [[T' P']|x|] eqn:E;
    cbn [res_bind]; [|destruct Hs as [->| ->]; [by left|by right]..].
  destruct Hs as (HT' & HP & Hs). specialize (IH T' P' HT'). unfold agrees in *.
  destruct (complexity_step q inner ty (wrap64 T) s) as [c|[]|]; try done; cbn [res_bind].
  - subst. destruct (fold_res (exact_step inner' ty) (T', P') set) as [[e p]|x|]; [|done|done].
    destruct IH as (? & ? & ?). split; [done|]. split; [lia|done].
  - destruct (fold_res (exact_step inner' ty) (T', P') set) as [[e p]|x|]; [|by right|by right].
    lia.
Qed.

Lemma complexity_inner_agrees levels ty set :
  agrees 0 (complexity_inner q levels ty set) (exact_complexity levels ty set).
Proof.
  revert ty set. induction levels as [|levels IH]; intros ty set; [by left|].
  cbn [complexity_inner exact_complexity]. change 0%Z with (wrap64 0) at 2.
  apply fold_agrees; [exact IH|lia].
Qed.
End exact.

(** ** What is proved: validation *)
Section valid_sets.
Context (schema_id : SubgraphDeploymentId) (schema : Document).
Context (fragments : gmap string FragmentDefinition).

(** A selection set is valid on a type: every field exists and is of a known
    type, every fragment is defined and on a known type with fields, and so is
    what they select, where it selects something from an object or interface;
    nothing is empty.  Being inductive this also says that fragments do not go
    in circles. *)
Inductive valid_set : ObjectOrInterface -> SelectionSet -> Prop :=
| valid_all ty set :
    set <> [] \/ schema_id = SUBGRAPHS_ID -> Forall (valid_selection ty) set ->
    valid_set ty set
with valid_selection : ObjectOrInterface -> Selection -> Prop :=
| valid_leaf ty f s_field d :
    exec_get_field ty (qf_name f) = Some s_field ->
    exec_get_named_type schema (get_base_type (fd_field_type s_field)) = Some d ->
    exec_object_or_interface schema (get_base_type (fd_field_type s_field)) = None ->
    valid_selection ty (SField f)
| valid_field ty f s_field d ty' :
    exec_get_field ty (qf_name f) = Some s_field ->
    exec_get_named_type schema (get_base_type (fd_field_type s_field)) = Some d ->
    exec_object_or_interface schema (get_base_type (fd_field_type s_field)) = Some ty' ->
    valid_set ty' (qf_selection_set f) ->
    valid_selection ty (SField f)
| valid_spread ty name ds frag ty' :
    fragments !! name = Some frag ->
    exec_object_or_interface schema (fr_type_condition frag) = Some ty' ->
    valid_set ty' (fr_selection_set frag) ->
    valid_selection ty (SSpread name ds)
| valid_inline ty cond ds set ty' :
    exec_object_or_interface schema cond = Some ty' -> valid_set ty' set ->
    valid_selection ty (SInline (Some cond) ds set)
| valid_inline_plain ty ds set :
    valid_set ty set -> valid_selection ty (SInline None ds set).
End valid_sets.

Section valid.
Context (q : Query).
Notation schema := (q_schema q).
Notation fragments := (q_fragments q).
Notation valid_set := (valid_set (q_schema_id q) schema fragments).
Notation valid_selection := (valid_selection (q_schema_id q) schema fragments).

(** Running the loop over a set gives the errors of its selections in order. *)
Lemma validate_loop validate type_name ty set errors :
  fold_res (fun errors selection =>
      let? e := validate_selection q validate type_name ty selection in
      Ok (errors ++ e)) errors set
  = res_map (fun es => errors ++ mjoin es)
      (map_res (validate_selection q validate type_name ty) set).
Proof.
  revert errors. induction set as [|s set IH]; intros errors; [simpl; by rewrite app_nil_r|].
  rewrite fold_res_cons, map_res_cons.
  destruct (validate_selection q validate type_name ty s) as [e|e|]; [|done|done].
  cbn [res_bind]. rewrite IH. unfold res_map.
  destruct (map_res _ set); cbn [res_bind]; [|done|done]. simpl. by rewrite app_assoc.
Qed.

Lemma mjoin_nil_iff {A} (l : list (list A)) : mjoin l = [] <-> Forall (fun x => x = []) l.
Proof.
  induction l as [|x l IH]; simpl; [by split; [constructor|]|].
  change (mjoin (x :: l)) with (x ++ mjoin l). rewrite Forall_cons. split.
  - intros [-> H]%app_eq_nil. by rewrite <- IH.
  - intros [-> H]. by rewrite IH.
Qed.

Lemma validate_inner_ok fuel type_name ty set :
  validate_fields_inner q (S fuel) type_name ty set = Ok []
  <-> (set <> [] \/ q_schema_id q = SUBGRAPHS_ID)
      /\ Forall (fun s => validate_selection q (validate_fields_inner q fuel) type_name ty s = Ok [])
           set.
Proof.
  cbn [validate_fields_inner].
  destruct (bool_decide (length set = 0) && negb (String.eqb (q_schema_id q) SUBGRAPHS_ID)) eqn:E.
  - apply andb_true_iff in E as [E1%bool_decide_eq_true E2%negb_true_iff%String.eqb_neq].
    apply nil_length_inv in E1 as ->. split; [done|]. intros [[?|?] _]; congruence.
  - assert (Hne : set <> [] \/ q_schema_id q = SUBGRAPHS_ID).
    { apply andb_false_iff in E as [E%bool_decide_eq_false|E%negb_false_iff%String.eqb_eq];
        [left; by intros ->|by right]. }
    rewrite validate_loop. unfold res_map. split.
    + intros H. destruct (map_res _ set) as [es|[]|] eqn:Em; simpl in H; [|done].
      injection H as H. apply mjoin_nil_iff in H. apply map_res_Forall2 in Em. split; [done|].
      clear -H Em. induction Em as [|s e set es Hs Hm IH]; [constructor|].
      apply Forall_cons in H as [-> H]. constructor; auto.
    + intros [_ H]. rewrite (map_res_all_ok _ (fun _ => [])).
      * simpl. f_equal. apply mjoin_nil_iff, Forall_fmap, Forall_forall. done.
      * rewrite Forall_forall in H. exact H.
Qed.

Lemma validate_selection_sound validate type_name ty s :
  (forall type_name ty set, validate type_name ty set = Ok [] -> valid_set ty set) ->
  validate_selection q validate type_name ty s = Ok [] -> valid_selection ty s.
Proof.
  intros Hv H. destruct s as [f|name ds|[cond|] ds set]; cbn [validate_selection] in H.
  - destruct (exec_get_field ty (qf_name f)) as [s_field|] eqn:Ef; [|done].
    destruct (exec_get_named_type schema _) as [d|] eqn:Ed; [|done].
    destruct (exec_object_or_interface schema _) as [ty'|] eqn:Eo.
    + eapply valid_field; eauto.
    + by eapply valid_leaf.
  - destruct (fragments !! name) as [frag|] eqn:Ef; [|done]. unfold validate_named in H.
    destruct (exec_object_or_interface schema _) as [ty'|] eqn:Eo; [|done].
    eapply valid_spread; eauto.
  - unfold validate_named in H.
    destruct (exec_object_or_interface schema cond) as [ty'|] eqn:Eo; [|done].
    eapply valid_inline; eauto.
  - apply valid_inline_plain. eauto.
Qed.

Lemma validate_fields_inner_sound fuel type_name ty set :
  validate_fields_inner q fuel type_name ty set = Ok [] -> valid_set ty set.
Proof.
  revert type_name ty set. induction fuel as [|fuel IH]; intros type_name ty set H; [done|].
  apply validate_inner_ok in H as [Hne H]. constructor; [done|].
  eapply Forall_impl; [exact H|]. intros s Hs.
  eapply validate_selection_sound; [exact IH|exact Hs].
Qed.

(** Enough fuel for a set, for a selection. *)
Definition set_done (n : nat) (ty : ObjectOrInterface) (set : SelectionSet) : Prop :=
  forall fuel type_name, n <= fuel -> validate_fields_inner q fuel type_name ty set = Ok [].
Definition selection_done (n : nat) (ty : ObjectOrInterface) (s : Selection) : Prop :=
  forall fuel type_name, n <= fuel ->
    validate_selection q (validate_fields_inner q fuel) type_name ty s = Ok [].

Lemma Forall_selection_done ty set :
  Forall (fun s => exists n, selection_done n ty s) set ->
  exists n, Forall (selection_done n ty) set.
Proof.
  induction 1 as [|s set [n Hn] _ [m Hm]]; [by exists 0|]. exists (n `max` m). constructor.
  - intros fuel tn Hf. apply Hn. lia.
  - eapply Forall_impl; [exact Hm|]. intros s' Hs' fuel tn Hf. apply Hs'. lia.
Qed.

Lemma valid_set_done ty set (H : valid_set ty set) : exists n, set_done n ty set
with valid_selection_done ty s (H : valid_selection ty s) : exists n, selection_done n ty s.
Proof.
  - destruct H as [ty set Hne H].
    assert (exists n, Forall (selection_done n ty) set) as [n Hn].
    { apply Forall_selection_done. clear Hne.
      induction H as [|s set Hs H IH]; constructor; [by apply valid_selection_done|exact IH]. }
    exists (S n). intros [|fuel] tn Hf; [lia|]. apply validate_inner_ok. split; [done|].
    eapply Forall_impl; [exact Hn|]. intros s Hs. apply Hs. lia.
  - destruct H as [ty f s_field d H1 H2 H3|ty f s_field d ty' H1 H2 H3 H4|ty name ds frag ty' H1 H2 H3
                  |ty cond ds set ty' H1 H2|ty ds set H1].
    + exists 0. intros fuel tn _. cbn [validate_selection]. by rewrite H1, H2, H3.
    + destruct (valid_set_done _ _ H4) as [n Hn]. exists n. intros fuel tn Hf.
      cbn [validate_selection]. rewrite H1, H2, H3. by apply Hn.
    + destruct (valid_set_done _ _ H3) as [n Hn]. exists n. intros fuel tn Hf.
      cbn [validate_selection]. rewrite H1. unfold validate_named. rewrite H2. by apply Hn.
    + destruct (valid_set_done _ _ H2) as [n Hn]. exists n. intros fuel tn Hf.
      cbn [validate_selection]. unfold validate_named. rewrite H1. by apply Hn.
    + destruct (valid_set_done _ _ H1) as [n Hn]. exists n. intros fuel tn Hf. by apply Hn.
Qed.

(** *** Fragments that go in circles *)
Definition spread_of (name : string) (set : SelectionSet) : Prop :=
  exists ds, SSpread name ds ∈ set.

Lemma map_res_panic {E A B} (f : A -> res E B) l x :
  x ∈ l -> f x = Panic -> (forall y, y ∈ l -> forall e, f y <> Err e) -> map_res f l = Panic.
Proof.
  intros Hx Hp. induction l as [|y l IH]; intros He; [by apply elem_of_nil in Hx|].
  rewrite map_res_cons. pose proof (He y ltac:(left)) as Hy.
  destruct (f y) as [b|e|] eqn:Ef; [|by destruct (Hy e)|done]. cbn [res_bind].
  apply elem_of_cons in Hx as [->|Hx]; [congruence|].
  rewrite IH; [done|done|]. intros z Hz. apply He. by right.
Qed.

Lemma validate_circular fuel (names : gset string) :
  (forall name, name ∈ names -> exists frag ty next, fragments !! name = Some frag
     /\ exec_object_or_interface schema (fr_type_condition frag) = Some ty
     /\ next ∈ names /\ spread_of next (fr_selection_set frag)) ->
  forall name type_name ty set, name ∈ names -> spread_of name set ->
    validate_fields_inner q fuel type_name ty set = Panic.
Proof.
  intros Hc. induction fuel as [|fuel IH]; intros name type_name ty set Hn [ds Hs]; [done|].
  cbn [validate_fields_inner]. rewrite bool_decide_false, validate_loop by (destruct set; [by apply elem_of_nil in Hs|done]).
  cbn [andb]. unfold res_map. rewrite (map_res_panic _ _ (SSpread name ds)); [done|done| |by intros ? _ []].
  destruct (Hc name Hn) as (frag & ty' & next & H1 & H2 & H3 & H4).
  cbn [validate_selection]. rewrite H1. unfold validate_named. rewrite H2. by apply (IH next).
Qed.
End valid.

(** ** What is proved: block constraints *)
Section constraints.
Context (h256_from_str : string -> option H256) (vars : Variables).
Notation constraint_of f := (field_block_constraint h256_from_str f vars).

Definition constraint_is (bc : BlockConstraint) (f : QField) : bool :=
  match constraint_of f with Ok bc' => bool_decide (bc = bc') | _ => false end.

Definition constraint_error (f : QField) : option QueryExecutionError :=
  match constraint_of f with Err e => Some e | _ => None end.

Lemma constraint_never_panics f : constraint_of f <> Panic.
Proof.
  unfold field_block_constraint. destruct (get_argument_value _ _) as [v|]; [|done].
  assert (Hl : forall v, lookup_value v vars (qf_position f) <> Panic).
  { intros w. destruct w; simpl; try done. by destruct (vars !! name). }
  pose proof (Hl v). destruct (lookup_value v vars _) as [w| |]; try done. cbn [res_bind].
  destruct w as [| | | | | | | |map]; try done. case_match; [done|].
  destruct (object_get map "hash") as [h|].
  - pose proof (Hl h). destruct (lookup_value h vars _) as [w| |]; try done. cbn [res_bind].
    by destruct (h256_try_from_value h256_from_str w).
  - destruct (object_get map "number") as [n|]; [|done].
    pose proof (Hl n). destruct (lookup_value n vars _) as [w| |]; try done. cbn [res_bind].
    destruct (u64_try_from_value w) as [z|]; [|done]. cbn [ok_or res_bind].
    by destruct (block_number_try_from z).
Qed.

Definition key_in (bc : BlockConstraint) (bcs : list (BlockConstraint * SelectionSet)) : Prop :=
  bc ∈ bcs.*1.

Lemma push_keys bc f bcs bc' :
  bc' ∈ (push_constraint bc f bcs).*1 <-> bc' = bc \/ bc' ∈ bcs.*1.
Proof.
  induction bcs as [|[b items] bcs IH]; cbn [push_constraint]; [cbn; set_solver|].
  case_decide; cbn [fmap list_fmap fst]; rewrite !elem_of_cons; [naive_solver|].
  rewrite IH. naive_solver.
Qed.

Lemma push_NoDup bc f bcs : NoDup bcs.*1 -> NoDup (push_constraint bc f bcs).*1.
Proof.
  induction bcs as [|[b items] bcs IH]; cbn [push_constraint]; intros H.
  { cbn. apply NoDup_singleton. }
  cbn [fmap list_fmap fst] in H. apply NoDup_cons in H as [Hb H].
  case_decide; cbn [fmap list_fmap fst]; apply NoDup_cons; (split; [|by auto]); [done|].
  rewrite push_keys. naive_solver.
Qed.

Lemma push_elem bc f bcs bc' items' :
  NoDup bcs.*1 -> (bc', items') ∈ push_constraint bc f bcs ->
  (bc' <> bc /\ (bc', items') ∈ bcs)
  \/ (bc' = bc /\ ((exists items, (bc, items) ∈ bcs /\ items' = items ++ [SField f])
                   \/ (bc ∉ bcs.*1 /\ items' = [SField f]))).
Proof.
  induction bcs as [|[b items] bcs IH]; cbn [push_constraint]; intros Hnd H.
  { apply list_elem_of_singleton in H. injection H as -> ->. right. split; [done|]. right.
    split; [apply not_elem_of_nil|done]. }
  cbn [fmap list_fmap fst] in Hnd |- *. apply NoDup_cons in Hnd as [Hb Hnd].
  case_decide as Hd; apply elem_of_cons in H as [H|H].
  - simplify_eq. right. split; [done|]. left. exists items. split; [left|done].
  - subst b. left. split; [|by right]. intros ->. apply Hb. by apply (list_elem_of_fmap_2 fst _ (bc, items')).
  - simplify_eq. left. split; [by intros ->|left].
  - destruct (IH Hnd H) as [[? ?]|[-> [(it & ? & ?)|[? ?]]]].
    + left. split; [done|by right].
    + right. split; [done|]. left. exists it. split; [by right|done].
    + right. split; [done|]. right. split; [|done]. by apply not_elem_of_cons.
Qed.

(** What the loop has built from the fields [l]. *)
Definition grouped (l : list QField) (bcs : list (BlockConstraint * SelectionSet)) : Prop :=
  NoDup bcs.*1
  /\ (forall bc items, (bc, items) ∈ bcs ->
        items = SField <$> filter (fun f => constraint_is bc f) l /\ items <> [])
  /\ (forall f bc, f ∈ l -> constraint_of f = Ok bc -> bc ∈ bcs.*1).

Lemma constraint_is_true bc f : constraint_is bc f = true <-> constraint_of f = Ok bc.
Proof.
  unfold constraint_is. destruct (constraint_of f); [|done|done].
  rewrite bool_decide_eq_true. naive_solver.
Qed.

Lemma grouped_push l bcs f bc :
  grouped l bcs -> constraint_of f = Ok bc -> grouped (l ++ [f]) (push_constraint bc f bcs).
Proof.
  intros (H1 & H2 & H3) Hf. split; [by apply push_NoDup|]. split.
  - intros bc' items Hin.
    destruct (push_elem _ _ _ _ _ H1 Hin) as [[Hne Hin']|[-> [(it & Hin' & ->)|[Hno ->]]]];
      rewrite filter_app, filter_cons, filter_nil.
    + rewrite decide_False, app_nil_r; [by apply H2|].
      rewrite Is_true_true, constraint_is_true. congruence.
    + rewrite decide_True by (rewrite Is_true_true; by apply constraint_is_true).
      rewrite fmap_app. destruct (H2 _ _ Hin') as [<- ?]. split; [done|]. by destruct it.
    + rewrite decide_True by (rewrite Is_true_true; by apply constraint_is_true).
      rewrite filter_none; [done|]. intros g Hg. rewrite Is_true_true, constraint_is_true.
      intros Hc. by apply Hno, (H3 g).
  - intros g bc' Hg Hc. rewrite push_keys. apply elem_of_app in Hg as [Hg|Hg].
    + right. by apply (H3 g).
    + apply list_elem_of_singleton in Hg as ->. left. congruence.
Qed.

Lemma grouped_skip l bcs f : grouped l bcs -> is_ok (constraint_of f) = false -> grouped (l ++ [f]) bcs.
Proof.
  intros (H1 & H2 & H3) Hf. split; [done|]. split.
  - intros bc items Hin. rewrite filter_app, filter_cons, filter_nil, decide_False, app_nil_r;
      [by apply H2|]. revert Hf. unfold constraint_is.
    destruct (constraint_of f); simpl; [done|tauto|tauto].
  - intros g bc Hg Hc. apply elem_of_app in Hg as [Hg|Hg]; [by apply (H3 g)|].
    apply list_elem_of_singleton in Hg as ->. by rewrite Hc in Hf.
Qed.

Lemma block_constraint_loop l :
  exists bcs, foldl (block_constraint_step h256_from_str vars) ([], []) l
              = (bcs, omap constraint_error l) /\ grouped l bcs.
Proof.
  induction l as [|f l IH] using rev_ind.
  { exists []. split; [done|]. split; [apply NoDup_nil_2|]. split; [by intros ? ? ?%elem_of_nil|].
    by intros ? ? ?%elem_of_nil. }
  destruct IH as (bcs & IH & Hg). rewrite foldl_app, IH, omap_app. cbn [foldl].
  unfold block_constraint_step. pose proof (constraint_never_panics f) as Hp.
  assert (omap constraint_error [f] = match constraint_of f with Err e => [e] | _ => [] end) as ->.
  { rewrite omap_cons_eq. unfold constraint_error. by destruct (constraint_of f). }
  destruct (constraint_of f) as [bc|e|] eqn:E; [| |done].
  - exists (push_constraint bc f bcs). rewrite app_nil_r. split; [done|by apply grouped_push].
  - exists bcs. split; [done|]. apply grouped_skip; [done|by rewrite E].
Qed.
End constraints.

(** ** Properties *)

(** C14: The complexity the code computes is the exact complexity (every
    collection counts its [first] items with all their children) whenever no
    complexity met on the way reaches 2^64.  Otherwise it is an overflow error
    or the exact complexity modulo 2^64. *)
Theorem query_complexity_exact q max_depth root :
  get_root_query_type_def (q_schema q) = Some root ->
  match exact_complexity q max_depth root (q_selection_set q) with
  | Ok (e, p) =>
      ((p < 2 ^ 64)%Z -> complexity q max_depth = Ok e)
      /\ (complexity q max_depth = Ok (wrap64 e)
          \/ complexity q max_depth = Err (TooComplex u64_max 0) /\ (2 ^ 64 <= p)%Z)
  | Err CTooDeep =>
      complexity q max_depth = Err (TooDeep (Z.of_nat max_depth))
      \/ complexity q max_depth = Err (TooComplex u64_max 0)
  | Err _ =>
      complexity q max_depth = Ok 0%Z \/ complexity q max_depth = Err (TooComplex u64_max 0)
  | Panic =>
      complexity q max_depth = Panic \/ complexity q max_depth = Err (TooComplex u64_max 0)
  end.
Proof.
  intros Hr. unfold complexity. rewrite Hr. cbn [unwrap res_bind].
  pose proof (complexity_inner_agrees q max_depth root (q_selection_set q)) as H. unfold agrees in H.
  destruct (exact_complexity q max_depth root (q_selection_set q)) as [[e p]|x|].
  - destruct H as (He & _ & Hc).
    destruct (complexity_inner _ _ _ _) as [c|[]|]; try done.
    + subst c. split; [|by left]. intros Hp. f_equal. apply wrap64_small. unfold is_u64. lia.
    + split; [lia|by right].
  - destruct H as [->| ->]; destruct x; auto.
  - destruct H as [->| ->]; auto.
Qed.

(** C19: Validation succeeds, for all fuel from some point on, exactly on the
    selection sets that are valid on the root query type: all fields and
    fragments exist on the types they are selected on, down to the leaves,
    nothing is empty and fragments do not go in circles. *)
Theorem validation_exact q root :
  get_root_query_type (q_schema q) = Some root ->
  (exists n, forall fuel, n <= fuel -> validate_fields q fuel = Ok ())
  <-> valid_set (q_schema_id q) (q_schema q) (q_fragments q) (OIObject root) (q_selection_set q).
Proof.
  intros Hr. unfold validate_fields. rewrite Hr. cbn [unwrap res_bind]. split.
  - intros [n Hn]. specialize (Hn n ltac:(lia)).
    destruct (validate_fields_inner _ _ _ _ _) as [[|e es]|[]|] eqn:E; try done.
    by eapply validate_fields_inner_sound.
  - intros H. destruct (valid_set_done q _ _ H) as [n Hn]. exists n. intros fuel Hf.
    by rewrite (Hn fuel).
Qed.

(** Fragments that spread each other in a circle are not rejected: the
    validation of a query that spreads one of them does not end, whatever the
    fuel. *)
Lemma circular_fragments_never_validate q root names name fuel :
  get_root_query_type (q_schema q) = Some root ->
  (forall name, name ∈ (names : gset string) -> exists frag ty next,
     q_fragments q !! name = Some frag
     /\ exec_object_or_interface (q_schema q) (fr_type_condition frag) = Some ty
     /\ next ∈ names /\ spread_of next (fr_selection_set frag)) ->
  name ∈ names -> spread_of name (q_selection_set q) ->
  validate_fields q fuel = Panic.
Proof.
  intros Hr Hc Hn Hs. unfold validate_fields. rewrite Hr. cbn [unwrap res_bind].
  by rewrite (validate_circular q fuel names Hc name).
Qed.

Lemma definitions_loop document op fragments op' fragments' :
  fold_res definition_step (op, fragments) document = Ok (op', fragments') ->
  option_list op ++ get_operations document = option_list op'.
Proof.
  revert op fragments. induction document as [|d document IH]; intros op fragments H.
  { simpl in H. simplify_eq. by rewrite app_nil_r. }
  rewrite fold_res_cons in H. unfold get_operations. rewrite omap_cons_eq.
  destruct d as [o|f]; cbn [definition_step] in H.
  - destruct op as [o'|]; [done|]. cbn [res_bind] in H. by rewrite <- (IH _ _ H).
  - cbn [res_bind] in H. by rewrite <- (IH _ _ H).
Qed.

Lemma check_complexity_ok q max_complexity max_depth q' :
  check_complexity q max_complexity max_depth = Ok q' ->
  exists c, q' = set_complexity q c
    /\ match max_complexity with
       | Some m => complexity q max_depth = Ok c /\ (c <= m)%Z
       | None => c = q_complexity q
       end.
Proof.
  unfold check_complexity. destruct max_complexity as [m|].
  - destruct (complexity q max_depth) as [c|e|]; cbn [map_err res_bind]; try done.
    case_bool_decide; [done|]. intros [= <-]. exists c. split; [done|]. split; [done|lia].
  - intros [= <-]. exists (q_complexity q). by destruct q.
Qed.

Lemma validate_fields_ok q fuel root :
  get_root_query_type (q_schema q) = Some root -> validate_fields q fuel = Ok () ->
  valid_set (q_schema_id q) (q_schema q) (q_fragments q) (OIObject root) (q_selection_set q).
Proof.
  intros Hr. unfold validate_fields. rewrite Hr. cbn [unwrap res_bind].
  destruct (validate_fields_inner _ _ _ _ _) as [[|e es]|[]|] eqn:E; try done. intros _.
  by eapply validate_fields_inner_sound.
Qed.

(** The operation of a document that a query of this kind with this selection set
    stands for; there is none for a mutation. *)
Definition stands_for (q : Query) (op : OperationDefinition) : Prop :=
  match op with
  | OpQuery _ _ set | OpSelectionSet set =>
      is_query q = true /\ is_subscription q = false /\ q_selection_set q = set
  | OpSubscription _ _ set =>
      is_subscription q = true /\ is_query q = false /\ q_selection_set q = set
  | OpMutation _ _ _ => False
  end.

(** The fragments of the document, by their names. *)
Definition fragments_of (document : list QDefinition) (fragments : gmap string FragmentDefinition) : Prop :=
  (forall name frag, fragments !! name = Some frag -> Fragment frag ∈ document /\ fr_name frag = name)
  /\ forall frag, Fragment frag ∈ document -> is_Some (fragments !! fr_name frag).

Lemma definitions_fragments document op fragments op' fragments' :
  fold_res definition_step (op, fragments) document = Ok (op', fragments') ->
  (forall name frag, fragments' !! name = Some frag ->
     fragments !! name = Some frag \/ Fragment frag ∈ document /\ fr_name frag = name)
  /\ (forall name, is_Some (fragments !! name) -> is_Some (fragments' !! name))
  /\ forall frag, Fragment frag ∈ document -> is_Some (fragments' !! fr_name frag).
Proof.
  revert op fragments. induction document as [|d document IH]; intros op fragments H.
  { simpl in H. simplify_eq. split_and!; [by left|done|by intros ? ?%elem_of_nil]. }
  rewrite fold_res_cons in H. destruct d as [o|f]; cbn [definition_step] in H.
  - destruct op; [done|]. destruct (IH _ _ H) as (H1 & H2 & H3). split_and!; [|done|].
    + intros name frag [?|[? ?]]%H1; [by left|right]. split; [by right|done].
    + intros frag [[=]|Hin]%elem_of_cons. by apply H3.
  - destruct (IH _ _ H) as (H1 & H2 & H3). split_and!.
    + intros name frag [[[<- <-]|[_ ?]]%lookup_insert_Some|[? ?]]%H1; [|by left|]; right; set_solver.
    + intros name Hn. apply H2. destruct (decide (fr_name f = name)) as [<-|Hne];
        [by rewrite lookup_insert_eq|by rewrite lookup_insert_ne].
    + intros frag [[= ->]|Hin]%elem_of_cons; [|by apply H3]. apply H2. by rewrite lookup_insert_eq.
Qed.

(** C33: A query that has been prepared is fit to be run: its document has one
    operation, a query or a subscription (a mutation is refused), whose kind and
    selection set it has; its fragments are those of the document; its variables
    conform to the types they are declared with, its selection set is valid on the
    root query type with the fragments, and the complexity it was found to have is
    within the limit. *)
Theorem prepared_query_is_sound float_to_string fuel id schema document variables network
    max_complexity max_depth q :
  query_new float_to_string fuel id schema document variables network max_complexity max_depth
  = Ok q ->
  exists op root, get_operations document = [op]
    /\ get_root_query_type schema = Some root
    /\ stands_for q op /\ fragments_of document (q_fragments q)
    /\ (NoDup (vd_name <$> default [] (get_variable_definitions op)) ->
        forall d, d ∈ default [] (get_variable_definitions op) ->
          variable_ok float_to_string schema fuel (default ∅ variables) d
            (q_variables q !! vd_name d))
    /\ valid_set id schema (q_fragments q) (OIObject root) (q_selection_set q)
    /\ match max_complexity with
       | Some m => complexity q max_depth = Ok (q_complexity q) /\ (q_complexity q <= m)%Z
       | None => True
       end.
Proof.
  intros H. unfold query_new in H.
  destruct (fold_res definition_step _ document) as [[op fragments]| |] eqn:Eo;
    cbn [res_bind] in H; try done.
  destruct (definitions_fragments _ _ _ _ _ Eo) as (Hf1 & _ & Hf2).
  apply definitions_loop in Eo. destruct op as [op|]; cbn [ok_or res_bind] in H; [|done].
  destruct (coerce_variables _ _ _ _ _) as [vars| |] eqn:Ev; cbn [res_bind] in H; try done.
  destruct (kind_of_operation op) as [[k set]| |] eqn:Ek; cbn [res_bind] in H; try done.
  set (q0 := mk_query_struct id schema vars set network fragments k 0) in *.
  destruct (validate_fields q0 fuel) as [[]| |] eqn:Eval; cbn [res_bind] in H; try done.
  destruct (get_root_query_type schema) as [root|] eqn:Er;
    [|by unfold validate_fields in Eval; change (q_schema q0) with schema in Eval; rewrite Er in Eval].
  apply (validate_fields_ok q0 fuel root Er) in Eval.
  apply check_complexity_ok in H as (c & -> & Hc).
  exists op, root. split; [done|]. split; [done|].
  split; [by destruct op; simplify_eq/=|].
  split; [split; [intros name frag [?|?]%Hf1; [by rewrite lookup_empty in *|done]|exact Hf2]|].
  split; [|split; [exact Eval|by destruct max_complexity]].
  intros Hnd. by apply (coerce_variables_ok _ _ _ _ _ _ Hnd Ev).
Qed.

(** A query is split by block constraint into disjoint parts: every
    constraint comes once, with exactly the top-level fields that have it, in
    order, and every field is in a part; if constraints are wrong the errors
    are those of the fields, in order.  Fragments at the top level are not
    looked into: a query of nothing else has no parts at all. *)
Lemma block_constraints_partition h256_from_str q :
  match query_block_constraint h256_from_str q with
  | Ok parts =>
      NoDup parts.*1
      /\ (forall bc items, (bc, items) ∈ parts ->
            items = SField <$> filter (fun f => constraint_is h256_from_str (q_variables q) bc f)
                                 (selection_fields (q_selection_set q))
            /\ items <> [])
      /\ (forall f, f ∈ selection_fields (q_selection_set q) -> exists bc,
            field_block_constraint h256_from_str f (q_variables q) = Ok bc /\ bc ∈ parts.*1)
      /\ (parts = [] <-> selection_fields (q_selection_set q) = [])
  | Err errors =>
      errors = omap (constraint_error h256_from_str (q_variables q))
                 (selection_fields (q_selection_set q)) /\ errors <> []
  | Panic => False
  end.
Proof.
  unfold query_block_constraint.
  destruct (block_constraint_loop h256_from_str (q_variables q)
              (selection_fields (q_selection_set q))) as (parts & -> & Hnd & Hin & Hall).
  set (fields := selection_fields (q_selection_set q)) in *.
  destruct (omap _ fields) as [|e es] eqn:Ee; [|done].
  split; [done|]. split; [done|].
  assert (Hf : forall f, f ∈ fields -> exists bc,
            field_block_constraint h256_from_str f (q_variables q) = Ok bc /\ bc ∈ parts.*1).
  { intros f Hf. destruct (field_block_constraint h256_from_str f (q_variables q)) as [bc|e|] eqn:E.
    - exists bc. split; [done|]. by apply (Hall f).
    - assert (e ∈ omap (constraint_error h256_from_str (q_variables q)) fields) as He.
      { apply list_elem_of_omap. exists f. unfold constraint_error. by rewrite E. }
      rewrite Ee in He. by apply elem_of_nil in He.
    - by apply constraint_never_panics in E. }
  split; [exact Hf|]. split.
  - intros ->. destruct fields as [|f fields']; [done|].
    destruct (Hf f ltac:(left)) as (bc & _ & H). by apply elem_of_nil in H.
  - intros Hnil. destruct parts as [|[bc items] parts]; [done|].
    destruct (Hin bc items ltac:(left)) as [-> Hne]. by rewrite Hnil in Hne.
Qed.

Module Witness.
#[local] Open Scope Z_scope.
Definition p0 : Pos := mk_Pos 0 0.
Definition id_field : Field := mk_field "id" [] (NonNullType (NamedType "ID")) [].
Definition Thing : ObjectType :=
    mk_object_type "Thing" [] []
      [id_field; mk_field "next" [] (NamedType "Thing") [];
       mk_field "many" [] (ListType (NamedType "Thing")) []].
Definition Root : ObjectType :=
    mk_object_type "Query" [] []
      [mk_field "thing" [] (NamedType "Thing") [];
       mk_field "things" [] (NonNullType (ListType (NamedType "Thing"))) []].
Definition schema : Document :=
    [TypeDef (TDScalar (mk_scalar_type "ID" [])); TypeDef (TDObject Thing); TypeDef (TDObject Root)].
Definition leaf : Selection := SField (mk_qfield p0 None "id" [] [] []).
Definition sel (name : string) (args : list (string * qvalue)) (set : SelectionSet) : Selection :=
    SField (mk_qfield p0 None name args [] set).
Definition query (set : SelectionSet) (fragments : gmap string FragmentDefinition) : Query :=
    mk_query_struct "sub" schema ∅ set None fragments KQuery 0.

Definition plain_query : Query :=
    query [sel "things" [("first", QInt 5)] [leaf; sel "next" [] [sel "many" [] [leaf]]]] ∅.

(** Two collections of 2^63 under single fields: the sum wraps to 0. *)
Definition half : list (string * qvalue) := [("first", QInt (- 2 ^ 63))].
Definition big_query : Query :=
    query [sel "thing" [] [sel "many" half [leaf]]; sel "thing" [] [sel "many" half [leaf]]] ∅.

(** Honest arguments do it as well: 10 collections of 4 * 10^18. *)
Definition deep : Selection :=
    sel "thing" [] [sel "many" [("first", QInt 1000)] [sel "many" [("first", QInt 1000)]
      [sel "many" [("first", QInt 1000)] [sel "many" [("first", QInt 1000)]
      [sel "many" [("first", QInt 1000)] [sel "many" [("first", QInt 1000)] [leaf]]]]]]].

Example complexity_wraps :
    complexity big_query 10 = Ok 0
    /\ exact_complexity big_query 10 (TDObject Root) (q_selection_set big_query)
       = Ok (2 ^ 64, 2 ^ 64).
Proof. split; reflexivity. Qed.

Example complexity_wraps_19 :
    complexity (query (replicate 19 deep) ∅) 10
    = Ok (wrap64 (19 * (1000 + 1000 * (1000 + 1000 * (1000 + 1000 * (1000 + 1000 * (1000 + 1000 * 1000))))))).
Proof. vm_compute. reflexivity. Qed.

(** The complexity does not look at variables: this query counts as 100. *)
Example variable_first_counts_100 :
    complexity (mk_query_struct "sub" schema {["n" := QInt 1000]}
      [sel "things" [("first", QVariable "n")] [leaf]] None ∅ KQuery 0) 10 = Ok 100.
Proof. reflexivity. Qed.

Lemma query_complexity_exact_witness : complexity plain_query 10 = Ok 505.
Proof.
    pose proof (query_complexity_exact plain_query 10 (TDObject Root) eq_refl) as H.
    vm_compute in H. destruct H as [H _]. by apply H.
Defined.

Definition circle : gmap string FragmentDefinition :=
    {["A" := mk_fragment "A" "Thing" [SSpread "B" []]; "B" := mk_fragment "B" "Thing" [SSpread "A" []]]}.
Definition circular : Query := query [sel "thing" [] [leaf]; SSpread "A" []] circle.

Lemma validation_exact_witness :
    valid_set "sub" schema ∅ (OIObject Root) (q_selection_set plain_query).
Proof.
    apply (validation_exact plain_query Root eq_refl). exists 10%nat. intros fuel Hf.
    destruct (Nat.le_exists_sub 10 fuel Hf) as (k & -> & _).
    by rewrite Nat.add_comm.
Defined.

Lemma circular_fragments_never_validate_witness :
    validate_fields circular 1000 = Panic.
Proof.
    apply (circular_fragments_never_validate circular Root {["A"; "B"]} "A" 1000 eq_refl).
    - intros name [->%elem_of_singleton| ->%elem_of_singleton]%elem_of_union.
      + exists (mk_fragment "A" "Thing" [SSpread "B" []]), (OIObject Thing), "B".
        split; [reflexivity|]. split; [reflexivity|]. split; [set_solver|]. exists []. left.
      + exists (mk_fragment "B" "Thing" [SSpread "A" []]), (OIObject Thing), "A".
        split; [reflexivity|]. split; [reflexivity|]. split; [set_solver|]. exists []. left.
    - set_solver.
    - exists []. right. left.
Defined.

Lemma prepared_query_is_sound_witness :
    exists q, query_new (fun _ => "") 20 "sub" schema
        [Operation (OpSelectionSet (q_selection_set plain_query))] None None (Some 1000) 10 = Ok q
      /\ complexity q 10 = Ok (q_complexity q).
Proof.
    destruct (query_new (fun _ => "") 20 "sub" schema
        [Operation (OpSelectionSet (q_selection_set plain_query))] None None (Some 1000) 10)
      as [q| |] eqn:E; [|vm_compute in E; discriminate E|vm_compute in E; discriminate E].
    exists q. split; [done|].
    by destruct (prepared_query_is_sound _ _ _ _ _ _ _ _ _ _ E) as (op & root & _ & _ & _ & _ & _ & _ & Hc & _).
Defined.

Definition hidden : Query := query [sel "thing" [] [sel "id" [] [SSpread "Nope" []]]] ∅.
End Witness.

(** The selection set of a scalar field is not validated: a query that
    spreads an undefined fragment there passes the validation, and computing
    its complexity panics on the fragment. *)
Lemma undefined_fragment_panics :
  validate_fields Witness.hidden 10 = Ok () /\ complexity Witness.hidden 255 = Panic.
Proof. split; vm_compute; reflexivity. Qed.

(** A query whose top level is a fragment is valid, but has no parts. *)
Example fragments_only_query :
  let q := Witness.query [SSpread "F" []]
             {["F" := mk_fragment "F" "Query" [Witness.sel "thing" [] [Witness.leaf]]]} in
  validate_fields q 10 = Ok () /\ query_block_constraint (fun _ => None) q = Ok [].
Proof. split; vm_compute; reflexivity. Qed.
