(* ===== verification/QueryBuild.v ===== *)
(** * From GraphQL arguments to store queries

    Models [graphql/src/store/query.rs]: [build_query] with the range, filter
    and order it makes of the coerced arguments of a field, the subgraph of an
    entity type and the entities a query field involves.

    Arguments are those [Coercion.coerce_argument_values] gives.  The [Number]
    of a [QInt] is an [i64], so that [as_i64] succeeds. *)

From stdpp Require Import prelude list strings gmap pretty.
From Stdlib Require Import ZArith Lia.
From S2P Require Import Prelude.
From S2P Require Import GraphqlTypes.
From S2P Require Import StoreValue.
From S2P Require Import StoreQuery.
From S2P Require Import GraphqlSchema.
From S2P Require Import Coercion.
From S2P Require Import GraphqlQuery.

#[local] Open Scope string_scope.
#[local] Open Scope list_scope.

Inductive OrderDirection := DirAscending | DirDescending.

(** ** Ranges *)
Definition range_argument (value : option qvalue) (name : string) (dflt lo hi : Z)
  : res Empty_set (Z + string) :=
  match value with
  | Some (QInt n) =>
      Ok (if bool_decide (lo <= n)%Z && bool_decide (n <= hi)%Z then inl n else inr name)
  | Some QNull | None => Ok (inl dflt)
  | Some _ => Panic
  end.

Definition build_range (arguments : Variables) (max_first max_skip : Z) : qres EntityRange :=
  let? first := lift_panic (range_argument (arguments !! "first") "first" 100 1 max_first) in
  let? skip := lift_panic (range_argument (arguments !! "skip") "skip" 0 0 max_skip) in
  match first, skip with
  | inl first, inl skip => Ok (mk_range (Some first) skip)
  | _, _ =>
      Err (RangeArgumentsError
             (omap (fun r : Z + string => match r with inl _ => None | inr e => Some e end)
                [first; skip]) max_first)
  end.

(** ** Subgraph ids *)
Definition parse_subgraph_id (entity : ObjectOrInterface) : qres SubgraphDeploymentId :=
  let id :=
    d ← find_directive (oi_directives entity) "subgraphId";
    v ← get_argument_value (dir_arguments d) "id";
    match v with QString id => Some id | _ => None end in
  match (let? id := ok_or id () in map_err (fun _ => ()) (SubgraphDeploymentId_new id)) with
  | Ok id => Ok id
  | Err _ => Err (SubgraphDeploymentIdError (oi_name entity))
  | Panic => Panic
  end.

Section build.
Context {ST : ScalarText}.
(** The normalising constructor of [BigDecimal]. *)
Context (normalize : BigDecimal -> BigDecimal).

(** [Display for Value] *)
Fixpoint Value_to_string (v : Value) : string :=
  match v with
  | VString s => s
  | VInt i => pretty i
  | VBigDecimal d => bigdecimal_to_string d
  | VBool b => if b then "true" else "false"
  | VNull => "null"
  | VList values => "[" +:+ String.concat ", " (Value_to_string <$> values) +:+ "]"
  | VBytes b => Bytes_to_string b
  | VBigInt n => bigint_to_string n
  end.

(** [std::mem::discriminant] *)
Definition discriminant (v : Value) : nat :=
  match v with
  | VString _ => 0 | VInt _ => 1 | VBigDecimal _ => 2 | VBool _ => 3
  | VList _ => 4 | VNull => 5 | VBytes _ => 6 | VBigInt _ => 7
  end.

(** ** Filters *)
Definition list_values (value : Value) (filter_type : string) : qres (list Value) :=
  match value with
  | VList ((root :: _) as values) =>
      map_res (fun value =>
        if bool_decide (discriminant root = discriminant value) then Ok value
        else Err (ListTypesError filter_type [Value_to_string root; Value_to_string value])) values
  | VList [] => Ok []
  | _ => Err (ListFilterError filter_type)
  end.

Definition entity_filter (op : FilterOp) (field_name : string) (store_value : Value)
  : qres EntityFilter :=
  match op with
  | OpNot => Ok (FNot field_name store_value)
  | OpGreaterThan => Ok (FGreaterThan field_name store_value)
  | OpLessThan => Ok (FLessThan field_name store_value)
  | OpGreaterOrEqual => Ok (FGreaterOrEqual field_name store_value)
  | OpLessOrEqual => Ok (FLessOrEqual field_name store_value)
  | OpIn => res_map (FIn field_name) (list_values store_value "_in")
  | OpNotIn => res_map (FNotIn field_name) (list_values store_value "_not_in")
  | OpContains => Ok (FContains field_name store_value)
  | OpNotContains => Ok (FNotContains field_name store_value)
  | OpStartsWith => Ok (FStartsWith field_name store_value)
  | OpNotStartsWith => Ok (FNotStartsWith field_name store_value)
  | OpEndsWith => Ok (FEndsWith field_name store_value)
  | OpNotEndsWith => Ok (FNotEndsWith field_name store_value)
  | OpEqual => Ok (FEqual field_name store_value)
  end.

(** One entry of the [where] object. *)
Definition build_filter_entry (entity : ObjectOrInterface) (entry : string * qvalue)
  : qres EntityFilter :=
  let '(key, value) := entry in
  let '(field_name, op) := parse_field_as_filter key in
  let? field := ok_or (get_field entity field_name)
                  (EntityFieldError (oi_name entity) field_name) in
  let? store_value := from_query_value normalize value (fd_field_type field) in
  entity_filter op field_name store_value.

Definition build_filter_from_object (entity : ObjectOrInterface) (object : list (string * qvalue))
  : qres (option EntityFilter) :=
  res_map (fun filters => Some (FAnd filters)) (map_res (build_filter_entry entity) object).

Definition build_fulltext_filter_from_object (object : list (string * qvalue))
  : qres (option EntityFilter) :=
  match object with
  | (key, QString s) :: _ => Ok (Some (FEqual key (VString s)))
  | _ => Err FulltextQueryRequiresFilter
  end.

Definition build_filter (entity : ObjectOrInterface) (arguments : Variables)
  : qres (option EntityFilter) :=
  match arguments !! "where" with
  | Some (QObject object) => build_filter_from_object entity object
  | Some QNull => Ok None
  | None =>
      match arguments !! "text" with
      | Some (QObject filter) => build_fulltext_filter_from_object filter
      | None => Ok None
      | Some _ => Err InvalidFilterError
      end
  | Some _ => Err InvalidFilterError
  end.

(** ** Order *)
Definition build_fulltext_order_by_from_object (object : list (string * qvalue))
  : qres (option (string * ValueType)) :=
  match object with
  | (key, QString _) :: _ => Ok (Some (key, VT_String))
  | _ => Err FulltextQueryRequiresFilter
  end.

Definition build_order_by (entity : ObjectOrInterface) (arguments : Variables)
  : qres (option (string * ValueType)) :=
  match arguments !! "orderBy" with
  | Some (QEnum name) =>
      let? field := ok_or (get_field entity name) (EntityFieldError (oi_name entity) name) in
      map_err (fun _ => OrderByNotSupportedError (oi_name entity) name)
        (res_map (fun value_type => Some (name, value_type))
           (get_field_value_type (fd_field_type field)))
  | _ =>
      match arguments !! "text" with
      | Some (QObject filter) => build_fulltext_order_by_from_object filter
      | None => Ok None
      | Some _ => Err InvalidFilterError
      end
  end.

Definition build_order_direction (arguments : Variables) : OrderDirection :=
  match arguments !! "orderDirection" with
  | Some (QEnum name) => if String.eqb name "desc" then DirDescending else DirAscending
  | _ => DirAscending
  end.

(** ** The query *)
Definition build_query (entity : ObjectOrInterface) (block : Z) (arguments : Variables)
    (types_for_interface : TypesForInterface) (max_first max_skip : Z) : qres EntityQuery :=
  let? entity_types :=
    match entity with
    | OIObject object => Ok [ot_name object]
    | OIInterface interface =>
        let? types := unwrap (types_for_interface !! it_name interface) in
        Ok (ot_name <$> types)
    end in
  let? subgraph_id := parse_subgraph_id entity in
  let? range := build_range arguments max_first max_skip in
  let query := query_range (StoreQuery.query_new subgraph_id block (All entity_types)) range in
  let? filter := build_filter entity arguments in
  let query := match filter with Some filter => query_filter query filter | None => query end in
  let? order_by := build_order_by entity arguments in
  let order :=
    match order_by, build_order_direction arguments with
    | Some (attr, value_type), DirAscending => Ascending attr value_type
    | Some (attr, value_type), DirDescending => Descending attr value_type
    | None, _ => DefaultOrder
    end in
  Ok (query_order query order).
End build.

(** ** The entities of a query field *)
Section collect.
Context (schema : Document).

(** What one turn of the loop finds: the entity to add and the fields to visit
    next. *)
Definition field_object_type (object_type : ObjectType) (field : QField) : option ObjectType :=
  field_type ← get_field (OIObject object_type) (qf_name field);
  type_definition ← get_type_definition_from_field schema field_type;
  as_object type_definition.

Definition found_entity (object_type : ObjectType) : option (SubgraphDeploymentId * string) :=
  match get_object_type_directive object_type "entity" with
  | Some _ =>
      match parse_subgraph_id (OIObject object_type) with
      | Ok subgraph_id => Some (subgraph_id, ot_name object_type)
      | _ => None
      end
  | None => None
  end.

Definition sub_fields (object_type : ObjectType) (field : QField) : list (ObjectType * QField) :=
  pair object_type <$> selection_fields (qf_selection_set field).

Fixpoint collect_loop (fuel : nat) (entities : gset (SubgraphDeploymentId * string))
    (queue : list (ObjectType * QField)) : option (gset (SubgraphDeploymentId * string)) :=
  match queue with
  | [] => Some entities
  | (object_type, field) :: queue =>
      match fuel with
      | O => None
      | S fuel =>
          match field_object_type object_type field with
          | Some object_type =>
              collect_loop fuel
                match found_entity object_type with
                | Some e => {[e]} ∪ entities
                | None => entities
                end
                (queue ++ sub_fields object_type field)
          | None => collect_loop fuel entities queue
          end
      end
  end.

Definition collect_entities_from_query_field (fuel : nat) (object_type : ObjectType)
    (field : QField) : option (gset (SubgraphDeploymentId * string)) :=
  collect_loop fuel ∅ [(object_type, field)].
End collect.

(** ** What is proved: ranges *)

(** [first] and [skip] are integers, null or absent. *)
Definition int_argument (arguments : Variables) (name : string) : Prop :=
  match arguments !! name with Some (QInt _ | QNull) | None => True | Some _ => False end.

(** The number an argument asks for. *)
Definition int_value (arguments : Variables) (name : string) (dflt : Z) : Z :=
  match arguments !! name with Some (QInt n) => n | _ => dflt end.

Definition given_int (arguments : Variables) (name : string) : bool :=
  match arguments !! name with Some (QInt _) => true | _ => false end.

Definition in_range (lo hi n : Z) : bool := bool_decide (lo <= n)%Z && bool_decide (n <= hi)%Z.

Definition out_of_range (arguments : Variables) (name : string) (dflt lo hi : Z) : bool :=
  given_int arguments name && negb (in_range lo hi (int_value arguments name dflt)).

Lemma range_argument_spec arguments name dflt lo hi :
  int_argument arguments name ->
  range_argument (arguments !! name) name dflt lo hi
  = Ok (if out_of_range arguments name dflt lo hi then inr name
        else inl (int_value arguments name dflt)).
Proof.
  unfold int_argument, out_of_range, given_int, int_value, in_range, range_argument.
  destruct (arguments !! name) as [[]|]; try done. intros _.
  by destruct (bool_decide _ && bool_decide _).
Qed.

Lemma build_range_eq arguments max_first max_skip :
  int_argument arguments "first" -> int_argument arguments "skip" ->
  build_range arguments max_first max_skip
  = match (if out_of_range arguments "first" 100 1 max_first then ["first"] else [])
          ++ (if out_of_range arguments "skip" 0 0 max_skip then ["skip"] else []) with
    | [] => Ok (mk_range (Some (int_value arguments "first" 100)) (int_value arguments "skip" 0))
    | errors => Err (RangeArgumentsError errors max_first)
    end.
Proof.
  intros Hf Hs. unfold build_range. rewrite !range_argument_spec by done.
  cbn [lift_panic res_bind].
  by destruct (out_of_range arguments "first" _ _ _), (out_of_range arguments "skip" _ _ _).
Qed.

(** The range of a query is within the limits: it is made exactly when
    [first], if given, is between 1 and the maximum and [skip], if given,
    between 0 and its maximum; otherwise the error names exactly the arguments
    out of range.  A [first] that is null or absent is 100 whatever the maximum,
    an absent [skip] 0. *)
Lemma build_range_spec arguments max_first max_skip :
  int_argument arguments "first" -> int_argument arguments "skip" ->
  match build_range arguments max_first max_skip with
  | Ok r =>
      (exists first, er_first r = Some first
         /\ (if given_int arguments "first" then 1 <= first <= max_first else first = 100))%Z
      /\ (if given_int arguments "skip" then 0 <= er_skip r <= max_skip else er_skip r = 0)%Z
  | Err e =>
      exists names, e = RangeArgumentsError names max_first /\ names <> [] /\
        forall name, name ∈ names <->
          (name = "first" /\ exists n, arguments !! "first" = Some (QInt n)
             /\ ~ (1 <= n <= max_first)%Z)
          \/ (name = "skip" /\ exists n, arguments !! "skip" = Some (QInt n)
             /\ ~ (0 <= n <= max_skip)%Z)
  | Panic => False
  end.
Proof.
  intros Hf Hs. rewrite build_range_eq by done.
  assert (Hout : forall name dflt lo hi, out_of_range arguments name dflt lo hi = true
            <-> exists n, arguments !! name = Some (QInt n) /\ ~ (lo <= n <= hi)%Z).
  { intros name dflt lo hi. unfold out_of_range, given_int, int_value, in_range.
    destruct (arguments !! name) as [[]|]; simpl; try (split; [done|naive_solver]).
    rewrite negb_true_iff, andb_false_iff, !bool_decide_eq_false. split.
    - intros H. eexists. split; [done|]. lia.
    - intros (n' & [= <-] & H). lia. }
  pose proof (Hout "first" 100 1 max_first)%Z as H1. pose proof (Hout "skip" 0 0 max_skip)%Z as H2.
  destruct (out_of_range arguments "first" _ _ _) eqn:E1;
    destruct (out_of_range arguments "skip" _ _ _) eqn:E2; cbn [app];
    try (eexists; split; [done|]; split; [done|]; intros name; set_unfold; naive_solver).
  clear H1 H2 Hout. cbn [er_first er_skip]. split.
  - eexists. split; [done|]. unfold out_of_range, given_int, int_value, in_range in *.
    destruct (arguments !! "first") as [[]|]; try done.
    apply negb_false_iff, andb_true_iff in E1 as [?%bool_decide_eq_true ?%bool_decide_eq_true]. done.
  - unfold out_of_range, given_int, int_value, in_range in *.
    destruct (arguments !! "skip") as [[]|]; try done.
    apply negb_false_iff, andb_true_iff in E2 as [?%bool_decide_eq_true ?%bool_decide_eq_true]. done.
Qed.

(** ** What is proved: queries *)
Definition filter_attribute (f : EntityFilter) : option string :=
  match f with
  | FAnd _ | FOr _ => None
  | FEqual a _ | FNot a _ | FGreaterThan a _ | FLessThan a _ | FGreaterOrEqual a _
  | FLessOrEqual a _ | FIn a _ | FNotIn a _ | FContains a _ | FNotContains a _
  | FStartsWith a _ | FNotStartsWith a _ | FEndsWith a _ | FNotEndsWith a _ => Some a
  end.

(** The operation of a filter and the values it compares with. *)
Definition filter_op (f : EntityFilter) : option FilterOp :=
  match f with
  | FAnd _ | FOr _ => None
  | FEqual _ _ => Some OpEqual | FNot _ _ => Some OpNot
  | FGreaterThan _ _ => Some OpGreaterThan | FLessThan _ _ => Some OpLessThan
  | FGreaterOrEqual _ _ => Some OpGreaterOrEqual | FLessOrEqual _ _ => Some OpLessOrEqual
  | FIn _ _ => Some OpIn | FNotIn _ _ => Some OpNotIn
  | FContains _ _ => Some OpContains | FNotContains _ _ => Some OpNotContains
  | FStartsWith _ _ => Some OpStartsWith | FNotStartsWith _ _ => Some OpNotStartsWith
  | FEndsWith _ _ => Some OpEndsWith | FNotEndsWith _ _ => Some OpNotEndsWith
  end.

Definition filter_operand (f : EntityFilter) : Value :=
  match f with
  | FAnd _ | FOr _ => VNull
  | FIn _ vs | FNotIn _ vs => VList vs
  | FEqual _ v | FNot _ v | FGreaterThan _ v | FLessThan _ v | FGreaterOrEqual _ v
  | FLessOrEqual _ v | FContains _ v | FNotContains _ v | FStartsWith _ v
  | FNotStartsWith _ v | FEndsWith _ v | FNotEndsWith _ v => v
  end.

Definition homogeneous (vs : list Value) : Prop :=
  forall v w, v ∈ vs -> w ∈ vs -> discriminant v = discriminant w.

Section built.
Context {ST : ScalarText} (normalize : BigDecimal -> BigDecimal).
(** The text conversions of the number and hex crates return a result. *)
Context (Hhex : forall s, hex_decode s <> Panic).
Context (Hbigint : forall s, bigint_parse s <> Panic).
Context (Hdecimal : forall s, bigdecimal_parse s <> Panic).

Lemma from_query_value_no_panic v ty : from_query_value normalize v ty <> Panic.
Proof.
  revert ty. induction v as [| | | | | | |l IH|] using qvalue_nested_ind; intros ty;
    induction ty as [n|ty IHty|ty IHty]; try exact IHty; cbn [from_query_value]; try done.
  - by destruct (number_as_i64 i).
  - by destruct (number_as_i64 i).
  - unfold Bytes_from_str, BigDecimal_from_str, res_map.
    pose proof (Hhex (trim_0x s)). pose proof (Hbigint s). pose proof (Hdecimal s).
    case_bools; try done.
    + by destruct (hex_decode _).
    + by destruct (bigint_parse s).
    + by destruct (bigdecimal_parse s).
  - unfold res_map. rewrite Forall_forall in IH.
    pose proof (map_res_no_panic (fun v => from_query_value normalize v (NamedType n)) l
                  (fun x Hx => IH x Hx (NamedType n))) as H. by destruct (map_res _ l).
  - unfold res_map. rewrite Forall_forall in IH.
    pose proof (map_res_no_panic (fun v => from_query_value normalize v ty) l
                  (fun x Hx => IH x Hx ty)) as H. by destruct (map_res _ l).
Qed.

Lemma list_values_ok value t vs :
  list_values value t = Ok vs -> value = VList vs /\ homogeneous vs.
Proof.
  destruct value as [| | | |l| | |]; try done. destruct l as [|root l].
  { intros [= <-]. split; [done|]. by intros ? ? ?%elem_of_nil. }
  unfold list_values. intros H. apply map_res_Forall2 in H.
  assert (Hall : forall v, v ∈ root :: l -> discriminant root = discriminant v /\ True).
  { intros v Hv. apply list_elem_of_lookup in Hv as [i Hi].
    destruct (Forall2_lookup_l _ _ _ _ _ H Hi) as (w & _ & Hw).
    case_bool_decide; [done|discriminate Hw]. }
  assert (vs = root :: l) as ->.
  { symmetry. apply list_eq_Forall2. eapply Forall2_impl; [exact H|]. intros v w Hw. cbn beta in Hw.
    case_bool_decide; [by injection Hw|discriminate Hw]. }
  split; [done|]. intros v w Hv Hw. destruct (Hall v Hv) as [<- _]. by destruct (Hall w Hw).
Qed.

Lemma list_values_no_panic value t : list_values value t <> Panic.
Proof.
  destruct value as [| | | |[|root l]| | |]; try done. apply map_res_no_panic.
  intros v _. by case_bool_decide.
Qed.

(** The filter an entry of a [where] object is turned into. *)
Definition entry_filter (entity : ObjectOrInterface) (entry : string * qvalue) (f : EntityFilter)
  : Prop :=
  exists a op field,
    parse_field_as_filter entry.1 = (a, op)
    /\ filter_attribute f = Some a /\ filter_op f = Some op
    /\ get_field entity a = Some field
    /\ from_query_value normalize entry.2 (fd_field_type field) = Ok (filter_operand f)
    /\ (op = OpIn \/ op = OpNotIn -> exists vs, filter_operand f = VList vs /\ homogeneous vs).

Lemma entity_filter_ok op a v f :
  entity_filter op a v = Ok f ->
  filter_attribute f = Some a /\ filter_op f = Some op /\ filter_operand f = v
  /\ (op = OpIn \/ op = OpNotIn -> exists vs, v = VList vs /\ homogeneous vs).
Proof.
  destruct op; cbn [entity_filter]; unfold res_map; intros H;
    try (injection H as <-; repeat split; try done; by intros [|]);
    destruct (list_values v _) as [vs| |] eqn:E; try done; injection H as <-;
    apply list_values_ok in E as [-> ?]; eauto 10.
Qed.

Lemma entity_filter_no_panic op a v : entity_filter op a v <> Panic.
Proof.
  destruct op; cbn [entity_filter]; unfold res_map; try done.
  - pose proof (list_values_no_panic v "_in"). by destruct (list_values v "_in").
  - pose proof (list_values_no_panic v "_not_in"). by destruct (list_values v "_not_in").
Qed.

Lemma build_filter_entry_ok entity entry f :
  build_filter_entry normalize entity entry = Ok f -> entry_filter entity entry f.
Proof.
  destruct entry as [key value]. unfold build_filter_entry, entry_filter. cbn [fst snd].
  destruct (parse_field_as_filter key) as [a op].
  destruct (get_field entity a) as [field|] eqn:Ef; cbn [ok_or res_bind]; [|done].
  destruct (from_query_value normalize value _) as [v| |] eqn:Ev; cbn [res_bind]; try done.
  intros H%entity_filter_ok. destruct H as (H1 & H2 & <- & H3). eauto 10.
Qed.

Lemma build_filter_entry_no_panic entity entry : build_filter_entry normalize entity entry <> Panic.
Proof.
  destruct entry as [key value]. unfold build_filter_entry.
  destruct (parse_field_as_filter key) as [a op].
  destruct (get_field entity a) as [field|]; cbn [ok_or res_bind]; [|done].
  pose proof (from_query_value_no_panic value (fd_field_type field)).
  destruct (from_query_value normalize value _); cbn [res_bind]; try done.
  apply entity_filter_no_panic.
Qed.

(** The filter of a query. *)
Definition filter_built (entity : ObjectOrInterface) (arguments : Variables)
    (f : option EntityFilter) : Prop :=
  match arguments !! "where" with
  | Some (QObject object) =>
      exists fs, f = Some (FAnd fs) /\ Forall2 (entry_filter entity) object fs
  | Some _ => f = None
  | None =>
      match arguments !! "text" with
      | Some (QObject ((field, QString text) :: _)) => f = Some (FEqual field (VString text))
      | Some _ => False
      | None => f = None
      end
  end.

Lemma build_filter_ok entity arguments f :
  build_filter normalize entity arguments = Ok f -> filter_built entity arguments f.
Proof.
  unfold build_filter, filter_built. destruct (arguments !! "where") as [w|].
  - destruct w as [| | | | | | | |object]; try done; [by intros [= <-]|].
    unfold build_filter_from_object, res_map. intros H. res_inv.
    eexists. split; [done|]. apply map_res_Forall2 in E.
    eapply Forall2_impl; [exact E|]. intros kv f. apply build_filter_entry_ok.
  - destruct (arguments !! "text") as [t|]; [|by intros [= <-]].
    destruct t as [| | | | | | | |[|[k []] l]]; try done. by intros [= <-].
Qed.

Lemma build_filter_no_panic entity arguments : build_filter normalize entity arguments <> Panic.
Proof.
  unfold build_filter. destruct (arguments !! "where") as [[| | | | | | | |object]|]; try done.
  - unfold build_filter_from_object, res_map.
    pose proof (map_res_no_panic (build_filter_entry normalize entity) object
                  (fun x _ => build_filter_entry_no_panic entity x)). by destruct (map_res _ object).
  - destruct (arguments !! "text") as [[| | | | | | | |[|[k []] l]]|]; done.
Qed.

(** The order of a query: by a scalar field of the entity, or by the field of
    the text search. *)
Definition order_built (entity : ObjectOrInterface) (arguments : Variables) (o : EntityOrder)
  : Prop :=
  match o with
  | DefaultOrder =>
      arguments !! "text" = None /\ forall name, arguments !! "orderBy" <> Some (QEnum name)
  | Ascending a t | Descending a t =>
      (arguments !! "orderBy" = Some (QEnum a)
       /\ exists field, get_field entity a = Some field
            /\ get_field_value_type (fd_field_type field) = Ok t)
      \/ (exists s l, arguments !! "text" = Some (QObject ((a, QString s) :: l)) /\ t = VT_String)
  | Unordered => False
  end.

(** The order is descending exactly if the arguments say so. *)
Definition direction_built (arguments : Variables) (o : EntityOrder) : Prop :=
  match o with
  | Ascending _ _ => arguments !! "orderDirection" <> Some (QEnum "desc")
  | Descending _ _ => arguments !! "orderDirection" = Some (QEnum "desc")
  | _ => True
  end.

(** [first] and [skip] as given, within their limits; without them the first
    hundred, of which the maximum is no limit. *)
Definition range_built (arguments : Variables) (max_first max_skip : Z) (r : EntityRange) : Prop :=
  match arguments !! "first" with
  | Some (QInt n) => er_first r = Some n /\ (1 <= n <= max_first)%Z
  | _ => er_first r = Some 100%Z
  end
  /\ match arguments !! "skip" with
     | Some (QInt n) => er_skip r = n /\ (0 <= n <= max_skip)%Z
     | _ => er_skip r = 0%Z
     end.

Lemma build_range_ok arguments max_first max_skip r :
  build_range arguments max_first max_skip = Ok r -> range_built arguments max_first max_skip r.
Proof.
  unfold build_range, range_argument, range_built.
  destruct (arguments !! "first") as [[]|]; cbn [lift_panic map_err res_bind]; try done;
    (destruct (arguments !! "skip") as [[]|]; cbn [lift_panic map_err res_bind]; try done);
    repeat case_bool_decide; cbn [andb]; intros [= <-]; done.
Qed.

Lemma build_direction_built arguments a t :
  direction_built arguments
    match build_order_direction arguments with DirAscending => Ascending a t | DirDescending => Descending a t end.
Proof.
  unfold build_order_direction. destruct (arguments !! "orderDirection") as [[| | | | | |name| |]|] eqn:E; try done;
    try (cbn; congruence).
  destruct (String.eqb_spec name "desc") as [->|Hne]; cbn; [done|]. rewrite E. by intros [= ?].
Qed.

Lemma build_order_by_ok entity arguments o :
  build_order_by entity arguments = Ok o ->
  match o with
  | None => order_built entity arguments DefaultOrder
  | Some (a, t) => order_built entity arguments (Ascending a t)
  end.
Proof.
  unfold build_order_by.
  assert (Htext : (forall name, arguments !! "orderBy" <> Some (QEnum name)) ->
    match arguments !! "text" with
    | Some (QObject filter) => build_fulltext_order_by_from_object filter
    | None => Ok None
    | Some _ => Err InvalidFilterError
    end = Ok o ->
    match o with
    | None => order_built entity arguments DefaultOrder
    | Some (a, t) => order_built entity arguments (Ascending a t)
    end).
  { intros Hno. unfold order_built.
    destruct (arguments !! "text") as [[| | | | | | | |[|[k []] l]]|]; try done;
      intros [= <-]; eauto 10. }
  destruct (arguments !! "orderBy") as [[| | | | | |name| |]|] eqn:E; try (by apply Htext).
  destruct (get_field entity name) as [field|] eqn:Ef; cbn [ok_or res_bind]; [|done].
  destruct (get_field_value_type _) as [t| |] eqn:Et; try done. intros [= <-]. left. eauto.
Qed.
End built.

(** The text conversions of the number and hex crates return a result. *)
Definition total_text (ST : ScalarText) : Prop :=
  (forall s, hex_decode s <> Panic) /\ (forall s, bigint_parse s <> Panic)
  /\ (forall s, bigdecimal_parse s <> Panic).

Lemma parse_subgraph_id_no_panic entity : parse_subgraph_id entity <> Panic.
Proof.
  unfold parse_subgraph_id. destruct (d ← find_directive _ _; _) as [id|]; [|done].
  cbn [ok_or res_bind]. unfold SubgraphDeploymentId_new. by case_bools.
Qed.

Lemma build_order_by_no_panic entity arguments : build_order_by entity arguments <> Panic.
Proof.
  unfold build_order_by.
  assert (Ht : match arguments !! "text" with
    | Some (QObject filter) => build_fulltext_order_by_from_object filter
    | None => Ok None
    | Some _ => Err InvalidFilterError
    end <> Panic).
  { by destruct (arguments !! "text") as [[| | | | | | | |[|[k []] l]]|]. }
  destruct (arguments !! "orderBy") as [[| | | | | |name| |]|]; try exact Ht.
  destruct (get_field entity name) as [field|]; [|done]. cbn [ok_or res_bind].
  assert (get_field_value_type (fd_field_type field) <> Panic); [|by destruct (get_field_value_type _)].
  induction (fd_field_type field); simpl; [|done|done]. unfold ValueType_from_str. by case_bools.
Qed.

(** C30: The query built for a field of an entity type or a known interface,
    from arguments whose [first] and [skip] are integers, never panics; it asks
    the subgraph of the type, at the given block, for the entity type or all
    implementations of the interface; for the [first] entities after the [skip]th
    as given, within their limits (100 without [first], also if the maximum is
    less); with one filter per entry of [where] (on an existing field, with the
    operation of the entry's name and its value read at the field's type, lists
    being homogeneous) or the search text; and ordered by an existing scalar field
    or the text's field, descending exactly if the arguments say so. *)
Theorem build_query_sound {ST : ScalarText} normalize entity block arguments types max_first
    max_skip :
  total_text ST -> int_argument arguments "first" -> int_argument arguments "skip" ->
  (is_interface entity = true -> is_Some (types !! oi_name entity)) ->
  match build_query normalize entity block arguments types max_first max_skip with
  | Ok q =>
      parse_subgraph_id entity = Ok (eq_subgraph_id q) /\ eq_block q = block
      /\ (exists ts, oi_object_types types entity = Some ts /\ eq_collection q = All (ot_name <$> ts))
      /\ range_built arguments max_first max_skip (eq_range q)
      /\ filter_built normalize entity arguments (eq_filter q)
      /\ order_built entity arguments (eq_order q)
      /\ direction_built arguments (eq_order q)
  | Err _ => True
  | Panic => False
  end.
Proof.
  intros (Hx & Hb & Hd) Hf Hs Hi. unfold build_query.
  set (k := match entity with OIObject object => _ | OIInterface _ => _ end).
  assert (exists ts, oi_object_types types entity = Some ts /\ k = Ok (ot_name <$> ts))
    as (ts & Hts & ->).
  { subst k. destruct entity as [o|i]; cbn [oi_object_types]; [by exists [o]|].
    destruct (Hi eq_refl) as [ts Hts]. cbn [oi_name] in Hts. exists ts. by rewrite Hts. }
  cbn [res_bind]. pose proof (parse_subgraph_id_no_panic entity).
  destruct (parse_subgraph_id entity) as [id| |] eqn:Eid; cbn [res_bind]; try done.
  pose proof (build_range_eq arguments max_first max_skip Hf Hs) as Hr.
  destruct (build_range arguments max_first max_skip) as [r| |] eqn:Er; cbn [res_bind];
    [clear Hr; apply build_range_ok in Er|done|by destruct (_ ++ _)].
  pose proof (build_filter_no_panic normalize Hx Hb Hd entity arguments).
  destruct (build_filter normalize entity arguments) as [f| |] eqn:Ef; cbn [res_bind]; try done.
  apply build_filter_ok in Ef. pose proof (build_order_by_no_panic entity arguments).
  destruct (build_order_by entity arguments) as [o| |] eqn:Eo; cbn [res_bind]; try done.
  apply build_order_by_ok in Eo.
  split; [by destruct f|]. split; [by destruct f|]. split; [exists ts; by destruct f|].
  split; [by destruct f|]. split; [by destruct f|].
  destruct o as [[a t]|]; [|done]. pose proof (build_direction_built arguments a t).
  by destruct (build_order_direction arguments).
Qed.

(** ** What is proved: the entities of a query field *)
Section reach.
Context (schema : Document).

(** The fields visited from a field: its direct sub-fields, on the object type
    the field has, and theirs. *)
Inductive visits (ot : ObjectType) (f : QField) : ObjectType -> QField -> Prop :=
| visits_self : visits ot f ot f
| visits_sub ot1 f1 ot2 f2 :
    visits ot f ot1 f1 -> field_object_type schema ot1 f1 = Some ot2 ->
    f2 ∈ selection_fields (qf_selection_set f1) -> visits ot f ot2 f2.

(** The entity a field on its own involves. *)
Definition entity_of (ot : ObjectType) (f : QField) : option (SubgraphDeploymentId * string) :=
  field_object_type schema ot f ≫= found_entity.

Fixpoint selection_size (s : Selection) : nat :=
  match s with SField f => field_size f | _ => 0 end
with field_size (f : QField) : nat :=
  match f with mk_qfield _ _ _ _ _ set => S (sum_list (selection_size <$> set)) end.

Lemma field_size_eq f :
  field_size f = S (sum_list (field_size <$> selection_fields (qf_selection_set f))).
Proof.
  destruct f as [p a n args ds set]. cbn [field_size qf_selection_set]. f_equal.
  induction set as [|s set IH]; [done|]. unfold selection_fields. rewrite omap_cons_eq, fmap_cons.
  destruct s; simpl; rewrite IH; done.
Qed.

Definition queue_size (queue : list (ObjectType * QField)) : nat :=
  sum_list ((fun x => field_size x.2) <$> queue).

Lemma queue_size_app q1 q2 : queue_size (q1 ++ q2) = queue_size q1 + queue_size q2.
Proof.
  induction q1 as [|x q1 IH]; [done|].
  change (field_size x.2 + queue_size (q1 ++ q2) = field_size x.2 + queue_size q1 + queue_size q2).
  rewrite IH. lia.
Qed.

Lemma sub_fields_size ot f : S (queue_size (sub_fields ot f)) = field_size f.
Proof.
  rewrite field_size_eq. unfold queue_size, sub_fields. by rewrite <- list_fmap_compose.
Qed.

Lemma visits_trans ot f ot1 f1 ot2 f2 :
  visits ot f ot1 f1 -> visits ot1 f1 ot2 f2 -> visits ot f ot2 f2.
Proof. intros H. induction 1; [done|]. eapply visits_sub; eauto. Qed.

(** First step instead of last. *)
Lemma visits_inv ot f ot2 f2 :
  visits ot f ot2 f2 <->
  (ot2 = ot /\ f2 = f) \/
  exists ot1 f1, field_object_type schema ot f = Some ot1
    /\ f1 ∈ selection_fields (qf_selection_set f) /\ visits ot1 f1 ot2 f2.
Proof.
  split.
  - induction 1 as [|ot1 f1 ot2 f2 H IH Ht Hf]; [by left|right].
    destruct IH as [[-> ->]|(ot' & f' & H1 & H2 & H3)].
    + exists ot2, f2. repeat split; try done. constructor.
    + exists ot', f'. repeat split; try done. eapply visits_sub; eauto.
  - intros [[-> ->]|(ot1 & f1 & H1 & H2 & H3)]; [constructor|].
    eapply visits_trans; [|done]. eapply visits_sub; [constructor|done|done].
Qed.

Lemma collect_loop_spec fuel entities queue :
  queue_size queue <= fuel ->
  exists result, collect_loop schema fuel entities queue = Some result
    /\ forall x, x ∈ result <-> x ∈ entities \/
         exists ot f ot2 f2, (ot, f) ∈ queue /\ visits ot f ot2 f2 /\ entity_of ot2 f2 = Some x.
Proof.
  revert entities queue. induction fuel as [|fuel IH]; intros entities queue Hf.
  { destruct queue as [|[ot f] queue]; [|unfold queue_size in Hf; simpl in Hf;
      rewrite field_size_eq in Hf; lia].
    exists entities. split; [done|]. intros x. split; [by left|].
    intros [?|(? & ? & ? & ? & ?%elem_of_nil & _)]; done. }
  destruct queue as [|[ot f] queue].
  { exists entities. split; [done|]. intros x. split; [by left|].
    intros [?|(? & ? & ? & ? & ?%elem_of_nil & _)]; done. }
  assert (Hq : queue_size ((ot, f) :: queue) = field_size f + queue_size queue) by done.
  rewrite Hq in Hf. cbn [collect_loop].
  destruct (field_object_type schema ot f) as [ot'|] eqn:Et.
  - pose proof (sub_fields_size ot' f) as Hsub.
    destruct (IH match found_entity ot' with Some e => {[e]} ∪ entities | None => entities end
                (queue ++ sub_fields ot' f)) as (result & Hr & Hx);
      [rewrite queue_size_app; lia|].
    exists result. split; [done|]. intros x. rewrite Hx.
    assert (He : entity_of ot f = found_entity ot') by (unfold entity_of; by rewrite Et).
    assert (Hin : x ∈ match found_entity ot' with Some e => {[e]} ∪ entities | None => entities end
            <-> x ∈ entities \/ entity_of ot f = Some x).
    { rewrite He. destruct (found_entity ot'); set_solver. }
    rewrite Hin. clear Hin Hx Hr He. split.
    + intros [[?|?]|(o & g & o2 & g2 & H1 & H2 & H3)]; [by left|right|right].
      * exists ot, f, ot, f. split; [left|]. split; [constructor|done].
      * apply elem_of_app in H1 as [H1|H1]; [exists o, g, o2, g2; split; [by right|done]|].
        apply list_elem_of_fmap in H1 as (g' & [= -> ->] & Hg).
        exists ot, f, o2, g2. split; [left|]. split; [|done]. apply visits_inv. right. eauto.
    + intros [?|(o & g & o2 & g2 & H1 & H2 & H3)]; [by left; left|].
      apply elem_of_cons in H1 as [[= -> ->]|H1];
        [|right; exists o, g, o2, g2; rewrite elem_of_app; eauto].
      apply visits_inv in H2 as [[-> ->]|(ot1 & f1 & H4 & H5 & H6)]; [by left; right|].
      right. exists ot1, f1, o2, g2. split; [|done]. apply elem_of_app. right.
      simplify_eq. apply list_elem_of_fmap. eauto.
  - destruct (IH entities queue) as (result & Hr & Hx); [rewrite field_size_eq in Hf; lia|].
    exists result. split; [done|]. intros x. rewrite Hx. split.
    + intros [?|(o & g & o2 & g2 & H1 & H2)]; [by left|]. right. exists o, g, o2, g2.
      split; [by right|done].
    + intros [?|(o & g & o2 & g2 & H1 & H2 & H3)]; [by left|right].
      apply elem_of_cons in H1 as [[= -> ->]|H1]; [|exists o, g, o2, g2; done].
      apply visits_inv in H2 as [[-> ->]|(ot1 & f1 & H4 & _)]; [|congruence].
      unfold entity_of in H3. by rewrite Et in H3.
Qed.
End reach.

(** Collecting the entities of a query field ends and finds exactly the
    entity types, with their subgraphs, of the field and all fields selected
    below it through object types. *)
Lemma collected_entities_exact schema ot f fuel :
  field_size f <= fuel ->
  exists entities, collect_entities_from_query_field schema fuel ot f = Some entities
    /\ forall x, x ∈ entities <->
         exists ot2 f2, visits schema ot f ot2 f2 /\ entity_of schema ot2 f2 = Some x.
Proof.
  intros Hf. destruct (collect_loop_spec schema fuel ∅ [(ot, f)]) as (r & Hr & Hx).
  { unfold queue_size. simpl. lia. }
  exists r. split; [done|]. intros x. rewrite Hx. split.
  - intros [?%elem_of_empty|(o & g & o2 & g2 & H1 & H2)]; [done|].
    apply list_elem_of_singleton in H1. simplify_eq. eauto.
  - intros (ot2 & f2 & H1 & H2). right. exists ot, f, ot2, f2. split; [left|done].
Qed.

Module Witness.
#[local] Existing Instance TextInstance.text.
Definition p0 : Pos := mk_Pos 0 0.
Definition Cat : ObjectType :=
    mk_object_type "Cat" []
      [mk_directive "entity" []; mk_directive "subgraphId" [("id", QString "Qmpets")]]
      [mk_field "id" [] (NonNullType (NamedType "ID")) [];
       mk_field "age" [] (NamedType "Int") [];
       mk_field "kittens" [] (ListType (NamedType "Cat")) []].
Definition Query : ObjectType :=
    mk_object_type "Query" [] [] [mk_field "cats" [] (ListType (NamedType "Cat")) []].
Definition schema : Document := [TypeDef (TDObject Cat); TypeDef (TDObject Query)].

Definition arguments : Variables :=
    {["first" := QInt 5; "where" := QObject [("age_in", QList [QInt 2; QInt 3]); ("id_not", QString "a")];
      "orderBy" := QEnum "age"; "orderDirection" := QEnum "desc"]}.

Definition built : EntityQuery :=
    mk_query "Qmpets" 7 (All ["Cat"])
      (Some (FAnd [FIn "age" [VInt 2; VInt 3]; FNot "id" (VString "a")]))
      (Descending "age" VT_Int) (mk_range (Some 5%Z) 0).

Example build_query_example :
    build_query id (OIObject Cat) 7 arguments ∅ 1000 1000 = Ok built.
Proof. vm_compute. reflexivity. Qed.

(** A null [first] asks for 100 even if fewer are allowed. *)
Example null_first : build_range {["first" := QNull]} 10 10 = Ok (mk_range (Some 100%Z) 0).
Proof. reflexivity. Qed.

Lemma build_range_spec_witness :
    exists e, build_range {["first" := QInt 0; "skip" := QInt (-1)]} 1000 1000 = Err e.
Proof.
    pose proof (build_range_spec {["first" := QInt 0; "skip" := QInt (-1)]} 1000 1000 I I) as H.
    destruct (build_range _ _ _) as [r|e|] eqn:E; [|by exists e|done].
    vm_compute in E. discriminate E.
Defined.

Lemma text_total : total_text TextInstance.text.
Proof.
    split; [|split].
    - intros s. simpl.
      assert (forall n s, String.length s <= n -> TextInstance.decode s <> Panic) as H;
        [|by apply (H (String.length s))].
      clear s. induction n as [|n IH]; intros s Hs.
      + destruct s; simpl in *; [done|lia].
      + destruct s as [|a [|b s]]; [done|done|]. simpl in *.
        case_match; [|done]. specialize (IH s ltac:(lia)).
        by destruct (TextInstance.decode s).
    - intros s. simpl. unfold TextInstance.parse_Z. by destruct (DecimalString.NilEmpty.int_of_string s).
    - intros s. simpl. unfold TextInstance.parse_dec. by repeat case_match.
Qed.

Lemma build_query_sound_witness :
    exists q, build_query id (OIObject Cat) 7 arguments ∅ 1000 1000 = Ok q
      /\ order_built (OIObject Cat) arguments (eq_order q).
Proof.
    pose proof (build_query_sound id (OIObject Cat) 7 arguments ∅ 1000 1000 text_total I I) as H.
    destruct (build_query id (OIObject Cat) 7 arguments ∅ 1000 1000) as [q|e|] eqn:E.
    - exists q. split; [done|]. by apply H.
    - vm_compute in E. discriminate E.
    - by destruct H.
Defined.

Definition cats_field : QField :=
    mk_qfield p0 None "cats" [] [] [SField (mk_qfield p0 None "kittens" [] [] [])].

Lemma collected_entities_exact_witness :
    exists entities, collect_entities_from_query_field schema 2 Query cats_field = Some entities
      /\ ("Qmpets", "Cat") ∈ entities.
Proof.
    destruct (collected_entities_exact schema Query cats_field 2) as (es & Hes & H); [done|].
    exists es. split; [done|]. apply H. exists Query, cats_field. split; [constructor|reflexivity].
Defined.

(** What is selected through a fragment is not looked at. *)
Example fragments_are_not_collected :
    entity_of schema Query cats_field = Some ("Qmpets", "Cat")
    /\ collect_entities_from_query_field schema 2 Query
         (mk_qfield p0 None "nothing" [] [] [SInline None [] [SField cats_field]]) = Some ∅.
Proof. split; reflexivity. Qed.
End Witness.
