(* ===== verification/Schema.v ===== *)
(** * Subgraph schemas

    Models [graph/src/data/schema.rs]: the schema of a subgraph with the maps
    between its interfaces and the types that implement them, the [@import]
    and [@fulltext] directives of its [_Schema_] type, the resolution of
    imports through the store, and the validation of a schema when a subgraph
    is deployed.

    The theorems state what a valid schema is without reference to the checks,
    once with the rules as the code has them and once as it documents them,
    what the two maps hold, that following imports ends and finds exactly the
    schemas that can be reached, and that the [@subgraphId] directives added to
    a schema are the ones that queries read back.  A [HashMap] is a [gmap]; the
    order in which one is walked is given by a class. *)

From stdpp Require Import prelude list strings gmap.
From Stdlib Require Import ZArith Lia Ascii.
From S2P Require Import Prelude.
From S2P Require Import GraphqlTypes.
From S2P Require Import StoreValue.
From S2P Require Import GraphqlSchema.
From S2P Require Import GraphqlQuery.
From S2P Require Import QueryBuild.

#[local] Open Scope string_scope.
#[local] Open Scope list_scope.

(** ** Code outside the repository

    The case conversions of [inflector], the printing of syntax by
    [graphql_parser], and the order in which a hash map is walked. *)
Class Inflector := {
  to_camel_case : string -> string;
  to_plural : string -> string;
  to_snake_case : string -> string;
}.

Class SyntaxText := {
  value_to_string : qvalue -> string;
  field_to_string : Field -> string;
}.

Class HashOrder := {
  hash_iter : forall {K} `{Countable K} {V}, gmap K V -> list (K * V);
  hash_iter_perm : forall {K} `{Countable K} {V} (m : gmap K V), hash_iter m ≡ₚ map_to_list m;
}.

(** ** Errors *)
Inductive SchemaValidationError :=
| InterfaceUndefined (name : string)
| EntityDirectivesMissing (types : list string)
| InterfaceFieldsMissing (ty interface : string) (missing_fields : list string)
| InvalidDerivedFrom (ty field reason : string)
| SchemaTypeWithFields
| ImportedSubgraphNameInvalid (name : string)
| ImportedSubgraphIdInvalid (id : string)
| InvalidSchemaTypeDirectives
| ImportDirectiveInvalid
| FieldTypeUnknown (type_name field_name field_type : string)
| ImportedTypeUndefined (type_name schema : string)
| FulltextNameUndefined
| FulltextNameConflict (name : string)
| FulltextNameCollision (name : string)
| FulltextLanguageUndefined
| FulltextLanguageInvalid (language : string)
| FulltextAlgorithmUndefined
| FulltextAlgorithmInvalid (algorithm : string)
| FulltextIncludeInvalid
| FulltextIncludeUndefined
| FulltextIncludeObjectMissing
| FulltextIncludeEntityMissingOrIncorrectAttributes
| FulltextIncludedEntityNotFound
| FulltextIncludedFieldMissingRequiredProperty
| FulltextIncludedFieldInvalid (field : string).

#[export] Instance SchemaValidationError_eq_dec : EqDecision SchemaValidationError.
Proof. solve_decision. Defined.

Definition SCHEMA_TYPE_NAME : string := "_Schema_".

(** ** Values of directives ([DirectiveExt], [ValueExt]) *)
Definition argument (d : Directive) (name : string) : option qvalue :=
  get_argument_value (dir_arguments d) name.
Definition value_object (v : qvalue) : option (list (string * qvalue)) :=
  match v with QObject object => Some object | _ => None end.
Definition value_list (v : qvalue) : option (list qvalue) :=
  match v with QList list => Some list | _ => None end.
Definition value_string (v : qvalue) : option string :=
  match v with QString string => Some string | _ => None end.
Definition value_enum (v : qvalue) : option string :=
  match v with QEnum e => Some e | _ => None end.

(** ** Fulltext search *)
Inductive FulltextLanguage :=
| Simple | Danish | Dutch | English | Finnish | French | German | Hungarian | Italian
| Norwegian | Portugese | Romanian | Russian | Spanish | Swedish | Turkish.

#[export] Instance FulltextLanguage_eq_dec : EqDecision FulltextLanguage.
Proof. solve_decision. Defined.

Definition fulltext_languages : list (string * FulltextLanguage) :=
  [("simple", Simple); ("da", Danish); ("nl", Dutch); ("en", English); ("fi", Finnish);
   ("fr", French); ("de", German); ("hu", Hungarian); ("it", Italian); ("no", Norwegian);
   ("pt", Portugese); ("ro", Romanian); ("ru", Russian); ("es", Spanish); ("sv", Swedish);
   ("tr", Turkish)].

Definition FulltextLanguage_try_from (language : string) : res string FulltextLanguage :=
  match List.find (fun x => String.eqb (fst x) language) fulltext_languages with
  | Some x => Ok (snd x)
  | None => Err ("Provided language for fulltext search is invalid: " +:+ language)
  end.

Definition language_as_str (l : FulltextLanguage) : string :=
  match l with
  | Simple => "simple" | Danish => "danish" | Dutch => "dutch" | English => "english"
  | Finnish => "finnish" | French => "french" | German => "german" | Hungarian => "hungarian"
  | Italian => "italian" | Norwegian => "norwegian" | Portugese => "portugese"
  | Romanian => "romanian" | Russian => "russian" | Spanish => "spanish"
  | Swedish => "swedish" | Turkish => "turkish"
  end.

Inductive FulltextAlgorithm := Rank | ProximityRank.

#[export] Instance FulltextAlgorithm_eq_dec : EqDecision FulltextAlgorithm.
Proof. solve_decision. Defined.

Definition FulltextAlgorithm_try_from (algorithm : string) : res string FulltextAlgorithm :=
  if String.eqb algorithm "rank" then Ok Rank
  else if String.eqb algorithm "proximityRank" then Ok ProximityRank
  else Err ("The provided fulltext search algorithm " +:+ algorithm
            +:+ " is invalid. It must be one of: rank, proximityRank").

Record FulltextConfig := mk_fulltext_config {
  fc_language : FulltextLanguage;
  fc_algorithm : FulltextAlgorithm;
}.

Record FulltextDefinition := mk_fulltext_definition {
  ft_config : FulltextConfig;
  ft_included_fields : gset string;
  ft_name : string;
}.

(** [unwrap] of a [Result]. *)
Definition ok_unwrap {E A} (m : res E A) : res Empty_set A :=
  match m with Ok a => Ok a | _ => Panic end.

Definition included_field_name (field : qvalue) : option string :=
  object ← value_object field;
  name ← object_get object "name";
  value_string name.

Definition FulltextDefinition_from (directive : Directive) : res Empty_set FulltextDefinition :=
  let? name := unwrap (v ← argument directive "name"; value_string v) in
  let? algorithm := unwrap (v ← argument directive "algorithm"; value_enum v) in
  let? algorithm := ok_unwrap (FulltextAlgorithm_try_from algorithm) in
  let? language := unwrap (v ← argument directive "language"; value_enum v) in
  let? language := ok_unwrap (FulltextLanguage_try_from language) in
  let? included_entity_list := unwrap (v ← argument directive "include"; value_list v) in
  let? included_entity := unwrap (v ← head included_entity_list; value_object v) in
  let? included_field_values := unwrap (v ← object_get included_entity "fields"; value_list v) in
  let? included_fields := map_res (fun field => unwrap (included_field_name field))
                            included_field_values in
  Ok (mk_fulltext_definition (mk_fulltext_config language algorithm)
        (list_to_set included_fields) name).

(** ** Imports *)
Record ImportedType := mk_imported_type {
  im_name : string;
  im_alias : string;
  im_explicit : bool;
}.

#[export] Instance ImportedType_eq_dec : EqDecision ImportedType.
Proof. solve_decision. Defined.
#[export] Instance ImportedType_countable : Countable ImportedType.
Proof.
  refine (inj_countable' (fun t => (im_name t, im_alias t, im_explicit t))
            (fun x => mk_imported_type x.1.1 x.1.2 x.2) _).
  by intros [].
Defined.

Record SchemaReference := mk_schema_reference { sr_subgraph : SubgraphDeploymentId }.

#[export] Instance SchemaReference_eq_dec : EqDecision SchemaReference.
Proof. solve_decision. Defined.
#[export] Instance SchemaReference_countable : Countable SchemaReference.
Proof. refine (inj_countable' sr_subgraph mk_schema_reference _). by intros []. Defined.

Inductive SchemaImportError :=
| ImportedSchemaNotFound (r : SchemaReference)
| ImportedSubgraphNotFound (r : SchemaReference).

Definition imported_type_parse `{SyntaxText} (type_import : qvalue) : option ImportedType :=
  match type_import with
  | QString type_name => Some (mk_imported_type type_name type_name false)
  | QObject type_name_as =>
      match object_get type_name_as "name", object_get type_name_as "as" with
      | Some name, Some az =>
          Some (mk_imported_type (value_to_string name) (value_to_string az) true)
      | _, _ => None
      end
  | _ => None
  end.

Definition schema_reference_parse (value : qvalue) : option SchemaReference :=
  match value with
  | QObject map =>
      match object_get map "id" with
      | Some (QString id) =>
          match SubgraphDeploymentId_new id with
          | Ok id => Some (mk_schema_reference id)
          | _ => None
          end
      | _ => None
      end
  | _ => None
  end.

(** ** Schemas *)
Record Schema := mk_schema {
  sc_id : SubgraphDeploymentId;
  sc_document : Document;
  sc_interfaces_for_type : gmap string (list InterfaceType);
  sc_types_for_interface : TypesForInterface;
}.

Definition Schema_new (id : SubgraphDeploymentId) (document : Document) : Schema :=
  mk_schema id document ∅ ∅.

Definition interfaces_for_type (s : Schema) (type_name : string) : option (list InterfaceType) :=
  sc_interfaces_for_type s !! type_name.

Record ApiSchema := mk_api_schema {
  api_schema_ : Schema;
  api_query_type : ObjectType;
  api_subscription_type : option ObjectType;
}.

Definition from_api_schema (api_schema : Schema) : res string ApiSchema :=
  let? query_type :=
    ok_or (get_root_query_type (sc_document api_schema)) "no root `Query` in the schema" in
  Ok (mk_api_schema api_schema query_type (get_root_subscription_type (sc_document api_schema))).

(** *** Looking into the document ([DocumentExt]) *)
Definition object_or_interface_fields (t : TypeDefinition) : option (string * list Field) :=
  match t with
  | TDObject t => Some (ot_name t, ot_fields t)
  | TDInterface t => Some (it_name t, it_fields t)
  | _ => None
  end.

(** Collecting into a [HashMap]: the last of two equal keys is kept. *)
Definition collect_map {K V} `{Countable K} (l : list (K * V)) : gmap K V :=
  foldl (fun m kv => <[kv.1 := kv.2]> m) ∅ l.

Definition get_object_and_interface_type_fields (document : Document)
  : gmap string (list Field) :=
  collect_map (omap object_or_interface_fields (get_type_definitions document)).

Definition directives_named (name : string) (ds : list Directive) : list Directive :=
  filter (fun d => dir_name d = name) ds.

Definition get_fulltext_directives (document : Document) : list Directive :=
  match get_object_type_definition document SCHEMA_TYPE_NAME with
  | Some subgraph_schema_type => directives_named "fulltext" (ot_directives subgraph_schema_type)
  | None => []
  end.

Definition subgraph_schema_object_type (s : Schema) : option ObjectType :=
  List.find (fun t => String.eqb (ot_name t) SCHEMA_TYPE_NAME)
    (get_object_type_definitions (sc_document s)).

(** The directives of the [_Schema_] type with the given name. *)
Definition schema_directives (name : string) (s : Schema) : list Directive :=
  match subgraph_schema_object_type s with
  | Some object => directives_named name (ot_directives object)
  | None => []
  end.

(** *** Interfaces and the types that implement them *)
Definition ascii_whitespace (c : ascii) : bool :=
  let n := N_of_ascii c in ((n =? 32) || ((9 <=? n) && (n <=? 13)))%N.

Fixpoint trim_start (s : string) : string :=
  match s with
  | EmptyString => EmptyString
  | String c r => if ascii_whitespace c then trim_start r else s
  end.

Fixpoint trim_end (s : string) : string :=
  match s with
  | EmptyString => EmptyString
  | String c r =>
      match trim_end r with
      | EmptyString => if ascii_whitespace c then EmptyString else String c EmptyString
      | r => String c r
      end
  end.

Definition trim (s : string) : string := trim_end (trim_start s).

Section schema.
Context `{SyntaxText} `{Inflector} `{HashOrder}.

Definition implements_field (object : ObjectType) (i : Field) : bool :=
  existsb (fun o => String.eqb (fd_name o) (fd_name i)
                    && bool_decide (fd_field_type o = fd_field_type i)) (ot_fields object).

Definition validate_interface_implementation (object : ObjectType) (interface : InterfaceType)
  : res SchemaValidationError unit :=
  let missing_fields :=
    (fun i => trim (field_to_string i))
      <$> filter (fun i => negb (implements_field object i)) (it_fields interface) in
  if negb (bool_decide (missing_fields = []))
  then Err (InterfaceFieldsMissing (ot_name object) (it_name interface) missing_fields)
  else Ok ().

Abbreviation InterfaceMaps := (gmap string (list InterfaceType) * TypesForInterface)%type.

(** The body of the inner loop of [collect_interfaces]. *)
Definition collect_interface (document : Document) (object_type : ObjectType)
    (maps : InterfaceMaps) (implemented_interface : string)
  : res SchemaValidationError InterfaceMaps :=
  let '(interfaces_for_type, types_for_interface) := maps in
  let? interface_type := ok_or (find_interface document implemented_interface)
                           (InterfaceUndefined implemented_interface) in
  let? _ := validate_interface_implementation object_type interface_type in
  let? types := unwrap (types_for_interface !! implemented_interface) in
  Ok (<[ot_name object_type :=
          default [] (interfaces_for_type !! ot_name object_type) ++ [interface_type]]>
        interfaces_for_type,
      <[implemented_interface := types ++ [object_type]]> types_for_interface).

Definition collect_interfaces (document : Document) : res SchemaValidationError InterfaceMaps :=
  let types_for_interface :=
    collect_map ((fun t => (it_name t, [])) <$> get_interface_type_definitions document) in
  fold_res (fun maps object_type =>
              fold_res (collect_interface document object_type) maps
                (ot_implements_interfaces object_type))
    (∅, types_for_interface) (get_object_type_definitions document).

(** *** [@subgraphId] *)
Definition type_directives (t : TypeDefinition) : list Directive :=
  match t with
  | TDScalar t => st_directives t | TDObject t => ot_directives t
  | TDInterface t => it_directives t | TDUnion t => ut_directives t
  | TDEnum t => et_directives t | TDInputObject t => iot_directives t
  end.

Definition set_type_directives (t : TypeDefinition) (ds : list Directive) : TypeDefinition :=
  match t with
  | TDScalar t => TDScalar (mk_scalar_type (st_name t) ds)
  | TDObject t => TDObject (mk_object_type (ot_name t) (ot_implements_interfaces t) ds (ot_fields t))
  | TDInterface t => TDInterface (mk_interface_type (it_name t) ds (it_fields t))
  | TDUnion t => TDUnion (mk_union_type (ut_name t) ds (ut_types t))
  | TDEnum t => TDEnum (mk_enum_type (et_name t) ds (et_values t))
  | TDInputObject t => TDInputObject (mk_input_object_type (iot_name t) ds (iot_fields t))
  end.

Definition add_subgraph_id_directive (id : SubgraphDeploymentId) (definition : DefinitionNode)
  : DefinitionNode :=
  match definition with
  | TypeDef t =>
      if negb (String.eqb (get_type_name t) SCHEMA_TYPE_NAME)
         && bool_decide (find_directive (type_directives t) "subgraphId" = None)
      then TypeDef (set_type_directives t
                      (type_directives t ++ [mk_directive "subgraphId" [("id", QString id)]]))
      else definition
  | OtherDef => OtherDef
  end.

Definition add_subgraph_id_directives (s : Schema) (id : SubgraphDeploymentId) : Schema :=
  mk_schema (sc_id s) (add_subgraph_id_directive id <$> sc_document s)
    (sc_interfaces_for_type s) (sc_types_for_interface s).

(** [Schema::parse] after the text has been parsed. *)
Definition Schema_parse (document : Document) (id : SubgraphDeploymentId)
  : res SchemaValidationError Schema :=
  let? (interfaces_for_type, types_for_interface) := collect_interfaces document in
  Ok (add_subgraph_id_directives
        (mk_schema id document interfaces_for_type types_for_interface) id).

(** *** Imports *)
Definition parse_types (import : Directive) : list ImportedType :=
  match argument import "types" with
  | Some (QList types) => omap imported_type_parse types
  | _ => []
  end.

Definition import_types (import : Directive) : list (ImportedType * SchemaReference) :=
  match argument import "from" with
  | Some from =>
      match schema_reference_parse from with
      | Some schema_ref => (fun t => (t, schema_ref)) <$> parse_types import
      | None => []
      end
  | None => []
  end.

Definition imported_types (s : Schema) : gmap ImportedType SchemaReference :=
  collect_map (schema_directives "import" s ≫= import_types).

Definition imported_schemas (s : Schema) : list SchemaReference :=
  omap (fun import => argument import "from" ≫= schema_reference_parse)
    (schema_directives "import" s).

(** [SchemaReference::resolve]; the store is asked for the schema. *)
Definition resolve (input_schema : SubgraphDeploymentId -> res () Schema)
    (r : SchemaReference) : res SchemaImportError Schema :=
  map_err (fun _ => ImportedSchemaNotFound r) (input_schema (sr_subgraph r)).

(** What following imports changes: the schemas found and the visit log. *)
Record ImportState := mk_import_state {
  is_schemas : gmap SchemaReference Schema;
  is_visit_log : gset SubgraphDeploymentId;
}.

(** The body of the fold of [resolve_import_graph]; [go] is the recursive
    call. *)
Definition import_step (input_schema : SubgraphDeploymentId -> res () Schema)
    (go : Schema -> ImportState -> option (ImportState * list SchemaImportError))
    (acc : ImportState * list SchemaImportError) (schema_ref : SchemaReference)
  : option (ImportState * list SchemaImportError) :=
  let '(st, errors) := acc in
  match resolve input_schema schema_ref with
  | Ok schema =>
      let schemas := <[schema_ref := schema]> (is_schemas st) in
      if bool_decide (sc_id schema ∈ is_visit_log st)
      then Some (mk_import_state schemas (is_visit_log st), errors)
      else
        '(st, more) ← go schema (mk_import_state schemas ({[sc_id schema]} ∪ is_visit_log st));
        Some (st, errors ++ more)
  | Err err => Some (st, errors ++ [err])
  | Panic => None
  end.

Fixpoint resolve_import_graph (fuel : nat) (input_schema : SubgraphDeploymentId -> res () Schema)
    (s : Schema) (st : ImportState) : option (ImportState * list SchemaImportError) :=
  match fuel with
  | O => None
  | S fuel =>
      foldl (fun acc r => acc ≫= fun acc =>
               import_step input_schema (resolve_import_graph fuel input_schema) acc r)
        (Some (st, [])) (imported_schemas s)
  end.

Definition resolve_schema_references (fuel : nat)
    (input_schema : SubgraphDeploymentId -> res () Schema) (s : Schema)
  : option (gmap SchemaReference Schema * list SchemaImportError) :=
  '(st, import_errors) ← resolve_import_graph fuel input_schema s (mk_import_state ∅ ∅);
  Some (is_schemas st, import_errors).

(** *** The checks of [validate] *)
Definition validate_schema_type_has_no_fields (s : Schema) : res SchemaValidationError unit :=
  match subgraph_schema_object_type s with
  | Some t => if negb (bool_decide (length (ot_fields t) = 0)) then Err SchemaTypeWithFields else Ok ()
  | None => Ok ()
  end.

Definition validate_directives_on_schema_type (s : Schema) : res SchemaValidationError unit :=
  match subgraph_schema_object_type s with
  | Some t =>
      if existsb (fun d => negb (String.eqb (dir_name d) "import")
                           && negb (String.eqb (dir_name d) "fulltext")) (ot_directives t)
      then Err InvalidSchemaTypeDirectives else Ok ()
  | None => Ok ()
  end.

Definition validate_import_type (typ : qvalue) : bool :=
  match typ with
  | QString _ => true
  | QObject typ =>
      match object_get typ "name", object_get typ "as" with
      | Some (QString _), Some (QString _) => true
      | _, _ => false
      end
  | _ => false
  end.

Definition types_are_valid (types : option qvalue) : bool :=
  match types with
  | Some (QList types) => forallb validate_import_type types
  | _ => false
  end.

Definition from_is_valid (from : option qvalue) : bool :=
  match from with
  | Some (QObject from) =>
      let has_id := match object_get from "id" with Some (QString _) => true | _ => false end in
      let has_name := match object_get from "name" with Some (QString _) => true | _ => false end in
      xorb has_id has_name
  | _ => false
  end.

Definition validate_import_directive_arguments (import : Directive)
  : option SchemaValidationError :=
  if from_is_valid (argument import "from") && types_are_valid (argument import "types")
  then None else Some ImportDirectiveInvalid.

Definition validate_import_directive_schema_reference_parses (directive : Directive)
  : option SchemaValidationError :=
  match argument directive "from" with
  | Some (QObject from) =>
      let id_parse_error :=
        match object_get from "id" with
        | Some (QString id) =>
            match SubgraphDeploymentId_new id with
            | Err _ => Some (ImportedSubgraphIdInvalid id)
            | _ => None
            end
        | _ => None
        end in
      let name_parse_error :=
        match object_get from "name" with
        | Some (QString name) =>
            match SubgraphName_new name with
            | Err _ => Some (ImportedSubgraphNameInvalid name)
            | _ => None
            end
        | _ => None
        end in
      match id_parse_error with Some e => Some e | None => name_parse_error end
  | _ => None
  end.

Definition validate_import_directives (s : Schema) : list SchemaValidationError :=
  schema_directives "import" s ≫= fun import =>
    option_list (validate_import_directive_arguments import)
    ++ option_list (validate_import_directive_schema_reference_parses import).

Definition field_name_collides (name : string) (field : Field) : bool :=
  String.eqb name (to_camel_case (fd_name field))
  || String.eqb name (to_camel_case (to_plural (fd_name field)))
  || String.eqb (fd_name field) name.

Definition has_name (name : string) (fulltext : Directive) : bool :=
  match argument fulltext "name" with Some (QString n) => String.eqb name n | _ => false end.

Definition validate_fulltext_directive_name (s : Schema) (fulltext : Directive)
  : list SchemaValidationError :=
  match argument fulltext "name" with
  | Some (QString name) =>
      if existsb (fun typ => existsb (field_name_collides name) (ot_fields typ))
           (get_object_type_definitions (sc_document s))
      then [FulltextNameCollision name]
      else if (1 <? length (filter (fun d => has_name name d) (schema_directives "fulltext" s)))%nat
      then [FulltextNameConflict name]
      else []
  | _ => [FulltextNameUndefined]
  end.

Definition validate_fulltext_directive_language (fulltext : Directive)
  : list SchemaValidationError :=
  match argument fulltext "language" with
  | Some (QEnum language) =>
      match FulltextLanguage_try_from language with
      | Ok _ => []
      | _ => [FulltextLanguageInvalid language]
      end
  | _ => [FulltextLanguageUndefined]
  end.

Definition validate_fulltext_directive_algorithm (fulltext : Directive)
  : list SchemaValidationError :=
  match argument fulltext "algorithm" with
  | Some (QEnum algorithm) =>
      match FulltextAlgorithm_try_from algorithm with
      | Ok _ => []
      | _ => [FulltextAlgorithmInvalid algorithm]
      end
  | _ => [FulltextAlgorithmUndefined]
  end.

Definition is_string_field (field_name : string) (field : Field) : bool :=
  match ValueType_from_str (get_base_type (fd_field_type field)) with
  | Ok VT_String => String.eqb (fd_name field) field_name
  | _ => false
  end.

(** The bodies of the two loops over the [include] list; a failing loop
    returns its one error. *)
Definition check_included_field (entity_type : ObjectType) (field_value : qvalue)
  : res SchemaValidationError unit :=
  match field_value with
  | QObject field_map =>
      match object_get field_map "name" with
      | Some (QString field_name) =>
          if negb (existsb (is_string_field field_name) (ot_fields entity_type))
          then Err (FulltextIncludedFieldInvalid field_name) else Ok ()
      | _ => Err FulltextIncludedFieldMissingRequiredProperty
      end
  | _ => Err FulltextIncludeEntityMissingOrIncorrectAttributes
  end.

Definition check_include (local_types : list ObjectType) (include : qvalue)
  : res SchemaValidationError unit :=
  match value_object include with
  | None => Err FulltextIncludeObjectMissing
  | Some include_entity =>
      match object_get include_entity "entity", object_get include_entity "fields" with
      | Some (QString entity), Some (QList fields) =>
          match List.find (fun typ => String.eqb (ot_name typ) entity) local_types with
          | None => Err FulltextIncludedEntityNotFound
          | Some entity_type =>
              fold_res (fun _ field => check_included_field entity_type field) () fields
          end
      | _, _ => Err FulltextIncludeEntityMissingOrIncorrectAttributes
      end
  end.

Definition validate_fulltext_directive_includes (s : Schema) (fulltext : Directive)
  : list SchemaValidationError :=
  match argument fulltext "include" with
  | Some (QList ((_ :: _) as includes)) =>
      match fold_res (fun _ include =>
                        check_include (get_object_type_definitions (sc_document s)) include)
              () includes with
      | Err e => [e]
      | _ => []
      end
  | _ => [FulltextIncludeUndefined]
  end.

Definition validate_fulltext_directives (s : Schema) : list SchemaValidationError :=
  schema_directives "fulltext" s ≫= fun fulltext =>
    validate_fulltext_directive_name s fulltext
    ++ validate_fulltext_directive_language fulltext
    ++ validate_fulltext_directive_algorithm fulltext
    ++ validate_fulltext_directive_includes s fulltext.

(** Whether a schema defines or imports the type. *)
Definition offers_type (schema : Schema) (name : string) : bool :=
  existsb (fun object => String.eqb (ot_name object) name)
    (get_object_type_definitions (sc_document schema))
  || existsb (fun import : ImportedType * SchemaReference => String.eqb name (im_alias import.1))
       (hash_iter (imported_types schema)).

Definition validate_imported_types (s : Schema) (schemas : gmap SchemaReference Schema)
  : list SchemaValidationError :=
  omap (fun import : ImportedType * SchemaReference =>
          let '(imported_type, schema_ref) := import in
          schema ← schemas !! schema_ref;
          if negb (offers_type schema (im_name imported_type))
          then Some (ImportedTypeUndefined (im_name imported_type) (sr_subgraph schema_ref))
          else None)
    (hash_iter (imported_types s)).

Definition field_type_known (s : Schema) (base : string) : bool :=
  is_scalar base
  || bool_decide (is_Some (get_object_and_interface_type_fields (sc_document s) !! base))
  || existsb (fun import : ImportedType * SchemaReference => String.eqb (im_alias import.1) base)
       (hash_iter (imported_types s))
  || existsb (fun enu => String.eqb (et_name enu) base) (get_enum_definitions (sc_document s)).

Definition validate_fields (s : Schema) : list SchemaValidationError :=
  hash_iter (get_object_and_interface_type_fields (sc_document s)) ≫=
    fun '(type_name, fields) =>
      omap (fun field =>
              let base := get_base_type (fd_field_type field) in
              if field_type_known s base then None
              else Some (FieldTypeUnknown type_name (fd_name field) base)) fields.

Definition validate_schema_types (s : Schema) : res SchemaValidationError unit :=
  let types_without_entity_directive :=
    ot_name <$> filter (fun t => find_directive (ot_directives t) "entity" = None
                                 /\ ot_name t <> SCHEMA_TYPE_NAME)
      (get_object_type_definitions (sc_document s)) in
  if bool_decide (types_without_entity_directive = []) then Ok ()
  else Err (EntityDirectivesMissing types_without_entity_directive).

Definition interface_has_field (document : Document) (field : Field) (iface : string) : bool :=
  match find_interface document iface with
  | Some iface => existsb (fun ifield => String.eqb (fd_name ifield) (fd_name field)) (it_fields iface)
  | None => false
  end.

(** The interfaces of the type that have the field too. *)
Definition interfaces_with_field (document : Document) (object_type : ObjectType) (field : Field)
  : list string :=
  filter (fun iface => interface_has_field document field iface)
    (ot_implements_interfaces object_type).

Definition derived_fields (document : Document) : list (ObjectType * Field * Directive) :=
  get_object_type_definitions document ≫= fun object_type =>
    omap (fun field => (fun directive => (object_type, field, directive))
                         <$> find_directive (fd_directives field) "derivedFrom")
      (ot_fields object_type).

Definition type_signatures (name : string) : list string :=
  [name; name +:+ "!"; "[" +:+ name +:+ "!]"; "[" +:+ name +:+ "!]!"].

(** The body of the loop of [validate_derived_from]. *)
Definition check_derived_field (document : Document) (d : ObjectType * Field * Directive)
  : res SchemaValidationError unit :=
  let '(object_type, field, directive) := d in
  let interface_types := interfaces_with_field document object_type field in
  let invalid reason := InvalidDerivedFrom (ot_name object_type) (fd_name field) reason in
  let? target_field :=
    ok_or (argument directive "field")
      (invalid "the @derivedFrom directive must have a `field` argument") in
  let? target_field :=
    ok_or (value_string target_field)
      (invalid "the @derivedFrom `field` argument must be a string") in
  let target_type_name := get_base_type (fd_field_type field) in
  let? target_fields :=
    ok_or (get_object_and_interface_type_fields document !! target_type_name)
      (invalid "type must be an existing entity or interface") in
  let? target_field :=
    ok_or (List.find (fun field => String.eqb (fd_name field) target_field) target_fields)
      (invalid ("field `" +:+ target_field +:+ "` does not exist on type `" +:+ target_type_name
                +:+ "`")) in
  let target_field_type := get_base_type (fd_field_type target_field) in
  if negb (String.eqb target_field_type (ot_name object_type))
     && negb (String.eqb target_field_type "ID")
     && negb (existsb (String.eqb target_field_type) interface_types)
  then
    let valid_types := type_signatures (ot_name object_type) ++ (interface_types ≫= type_signatures) in
    Err (invalid ("field `" +:+ fd_name target_field +:+ "` on type `" +:+ target_type_name
                  +:+ "` must have one of the following types: "
                  +:+ String.concat ", " valid_types))
  else Ok ().

Definition validate_derived_from (s : Schema) : res SchemaValidationError unit :=
  fold_res (fun _ d => check_derived_field (sc_document s) d) () (derived_fields (sc_document s)).

(** [unwrap_or_else(|err| errors.push(err))] *)
Definition error_of (m : res SchemaValidationError unit) : list SchemaValidationError :=
  match m with Err e => [e] | _ => [] end.

Definition validate (s : Schema) (schemas : gmap SchemaReference Schema)
  : res (list SchemaValidationError) unit :=
  let errors :=
    error_of (validate_schema_types s)
    ++ error_of (validate_derived_from s)
    ++ error_of (validate_schema_type_has_no_fields s)
    ++ error_of (validate_directives_on_schema_type s)
    ++ validate_fields s
    ++ validate_import_directives s
    ++ validate_fulltext_directives s
    ++ validate_imported_types s schemas in
  match errors with [] => Ok () | _ => Err errors end.

(** *** Fulltext definitions of an entity *)
Definition includes_entity (entity : string) (include : qvalue) : bool :=
  match include with
  | QObject include =>
      match object_get include "entity" with
      | Some (QString fulltext_entity) => String.eqb fulltext_entity entity
      | _ => false
      end
  | _ => false
  end.

Definition mentions_entity (entity : string) (directive : Directive) : bool :=
  match argument directive "include" with
  | Some (QList includes) => existsb (includes_entity entity) includes
  | _ => false
  end.

Definition entity_fulltext_definitions (entity : string) (document : Document)
  : res Empty_set (list FulltextDefinition) :=
  map_res FulltextDefinition_from
    (filter (fun d => mentions_entity entity d) (get_fulltext_directives document)).
End schema.

(** ** Hash maps collected from lists *)
Section collect_map.
Context {K V : Type} `{Countable K}.
Implicit Types l : list (K * V).

Lemma collect_map_snoc l kv : collect_map (l ++ [kv]) = <[kv.1 := kv.2]> (collect_map l).
Proof. unfold collect_map. by rewrite foldl_app. Qed.

Lemma collect_map_elem l k v : collect_map l !! k = Some v -> (k, v) ∈ l.
Proof.
  induction l as [|[k' v'] l IH] using rev_ind; [done|]. rewrite collect_map_snoc. cbn [fst snd].
  rewrite elem_of_app, list_elem_of_singleton. intros [[<- <-]|[_ Hl]]%lookup_insert_Some; auto.
Qed.

Lemma collect_map_is_Some l k : is_Some (collect_map l !! k) <-> k ∈ l.*1.
Proof.
  induction l as [|[k' v'] l IH] using rev_ind.
  { unfold collect_map. cbn. rewrite lookup_empty, elem_of_nil, is_Some_alt. done. }
  rewrite collect_map_snoc, fmap_app, elem_of_app, <- IH. cbn [fst snd fmap list_fmap].
  rewrite lookup_insert_is_Some, list_elem_of_singleton. destruct (decide (k' = k)); naive_solver.
Qed.

(** The last value of a key counts. *)
Lemma collect_map_last l k v :
  collect_map l !! k = Some v <-> exists pre post, l = pre ++ (k, v) :: post /\ k ∉ post.*1.
Proof.
  induction l as [|[k' v'] l IH] using rev_ind.
  { unfold collect_map. cbn. rewrite lookup_empty. split; [done|]. by intros ([] & ? & ? & _). }
  rewrite collect_map_snoc, lookup_insert_Some, IH. cbn [fst snd]. split.
  - intros [[-> ->]|(Hk & pre & post & -> & Hp)].
    + exists l, []. split; [done|]. apply not_elem_of_nil.
    + exists pre, (post ++ [(k', v')]). split; [by rewrite <- app_assoc|].
      rewrite fmap_app, not_elem_of_app. split; [done|]. cbn. set_solver.
  - intros (pre & post & E & Hp). destruct post as [|kv post _] using rev_ind.
    + apply app_inj_tail in E as [-> [= -> ->]]. by left.
    + rewrite app_comm_cons, app_assoc in E. apply app_inj_tail in E as [-> <-].
      rewrite fmap_app, not_elem_of_app in Hp. destruct Hp as [Hp Hk]. cbn in Hk.
      right. split; [set_solver|]. by exists pre, post.
Qed.
End collect_map.

Lemma hash_iter_elem `{HashOrder} {K V} `{Countable K} (m : gmap K V) k v :
  (k, v) ∈ hash_iter m <-> m !! k = Some v.
Proof. by rewrite hash_iter_perm, elem_of_map_to_list. Qed.

Lemma bind_nil_iff {A B} (f : A -> list B) l : l ≫= f = [] <-> forall x, x ∈ l -> f x = [].
Proof.
  induction l as [|x l IH]; [set_solver|]. rewrite bind_cons. split.
  - intros [E1 E2]%app_nil. rewrite IH in E2. intros y [->|?]%elem_of_cons; auto.
  - intros Hl. rewrite (Hl x) by left. cbn. apply IH. intros y ?. apply Hl. by right.
Qed.

Lemma omap_nil_iff {A B} (f : A -> option B) l : omap f l = [] <-> forall x, x ∈ l -> f x = None.
Proof.
  induction l as [|x l IH]; [set_solver|]. rewrite omap_cons_eq. split.
  - destruct (f x) eqn:E; [done|]. intros Hl y [->|?]%elem_of_cons; [done|]. by apply IH.
  - intros Hl. rewrite (Hl x) by left. apply IH. intros y ?. apply Hl. by right.
Qed.

Lemma find_none_iff {A} (p : A -> bool) l : List.find p l = None <-> forall x, x ∈ l -> p x = false.
Proof.
  induction l as [|x l IH]; cbn; [set_solver|]. destruct (p x) eqn:E.
  - split; [done|]. intros Hl. rewrite (Hl x) in E by left. done.
  - rewrite IH. split; [|set_solver]. intros Hl y [->|?]%elem_of_cons; auto.
Qed.

Lemma fold_res_unit_ok {E A} (f : A -> res E unit) l :
  fold_res (fun _ x => f x) () l = Ok () <-> forall x, x ∈ l -> f x = Ok ().
Proof.
  induction l as [|x l IH]; [set_solver|]. rewrite fold_res_cons.
  destruct (f x) as [[]|e|] eqn:Ef; cbn [res_bind].
  - rewrite IH. split; [|set_solver]. intros Hl y [->|?]%elem_of_cons; auto.
  - split; [done|]. intros Hl. rewrite (Hl x) in Ef by left. done.
  - split; [done|]. intros Hl. rewrite (Hl x) in Ef by left. done.
Qed.

(** ** Interfaces *)
Section interfaces.
Context `{SyntaxText}.

Definition declares (document : Document) (name : string) : Prop :=
  exists t, t ∈ get_interface_type_definitions document /\ it_name t = name.

(** An object type has a field of an interface: name and type agree. *)
Definition has_field_of (object : ObjectType) (i : Field) : Prop :=
  exists o, o ∈ ot_fields object /\ fd_name o = fd_name i /\ fd_field_type o = fd_field_type i.

Definition implements (object : ObjectType) (interface : InterfaceType) : Prop :=
  forall i, i ∈ it_fields interface -> has_field_of object i.

Definition interface_sound (document : Document) (object : ObjectType) (name : string) : Prop :=
  exists interface, find_interface document name = Some interface /\ implements object interface.

Lemma implements_field_spec object i : implements_field object i = true <-> has_field_of object i.
Proof.
  unfold implements_field. rewrite existsb_true_iff. unfold has_field_of.
  split; intros (o & Ho & E); exists o; (split; [done|]).
  - apply andb_true_iff in E as [E1%String.eqb_eq E2%bool_decide_eq_true]. done.
  - destruct E as [-> ->]. by rewrite String.eqb_refl, bool_decide_eq_true_2.
Qed.

Lemma validate_interface_spec object interface :
  match validate_interface_implementation object interface with
  | Ok _ => implements object interface
  | Err e => ~ implements object interface
      /\ e = InterfaceFieldsMissing (ot_name object) (it_name interface)
               ((fun i => trim (field_to_string i))
                  <$> List.filter (fun i => negb (implements_field object i)) (it_fields interface))
  | Panic => False
  end.
Proof.
  unfold validate_interface_implementation.
  set (missing := filter _ (it_fields interface)).
  assert (missing = List.filter (fun i => negb (implements_field object i)) (it_fields interface))
    as Em.
  { subst missing. generalize (it_fields interface) as l.
    induction l as [|i l IH]; [done|]. rewrite filter_cons. cbn [List.filter].
    rewrite IH. by destruct (implements_field object i). }
  assert (missing = [] <-> implements object interface) as Hm.
  { unfold implements. subst missing. setoid_rewrite <- implements_field_spec. split.
    - intros E i Hi. destruct (implements_field object i) eqn:Ei; [done|].
      assert (i ∈ @nil Field) as []%elem_of_nil.
      rewrite <- E. apply list_elem_of_filter. split; [rewrite Ei; exact I|done].
    - intros Hi. apply filter_none. intros i Hin. rewrite (Hi i Hin). by intros []. }
  rewrite <- Em. destruct missing as [|i l]; cbn.
  - by apply Hm.
  - split; [|done]. by intros ?%Hm.
Qed.

Lemma find_interface_some document name t :
  find_interface document name = Some t ->
  t ∈ get_interface_type_definitions document /\ it_name t = name.
Proof.
  unfold find_interface. intros [Ht E%String.eqb_eq]%List.find_some.
  by split; [apply list_elem_of_In|].
Qed.

(** Every mention of an interface by an object type, in the order of the
    document, and what the two maps are to hold for a name. *)
Definition implementations (document : Document) : list (ObjectType * string) :=
  get_object_type_definitions document ≫= fun t => pair t <$> ot_implements_interfaces t.

Definition interfaces_in (document : Document) (l : list (ObjectType * string)) (name : string)
  : list InterfaceType :=
  omap (fun p => if String.eqb (ot_name p.1) name then find_interface document p.2 else None) l.

Definition implementors_in (l : list (ObjectType * string)) (name : string) : list ObjectType :=
  omap (fun p => if String.eqb p.2 name then Some p.1 else None) l.

Lemma collect_interfaces_flat document maps :
  fold_res (fun maps t => fold_res (collect_interface document t) maps (ot_implements_interfaces t))
    maps (get_object_type_definitions document)
  = fold_res (fun maps p => collect_interface document p.1 maps p.2) maps
      (implementations document).
Proof.
  unfold implementations. revert maps.
  induction (get_object_type_definitions document) as [|t l IH]; intros maps; [done|].
  rewrite fold_res_cons, bind_cons, fold_res_app.
  assert (forall l m, fold_res (fun maps p => collect_interface document p.1 maps p.2) m (pair t <$> l)
            = fold_res (collect_interface document t) m l) as E.
  { clear. intros l. induction l as [|i l IH]; intros m; [done|].
    rewrite fmap_cons, !fold_res_cons. cbn [fst snd]. destruct collect_interface; by cbn. }
  rewrite E. by destruct fold_res; cbn.
Qed.

(** The maps after the mentions of [l]. *)
Record maps_hold (document : Document) (l : list (ObjectType * string))
    (maps : gmap string (list InterfaceType) * TypesForInterface) : Prop := mk_maps_hold {
  mh_sound : forall t i, (t, i) ∈ l -> interface_sound document t i;
  mh_interfaces : forall n,
    maps.1 !! n = match interfaces_in document l n with [] => None | its => Some its end;
  mh_types : forall n, declares document n -> maps.2 !! n = Some (implementors_in l n);
  mh_undeclared : forall n, ~ declares document n -> maps.2 !! n = None;
}.

Definition interface_error (document : Document) (t : ObjectType) (i : string)
    (e : SchemaValidationError) : Prop :=
  match find_interface document i with
  | None => e = InterfaceUndefined i
  | Some interface => ~ implements t interface /\ exists missing,
      e = InterfaceFieldsMissing (ot_name t) (it_name interface) missing
  end.

Lemma collect_interface_step document l t i maps :
  maps_hold document l maps ->
  match collect_interface document t maps i with
  | Ok maps' => maps_hold document (l ++ [(t, i)]) maps'
  | Err e => interface_error document t i e
  | Panic => False
  end.
Proof.
  intros [Hs Hi Ht Hu]. destruct maps as [ift tfi]. unfold collect_interface, interface_error.
  cbn [fst snd] in *. destruct (find_interface document i) as [interface|] eqn:Ef; [|done].
  cbn [ok_or res_bind]. pose proof (validate_interface_spec t interface) as Hv.
  destruct validate_interface_implementation as [[]|e|]; cbn [res_bind]; [|naive_solver|done].
  pose proof (find_interface_some _ _ _ Ef) as Hd.
  assert (declares document i) as Hdi by (by exists interface).
  rewrite (Ht i Hdi). cbn [unwrap res_bind]. split.
  - intros t' i' [?|[= -> ->]%list_elem_of_singleton]%elem_of_app; [by apply Hs|]. by exists interface.
  - intros n. cbn [fst snd]. unfold interfaces_in. rewrite omap_app. fold (interfaces_in document l n).
    cbn [omap list_omap fst snd]. rewrite Ef. destruct (String.eqb_spec (ot_name t) n) as [->|Hn].
    + rewrite lookup_insert_eq, Hi. fold (interfaces_in document l n).
      by destruct (interfaces_in document l n).
    + by rewrite lookup_insert_ne, Hi, app_nil_r.
  - intros n Hn. cbn [fst snd]. unfold implementors_in. rewrite omap_app.
    fold (implementors_in l n). cbn [omap list_omap fst snd].
    destruct (String.eqb_spec i n) as [->|Hne]; [by rewrite lookup_insert_eq|].
    by rewrite lookup_insert_ne, Ht, app_nil_r.
  - intros n Hn. cbn [fst snd]. rewrite lookup_insert_ne; [by apply Hu|]. by intros ->.
Qed.

Lemma maps_hold_start document :
  maps_hold document []
    (∅, collect_map ((fun t => (it_name t, [])) <$> get_interface_type_definitions document)).
Proof.
  assert (forall n, n ∈ ((fun t => (it_name t, @nil ObjectType))
              <$> get_interface_type_definitions document).*1 <-> declares document n) as Hd.
  { intros n. rewrite <- list_fmap_compose, list_elem_of_fmap. unfold declares.
    split; intros (t & ? & ?); exists t; done. }
  split; cbn [fst snd].
  - intros t i []%elem_of_nil.
  - intros n. apply lookup_empty.
  - intros n Hn. apply Hd, collect_map_is_Some in Hn as [ts E]. rewrite E.
    by apply collect_map_elem, list_elem_of_fmap in E as (? & [= -> ->] & _).
  - intros n Hn. apply eq_None_not_Some. by intros ?%collect_map_is_Some%Hd.
Qed.

Lemma collect_loop document l done maps :
  maps_hold document done maps ->
  match fold_res (fun maps p => collect_interface document p.1 maps p.2) maps l with
  | Ok maps => maps_hold document (done ++ l) maps
  | Err e => exists t i, (t, i) ∈ l /\ interface_error document t i e
  | Panic => False
  end.
Proof.
  revert done maps. induction l as [|[t i] l IH]; intros done maps Hm; [by rewrite app_nil_r|].
  rewrite fold_res_cons. cbn [fst snd]. pose proof (collect_interface_step _ _ t i _ Hm) as Hs.
  destruct (collect_interface document t maps i) as [maps'|e|]; cbn [res_bind]; [| |done].
  - specialize (IH (done ++ [(t, i)]) maps' Hs). rewrite <- app_assoc in IH.
    destruct fold_res; [done| |done]. destruct IH as (t' & i' & Hin & He).
    exists t', i'. split; [by right|done].
  - exists t, i. split; [by left|done].
Qed.

(** Collecting the interfaces never panics.  It succeeds with maps that hold,
    for every type name, the interfaces its types name and, for every declared
    interface, the types that name it (also when there is none); or it fails at
    a type that names an undeclared interface or lacks one of its fields. *)
Theorem collect_interfaces_spec document :
  match collect_interfaces document with
  | Ok maps => maps_hold document (implementations document) maps
  | Err e => exists t i, (t, i) ∈ implementations document /\ interface_error document t i e
  | Panic => False
  end.
Proof.
  unfold collect_interfaces. rewrite collect_interfaces_flat.
  exact (collect_loop _ _ _ _ (maps_hold_start document)).
Qed.

(** A type that breaks an interface is what the error is about. *)
Lemma interface_error_unsound document t i e :
  interface_error document t i e -> ~ interface_sound document t i.
Proof.
  unfold interface_error. intros He (x & E & Hi). rewrite E in He. naive_solver.
Qed.
End interfaces.

(** ** Valid schemas, without reference to the checks

    Two of the rules are read in two ways: [as_checked], the way the code has
    them, and [as_documented], the way its comments and messages have them. *)
Section valid.
Context `{SyntaxText} `{Inflector} `{HashOrder}.

Definition objects (s : Schema) : list ObjectType := get_object_type_definitions (sc_document s).

Record reading := mk_reading {
  (** the text of the [name] and of the [as] of a renamed type *)
  rd_text : qvalue -> option string;
  (** whether types can be imported from a subgraph that is given by name *)
  rd_by_name : bool;
  (** the names a fulltext query can not have *)
  rd_taken : Schema -> string -> Prop;
}.

(** The names of the queries for a type: for one entity and for many of them. *)
Definition queries_of (name query : string) : Prop :=
  query = to_camel_case name \/ query = to_camel_case (to_plural name).

Definition field_like (s : Schema) (name : string) : Prop :=
  exists t f, t ∈ objects s /\ f ∈ ot_fields t
    /\ (name = fd_name f \/ queries_of (fd_name f) name).

Definition query_field (s : Schema) (name : string) : Prop :=
  exists type, (type ∈ ot_name <$> objects s
                \/ type ∈ it_name <$> get_interface_type_definitions (sc_document s))
    /\ type <> SCHEMA_TYPE_NAME /\ queries_of type name.

Definition as_checked : reading := {|
  rd_text v := Some (value_to_string v);
  rd_by_name := false;
  rd_taken := field_like;
|}.

Definition as_documented : reading := {|
  rd_text v := match v with QString text => Some text | _ => None end;
  rd_by_name := true;
  rd_taken := query_field;
|}.

(** The types a schema imports, in order, each with the schema it is imported
    from, if that is given by id. *)
Definition read_import (rd : reading) (v : qvalue) : option ImportedType :=
  match v with
  | QString name => Some (mk_imported_type name name false)
  | QObject o =>
      name ← object_get o "name" ≫= rd_text rd;
      alias ← object_get o "as" ≫= rd_text rd;
      Some (mk_imported_type name alias true)
  | _ => None
  end.

Definition given_by_name (d : Directive) : bool :=
  match argument d "from" with
  | Some (QObject from) => match object_get from "name" with Some (QString _) => true | _ => false end
  | _ => false
  end.

Definition read_source (rd : reading) (d : Directive) : option (option SchemaReference) :=
  match argument d "from" ≫= schema_reference_parse with
  | Some r => Some (Some r)
  | None => if rd_by_name rd && given_by_name d then Some None else None
  end.

Definition imports (rd : reading) (s : Schema) : list (ImportedType * option SchemaReference) :=
  schema_directives "import" s ≫= fun d =>
    match read_source rd d, argument d "types" with
    | Some source, Some (QList types) => (fun i => (i, source)) <$> omap (read_import rd) types
    | _, _ => []
    end.

Definition has_directive (name : string) (ds : list Directive) : Prop :=
  exists d, d ∈ ds /\ dir_name d = name.

(** A field derived from the field [name] of the type it refers to: that field
    exists and points back to the type, or to an interface of the type which
    has the derived field too, or is an id. *)
Definition derived_ok (document : Document) (t : ObjectType) (f : Field) (d : Directive) : Prop :=
  exists name fields target,
    argument d "field" = Some (QString name)
    /\ get_object_and_interface_type_fields document !! get_base_type (fd_field_type f) = Some fields
    /\ List.find (fun g => String.eqb (fd_name g) name) fields = Some target
    /\ let back := get_base_type (fd_field_type target) in
       back = ot_name t \/ back = "ID"
       \/ (back ∈ ot_implements_interfaces t
           /\ exists i g, find_interface document back = Some i
                /\ g ∈ it_fields i /\ fd_name g = fd_name f).

(** The type of a field is a scalar, an object or interface type or an enum of
    the document, or imported under its alias. *)
Definition type_known (rd : reading) (s : Schema) (base : string) : Prop :=
  is_scalar base = true
  \/ (exists t, t ∈ get_type_definitions (sc_document s)
        /\ fst <$> object_or_interface_fields t = Some base)
  \/ (exists i source, (i, source) ∈ imports rd s /\ im_alias i = base)
  \/ (exists e, e ∈ get_enum_definitions (sc_document s) /\ et_name e = base).

Definition string_value (o : option qvalue) : Prop := exists s, o = Some (QString s).

Definition import_type_ok (v : qvalue) : Prop :=
  (exists name, v = QString name)
  \/ exists object, v = QObject object
       /\ string_value (object_get object "name") /\ string_value (object_get object "as").

(** An import names a subgraph by a valid id or by a valid name, not both. *)
Definition import_ok (d : Directive) : Prop :=
  exists from types,
    argument d "from" = Some (QObject from)
    /\ argument d "types" = Some (QList types)
    /\ (forall v, v ∈ types -> import_type_ok v)
    /\ ((exists id, object_get from "id" = Some (QString id)
                    /\ is_ok (SubgraphDeploymentId_new id) = true
                    /\ ~ string_value (object_get from "name"))
        \/ (exists name, object_get from "name" = Some (QString name)
                         /\ is_ok (SubgraphName_new name) = true
                         /\ ~ string_value (object_get from "id"))).

(** The [include] list names types of the document and string fields of theirs. *)
Definition include_ok (types : list ObjectType) (v : qvalue) : Prop :=
  exists object entity fields t,
    v = QObject object
    /\ object_get object "entity" = Some (QString entity)
    /\ object_get object "fields" = Some (QList fields)
    /\ List.find (fun t => String.eqb (ot_name t) entity) types = Some t
    /\ forall f, f ∈ fields -> exists fo name,
         f = QObject fo /\ object_get fo "name" = Some (QString name)
         /\ exists g, g ∈ ot_fields t /\ fd_name g = name
              /\ ValueType_from_str (get_base_type (fd_field_type g)) = Ok VT_String.

Definition fulltext_ok (rd : reading) (s : Schema) (d : Directive) : Prop :=
  (exists name, argument d "name" = Some (QString name) /\ ~ rd_taken rd s name)
  /\ (exists language, argument d "language" = Some (QEnum language)
        /\ language ∈ ["simple"; "da"; "nl"; "en"; "fi"; "fr"; "de"; "hu"; "it"; "no"; "pt"; "ro";
                       "ru"; "es"; "sv"; "tr"])
  /\ (exists algorithm, argument d "algorithm" = Some (QEnum algorithm)
        /\ (algorithm = "rank" \/ algorithm = "proximityRank"))
  /\ (exists v includes, argument d "include" = Some (QList (v :: includes))
        /\ forall w, w ∈ v :: includes -> include_ok (objects s) w).

Definition fulltext_names (s : Schema) : list string :=
  omap (fun d => argument d "name" ≫= value_string) (schema_directives "fulltext" s).

(** An imported type is defined or itself imported by the schema it is
    imported from. *)
Definition offers (rd : reading) (schema : Schema) (name : string) : Prop :=
  (exists t, t ∈ objects schema /\ ot_name t = name)
  \/ exists i source, (i, source) ∈ imports rd schema /\ im_alias i = name.

Record valid (rd : reading) (s : Schema) (schemas : gmap SchemaReference Schema) : Prop := mk_valid {
  va_entities : forall t, t ∈ objects s -> ot_name t <> SCHEMA_TYPE_NAME ->
    has_directive "entity" (ot_directives t);
  va_derived : forall t f d, t ∈ objects s -> f ∈ ot_fields t ->
    find_directive (fd_directives f) "derivedFrom" = Some d -> derived_ok (sc_document s) t f d;
  va_no_fields : forall t, subgraph_schema_object_type s = Some t -> ot_fields t = [];
  va_directives : forall t d, subgraph_schema_object_type s = Some t -> d ∈ ot_directives t ->
    dir_name d = "import" \/ dir_name d = "fulltext";
  va_fields : forall name fields f,
    get_object_and_interface_type_fields (sc_document s) !! name = Some fields -> f ∈ fields ->
    type_known rd s (get_base_type (fd_field_type f));
  va_imports : forall d, d ∈ schema_directives "import" s -> import_ok d;
  va_fulltext : forall d, d ∈ schema_directives "fulltext" s -> fulltext_ok rd s d;
  va_distinct : NoDup (fulltext_names s);
  (** where the schema a type is imported from is known (from the last of the
      imports of the type) *)
  va_imported : forall before i r after schema,
    imports rd s = before ++ (i, Some r) :: after -> i ∉ after.*1 ->
    schemas !! r = Some schema -> offers rd schema (im_name i);
}.

(** No type is renamed where it is imported, and subgraphs are given by id. *)
Definition plain_imports (s : Schema) : Prop :=
  forall d, d ∈ schema_directives "import" s ->
    given_by_name d = false
    /\ forall types v, argument d "types" = Some (QList types) -> v ∈ types ->
         exists name, v = QString name.

Lemma error_of_nil m : m <> Panic -> error_of m = [] <-> m = Ok ().
Proof. by destruct m as [[]|e|]. Qed.

Lemma find_directive_iff ds name :
  find_directive ds name = None <-> ~ has_directive name ds.
Proof.
  unfold find_directive. rewrite find_none_iff. unfold has_directive. split.
  - intros Hn (d & Hd & <-). specialize (Hn d Hd). by rewrite String.eqb_refl in Hn.
  - intros Hn d Hd. apply String.eqb_neq. intros E. apply Hn. by exists d.
Qed.

Lemma has_directive_dec name ds : has_directive name ds \/ ~ has_directive name ds.
Proof.
  rewrite <- find_directive_iff. destruct (find_directive ds name) eqn:Ed; [left|by right].
  apply List.find_some in Ed as [Hd E%String.eqb_eq]. exists d. split; [by apply list_elem_of_In|done].
Qed.

Lemma schema_types_ok s :
  error_of (validate_schema_types s) = [] <->
  forall t, t ∈ objects s -> ot_name t <> SCHEMA_TYPE_NAME -> has_directive "entity" (ot_directives t).
Proof.
  unfold validate_schema_types. fold (objects s). case_bool_decide as E; cbn [error_of].
  - split; [|done]. intros _ t Ht Hn. apply fmap_nil_inv in E.
    destruct (has_directive_dec "entity" (ot_directives t)) as [|Hd]; [done|].
    assert (t ∈ @nil ObjectType) as []%elem_of_nil. rewrite <- E.
    apply list_elem_of_filter. by rewrite find_directive_iff.
  - split; [done|]. intros Hall. destruct E. rewrite filter_none; [done|].
    intros t Ht [Hf%find_directive_iff Hn]. by apply Hf, Hall.
Qed.

Lemma schema_type_ok s :
  error_of (validate_schema_type_has_no_fields s) = []
  /\ error_of (validate_directives_on_schema_type s) = [] <->
  (forall t, subgraph_schema_object_type s = Some t -> ot_fields t = [])
  /\ forall t d, subgraph_schema_object_type s = Some t -> d ∈ ot_directives t ->
       dir_name d = "import" \/ dir_name d = "fulltext".
Proof.
  unfold validate_schema_type_has_no_fields, validate_directives_on_schema_type.
  destruct (subgraph_schema_object_type s) as [t|]; [|by split].
  assert (existsb (fun d => negb (String.eqb (dir_name d) "import")
             && negb (String.eqb (dir_name d) "fulltext")) (ot_directives t) = false
          <-> forall d, d ∈ ot_directives t -> dir_name d = "import" \/ dir_name d = "fulltext") as Hd.
  { rewrite existsb_false_iff. split; intros Hall d Hin; specialize (Hall d Hin).
    - destruct (String.eqb_spec (dir_name d) "import"); [by left|].
      destruct (String.eqb_spec (dir_name d) "fulltext"); [by right|done].
    - by destruct Hall as [-> | ->]. }
  destruct existsb eqn:Ee; case_bool_decide as El; cbn.
  - split; [by intros []|]. intros [_ Hall]. enough (true = false) by done. apply Hd. eauto.
  - split; [by intros []|]. intros [_ Hall]. enough (true = false) by done. apply Hd. eauto.
  - apply nil_length_inv in El. split; [|done]. intros _.
    split; [by intros ? [= <-]|]. intros ? d [= <-]. by apply Hd.
  - split; [by intros []|]. intros [Hf _]. destruct El. by rewrite Hf.
Qed.

Lemma fields_ok s :
  validate_fields s = [] <->
  forall name fields f,
    get_object_and_interface_type_fields (sc_document s) !! name = Some fields -> f ∈ fields ->
    field_type_known s (get_base_type (fd_field_type f)) = true.
Proof.
  unfold validate_fields. rewrite bind_nil_iff. split.
  - intros Hall name fields f Hl Hf. specialize (Hall (name, fields)). cbn in Hall.
    rewrite omap_nil_iff in Hall.
    specialize (Hall ltac:(by apply hash_iter_elem) f Hf). cbn in Hall.
    by destruct field_type_known.
  - intros Hall [name fields] Hl%hash_iter_elem. apply omap_nil_iff. intros f Hf. cbn.
    by rewrite (Hall name fields f Hl Hf).
Qed.

Lemma read_import_checked v : read_import as_checked v = imported_type_parse v.
Proof.
  destruct v; try done. cbn. destruct (object_get fields "name"), (object_get fields "as"); done.
Qed.

(** The imports the code collects, before the map keeps the last of each. *)
Lemma imports_checked s :
  imports as_checked s = prod_map id Some <$> (schema_directives "import" s ≫= import_types).
Proof.
  unfold imports. induction (schema_directives "import" s) as [|d l IH]; [done|].
  rewrite !bind_cons, fmap_app, IH. f_equal. unfold read_source, import_types, parse_types. cbn [rd_by_name as_checked andb].
  destruct (argument d "from") as [from|]; [|done]. cbn [mbind option_bind].
  destruct (schema_reference_parse from) as [r|]; [|done].
  destruct (argument d "types") as [[| | | | | | |types|]|]; try done.
  rewrite <- list_fmap_compose. by rewrite (list_omap_ext _ _ types types (Forall_Forall2_diag _ _
    (proj2 (Forall_forall _ _) (fun v _ => read_import_checked v)))).
Qed.

Lemma imported_types_lookup s i r :
  imported_types s !! i = Some r <-> exists before after,
    imports as_checked s = before ++ (i, Some r) :: after /\ i ∉ after.*1.
Proof.
  unfold imported_types. rewrite collect_map_last, imports_checked. split.
  - intros (pre & post & -> & Hp). exists (prod_map id Some <$> pre), (prod_map id Some <$> post).
    rewrite fmap_app. split; [done|]. by rewrite <- list_fmap_compose.
  - intros (before & after & (pre & l & -> & El & ->)%fmap_app_inv & Hp).
    destruct l as [|[i' r'] post]; [done|]. cbn in El. injection El as -> -> ->.
    exists pre, post. split; [done|]. by rewrite <- list_fmap_compose in Hp.
Qed.

Lemma imported_types_iter s (p : ImportedType -> bool) :
  existsb (fun import : ImportedType * SchemaReference => p import.1) (hash_iter (imported_types s))
    = true <->
  exists i source, (i, source) ∈ imports as_checked s /\ p i = true.
Proof.
  rewrite existsb_true_iff. split.
  - intros ([i r] & Hi%hash_iter_elem & Hp). exists i, (Some r). split; [|done].
    apply imported_types_lookup in Hi as (before & after & -> & _). set_solver.
  - intros (i & source & Hi & Hp). rewrite imports_checked in Hi.
    apply list_elem_of_fmap in Hi as ([i' r] & [= -> _] & Hi).
    assert (is_Some (imported_types s !! i')) as [r' Hr].
    { apply collect_map_is_Some, list_elem_of_fmap. by exists (i', r). }
    exists (i', r'). by rewrite hash_iter_elem.
Qed.

Lemma field_type_known_spec s base :
  field_type_known s base = true <-> type_known as_checked s base.
Proof.
  unfold field_type_known, type_known.
  rewrite !orb_true_iff, bool_decide_eq_true,
    (imported_types_iter s (fun i => String.eqb (im_alias i) base)), existsb_true_iff.
  unfold get_object_and_interface_type_fields. rewrite collect_map_is_Some, list_elem_of_fmap.
  setoid_rewrite String.eqb_eq. cbn [fst].
  assert ((exists y : string * list Field, base = y.1
             /\ y ∈ omap object_or_interface_fields (get_type_definitions (sc_document s)))
          <-> exists t, t ∈ get_type_definitions (sc_document s)
               /\ fst <$> object_or_interface_fields t = Some base) as Ho.
  { split.
    - intros (y & -> & (t & Ht & E)%list_elem_of_omap). exists t. split; [exact Ht|]. by rewrite E.
    - intros (t & Ht & E). destruct (object_or_interface_fields t) as [y|] eqn:Ey; [|done].
      injection E as <-. exists y. split; [done|]. apply list_elem_of_omap. by exists t. }
  rewrite Ho. tauto.
Qed.

Lemma offers_type_spec schema name :
  offers_type schema name = true <-> offers as_checked schema name.
Proof.
  unfold offers_type, offers, objects.
  rewrite orb_true_iff, (imported_types_iter schema (fun i => String.eqb name (im_alias i))),
    existsb_true_iff.
  setoid_rewrite String.eqb_eq. split; intros [|(i & r & ? & ?)]; eauto 10.
Qed.

Lemma imported_ok s schemas :
  validate_imported_types s schemas = [] <->
  forall before i r after schema,
    imports as_checked s = before ++ (i, Some r) :: after -> i ∉ after.*1 ->
    schemas !! r = Some schema -> offers as_checked schema (im_name i).
Proof.
  unfold validate_imported_types. rewrite omap_nil_iff. setoid_rewrite <- offers_type_spec. split.
  - intros Hall before i r after schema E Hi Hr.
    specialize (Hall (i, r) ltac:(by apply hash_iter_elem, imported_types_lookup; eauto)).
    cbn in Hall. rewrite Hr in Hall. cbn in Hall. by destruct offers_type.
  - intros Hall [i r] (before & after & E & Hi)%hash_iter_elem%imported_types_lookup. cbn.
    destruct (schemas !! r) as [schema|] eqn:Er; [|done].
    cbn. by rewrite (Hall before i r after schema).
Qed.

Lemma check_derived_no_panic document d : check_derived_field document d <> Panic.
Proof.
  destruct d as [[t f] d]. unfold check_derived_field.
  destruct (argument d "field") as [v|]; [|done]. cbn [ok_or res_bind].
  destruct (value_string v) as [name|]; [|done]. cbn [ok_or res_bind].
  destruct (get_object_and_interface_type_fields document !! _) as [fields|]; [|done].
  cbn [ok_or res_bind]. destruct List.find; [|done]. cbn [ok_or res_bind]. by case_match.
Qed.

Lemma interface_with_field_spec document t f i :
  existsb (String.eqb i) (interfaces_with_field document t f) = true <->
  i ∈ ot_implements_interfaces t
  /\ exists x g, find_interface document i = Some x /\ g ∈ it_fields x /\ fd_name g = fd_name f.
Proof.
  assert (interface_has_field document f i = true <-> exists x g,
    find_interface document i = Some x /\ g ∈ it_fields x /\ fd_name g = fd_name f) as <-.
  { unfold interface_has_field. destruct (find_interface document i) as [x|]; [|naive_solver].
    rewrite existsb_true_iff. setoid_rewrite String.eqb_eq. naive_solver. }
  unfold interfaces_with_field. rewrite existsb_true_iff. split.
  - intros (j & [Hj Hi]%list_elem_of_filter & ->%String.eqb_eq). by apply Is_true_true in Hj.
  - intros [Hi Hf]. exists i. rewrite String.eqb_refl, list_elem_of_filter. by rewrite Hf.
Qed.

Lemma check_derived_spec document t f d :
  check_derived_field document (t, f, d) = Ok () <-> derived_ok document t f d.
Proof.
  unfold check_derived_field, derived_ok. split.
  - destruct (argument d "field") as [v|]; [|done]. cbn [ok_or res_bind].
    destruct v; try done. cbn [value_string ok_or res_bind].
    destruct (get_object_and_interface_type_fields document !! _) as [fields|] eqn:Ef; [|done].
    cbn [ok_or res_bind]. destruct List.find as [target|] eqn:Et; [|done]. cbn [ok_or res_bind].
    intros Hb. exists s, fields, target. do 3 (split; [done|]). cbn zeta.
    set (back := get_base_type (fd_field_type target)) in *.
    destruct (String.eqb_spec back (ot_name t)); [by left|].
    destruct (String.eqb_spec back "ID"); [by right; left|]. right; right.
    apply interface_with_field_spec. by destruct existsb.
  - intros (name & fields & target & -> & Ef & Et & Hb). cbn [ok_or value_string res_bind].
    rewrite Ef. cbn [ok_or res_bind]. rewrite Et. cbn [ok_or res_bind]. cbn zeta in Hb.
    set (back := get_base_type (fd_field_type target)) in *.
    destruct Hb as [->|[->|Hb%interface_with_field_spec]].
    + by rewrite String.eqb_refl.
    + by rewrite andb_false_r.
    + by rewrite Hb, andb_false_r.
Qed.

Lemma elem_of_derived document t f d :
  (t, f, d) ∈ derived_fields document <->
  t ∈ get_object_type_definitions document /\ f ∈ ot_fields t
  /\ find_directive (fd_directives f) "derivedFrom" = Some d.
Proof.
  unfold derived_fields. rewrite list_elem_of_bind. split.
  - intros (t' & (f' & Hf & E)%list_elem_of_omap & Ht).
    destruct (find_directive (fd_directives f') _) eqn:Ed; [|done]. by injection E as -> -> ->.
  - intros (Ht & Hf & E). exists t. split; [|done]. apply list_elem_of_omap. exists f. by rewrite E.
Qed.

Lemma derived_from_ok s :
  error_of (validate_derived_from s) = [] <->
  forall t f d, t ∈ objects s -> f ∈ ot_fields t ->
    find_directive (fd_directives f) "derivedFrom" = Some d -> derived_ok (sc_document s) t f d.
Proof.
  unfold validate_derived_from. rewrite error_of_nil.
  - rewrite fold_res_unit_ok. split.
    + intros Hall t f d Ht Hf Hd. apply check_derived_spec, Hall. by apply elem_of_derived.
    + intros Hall [[t f] d] (Ht & Hf & Hd)%elem_of_derived. apply check_derived_spec. by apply Hall.
  - apply (fold_res_no_panic (fun _ => True)); [done|]. intros [] x _ _.
    split; [apply check_derived_no_panic|done].
Qed.

Lemma check_name_part_no_panic part : check_name_part part <> Panic.
Proof.
  unfold check_name_part. destruct part as [|c r]; [done|].
  destruct (_ || _); [done|]. destruct (String.eqb _ _); [done|]. cbn [first_char unwrap res_bind].
  assert (forall r c, is_Some (last_char (String c r))) as Hl.
  { clear. intros r. induction r as [|c' r IH]; intros c; [by eexists|]. apply (IH c'). }
  destruct (Hl r c) as [x ->]. cbn [unwrap res_bind]. by case_match.
Qed.

(** The names of imported subgraphs are checked without panicking. *)
Lemma SubgraphName_new_no_panic name : SubgraphName_new name <> Panic.
Proof.
  unfold SubgraphName_new. destruct (_ || _); [done|]. destruct (negb _); [done|].
  destruct map_res eqn:E; [done..|]. exfalso. revert E. apply map_res_no_panic.
  intros x _. apply check_name_part_no_panic.
Qed.

Lemma string_value_dec o : (exists s, o = Some (QString s)) \/ ~ string_value o.
Proof.
  destruct o as [[]|]; first [left; by eexists|right; by intros [? [=]]].
Qed.

Lemma import_type_spec v : validate_import_type v = true <-> import_type_ok v.
Proof.
  unfold import_type_ok. split.
  - destruct v as [| | |s| | | | |o]; try done; cbn; [by eauto|]. intros E. right. exists o.
    split; [done|]. destruct (object_get o "name") as [[]|]; try done.
    destruct (object_get o "as") as [[]|]; try done. split; by eexists.
  - intros [[s ->]|(o & -> & [n En] & a & Ea)]; cbn; [done|]. by rewrite En, Ea.
Qed.

Lemma import_step_ok d :
  option_list (validate_import_directive_arguments d)
  ++ option_list (validate_import_directive_schema_reference_parses d) = [] <-> import_ok d.
Proof.
  unfold import_ok. split.
  - intros [E1 E2]%app_nil. unfold validate_import_directive_arguments in E1.
    unfold validate_import_directive_schema_reference_parses in E2.
    destruct (argument d "from") as [[| | | | | | | |from]|]; try done. cbn [from_is_valid] in E1.
    destruct (argument d "types") as [[| | | | | | |types|]|];
      try (by rewrite andb_false_r in E1).
    exists from, types. split; [done|]. split; [done|]. cbn [types_are_valid] in E1.
    destruct (forallb validate_import_type types) eqn:Et; [|by rewrite andb_false_r in E1].
    split.
    { intros v Hv%list_elem_of_In. apply import_type_spec. by eapply forallb_forall. }
    destruct (string_value_dec (object_get from "id")) as [[id Eid]|Hid];
      destruct (string_value_dec (object_get from "name")) as [[nm Enm]|Hnm].
    + by rewrite Eid, Enm in E1.
    + left. exists id. split; [done|]. split; [|done]. rewrite Eid in E2.
      unfold SubgraphDeploymentId_new in *. repeat (case_match; try done).
    + right. exists nm. split; [done|]. split; [|done]. rewrite Enm in E2.
      pose proof (SubgraphName_new_no_panic nm) as Hp.
      destruct (SubgraphName_new nm); [done| |done].
      by destruct (object_get from "id") as [[]|]; try destruct (Hid (ex_intro _ _ eq_refl)).
    + exfalso. destruct (object_get from "id") as [[]|]; destruct (object_get from "name") as [[]|];
        first [done|destruct Hid; by eexists|destruct Hnm; by eexists].
  - intros (from & types & Ef & Et & Hty & Hn).
    unfold validate_import_directive_arguments, validate_import_directive_schema_reference_parses.
    rewrite Ef, Et. cbn [from_is_valid types_are_valid].
    assert (forallb validate_import_type types = true) as ->.
    { apply forallb_forall. intros v Hv%list_elem_of_In. by apply import_type_spec, Hty. }
    destruct Hn as [(id & -> & Hid & Hnm)|(nm & -> & Hnm & Hid)].
    + destruct (SubgraphDeploymentId_new id); try done.
      destruct (object_get from "name") as [[]|]; first [done|destruct Hnm; by eexists].
    + destruct (SubgraphName_new nm); try done.
      destruct (object_get from "id") as [[]|]; first [done|destruct Hid; by eexists].
Qed.

Lemma imports_ok s :
  validate_import_directives s = [] <-> forall d, d ∈ schema_directives "import" s -> import_ok d.
Proof.
  unfold validate_import_directives. rewrite bind_nil_iff. by setoid_rewrite import_step_ok.
Qed.

Lemma is_string_field_spec t name :
  existsb (is_string_field name) (ot_fields t) = true <->
  exists g, g ∈ ot_fields t /\ fd_name g = name
    /\ ValueType_from_str (get_base_type (fd_field_type g)) = Ok VT_String.
Proof.
  rewrite existsb_true_iff. unfold is_string_field. split; intros (g & Hg & E); exists g.
  - destruct (ValueType_from_str _) as [[]|e|]; try done. by apply String.eqb_eq in E.
  - split; [done|]. destruct E as [<- ->]. apply String.eqb_refl.
Qed.

Lemma check_included_field_spec t f :
  check_included_field t f = Ok () <->
  exists fo name, f = QObject fo /\ object_get fo "name" = Some (QString name)
    /\ exists g, g ∈ ot_fields t /\ fd_name g = name
         /\ ValueType_from_str (get_base_type (fd_field_type g)) = Ok VT_String.
Proof.
  setoid_rewrite <- is_string_field_spec. unfold check_included_field. split.
  - destruct f; try done. destruct (object_get fields "name") as [[]|] eqn:Eo; try done.
    intros Hb. exists fields, s. do 2 (split; [done|]). by destruct existsb.
  - intros (fo & name & -> & -> & ->). done.
Qed.

Lemma check_include_spec types v : check_include types v = Ok () <-> include_ok types v.
Proof.
  unfold include_ok. setoid_rewrite <- check_included_field_spec.
  unfold check_include. split.
  - destruct v; try done. cbn [value_object].
    destruct (object_get fields "entity") as [[]|] eqn:E1; try done.
    destruct (object_get fields "fields") as [[]|] eqn:E2; try done.
    destruct List.find as [t|] eqn:E3; [|done]. rewrite fold_res_unit_ok. intros Hl.
    exists fields, s, l, t. done.
  - intros (object & entity & fields & t & -> & E1 & E2 & E3 & Hf). cbn [value_object].
    rewrite E1, E2, E3. by apply fold_res_unit_ok.
Qed.

Lemma check_include_no_panic types v : check_include types v <> Panic.
Proof.
  unfold check_include. repeat (case_match; try done).
  apply (fold_res_no_panic (fun _ => True)); [done|]. intros [] x _ _. split; [|done].
  unfold check_included_field. by repeat (case_match; try done).
Qed.

Lemma language_known language :
  FulltextLanguage_try_from language <> Panic
  /\ (is_ok (FulltextLanguage_try_from language) = true <-> language ∈ fulltext_languages.*1).
Proof.
  unfold FulltextLanguage_try_from. destruct List.find as [x|] eqn:Ef; (split; [done|]).
  - split; [|done]. intros _. apply List.find_some in Ef as [Hx <-%String.eqb_eq].
    by apply list_elem_of_fmap_2, list_elem_of_In.
  - split; [done|]. intros (x & -> & Hx)%list_elem_of_fmap.
    rewrite find_none_iff in Ef. specialize (Ef x Hx). cbv beta in Ef.
    by rewrite String.eqb_refl in Ef.
Qed.

Lemma includes_ok s d :
  validate_fulltext_directive_includes s d = [] <->
  exists v includes, argument d "include" = Some (QList (v :: includes))
    /\ forall w, w ∈ v :: includes -> include_ok (objects s) w.
Proof.
  unfold validate_fulltext_directive_includes. fold (objects s). split.
  - destruct (argument d "include") as [[| | | | | | |[|v l]|]|]; try done.
    destruct fold_res as [[]|e|] eqn:Ef; [|done|].
    + intros _. exists v, l. split; [done|]. intros w Hw. apply check_include_spec.
      rewrite fold_res_unit_ok in Ef. by apply Ef.
    + exfalso. revert Ef. apply (fold_res_no_panic (fun _ => True)); [done|]. intros [] x _ _.
      split; [apply check_include_no_panic|done].
  - intros (v & l & -> & Hl).
    assert (fold_res (fun _ w => check_include (objects s) w) () (v :: l) = Ok ()) as ->; [|done].
    apply fold_res_unit_ok. intros w Hw. by apply check_include_spec, Hl.
Qed.

Lemma field_name_collides_spec s name :
  existsb (fun typ => existsb (field_name_collides name) (ot_fields typ)) (objects s) = true
  <-> field_like s name.
Proof.
  unfold field_like, queries_of. setoid_rewrite existsb_true_iff. setoid_rewrite existsb_true_iff.
  unfold field_name_collides. setoid_rewrite orb_true_iff. setoid_rewrite orb_true_iff.
  setoid_rewrite String.eqb_eq. naive_solver.
Qed.

(** Names are distinct when each of them is there at most once. *)
Lemma distinct_names s :
  (forall d name, d ∈ schema_directives "fulltext" s -> argument d "name" = Some (QString name) ->
     (length (filter (fun d => has_name name d) (schema_directives "fulltext" s)) <= 1)%nat)
  <-> NoDup (fulltext_names s).
Proof.
  unfold fulltext_names. generalize (schema_directives "fulltext" s). intros l.
  set (nm := fun d => argument d "name" ≫= value_string).
  assert (forall d name, has_name name d <-> nm d = Some name) as Hn.
  { intros d name. unfold has_name, nm. destruct (argument d "name") as [[]|]; try done. cbn.
    rewrite Is_true_true, String.eqb_eq. naive_solver. }
  assert (forall d name, argument d "name" = Some (QString name) <-> nm d = Some name) as Ha.
  { intros d name. unfold nm. destruct (argument d "name") as [[]|]; try done; cbn; naive_solver. }
  setoid_rewrite Ha. clear Ha.
  induction l as [|d l IH]; [split; [intros; constructor|intros; set_solver]|]. split.
  - intros Hall. assert (NoDup (omap nm l)) as Hl.
    { apply IH. intros d' name Hd E. specialize (Hall d' name ltac:(by right) E).
      rewrite filter_cons in Hall. destruct decide; cbn in Hall; lia. }
    cbn. destruct (nm d) as [name|] eqn:E; [|done]. apply NoDup_cons. split; [|done].
    intros (d' & Hd & E')%list_elem_of_omap. specialize (Hall d name ltac:(by left) E).
    rewrite filter_cons_True in Hall by (by apply Hn). cbn in Hall.
    assert (d' ∈ filter (fun d => has_name name d) l) as Hf
      by (apply list_elem_of_filter; by rewrite Hn).
    destruct (filter _ l); [by apply elem_of_nil in Hf|cbn in Hall; lia].
  - intros Hd d' name Hin E'. cbn in Hd. rewrite filter_cons. destruct decide as [Hx%Hn|Hx].
    + rewrite Hx in Hd. apply NoDup_cons in Hd as [Hd _]. rewrite filter_none; [done|].
      intros y Hy Hny%Hn. apply Hd, list_elem_of_omap. eauto.
    + rewrite <- Hn in E'. apply elem_of_cons in Hin as [->|Hin]; [done|].
      apply (proj2 IH) with d'; [|done|by apply Hn]. destruct (nm d); [|done].
      by apply NoDup_cons in Hd as [_ ?].
Qed.

Lemma fulltext_name_ok s d :
  validate_fulltext_directive_name s d = [] <->
  (exists name, argument d "name" = Some (QString name) /\ ~ field_like s name)
  /\ forall name, argument d "name" = Some (QString name) ->
       (length (filter (fun d => has_name name d) (schema_directives "fulltext" s)) <= 1)%nat.
Proof.
  unfold validate_fulltext_directive_name. fold (objects s).
  destruct (argument d "name") as [[]|]; try (split; [done|]; naive_solver).
  pose proof (field_name_collides_spec s s0) as Hc. destruct existsb.
  - split; [done|]. intros ((name & [= ->] & Hn) & _). by destruct Hn; apply Hc.
  - destruct (Nat.ltb_spec 1 (length (filter (fun d => has_name s0 d) (schema_directives "fulltext" s)))).
    + split; [done|]. intros [_ Hn]. specialize (Hn s0 eq_refl). lia.
    + split; [|done]. intros _. split; [|by intros ? [= <-]]. exists s0. split; [done|].
      by intros ?%Hc.
Qed.

Lemma fulltext_language_ok d :
  validate_fulltext_directive_language d = [] <-> exists language,
    argument d "language" = Some (QEnum language) /\ language ∈ fulltext_languages.*1.
Proof.
  unfold validate_fulltext_directive_language.
  destruct (argument d "language") as [[]|]; try (split; [done|]; naive_solver).
  destruct (language_known name) as [Hp Hk].
  destruct (FulltextLanguage_try_from name); cbn in Hk; naive_solver.
Qed.

Lemma fulltext_algorithm_ok d :
  validate_fulltext_directive_algorithm d = [] <-> exists algorithm,
    argument d "algorithm" = Some (QEnum algorithm)
    /\ (algorithm = "rank" \/ algorithm = "proximityRank").
Proof.
  unfold validate_fulltext_directive_algorithm.
  destruct (argument d "algorithm") as [[]|]; try (split; [done|]; naive_solver).
  unfold FulltextAlgorithm_try_from.
  destruct (String.eqb_spec name "rank"); [naive_solver|].
  destruct (String.eqb_spec name "proximityRank"); naive_solver.
Qed.

Lemma fulltexts_ok s :
  validate_fulltext_directives s = [] <->
  (forall d, d ∈ schema_directives "fulltext" s -> fulltext_ok as_checked s d)
  /\ NoDup (fulltext_names s).
Proof.
  unfold validate_fulltext_directives. rewrite bind_nil_iff, <- distinct_names.
  assert (forall d, validate_fulltext_directive_name s d ++ validate_fulltext_directive_language d
            ++ validate_fulltext_directive_algorithm d ++ validate_fulltext_directive_includes s d = []
            <-> fulltext_ok as_checked s d /\ forall name, argument d "name" = Some (QString name) ->
              (length (filter (fun d => has_name name d) (schema_directives "fulltext" s)) <= 1)%nat)
    as E; [|setoid_rewrite E; naive_solver].
  intros d. unfold fulltext_ok.
  change ["simple"; _; _; _; _; _; _; _; _; _; _; _; _; _; _; _] with (fulltext_languages.*1).
  rewrite <- includes_ok, <- fulltext_language_ok, <- fulltext_algorithm_ok.
  rewrite !app_nil, fulltext_name_ok. cbn [rd_taken as_checked]. tauto.
Qed.

Lemma validate_ok_iff s schemas : validate s schemas = Ok () <-> valid as_checked s schemas.
Proof.
  transitivity (error_of (validate_schema_types s) = []
                /\ error_of (validate_derived_from s) = []
                /\ (error_of (validate_schema_type_has_no_fields s) = []
                    /\ error_of (validate_directives_on_schema_type s) = [])
                /\ validate_fields s = [] /\ validate_import_directives s = []
                /\ validate_fulltext_directives s = [] /\ validate_imported_types s schemas = []).
  - unfold validate. cbv zeta.
    assert (forall l : list SchemaValidationError,
              match l with [] => Ok () | _ :: _ => Err l end = Ok () <-> l = []) as E by (by intros []).
    rewrite E. split.
    + intros [-> [-> [-> [-> [-> [-> [-> ->]%app_nil]%app_nil]%app_nil]%app_nil]%app_nil]%app_nil]%app_nil.
      done.
    + by intros (-> & -> & (-> & ->) & -> & -> & -> & ->).
  - rewrite schema_types_ok, derived_from_ok, schema_type_ok, fields_ok, imports_ok, fulltexts_ok,
      imported_ok. setoid_rewrite field_type_known_spec.
    split; [intros (? & ? & (? & ?) & ? & ? & [? ?] & ?); by split|by intros []].
Qed.

Lemma bind_ext_elem {A B} (f g : A -> list B) l :
  (forall x, x ∈ l -> f x = g x) -> l ≫= f = l ≫= g.
Proof.
  induction l as [|x l IH]; intros E; [done|]. rewrite !bind_cons, IH, (E x); [done|by left|].
  intros y Hy. apply E. by right.
Qed.

Lemma imports_plain s : plain_imports s -> imports as_documented s = imports as_checked s.
Proof.
  intros Hp. apply bind_ext_elem. intros d [Hn Ht]%Hp. unfold read_source. rewrite Hn.
  cbn [rd_by_name as_checked as_documented andb]. destruct (_ ≫= _) as [r|]; [|done].
  destruct (argument d "types") as [[| | | | | | |types|]|]; try done. f_equal.
  specialize (Ht types). clear -Ht. induction types as [|v types IH]; [done|]. cbn.
  destruct (Ht v eq_refl ltac:(by left)) as [name ->]. cbn. f_equal. apply IH.
  intros v' E Hv. apply (Ht v' eq_refl). by right.
Qed.

(** Readings that agree on the imports and on the names of the fulltext
    queries have the same valid schemas. *)
Lemma valid_of_reading rd rd' s schemas :
  imports rd s = imports rd' s ->
  (forall r schema, schemas !! r = Some schema -> imports rd schema = imports rd' schema) ->
  (forall name, name ∈ fulltext_names s -> rd_taken rd' s name -> rd_taken rd s name) ->
  valid rd s schemas -> valid rd' s schemas.
Proof.
  intros Ei Es Hn [He Hd Hnf Hdi Hf Him Hft Hnd Hii].
  split; try done.
  - intros name fields f Hl Hin. specialize (Hf name fields f Hl Hin). unfold type_known in *.
    by rewrite <- Ei.
  - intros d Hin. destruct (Hft d Hin) as ((name & E & Ht) & Hrest). split; [|done].
    exists name. split; [done|]. intros Ht'. apply Ht, Hn; [|done].
    apply list_elem_of_omap. exists d. by rewrite E.
  - intros before i r after schema E Hi Hr. rewrite <- Ei in E.
    specialize (Hii before i r after schema E Hi Hr). unfold offers in *. by rewrite <- (Es r).
Qed.

(** C39: Validation never panics.  It accepts exactly the schemas that are
    valid as the code has the rules, and otherwise reports at least one error.
    The rules are written down without the checks of the code.

    Two rules are not what the comments and messages of the code say: the name
    of a fulltext query must differ from what the queries for the fields of
    the types would be called, not from the queries for the types; and the
    types imported under an alias, or from a subgraph given by its name, do not
    count, the former since the alias is kept with its quotes.  Where that
    makes no difference, that is, where types are imported by their own names
    from subgraphs given by id and a fulltext query is named like a query for a
    field exactly if it is named like a query for a type, validation accepts
    exactly the schemas that are valid as documented. *)
Theorem validate_spec s schemas :
  (validate s schemas = Ok () <-> valid as_checked s schemas)
  /\ (~ valid as_checked s schemas -> exists e errors, validate s schemas = Err (e :: errors))
  /\ (plain_imports s ->
      (forall r schema, schemas !! r = Some schema -> plain_imports schema) ->
      (forall name, name ∈ fulltext_names s -> field_like s name <-> query_field s name) ->
      validate s schemas = Ok () <-> valid as_documented s schemas).
Proof.
  split; [exact (validate_ok_iff s schemas)|]. rewrite <- validate_ok_iff. split.
  - unfold validate.
    destruct (error_of (validate_schema_types s) ++ _) as [|e errors]; [done|by exists e, errors].
  - intros Hp Hs Hn. rewrite validate_ok_iff. pose proof imports_plain as Ei.
    split; apply valid_of_reading; first [by rewrite Ei|intros r schema Hr; by rewrite (Ei schema); eauto
                                         |intros name Hin; by apply Hn].
Qed.

Lemma map_res_total {E A B} (f : A -> res E B) l :
  (forall x, x ∈ l -> exists y, f x = Ok y) -> exists ys, map_res f l = Ok ys.
Proof.
  induction l as [|x l IH]; intros Hl; [by exists []|]. rewrite map_res_cons.
  destruct (Hl x ltac:(left)) as [y ->]. cbn [res_bind].
  destruct IH as [ys ->]; [intros z ?; apply Hl; by right|]. by eexists.
Qed.

Lemma fulltext_definition_ok s d :
  fulltext_ok as_checked s d -> exists def, FulltextDefinition_from d = Ok def.
Proof.
  intros ((name & En & _) & (language & El & Hl) & (algorithm & Ea & Ha) & v & l & Ei & Hi).
  unfold FulltextDefinition_from. rewrite En, Ea, El, Ei. cbn [mbind option_bind value_string value_enum
    value_list unwrap res_bind head].
  assert (exists a, FulltextAlgorithm_try_from algorithm = Ok a) as [a ->].
  { destruct Ha as [-> | ->]; by eexists. }
  cbn [ok_unwrap res_bind]. apply (proj2 (language_known language)) in Hl.
  destruct (FulltextLanguage_try_from language) as [lang|e|]; try done. cbn [ok_unwrap res_bind].
  destruct (Hi v ltac:(left)) as (object & entity & fields & t & -> & _ & E2 & _ & Hf).
  cbn [value_object unwrap res_bind]. rewrite E2. cbn [mbind option_bind value_list unwrap res_bind].
  destruct (map_res_total (E := Empty_set) (fun f => unwrap (included_field_name f)) fields)
    as [names ->]; [|by eexists].
  intros f (fo & n & -> & E & _)%Hf. exists n. unfold included_field_name.
  cbn [mbind option_bind value_object]. rewrite E. done.
Qed.

(** The fulltext definitions of the entities of a valid schema are read
    without a panic, though they are read with [unwrap] throughout. *)
Lemma fulltext_definitions_total s schemas entity :
  validate s schemas = Ok () -> exists defs, entity_fulltext_definitions entity (sc_document s) = Ok defs.
Proof.
  intros [_ _ _ _ _ _ Hf _ _]%validate_ok_iff. apply map_res_total. intros d [_ Hd]%list_elem_of_filter.
  by apply (fulltext_definition_ok s), Hf.
Qed.
End valid.

(** ** Following imports *)
Section imports.
Context `{SyntaxText}.

(** The store: a schema is stored under its id, and the ids of the stored
    schemas are among [known]. *)
Context (input_schema : SubgraphDeploymentId -> res () Schema) (known : gset SubgraphDeploymentId).
Hypothesis stored : forall id s, input_schema id = Ok s -> sc_id s = id /\ id ∈ known.
Hypothesis answers : forall id, input_schema id <> Panic.

(** The references that can be reached from a schema. *)
Inductive reaches (s : Schema) (r : SchemaReference) : Prop :=
| reaches_direct : r ∈ imported_schemas s -> reaches s r
| reaches_via r' s' :
    r' ∈ imported_schemas s -> input_schema (sr_subgraph r') = Ok s' -> reaches s' r -> reaches s r.

Definition reaches_from (l : list SchemaReference) (r : SchemaReference) : Prop :=
  exists r0, r0 ∈ l /\ (r = r0 \/ exists s0, input_schema (sr_subgraph r0) = Ok s0 /\ reaches s0 r).

Lemma reaches_iff s r : reaches s r <-> reaches_from (imported_schemas s) r.
Proof.
  split.
  - intros [Hr|r' s' Hr' Es Hr]; [exists r; eauto|]. exists r'. eauto.
  - intros (r0 & Hr0 & [->|(s0 & Es & Hr)]); [by left|]. by eapply reaches_via.
Qed.

(** What is to be done about a reference: its schema is found and logged, or
    the failure is reported. *)
Definition handled (st : ImportState) (errors : list SchemaImportError) (r : SchemaReference) : Prop :=
  match input_schema (sr_subgraph r) with
  | Ok x => is_schemas st !! r = Some x /\ sr_subgraph r ∈ is_visit_log st
  | _ => ImportedSchemaNotFound r ∈ errors
  end.

Definition consistent (st : ImportState) : Prop :=
  forall r x, is_schemas st !! r = Some x -> input_schema (sr_subgraph r) = Ok x.

(** The state after following the references of [l]. *)
Record explored (l : list SchemaReference) (st st' : ImportState)
    (errors : list SchemaImportError) : Prop := mk_explored {
  ex_log : is_visit_log st ⊆ is_visit_log st';
  ex_consistent : consistent st';
  ex_keep : is_schemas st ⊆ is_schemas st';
  ex_schemas : forall r x, is_schemas st' !! r = Some x ->
    is_schemas st !! r = Some x \/ reaches_from l r;
  ex_errors : forall e, e ∈ errors -> exists r,
    reaches_from l r /\ e = ImportedSchemaNotFound r /\ input_schema (sr_subgraph r) = Err ();
  ex_refs : forall r, r ∈ l -> handled st' errors r;
  ex_new : forall id s r, id ∈ is_visit_log st' -> id ∉ is_visit_log st ->
    input_schema id = Ok s -> r ∈ imported_schemas s -> handled st' errors r;
}.

Lemma handled_mono st st' errors errors' r :
  is_visit_log st ⊆ is_visit_log st' -> is_schemas st ⊆ is_schemas st' -> errors ⊆ errors' ->
  handled st errors r -> handled st' errors' r.
Proof.
  intros Hl Hs He. unfold handled. destruct input_schema; [|by apply He..].
  intros [E Hin]. split; [by eapply lookup_weaken|by apply Hl].
Qed.

Lemma reaches_from_mono l l' r : l ⊆ l' -> reaches_from l r -> reaches_from l' r.
Proof. intros Hl (r0 & ? & ?). exists r0. auto. Qed.

Lemma explored_app l1 l2 st st1 st2 e1 e2 :
  explored l1 st st1 e1 -> explored l2 st1 st2 e2 -> explored (l1 ++ l2) st st2 (e1 ++ e2).
Proof.
  intros [L1 C1 K1 S1 E1 R1 N1] [L2 C2 K2 S2 E2 R2 N2].
  pose proof (reaches_from_mono l1 (l1 ++ l2)) as M1. pose proof (reaches_from_mono l2 (l1 ++ l2)) as M2.
  split.
  - by etrans.
  - done.
  - by etrans.
  - intros r x [Hr|]%S2; [|right; apply M2; [set_solver|done]].
    destruct (S1 _ _ Hr); [by left|right; apply M1; [set_solver|done]].
  - intros e [(r & Hr & He)%E1|(r & Hr & He)%E2]%elem_of_app; exists r; (split; [|done]).
    + apply M1; [set_solver|done].
    + apply M2; [set_solver|done].
  - intros r [Hr|Hr]%elem_of_app.
    + eapply handled_mono; [..|by apply R1]; [done..|set_solver].
    + eapply handled_mono; [..|by apply R2]; [done..|set_solver].
  - intros id s r Hid Hn Es Hr. destruct (decide (id ∈ is_visit_log st1)) as [H1|H1].
    + eapply handled_mono; [..|by eapply N1]; [done..|set_solver].
    + eapply handled_mono; [..|by eapply N2]; [done..|set_solver].
Qed.

Lemma explored_nil st : consistent st -> explored [] st st [].
Proof. split; try done; set_solver. Qed.

(** What the recursive call promises while the log can still grow by fewer
    than [n] ids. *)
Definition explores (n : nat) (go : Schema -> ImportState -> option (ImportState * list SchemaImportError))
  : Prop :=
  forall s st, consistent st -> (size (known ∖ is_visit_log st) < n)%nat ->
    exists st' errors, go s st = Some (st', errors) /\ explored (imported_schemas s) st st' errors.

Lemma import_step_spec n go st errors r :
  explores n go -> consistent st -> (size (known ∖ is_visit_log st) < S n)%nat ->
  exists st' more, import_step input_schema go (st, errors) r = Some (st', errors ++ more)
    /\ explored [r] st st' more.
Proof.
  intros Hgo Hc Hn. unfold import_step, resolve.
  destruct (input_schema (sr_subgraph r)) as [x|[]|] eqn:Ex; cbn [map_err]; [| |by destruct (answers _ Ex)].
  - destruct (stored _ _ Ex) as [Eid Hk]. rewrite Eid.
    set (schemas := <[r := x]> (is_schemas st)).
    assert (forall log, consistent (mk_import_state schemas log)) as Hc'.
    { intros log r' x'. cbn. subst schemas. intros [[<- <-]|[_ E]]%lookup_insert_Some; [done|].
      by apply Hc. }
    assert (is_schemas st ⊆ schemas) as Hkeep.
    { apply map_subseteq_spec. intros r' x' E. subst schemas.
      destruct (decide (r = r')) as [<-|Hne]; [|by rewrite lookup_insert_ne].
      rewrite lookup_insert_eq. specialize (Hc _ _ E). congruence. }
    assert (forall r' x', schemas !! r' = Some x' ->
              is_schemas st !! r' = Some x' \/ reaches_from [r] r') as Hnew.
    { intros r' x'. subst schemas. intros [[<- _]|[_ E]]%lookup_insert_Some; [right|by left].
      exists r. split; [by left|by left]. }
    case_bool_decide as Hlog.
    + exists (mk_import_state schemas (is_visit_log st)), []. rewrite app_nil_r. split; [done|].
      split; cbn; try done; [set_solver|].
      intros r' ->%list_elem_of_singleton. unfold handled. rewrite Ex. cbn.
      split; [apply lookup_insert_eq|done].
    + destruct (Hgo x (mk_import_state schemas ({[sr_subgraph r]} ∪ is_visit_log st)))
        as (st' & more & Eg & [L C K S E R N]); [apply Hc'| |].
      { cbn. apply Nat.succ_lt_mono. eapply Nat.le_lt_trans; [|exact Hn].
        apply Nat.le_succ_l, subset_size. set_solver. }
      rewrite Eg. cbn [mbind option_bind]. exists st', more. split; [done|]. cbn in L, K, S, N.
      assert (forall r', reaches_from (imported_schemas x) r' -> reaches_from [r] r') as Hr'.
      { intros r' Hr'. exists r. split; [by left|right]. exists x. split; [done|].
        by apply reaches_iff. }
      split.
      * set_solver.
      * done.
      * by etrans.
      * intros r' x' [Hs|Hs]%S; [by apply (Hnew _ x')|right; by apply Hr'].
      * intros e (r' & Hf & He)%E. exists r'. split; [by apply Hr'|done].
      * intros r' ->%list_elem_of_singleton. unfold handled. rewrite Ex. split; [|set_solver].
        eapply lookup_weaken; [|exact K]. apply lookup_insert_eq.
      * intros id s0 r' Hid Hin Es Himp. destruct (decide (id = sr_subgraph r)) as [->|Hne].
        { rewrite Ex in Es. injection Es as <-. by apply R. }
        eapply N; eauto. set_solver.
  - exists st, [ImportedSchemaNotFound r]. split; [done|].
    assert (reaches_from [r] r) as Hr by (exists r; split; [by left|by left]).
    split; try done.
    + by left.
    + intros e ->%list_elem_of_singleton. by exists r.
    + intros r' ->%list_elem_of_singleton. unfold handled. rewrite Ex. by left.
Qed.

Lemma resolve_import_graph_explores n : explores n (resolve_import_graph n input_schema).
Proof.
  induction n as [|n IH]; intros s st Hc Hn; [lia|]. cbn [resolve_import_graph].
  assert (forall l st errors, consistent st -> (size (known ∖ is_visit_log st) < S n)%nat ->
    exists st' more,
      foldl (fun acc r => acc ≫= fun acc => import_step input_schema (resolve_import_graph n input_schema) acc r)
        (Some (st, errors)) l = Some (st', errors ++ more)
      /\ explored l st st' more) as Hf.
  { clear s st Hc Hn. intros l. induction l as [|r l IHl]; intros st errors Hc Hn.
    - exists st, []. rewrite app_nil_r. split; [done|]. by apply explored_nil.
    - cbn [foldl]. destruct (import_step_spec n _ st errors r IH Hc Hn) as (st1 & e1 & E1 & X1).
      cbn [mbind option_bind]. rewrite E1.
      destruct (IHl st1 (errors ++ e1)) as (st2 & e2 & E2 & X2).
      + apply (ex_consistent _ _ _ _ X1).
      + eapply Nat.le_lt_trans; [|exact Hn]. apply subseteq_size.
        pose proof (ex_log _ _ _ _ X1). set_solver.
      + exists st2, (e1 ++ e2). rewrite app_assoc. split; [exact E2|]. by apply (explored_app [r] l st st1). }
  destruct (Hf (imported_schemas s) st [] Hc Hn) as (st' & e & E & X). by exists st', e.
Qed.

(** C40: Following the imports of a schema ends, also where they are circular, once
    the fuel exceeds the number of stored schemas.  It finds the schemas of
    exactly the references that can be reached and are stored, and reports
    exactly those that can be reached and are not. *)
Theorem resolve_schema_references_spec s fuel :
  (size known < fuel)%nat ->
  exists schemas errors,
    resolve_schema_references fuel input_schema s = Some (schemas, errors)
    /\ (forall r x, schemas !! r = Some x <-> reaches s r /\ input_schema (sr_subgraph r) = Ok x)
    /\ (forall e, e ∈ errors <-> exists r,
          reaches s r /\ e = ImportedSchemaNotFound r /\ input_schema (sr_subgraph r) = Err ()).
Proof.
  intros Hn. destruct (resolve_import_graph_explores fuel s (mk_import_state ∅ ∅))
    as (st & errors & E & [_ C _ S Er R N]).
  { intros r x. cbn. by rewrite lookup_empty. }
  { eapply Nat.le_lt_trans; [|exact Hn]. apply subseteq_size. set_solver. }
  exists (is_schemas st), errors. unfold resolve_schema_references. rewrite E. cbn in S, N |- *.
  split; [done|].
  assert (forall s0 r, (forall r0, r0 ∈ imported_schemas s0 -> handled st errors r0) ->
            reaches s0 r -> handled st errors r) as Hall.
  { intros s0 r H0 Hr. induction Hr as [s0 r Hr|s0 r r' s' Hr' Es _ IH]; [by apply H0|].
    apply IH. specialize (H0 r' Hr'). unfold handled in H0. rewrite Es in H0.
    intros r0 Hr0. eapply N; [apply H0|set_solver|done|done]. }
  split.
  - intros r x. split.
    + intros Hx. split; [|by apply C]. apply reaches_iff.
      destruct (S r x Hx) as [He|]; [|done]. by rewrite lookup_empty in He.
    + intros [Hr Ex]. specialize (Hall s r R Hr). unfold handled in Hall. rewrite Ex in Hall. apply Hall.
  - intros e. split.
    + intros (r & Hr & He)%Er. exists r. by rewrite reaches_iff.
    + intros (r & Hr & -> & Ex). specialize (Hall s r R Hr). unfold handled in Hall.
      by rewrite Ex in Hall.
Qed.
End imports.

(** ** [@subgraphId] *)
Definition object_or_interface_of (t : TypeDefinition) : option ObjectOrInterface :=
  match t with
  | TDObject t => Some (OIObject t)
  | TDInterface t => Some (OIInterface t)
  | _ => None
  end.

Section subgraph_ids.
Context `{SyntaxText}.

Lemma type_directives_set t ds :
  type_directives (set_type_directives t ds) = ds
  /\ get_type_name (set_type_directives t ds) = get_type_name t.
Proof. by destruct t. Qed.

Lemma find_app_none {A} (p : A -> bool) l k : List.find p l = None -> List.find p (l ++ k) = List.find p k.
Proof. induction l as [|x l IH]; [done|]. cbn. by destruct (p x). Qed.

(** A type that was annotated, or had an annotation, has one. *)
Lemma add_subgraph_id_directive_idempotent id id' d :
  add_subgraph_id_directive id' (add_subgraph_id_directive id d) = add_subgraph_id_directive id d.
Proof.
  destruct d as [t|]; [|done]. cbn [add_subgraph_id_directive]. destruct (negb _ && _) eqn:E.
  - cbn [add_subgraph_id_directive]. destruct (type_directives_set t
      (type_directives t ++ [mk_directive "subgraphId" [("id", QString id)]])) as [-> ->].
    apply andb_true_iff in E as [_ E%bool_decide_eq_true]. unfold find_directive in *.
    rewrite bool_decide_eq_false_2; [by rewrite andb_false_r|]. by rewrite find_app_none.
  - cbn [add_subgraph_id_directive]. by rewrite E.
Qed.

Lemma add_subgraph_id_directives_idempotent s id id' :
  add_subgraph_id_directives (add_subgraph_id_directives s id) id'
  = add_subgraph_id_directives s id.
Proof.
  unfold add_subgraph_id_directives. cbn. f_equal. rewrite <- list_fmap_compose.
  apply list_fmap_ext. intros i d _. apply add_subgraph_id_directive_idempotent.
Qed.

Lemma annotated_types document id t :
  t ∈ get_type_definitions (add_subgraph_id_directive id <$> document) ->
  exists t0, t0 ∈ get_type_definitions document
    /\ TypeDef t = add_subgraph_id_directive id (TypeDef t0).
Proof.
  unfold get_type_definitions.
  intros (d & (d0 & -> & Hd0)%list_elem_of_fmap & E)%list_elem_of_omap.
  destruct d0 as [t0|]; [|done]. exists t0. split; [apply list_elem_of_omap; by exists (TypeDef t0)|].
  cbn [add_subgraph_id_directive] in *. destruct (negb _ && _); by injection E as <-.
Qed.

(** Queries read back from every object and interface type of a parsed schema
    the id the schema was parsed with, unless the text of the schema carries
    annotations of its own. *)
Theorem subgraph_id_roundtrip document id s t oi :
  SubgraphDeploymentId_new id = Ok id ->
  (forall t0, t0 ∈ get_type_definitions document ->
     find_directive (type_directives t0) "subgraphId" = None) ->
  Schema_parse document id = Ok s ->
  t ∈ get_type_definitions (sc_document s) -> get_type_name t <> SCHEMA_TYPE_NAME ->
  object_or_interface_of t = Some oi ->
  parse_subgraph_id oi = Ok id.
Proof.
  intros Hid Hnone Hp Ht Hname Hoi. unfold Schema_parse in Hp.
  destruct (collect_interfaces document) as [[ift tfi]| |]; [|done..]. cbn [res_bind] in Hp.
  injection Hp as <-. cbn [add_subgraph_id_directives sc_document] in Ht.
  apply annotated_types in Ht as (t0 & Ht0 & E). cbn [add_subgraph_id_directive] in E.
  pose proof (Hnone t0 Ht0) as Hf. rewrite bool_decide_eq_true_2, andb_true_r in E by done.
  destruct (String.eqb_spec (get_type_name t0) SCHEMA_TYPE_NAME) as [Es|Hne]; cbn [negb] in E;
    injection E as ->; [done|].
  assert (oi_directives oi = type_directives t0 ++ [mk_directive "subgraphId" [("id", QString id)]])
    as Ed by (by destruct t0; try done; injection Hoi as <-).
  unfold parse_subgraph_id. rewrite Ed. unfold find_directive in *. rewrite find_app_none by done.
  cbn -[SubgraphDeploymentId_new]. by rewrite Hid.
Qed.
End subgraph_ids.

Module Witness.
(** Text as [graphql_parser] prints it: a string is quoted. *)
Definition quote : string := String (ascii_of_nat 34) "".
#[export] Instance syntax_text : SyntaxText := {
  value_to_string v := match v with QString s => quote +:+ s +:+ quote | _ => "" end;
  field_to_string f := fd_name f;
}.

Definition lower (c : ascii) : ascii :=
  let n := N_of_ascii c in
  if ((65 <=? n) && (n <=? 90))%N then ascii_of_N (n + 32) else c.
#[export] Instance inflector : Inflector := {
  to_camel_case s := match s with EmptyString => EmptyString | String c r => String (lower c) r end;
  to_plural s := s +:+ "s";
  to_snake_case s := s;
}.

#[export] Instance hash_order : HashOrder := {
  hash_iter K _ _ V m := map_to_list m;
  hash_iter_perm K _ _ V m := reflexivity _;
}.

Definition entity : Directive := mk_directive "entity" [].
Definition named (n ty : string) : Field := mk_field n [] (NonNullType (NamedType ty)) [].
Definition fields_object (names : list string) : qvalue :=
  QList ((fun n => QObject [("name", QString n)]) <$> names).
Definition fulltext (name : string) (includes : list (string * list string)) : Directive :=
  mk_directive "fulltext"
    [("name", QString name); ("language", QEnum "en"); ("algorithm", QEnum "rank");
     ("include", QList ((fun i => QObject [("entity", QString i.1); ("fields", fields_object i.2)])
                          <$> includes))].
Definition import (types : list qvalue) (id : string) : Directive :=
  mk_directive "import" [("types", QList types); ("from", QObject [("id", QString id)])].
Definition schema_type (ds : list Directive) : DefinitionNode :=
  TypeDef (TDObject (mk_object_type "_Schema_" [] ds [])).
Definition entity_type (name : string) (fields : list Field) : DefinitionNode :=
  TypeDef (TDObject (mk_object_type name [] [entity] fields)).

Definition gravatar : DefinitionNode :=
  entity_type "Gravatar" [named "id" "ID"; named "displayName" "String"; named "owner" "Bytes"].
Definition user : DefinitionNode := entity_type "User" [named "id" "ID"; named "email" "String"].
Definition searchable : Schema :=
  Schema_new "sub" [schema_type [fulltext "metadata" [("Gravatar", ["displayName"])]]; gravatar].

Lemma fulltext_definitions_total_witness :
    exists defs, entity_fulltext_definitions "Gravatar" (sc_document searchable) = Ok defs.
Proof. apply (fulltext_definitions_total searchable ∅). vm_compute. reflexivity. Defined.

Definition importing : Schema :=
  Schema_new "sub"
    [schema_type [import [QString "Token"] "QmTokens"; fulltext "metadata" [("Gravatar", ["displayName"])]];
     gravatar; entity_type "Swap" [named "id" "ID"; named "token" "Token"]].

Lemma validate_spec_witness : valid as_documented importing ∅.
Proof.
    apply (validate_spec importing ∅); [| | |vm_compute; reflexivity].
    - intros d [->|[]%elem_of_nil]%elem_of_cons. split; [done|].
      intros types v [= <-] [->|[]%elem_of_nil]%elem_of_cons. by exists "Token".
    - intros r schema. by rewrite lookup_empty.
    - intros name [->|[]%elem_of_nil]%elem_of_cons. split.
      + intros (t & f & Ht & Hf & Hn). vm_compute in Ht.
        repeat (apply elem_of_cons in Ht as [->|Ht]); [..|by apply elem_of_nil in Ht]; exfalso;
          cbn in Hf; repeat (apply elem_of_cons in Hf as [->|Hf]); try (by apply elem_of_nil in Hf);
          by vm_compute in Hn; destruct Hn as [|[|]].
      + intros (type & Ht & _ & Hn). vm_compute in Ht. destruct Ht as [Ht|Ht];
          repeat (apply elem_of_cons in Ht as [->|Ht]); try (by apply elem_of_nil in Ht); exfalso;
          by vm_compute in Hn; destruct Hn.
Defined.

Definition directives_of (name : string) (fields : list Field) (ds : list Directive) : Document :=
  [schema_type []; TypeDef (TDObject (mk_object_type name ["Named"] ds fields));
   TypeDef (TDInterface (mk_interface_type "Named" [] [named "id" "ID"]))].

Lemma subgraph_id_roundtrip_witness :
    exists s, Schema_parse (directives_of "Pet" [named "id" "ID"] [entity]) "QmPets" = Ok s
      /\ exists t oi, t ∈ get_type_definitions (sc_document s)
           /\ object_or_interface_of t = Some oi /\ parse_subgraph_id oi = Ok "QmPets".
Proof.
    set (document := directives_of "Pet" [named "id" "ID"] [entity]).
    destruct (Schema_parse document "QmPets") as [s|e|] eqn:E; [|by vm_compute in E..].
    exists s. split; [done|].
    assert (exists t oi, t ∈ get_type_definitions (sc_document s)
      /\ object_or_interface_of t = Some oi /\ get_type_name t = "Pet") as (t & oi & Ht & Hoi & Hn).
    { vm_compute in E. injection E as <-. eexists _, _. cbn. split; [by right; left|done]. }
    exists t, oi. split; [done|]. split; [done|].
    apply (subgraph_id_roundtrip document "QmPets" s t oi); [done| |done|done| |done].
    - intros t0. vm_compute. set_solver.
    - by rewrite Hn.
Defined.

(** Two schemas that import each other. *)
Definition here : Schema := Schema_new "here" [schema_type [import [QString "T"] "there"]].
Definition there : Schema :=
  Schema_new "there" [schema_type [import [QString "U"] "here"; import [QString "V"] "gone"]].
Definition input_schema (id : SubgraphDeploymentId) : res () Schema :=
  if String.eqb id "here" then Ok here else if String.eqb id "there" then Ok there else Err ().

Lemma resolve_schema_references_spec_witness :
    exists schemas errors,
      resolve_schema_references 3 input_schema here = Some (schemas, errors)
      /\ schemas !! mk_schema_reference "here" = Some here
      /\ ImportedSchemaNotFound (mk_schema_reference "gone") ∈ errors.
Proof.
    destruct (resolve_schema_references_spec input_schema {["here"; "there"]}) with (s := here) (fuel := 3)
      as (schemas & errors & E & Hs & He).
    - intros id s. unfold input_schema.
      destruct (String.eqb_spec id "here") as [->|]; [intros [= <-]; split; [done|set_solver]|].
      destruct (String.eqb_spec id "there") as [->|]; [intros [= <-]; split; [done|set_solver]|done].
    - intros id. unfold input_schema. by repeat case_match.
    - vm_compute. lia.
    - exists schemas, errors. split; [done|].
      assert (forall r, r ∈ imported_schemas there -> reaches input_schema here r) as Hr.
      { intros r Hr. apply (reaches_via _ _ _ (mk_schema_reference "there") there); [by left|done|].
        by apply reaches_direct. }
      split.
      + apply Hs. split; [apply Hr; by left|done].
      + apply He. eexists. split; [apply Hr; right; by left|done].
Defined.

(** An import under an alias is of no use: the alias is kept with the quotes
    it is printed with, and no type of a field has that name. *)
Lemma aliased_import_unknown :
    validate (Schema_new "sub"
      [schema_type [import [QObject [("as", QString "A"); ("name", QString "T")]] "there"];
       entity_type "B" [named "id" "ID"; named "a" "A"]]) ∅
    = Err [FieldTypeUnknown "B" "a" "A"].
Proof. vm_compute. reflexivity. Qed.

(** The names of the fields of the types are kept apart from the names of
    fulltext queries, the names of the types are not: the query for a single
    [Gravatar] is the field [gravatar]. *)
Lemma fulltext_name_hides_query :
    validate (Schema_new "sub"
      [schema_type [fulltext (to_camel_case "Gravatar") [("Gravatar", ["displayName"])]]; gravatar]) ∅
    = Ok ().
Proof. vm_compute. reflexivity. Qed.

(** A directive that includes a second entity gives that entity a definition
    with the fields of the first. *)
Lemma second_include_has_fields_of_first :
    let s := Schema_new "sub"
      [schema_type [fulltext "search" [("Gravatar", ["displayName"]); ("User", ["email"])]];
       gravatar; user] in
    validate s ∅ = Ok ()
    /\ entity_fulltext_definitions "User" (sc_document s)
       = Ok [mk_fulltext_definition (mk_fulltext_config English Rank) {["displayName"]} "search"].
Proof. split; vm_compute; reflexivity. Qed.
End Witness.
