(* ===== verification/Sql.v ===== *)
(** * The SQL of the entity store

    The store writes its SQL with [diesel] as text with bind variables.  This
    file has the syntax of the statements it writes
    ([store/postgres/src/relational_queries.rs]) as data, and what the
    PostgreSQL manual says they mean: values, ranges of integers, conditions
    with unknown truth values, and statements on tables with [not null] and
    exclusion constraints.

    The database itself is an interface: [Postgres] executes statements, and
    [PostgresLaws] says that it does what the statements mean.  The order of
    rows is left open.  Where the meaning is [Panic] nothing is said about the
    database, which is so for everything the store does not write. *)

From stdpp Require Import prelude list strings gmap.
From Stdlib Require Import ZArith Lia Ascii.
From S2P Require Import Prelude.
From S2P Require Import GraphqlTypes.
From S2P Require Import StoreValue.

#[local] Open Scope string_scope.
#[local] Open Scope list_scope.

(** ** Text of values *)
Class PgText {ST : ScalarText} := {
  Numeric : Type;
  numeric_in : string -> option Numeric;
  (** the number of [to_jsonb], as [serde_json] prints it, and its [as_i64] *)
  numeric_json : Numeric -> string;
  (** [+ $1::integer], [= $1] and the numeric of an integer *)
  numeric_add : Numeric -> Z -> Numeric;
  numeric_is : Numeric -> Z -> bool;
  numeric_of_Z : Z -> Numeric;
  numeric_compare : Numeric -> Numeric -> comparison;
  integer_json : Z -> string;
  json_as_i64 : string -> option Z;
  (** the first characters of a text *)
  text_left : string -> Z -> string;
  (** the collation of the database, and the order of the labels of an enum *)
  text_compare : string -> string -> comparison;
  enum_compare : string -> string -> string -> comparison;
  TsVector : Type;
  to_tsvector : string -> string -> TsVector;
  tsvector_empty : TsVector;
  tsvector_concat : TsVector -> TsVector -> TsVector;
  tsvector_json : TsVector -> string;
  TsQuery : Type;
  to_tsquery : string -> option TsQuery;
  ts_match : TsVector -> TsQuery -> bool;
  (** [ts_rank], or [ts_rank_cd] where the flag is set, as its order *)
  ts_rank_compare : bool -> TsQuery -> TsVector -> TsVector -> comparison;
}.

(** A numeric keeps the value it is read from. *)
Class PgTextLaws {ST : ScalarText} {PT : PgText} : Prop := {
  numeric_bigint n x :
    numeric_in (bigint_to_string n) = Some x -> bigint_parse (numeric_json x) = Ok n;
  numeric_decimal d x :
    numeric_in (bigdecimal_to_string d) = Some x ->
    exists d', bigdecimal_parse (numeric_json x) = Ok d' /\ BigDecimal_eqb d' d = true;
  numeric_small n : (Z.abs n < 2 ^ 64)%Z -> numeric_in (bigint_to_string n) = Some (numeric_of_Z n);
  numeric_add_Z a b : numeric_add (numeric_of_Z a) b = numeric_of_Z (a + b);
  numeric_is_Z a b : numeric_is (numeric_of_Z a) b = (a =? b)%Z;
  integer_reads z : is_i32 z -> json_as_i64 (integer_json z) = Some z;
  (** hex digits *)
  hex_no_backslash b r : hex_encode b <> String "\"%char r;
}.

(** [serde_json::Value]; a number is its text. *)
Inductive Json :=
| JNull
| JBool (b : bool)
| JNumber (text : string)
| JString (s : string)
| JArray (l : list Json)
| JObject (fields : list (string * Json)).

(** ** Text and byte strings *)

(** The byte is not the first of a character. *)
Definition continues (c : ascii) : bool :=
  let n := N_of_ascii c in ((128 <=? n) && (n <? 192))%N.

Fixpoint skip_continuation (s : string) : string :=
  match s with
  | String c s' => if continues c then skip_continuation s' else s
  | EmptyString => EmptyString
  end.

(** Some suffix satisfies the predicate. *)
Fixpoint any_suffix (p : string -> bool) (s : string) : bool :=
  p s || match s with String _ s' => any_suffix p s' | EmptyString => false end.

(** [like]: a percent sign stands for any text, an underscore for a character,
    a backslash for the character after it. *)
Fixpoint like (p : string) : string -> bool :=
  match p with
  | EmptyString => fun s => String.eqb s ""
  | String c p' =>
      if Ascii.eqb c "%" then any_suffix (like p')
      else if Ascii.eqb c "_" then
        fun s => match s with String _ s' => like p' (skip_continuation s') | EmptyString => false end
      else if Ascii.eqb c "\" then
        match p' with
        | String d p'' =>
            fun s => match s with String x s' => Ascii.eqb d x && like p'' s' | EmptyString => false end
        | EmptyString => fun _ => false
        end
      else fun s => match s with String x s' => Ascii.eqb c x && like p' s' | EmptyString => false end
  end.

(** A pattern may not end in a backslash that escapes nothing. *)
Fixpoint pattern_ok (p : string) : bool :=
  match p with
  | EmptyString => true
  | String c p' =>
      if Ascii.eqb c "\" then match p' with String _ p'' => pattern_ok p'' | EmptyString => false end
      else pattern_ok p'
  end.

(** What the text between the quotes of a literal stands for. *)
Fixpoint unquote (s : string) : option string :=
  match s with
  | EmptyString => Some EmptyString
  | String c s' =>
      if Ascii.eqb c "'" then
        match s' with
        | String d s'' => if Ascii.eqb d "'" then String c <$> unquote s'' else None
        | EmptyString => None
        end
      else String c <$> unquote s'
  end.

Fixpoint bytes_prefix (b c : list Byte.byte) : bool :=
  match b, c with
  | [], _ => true
  | x :: b, y :: c => Byte.eqb x y && bytes_prefix b c
  | _, _ => false
  end.

(** [position]: from one on, zero if there is none. *)
Fixpoint position_from (n : Z) (b c : list Byte.byte) : Z :=
  if bytes_prefix b c then n
  else match c with [] => 0 | _ :: c => position_from (n + 1) b c end.
Definition position (b c : list Byte.byte) : Z := position_from 1 b c.

Fixpoint bytes_compare (b c : list Byte.byte) : comparison :=
  match b, c with
  | [], [] => Eq
  | [], _ => Lt
  | _, [] => Gt
  | x :: b, y :: c =>
      match N.compare (Byte.to_N x) (Byte.to_N y) with Eq => bytes_compare b c | o => o end
  end.

(** ** Types and ranges *)
Inductive SqlType :=
| TBoolean | TNumeric | TBytea | TInteger | TText | TTsVector | TInt4Range
| TEnum (name : string)
| TArray (t : SqlType).

#[export] Instance SqlType_eq_dec : EqDecision SqlType.
Proof. solve_decision. Defined.

Inductive SqlError :=
| NotNullViolation | ExclusionViolation | InvalidText | RangeBoundsOrder
| NumericOutOfRange | UndefinedTable | UndefinedColumn | SyntaxError | Unspecified.

(** [int4range] in canonical form: the lower bound is inclusive, the upper
    bound exclusive, a missing bound infinite. *)
Inductive Int4Range :=
| RangeEmpty
| RangeBounds (lower upper : option Z).

#[export] Instance Int4Range_eq_dec : EqDecision Int4Range.
Proof. solve_decision. Defined.

Definition int4range (l u : option Z) : res SqlError Int4Range :=
  match l, u with
  | Some a, Some b =>
      if (a <? b)%Z then Ok (RangeBounds l u)
      else if (a =? b)%Z then Ok RangeEmpty
      else Err RangeBoundsOrder
  | _, _ => Ok (RangeBounds l u)
  end.

Definition range_lower (r : Int4Range) : option Z :=
  match r with RangeEmpty => None | RangeBounds l _ => l end.
Definition range_upper (r : Int4Range) : option Z :=
  match r with RangeEmpty => None | RangeBounds _ u => u end.

Definition range_contains (r : Int4Range) (n : Z) : bool :=
  match r with
  | RangeEmpty => false
  | RangeBounds l u =>
      match l with Some l => (l <=? n)%Z | None => true end
      && match u with Some u => (n <? u)%Z | None => true end
  end.

(** The lower bound of one is below the upper bound of the other. *)
Definition starts_before_end (l u : option Z) : bool :=
  match l, u with Some l, Some u => (l <? u)%Z | _, _ => true end.

Definition range_overlaps (r s : Int4Range) : bool :=
  match r, s with
  | RangeBounds l1 u1, RangeBounds l2 u2 => starts_before_end l1 u2 && starts_before_end l2 u1
  | _, _ => false
  end.

Section sql.
Context {ST : ScalarText} {PT : PgText}.

(** ** Values *)
Inductive Datum :=
| DNull
| DBool (b : bool)
| DInteger (z : Z)
| DNumeric (n : Numeric)
| DText (s : string)
| DEnum (ty label : string)
| DBytea (b : list Byte.byte)
| DTsVector (v : TsVector)
| DRange (r : Int4Range)
| DArray (l : list Datum)
| DJson (j : Json)
| DTsQuery (q : TsQuery).

Fixpoint has_type (d : Datum) (t : SqlType) : bool :=
  match d, t with
  | DNull, _ => true
  | DBool _, TBoolean => true
  | DInteger _, TInteger => true
  | DNumeric _, TNumeric => true
  | DText _, TText => true
  | DEnum ty _, TEnum ty' => String.eqb ty ty'
  | DBytea _, TBytea => true
  | DTsVector _, TTsVector => true
  | DRange _, TInt4Range => true
  | DArray l, TArray t => forallb (fun d => has_type d t) l
  | _, _ => false
  end.

Definition is_null (d : Datum) : bool := match d with DNull => true | _ => false end.

(** The hex format of [bytea]; others are not written. *)
Definition bytea_in (s : string) : res SqlError (list Byte.byte) :=
  match s with
  | String "\" (String "x" h) =>
      match hex_decode h with Ok b => Ok b | Err _ => Err InvalidText | Panic => Panic end
  | _ => Panic
  end.

Definition bytea_text (b : list Byte.byte) : string := "\x" +:+ hex_encode b.

(** [to_jsonb] *)
Fixpoint to_jsonb (d : Datum) : Json :=
  match d with
  | DNull => JNull
  | DBool b => JBool b
  | DInteger z => JNumber (integer_json z)
  | DNumeric n => JNumber (numeric_json n)
  | DText s => JString s
  | DEnum _ s => JString s
  | DBytea b => JString (bytea_text b)
  | DTsVector v => JString (tsvector_json v)
  | DRange _ => JString "range"
  | DArray l => JArray (to_jsonb <$> l)
  | DJson j => j
  | DTsQuery _ => JString "tsquery"
  end.

(** A row by column; a missing column is null. *)
Abbreviation Row := (gmap string Datum).
Definition column_of (r : Row) (c : string) : Datum := default DNull (r !! c).

Definition row_json (r : Row) : Json :=
  JObject ((fun kv => (kv.1, to_jsonb kv.2)) <$> map_to_list r).

(** ** Expressions *)
Inductive CmpOp := CmpEq | CmpNe | CmpGe | CmpGt | CmpLe | CmpLt.

Inductive SqlExpr :=
| EBind (d : Datum)
| EColumn (name : string)
| ECast (e : SqlExpr) (t : SqlType)
| ELower (e : SqlExpr)
| EUpper (e : SqlExpr)
| ECoalesce (e1 e2 : SqlExpr)
| EInt4Range (l u : SqlExpr)
| EContains (r e : SqlExpr)
| ECmp (op : CmpOp) (e1 e2 : SqlExpr)
| EAnd (e1 e2 : SqlExpr)
| ENot (e : SqlExpr)
| ELeft (e n : SqlExpr)
(** [e = any(array)]; also [exists (select 1 from unnest(array) as p(x) where e = x)] *)
| EAny (e array : SqlExpr)
| EToTsVector (language text : SqlExpr)
| ETsConcat (e1 e2 : SqlExpr)
| EToTsQuery (e : SqlExpr)
| ETsMatch (v q : SqlExpr)
| EOr (e1 e2 : SqlExpr)
| EIsNull (e : SqlExpr)
| EIn (e : SqlExpr) (l : list SqlExpr)
| ELike (e pattern : SqlExpr)
(** [position(e1 in e2)] of byte strings *)
| EPosition (e1 e2 : SqlExpr)
(** [@>] and [&&] of arrays *)
| EArrayContains (e1 e2 : SqlExpr)
| EArrayOverlaps (e1 e2 : SqlExpr)
(** the text between the quotes of a literal *)
| ELiteral (text : string)
(** [array[...]] *)
| EArray (l : list SqlExpr)
(** [+] and [greatest] of integers *)
| EAdd (e1 e2 : SqlExpr)
| EGreatest (e1 e2 : SqlExpr)
(** [to_jsonb] of the whole row *)
| ERowJson.

Definition cmp_Z (op : CmpOp) (a b : Z) : bool :=
  match op with
  | CmpEq => (a =? b)%Z | CmpNe => negb (a =? b)%Z | CmpGe => (b <=? a)%Z | CmpGt => (b <? a)%Z
  | CmpLe => (a <=? b)%Z | CmpLt => (a <? b)%Z
  end.

(** What a comparison says of an order. *)
Definition cmp_holds (op : CmpOp) (c : comparison) : bool :=
  match op, c with
  | CmpEq, Eq | CmpNe, (Lt | Gt) | CmpGe, (Gt | Eq) | CmpGt, Gt | CmpLe, (Lt | Eq) | CmpLt, Lt => true
  | _, _ => false
  end.

(** Equality and inequality; the elements of arrays may be null. *)
Fixpoint equal_data (a b : Datum) : res SqlError bool :=
  match a, b with
  | DNull, DNull => Ok true
  | DNull, _ | _, DNull => Ok false
  | DInteger a, DInteger b => Ok (a =? b)%Z
  | DBool a, DBool b => Ok (Bool.eqb a b)
  | DText a, DText b => Ok (String.eqb a b)
  | DBytea a, DBytea b => Ok (bool_decide (a = b))
  | DNumeric a, DNumeric b => Ok (cmp_holds CmpEq (numeric_compare a b))
  | DEnum ty a, DEnum ty' b => if String.eqb ty ty' then Ok (String.eqb a b) else Panic
  | DArray l, DArray k =>
      (fix go (l k : list Datum) : res SqlError bool :=
         match l, k with
         | [], [] => Ok true
         | a :: l, b :: k => let? e := equal_data a b in let? es := go l k in Ok (e && es)
         | _, _ => Ok false
         end) l k
  | _, _ => Panic
  end.

Definition compare_data (op : CmpOp) (a b : Datum) : res SqlError Datum :=
  match a, b with
  | DNull, _ | _, DNull => Ok DNull
  | DInteger a, DInteger b => Ok (DBool (cmp_Z op a b))
  | DText a, DText b =>
      match op with
      | CmpEq => Ok (DBool (String.eqb a b))
      | CmpNe => Ok (DBool (negb (String.eqb a b)))
      | _ => Ok (DBool (cmp_holds op (text_compare a b)))
      end
  | DBytea a, DBytea b =>
      match op with
      | CmpEq => Ok (DBool (bool_decide (a = b)))
      | CmpNe => Ok (DBool (negb (bool_decide (a = b))))
      | _ => Ok (DBool (cmp_holds op (bytes_compare a b)))
      end
  | DNumeric a, DNumeric b => Ok (DBool (cmp_holds op (numeric_compare a b)))
  | _, _ =>
      match op with
      | CmpEq => res_map DBool (equal_data a b)
      | CmpNe => res_map (fun e => DBool (negb e)) (equal_data a b)
      | _ => Panic
      end
  end.

Definition and_data (a b : Datum) : res SqlError Datum :=
  match a, b with
  | DBool false, (DBool _ | DNull) | (DBool true | DNull), DBool false => Ok (DBool false)
  | DBool true, DBool true => Ok (DBool true)
  | DNull, (DNull | DBool true) | DBool true, DNull => Ok DNull
  | _, _ => Panic
  end.

Definition or_data (a b : Datum) : res SqlError Datum :=
  match a, b with
  | DBool true, (DBool _ | DNull) | (DBool false | DNull), DBool true => Ok (DBool true)
  | DBool false, DBool false => Ok (DBool false)
  | DNull, (DNull | DBool false) | DBool false, DNull => Ok DNull
  | _, _ => Panic
  end.

Definition not_data (a : Datum) : res SqlError Datum :=
  match a with DBool b => Ok (DBool (negb b)) | DNull => Ok DNull | _ => Panic end.

(** [any] over the comparisons with the elements. *)
Definition any_data (l : list Datum) : Datum :=
  if existsb (fun d => match d with DBool true => true | _ => false end) l then DBool true
  else if existsb is_null l then DNull else DBool false.

(** Elements of arrays that are equal; nulls are equal to nothing. *)
Definition elements_equal (a b : Datum) : bool :=
  match compare_data CmpEq a b with Ok (DBool e) => e | _ => false end.

Definition same_kind (a b : Datum) : bool :=
  match compare_data CmpEq a b with Panic => false | _ => true end.

Definition arrays_data (f : list Datum -> list Datum -> bool) (a b : Datum) : res SqlError Datum :=
  match a, b with
  | DArray l, DArray k =>
      if forallb (fun x => forallb (same_kind x) k) l then Ok (DBool (f l k)) else Panic
  | DNull, (DNull | DArray _) | DArray _, DNull => Ok DNull
  | _, _ => Panic
  end.

Definition int_bound (d : Datum) : res SqlError (option Z) :=
  match d with DInteger z => Ok (Some z) | DNull => Ok None | _ => Panic end.
Definition bound_datum (o : option Z) : Datum :=
  match o with Some z => DInteger z | None => DNull end.

Definition map_range (f : Int4Range -> res SqlError Datum) (d : Datum) : res SqlError Datum :=
  match d with DRange r => f r | DNull => Ok DNull | _ => Panic end.

(** Casts; [enums] has the labels of the enum types. *)
Fixpoint cast_data (enums : gmap string (gset string)) (t : SqlType) (d : Datum)
  : res SqlError Datum :=
  if has_type d t then Ok d
  else
    match d, t with
    | DText s, TNumeric => res_map DNumeric (ok_or (numeric_in s) InvalidText)
    | DText s, TEnum ty =>
        let? labels := ok_or (enums !! ty) UndefinedTable in
        if bool_decide (s ∈ labels) then Ok (DEnum ty s) else Err InvalidText
    | DText s, TBytea => res_map DBytea (bytea_in s)
    | DBytea b, TText => Ok (DText (bytea_text b))
    | DEnum _ s, TText => Ok (DText s)
    | DArray l, TArray t => res_map DArray (map_res (cast_data enums t) l)
    | _, _ => Panic
    end.

Fixpoint eval (enums : gmap string (gset string)) (r : Row) (e : SqlExpr) : res SqlError Datum :=
  match e with
  | EBind d => Ok d
  | EColumn c => Ok (column_of r c)
  | ECast e t => let? d := eval enums r e in cast_data enums t d
  | ELower e =>
      let? d := eval enums r e in map_range (fun r => Ok (bound_datum (range_lower r))) d
  | EUpper e =>
      let? d := eval enums r e in map_range (fun r => Ok (bound_datum (range_upper r))) d
  | ECoalesce e1 e2 =>
      let? d := eval enums r e1 in
      let? d2 := eval enums r e2 in
      Ok (if is_null d then d2 else d)
  | EInt4Range l u =>
      let? l := eval enums r l in
      let? u := eval enums r u in
      let? l := int_bound l in
      let? u := int_bound u in
      res_map DRange (int4range l u)
  | EContains rg e =>
      let? rg := eval enums r rg in
      let? d := eval enums r e in
      match d with
      | DInteger n => map_range (fun rg => Ok (DBool (range_contains rg n))) rg
      | DNull => Ok DNull
      | _ => Panic
      end
  | ECmp op e1 e2 =>
      let? d1 := eval enums r e1 in
      let? d2 := eval enums r e2 in
      compare_data op d1 d2
  | EAnd e1 e2 =>
      let? d1 := eval enums r e1 in
      let? d2 := eval enums r e2 in
      and_data d1 d2
  | ENot e => let? d := eval enums r e in not_data d
  | ELeft e n =>
      let? d := eval enums r e in
      let? n := eval enums r n in
      match d, n with
      | DText s, DInteger n =>
          Ok (DText (text_left s n))
      | DNull, _ | _, DNull => Ok DNull
      | _, _ => Panic
      end
  | EAny e a =>
      let? d := eval enums r e in
      let? a := eval enums r a in
      match a with
      | DArray l => res_map any_data (map_res (compare_data CmpEq d) l)
      | DNull => Ok DNull
      | _ => Panic
      end
  | EToTsVector l t =>
      let? l := eval enums r l in
      let? t := eval enums r t in
      match l, t with
      | DText l, DText t => Ok (DTsVector (to_tsvector l t))
      | DNull, _ | _, DNull => Ok DNull
      | _, _ => Panic
      end
  | ETsConcat e1 e2 =>
      let? d1 := eval enums r e1 in
      let? d2 := eval enums r e2 in
      match d1, d2 with
      | DTsVector v, DTsVector w => Ok (DTsVector (tsvector_concat v w))
      | DNull, _ | _, DNull => Ok DNull
      | _, _ => Panic
      end
  | EToTsQuery e =>
      let? d := eval enums r e in
      match d with
      | DText s => res_map DTsQuery (ok_or (to_tsquery s) SyntaxError)
      | DNull => Ok DNull
      | _ => Panic
      end
  | ETsMatch e1 e2 =>
      let? d1 := eval enums r e1 in
      let? d2 := eval enums r e2 in
      match d1, d2 with
      | DTsVector v, DTsQuery q => Ok (DBool (ts_match v q))
      | DNull, _ | _, DNull => Ok DNull
      | _, _ => Panic
      end
  | EOr e1 e2 =>
      let? d1 := eval enums r e1 in
      let? d2 := eval enums r e2 in
      or_data d1 d2
  | EIsNull e => let? d := eval enums r e in Ok (DBool (is_null d))
  | EIn e l =>
      let? d := eval enums r e in
      let? ds := (fix go l := match l with
                              | [] => Ok []
                              | e :: l => let? d := eval enums r e in let? ds := go l in Ok (d :: ds)
                              end) l in
      match ds with
      | [] => Err SyntaxError
      | _ => res_map any_data (map_res (compare_data CmpEq d) ds)
      end
  | ELike e p =>
      let? d := eval enums r e in
      let? p := eval enums r p in
      match d, p with
      | DText s, DText p => if pattern_ok p then Ok (DBool (like p s)) else Panic
      | DNull, _ | _, DNull => Ok DNull
      | _, _ => Panic
      end
  | EPosition e1 e2 =>
      let? d1 := eval enums r e1 in
      let? d2 := eval enums r e2 in
      match d1, d2 with
      | DBytea b, DBytea c => Ok (DInteger (position b c))
      | DNull, _ | _, DNull => Ok DNull
      | _, _ => Panic
      end
  | EArrayContains e1 e2 =>
      let? d1 := eval enums r e1 in
      let? d2 := eval enums r e2 in
      arrays_data (fun l k => forallb (fun y => existsb (fun x => elements_equal x y) l) k) d1 d2
  | EArrayOverlaps e1 e2 =>
      let? d1 := eval enums r e1 in
      let? d2 := eval enums r e2 in
      arrays_data (fun l k => existsb (fun y => existsb (fun x => elements_equal x y) l) k) d1 d2
  | ELiteral s => res_map DText (ok_or (unquote s) SyntaxError)
  | EArray l =>
      res_map DArray ((fix go l := match l with
                                   | [] => Ok []
                                   | e :: l => let? d := eval enums r e in let? ds := go l in Ok (d :: ds)
                                   end) l)
  | EAdd e1 e2 =>
      let? d1 := eval enums r e1 in
      let? d2 := eval enums r e2 in
      match d1, d2 with
      | DInteger a, DInteger b =>
          if bool_decide (is_i32 (a + b)) then Ok (DInteger (a + b)) else Err NumericOutOfRange
      | DNull, (DNull | DInteger _) | DInteger _, DNull => Ok DNull
      | _, _ => Panic
      end
  | EGreatest e1 e2 =>
      let? d1 := eval enums r e1 in
      let? d2 := eval enums r e2 in
      match d1, d2 with
      | DInteger a, DInteger b => Ok (DInteger (Z.max a b))
      | DNull, (DNull | DInteger _) => Ok d2
      | DInteger _, DNull => Ok d1
      | _, _ => Panic
      end
  | ERowJson => Ok (DJson (row_json r))
  end.

(** A row is selected where the condition is true, not where it is unknown. *)
Definition selects_row (enums : gmap string (gset string)) (where_ : SqlExpr) (r : Row)
  : res SqlError bool :=
  let? d := eval enums r where_ in
  match d with DBool b => Ok b | DNull => Ok false | _ => Panic end.

(** ** Tables and statements *)
Record ColumnDef := mk_column_def { cd_name : string; cd_type : SqlType; cd_not_null : bool }.

(** The tables of entities have
    [exclude using gist (id with =, block_range with &&)]. *)
Record TableDef := mk_table_def { td_columns : list ColumnDef; td_exclusion : bool }.

Record TableState := mk_table_state { ts_def : TableDef; ts_rows : list Row }.

Record Database := mk_database {
  db_tables : gmap string TableState;
  db_enums : gmap string (gset string);
}.

Record SelectBlock := mk_select_block {
  sb_outputs : list SqlExpr;
  sb_table : string;
  sb_where : SqlExpr;
}.

Inductive Statement :=
| SInsert (table : string) (columns : list string) (values : list SqlExpr)
| SInsertSelect (table : string) (columns : list string) (outputs : list SqlExpr) (source : string)
| SUpdate (table : string) (sets : list (string * SqlExpr)) (where_ : SqlExpr)
    (returning : list SqlExpr)
| SDelete (table : string) (where_ : SqlExpr) (returning : list SqlExpr)
(** the blocks of a [union all] *)
| SSelect (blocks : list SelectBlock)
(** [update table set column = coalesce(nullif(column, -1) + count, (select
    sum(e.count) from (...) e)) where id = id] with the number of rows with
    [upper_inf(block_range)] in [counted] *)
| SAddCount (table column : string) (count : Z) (counted : list string) (id : Datum).

(** The rows a statement returns, and the number of rows it affected. *)
Record Outcome := mk_outcome { oc_rows : list (list Datum); oc_count : nat }.

Definition column_def (t : TableDef) (c : string) : option ColumnDef :=
  List.find (fun d => String.eqb (cd_name d) c) (td_columns t).

(** Setting a column to a value of its type. *)
Definition assign_column (t : TableDef) (r : Row) (c : string) (d : Datum) : res SqlError Row :=
  let? def := ok_or (column_def t c) UndefinedColumn in
  if has_type d (cd_type def) then Ok (<[c := d]> r) else Panic.

Definition assign_columns (t : TableDef) : Row -> list (string * Datum) -> res SqlError Row :=
  fold_res (fun r cd => assign_column t r cd.1 cd.2).

Definition check_not_null (t : TableDef) (r : Row) : res SqlError unit :=
  if existsb (fun d => cd_not_null d && is_null (column_of r (cd_name d))) (td_columns t)
  then Err NotNullViolation else Ok ().

(** The exclusion constraint is violated by two rows with the same id whose
    ranges overlap. *)
Definition same_id (a b : Datum) : bool :=
  match compare_data CmpEq a b with Ok (DBool true) => true | _ => false end.

Definition excludes (t : TableDef) (a b : Row) : bool :=
  td_exclusion t
  && same_id (column_of a "id") (column_of b "id")
  && match column_of a "block_range", column_of b "block_range" with
     | DRange r, DRange s => range_overlaps r s
     | _, _ => false
     end.

Definition insert_row (t : TableDef) (rows : list Row) (r : Row) : res SqlError (list Row) :=
  let? _ := check_not_null t r in
  if existsb (excludes t r) rows then Err ExclusionViolation else Ok (rows ++ [r]).

(** The columns of an expression, which must be columns of its table. *)
Fixpoint expr_columns (e : SqlExpr) : list string :=
  match e with
  | EBind _ | ERowJson => []
  | EColumn c => [c]
  | ELiteral _ => []
  | ECast e _ | ELower e | EUpper e | ENot e | EToTsQuery e | EIsNull e => expr_columns e
  | ECoalesce a b | EInt4Range a b | EContains a b | ECmp _ a b | EAnd a b | ELeft a b | EAny a b
  | EToTsVector a b | ETsConcat a b | EAdd a b | EGreatest a b | ETsMatch a b | EOr a b | ELike a b
  | EPosition a b | EArrayContains a b | EArrayOverlaps a b => expr_columns a ++ expr_columns b
  | EIn e l => expr_columns e ++ (l ≫= expr_columns)
  | EArray l => l ≫= expr_columns
  end.

Definition check_columns (t : TableDef) (es : list SqlExpr) : res SqlError unit :=
  if forallb (fun c => bool_decide (is_Some (column_def t c))) (es ≫= expr_columns)
  then Ok () else Err UndefinedColumn.

Definition with_rows (db : Database) (name : string) (t : TableState) (rows : list Row) : Database :=
  mk_database (<[name := mk_table_state (ts_def t) rows]> (db_tables db)) (db_enums db).

Definition get_table (db : Database) (name : string) : res SqlError TableState :=
  ok_or (db_tables db !! name) UndefinedTable.

(** An updated row next to what it was. *)
Definition update_row (enums : gmap string (gset string)) (t : TableDef)
    (sets : list (string * SqlExpr)) (r : Row) : res SqlError Row :=
  let? values := map_res (fun s => let? d := eval enums r s.2 in Ok (s.1, d)) sets in
  let? new := assign_columns t r values in
  let? _ := check_not_null t new in
  Ok new.

(** The rows of an update: the row as it was and, if it is selected, as it
    will be. *)
Definition update_rows (enums : gmap string (gset string)) (t : TableDef)
    (sets : list (string * SqlExpr)) (where_ : SqlExpr) (rows : list Row)
  : res SqlError (list (Row * option Row)) :=
  map_res (fun r =>
             let? selected := selects_row enums where_ r in
             if selected then let? new := update_row enums t sets r in Ok (r, Some new)
             else Ok (r, None)) rows.

Definition updated_row (p : Row * option Row) : Row := default p.1 p.2.

(** Whether some updated row conflicts with another row, as it was or as it
    will be: the constraint is checked row by row in no particular order. *)
Definition update_conflicts (t : TableDef) : list (Row * option Row) -> bool :=
  fix go l :=
    match l with
    | [] => false
    | p :: l =>
        existsb (fun q : Row * option Row =>
                   match p.2 with
                   | Some new => excludes t new q.1 || excludes t new (updated_row q)
                   | None => false
                   end
                   || match q.2 with
                      | Some new => excludes t new p.1 || excludes t new (updated_row p)
                      | None => false
                      end) l
        || go l
    end.

Definition returned (enums : gmap string (gset string)) (returning : list SqlExpr) (rows : list Row)
  : res SqlError (list (list Datum)) :=
  match returning with
  | [] => Ok []
  | _ => map_res (fun r => map_res (eval enums r) returning) rows
  end.

Definition select_block (db : Database) (b : SelectBlock) : res SqlError (list (list Datum)) :=
  let? t := get_table db (sb_table b) in
  let? _ := check_columns (ts_def t) (sb_where b :: sb_outputs b) in
  let? rows := filter_res (selects_row (db_enums db) (sb_where b)) (ts_rows t) in
  map_res (fun r => map_res (eval (db_enums db) r) (sb_outputs b)) rows.

(** [upper_inf(block_range)] *)
Definition upper_inf (r : Row) : bool :=
  match column_of r "block_range" with DRange (RangeBounds _ None) => true | _ => false end.

Definition count_current (db : Database) (counted : list string) : res SqlError Z :=
  let? counts := map_res (fun name =>
    let? t := get_table db name in Ok (Z.of_nat (length (List.filter upper_inf (ts_rows t))))) counted in
  match counts with [] => Err SyntaxError | _ => Ok (foldr Z.add 0%Z counts) end.

(** The new value of the column. *)
Definition add_count (count total : Z) (d : Datum) : res SqlError Datum :=
  match d with
  | DNull => Ok (DNumeric (numeric_of_Z total))
  | DNumeric n => Ok (DNumeric (if numeric_is n (-1) then numeric_of_Z total else numeric_add n count))
  | _ => Panic
  end.

Definition add_count_row (column : string) (count total : Z) (id : Datum) (r : Row) : res SqlError Row :=
  if same_id (column_of r "id") id
  then let? d := add_count count total (column_of r column) in Ok (<[column := d]> r)
  else Ok r.

Definition meaning (db : Database) (st : Statement) : res SqlError (Database * Outcome) :=
  let enums := db_enums db in
  match st with
  | SInsert name columns values =>
      let? t := get_table db name in
      let? data := map_res (eval enums ∅) values in
      let? r := assign_columns (ts_def t) ∅ (zip columns data) in
      let? rows := insert_row (ts_def t) (ts_rows t) r in
      Ok (with_rows db name t rows, mk_outcome [] 1)
  | SInsertSelect name columns outputs source =>
      let? t := get_table db name in
      let? s := get_table db source in
      let? _ := check_columns (ts_def s) outputs in
      let? new := map_res (fun r =>
                    let? data := map_res (eval enums r) outputs in
                    assign_columns (ts_def t) ∅ (zip columns data)) (ts_rows s) in
      let? rows := fold_res (insert_row (ts_def t)) (ts_rows t) new in
      Ok (with_rows db name t rows, mk_outcome [] (length new))
  | SUpdate name sets where_ returning =>
      match sets with
      | [] => Err SyntaxError
      | _ =>
          let? t := get_table db name in
          let? _ := check_columns (ts_def t) (where_ :: sets.*2 ++ returning) in
          let? l := update_rows enums (ts_def t) sets where_ (ts_rows t) in
          if update_conflicts (ts_def t) l then Panic
          else
            let new := omap snd l in
            let? out := returned enums returning new in
            Ok (with_rows db name t (updated_row <$> l), mk_outcome out (length new))
      end
  | SDelete name where_ returning =>
      let? t := get_table db name in
      let? _ := check_columns (ts_def t) (where_ :: returning) in
      let? gone := filter_res (selects_row enums where_) (ts_rows t) in
      let? kept := filter_res (fun r => res_map negb (selects_row enums where_ r)) (ts_rows t) in
      let? out := returned enums returning gone in
      Ok (with_rows db name t kept, mk_outcome out (length gone))
  | SSelect blocks =>
      let? rows := map_res (select_block db) blocks in
      Ok (db, mk_outcome (mjoin rows) (length (mjoin rows)))
  | SAddCount name column count counted id =>
      let? t := get_table db name in
      let? def := ok_or (column_def (ts_def t) column) UndefinedColumn in
      let? total := count_current db counted in
      if negb (bool_decide (cd_type def = TNumeric)) || bool_decide (column = "id")
         || bool_decide (column = "block_range") then Panic
      else
        let? rows := map_res (add_count_row column count total id) (ts_rows t) in
        Ok (with_rows db name t rows,
            mk_outcome [] (length (List.filter (fun r => same_id (column_of r "id") id) (ts_rows t))))
  end.

(** The same tables, with their rows in any order. *)
Definition same_table (a b : TableState) : Prop := ts_def a = ts_def b /\ ts_rows a ≡ₚ ts_rows b.
Definition same_database (a b : Database) : Prop :=
  db_enums a = db_enums b
  /\ forall name, option_Forall2 same_table (db_tables a !! name) (db_tables b !! name).
Definition same_outcome (a b : Outcome) : Prop :=
  oc_rows a ≡ₚ oc_rows b /\ oc_count a = oc_count b.
End sql.

Abbreviation Row := (gmap string Datum).

(** ** The database server *)
Class Postgres {ST : ScalarText} {PT : PgText} := {
  Db : Type;
  execute : Db -> Statement -> res SqlError (Db * Outcome);
  contents : Db -> Database;
}.

Class PostgresLaws {ST : ScalarText} {PT : PgText} {PG : Postgres} : Prop := {
  executes db st :
    match meaning (contents db) st with
    | Ok (db', out) => exists d o, execute db st = Ok (d, o)
                         /\ same_database db' (contents d) /\ same_outcome out o
    | Err _ => exists e, execute db st = Err e
    | Panic => True
    end;
}.

(** A server that keeps the rows in the order they were written. *)
Module Reference.
Section reference.
Context {ST : ScalarText} {PT : PgText}.

Definition run (db : Database) (st : Statement) : res SqlError (Database * Outcome) :=
  match meaning db st with
  | Panic => Err Unspecified
  | m => m
  end.

#[export] Instance server : Postgres := { Db := Database; execute := run; contents db := db }.

#[export] Instance server_laws : PostgresLaws.
Proof.
  split. intros db st. cbn. unfold run. destruct (meaning db st) as [[db' out]|e|]; [|by exists e|done].
  exists db', out. split; [done|]. split; [|done]. split; [done|]. intros name.
  destruct (db_tables db' !! name); by constructor.
Qed.
End reference.
End Reference.
