(* ===== verification/Selects.v ===== *)
(** * Select statements

    The statements that query entities
    ([store/postgres/src/relational_queries.rs], [FilterQuery]) join, limit,
    sort and combine rows.  This file has them as an algebra, and what
    PostgreSQL makes of it: a query is evaluated in an environment, the columns
    of the rows it is joined to, whose names have a dot.

    Rows come in no particular order unless they are sorted.  Where it is left
    open which rows a query returns or in which order, because rows are limited
    that are not sorted or the sort keys do not tell them apart, the meaning is
    [Panic].  The database is the interface [PostgresQueries]. *)

From stdpp Require Import prelude list strings gmap.
From Stdlib Require Import ZArith Lia Ascii.
From S2P Require Import Prelude.
From S2P Require Import Sorting.
From S2P Require Import StoreValue.
From S2P Require Import Sql.

#[local] Open Scope string_scope.
#[local] Open Scope list_scope.

Section selects.
Context {ST : ScalarText} {PT : PgText}.

(** ** Queries *)

(** What to sort by; nulls come last. *)
Inductive SortBy :=
| SortColumn (column : string)
(** [ts_rank(column, query)], [ts_rank_cd] where the flag is set *)
| SortRank (cover : bool) (column : string) (query : SqlExpr).

Record OrderKey := mk_order_key { ok_by : SortBy; ok_desc : bool }.

Inductive Select :=
(** [select * from table where condition] *)
| QTable (table : string) (where_ : SqlExpr)
(** [rows from (unnest(array), ...) as p(...) cross join lateral (q)] *)
| QJoin (arrays : list (string * SqlExpr)) (q : Select)
(** more columns *)
| QWith (columns : list (string * SqlExpr)) (q : Select)
(** [union all] *)
| QUnion (l : list Select)
(** [order by keys limit .. offset ..] *)
| QTop (keys : list OrderKey) (limit : option Z) (offset : Z) (q : Select)
(** [limit] of rows in no order *)
| QLimit (limit : Z) (q : Select)
(** of the rows of [q], those of each of the objects, one after the other *)
| QFetch (objects : list string) (q : Select).

(** The name of the type of a row's entity. *)
Definition ENTITY : string := "m.entity".

(** ** Sorting *)

(** The order of values that are not null. *)
Definition order_data (a b : Datum) : res SqlError comparison :=
  match a, b with
  | DInteger a, DInteger b => Ok (a ?= b)%Z
  | DNumeric a, DNumeric b => Ok (numeric_compare a b)
  | DText a, DText b => Ok (text_compare a b)
  | DBytea a, DBytea b => Ok (bytes_compare a b)
  | DBool a, DBool b => Ok (match a, b with false, true => Lt | true, false => Gt | _, _ => Eq end)
  | DEnum ty a, DEnum ty' b => if String.eqb ty ty' then Ok (enum_compare ty a b) else Panic
  | _, _ => Panic
  end.

Definition directed (desc : bool) (c : comparison) : comparison := if desc then CompOpp c else c.

Definition order_nulls_last (desc : bool) (order : Datum -> Datum -> res SqlError comparison) (a b : Datum)
  : res SqlError comparison :=
  match a, b with
  | DNull, DNull => Ok Eq
  | DNull, _ => Ok Gt
  | _, DNull => Ok Lt
  | _, _ => res_map (directed desc) (order a b)
  end.

Definition order_rank (cover : bool) (q : TsQuery) (a b : Datum) : res SqlError comparison :=
  match a, b with
  | DTsVector v, DTsVector w => Ok (ts_rank_compare cover q v w)
  | _, _ => Panic
  end.

Definition compare_key (enums : gmap string (gset string)) (k : OrderKey) (r s : Row) : res SqlError comparison :=
  match ok_by k with
  | SortColumn c => order_nulls_last (ok_desc k) order_data (column_of r c) (column_of s c)
  | SortRank cover c query =>
      let? q := eval enums ∅ query in
      match q with
      | DTsQuery q => order_nulls_last (ok_desc k) (order_rank cover q) (column_of r c) (column_of s c)
      | _ => Panic
      end
  end.

Fixpoint compare_rows (enums : gmap string (gset string)) (keys : list OrderKey) (r s : Row)
  : res SqlError comparison :=
  match keys with
  | [] => Ok Eq
  | k :: keys =>
      let? c := compare_key enums k r s in
      match c with Eq => compare_rows enums keys r s | c => Ok c end
  end.

(** The keys tell the rows apart. *)
Fixpoint strictly_sorted (cmp : Row -> Row -> res SqlError comparison) (l : list Row) : bool :=
  match l with
  | r :: (s :: _) as l' => match cmp r s with Ok Lt => true | _ => false end && strictly_sorted cmp l'
  | _ => true
  end.

Definition limited {A} (limit : option Z) (offset : Z) (l : list A) : list A :=
  let l := drop (Z.to_nat offset) l in
  match limit with Some n => take (Z.to_nat n) l | None => l end.

Definition top_rows (enums : gmap string (gset string)) (keys : list OrderKey) (limit : option Z) (offset : Z)
    (rows : list Row) : res SqlError (list Row) :=
  match keys with
  | [] => if (length (limited limit offset rows) =? length rows)%nat then Ok rows else Panic
  | _ =>
      let? sorted := sort_by (compare_rows enums keys) rows in
      if strictly_sorted (compare_rows enums keys) sorted then Ok (limited limit offset sorted) else Panic
  end.

(** ** Joins *)

(** [rows from]: shorter columns are filled up with nulls. *)
Definition rows_from (columns : list (string * list Datum)) : list Row :=
  let n := foldr (fun c m => Nat.max (length c.2) m) 0%nat columns in
  (fun i => list_to_map ((fun c : string * list Datum => (c.1, default DNull (c.2 !! i))) <$> columns))
    <$> seq 0 n.

Definition array_of (d : Datum) : res SqlError (list Datum) :=
  match d with DArray l => Ok l | _ => Panic end.

(** Names of columns from the environment have a dot, which columns of tables
    do not. *)
Definition in_environment (c : string) : bool :=
  negb (all_chars (fun a => negb (Ascii.eqb a ".")) c).

Definition check_query_columns (t : TableDef) (es : list SqlExpr) : res SqlError unit :=
  if forallb (fun c => in_environment c || bool_decide (is_Some (column_def t c))) (es ≫= expr_columns)
  then Ok () else Err UndefinedColumn.

Definition with_columns (enums : gmap string (gset string)) (columns : list (string * SqlExpr)) (r : Row)
  : res SqlError Row :=
  let? data := map_res (fun c => let? d := eval enums r c.2 in Ok (c.1, d)) columns in
  Ok (foldl (fun r kd => <[kd.1 := kd.2]> r) r data).

Definition is_entity (object : string) (r : Row) : bool :=
  match column_of r ENTITY with DText o => String.eqb o object | _ => false end.

(** ** What a query returns *)
Fixpoint select_rows (db : Database) (env : Row) (q : Select) : res SqlError (list Row) :=
  match q with
  | QTable name where_ =>
      let? t := get_table db name in
      let? _ := check_query_columns (ts_def t) [where_] in
      filter_res (selects_row (db_enums db) where_) ((fun r => r ∪ env) <$> ts_rows t)
  | QJoin arrays q =>
      let? columns := map_res (fun a => let? d := eval (db_enums db) env a.2 in
                                        let? l := array_of d in Ok (a.1, l)) arrays in
      res_map mjoin (map_res (fun p => select_rows db (p ∪ env) q) (rows_from columns))
  | QWith columns q =>
      let? rows := select_rows db env q in
      map_res (with_columns (db_enums db) columns) rows
  | QUnion l =>
      res_map mjoin ((fix go l := match l with
                                  | [] => Ok []
                                  | q :: l => let? rows := select_rows db env q in
                                              let? more := go l in Ok (rows :: more)
                                  end) l)
  | QTop keys limit offset q =>
      let? rows := select_rows db env q in
      top_rows (db_enums db) keys limit offset rows
  | QLimit n q =>
      let? rows := select_rows db env q in
      if (Z.of_nat (length rows) <=? n)%Z then Ok rows else Panic
  | QFetch objects q =>
      let? rows := select_rows db env q in
      Ok (objects ≫= fun object => List.filter (is_entity object) rows)
  end.

(** The columns of the table, as [to_jsonb] of the row has them. *)
Definition own_columns (r : Row) : Row :=
  filter (fun kd : string * Datum => in_environment kd.1 = false) r.

(** [select entity, to_jsonb(c)] *)
Definition entity_output (r : Row) : list Datum :=
  [column_of r ENTITY; DJson (row_json (own_columns r))].

Definition query_meaning (db : Database) (q : Select) : res SqlError (list (list Datum)) :=
  let? rows := select_rows db ∅ q in
  Ok (entity_output <$> rows).

(** The rows come sorted: adding columns to a sorted query keeps its order, on
    which the store relies. *)
Fixpoint sorted_query (q : Select) : bool :=
  match q with QTop (_ :: _) _ _ _ => true | QWith _ q => sorted_query q | _ => false end.

Lemma select_union db env l :
  select_rows db env (QUnion l) = res_map mjoin (map_res (select_rows db env) l).
Proof. done. Qed.
End selects.

(** ** The database *)
Class PostgresQueries {ST : ScalarText} {PT : PgText} {PG : Postgres} := {
  query : Db -> Select -> res SqlError (list (list Datum));
}.

Class PostgresQueriesLaws {ST : ScalarText} {PT : PgText} {PG : Postgres} {PQ : PostgresQueries} : Prop := {
  queries db q :
    match query_meaning (contents db) q with
    | Ok rows => exists rows', query db q = Ok rows'
                   /\ (if sorted_query q then rows' = rows else rows' ≡ₚ rows)
    | Err _ => exists e, query db q = Err e
    | Panic => True
    end;
}.

Module ReferenceQueries.
Section reference.
Context {ST : ScalarText} {PT : PgText}.
#[local] Existing Instance Reference.server.

#[export] Instance queries : PostgresQueries := {
  query db q := match query_meaning db q with Panic => Err Unspecified | m => m end;
}.

#[export] Instance queries_laws : PostgresQueriesLaws.
Proof.
  split. intros db q. cbn. destruct (query_meaning db q) as [rows|e|]; [|by exists e|done].
  exists rows. split; [done|]. by destruct (sorted_query q).
Qed.
End reference.
End ReferenceQueries.
