(* ===== verification/Layout.v ===== *)
(** * The layout of a subgraph's tables

    Models [store/postgres/src/relational.rs] as far as it describes tables
    ([SqlName], [ColumnType], [Column], [Table], [Layout]) and
    [store/postgres/src/catalog.rs]: a table for every entity type of a schema
    and a column for every field that is not derived.  The [create table]
    statements are the tables of [Sql] they create; indexes are left out.

    What the columns store is in [ColumnValues], what tables hold in
    [Versions]. *)

From stdpp Require Import prelude list strings gmap sorting.
From Stdlib Require Import ZArith Lia Ascii.
From S2P Require Import Prelude.
From S2P Require Import GraphqlTypes.
From S2P Require Import StoreValue.
From S2P Require Import GraphqlSchema.
From S2P Require Import Schema.
From S2P Require Import Sql.

#[local] Open Scope string_scope.
#[local] Open Scope list_scope.

(** ** Errors: [StoreError] of [graph/src/components/store.rs]; errors of other
    libraries are wrapped as [Unknown]. *)
Inductive StoreError :=
| SEAborted (expected_entity_ids actual_entity_ids : list string) (description : string)
| SEUnknown (message : string)
| SESql (e : SqlError)
| SEConflictingId (entity id conflicting_entity : string)
| SEUnknownField (field : string)
| SEUnknownTable (table : string)
| SEQueryExecutionError (message : string)
| SEInvalidIdentifier (message : string)
| SEDuplicateBlockProcessing (id : SubgraphDeploymentId) (number : Z).

Abbreviation sres := (res StoreError).

(** ** Names *)
Abbreviation SqlName := string (only parsing).
Definition dquote : string := String (ascii_of_nat 34) EmptyString.

Definition quoted (name : SqlName) : string := dquote +:+ name +:+ dquote.

Definition check_valid_identifier (name kind : string) : sres unit :=
  match name with
  | EmptyString => Err (SEInvalidIdentifier ("can not use an empty name for a " +:+ kind))
  | String c chars =>
      if negb (is_ascii_alphabetic c) && negb (Ascii.eqb c "_")
      then Err (SEInvalidIdentifier ("the name `" +:+ name +:+ "` can not be used for a " +:+ kind
                  +:+ "; it must start with an ASCII alphabetic character or `_`"))
      else if negb (all_chars (fun c => is_ascii_alphanumeric c || Ascii.eqb c "_") chars)
      then Err (SEInvalidIdentifier ("the name `" +:+ name +:+ "` can not be used for a " +:+ kind
                  +:+ "; it can only contain alphanumeric characters and `_`"))
      else Ok ()
  end.

Definition qualified_name (schema name : SqlName) : SqlName :=
  quoted schema +:+ "." +:+ quoted name.

Definition PRIMARY_KEY_COLUMN : SqlName := "id".
Definition BLOCK_RANGE_COLUMN : SqlName := "block_range".
Definition POI_TABLE : string := "poi2$".
Definition POI_OBJECT : string := "Poi$".

(** ** Types of fields *)
Inductive IdType := IdString | IdBytes.

#[export] Instance IdType_eq_dec : EqDecision IdType.
Proof. solve_decision. Defined.
#[export] Instance IdType_countable : Countable IdType.
Proof.
  refine (inj_countable' (fun t => match t with IdString => true | IdBytes => false end)
            (fun b => if b : bool then IdString else IdBytes) _).
  by intros [].
Defined.

Fixpoint named_type (field_type : GType) : string :=
  match field_type with
  | NamedType name => name
  | ListType child => named_type child
  | NonNullType child => named_type child
  end.

Definition derived_column (field : Field) : bool :=
  existsb (fun dir => String.eqb (dir_name dir) "derivedFrom") (fd_directives field).

Definition IdType_of_type (field_type : GType) : sres IdType :=
  let name := named_type field_type in
  match ValueType_from_str name with
  | Ok VT_String => Ok IdString
  | Ok VT_Bytes => Ok IdBytes
  | Ok _ => Err (SEUnknown ("The `id` field has type `" +:+ name
                            +:+ "` but only `String`, `Bytes`, and `ID` are allowed"))
  | Err e => Err (SEUnknown e)
  | Panic => Panic
  end.

(** [expect]: each object type has an [id] field. *)
Definition IdType_of_object (obj_type : ObjectType) : sres IdType :=
  let? pk := unwrap (oi_field (OIObject obj_type) PRIMARY_KEY_COLUMN) in
  IdType_of_type (fd_field_type pk).

Abbreviation IdTypeMap := (gmap string IdType).
Abbreviation EnumMap := (gmap string (gset string)).

Definition is_object_type (field_type : GType) (enums : EnumMap) : bool :=
  let name := named_type field_type in
  bool_decide (enums !! name = None) && negb (is_scalar name).

(** ** The catalog *)
Record Catalog := mk_catalog {
  cat_schema : string;
  cat_text_columns : gmap string (gset string);
}.

Definition make_empty (schema : string) : sres Catalog :=
  let? _ := check_valid_identifier schema "database schema" in
  Ok (mk_catalog schema ∅).

Definition is_existing_text_column (c : Catalog) (table column : SqlName) : bool :=
  match cat_text_columns c !! table with
  | Some cols => bool_decide (column ∈ cols)
  | None => false
  end.

(** ** Columns *)
Record SqlEnum := mk_sql_enum { en_name : SqlName; en_values : gset string }.

#[export] Instance SqlEnum_eq_dec : EqDecision SqlEnum.
Proof. solve_decision. Defined.

Definition enum_is_assignable_from (self source : SqlEnum) : option string :=
  if bool_decide (en_values source ⊆ en_values self) then None
  else Some ("the enum type " +:+ en_name source +:+ " contains values not present in "
             +:+ en_name self).

#[export] Instance FulltextConfig_eq_dec : EqDecision FulltextConfig.
Proof. solve_decision. Defined.

Inductive ColumnType :=
| CTBoolean | CTBigDecimal | CTBigInt | CTBytes | CTInt | CTString
| CTTSVector (config : FulltextConfig)
| CTEnum (e : SqlEnum)
| CTBytesId.

#[export] Instance ColumnType_eq_dec : EqDecision ColumnType.
Proof. solve_decision. Defined.

Definition ColumnType_of_id (id_type : IdType) : ColumnType :=
  match id_type with IdBytes => CTBytesId | IdString => CTString end.

Definition sql_type (t : ColumnType) : SqlType :=
  match t with
  | CTBoolean => TBoolean
  | CTBigDecimal => TNumeric
  | CTBigInt => TNumeric
  | CTBytes => TBytea
  | CTInt => TInteger
  | CTString => TText
  | CTTSVector _ => TTsVector
  | CTEnum e => TEnum (en_name e)
  | CTBytesId => TBytea
  end.

Definition id_type (t : ColumnType) : res Empty_set IdType :=
  match t with CTString => Ok IdString | CTBytesId => Ok IdBytes | _ => Panic end.

Record Column := mk_column {
  col_name : SqlName;
  col_field : string;
  col_field_type : GType;
  col_type : ColumnType;
  col_fulltext_fields : option (gset string);
  col_is_reference : bool;
}.

Definition is_nullable (c : Column) : bool :=
  match col_field_type c with NonNullType _ => false | _ => true end.

Fixpoint is_list_type (field_type : GType) : bool :=
  match field_type with
  | ListType _ => true
  | NonNullType inner => is_list_type inner
  | NamedType _ => false
  end.

Definition col_is_list (c : Column) : bool := is_list_type (col_field_type c).
Definition is_primary_key (c : Column) : bool := String.eqb (col_name c) PRIMARY_KEY_COLUMN.
Definition is_fulltext (c : Column) : bool := String.eqb (named_type (col_field_type c)) "fulltext".
Definition is_enum (c : Column) : bool := match col_type c with CTEnum _ => true | _ => false end.
Definition is_text (c : Column) : bool :=
  String.eqb (named_type (col_field_type c)) "String" && negb (col_is_list c).

Fixpoint type_to_string (t : GType) : string :=
  match t with
  | NamedType name => name
  | ListType t => "[" +:+ type_to_string t +:+ "]"
  | NonNullType t => type_to_string t +:+ "!"
  end.

Definition is_assignable_from (self source : Column) (object : string) : option string :=
  let attribute := "The attribute " +:+ object +:+ "." +:+ col_field self in
  let differs kind :=
    Some (attribute +:+ kind +:+ type_to_string (col_field_type self)
          +:+ ", but its type in the source is " +:+ type_to_string (col_field_type source)) in
  if negb (is_nullable self) && is_nullable source
  then Some (attribute +:+ " is non-nullable, but the corresponding attribute in the source is nullable")
  else
    match col_type self with
    | CTEnum self_enum_type =>
        match col_type source with
        | CTEnum source_enum_type => enum_is_assignable_from self_enum_type source_enum_type
        | _ => differs " is an enum "
        end
    | _ =>
        if negb (bool_decide (col_type self = col_type source))
           || negb (Bool.eqb (col_is_list self) (col_is_list source))
        then differs " has type " else None
    end.

(** ** Tables *)
Record Table := mk_table {
  tb_object : string;
  tb_name : SqlName;
  tb_qualified_name : SqlName;
  tb_columns : list Column;
  tb_is_account_like : bool;
  tb_position : nat;
}.

Definition is_tsvector (c : Column) : bool :=
  match col_type c with CTTSVector _ => true | _ => false end.

Definition table_column (t : Table) (name : SqlName) : option Column :=
  List.find (fun c => negb (is_tsvector c) && String.eqb (col_name c) name) (tb_columns t).

Definition column_for_field (t : Table) (field : string) : sres Column :=
  ok_or (List.find (fun c => String.eqb (col_field c) field) (tb_columns t)) (SEUnknownField field).

Definition primary_key (t : Table) : res Empty_set Column :=
  unwrap (List.find is_primary_key (tb_columns t)).

Definition not_in_source (object : string) (dcol : Column) : string :=
  "The attribute " +:+ object +:+ "." +:+ col_field dcol
  +:+ " is non-nullable, but there is no such attribute in the source".

Definition table_can_copy_from (self source : Table) : list string :=
  omap (fun dcol =>
          match table_column source (col_name dcol) with
          | Some scol => is_assignable_from dcol scol (tb_object self)
          | None =>
              if negb (is_nullable dcol) then Some (not_in_source (tb_object self) dcol) else None
          end) (tb_columns self).

(** The table of the [create table] statement: the columns of the entity and
    the block range, with the exclusion constraint; the synthetic primary key
    [vid] is left out. *)
Definition column_ddl (c : Column) : ColumnDef :=
  mk_column_def (col_name c)
    (if col_is_list c then TArray (sql_type (col_type c)) else sql_type (col_type c))
    (is_primary_key c || negb (is_nullable c)).

Definition table_ddl (t : Table) : TableDef :=
  mk_table_def ((column_ddl <$> tb_columns t) ++ [mk_column_def BLOCK_RANGE_COLUMN TInt4Range true]) true.

(** ** Building the layout of a schema *)
Section layout.
Context `{Inflector} `{HashOrder}.
(** The environment variable [GRAPH_ACCOUNT_TABLES]. *)
Context (ACCOUNT_TABLES : gset string).

Definition from_field_type (field_type : GType) (catalog : Catalog) (enums : EnumMap)
    (id_types : IdTypeMap) (is_existing_text_column : bool) : sres ColumnType :=
  let name := named_type field_type in
  match id_types !! name with
  | Some id_type => Ok (ColumnType_of_id id_type)
  | None =>
      match enums !! name with
      | Some values =>
          let name := qualified_name (cat_schema catalog) (to_snake_case name) in
          if is_existing_text_column then Ok CTString else Ok (CTEnum (mk_sql_enum name values))
      | None =>
          match ValueType_from_str name with
          | Ok VT_Boolean => Ok CTBoolean
          | Ok VT_BigDecimal => Ok CTBigDecimal
          | Ok VT_BigInt => Ok CTBigInt
          | Ok VT_Bytes => Ok CTBytes
          | Ok VT_Int => Ok CTInt
          | Ok VT_String => Ok CTString
          | Ok VT_List => Err (SEUnknown "can not convert ValueType::List to ColumnType")
          | Err e => Err (SEUnknown e)
          | Panic => Panic
          end
      end
  end.

Definition Column_new (table_name : SqlName) (field : Field) (catalog : Catalog) (enums : EnumMap)
    (id_types : IdTypeMap) : sres Column :=
  let? _ := check_valid_identifier (fd_name field) "attribute" in
  let sql_name := to_snake_case (fd_name field) in
  let is_reference :=
    negb (String.eqb sql_name PRIMARY_KEY_COLUMN) && is_object_type (fd_field_type field) enums in
  let? column_type :=
    if String.eqb sql_name PRIMARY_KEY_COLUMN
    then res_map ColumnType_of_id (IdType_of_type (fd_field_type field))
    else from_field_type (fd_field_type field) catalog enums id_types
           (is_existing_text_column catalog table_name sql_name) in
  Ok (mk_column sql_name (fd_name field) (fd_field_type field) column_type None is_reference).

Definition Column_new_fulltext (def : FulltextDefinition) : sres Column :=
  let? _ := check_valid_identifier (ft_name def) "attribute" in
  Ok (mk_column (to_snake_case (ft_name def)) (ft_name def) (NamedType "fulltext")
        (CTTSVector (ft_config def)) (Some (ft_included_fields def)) false).

Definition Table_new (defn : ObjectType) (catalog : Catalog) (fulltexts : list FulltextDefinition)
    (enums : EnumMap) (id_types : IdTypeMap) (position : nat) : sres Table :=
  let? _ := check_valid_identifier (ot_name defn) "object" in
  let table_name := to_snake_case (ot_name defn) in
  let? columns :=
    map_res (fun field => Column_new table_name field catalog enums id_types)
      (List.filter (fun field => negb (derived_column field)) (ot_fields defn)) in
  let? fulltext_columns := map_res Column_new_fulltext fulltexts in
  Ok (mk_table (ot_name defn) table_name (qualified_name (cat_schema catalog) table_name)
        (columns ++ fulltext_columns)
        (bool_decide ((cat_schema catalog +:+ "." +:+ table_name) ∈ ACCOUNT_TABLES)) position).

Record Layout := mk_layout {
  ly_tables : gmap string Table;
  ly_subgraph : SubgraphDeploymentId;
  ly_catalog : Catalog;
  ly_enums : EnumMap;
  ly_count_query : string;
}.

(** The entries of a [BTreeMap] with string keys in order. *)
Definition btree_iter {V} (m : gmap string V) : list (string * V) :=
  merge_sort (fun a b => String.le a.1 b.1) (map_to_list m).

Definition layout_enums (document : Document) : sres EnumMap :=
  res_map collect_map
    (map_res (fun enum_type =>
                let? _ := check_valid_identifier (et_name enum_type) "enum" in
                Ok (et_name enum_type, list_to_set (et_values enum_type) : gset string))
       (get_enum_definitions document)).

Definition layout_object_types (document : Document) : list ObjectType :=
  filter (fun t => ot_name t <> SCHEMA_TYPE_NAME) (get_object_type_definitions document).

(** The implementations of an interface must agree on the type of their ids. *)
Definition id_type_for_interface (it : string * list ObjectType) : sres (string * IdType) :=
  let '(interface, types) := it in
  let? types := map_res IdType_of_object types in
  let types : gset IdType := list_to_set types in
  if (1 <? size types)%nat
  then Err (SEUnknown ("The implementations of interface `" +:+ interface
                       +:+ "` use different types for the `id` field"))
  else Ok (interface, default IdString (head (elements types))).

Definition layout_id_types (schema : Schema) : sres IdTypeMap :=
  let? objects :=
    map_res (fun t => res_map (pair (ot_name t)) (IdType_of_object t))
      (layout_object_types (sc_document schema)) in
  let? interfaces := map_res id_type_for_interface (btree_iter (sc_types_for_interface schema)) in
  Ok (collect_map (objects ++ interfaces)).

Definition make_poi_table (catalog : Catalog) (position : nat) : Table :=
  mk_table POI_OBJECT POI_TABLE (qualified_name (cat_schema catalog) POI_TABLE)
    [mk_column (to_snake_case "digest") "digest" (NonNullType (NamedType "Bytes")) CTBytes None false;
     mk_column (to_snake_case PRIMARY_KEY_COLUMN) PRIMARY_KEY_COLUMN
       (NonNullType (NamedType "String")) CTString None false]
    false position.

Definition count_query (catalog : Catalog) (tables : list Table) : string :=
  let part table :=
    "select count(*) from " +:+ quoted (cat_schema catalog) +:+ "." +:+ quoted (tb_name table)
    +:+ " where upper_inf(block_range)" in
  "select sum(e.count) from ("
  +:+ String.concat (String (ascii_of_nat 10) "union all" +:+ String (ascii_of_nat 10) "")
        (part <$> tables) +:+ ") e".

(** The tables of a layout, in the order of their positions. *)
Definition layout_tables (schema : Schema) (catalog : Catalog) (create_proof_of_indexing : bool)
    (enums : EnumMap) (id_types : IdTypeMap) : sres (list Table) :=
  let? tables :=
    map_res (fun iobj : nat * ObjectType =>
               let '(i, obj_type) := iobj in
               let? fulltexts :=
                 lift_panic (entity_fulltext_definitions (ot_name obj_type) (sc_document schema)) in
               Table_new obj_type catalog fulltexts enums id_types i)
      (imap pair (layout_object_types (sc_document schema))) in
  Ok (if create_proof_of_indexing then tables ++ [make_poi_table catalog (length tables)] else tables).

Definition Layout_new (schema : Schema) (catalog : Catalog) (create_proof_of_indexing : bool)
  : sres Layout :=
  let? enums := layout_enums (sc_document schema) in
  let? id_types := layout_id_types schema in
  let? tables := layout_tables schema catalog create_proof_of_indexing enums id_types in
  Ok (mk_layout (collect_map ((fun t => (tb_object t, t)) <$> tables)) (sc_id schema) catalog enums
        (count_query catalog tables)).

(** *** Using it *)
Definition layout_table (ly : Layout) (name : SqlName) : option Table :=
  snd <$> List.find (fun t : string * Table => String.eqb (tb_name t.2) name) (hash_iter (ly_tables ly)).

Definition table_for_entity (ly : Layout) (entity : string) : sres Table :=
  ok_or (ly_tables ly !! entity) (SEUnknownTable entity).

(** The tables of [self] that are in [base] too, and their counterparts. *)
Definition common_tables (self base : Layout) : list (Table * Table) :=
  omap (fun dst : string * Table => pair dst.2 <$> layout_table base (tb_name dst.2))
    (hash_iter (ly_tables self)).

Definition can_copy_from (self base : Layout) : list string :=
  common_tables self base ≫= fun ds => table_can_copy_from ds.1 ds.2.
End layout.
