(* ===== verification/RelationalQueries.v ===== *)
(** * Queries of the relational store

    Models [store/postgres/src/relational_queries.rs] apart from filters,
    which are in [FilterQueries]: how values are bound into statements and read back from rows, and the
    statements that find, insert, update, delete, revert and copy versions of
    entities; also [block_range.rs].

    [ColumnValues] and [EntityRows] show that what is written is read back,
    [Versions] and [VersionedTables] what the statements do. *)

From stdpp Require Import prelude list strings gmap.
From Stdlib Require Import ZArith Lia Ascii.
From S2P Require Import Prelude.
From S2P Require Import GraphqlTypes.
From S2P Require Import StoreValue.
From S2P Require Import EntityCache.
From S2P Require Import StoreQuery.
From S2P Require Import GraphqlSchema.
From S2P Require Import QueryBuild.
From S2P Require Import Schema.
From S2P Require Import Sql.
From S2P Require Import Layout.

#[local] Open Scope string_scope.
#[local] Open Scope list_scope.

(** ** Reading columns: the trait [FromColumnValue] *)
Class FromColumnValue (V : Type) := {
  cv_is_null : V -> bool;
  cv_null : V;
  cv_from_string : string -> V;
  cv_from_bool : bool -> V;
  cv_from_i32 : Z -> V;
  cv_from_big_decimal : BigDecimal -> V;
  cv_from_big_int : string -> sres V;
  cv_from_bytes : string -> sres V;
  cv_from_vec : list V -> V;
}.

(** [trim_start_matches] of backslash and x. *)
Fixpoint trim_start_hex (s : string) : string :=
  match s with
  | String "\"%char (String "x"%char r) => trim_start_hex r
  | _ => s
  end.

Definition bytes_as_str (id : string) : string := trim_start_hex id.

Section queries.
Context {ST : ScalarText} {PT : PgText} `{HashOrder}.
(** The normalising constructor of [BigDecimal]. *)
Context (normalize : BigDecimal -> BigDecimal).

Definition from_text {A} (kind text : string) (m : res string A) : sres A :=
  map_err (fun e => SEUnknown ("failed to convert " +:+ text +:+ " to " +:+ kind +:+ ": " +:+ e)) m.

#[export] Instance query_value_column : FromColumnValue qvalue := {
  cv_is_null v := match v with QNull => true | _ => false end;
  cv_null := QNull;
  cv_from_string := QString;
  cv_from_bool := QBoolean;
  cv_from_i32 i := QInt (number_from_i32 i);
  cv_from_big_decimal d := QString (bigdecimal_to_string d);
  cv_from_big_int i := Ok (QString i);
  cv_from_bytes b := Ok (QString ("0x" +:+ b));
  cv_from_vec := QList;
}.

#[export] Instance value_column : FromColumnValue Value := {
  cv_is_null v := match v with VNull => true | _ => false end;
  cv_null := VNull;
  cv_from_string := VString;
  cv_from_bool := VBool;
  cv_from_i32 := VInt;
  cv_from_big_decimal := VBigDecimal;
  cv_from_big_int i := res_map VBigInt (from_text "BigInt" i (bigint_parse i));
  cv_from_bytes b := res_map VBytes (from_text "Bytes" b (Bytes_from_str b));
  cv_from_vec := VList;
}.

Section read.
Context {V : Type} `{FromColumnValue V}.

Definition from_json_number (column_type : ColumnType) (number : string) : sres V :=
  match column_type with
  | CTInt =>
      match json_as_i64 number with
      | Some i =>
          if bool_decide (is_i32 i) then Ok (cv_from_i32 i)
          else Err (SEUnknown ("failed to convert " +:+ number +:+ " to Int"))
      | None => Err (SEUnknown ("failed to convert " +:+ number +:+ " to Int"))
      end
  | CTBigDecimal =>
      res_map cv_from_big_decimal (from_text "BigDecimal" number (BigDecimal_from_str normalize number))
  | CTBigInt => cv_from_big_int number
  | _ => Err (SEUnknown ("can not convert number " +:+ number))
  end.

Fixpoint from_column_value (column_type : ColumnType) (json : Json) : sres V :=
  match json with
  | JNull => Ok cv_null
  | JBool b => Ok (cv_from_bool b)
  | JNumber number => from_json_number column_type number
  | JString s =>
      match column_type with
      | CTString | CTEnum _ => Ok (cv_from_string s)
      | CTBytes => cv_from_bytes (trim_start_hex s)
      | CTBytesId => Ok (cv_from_string (bytes_as_str s))
      | _ => Err (SEUnknown ("can not convert string " +:+ s))
      end
  | JArray values => res_map cv_from_vec (map_res (from_column_value column_type) values)
  | JObject _ => Panic
  end.

Record EntityData := mk_entity_data { ed_entity : string; ed_data : Json }.

(** Reading one key of the row; keys that are not columns are skipped, and so
    are null values. *)
Definition deserialize_key (table : Table) (out : gmap string V) (kv : string * Json)
  : sres (gmap string V) :=
  if String.eqb kv.1 "g$parent_id" then
    let? value := from_column_value CTString kv.2 in Ok (<["g$parent_id" := value]> out)
  else
    match table_column table kv.1 with
    | Some column =>
        let? value := from_column_value (col_type column) kv.2 in
        Ok (if cv_is_null value then out else <[col_field column := value]> out)
    | None => Ok out
    end.

Definition deserialize_with_layout (ly : Layout) (data : EntityData) : sres (gmap string V) :=
  let? table := table_for_entity ly (ed_entity data) in
  match ed_data data with
  | JObject map =>
      fold_res (deserialize_key table) {["__typename" := cv_from_string (ed_entity data)]} map
  | _ => Panic
  end.
End read.

(** ** Binding values: [QueryValue], [SqlValue] *)
Definition bytes_of_str (s : string) : sres (list Byte.byte) := map_err SEUnknown (Bytes_from_str s).

(** The elements of an array, by the type they are sent as. *)
Definition sql_bool (v : Value) : sres Datum := match v with VBool b => Ok (DBool b) | _ => Panic end.
Definition sql_integer (v : Value) : sres Datum :=
  match v with VInt i => Ok (DInteger i) | _ => Panic end.
Definition sql_text (v : Value) : sres Datum :=
  match v with
  | VString s => Ok (DText s)
  | VBytes h => Ok (DText (Bytes_to_string h))
  | _ => Panic
  end.
Definition sql_binary (v : Value) : sres Datum :=
  match v with
  | VBytes h => Ok (DBytea h)
  | VString s => res_map DBytea (bytes_of_str s)
  | _ => Panic
  end.

Definition bind_array (f : Value -> sres Datum) (values : list Value) : sres SqlExpr :=
  res_map (fun l => EBind (DArray l)) (map_res f values).

Definition to_tsvector_expr (config : FulltextConfig) (value : Value) : sres SqlExpr :=
  let? d := sql_text value in
  Ok (EToTsVector (EBind (DText (language_as_str (fc_language config)))) (EBind d)).

Definition bind_value (v : Value) (column_type : ColumnType) : sres SqlExpr :=
  match v with
  | VString s =>
      match column_type with
      | CTString => Ok (EBind (DText s))
      | CTEnum enum_type => Ok (ECast (EBind (DText s)) (TEnum (en_name enum_type)))
      | CTTSVector _ => Ok (EToTsQuery (EBind (DText s)))
      | CTBytes | CTBytesId => res_map (fun b => EBind (DBytea b)) (bytes_of_str s)
      | _ => Panic
      end
  | VInt i => Ok (EBind (DInteger i))
  | VBigDecimal d => Ok (ECast (EBind (DText (bigdecimal_to_string d))) TNumeric)
  | VBool b => Ok (EBind (DBool b))
  | VList values =>
      match column_type with
      | CTBigDecimal | CTBigInt =>
          Ok (ECast (EBind (DArray ((fun v => DText (Value_to_string v)) <$> values))) (TArray TNumeric))
      | CTBoolean => bind_array sql_bool values
      | CTBytes => bind_array sql_binary values
      | CTInt => bind_array sql_integer values
      | CTString => bind_array sql_text values
      | CTEnum enum_type =>
          res_map (fun e => ECast e (TArray (TEnum (en_name enum_type)))) (bind_array sql_text values)
      | CTTSVector config =>
          let? vectors := map_res (to_tsvector_expr config) values in
          Ok (match vectors with
              | [] => EBind (DTsVector tsvector_empty)
              | v :: vectors => foldl ETsConcat v vectors
              end)
      | CTBytesId => bind_array sql_binary values
      end
  | VNull => Ok (EBind DNull)
  | VBytes b => Ok (EBind (DBytea b))
  | VBigInt i => Ok (ECast (EBind (DText (bigint_to_string i))) TNumeric)
  end.

(** *** Ids ([ForeignKeyClauses]) *)
Definition bind_id (c : Column) (id : string) : sres SqlExpr :=
  let? ty := lift_panic (id_type (col_type c)) in
  let? d := match ty with
            | IdString => Ok (DText id)
            | IdBytes => res_map DBytea (bytes_of_str id)
            end in
  Ok (ECast (EBind d) (sql_type (col_type c))).

Definition bind_ids (c : Column) (ids : list string) : sres SqlExpr :=
  let? ty := lift_panic (id_type (col_type c)) in
  let? d := match ty with
            | IdString => Ok (DArray (DText <$> ids))
            | IdBytes => res_map (fun l => DArray (DBytea <$> l)) (map_res bytes_of_str ids)
            end in
  Ok (ECast (EBind d) (TArray (sql_type (col_type c)))).

Definition id_eq (c : Column) (id : string) : sres SqlExpr :=
  let? e := bind_id c id in Ok (ECmp CmpEq (EColumn (col_name c)) e).

Definition id_is_in (c : Column) (ids : list string) : sres SqlExpr :=
  let? e := bind_ids c ids in Ok (EAny (EColumn "id") e).

Definition table_id_eq (t : Table) (id : string) : sres SqlExpr :=
  let? pk := lift_panic (primary_key t) in id_eq pk id.

(** ** Block ranges *)
Definition BLOCK_UNVERSIONED : Z := -1.

Definition block_range : SqlExpr := EColumn BLOCK_RANGE_COLUMN.
Definition int_literal (z : Z) : SqlExpr := EBind (DInteger z).
Definition upper_or_max : SqlExpr := ECoalesce (EUpper block_range) (int_literal BLOCK_NUMBER_MAX).
Definition BLOCK_RANGE_CURRENT : SqlExpr := EContains block_range (int_literal BLOCK_NUMBER_MAX).

(** [BlockRangeContainsClause] *)
Definition block_range_contains (t : Table) (block : Z) : SqlExpr :=
  let contains := EContains block_range (int_literal block) in
  if tb_is_account_like t && (block <? BLOCK_NUMBER_MAX)%Z
  then EAnd (EAnd contains (ECmp CmpGt upper_or_max (int_literal block)))
         (ECmp CmpLe (ELower block_range) (int_literal block))
  else contains.

(** ** Statements *)
Definition select_entity (t : Table) (where_ : SqlExpr) : SelectBlock :=
  mk_select_block [EBind (DText (tb_object t)); ERowJson] (tb_qualified_name t) where_.

Definition find_query (t : Table) (id : string) (block : Z) : sres Statement :=
  let? e := table_id_eq t id in
  Ok (SSelect [select_entity t (EAnd e (block_range_contains t block))]).

(** [self.ids_for_type[table.object]]: the map has the type, for the tables
    are those of its keys. *)
Definition find_many_query (ids_for_type : gmap string (list string)) (tables : list Table) (block : Z)
  : sres Statement :=
  let? blocks := map_res (fun t =>
    let? pk := lift_panic (primary_key t) in
    let? ids := unwrap (ids_for_type !! tb_object t) in
    let? e := id_is_in pk ids in
    Ok (select_entity t (EAnd e (block_range_contains t block)))) tables in
  Ok (SSelect blocks).

(** [InsertQuery] *)
Record InsertQuery := mk_insert_query {
  iq_table : Table;
  iq_key : EntityKey;
  iq_entity : Entity;
  iq_block : Z;
}.

Definition set_elements (s : gset string) : list string := (hash_iter (gset_to_gmap () s)).*1.

(** The values a fulltext column is made of. *)
Definition add_fulltext (column : Column) (entity : Entity) : Entity :=
  match col_fulltext_fields column with
  | Some fields =>
      match omap (fun field => entity !! field) (set_elements fields) with
      | [] => entity
      | values => <[col_field column := VList values]> entity
      end
  | None => entity
  end.

Definition insert_column (key : EntityKey) (entity : Entity) (column : Column) : sres Entity :=
  let entity := add_fulltext column entity in
  if negb (is_nullable column) && bool_decide (entity !! col_field column = None)
  then Err (SEQueryExecutionError
         ("can not insert entity " +:+ entity_type key +:+ "[" +:+ key_entity_id key
          +:+ "] since value for non-nullable attribute " +:+ col_field column +:+ " is missing. "
          +:+ "To fix this, mark the attribute as nullable in the GraphQL schema or change the "
          +:+ "mapping code to always set this attribute."))
  else Ok entity.

Definition InsertQuery_new (t : Table) (key : EntityKey) (entity : Entity) (block : Z)
  : sres InsertQuery :=
  let? entity := fold_res (insert_column key) entity (tb_columns t) in
  Ok (mk_insert_query t key entity block).

Definition insert_statement (q : InsertQuery) : sres Statement :=
  let present := omap (fun c => pair c <$> iq_entity q !! col_field c) (tb_columns (iq_table q)) in
  let? values := map_res (fun cv : Column * Value => bind_value cv.2 (col_type cv.1)) present in
  Ok (SInsert (tb_qualified_name (iq_table q))
        (((fun cv : Column * Value => col_name cv.1) <$> present) ++ [BLOCK_RANGE_COLUMN])
        (values ++ [EBind (DRange (RangeBounds (Some (iq_block q)) None))])).

(** [UpdateQuery] *)
Definition UpdateQuery_new (key : EntityKey) (entity : Entity) : sres unit :=
  match entity !! "id" with
  | Some (VString id) =>
      if negb (String.eqb id (key_entity_id key))
      then Err (SEQueryExecutionError
             ("changing the id of an entity is not allowed, and the attempt to change the id of entity "
              +:+ entity_type key +:+ "[" +:+ key_entity_id key +:+ "] to " +:+ id +:+ " has failed"))
      else Ok ()
  | _ => Ok ()
  end.

Definition updateable (c : Column) : bool := negb (is_primary_key c).

Definition update_statement (t : Table) (key : EntityKey) (entity : Entity) : sres Statement :=
  if negb (existsb updateable (tb_columns t))
  then Ok (SUpdate (tb_qualified_name t) [(PRIMARY_KEY_COLUMN, EBind DNull)] (EBind (DBool false)) [])
  else
    let present := omap (fun c => pair c <$> entity !! col_field c)
                     (List.filter updateable (tb_columns t)) in
    let? sets := map_res (fun cv : Column * Value =>
                   let? e := bind_value cv.2 (col_type cv.1) in Ok (col_name cv.1, e)) present in
    let? e := table_id_eq t (key_entity_id key) in
    Ok (SUpdate (tb_qualified_name t) sets e []).

Definition delete_statement (t : Table) (key : EntityKey) : sres Statement :=
  let? e := table_id_eq t (key_entity_id key) in
  Ok (SDelete (tb_qualified_name t) e []).

(** [ConflictingEntityQuery]: the id is always bound as text. *)
Definition conflicting_entity_query (ly : Layout) (entities : list string) (entity_id : string)
  : sres Statement :=
  let? tables := map_res (table_for_entity ly) entities in
  Ok (SSelect ((fun t => mk_select_block [EBind (DText (tb_object t))] (tb_qualified_name t)
                           (ECmp CmpEq (EColumn "id") (EBind (DText entity_id)))) <$> tables)).

Definition clamp_range_query (t : Table) (key : EntityKey) (block : Z) : sres Statement :=
  let? e := table_id_eq t (key_entity_id key) in
  Ok (SUpdate (tb_qualified_name t)
        [(BLOCK_RANGE_COLUMN, EInt4Range (ELower block_range) (int_literal block))]
        (EAnd e BLOCK_RANGE_CURRENT) []).

Definition id_as_text : SqlExpr := ECast (EColumn PRIMARY_KEY_COLUMN) TText.

Definition revert_remove_query (t : Table) (block : Z) : Statement :=
  SDelete (tb_qualified_name t) (ECmp CmpGe (ELower block_range) (int_literal block)) [id_as_text].

Definition revert_clamp_query (t : Table) (block : Z) : Statement :=
  SUpdate (tb_qualified_name t)
    [(BLOCK_RANGE_COLUMN, EInt4Range (ELower block_range) (EBind DNull))]
    (EAnd (EAnd (EAnd (EAnd (EContains block_range (int_literal block))
                         (ENot BLOCK_RANGE_CURRENT))
                   (ECmp CmpLe (ELower block_range) (int_literal block)))
             (ECmp CmpGt upper_or_max (int_literal block)))
       (ECmp CmpLt upper_or_max (int_literal BLOCK_NUMBER_MAX)))
    [id_as_text].

(** The statement spells the name without quotes, which is the same table. *)
Definition DDS_TABLE : SqlName :=
  qualified_name "subgraphs" "dynamic_ethereum_contract_data_source".

Definition delete_dynamic_data_sources_query (subgraph : string) (block : Z) : Statement :=
  SDelete DDS_TABLE
    (EAnd (ECmp CmpGe (ELower block_range) (int_literal block))
       (ECmp CmpEq (EColumn "deployment") (EBind (DText subgraph))))
    [EColumn PRIMARY_KEY_COLUMN].

Definition delete_by_prefix_query (t : Table) (prefixes : list string) (prefix_len : Z) : Statement :=
  SDelete (tb_qualified_name t)
    (EAny (ELeft (EColumn PRIMARY_KEY_COLUMN) (int_literal prefix_len))
       (EBind (DArray (DText <$> prefixes))))
    [id_as_text].

(** The ids a reverting statement returns ([RevertEntityData]). *)
Definition revert_ids (t : Table) (out : Outcome) : sres (list string) :=
  let? ids := map_res (fun row => match row with [DText id] => Ok id | _ => Panic end) (oc_rows out) in
  let? pk := lift_panic (primary_key t) in
  let? ty := lift_panic (id_type (col_type pk)) in
  Ok (match ty with IdString => ids | IdBytes => bytes_as_str <$> ids end).

(** [CopyEntityDataQuery] *)
Definition copy_column (dst src : Table) (dcol : Column) : sres Column :=
  match table_column src (col_name dcol) with
  | Some scol =>
      match is_assignable_from dcol scol (tb_object src) with
      | Some msg => Err (SEUnknown msg)
      | None => Ok dcol
      end
  | None =>
      if negb (is_nullable dcol) then Err (SEUnknown (not_in_source (tb_object dst) dcol)) else Ok dcol
  end.

Definition copy_output (c : Column) : SqlExpr :=
  match col_type c with
  | CTEnum enum_type => ECast (ECast (EColumn (col_name c)) TText) (TEnum (en_name enum_type))
  | _ => EColumn (col_name c)
  end.

Definition copy_entity_data_query (dst src : Table) : sres Statement :=
  let? columns := map_res (copy_column dst src) (tb_columns dst) in
  Ok (SInsertSelect (tb_qualified_name dst) ((col_name <$> columns) ++ [BLOCK_RANGE_COLUMN])
        ((copy_output <$> columns) ++ [block_range]) (tb_qualified_name src)).
End queries.
