(* ===== verification/FilterQueries.v ===== *)
(** * Filters and queries of the relational store

    Models the part of [store/postgres/src/relational_queries.rs] that finds
    entities by filters: [PrefixComparison], [QueryFilter], the windows that
    find children ([FilterWindow]), sort keys and [FilterQuery].  The statements
    are those of [Selects]; [Layout::query], which runs them, is in
    [RelationalStore].

    Numbering rows in a common table expression and joining them with their
    tables again by the number gives the rows themselves.  Query ids and the
    timing of queries are left out. *)

From stdpp Require Import prelude list strings gmap.
From Stdlib Require Import ZArith Lia Ascii.
From S2P Require Import Prelude.
From S2P Require Import GraphqlTypes.
From S2P Require Import StoreValue.
From S2P Require Import EntityCache.
From S2P Require Import StoreQuery.
From S2P Require Import GraphqlSchema.
From S2P Require Import QueryBuild.
From S2P Require Import Schema.
From S2P Require Import Sql.
From S2P Require Import Selects.
From S2P Require Import Layout.
From S2P Require Import RelationalQueries.

#[local] Open Scope string_scope.
#[local] Open Scope list_scope.

Definition STRING_PREFIX_SIZE : Z := 256.

Section filters.
Context {ST : ScalarText} {PT : PgText} `{HashOrder}.

(** ** Comparisons *)
Inductive Comparison := Less | LessOrEqual | Equal | NotEqual | GreaterOrEqual | Greater | Match.

#[export] Instance Comparison_eq_dec : EqDecision Comparison.
Proof. solve_decision. Defined.

Definition Comparison_as_str (op : Comparison) : string :=
  match op with
  | Less => " < " | LessOrEqual => " <= " | Equal => " = " | NotEqual => " != "
  | GreaterOrEqual => " >= " | Greater => " > " | Match => " @@ "
  end.

(** [a op b] *)
Definition compare_expr (op : Comparison) (a b : SqlExpr) : SqlExpr :=
  match op with
  | Less => ECmp CmpLt a b
  | LessOrEqual => ECmp CmpLe a b
  | Equal => ECmp CmpEq a b
  | NotEqual => ECmp CmpNe a b
  | GreaterOrEqual => ECmp CmpGe a b
  | Greater => ECmp CmpGt a b
  | Match => ETsMatch a b
  end.

(** *** [PrefixComparison] *)
Definition prefix_of (e : SqlExpr) : SqlExpr := ELeft e (int_literal STRING_PREFIX_SIZE).
Definition column_prefix (c : Column) : SqlExpr := prefix_of (EColumn (col_name c)).

Definition prefix_cmp (c : Column) (text : Value) (op : Comparison) : sres SqlExpr :=
  let? v := bind_value text (col_type c) in
  Ok (compare_expr op (column_prefix c) (prefix_of v)).

Definition full_cmp (c : Column) (text : Value) (op : Comparison) : sres SqlExpr :=
  let? v := bind_value text (col_type c) in
  Ok (compare_expr op (EColumn (col_name c)) v).

Definition prefix_op (op : Comparison) : Comparison :=
  match op with LessOrEqual => Less | GreaterOrEqual => Greater | op => op end.

Definition prefix_comparison (op : Comparison) (c : Column) (text : Value) : sres SqlExpr :=
  match text with
  | VString s =>
      let large := (STRING_PREFIX_SIZE - 1 <? Z.of_nat (String.length s))%Z in
      match op with
      | Equal =>
          if large then
            let? p := prefix_cmp c text op in
            let? f := full_cmp c text op in
            Ok (EAnd p f)
          else prefix_cmp c text op
      | Match => full_cmp c text op
      | NotEqual => if large then full_cmp c text op else prefix_cmp c text op
      | LessOrEqual | Less | GreaterOrEqual | Greater =>
          if large then
            let? p := prefix_cmp c text (prefix_op op) in
            let? e := prefix_cmp c text Equal in
            let? f := full_cmp c text op in
            Ok (EOr p (EAnd e f))
          else prefix_cmp c text op
      end
  | _ => Panic
  end.

(** ** [QueryFilter] *)
Record QueryFilter := mk_query_filter { qf_filter : EntityFilter; qf_table : Table }.

Fixpoint valid_attributes (filter : EntityFilter) (table : Table) : sres unit :=
  match filter with
  | FAnd filters | FOr filters =>
      (fix go filters := match filters with
                         | [] => Ok ()
                         | f :: filters => let? _ := valid_attributes f table in go filters
                         end) filters
  | FContains attr _ | FNotContains attr _ | FEqual attr _ | FNot attr _ | FGreaterThan attr _
  | FLessThan attr _ | FGreaterOrEqual attr _ | FLessOrEqual attr _ | FIn attr _ | FNotIn attr _
  | FStartsWith attr _ | FNotStartsWith attr _ | FEndsWith attr _ | FNotEndsWith attr _ =>
      let? _ := column_for_field table attr in Ok ()
  end.

Definition QueryFilter_new (filter : EntityFilter) (table : Table) : sres QueryFilter :=
  let? _ := valid_attributes filter table in
  Ok (mk_query_filter filter table).

Definition filter_column (table : Table) (attr : string) : sres Column :=
  match column_for_field table attr with Ok c => Ok c | _ => Panic end.

Definition unsupported_filter (filter : string) (value : Value) : StoreError :=
  SEUnknown ("unsupported filter `" +:+ filter +:+ "` for value `" +:+ Value_to_string value +:+ "`").

Definition negate_if (negated : bool) (e : SqlExpr) : SqlExpr := if negated then ENot e else e.

Definition starts_with_percent (s : string) : bool :=
  match s with String c _ => Ascii.eqb c "%" | EmptyString => false end.
Fixpoint ends_with_percent (s : string) : bool :=
  match s with
  | EmptyString => false
  | String c EmptyString => Ascii.eqb c "%"
  | String _ s => ends_with_percent s
  end.

Definition contains_pattern (s : string) : string :=
  if starts_with_percent s || ends_with_percent s then s else "%" +:+ s +:+ "%".

Definition contains_filter (table : Table) (attr : string) (value : Value) (negated : bool) : sres SqlExpr :=
  let? column := filter_column table attr in
  let col := EColumn (col_name column) in
  match value with
  | VString s => Ok (negate_if negated (ELike col (EBind (DText (contains_pattern s)))))
  | VBytes b =>
      let pos := EPosition (EBind (DBytea b)) col in
      Ok (if negated then ECmp CmpEq pos (int_literal 0) else ECmp CmpGt pos (int_literal 0))
  | VList _ =>
      let? v := bind_value value (col_type column) in
      Ok (EArrayContains col v)
  | VNull | VBigDecimal _ | VInt _ | VBool _ | VBigInt _ =>
      Err (unsupported_filter (if negated then "not_contains" else "contains") value)
  end.

Definition equals_filter (table : Table) (attr : string) (value : Value) (op : Comparison) : sres SqlExpr :=
  let? column := filter_column table attr in
  let col := EColumn (col_name column) in
  if is_text column && (match value with VString _ => true | _ => false end)
  then prefix_comparison op column value
  else if is_fulltext column then
    let? v := bind_value value (col_type column) in Ok (ETsMatch col v)
  else
    match value with
    | VNull =>
        match op with
        | Equal => Ok (EIsNull col)
        | NotEqual => Ok (ENot (EIsNull col))
        | _ => Panic
        end
    | _ => let? v := bind_value value (col_type column) in Ok (compare_expr op col v)
    end.

Definition compare_filter (table : Table) (attr : string) (value : Value) (op : Comparison) : sres SqlExpr :=
  let? column := filter_column table attr in
  if is_text column && (match value with VString _ => true | _ => false end)
  then prefix_comparison op column value
  else
    match value with
    | VBigInt _ | VBigDecimal _ | VInt _ | VString _ =>
        let? v := bind_value value (col_type column) in
        Ok (compare_expr op (EColumn (col_name column)) v)
    | VBool _ | VBytes _ | VList _ | VNull => Err (unsupported_filter (Comparison_as_str op) value)
    end.

Definition is_null_value (v : Value) : bool := match v with VNull => true | _ => false end.

Definition is_short_string (v : Value) : bool :=
  match v with
  | VString s => (Z.of_nat (String.length s) <=? STRING_PREFIX_SIZE - 1)%Z
  | _ => false
  end.

Definition in_array (table : Table) (attr : string) (values : list Value) (negated : bool) : sres SqlExpr :=
  let? column := filter_column table attr in
  let col := EColumn (col_name column) in
  match values with
  | [] => Ok (EBind (DBool false))
  | _ =>
      let have_nulls := existsb is_null_value values in
      let have_non_nulls := existsb (fun v => negb (is_null_value v)) values in
      let nulls := negate_if negated (EIsNull col) in
      let? non_nulls :=
        let? vs := map_res (fun v => bind_value v (col_type column))
                     (List.filter (fun v => negb (is_null_value v)) values) in
        Ok (negate_if negated
              (EIn (if is_text column && forallb is_short_string values then column_prefix column else col) vs)) in
      Ok (if have_nulls && have_non_nulls then EOr nulls non_nulls
          else if have_nulls then nulls else non_nulls)
  end.

Definition starts_or_ends_with (table : Table) (attr : string) (value : Value) (negated starts_with : bool)
  : sres SqlExpr :=
  let? column := filter_column table attr in
  match value with
  | VString s =>
      let s := if starts_with then s +:+ "%" else "%" +:+ s in
      Ok (negate_if negated (ELike (EColumn (col_name column)) (EBind (DText s))))
  | _ => Err (unsupported_filter (if negated then " not like " else " like ") value)
  end.

(** [a and b and ...] *)
Definition binary_op (op : SqlExpr -> SqlExpr -> SqlExpr) (on_empty : bool) (l : list SqlExpr) : SqlExpr :=
  match l with [] => EBind (DBool on_empty) | e :: l => foldl op e l end.

Fixpoint filter_expr (table : Table) (filter : EntityFilter) : sres SqlExpr :=
  let go := fix go filters := match filters with
                              | [] => Ok []
                              | f :: filters => let? e := filter_expr table f in
                                                let? es := go filters in Ok (e :: es)
                              end in
  match filter with
  | FAnd filters => res_map (binary_op EAnd true) (go filters)
  | FOr filters => res_map (binary_op EOr false) (go filters)
  | FContains attr value => contains_filter table attr value false
  | FNotContains attr value => contains_filter table attr value true
  | FEqual attr value => equals_filter table attr value Equal
  | FNot attr value => equals_filter table attr value NotEqual
  | FGreaterThan attr value => compare_filter table attr value Greater
  | FLessThan attr value => compare_filter table attr value Less
  | FGreaterOrEqual attr value => compare_filter table attr value GreaterOrEqual
  | FLessOrEqual attr value => compare_filter table attr value LessOrEqual
  | FIn attr values => in_array table attr values false
  | FNotIn attr values => in_array table attr values true
  | FStartsWith attr value => starts_or_ends_with table attr value false true
  | FNotStartsWith attr value => starts_or_ends_with table attr value true true
  | FEndsWith attr value => starts_or_ends_with table attr value false false
  | FNotEndsWith attr value => starts_or_ends_with table attr value true false
  end.

Definition query_filter_expr (f : QueryFilter) : sres SqlExpr := filter_expr (qf_table f) (qf_filter f).

(** ** Windows

    The queries for single children name the column [id] of a filter without its
    table, which PostgreSQL refuses where the parents have a column [id] too.
    Only queries for lists of children have filters, so that is left out. *)

(** [SafeString]: single quotes are doubled. *)
Fixpoint double_quotes (s : string) : string :=
  match s with
  | EmptyString => EmptyString
  | String c s => if Ascii.eqb c "'" then String c (String c (double_quotes s)) else String c (double_quotes s)
  end.

Inductive ParentIds :=
| PIList (child_ids : list (list (option string)))
| PIScalar (child_ids : list string).

Definition pad {A} (n : nat) (l : list (option A)) : list (option A) := l ++ replicate (n - length l) None.

Definition ParentIds_new (link : ParentLink) : ParentIds :=
  match link with
  | PScalar child_ids => PIScalar child_ids
  | PList child_ids =>
      let maxlen := foldr (fun ids m => Nat.max (length ids) m) 0%nat child_ids in
      PIList ((fun ids => pad maxlen ((fun s => Some (double_quotes s)) <$> ids)) <$> child_ids)
  end.

Inductive TableLink :=
| TLDirect (column : Column) (multiplicity : ChildMultiplicity)
| TLParent (ids : ParentIds).

Definition TableLink_new (child_table : Table) (link : EntityLink) : sres TableLink :=
  match link with
  | Direct attribute multiplicity =>
      let? column := column_for_field child_table (attribute_name attribute) in
      Ok (TLDirect column multiplicity)
  | Parent parent_link => Ok (TLParent (ParentIds_new parent_link))
  end.

(** [push_matrix]: literals, cast to the type of the column. *)
Definition matrix_entry (ty : IdType) (id : option string) : SqlExpr :=
  match id with
  | None => EBind DNull
  | Some id =>
      match ty with
      | IdString => ELiteral id
      | IdBytes => ELiteral ("\x" +:+ trim_0x id)
      end
  end.

Definition id_matrix (c : Column) (matrix : list (list (option string))) : sres SqlExpr :=
  let? ty := lift_panic (id_type (col_type c)) in
  let rows := match matrix with [] => [[None]] | _ => matrix end in
  Ok (ECast (EArray ((fun ids => EArray (matrix_entry ty <$> ids)) <$> rows))
        (TArray (TArray (sql_type (col_type c))))).

(** *** Sort keys and ranges *)
Inductive SortKey :=
| SKNone
| SKId
| SKKey (column : Column) (value : option string) (descending : bool).

Definition sort_with_key (table : Table) (attribute : string) (filter : option EntityFilter)
    (descending : bool) : sres SortKey :=
  let? column := column_for_field table attribute in
  if is_fulltext column then
    match filter with
    | Some (FEqual _ value) =>
        Ok (SKKey column (match value with VString s => Some s | _ => None end) descending)
    | _ => Panic
    end
  else Ok (SKKey column None descending).

Definition SortKey_new (order : EntityOrder) (table : Table) (filter : option EntityFilter) : sres SortKey :=
  match order with
  | Ascending attr _ => sort_with_key table attr filter false
  | Descending attr _ => sort_with_key table attr filter true
  | DefaultOrder => Ok SKId
  | Unordered => Ok SKNone
  end.

Definition id_key : OrderKey := mk_order_key (SortColumn PRIMARY_KEY_COLUMN) false.
Definition parent_key : OrderKey := mk_order_key (SortColumn "g$parent_id") false.

Definition sort_expr (column : Column) (value : option string) (descending : bool) : sres (list OrderKey) :=
  let? by_ :=
    match col_type column with
    | CTTSVector config =>
        let? value := unwrap value in
        Ok (SortRank (match fc_algorithm config with Rank => false | ProximityRank => true end)
              (col_name column) (EToTsQuery (EBind (DText value))))
    | _ => Ok (SortColumn (col_name column))
    end in
  let key := mk_order_key by_ descending in
  Ok (if is_primary_key column then [key] else [key; id_key]).

Definition order_by (key : SortKey) : sres (list OrderKey) :=
  match key with
  | SKNone => Ok []
  | SKId => Ok [id_key]
  | SKKey column value descending => sort_expr column value descending
  end.

Definition order_by_parent (key : SortKey) : sres (list OrderKey) :=
  match key with
  | SKNone => Ok []
  | SKId => Ok [parent_key; id_key]
  | SKKey column value descending =>
      let? keys := sort_expr column value descending in Ok (parent_key :: keys)
  end.

(** [order by], [limit] and [offset] *)
Definition ordered (key : SortKey) (range : EntityRange) (q : Select) : sres Select :=
  let? keys := order_by key in
  Ok (QTop keys (er_first range) (er_skip range) q).

Inductive ParentLimit :=
| Outer
| Ranked (key : SortKey) (range : EntityRange).

Definition conjunction (e : SqlExpr) (l : list SqlExpr) : SqlExpr := foldl EAnd e l.

Definition limit_filter (limit : ParentLimit) : list SqlExpr :=
  match limit with
  | Outer => [ECmp CmpEq (EColumn "q.id") (EColumn "p.id")]
  | Ranked _ _ => []
  end.

Definition restrict (limit : ParentLimit) (q : Select) : sres Select :=
  match limit with
  | Outer => Ok q
  | Ranked key range => ordered key range q
  end.

Definition single_limit (limit : ParentLimit) (num_parents : nat) (q : Select) : Select :=
  match limit with
  | Outer => q
  | Ranked _ _ => QLimit (Z.of_nat num_parents + 1) q
  end.

(** *** [FilterWindow] *)
Record FilterWindow := mk_filter_window {
  fw_table : Table;
  fw_query_filter : option QueryFilter;
  fw_ids : list string;
  fw_link : TableLink;
}.

Definition option_filter (filter : option EntityFilter) (table : Table) : sres (option QueryFilter) :=
  match filter with
  | None => Ok None
  | Some filter => res_map Some (QueryFilter_new filter table)
  end.

Definition FilterWindow_new (ly : Layout) (window : EntityWindow) (query_filter : option EntityFilter)
  : sres FilterWindow :=
  let? table := table_for_entity ly (ew_child_type window) in
  let? query_filter := option_filter query_filter table in
  let? link := TableLink_new table (ew_link window) in
  Ok (mk_filter_window table query_filter (ew_ids window) link).

Definition and_filter (filter : option QueryFilter) : sres (list SqlExpr) :=
  match filter with
  | None => Ok []
  | Some f => let? e := query_filter_expr f in Ok [e]
  end.

(** The children of a window: the rows of its table that satisfy the condition
    on the block and [limit.filter], [link] and the filter. *)
Definition window_rows (w : FilterWindow) (limit : ParentLimit) (block : Z) (link : list SqlExpr) : sres Select :=
  let? filter := and_filter (fw_query_filter w) in
  Ok (QTable (tb_qualified_name (fw_table w))
        (conjunction (block_range_contains (fw_table w) block) (limit_filter limit ++ link ++ filter))).

(** The environment variable [TYPEA_BATCH_SIZE]. *)
Context (TYPEA_BATCH_SIZE : nat).

Definition children_type_a (w : FilterWindow) (column : Column) (limit : ParentLimit) (block : Z) : sres Select :=
  if negb (col_is_list column) then Panic
  else
    let? ids := bind_ids column (fw_ids w) in
    let? rows := window_rows w limit block [EAny (EColumn "p.id") (EColumn (col_name column))] in
    let? rows := restrict limit rows in
    Ok (QJoin [("p.id", ids)] rows).

Definition child_type_a (w : FilterWindow) (column : Column) (limit : ParentLimit) (block : Z) : sres Select :=
  if negb (col_is_list column) then Panic
  else
    let? ids := bind_ids column (fw_ids w) in
    let? rows := window_rows w limit block
                   (EArrayContains (EColumn (col_name column)) (EArray [EColumn "p.id"])
                    :: if (length (fw_ids w) <? TYPEA_BATCH_SIZE)%nat
                       then [EArrayOverlaps (EColumn (col_name column)) ids] else []) in
    Ok (single_limit limit (length (fw_ids w)) (QJoin [("p.id", ids)] rows)).

Definition children_type_b (w : FilterWindow) (column : Column) (limit : ParentLimit) (block : Z) : sres Select :=
  if col_is_list column then Panic
  else
    let? ids := bind_ids column (fw_ids w) in
    let? rows := window_rows w limit block [ECmp CmpEq (EColumn "p.id") (EColumn (col_name column))] in
    let? rows := restrict limit rows in
    Ok (QJoin [("p.id", ids)] rows).

Definition child_type_b (w : FilterWindow) (column : Column) (limit : ParentLimit) (block : Z) : sres Select :=
  if col_is_list column then Panic
  else
    let? ids := bind_ids column (fw_ids w) in
    let? rows := window_rows w limit block [ECmp CmpEq (EColumn "p.id") (EColumn (col_name column))] in
    Ok (single_limit limit (length (fw_ids w)) (QJoin [("p.id", ids)] rows)).

Definition text_ids (ids : list string) : SqlExpr := EBind (DArray (DText <$> ids)).

Definition children_type_c (w : FilterWindow) (child_ids : list (list (option string))) (limit : ParentLimit)
    (block : Z) : sres Select :=
  let? pk := lift_panic (primary_key (fw_table w)) in
  let? matrix := id_matrix pk child_ids in
  let? rows := window_rows w limit block [EAny (EColumn PRIMARY_KEY_COLUMN) (EColumn "p.child_ids")] in
  let? rows := restrict limit rows in
  Ok (QJoin [("p.id", text_ids (fw_ids w)); ("p.child_ids", matrix)] rows).

Definition child_type_d (w : FilterWindow) (child_ids : list string) (limit : ParentLimit) (block : Z)
  : sres Select :=
  let? pk := lift_panic (primary_key (fw_table w)) in
  let? ids := bind_ids pk child_ids in
  let? rows := window_rows w limit block [ECmp CmpEq (EColumn PRIMARY_KEY_COLUMN) (EColumn "p.child_id")] in
  Ok (single_limit limit (length (fw_ids w))
        (QJoin [("p.id", text_ids (fw_ids w)); ("p.child_id", ids)] rows)).

Definition children (w : FilterWindow) (limit : ParentLimit) (block : Z) : sres Select :=
  match fw_link w with
  | TLDirect column multiplicity =>
      match col_is_list column, multiplicity with
      | true, Many => children_type_a w column limit block
      | true, Single => child_type_a w column limit block
      | false, Many => children_type_b w column limit block
      | false, Single => child_type_b w column limit block
      end
  | TLParent (PIList child_ids) => children_type_c w child_ids limit block
  | TLParent (PIScalar child_ids) => child_type_d w child_ids limit block
  end.

(** [p.id::text as g$parent_id] *)
Definition parent_id_column : string * SqlExpr := ("g$parent_id", ECast (EColumn "p.id") TText).

Definition entity_column (t : Table) : string * SqlExpr := (ENTITY, ELiteral (tb_object t)).

Definition children_uniform (w : FilterWindow) (block : Z) : sres Select :=
  let? q := children w Outer block in
  Ok (QWith [entity_column (fw_table w); parent_id_column] q).

(** In some order. *)
Definition collect_parents (windows : list FilterWindow) : list string :=
  set_elements (list_to_set (windows ≫= fw_ids)).

(** ** Collections *)
Inductive FilterCollection :=
| FCAll (entities : list (Table * option QueryFilter))
| FCSingleWindow (window : FilterWindow)
| FCMultiWindow (windows : list FilterWindow) (parent_ids : list string).

Definition FilterCollection_new (ly : Layout) (collection : EntityCollection) (filter : option EntityFilter)
  : sres FilterCollection :=
  match collection with
  | All entities =>
      let? entities := map_res (fun entity =>
        let? table := table_for_entity ly entity in
        let? filter := option_filter filter table in
        Ok (table, filter)) entities in
      Ok (FCAll entities)
  | Window windows =>
      let? windows := map_res (fun w => FilterWindow_new ly w filter) windows in
      Ok (match windows with
          | [w] => FCSingleWindow w
          | _ => FCMultiWindow windows (collect_parents windows)
          end)
  end.

Definition first_table (c : FilterCollection) : option Table :=
  match c with
  | FCAll entities => fst <$> head entities
  | FCSingleWindow w => Some (fw_table w)
  | FCMultiWindow windows _ => fw_table <$> head windows
  end.

(** ** [FilterQuery] *)
Record FilterQuery := mk_filter_query {
  fq_collection : FilterCollection;
  fq_sort_key : SortKey;
  fq_range : EntityRange;
  fq_block : Z;
}.

(** The collection is not empty. *)
Definition FilterQuery_new (collection : FilterCollection) (filter : option EntityFilter) (order : EntityOrder)
    (range : EntityRange) (block : Z) : sres FilterQuery :=
  let? table := unwrap (first_table collection) in
  let? key := SortKey_new order table filter in
  Ok (mk_filter_query collection key range block).

Definition filtered_rows (q : FilterQuery) (table : Table) (filter : option QueryFilter) : sres Select :=
  let? filter := and_filter filter in
  Ok (QTable (tb_qualified_name table) (conjunction (block_range_contains table (fq_block q)) filter)).

Definition query_no_window_one_entity (q : FilterQuery) (table : Table) (filter : option QueryFilter)
  : sres Select :=
  let? rows := filtered_rows q table filter in
  let? top := ordered (fq_sort_key q) (fq_range q) rows in
  Ok (QWith [entity_column table] top).

Definition query_window_one_entity (q : FilterQuery) (w : FilterWindow) : sres Select :=
  let? rows := children w (Ranked (fq_sort_key q) (fq_range q)) (fq_block q) in
  let? keys := order_by_parent (fq_sort_key q) in
  Ok (QTop keys None 0 (QWith [entity_column (fw_table w)] (QWith [parent_id_column] rows))).

Definition query_no_window (q : FilterQuery) (entities : list (Table * option QueryFilter)) : sres Select :=
  let? blocks := map_res (fun tf : Table * option QueryFilter =>
    let? rows := filtered_rows q tf.1 tf.2 in Ok (QWith [entity_column tf.1] rows)) entities in
  let? matches := ordered (fq_sort_key q) (fq_range q) (QUnion blocks) in
  let? keys := order_by (fq_sort_key q) in
  Ok (QTop keys None 0 (QFetch ((fun tf => tb_object tf.1) <$> entities) matches)).

Definition unique_child_tables (windows : list FilterWindow) : list string :=
  set_elements (list_to_set ((fun w => tb_object (fw_table w)) <$> windows)).

Definition query_window (q : FilterQuery) (windows : list FilterWindow) (parent_ids : list string) : sres Select :=
  let? blocks := map_res (fun w => children_uniform w (fq_block q)) windows in
  let? matches := ordered (fq_sort_key q) (fq_range q) (QUnion blocks) in
  let? keys := order_by_parent (fq_sort_key q) in
  Ok (QTop keys None 0 (QFetch (unique_child_tables windows) (QJoin [("q.id", text_ids parent_ids)] matches))).

Definition filter_query_select (q : FilterQuery) : sres Select :=
  match fq_collection q with
  | FCAll [(table, filter)] => query_no_window_one_entity q table filter
  | FCAll entities => query_no_window q entities
  | FCSingleWindow w => query_window_one_entity q w
  | FCMultiWindow windows parent_ids => query_window q windows parent_ids
  end.
End filters.
