(* ===== verification/Execution.v ===== *)
(** * Execution of queries

    Models [graphql/src/execution/execution.rs] (without the caches, see
    [QueryCache]) and [graphql/src/execution/resolver.rs]: collecting the fields
    of selection sets, executing them against values a resolver supplies, and
    completing the values by the types of the schema.

    A computation returns the errors it met or a value and looks at the clock,
    which is a parameter: the answers to the question whether the deadline has
    passed, in the order in which it is asked.  Executing takes one unit of fuel
    per level of nested objects, collecting fields one per level of nested
    fragments; [Panic] is their end as well as a failed [unwrap]. *)

From stdpp Require Import prelude list strings gmap.
From Stdlib Require Import ZArith Lia Floats.SpecFloat.
From S2P Require Import Prelude.
From S2P Require Import GraphqlTypes.
From S2P Require Import StoreValue.
From S2P Require Import GraphqlSchema.
From S2P Require Import Coercion.
From S2P Require Import Introspection.
From S2P Require Import GraphqlQuery.

#[local] Open Scope string_scope.
#[local] Open Scope list_scope.

(** ** Equality of object types, as derived *)
Fixpoint qvalue_eqb (a b : qvalue) : bool :=
  match a, b with
  | QVariable x, QVariable y | QString x, QString y | QEnum x, QEnum y => String.eqb x y
  | QInt x, QInt y => Z.eqb x y
  | QFloat x, QFloat y => SFeqb x y
  | QBoolean x, QBoolean y => Bool.eqb x y
  | QNull, QNull => true
  | QList x, QList y =>
      (fix go x y := match x, y with
                     | [], [] => true
                     | a :: x, b :: y => qvalue_eqb a b && go x y
                     | _, _ => false
                     end) x y
  | QObject x, QObject y =>
      (fix go x y := match x, y with
                     | [], [] => true
                     | (k, a) :: x, (l, b) :: y => String.eqb k l && qvalue_eqb a b && go x y
                     | _, _ => false
                     end) x y
  | _, _ => false
  end.

Fixpoint list_eqb {A} (eqb : A -> A -> bool) (x y : list A) : bool :=
  match x, y with
  | [], [] => true
  | a :: x, b :: y => eqb a b && list_eqb eqb x y
  | _, _ => false
  end.

Definition option_eqb {A} (eqb : A -> A -> bool) (x y : option A) : bool :=
  match x, y with Some a, Some b => eqb a b | None, None => true | _, _ => false end.

Definition directive_eqb (a b : Directive) : bool :=
  String.eqb (dir_name a) (dir_name b)
  && list_eqb (fun x y => String.eqb x.1 y.1 && qvalue_eqb x.2 y.2)
       (dir_arguments a) (dir_arguments b).

Definition input_value_eqb (a b : InputValue) : bool :=
  Z.eqb (pos_line (iv_position a)) (pos_line (iv_position b))
  && Z.eqb (pos_column (iv_position a)) (pos_column (iv_position b))
  && String.eqb (iv_name a) (iv_name b) && bool_decide (iv_value_type a = iv_value_type b)
  && option_eqb qvalue_eqb (iv_default_value a) (iv_default_value b).

Definition field_eqb (a b : Field) : bool :=
  String.eqb (fd_name a) (fd_name b) && list_eqb input_value_eqb (fd_arguments a) (fd_arguments b)
  && bool_decide (fd_field_type a = fd_field_type b)
  && list_eqb directive_eqb (fd_directives a) (fd_directives b).

Definition object_type_eqb (a b : ObjectType) : bool :=
  String.eqb (ot_name a) (ot_name b)
  && list_eqb String.eqb (ot_implements_interfaces a) (ot_implements_interfaces b)
  && list_eqb directive_eqb (ot_directives a) (ot_directives b)
  && list_eqb field_eqb (ot_fields a) (ot_fields b).

(** ** Collecting fields *)

(** An [IndexMap] from response keys to fields: its entries in the order in
    which the keys first came. *)
Abbreviation GroupedFields := (list (string * list QField)).

(** [output.entry(response_key).or_default().push(field)] *)
Fixpoint push_field (response_key : string) (field : QField) (output : GroupedFields)
  : GroupedFields :=
  match output with
  | [] => [(response_key, [field])]
  | (key, fields) :: output =>
      if String.eqb key response_key then (key, fields ++ [field]) :: output
      else (key, fields) :: push_field response_key field output
  end.

Definition does_fragment_type_apply (schema : Document) (object_type : ObjectType)
    (fragment_type : string) : bool :=
  match get_named_type schema fragment_type with
  | Some (TDObject ot) => object_type_eqb object_type ot
  | Some (TDInterface it) =>
      existsb (String.eqb (it_name it)) (ot_implements_interfaces object_type)
  | Some (TDUnion ut) => existsb (String.eqb (ot_name object_type)) (ut_types ut)
  | _ => false
  end.

(** Selections that are not skipped and should be included. *)
Definition included (variables : Variables) (selection : Selection) : bool :=
  negb (skip_selection variables selection) && include_selection variables selection.

Section collect.
Context (q : Query) (object_type : ObjectType).
Notation schema := (q_schema q).

(** The visited fragments and the output. *)
Abbreviation CollectState := (gset string * GroupedFields)%type.

(** One selection; [collect] is the recursive call on a fragment's set. *)
Definition collect_selection (collect : SelectionSet -> CollectState -> res Empty_set CollectState)
    (s : CollectState) (selection : Selection) : res Empty_set CollectState :=
  let '(visited_fragments, output) := s in
  if negb (included (q_variables q) selection) then Ok s
  else match selection with
  | SField field => Ok (visited_fragments, push_field (get_response_key field) field output)
  | SSpread fragment_name _ =>
      if bool_decide (fragment_name ∈ visited_fragments) then Ok s
      else
        let? fragment := get_fragment q fragment_name in
        let visited_fragments := {[fragment_name]} ∪ visited_fragments in
        if does_fragment_type_apply schema object_type (fr_type_condition fragment)
        then collect (fr_selection_set fragment) (visited_fragments, output)
        else Ok (visited_fragments, output)
  | SInline type_condition _ set =>
      let applies := match type_condition with
                     | Some cond => does_fragment_type_apply schema object_type cond
                     | None => true
                     end in
      if applies then collect set s else Ok s
  end.

Fixpoint collect_set (fuel : nat) (selection_set : SelectionSet) (s : CollectState)
  : res Empty_set CollectState :=
  match fuel with
  | O => Panic
  | S fuel => fold_res (collect_selection (collect_set fuel)) s selection_set
  end.

Definition collect_fields_inner (fuel : nat) (selection_sets : list SelectionSet)
    (s : CollectState) : res Empty_set CollectState :=
  fold_res (fun s set => collect_set fuel set s) s selection_sets.

Definition collect_fields (fuel : nat) (selection_sets : list SelectionSet)
  : res Empty_set GroupedFields :=
  res_map snd (collect_fields_inner fuel selection_sets (∅, [])).
End collect.

(** ** Resolvers *)
Class Resolver := {
  prefetch : SelectionSet -> res (list QueryExecutionError) (option qvalue);
  resolve_objects : option qvalue -> QField -> Field -> ObjectOrInterface -> Variables
                    -> qres qvalue;
  resolve_object : option qvalue -> QField -> Field -> ObjectOrInterface -> Variables
                   -> qres qvalue;
  resolve_enum_value : QField -> EnumType -> option qvalue -> qres qvalue;
  resolve_scalar_value : ObjectType -> QField -> ScalarType -> option qvalue -> Variables
                         -> qres qvalue;
  resolve_enum_values : QField -> EnumType -> option qvalue
                        -> res (list QueryExecutionError) qvalue;
  resolve_scalar_values : QField -> ScalarType -> option qvalue
                          -> res (list QueryExecutionError) qvalue;
  resolve_abstract_type : Document -> TypeDefinition -> qvalue -> res Empty_set (option ObjectType);
}.

(** The default methods of the trait. *)
Definition default_resolve_value {E} (value : option qvalue) : res E qvalue :=
  Ok (default QNull value).

Definition default_resolve_abstract_type (schema : Document) (_ : TypeDefinition)
    (object_value : qvalue) : res Empty_set (option ObjectType) :=
  match object_value with
  | QObject data =>
      match object_get data "__typename" with
      | Some (QString name) =>
          match get_named_type schema name with
          | Some (TDObject object) => Ok (Some object)
          | _ => Panic
          end
      | _ => Panic
      end
  | _ => Panic
  end.

(** ** Execution *)

(** Computations that look at the clock: the state is how often it has been
    looked at. *)
Definition M (A : Type) : Type := nat -> res (list QueryExecutionError) A * nat.

Definition mret {A} (a : A) : M A := fun t => (Ok a, t).
Definition mlift {A} (m : res (list QueryExecutionError) A) : M A := fun t => (m, t).
Definition mbind {A B} (m : M A) (f : A -> M B) : M B :=
  fun t => match m t with
           | (Ok a, t) => f a t
           | (Err e, t) => (Err e, t)
           | (Panic, t) => (Panic, t)
           end.

(** The object of prefetched values. *)
Abbreviation Object := (list (string * qvalue)).

Definition object_remove (key : string) (o : Object) : Object :=
  filter (fun kv => negb (String.eqb kv.1 key)) o.

(** [BTreeMap::insert] on the bindings in key order. *)
Fixpoint object_insert (key : string) (v : qvalue) (o : Object) : Object :=
  match o with
  | [] => [(key, v)]
  | (k, w) :: o =>
      match String.compare key k with
      | Lt => (key, v) :: (k, w) :: o
      | Eq => (key, v) :: o
      | Gt => (k, w) :: object_insert key v o
      end
  end.

(** The names of fields that come more than once. *)
Definition multiple_response_keys (groups : GroupedFields) : gset string :=
  (foldl (fun (s : gset string * gset string) (f : QField) =>
            let '(multiple, fields) := s in
            if bool_decide (qf_name f ∈ fields) then ({[qf_name f]} ∪ multiple, fields)
            else (multiple, {[qf_name f]} ∪ fields))
     (∅, ∅) (mjoin groups.*2)).1.

(** The prefetched value of a field: under its response key if it has been
    prefetched, else under its name, where it stays if it is needed again. *)
Definition take_field_value (multiple : gset string) (response_key name : string)
    (prefetched : option Object) : option qvalue * option Object :=
  match prefetched with
  | None => (None, None)
  | Some o =>
      let key := "prefetch:" +:+ response_key in
      match object_get o key with
      | Some v => (Some v, Some (object_remove key o))
      | None =>
          if bool_decide (name ∈ multiple) then (object_get o name, Some o)
          else (object_get o name, Some (object_remove name o))
      end
  end.

Section execution.
Context (float_to_string : spec_float -> string).
Context {R : Resolver} (q : Query).
(** Has the deadline passed, when asked for the n-th time? *)
Context (expired : nat -> bool).
(** The fuel for collecting fields and for coercing arguments. *)
Context (cfuel afuel : nat).
Notation schema := (q_schema q).

Definition one_error {A} (m : qres A) : res (list QueryExecutionError) A :=
  map_err (fun e => [e]) m.

Definition resolve_field_value_for_named_type (object_type : ObjectType)
    (field_value : option qvalue) (field : QField) (field_definition : Field)
    (type_name : string) (argument_values : Variables) : res (list QueryExecutionError) qvalue :=
  let? named_type := ok_or (get_named_type schema type_name) [NamedTypeError type_name] in
  one_error
    match named_type with
    | TDObject t => resolve_object field_value field field_definition (OIObject t) argument_values
    | TDEnum t => resolve_enum_value field t field_value
    | TDScalar t => resolve_scalar_value object_type field t field_value argument_values
    | TDInterface i =>
        resolve_object field_value field field_definition (OIInterface i) argument_values
    | TDUnion _ => Err (QUnimplemented "unions")
    | TDInputObject _ => Panic
    end.

Fixpoint resolve_field_value_for_list_type (field_value : option qvalue) (field : QField)
    (field_definition : Field) (inner_type : GType) (argument_values : Variables)
  : res (list QueryExecutionError) qvalue :=
  match inner_type with
  | NonNullType inner_type =>
      resolve_field_value_for_list_type field_value field field_definition inner_type
        argument_values
  | NamedType type_name =>
      let? named_type := ok_or (get_named_type schema type_name) [NamedTypeError type_name] in
      match named_type with
      | TDObject t =>
          one_error
            (resolve_objects field_value field field_definition (OIObject t) argument_values)
      | TDEnum t => resolve_enum_values field t field_value
      | TDScalar t => resolve_scalar_values field t field_value
      | TDInterface t =>
          one_error
            (resolve_objects field_value field field_definition (OIInterface t) argument_values)
      | TDUnion _ => Err [QUnimplemented "unions"]
      | TDInputObject _ => Panic
      end
  | ListType _ => Err [QUnimplemented "nested list types"]
  end.

Fixpoint resolve_field_value (object_type : ObjectType) (field_value : option qvalue)
    (field : QField) (field_definition : Field) (field_type : GType)
    (argument_values : Variables) : res (list QueryExecutionError) qvalue :=
  match field_type with
  | NonNullType inner_type =>
      resolve_field_value object_type field_value field field_definition inner_type
        argument_values
  | NamedType name =>
      resolve_field_value_for_named_type object_type field_value field field_definition name
        argument_values
  | ListType inner_type =>
      resolve_field_value_for_list_type field_value field field_definition inner_type
        argument_values
  end.

Definition resolve_abstract (abstract_type : TypeDefinition) (object_value : qvalue)
  : res (list QueryExecutionError) ObjectType :=
  let? o := lift_panic (resolve_abstract_type schema abstract_type object_value) in
  ok_or o [AbstractTypeError (get_type_name abstract_type)].

(** *** Completing values *)

(** The values of a list, one after the other; errors are gathered. *)
Fixpoint complete_list (complete : qvalue -> M qvalue) (values : list qvalue)
  : M (list qvalue * list QueryExecutionError) :=
  match values with
  | [] => mret ([], [])
  | value :: values =>
      fun t =>
        match complete value t with
        | (Panic, t) => (Panic, t)
        | (Ok v, t) =>
            mbind (complete_list complete values) (fun '(vs, errors) => mret (v :: vs, errors)) t
        | (Err errs, t) =>
            mbind (complete_list complete values)
              (fun '(vs, errors) => mret (QNull :: vs, errs ++ errors)) t
        end
  end.

Section complete.
(** [execute_selection_set] *)
Context (execute : list SelectionSet -> ObjectType -> option qvalue -> M qvalue).
Context (field : QField) (fields : list QField).

Definition complete_named (name : string) (resolved_value : qvalue) : M qvalue :=
  let sets := qf_selection_set <$> fields in
  match get_named_type schema name with
  | None => mlift Panic
  | Some named_type =>
      match named_type with
      | TDScalar scalar_type =>
          mlift (map_err
            (fun value => [ScalarCoercionError (qf_position field) (qf_name field) value
                             (st_name scalar_type)])
            (coerce_scalar float_to_string scalar_type resolved_value))
      | TDEnum enum_type =>
          mlift (map_err
            (fun value => [EnumCoercionError (qf_position field) (qf_name field) value
                             (et_name enum_type) (et_values enum_type)])
            (coerce_enum enum_type resolved_value))
      | TDObject object_type => execute sets object_type (Some resolved_value)
      | TDInterface _ | TDUnion _ =>
          mbind (mlift (resolve_abstract named_type resolved_value)) (fun object_type =>
            execute sets object_type (Some resolved_value))
      | TDInputObject _ => mlift Panic
      end
  end.

Fixpoint complete_value (field_type : GType) (resolved_value : qvalue) : M qvalue :=
  match field_type with
  | NonNullType inner_type =>
      mbind (complete_value inner_type resolved_value) (fun v =>
        match v with
        | QNull => mlift (Err [NonNullError (qf_position field) (qf_name field)])
        | v => mret v
        end)
  | ListType inner_type =>
      match resolved_value with
      | QNull => mret QNull
      | QList values =>
          mbind (complete_list (complete_value inner_type) values) (fun '(values, errors) =>
            match errors with [] => mret (QList values) | _ => mlift (Err errors) end)
      | _ => mlift (Err [ListValueError (qf_position field) (qf_name field)])
      end
  | NamedType name =>
      match resolved_value with
      | QNull => mret QNull
      | _ => complete_named name resolved_value
      end
  end.
End complete.

(** *** Selection sets *)
Definition execute_field
    (execute : list SelectionSet -> ObjectType -> option qvalue -> M qvalue)
    (object_type : ObjectType) (field_value : option qvalue) (field : QField)
    (field_definition : Field) (fields : list QField) : M qvalue :=
  mbind (mlift (coerce_argument_values float_to_string schema afuel (q_variables q) object_type
                  (qf_name field) (qf_arguments field))) (fun argument_values =>
  mbind (mlift (resolve_field_value object_type field_value field field_definition
                  (fd_field_type field_definition) argument_values)) (fun value =>
  complete_value execute field fields (fd_field_type field_definition) value)).

(** What the loop over the groups keeps: the prefetched object, the errors and
    the result. *)
Record LoopState := mk_loop {
  ls_prefetched : option Object;
  ls_errors : list QueryExecutionError;
  ls_result : Object;
}.

Section groups.
Context (execute : list SelectionSet -> ObjectType -> option qvalue -> M qvalue).
Context (object_type : ObjectType) (multiple : gset string).

Fixpoint execute_groups (groups : GroupedFields) (s : LoopState) : M LoopState :=
  match groups with
  | [] => mret s
  | (response_key, fields) :: groups =>
      fun t =>
        let past := expired t in
        let t := S t in
        if past then
          (Ok (mk_loop (ls_prefetched s) (ls_errors s ++ [QTimeout]) (ls_result s)), t)
        else
          match fields with
          | [] => (Panic, t)
          | field :: _ =>
              match get_field (OIObject object_type) (qf_name field) with
              | None => (Panic, t)
              | Some field_definition =>
                  let '(field_value, prefetched) :=
                    take_field_value multiple response_key (qf_name field) (ls_prefetched s) in
                  match execute_field execute object_type field_value field field_definition
                          fields t with
                  | (Ok v, t) =>
                      execute_groups groups
                        (mk_loop prefetched (ls_errors s)
                           (object_insert response_key v (ls_result s))) t
                  | (Err e, t) =>
                      execute_groups groups
                        (mk_loop prefetched (ls_errors s ++ e) (ls_result s)) t
                  | (Panic, t) => (Panic, t)
                  end
              end
          end
  end.
End groups.

Fixpoint execute_selection_set_to_map (fuel : nat) (selection_sets : list SelectionSet)
    (object_type : ObjectType) (prefetched_value : option qvalue) : M Object :=
  match fuel with
  | O => mlift Panic
  | S fuel =>
      let execute sets ot v := mbind (execute_selection_set_to_map fuel sets ot v)
                                 (fun map => mret (QObject map)) in
      mbind (mlift match prefetched_value with
                   | Some (QObject object) => Ok (Some object)
                   | Some _ => Panic
                   | None => Ok None
                   end) (fun prefetched_object =>
      mbind (mlift (lift_panic (collect_fields q object_type cfuel selection_sets))) (fun groups =>
      mbind (execute_groups execute object_type (multiple_response_keys groups) groups
               (mk_loop prefetched_object [] [])) (fun s =>
      match ls_errors s with [] => mret (ls_result s) | errors => mlift (Err errors) end)))
  end.

Definition execute_selection_set (fuel : nat) (selection_sets : list SelectionSet)
    (object_type : ObjectType) (prefetched_value : option qvalue) : M qvalue :=
  mbind (execute_selection_set_to_map fuel selection_sets object_type prefetched_value)
    (fun map => mret (QObject map)).
End execution.

(** *** The root *)

(** Top-level fields: those for the introspection and the others. *)
Definition split_root (groups : GroupedFields) : res Empty_set (SelectionSet * SelectionSet) :=
  fold_res (fun '(data_set, intro_set) '(_, fields) =>
    match fields with
    | [] => Panic
    | field :: _ =>
        if is_introspection_field (qf_name field)
        then Ok (data_set, intro_set ++ (SField <$> fields))
        else Ok (data_set ++ (SField <$> fields), intro_set)
    end) ([], []) groups.

Definition execute_root_selection_set_uncached (float_to_string : spec_float -> string)
    (R : Resolver) (intro : Resolver) (q : Query) (expired : nat -> bool) (cfuel afuel fuel : nat)
    (selection_set : SelectionSet) (root_type : ObjectType) : M Object :=
  mbind (mlift (lift_panic (collect_fields q root_type cfuel [selection_set]))) (fun groups =>
  mbind (mlift (lift_panic (split_root groups))) (fun '(data_set, intro_set) =>
  mbind (match data_set with
         | [] => mret []
         | _ =>
             mbind (mlift (prefetch selection_set)) (fun initial_data =>
               execute_selection_set_to_map float_to_string q expired cfuel afuel fuel [data_set]
                 root_type initial_data)
         end) (fun values =>
  match intro_set with
  | [] => mret values
  | _ =>
      mbind (execute_selection_set_to_map (R := intro) float_to_string (as_introspection_query q)
               expired cfuel afuel fuel [intro_set] INTROSPECTION_QUERY_TYPE None) (fun more =>
        mret (foldl (fun o kv => object_insert kv.1 kv.2 o) values more))
  end))).

(** ** The resolver of the store, [graphql/src/store/resolver.rs] *)
Definition not_prefetched (object_type : ObjectOrInterface) (field : QField) : QueryExecutionError :=
  ResolveEntitiesError
    ("internal error resolving " +:+ oi_name object_type +:+ "." +:+ qf_name field
     +:+ ": expected prefetched result, but found nothing").

Definition store_resolve_objects (prefetched_objects : option qvalue) (field : QField)
    (_ : Field) (object_type : ObjectOrInterface) (_ : Variables) : qres qvalue :=
  ok_or prefetched_objects (not_prefetched object_type field).

Definition store_resolve_object (prefetched_object : option qvalue) (field : QField)
    (field_definition : Field) (object_type : ObjectOrInterface) (_ : Variables) : qres qvalue :=
  match prefetched_object with
  | Some (QList children) =>
      match children with
      | _ :: _ :: _ =>
          let? derived_from_field := unwrap (get_derived_from_field object_type field_definition) in
          Err (AmbiguousDerivedFromResult (qf_position field) (qf_name field)
                 (oi_name object_type) (fd_name derived_from_field))
      | [child] => Ok child
      | [] => Ok QNull
      end
  | _ => Err (not_prefetched object_type field)
  end.

Definition StoreResolver (run : SelectionSet -> res (list QueryExecutionError) qvalue)
  : Resolver := {|
  prefetch set := res_map Some (run set);
  resolve_objects := store_resolve_objects;
  resolve_object := store_resolve_object;
  resolve_enum_value _ _ value := default_resolve_value value;
  resolve_scalar_value _ _ _ value _ := default_resolve_value value;
  resolve_enum_values _ _ value := default_resolve_value value;
  resolve_scalar_values _ _ value := default_resolve_value value;
  resolve_abstract_type := default_resolve_abstract_type;
|}.

(** ** What is proved: collected fields *)
Lemma push_field_keys key field output k :
  k ∈ (push_field key field output).*1 <-> k = key \/ k ∈ output.*1.
Proof.
  induction output as [|[k' fields] output IH]; cbn [push_field]; [cbn; set_solver|].
  destruct (String.eqb_spec k' key) as [->|]; cbn [fmap list_fmap fst]; rewrite !elem_of_cons;
    [naive_solver|]. rewrite IH. naive_solver.
Qed.

(** Response keys are distinct, and no group is empty. *)
Definition groups_ok (groups : GroupedFields) : Prop :=
  NoDup groups.*1 /\ Forall (fun g => g.2 <> []) groups.

Lemma push_field_ok key field output : groups_ok output -> groups_ok (push_field key field output).
Proof.
  intros [Hnd Hne]. split.
  - clear Hne. induction output as [|[k fields] output IH]; cbn [push_field].
    { cbn. apply NoDup_singleton. }
    cbn [fmap list_fmap fst] in Hnd. apply NoDup_cons in Hnd as [Hk Hnd].
    destruct (String.eqb_spec k key) as [->|Hne']; cbn [fmap list_fmap fst];
      apply NoDup_cons; (split; [|by auto]); [done|].
    change (list_fmap _ _ fst (push_field key field output)) with (push_field key field output).*1.
    rewrite push_field_keys. naive_solver.
  - clear Hnd. induction Hne as [|[k fields] output Hf Hne IH]; cbn [push_field].
    { constructor; [done|constructor]. }
    destruct (String.eqb k key); constructor; try done. cbn in *. by destruct fields.
Qed.

Section collected.
Context (q : Query) (object_type : ObjectType).
Notation collect_set := (collect_set q object_type).
Notation collect_fields := (collect_fields q object_type).

(** A property of the output that pushing a field keeps. *)
Section invariant.
Context (P : GroupedFields -> Prop).
Context (HP : forall key field output, P output -> P (push_field key field output)).

Lemma collect_set_inv fuel set s s' :
  P s.2 -> collect_set fuel set s = Ok s' -> P s'.2.
Proof.
  revert set s s'. induction fuel as [|fuel IH]; intros set s s' Hs H; [done|].
  cbn [Execution.collect_set] in H.
  refine (fold_res_inv (E := Empty_set) _ (fun s => P s.2) s set s' Hs _ H).
  intros [visited output] sel s1 _ Hs1 H1. cbn [snd] in Hs1. unfold collect_selection in H1.
  destruct (negb _); [by simplify_eq|].
  destruct sel as [field|name ds|cond ds set'].
  - simplify_eq. by apply HP.
  - case_bool_decide; [by simplify_eq|].
    destruct (get_fragment q name) as [fragment| |] eqn:Ef; cbn [res_bind] in H1; try done.
    destruct (does_fragment_type_apply _ _ _); [|by simplify_eq].
    by apply (IH _ _ _) in H1.
  - destruct cond as [cond|]; [destruct (does_fragment_type_apply _ _ _); [|by simplify_eq]|];
      by apply (IH _ _ _) in H1.
Qed.

Lemma collect_fields_inv fuel sets groups :
  P [] -> collect_fields fuel sets = Ok groups -> P groups.
Proof.
  intros H0 H. unfold Execution.collect_fields, res_map in H.
  destruct (collect_fields_inner q object_type fuel sets (∅, [])) as [s| |] eqn:E; try done.
  cbn in H. simplify_eq. unfold collect_fields_inner in E.
  refine (fold_res_inv (E := Empty_set) _ (fun s => P s.2) (∅, []) sets s H0 _ E).
  intros s1 set s2 _ Hs H. by eapply collect_set_inv.
Qed.
End invariant.

Lemma collect_fields_ok fuel sets groups : collect_fields fuel sets = Ok groups -> groups_ok groups.
Proof.
  apply collect_fields_inv; [|split; [apply NoDup_nil_2|constructor]].
  intros. by apply push_field_ok.
Qed.
End collected.

(** ** What is proved: objects *)
Lemma object_get_cons k v o key :
  object_get ((k, v) :: o) key = if String.eqb k key then Some v else object_get o key.
Proof. unfold object_get, get_argument_value. cbn [List.find fst]. by destruct (String.eqb k key). Qed.

Lemma object_get_insert k v o key :
  object_get (object_insert k v o) key = if String.eqb k key then Some v else object_get o key.
Proof.
  induction o as [|[k' w] o IH]; cbn [object_insert]; [apply object_get_cons|].
  destruct (String.compare k k') eqn:E; rewrite !object_get_cons.
  - apply String.compare_eq_iff in E as ->. by destruct (String.eqb k' key).
  - done.
  - rewrite IH. destruct (String.eqb_spec k' key) as [->|]; [|done].
    destruct (String.eqb_spec k key) as [->|]; [|done].
    pose proof (String.compare_antisym key key) as Ha. by rewrite E in Ha.
Qed.

(** ** What is proved: results have the shape of the query *)
Section shape.
Context (float_to_string : spec_float -> string).
Context {R : Resolver} (q : Query) (expired : nat -> bool) (cfuel afuel : nat).
Notation schema := (q_schema q).

(** A value of a type: not null where the type forbids it, a list of such
    values, a scalar or enum value of the type, or an object whose fields are
    those selected, under their response keys, each with a value of the type
    the schema gives the field. *)
Inductive output_ok : GType -> list QField -> qvalue -> Prop :=
| output_null ty fields : is_non_null_type ty = false -> output_ok ty fields QNull
| output_non_null ty fields v : v <> QNull -> output_ok ty fields v ->
    output_ok (NonNullType ty) fields v
| output_list ty fields l : Forall (output_ok ty fields) l -> output_ok (ListType ty) fields (QList l)
| output_scalar name fields t v :
    get_named_type schema name = Some (TDScalar t) -> scalar_conforms (st_name t) v ->
    output_ok (NamedType name) fields v
| output_enum name fields t e :
    get_named_type schema name = Some (TDEnum t) -> e ∈ et_values t ->
    output_ok (NamedType name) fields (QEnum e)
| output_object name fields ot o :
    (get_named_type schema name = Some (TDObject ot)
     \/ exists d v, get_named_type schema name = Some d
          /\ resolve_abstract_type schema d v = Ok (Some ot)) ->
    object_ok ot (qf_selection_set <$> fields) o ->
    output_ok (NamedType name) fields (QObject o)
with object_ok : ObjectType -> list SelectionSet -> Object -> Prop :=
| object_all ot sets groups o :
    collect_fields q ot cfuel sets = Ok groups ->
    (forall key, object_get o key <> None <-> key ∈ groups.*1) ->
    (forall key fields, (key, fields) ∈ groups -> exists field definition v,
       head fields = Some field /\ get_field (OIObject ot) (qf_name field) = Some definition
       /\ object_get o key = Some v /\ output_ok (fd_field_type definition) fields v) ->
    object_ok ot sets o.
Hint Constructors output_ok : core.

Definition execute_sound (execute : list SelectionSet -> ObjectType -> option qvalue -> M qvalue)
  : Prop :=
  forall sets ot v t r t', execute sets ot v t = (Ok r, t') ->
    exists o, r = QObject o /\ object_ok ot sets o.

Lemma mbind_ok {A B} (m : M A) (f : A -> M B) t r t' :
  mbind m f t = (Ok r, t') -> exists a t1, m t = (Ok a, t1) /\ f a t1 = (Ok r, t').
Proof. unfold mbind. destruct (m t) as [[a|e|] t1]; try done. eauto. Qed.

Lemma mlift_ok {A} (m : res (list QueryExecutionError) A) t r t' :
  mlift m t = (Ok r, t') -> m = Ok r /\ t' = t.
Proof. unfold mlift. by intros [= -> ->]. Qed.

Lemma mret_ok {A} (a r : A) t t' : mret a t = (Ok r, t') -> r = a /\ t' = t.
Proof. unfold mret. by intros [= -> ->]. Qed.

(** Errors are named. *)
Definition names_errors {A} (m : M A) : Prop := forall t es t', m t = (Err es, t') -> es <> [].

Context (Henums : forall field t v, resolve_enum_values field t v <> Err []).
Context (Hscalars : forall field t v, resolve_scalar_values field t v <> Err []).

Lemma mbind_names {A B} (m : M A) (f : A -> M B) :
  names_errors m -> (forall a, names_errors (f a)) -> names_errors (mbind m f).
Proof.
  intros Hm Hf t es t' H. unfold mbind in H. destruct (m t) as [[a|e|] t1] eqn:E; [|simplify_eq|done].
  - by eapply Hf.
  - by eapply Hm.
Qed.

Lemma mlift_names {A} (m : res (list QueryExecutionError) A) : m <> Err [] -> names_errors (mlift m).
Proof. intros H t es t' [= Hm <-]. intros ->. by rewrite Hm in H. Qed.

Lemma mret_names {A} (a : A) : names_errors (mret a).
Proof. by intros t es t' [=]. Qed.

Lemma complete_list_ok complete values t vs errors t' :
  (forall v, names_errors (complete v)) ->
  complete_list complete values t = (Ok (vs, errors), t') -> errors = [] ->
  Forall (fun v => exists value t1 t2, complete value t1 = (Ok v, t2)) vs.
Proof.
  intros Hn. revert t vs errors t'.
  induction values as [|value values IH]; intros t vs errors t' H He.
  { apply mret_ok in H as [[= -> ->] _]. constructor. }
  cbn [complete_list] in H. destruct (complete value t) as [[v|es|] t1] eqn:E; try done;
    apply mbind_ok in H as ([vs' errors'] & t2 & H1 & [[= -> ->] _]%mret_ok).
  - constructor; [eauto|by eapply IH].
  - apply app_eq_nil in He as [-> _]. by apply Hn in E.
Qed.

Lemma complete_list_no_err complete values t es t' : complete_list complete values t <> (Err es, t').
Proof.
  revert t es t'. induction values as [|value values IH]; intros t es t'; [done|].
  cbn [complete_list]. destruct (complete value t) as [[v|e|] t1]; [| |done]; unfold mbind.
  - destruct (complete_list complete values t1) as [[[]|e'|] t2] eqn:E; try done.
    by destruct (IH t1 e' t2).
  - destruct (complete_list complete values t1) as [[[]|e'|] t2] eqn:E; try done.
    by destruct (IH t1 e' t2).
Qed.

Section completed.
Context (execute : list SelectionSet -> ObjectType -> option qvalue -> M qvalue).
Context (Hexec : execute_sound execute).
Context (Hnames : forall sets ot v, names_errors (execute sets ot v)).
Notation complete_value := (complete_value float_to_string q execute).
Notation complete_named := (complete_named float_to_string q execute).

Lemma complete_value_names field fields ty v : names_errors (complete_value field fields ty v).
Proof.
  revert v. induction ty as [name|ty IH|ty IH]; intros v; cbn [Execution.complete_value].
  - assert (names_errors (complete_named field fields name v)); [|by destruct v].
    unfold Execution.complete_named. destruct (get_named_type schema name) as [d|];
      [|by apply mlift_names].
    assert (Ha : names_errors (mbind (mlift (resolve_abstract q d v))
              (fun ot => execute (qf_selection_set <$> fields) ot (Some v)))).
    { apply mbind_names; [|intros; apply Hnames]. apply mlift_names. unfold resolve_abstract.
      by destruct (resolve_abstract_type schema d v) as [[]|[]|]. }
    destruct d as [st|ot|it|ut|et|io];
      [apply mlift_names; by destruct (coerce_scalar _ _ _)|apply Hnames|exact Ha|exact Ha
      |apply mlift_names; by destruct (coerce_enum _ _)|by apply mlift_names].
  - destruct v; try by apply mlift_names. apply mbind_names.
    + intros t es t' H. by apply complete_list_no_err in H.
    + intros [vs errors]. destruct errors; by apply mlift_names.
  - apply mbind_names; [apply IH|]. intros w. destruct w; by apply mlift_names.
Qed.

Lemma complete_named_sound field fields name v t r t' :
  v <> QNull -> complete_named field fields name v t = (Ok r, t') ->
  output_ok (NamedType name) fields r.
Proof.
  intros Hv H. unfold Execution.complete_named in H.
  destruct (get_named_type schema name) as [d|] eqn:Ed; [|done].
  assert (Hobj : forall ot w, (d = TDObject ot
            \/ exists v, resolve_abstract_type schema d v = Ok (Some ot)) ->
            execute (qf_selection_set <$> fields) ot w t = (Ok r, t') ->
            output_ok (NamedType name) fields r).
  { intros ot w Hd Hr. apply Hexec in Hr as (o & -> & Ho). eapply output_object; [|done].
    destruct Hd as [->|[v' Hv']]; [by left|right; eauto]. }
  assert (Habs : mbind (mlift (resolve_abstract q d v))
              (fun ot => execute (qf_selection_set <$> fields) ot (Some v)) t = (Ok r, t') ->
            output_ok (NamedType name) fields r).
  { intros Hr. apply mbind_ok in Hr as (ot & t1 & Ho & Hr). apply mlift_ok in Ho as [Ho ->].
    eapply Hobj; [|exact Hr]. right. exists v. unfold resolve_abstract in Ho.
    destruct (resolve_abstract_type schema d v) as [[]|[]|]; simplify_eq/=. done. }
  destruct d as [st|ot|it|ut|et|io]; [|by eapply Hobj; eauto|auto|auto| |done].
  - apply mlift_ok in H as [H _].
    destruct (coerce_scalar float_to_string st v) as [w|w|] eqn:Ec; try done. simplify_eq/=.
    destruct (coerce_scalar_sound float_to_string (get_named_type schema) name st v r Ed Ec Hv)
      as [Hr Hc].
    inversion Hc; subst; try done; congruence || (simplify_eq; eauto).
  - apply mlift_ok in H as [H _].
    destruct (coerce_enum et v) as [w|w|] eqn:Ec; try done. simplify_eq/=.
    destruct (coerce_enum_sound (get_named_type schema) name et v r Ed Ec Hv) as [Hr Hc].
    inversion Hc; subst; try done; congruence || (simplify_eq; eauto).
Qed.

Lemma complete_value_sound field fields ty v t r t' :
  complete_value field fields ty v t = (Ok r, t') -> output_ok ty fields r.
Proof.
  revert v t r t'. induction ty as [name|ty IH|ty IH]; intros v t r t' H;
    cbn [Execution.complete_value] in H.
  - assert (v = QNull \/ v <> QNull) as [->|Hv] by (destruct v; auto; by right).
    { apply mret_ok in H as [-> _]. by constructor. }
    apply (complete_named_sound field fields name v t r t' Hv). by destruct v.
  - destruct v as [| | | | | | |values|]; try done; [apply mret_ok in H as [-> _]; by constructor|].
    apply mbind_ok in H as ([vs errors] & t1 & H1 & H2). destruct errors; [|done].
    apply mret_ok in H2 as [-> _]. constructor.
    apply complete_list_ok in H1; [|apply complete_value_names|done].
    eapply Forall_impl; [exact H1|]. intros w (value & t2 & t3 & Hw). by eapply IH.
  - apply mbind_ok in H as (w & t1 & H1 & H2).
    assert (w <> QNull /\ r = w) as [Hw ->].
    { destruct w; try done; apply mret_ok in H2 as [-> _]; done. }
    constructor; [done|by eapply IH].
Qed.

Lemma coerce_argument_values_names ot name args :
  coerce_argument_values float_to_string schema afuel (q_variables q) ot name args <> Err [].
Proof.
  unfold coerce_argument_values. destruct (lift_panic _) as [[m [|]]|e|] eqn:E; try done.
  cbn [res_bind]. by destruct (fold_res _ _ _) as [|[]|].
Qed.

Lemma one_error_names {A} (m : qres A) : one_error m <> Err [].
Proof. by destruct m. Qed.

Lemma resolve_field_value_names ot v field definition ty args :
  resolve_field_value q ot v field definition ty args <> Err [].
Proof.
  induction ty as [name|ty IH|ty IH]; cbn [resolve_field_value]; [| |exact IH].
  - unfold resolve_field_value_for_named_type.
    destruct (get_named_type schema name); [|done]. apply one_error_names.
  - clear IH. induction ty as [name|ty IH|ty IH]; cbn [resolve_field_value_for_list_type];
      [|done|exact IH].
    destruct (get_named_type schema name) as [[]|]; try done; cbn [ok_or res_bind];
      try apply one_error_names; auto.
Qed.

Lemma execute_field_names ot v field definition fields :
  names_errors (execute_field float_to_string q afuel execute ot v field definition fields).
Proof.
  unfold execute_field. apply mbind_names; [apply mlift_names, coerce_argument_values_names|].
  intros args. apply mbind_names; [apply mlift_names, resolve_field_value_names|].
  intros w. apply complete_value_names.
Qed.

Lemma execute_field_sound ot v field definition fields t r t' :
  execute_field float_to_string q afuel execute ot v field definition fields t = (Ok r, t') ->
  output_ok (fd_field_type definition) fields r.
Proof.
  unfold execute_field. intros (args & t1 & _ & H)%mbind_ok.
  apply mbind_ok in H as (w & t2 & _ & H). by eapply complete_value_sound.
Qed.

(** A group that is done. *)
Definition group_ok (ot : ObjectType) (o : Object) (group : string * list QField) : Prop :=
  exists field definition v,
    head group.2 = Some field /\ get_field (OIObject ot) (qf_name field) = Some definition
    /\ object_get o group.1 = Some v /\ output_ok (fd_field_type definition) group.2 v.

Lemma execute_groups_sound ot multiple groups s t s' t' :
  NoDup groups.*1 ->
  execute_groups float_to_string q expired afuel execute ot multiple groups s t = (Ok s', t') ->
  ls_errors s' = [] ->
  ls_errors s = [] /\ Forall (group_ok ot (ls_result s')) groups
  /\ forall key, key ∉ groups.*1 -> object_get (ls_result s') key = object_get (ls_result s) key.
Proof.
  revert s t. induction groups as [|[key fields] groups IH]; intros s t Hnd H He.
  { apply mret_ok in H as [-> _]. split; [done|]. split; [constructor|done]. }
  cbn [fmap list_fmap fst] in Hnd. apply NoDup_cons in Hnd as [Hkey Hnd].
  cbn [execute_groups] in H. cbv zeta in H.
  destruct (expired t); [simplify_eq/=; by apply app_nil in He as [_ ?]|].
  destruct fields as [|field fields]; [done|].
  destruct (get_field (OIObject ot) (qf_name field)) as [definition|] eqn:Ed; [|done].
  destruct (take_field_value _ _ _ _) as [v o].
  destruct (execute_field _ _ _ _ _ _ _ _ _ _) as [[r|es|] t1] eqn:Ef; [| |done].
  - destruct (IH _ _ Hnd H He) as (Hs & Hall & Hkeep). cbn [ls_errors ls_result] in *.
    split; [done|]. split.
    + constructor; [|done]. exists field, definition, r. cbn [fst snd head].
      rewrite Hkeep by done. rewrite object_get_insert, String.eqb_refl.
      repeat split; try done. by eapply execute_field_sound.
    + intros key' Hk'. cbn [fmap list_fmap fst] in Hk'. apply not_elem_of_cons in Hk' as [Hne Hk'].
      rewrite Hkeep by done. rewrite object_get_insert.
      destruct (String.eqb_spec key key'); [congruence|done].
  - destruct (IH _ _ Hnd H He) as (Hs & _). cbn [ls_errors] in Hs.
    apply app_nil in Hs as [_ ->]. by apply execute_field_names in Ef.
Qed.
End completed.

Lemma execute_groups_no_err execute ot multiple groups s t es t' :
  execute_groups float_to_string q expired afuel execute ot multiple groups s t <> (Err es, t').
Proof.
  revert s t. induction groups as [|[key fields] groups IH]; intros s t; [done|].
  cbn [execute_groups]. cbv zeta. destruct (expired t); [done|].
  destruct fields as [|field fields]; [done|].
  destruct (get_field (OIObject ot) (qf_name field)); [|done].
  destruct (take_field_value _ _ _ _).
  destruct (execute_field _ _ _ _ _ _ _ _ _ _) as [[|e|] t1]; [apply IH|apply IH|done].
Qed.

Lemma execute_map_sound fuel sets ot v :
  (forall t o t', execute_selection_set_to_map float_to_string q expired cfuel afuel fuel sets ot v t
     = (Ok o, t') -> object_ok ot sets o)
  /\ names_errors (execute_selection_set_to_map float_to_string q expired cfuel afuel fuel sets ot v).
Proof.
  revert sets ot v. induction fuel as [|fuel IH]; intros sets ot v; [split; [done|by apply mlift_names]|].
  cbn [execute_selection_set_to_map].
  set (execute := fun sets ot v => mbind (execute_selection_set_to_map float_to_string q expired
        cfuel afuel fuel sets ot v) (fun map => mret (QObject map))).
  assert (Hexec : execute_sound execute).
  { intros sets' ot' v' t r t' (o & t1 & H1 & [-> _]%mret_ok)%mbind_ok. exists o. split; [done|].
    by eapply (proj1 (IH sets' ot' v')). }
  assert (Hnames : forall sets ot v, names_errors (execute sets ot v)).
  { intros sets' ot' v'. apply mbind_names; [apply IH|]. intros. apply mret_names. }
  split.
  - intros t o t' (prefetched & t1 & _ & H)%mbind_ok.
    apply mbind_ok in H as (groups & t2 & [Hg ->]%mlift_ok & H).
    apply mbind_ok in H as (s & t3 & H1 & H2).
    destruct (collect_fields q ot cfuel sets) as [groups'|[]|] eqn:Ec; simplify_eq/=.
    destruct (ls_errors s) eqn:Es; [|done]. apply mret_ok in H2 as [-> _].
    pose proof (collect_fields_ok _ _ _ _ _ Ec) as [Hnd _].
    destruct (execute_groups_sound execute Hexec Hnames _ _ _ _ _ _ _ Hnd H1 Es)
      as (_ & Hall & Hkeep).
    rewrite Forall_forall in Hall. econstructor; [exact Ec| |].
    + intros key. destruct (decide (key ∈ groups.*1)) as [Hin|Hin].
      * split; [done|]. intros _. apply list_elem_of_fmap in Hin as (g & -> & Hin).
        destruct (Hall g Hin) as (? & ? & w & _ & _ & Hw & _). by rewrite Hw.
      * rewrite Hkeep by done. done.
    + intros key fields Hin. exact (Hall (key, fields) Hin).
  - apply mbind_names; [apply mlift_names; by destruct v as [[]|]|]. intros prefetched.
    apply mbind_names; [apply mlift_names; by destruct (collect_fields _ _ _ _) as [|[]|]|].
    intros groups. apply mbind_names; [|intros s; destruct (ls_errors s); by apply mlift_names].
    intros t es t' H. by apply execute_groups_no_err in H.
Qed.
End shape.

(** ** What is proved: collecting fields ends *)

(** How deep inline fragments are nested, and which fragments are spread. *)
Fixpoint selection_depth (s : Selection) : nat :=
  match s with
  | SInline _ _ set => S (max_list (selection_depth <$> set))
  | _ => 0
  end.
Definition set_depth (set : SelectionSet) : nat := max_list (selection_depth <$> set).

Fixpoint spreads (s : Selection) : list string :=
  match s with
  | SSpread name _ => [name]
  | SInline _ _ set => flat_map spreads set
  | SField _ => []
  end.

(** Only fragments that exist are spread. *)
Definition closed (q : Query) (set : SelectionSet) : Prop :=
  forall s name, s ∈ set -> name ∈ spreads s -> is_Some (q_fragments q !! name).

Definition unvisited (q : Query) (visited : gset string) : nat :=
  size (dom (q_fragments q) ∖ visited).

Lemma unvisited_mono q v v' : v ⊆ v' -> unvisited q v' <= unvisited q v.
Proof. intros H. apply subseteq_size. set_solver. Qed.

Lemma unvisited_insert q v name f :
  q_fragments q !! name = Some f -> name ∉ v -> S (unvisited q ({[name]} ∪ v)) <= unvisited q v.
Proof.
  intros Hf Hv. unfold unvisited.
  assert (name ∈ dom (q_fragments q)) by (by apply elem_of_dom_2 in Hf).
  replace (dom (q_fragments q) ∖ v) with ({[name]} ∪ (dom (q_fragments q) ∖ ({[name]} ∪ v))).
  - rewrite (size_union {[name]}) by set_solver. rewrite size_singleton. lia.
  - apply set_eq. intros x. destruct (decide (x = name)); set_solver.
Qed.

Lemma selection_depth_le set s : s ∈ set -> selection_depth s <= set_depth set.
Proof. apply max_list_fmap_le. Qed.

Lemma closed_inline q set cond ds set' :
  closed q set -> SInline cond ds set' ∈ set -> closed q set'.
Proof.
  intros Hc Hin s name Hs Hn. apply (Hc _ name Hin). cbn [spreads].
  apply list_elem_of_In, in_flat_map. exists s. split; by apply list_elem_of_In.
Qed.

Section ends.
Context (q : Query) (object_type : ObjectType) (K : nat).
Context (HK : forall name f, q_fragments q !! name = Some f ->
           set_depth (fr_selection_set f) <= K /\ closed q (fr_selection_set f)).
Notation collect_set := (collect_set q object_type).

Lemma collect_set_ends fuel set s :
  closed q set -> set_depth set + S K * unvisited q s.1 < fuel ->
  collect_set fuel set s <> Panic /\ forall s', collect_set fuel set s = Ok s' -> s.1 ⊆ s'.1.
Proof.
  revert set s. induction fuel as [|fuel IH]; intros set s Hc Hf; [lia|].
  cbn [Execution.collect_set].
  assert (Hstep : forall s1 sel, sel ∈ set -> s.1 ⊆ s1.1 ->
    collect_selection q object_type (collect_set fuel) s1 sel <> Panic
    /\ forall s', collect_selection q object_type (collect_set fuel) s1 sel = Ok s' -> s1.1 ⊆ s'.1).
  { intros [visited output] sel Hin Hs. cbn [fst] in *.
    pose proof (unvisited_mono q _ _ Hs) as Hu. pose proof (selection_depth_le set sel Hin) as Hd.
    unfold collect_selection. destruct (negb _); [by split; [|intros ? [= <-]]|].
    destruct sel as [field|name ds|cond ds set']; [by split; [|intros ? [= <-]]| |].
    - case_bool_decide as Hv; [by split; [|intros ? [= <-]]|].
      destruct (Hc _ name Hin ltac:(left)) as [f Hfr]. unfold get_fragment. rewrite Hfr.
      cbn [unwrap res_bind]. destruct (HK name f Hfr) as [Hdepth Hclosed].
      pose proof (unvisited_insert q visited name f Hfr Hv) as Hi.
      destruct (does_fragment_type_apply _ _ _).
      + destruct (IH (fr_selection_set f) ({[name]} ∪ visited, output) Hclosed) as [H1 H2];
          [cbn [fst]; nia|]. split; [done|]. intros s' Hs'. specialize (H2 s' Hs').
        cbn [fst] in *. set_solver.
      + split; [done|]. intros s' [= <-]. cbn [fst]. set_solver.
    - assert (Hrec : collect_set fuel set' (visited, output) <> Panic
                /\ forall s', collect_set fuel set' (visited, output) = Ok s' -> visited ⊆ s'.1).
      { apply IH; [by eapply closed_inline|]. cbn [fst]. unfold set_depth in *. simpl in Hd.
        unfold set_depth in Hf. nia. }
      destruct cond as [cond|]; [|done].
      destruct (does_fragment_type_apply _ _ _); [done|by split; [|intros ? [= <-]]]. }
  split.
  - apply (fold_res_no_panic (fun s1 => s.1 ⊆ s1.1)); [done|]. intros s1 sel Hin Hs.
    destruct (Hstep s1 sel Hin Hs) as [H1 H2]. split; [done|]. intros s' Hs'.
    etrans; [exact Hs|by apply H2].
  - intros s'. apply (fold_res_inv _ (fun s1 => s.1 ⊆ s1.1)); [done|].
    intros s1 sel s2 Hin Hs Hs2. etrans; [exact Hs|by apply (Hstep s1 sel Hin Hs)].
Qed.
End ends.

Lemma fold_res_mono {E A S} (f g : S -> A -> res E S) s l r :
  (forall s x r, x ∈ l -> f s x = Ok r -> g s x = Ok r) ->
  fold_res f s l = Ok r -> fold_res g s l = Ok r.
Proof.
  revert s. induction l as [|x l IH]; intros s H Hr; [done|]. rewrite fold_res_cons in *.
  destruct (f s x) as [s1| |] eqn:Ef; try done. rewrite (H s x s1) by (done || left).
  cbn [res_bind] in *. apply IH; [|done]. intros s2 y r' Hy. apply H. by right.
Qed.

Lemma collect_set_mono q ot n m set s r :
  n <= m -> collect_set q ot n set s = Ok r -> collect_set q ot m set s = Ok r.
Proof.
  revert m set s r. induction n as [|n IH]; intros m set s r Hm H; [done|].
  destruct m as [|m]; [lia|]. cbn [collect_set] in *.
  eapply fold_res_mono; [|exact H]. intros [visited output] sel r' _ Hr.
  unfold collect_selection in *. destruct (negb _); [done|].
  destruct sel as [field|name ds|cond ds set']; [done| |].
  - case_bool_decide; [done|]. destruct (get_fragment q name) as [f| |]; try done.
    cbn [res_bind] in *. destruct (does_fragment_type_apply _ _ _); [|done].
    apply IH; [lia|done].
  - destruct (match cond with Some cond => _ | None => true end); [|done]. apply IH; [lia|done].
Qed.

Lemma fragments_bound q :
  (forall name f, q_fragments q !! name = Some f -> closed q (fr_selection_set f)) ->
  exists K, forall name f, q_fragments q !! name = Some f ->
    set_depth (fr_selection_set f) <= K /\ closed q (fr_selection_set f).
Proof.
  intros Hc.
  exists (max_list ((fun x => set_depth (fr_selection_set x.2)) <$> map_to_list (q_fragments q))).
  intros name f Hf. split; [|by eapply Hc].
  apply (max_list_fmap_le (fun x : string * FragmentDefinition => set_depth (fr_selection_set x.2))
           (map_to_list (q_fragments q)) (name, f)). by apply elem_of_map_to_list.
Qed.

(** Collecting the fields of selection sets ends even if fragments go in
    circles, provided the fragments that are spread exist: from some fuel on
    the result is the same, a list of groups with distinct response keys none
    of which is empty. *)
Lemma collecting_fields_ends q ot sets :
  (forall name f, q_fragments q !! name = Some f -> closed q (fr_selection_set f)) ->
  Forall (closed q) sets ->
  exists n groups, groups_ok groups /\
    forall fuel, n <= fuel -> collect_fields q ot fuel sets = Ok groups.
Proof.
  intros Hc Hs. destruct (fragments_bound q Hc) as [K HK].
  set (n := S (max_list (set_depth <$> sets) + S K * unvisited q ∅)).
  assert (Hok : exists s, collect_fields_inner q ot n sets (∅, []) = Ok s).
  { assert (Hp : collect_fields_inner q ot n sets (∅, []) <> Panic);
      [|destruct (collect_fields_inner _ _ _ _ _) as [s|[]|]; eauto; done].
    apply (fold_res_no_panic (fun _ => True)); [done|]. intros s1 set Hin _. split; [|done].
    apply (collect_set_ends q ot K HK); [by eapply Forall_forall in Hs|].
    pose proof (max_list_fmap_le set_depth sets set Hin).
    pose proof (unvisited_mono q ∅ s1.1 ltac:(set_solver)). unfold n. nia. }
  destruct Hok as [s Hs']. exists n, s.2.
  assert (Hall : forall fuel, n <= fuel -> collect_fields q ot fuel sets = Ok s.2).
  { intros fuel Hf. unfold collect_fields, res_map.
    assert (collect_fields_inner q ot fuel sets (∅, []) = Ok s) as ->; [|done].
    eapply fold_res_mono; [|exact Hs']. intros s1 set r _. by apply collect_set_mono. }
  split; [|exact Hall]. eapply collect_fields_ok. by apply (Hall n).
Qed.

(** ** What is proved: prefetched values are found *)
Lemma object_get_remove key o k :
  object_get (object_remove key o) k = if String.eqb key k then None else object_get o k.
Proof.
  unfold object_remove. induction o as [|[k' v] o IH]; [by destruct (String.eqb key k)|].
  rewrite filter_cons, object_get_cons. cbn [fst]. destruct (String.eqb_spec k' key) as [->|Hne].
  - rewrite decide_False by (by intros []). rewrite IH. by destruct (String.eqb key k).
  - rewrite decide_True by done. rewrite object_get_cons, IH.
    destruct (String.eqb_spec k' k) as [->|]; [|done].
    destruct (String.eqb_spec key k); [by subst|done].
Qed.

(** The loop that finds repeated names. *)
Definition names_step (s : gset string * gset string) (f : QField) : gset string * gset string :=
  let '(multiple, fields) := s in
  if bool_decide (qf_name f ∈ fields) then ({[qf_name f]} ∪ multiple, fields)
  else (multiple, {[qf_name f]} ∪ fields).

Lemma names_step_grows s f :
  s.1 ⊆ (names_step s f).1 /\ s.2 ⊆ (names_step s f).2 /\ qf_name f ∈ (names_step s f).2
  /\ (qf_name f ∈ s.2 -> qf_name f ∈ (names_step s f).1).
Proof. destruct s as [m fs]. unfold names_step. case_bool_decide; cbn [fst snd]; set_solver. Qed.

Lemma names_loop_grows l s : s.1 ⊆ (foldl names_step s l).1 /\ s.2 ⊆ (foldl names_step s l).2.
Proof.
  revert s. induction l as [|f l IH]; intros s; [done|]. cbn [foldl].
  destruct (IH (names_step s f)) as [? ?]. destruct (names_step_grows s f) as (? & ? & _). set_solver.
Qed.

Lemma names_loop_repeated l1 f l2 g l3 s :
  qf_name f = qf_name g -> qf_name f ∈ (foldl names_step s (l1 ++ f :: l2 ++ g :: l3)).1.
Proof.
  intros Hn. rewrite foldl_app. cbn [foldl]. rewrite foldl_app. cbn [foldl].
  set (s1 := foldl names_step s l1). set (s2 := names_step s1 f). set (s3 := foldl names_step s2 l2).
  apply (proj1 (names_loop_grows l3 (names_step s3 g))).
  destruct (names_step_grows s3 g) as (_ & _ & _ & H). rewrite Hn. apply H. rewrite <- Hn.
  apply (proj2 (names_loop_grows l2 s2)). by destruct (names_step_grows s1 f) as (_ & _ & H' & _).
Qed.

(** Of two groups whose first fields have the same name, the name is known to
    come more than once. *)
Lemma repeated_name g1 k1 f1 fs1 g2 k2 f2 fs2 g3 :
  qf_name f1 = qf_name f2 ->
  qf_name f1 ∈ multiple_response_keys
                 (g1 ++ (k1, f1 :: fs1) :: g2 ++ (k2, f2 :: fs2) :: g3).
Proof.
  intros Hn. unfold multiple_response_keys.
  change (fun (s : gset string * gset string) (f : QField) =>
            let '(multiple, fields) := s in
            if bool_decide (qf_name f ∈ fields) then ({[qf_name f]} ∪ multiple, fields)
            else (multiple, {[qf_name f]} ∪ fields)) with names_step.
  rewrite fmap_app, join_app, fmap_cons, fmap_app, fmap_cons. cbn [snd].
  change (mjoin ((f1 :: fs1) :: (g2.*2 ++ (f2 :: fs2) :: g3.*2)))
    with (f1 :: fs1 ++ mjoin (g2.*2 ++ (f2 :: fs2) :: g3.*2)).
  rewrite join_app. change (mjoin ((f2 :: fs2) :: g3.*2)) with (f2 :: fs2 ++ mjoin g3.*2).
  rewrite (app_assoc fs1). by apply names_loop_repeated.
Qed.

(** What a group is to get: the value prefetched for its response key, else
    the attribute of its name. *)
Definition expected_value (o : Object) (group : string * list QField) : option qvalue :=
  match object_get o ("prefetch:" +:+ group.1) with
  | Some v => Some v
  | None => match group.2 with f :: _ => object_get o (qf_name f) | [] => None end
  end.

(** Taking the value of a group keeps those of the groups after it. *)
Lemma take_expected before key f fs groups o :
  key ∉ groups.*1 ->
  (forall k fields f', (k, fields) ∈ before ++ (key, f :: fs) :: groups -> f' ∈ fields ->
     String.prefix "prefetch:" (qf_name f') = false) ->
  let multiple := multiple_response_keys (before ++ (key, f :: fs) :: groups) in
  exists o', take_field_value multiple key (qf_name f) (Some o) = (expected_value o (key, f :: fs), Some o')
    /\ forall g, g ∈ groups -> expected_value o' g = expected_value o g.
Proof.
  intros Hkey Hp multiple.
  assert (Hhead : (take_field_value multiple key (qf_name f) (Some o)).1 = expected_value o (key, f :: fs)).
  { unfold take_field_value, expected_value. cbn [fst snd].
    destruct (object_get o _); [done|]. by case_bool_decide. }
  assert (Hrest : exists o', (take_field_value multiple key (qf_name f) (Some o)).2 = Some o'
            /\ forall g, g ∈ groups -> expected_value o' g = expected_value o g).
  { assert (Hpf : String.prefix "prefetch:" (qf_name f) = false).
    { apply (Hp key (f :: fs)); [|left]. apply elem_of_app. right. left. }
    assert (Hpre : forall x y, "prefetch:" +:+ x = y -> String.prefix "prefetch:" y = true).
    { intros x y <-. simpl. by destruct x. }
    assert (Hinj : forall x y, "prefetch:" +:+ x = "prefetch:" +:+ y -> x = y).
    { intros x y H. by simplify_eq. }
    assert (Hk : forall g, g ∈ groups -> g.1 <> key).
    { intros g Hg <-. apply Hkey. by apply list_elem_of_fmap_2. }
    assert (Hpn : forall g f', g ∈ groups -> f' ∈ g.2 ->
              String.prefix "prefetch:" (qf_name f') = false).
    { intros [k fs'] f' Hg Hf'. apply (Hp k fs'); [|done]. apply elem_of_app. right. by right. }
    unfold take_field_value. destruct (object_get o ("prefetch:" +:+ key)).
    - eexists. split; [done|]. intros [k fs'] Hg. specialize (Hk _ Hg). cbn [fst] in Hk.
      unfold expected_value. cbn [fst snd]. rewrite object_get_remove.
      destruct (String.eqb_spec ("prefetch:" +:+ key) ("prefetch:" +:+ k)) as [E|_];
        [by apply Hinj in E|].
      destruct fs' as [|f' fs']; [done|]. rewrite object_get_remove.
      destruct (String.eqb_spec ("prefetch:" +:+ key) (qf_name f')) as [E|_]; [|done].
      apply Hpre in E. by rewrite (Hpn _ f' Hg ltac:(left)) in E.
    - case_bool_decide as Hm; (eexists; split; [done|]); [done|].
      intros [k fs'] Hg. unfold expected_value. cbn [fst snd]. rewrite object_get_remove.
      destruct (String.eqb_spec (qf_name f) ("prefetch:" +:+ k)) as [E|_].
      { symmetry in E. apply Hpre in E. by rewrite Hpf in E. }
      destruct fs' as [|f' fs']; [done|]. rewrite object_get_remove.
      destruct (String.eqb_spec (qf_name f) (qf_name f')) as [E|_]; [|done].
      exfalso. apply Hm. apply list_elem_of_split in Hg as (g2 & g3 & ->).
      subst multiple. by apply repeated_name. }
  destruct Hrest as (o' & Ho' & Hkeep). exists o'. split; [|done].
  destruct (take_field_value multiple key (qf_name f) (Some o)) as [v o'']. cbn [fst snd] in *. by subst.
Qed.

(** *** Executing without moving values *)
Section each.
Context (float_to_string : spec_float -> string) {R : Resolver} (q : Query) (expired : nat -> bool) (afuel : nat).
Context (execute : list SelectionSet -> ObjectType -> option qvalue -> M qvalue) (object_type : ObjectType).
Context (value_of : string * list QField -> option qvalue).

(** The groups one after the other, each with the value it is to get; the errors
    and the result so far. *)
Fixpoint execute_each (groups : GroupedFields) (errors : list QueryExecutionError) (result : Object)
  : M (list QueryExecutionError * Object) :=
  match groups with
  | [] => mret (errors, result)
  | (response_key, fields) :: groups => fun t =>
      if expired t then (Ok (errors ++ [QTimeout], result), S t)
      else
        match fields with
        | [] => (Panic, S t)
        | field :: _ =>
          match get_field (OIObject object_type) (qf_name field) with
          | None => (Panic, S t)
          | Some definition =>
            match execute_field float_to_string q afuel execute object_type (value_of (response_key, fields))
                    field definition fields (S t) with
            | (Ok v, t) => execute_each groups errors (object_insert response_key v result) t
            | (Err e, t) => execute_each groups (errors ++ e) result t
            | (Panic, t) => (Panic, t)
            end
          end
        end
  end.
End each.

Lemma groups_each float_to_string {R : Resolver} q expired afuel execute ot before groups o0 o errors result t :
  NoDup groups.*1 ->
  (forall key fields f, (key, fields) ∈ before ++ groups -> f ∈ fields ->
     String.prefix "prefetch:" (qf_name f) = false) ->
  (forall g, g ∈ groups -> expected_value o g = expected_value o0 g) ->
  mbind (execute_groups float_to_string q expired afuel execute ot (multiple_response_keys (before ++ groups))
           groups (mk_loop (Some o) errors result)) (fun s => mret (ls_errors s, ls_result s)) t
  = execute_each float_to_string q expired afuel execute ot (expected_value o0) groups errors result t.
Proof.
  revert before o errors result t. induction groups as [|[key fields] groups IH];
    intros before o errors result t Hnd Hp Ho; [done|].
  cbn [fmap list_fmap fst] in Hnd. apply NoDup_cons in Hnd as [Hkey Hnd].
  unfold mbind at 1. cbn [execute_groups execute_each ls_prefetched ls_errors ls_result].
  destruct (expired t); [done|]. destruct fields as [|f fs]; [done|].
  destruct (get_field (OIObject ot) (qf_name f)) as [definition|]; [|done].
  destruct (take_expected before key f fs groups o Hkey Hp) as (o' & -> & Hkeep).
  rewrite (Ho (key, f :: fs)) by left.
  assert (before ++ (key, f :: fs) :: groups = (before ++ [(key, f :: fs)]) ++ groups) as Heq
    by (by rewrite <- app_assoc).
  rewrite Heq in *.
  destruct (execute_field _ _ _ _ _ _ _ _ _ _) as [[v|e|] t1]; [| |done];
    (apply IH; [done|done|]; intros g Hg; rewrite Hkeep by done; apply Ho; by right).
Qed.

(** C7: What executing selection sets on an object type returns has the shape
    of the query: an object with exactly the response keys of the collected
    fields, each with a value of the type the schema gives its field - not null
    where the type forbids it, a list of such values, a scalar or enum value of
    the type, or again such an object. *)
Theorem results_have_query_shape float_to_string {R : Resolver} q expired cfuel afuel fuel sets ot
    prefetched t o t' :
  (forall field ty v, resolve_enum_values field ty v <> Err []) ->
  (forall field ty v, resolve_scalar_values field ty v <> Err []) ->
  execute_selection_set_to_map float_to_string q expired cfuel afuel fuel sets ot prefetched t
  = (Ok o, t') ->
  object_ok q cfuel ot sets o.
Proof. intros He Hs. by apply execute_map_sound. Qed.

(** C21: Executing a selection set moves prefetched values out of the object as
    it executes the groups of fields; none is moved that is still needed.  The
    result, the errors and the time are those of executing each group with the
    value the object held at first: the one prefetched for its response key, or
    else the attribute of its field's name, also where fields share a name.  (No
    name of a field begins with the prefix of prefetched values.) *)
Theorem prefetched_values_found float_to_string {R : Resolver} q expired cfuel afuel fuel sets ot o t :
  (forall groups key fields f, collect_fields q ot cfuel sets = Ok groups ->
     (key, fields) ∈ groups -> f ∈ fields -> String.prefix "prefetch:" (qf_name f) = false) ->
  execute_selection_set_to_map float_to_string q expired cfuel afuel (S fuel) sets ot (Some (QObject o)) t
  = mbind (mlift (lift_panic (collect_fields q ot cfuel sets))) (fun groups =>
    mbind (execute_each float_to_string q expired afuel
             (fun sets ot v =>
                mbind (execute_selection_set_to_map float_to_string q expired cfuel afuel fuel sets ot v)
                  (fun map => mret (QObject map)))
             ot (expected_value o) groups [] []) (fun '(errors, result) =>
    match errors with [] => mret result | _ => mlift (Err errors) end)) t.
Proof.
  intros Hp. cbn [execute_selection_set_to_map].
  generalize (fun sets ot v => mbind (execute_selection_set_to_map float_to_string q expired cfuel afuel fuel sets ot v)
                (fun map => mret (QObject map))) as execute.
  intros execute. destruct (collect_fields q ot cfuel sets) as [groups|[]|] eqn:Hc; [|done].
  pose proof (collect_fields_ok _ _ _ _ _ Hc) as [Hnd _].
  pose proof (groups_each float_to_string q expired afuel execute ot [] groups o o [] [] t Hnd) as Hg.
  specialize (Hg (fun key fields f => Hp groups key fields f eq_refl) (fun g _ => eq_refl)).
  unfold mbind, mlift, lift_panic in *. cbn [map_err app] in *. rewrite <- Hg.
  destruct (execute_groups _ _ _ _ _ _ _ _ _ _) as [[s|e|] t1]; [|done..].
  unfold mret at 2. by destruct (ls_errors s).
Qed.

Module Witness.
Definition p0 : Pos := mk_Pos 0 0.
Definition leaf (alias : option string) (name : string) : Selection :=
    SField (mk_qfield p0 alias name [] [] []).
Definition Pet : InterfaceType :=
    mk_interface_type "Pet" [] [mk_field "id" [] (NonNullType (NamedType "ID")) []].
Definition Cat : ObjectType :=
    mk_object_type "Cat" ["Pet"] []
      [mk_field "id" [] (NonNullType (NamedType "ID")) [];
       mk_field "tags" [] (ListType (NonNullType (NamedType "Color"))) [];
       mk_field "mother" [] (NamedType "Cat") []].
Definition Root : ObjectType :=
    mk_object_type "Query" [] [] [mk_field "pets" [] (NonNullType (ListType (NamedType "Pet"))) []].
Definition schema : Document :=
    [TypeDef (TDScalar (mk_scalar_type "ID" [])); TypeDef (TDEnum (mk_enum_type "Color" [] ["red"; "blue"]));
     TypeDef (TDInterface Pet); TypeDef (TDObject Cat); TypeDef (TDObject Root)].
(** A fragment that spreads itself. *)
Definition Own : FragmentDefinition :=
    mk_fragment "Own" "Cat" [leaf None "tags"; SSpread "Own" []].
Definition cats : Selection :=
    SField (mk_qfield p0 (Some "cats") "pets" [] [] [leaf None "id"; leaf (Some "again") "id";
      SSpread "Own" []; SInline (Some "Cat") []
        [SField (mk_qfield p0 None "mother" [] [] [leaf None "id"])]]).
Definition query : Query :=
    mk_query_struct "sub" schema ∅ [cats] None {["Own" := Own]} KQuery 0.

Definition tom : qvalue :=
    QObject [("__typename", QString "Cat"); ("id", QString "tom");
             ("prefetch:mother", QList [QObject [("__typename", QString "Cat"); ("id", QString "mia")]]);
             ("tags", QList [QString "red"])].
Definition resolver : Resolver :=
    StoreResolver (fun _ => Ok (QObject [("prefetch:cats", QList [tom])])).

Definition answer : Object :=
    [("cats", QList [QObject [("again", QString "tom"); ("id", QString "tom");
       ("mother", QObject [("id", QString "mia")]); ("tags", QList [QEnum "red"])]])].

Example executed :
    execute_root_selection_set_uncached (fun _ => "") resolver resolver query (fun _ => false)
      5 5 5 (q_selection_set query) Root 0 = (Ok answer, 6).
Proof. vm_compute. reflexivity. Qed.

Definition run : M Object :=
    execute_selection_set_to_map (R := resolver) (fun _ => "") query (fun _ => false) 5 5 5 [[cats]] Root
      (Some (QObject [("prefetch:cats", QList [tom])])).

Lemma results_have_query_shape_witness : exists t, run 0 = (Ok answer, t) /\ object_ok (R := resolver) query 5 Root [[cats]] answer.
Proof.
    exists 6. split; [vm_compute; reflexivity|].
    apply (results_have_query_shape (R := resolver) (fun _ => "") query (fun _ => false) 5 5 5 [[cats]] Root
      (Some (QObject [("prefetch:cats", QList [tom])])) 0 answer 6); [done|done|].
    vm_compute. reflexivity.
Defined.

Lemma collecting_fields_ends_witness :
    exists n groups, groups_ok groups /\
      forall fuel, n <= fuel -> collect_fields query Cat fuel [fr_selection_set Own] = Ok groups.
Proof.
    apply collecting_fields_ends.
    - intros name f Hf. cbn in Hf. apply lookup_singleton_Some in Hf as [<- <-].
      intros s n [->|[->|[]%elem_of_nil]%elem_of_cons]%elem_of_cons Hn; [by apply elem_of_nil in Hn|].
      apply list_elem_of_singleton in Hn as ->. by exists Own.
    - constructor; [|constructor]. intros s n [->|[->|[]%elem_of_nil]%elem_of_cons]%elem_of_cons Hn;
        [by apply elem_of_nil in Hn|]. apply list_elem_of_singleton in Hn as ->. by exists Own.
Defined.

Definition tom_sets : list SelectionSet := [[leaf None "id"; leaf (Some "again") "id"]].

Lemma prefetched_values_found_witness :
    execute_selection_set_to_map (R := resolver) (fun _ => "") query (fun _ => false) 5 5 5 tom_sets Cat
      (Some (QObject [("id", QString "tom")])) 0
    = (Ok [("again", QString "tom"); ("id", QString "tom")], 2).
Proof.
    etrans; [apply prefetched_values_found|vm_compute; reflexivity].
    intros groups key fields f [= <-] Hg Hf.
    apply elem_of_cons in Hg as [[= -> ->]|Hg]; [by apply list_elem_of_singleton in Hf as ->|].
    apply list_elem_of_singleton in Hg as [= -> ->]. by apply list_elem_of_singleton in Hf as ->.
Defined.
End Witness.
