(* ===== verification/Prefetch.v ===== *)
(** * Prefetching

    Models [graphql/src/store/prefetch.rs]: before a query is executed all
    entities it needs are fetched, with one query to the store for each
    response key and level, and hung below their parents.

    Nodes are shared by [Rc] only to avoid copies: they are not changed once
    they are children, so here they are values.  [sort_unstable_by] may order
    entries with equal ids as it likes: it is an argument of [windows], of which
    the theorems ask that it sorts.  The store is the class [QueryStore]. *)

From stdpp Require Import prelude list strings gmap sorting.
From Stdlib Require Import ZArith Lia Floats.SpecFloat.
From S2P Require Import Prelude.
From S2P Require Import GraphqlTypes.
From S2P Require Import StoreValue.
From S2P Require Import StoreQuery.
From S2P Require Import GraphqlSchema.
From S2P Require Import Coercion.
From S2P Require Import GraphqlQuery.
From S2P Require Import QueryBuild.
From S2P Require Import Execution.

#[local] Open Scope string_scope.
#[local] Open Scope list_scope.

(** ** Nodes *)
Inductive Node := mk_node (entity : Object) (children : list (string * list Node)).

Definition nd_entity '(mk_node entity _) : Object := entity.
Definition nd_children '(mk_node _ children) : list (string * list Node) := children.

(** [BTreeMap::insert] and [get] on the bindings in key order. *)
Fixpoint btree_insert {A} (key : string) (v : A) (m : list (string * A)) : list (string * A) :=
  match m with
  | [] => [(key, v)]
  | (k, w) :: m =>
      match String.compare key k with
      | Lt => (key, v) :: (k, w) :: m
      | Eq => (key, v) :: m
      | Gt => (k, w) :: btree_insert key v m
      end
  end.

Fixpoint btree_get {A} (key : string) (m : list (string * A)) : option A :=
  match m with
  | [] => None
  | (k, v) :: m => if String.eqb k key then Some v else btree_get key m
  end.

Definition node_from (entity : Object) : Node := mk_node entity [].

(** [From<Node> for q::Value] with [node_list_as_value] *)
Fixpoint node_to_value (node : Node) : qvalue :=
  match node with
  | mk_node entity children =>
      QObject
        ((fix go (children : list (string * list Node)) (map : Object) : Object :=
            match children with
            | [] => map
            | (key, nodes) :: children =>
                go children
                  (object_insert ("prefetch:" +:+ key) (QList (List.map node_to_value nodes)) map)
            end) children entity)
  end.

Definition node_list_as_value (nodes : list Node) : qvalue := QList (node_to_value <$> nodes).

Definition is_root_node (nodes : list Node) : bool :=
  match nodes with
  | node :: _ => match nd_entity node with [] => true | _ => false end
  | [] => false
  end.

Definition make_root_node : list Node := [mk_node [] []].

Definition as_str (v : qvalue) : option string :=
  match v with QString s => Some s | _ => None end.

Definition node_get (node : Node) (key : string) : option qvalue := object_get (nd_entity node) key.

Definition node_id (node : Node) : res string string :=
  match node_get node "id" with
  | None => Err "Entity is missing an `id` attribute"
  | Some (QString s) => Ok s
  | _ => Err "Entity has non-string `id` attribute"
  end.

Definition typename (node : Node) : res Empty_set string :=
  let? v := unwrap (node_get node "__typename") in unwrap (as_str v).

(** ** Joins *)
Inductive JoinField := JList (name : string) | JScalar (name : string).

Definition join_field_new (field : Field) : JoinField :=
  if is_list_or_non_null_list_field field then JList (fd_name field) else JScalar (fd_name field).

Definition window_attribute (f : JoinField) : WindowAttribute :=
  match f with JScalar name => WScalar name | JList name => WList name end.

Inductive JoinRelation :=
| RDirect (f : JoinField)
| RDerived (f : JoinField).

Record JoinCond := mk_join_cond {
  jc_parent_type : string;
  jc_child_type : string;
  jc_relation : JoinRelation;
}.

Definition join_cond_new (parent_type child_type : ObjectType) (field_name : string)
  : res Empty_set JoinCond :=
  let? field := unwrap (oi_field (OIObject parent_type) field_name) in
  let relation :=
    match get_derived_from_field (OIObject child_type) field with
    | Some derived_from_field => RDirect (join_field_new derived_from_field)
    | None => RDerived (join_field_new field)
    end in
  Ok (mk_join_cond (ot_name parent_type) (ot_name child_type) relation).

(** The ids in a list of values, if there are any. *)
Definition string_ids (v : qvalue) : option (list string) :=
  match v with
  | QList values => match omap as_str values with [] => None | ids => Some ids end
  | _ => None
  end.

Definition entity_link (cond : JoinCond) (parents_by_id : list (string * Node))
    (multiplicity : ChildMultiplicity) : list string * EntityLink :=
  match jc_relation cond with
  | RDirect field => (parents_by_id.*1, Direct (window_attribute field) multiplicity)
  | RDerived (JScalar child_field) =>
      let links := omap (fun '(id, node) =>
        value ← node_get node child_field; child_id ← as_str value; Some (id, child_id))
        parents_by_id in
      (links.*1, Parent (PScalar links.*2))
  | RDerived (JList child_field) =>
      let links := omap (fun '(id, node) =>
        value ← node_get node child_field; child_ids ← string_ids value; Some (id, child_ids))
        parents_by_id in
      (links.*1, Parent (PList links.*2))
  end.

Record Join := mk_join { j_child_type : ObjectOrInterface; j_conds : list JoinCond }.

Definition join_new (types_for_interface : TypesForInterface)
    (parent_type child_type : ObjectOrInterface) (field_name : string) : res Empty_set Join :=
  let? parent_types := unwrap (oi_object_types types_for_interface parent_type) in
  let? child_types := unwrap (oi_object_types types_for_interface child_type) in
  let? conds := map_res (fun parent_type =>
                  map_res (fun child_type => join_cond_new parent_type child_type field_name)
                    child_types) parent_types in
  Ok (mk_join child_type (mjoin conds)).

(** *** Hanging children below their parents *)
Definition set_children (response_key : string) (nodes : list Node) (parent : Node) : Node :=
  mk_node (nd_entity parent) (btree_insert response_key nodes (nd_children parent)).

Definition group_child (grouped : gmap string (list Node)) (child : Node)
  : res Empty_set (gmap string (list Node)) :=
  match node_get child "g$parent_id" with
  | Some (QString key) => Ok (<[key := default [] (grouped !! key) ++ [child]]> grouped)
  | _ => Panic
  end.

Definition group_children (children : list Node) : res Empty_set (gmap string (list Node)) :=
  fold_res group_child ∅ children.

Definition perform (parents children : list Node) (response_key : string)
  : res Empty_set (list Node) :=
  match parents with
  | [parent] => Ok [set_children response_key children parent]
  | _ =>
      let? grouped := group_children children in
      Ok ((fun parent =>
             let values := match node_id parent with Ok id => grouped !! id | _ => None end in
             set_children response_key (default [] values) parent) <$> parents)
  end.

(** *** Windows *)

(** [dedup_by] on the ids: the first of neighbours with the same id stays. *)
Fixpoint dedup_from (id : string) (l : list (string * Node)) : list (string * Node) :=
  match l with
  | [] => []
  | (id', node) :: l =>
      if String.eqb id id' then dedup_from id l else (id', node) :: dedup_from id' l
  end.

Definition dedup_ids (l : list (string * Node)) : list (string * Node) :=
  match l with [] => [] | (id, node) :: l => (id, node) :: dedup_from id l end.

Definition parents_of_type (cond : JoinCond) (parents : list Node)
  : res Empty_set (list (string * Node)) :=
  let? of_type := filter_res (fun parent =>
                    let? t := typename parent in Ok (String.eqb t (jc_parent_type cond))) parents in
  Ok (omap (fun parent => match node_id parent with Ok id => Some (id, parent) | _ => None end)
        of_type).

Section windows.
Context (sort_unstable : list (string * Node) -> list (string * Node)).

Definition add_window (parents : list Node) (multiplicity : ChildMultiplicity)
    (windows : list EntityWindow) (cond : JoinCond) : res Empty_set (list EntityWindow) :=
  let? parents_by_id := parents_of_type cond parents in
  match parents_by_id with
  | [] => Ok windows
  | _ =>
      let parents_by_id := dedup_ids (sort_unstable parents_by_id) in
      let '(ids, link) := entity_link cond parents_by_id multiplicity in
      Ok (windows ++ [mk_window (jc_child_type cond) ids link])
  end.

Definition windows (join : Join) (parents : list Node) (multiplicity : ChildMultiplicity)
  : res Empty_set (list EntityWindow) :=
  fold_res (add_window parents multiplicity) [] (j_conds join).
End windows.

(** ** Collecting fields by type *)
Record CollectedResponseKey := mk_collected {
  cr_iface_cond : option InterfaceType;
  cr_iface_fields : list QField;
  cr_obj_types : list (ObjectType * list QField);
}.

Definition collected_default : CollectedResponseKey := mk_collected None [] [].

(** Object conditions are equal when their names are. *)
Fixpoint push_object (o : ObjectType) (field : QField) (l : list (ObjectType * list QField))
  : list (ObjectType * list QField) :=
  match l with
  | [] => [(o, [field])]
  | (o', fields) :: l =>
      if String.eqb (ot_name o') (ot_name o) then (o', fields ++ [field]) :: l
      else (o', fields) :: push_object o field l
  end.

Definition collect_field (type_condition : ObjectOrInterface) (field : QField)
    (c : CollectedResponseKey) : res Empty_set CollectedResponseKey :=
  match type_condition with
  | OIInterface i =>
      if match cr_iface_cond c with
         | None => true
         | Some x => String.eqb (it_name x) (it_name i)
         end
      then Ok (mk_collected (Some i) (cr_iface_fields c ++ [field]) (cr_obj_types c))
      else Panic
  | OIObject o =>
      Ok (mk_collected (cr_iface_cond c) (cr_iface_fields c) (push_object o field (cr_obj_types c)))
  end.

(** [into_iter] *)
Definition entries (c : CollectedResponseKey) : list (ObjectOrInterface * list QField) :=
  match cr_iface_cond c with Some cond => [(OIInterface cond, cr_iface_fields c)] | None => [] end
  ++ ((fun '(o, fields) => (OIObject o, fields)) <$> cr_obj_types c).

Abbreviation Collected := (list (string * CollectedResponseKey)).

(** [output.entry(response_key).or_default().collect_field(type_condition, field)] *)
Fixpoint collect_entry (response_key : string) (type_condition : ObjectOrInterface)
    (field : QField) (output : Collected) : res Empty_set Collected :=
  match output with
  | [] => let? c := collect_field type_condition field collected_default in Ok [(response_key, c)]
  | (key, c) :: output =>
      if String.eqb key response_key then
        let? c := collect_field type_condition field c in Ok ((key, c) :: output)
      else
        let? output := collect_entry response_key type_condition field output in
        Ok ((key, c) :: output)
  end.

Definition is_reference_field (schema : Document) (object_type : ObjectOrInterface)
    (field : QField) : bool :=
  match (field_def ← oi_field object_type (qf_name field);
         get_type_definition_from_field schema field_def) with
  | Some (TDInterface _) | Some (TDObject _) => true
  | _ => false
  end.

Section collect.
Context (q : Query) (types_for_interface : TypesForInterface).
Notation schema := (q_schema q).

Abbreviation CollectState := (gset string * Collected)%type.

Definition collect_fragment
    (collect : ObjectOrInterface -> SelectionSet -> CollectState -> res Empty_set CollectState)
    (outer_type_condition : ObjectOrInterface) (frag_ty_condition : option string)
    (frag_selection_set : SelectionSet) (s : CollectState) : res Empty_set CollectState :=
  let? fragment_ty :=
    match frag_ty_condition with
    | Some ty_name =>
        if is_interface outer_type_condition then unwrap (object_or_interface schema ty_name)
        else Ok outer_type_condition
    | None => Ok outer_type_condition
    end in
  let redundant_condition := String.eqb (oi_name fragment_ty) (oi_name outer_type_condition) in
  if redundant_condition || is_object fragment_ty then collect fragment_ty frag_selection_set s
  else
    let? root_tys := unwrap (types_for_interface !! oi_name outer_type_condition) in
    let? fragment_tys := unwrap (types_for_interface !! oi_name fragment_ty) in
    let intersection_tys :=
      filter (fun root_ty => existsb (fun t => String.eqb (ot_name t) (ot_name root_ty)) fragment_tys)
        root_tys in
    fold_res (fun s ty => collect (OIObject ty) frag_selection_set s) s intersection_tys.

(** One selection; [collect] is the recursive call. *)
Definition collect_selection
    (collect : ObjectOrInterface -> SelectionSet -> CollectState -> res Empty_set CollectState)
    (type_condition : ObjectOrInterface) (s : CollectState) (selection : Selection)
  : res Empty_set CollectState :=
  let '(visited_fragments, output) := s in
  if negb (included (q_variables q) selection) then Ok s
  else match selection with
  | SField field =>
      if is_reference_field schema type_condition field then
        let? output := collect_entry (get_response_key field) type_condition field output in
        Ok (visited_fragments, output)
      else Ok s
  | SSpread fragment_name _ =>
      if bool_decide (fragment_name ∈ visited_fragments) then Ok s
      else
        let visited_fragments := {[fragment_name]} ∪ visited_fragments in
        let? fragment := get_fragment q fragment_name in
        collect_fragment collect type_condition (Some (fr_type_condition fragment))
          (fr_selection_set fragment) (visited_fragments, output)
  | SInline type_cond _ set => collect_fragment collect type_condition type_cond set s
  end.

Fixpoint collect_fields_inner (fuel : nat) (type_condition : ObjectOrInterface)
    (selection_set : SelectionSet) (s : CollectState) : res Empty_set CollectState :=
  match fuel with
  | O => Panic
  | S fuel => fold_res (collect_selection (collect_fields_inner fuel) type_condition) s selection_set
  end.

(** Interface fields are also selected on the object types. *)
Definition merge_iface_fields (c : CollectedResponseKey) : CollectedResponseKey :=
  mk_collected (cr_iface_cond c) (cr_iface_fields c)
    ((fun '(o, fields) => (o, fields ++ cr_iface_fields c)) <$> cr_obj_types c).

Definition collect_fields (fuel : nat) (parent_ty : ObjectOrInterface)
    (selection_sets : list SelectionSet) : res Empty_set Collected :=
  let? grouped_fields := fold_res (fun output selection_set =>
    res_map snd (collect_fields_inner fuel parent_ty selection_set (∅, output)))
    [] selection_sets in
  Ok (prod_map id merge_iface_fields <$> grouped_fields).
End collect.

(** ** Fetching *)
Class QueryStore := { find_query_values : EntityQuery -> qres (list Object) }.

Section prefetch.
Context {ST : ScalarText} {QS : QueryStore}.
Context (normalize : BigDecimal -> BigDecimal) (float_to_string : spec_float -> string).
Context (sort_unstable : list (string * Node) -> list (string * Node)).
Context (q : Query) (types_for_interface : TypesForInterface).
(** The block of the resolver and the limits of the execution context. *)
Context (block max_first max_skip : Z).
(** Has the deadline passed, when asked for the n-th time? *)
Context (expired : nat -> bool).
(** The fuel for collecting fields and for coercing arguments. *)
Context (cfuel afuel : nat).
Notation schema := (q_schema q).

Definition fetch (parents : list Node) (join : Join) (arguments : Variables)
    (multiplicity : ChildMultiplicity) : qres (list Node) :=
  let? query :=
    build_query normalize (j_child_type join) block arguments types_for_interface max_first max_skip in
  let query :=
    match multiplicity with Single => query_order query Unordered | Many => query end in
  let query :=
    match arguments !! "id" with
    | Some (QString id) =>
        query_filter query (and_maybe (FEqual "id" (VString id)) (eq_filter query))
    | _ => query
    end in
  let restrict collection :=
    mk_query (eq_subgraph_id query) (eq_block query) collection (eq_filter query) (eq_order query)
      (eq_range query) in
  let find query := res_map (fmap node_from) (find_query_values query) in
  if is_root_node parents then find query
  else
    let? windows := lift_panic (windows sort_unstable join parents multiplicity) in
    match windows with
    | [] => Ok []
    | _ => find (restrict (Window windows))
    end.

Definition execute_field (object_type : ObjectOrInterface) (parents : list Node) (join : Join)
    (field : QField) (field_definition : Field) : res (list QueryExecutionError) (list Node) :=
  let run object_type :=
    let? argument_values :=
      coerce_argument_values float_to_string schema afuel (q_variables q) object_type
        (qf_name field) (qf_arguments field) in
    let multiplicity :=
      if is_list_or_non_null_list_field field_definition then Many else Single in
    map_err (fun e => [e]) (fetch parents join argument_values multiplicity) in
  match object_type with
  | OIObject object_type => run object_type
  | OIInterface interface_type =>
      let? types := unwrap (types_for_interface !! it_name interface_type) in
      match types with
      | object_type :: _ => run object_type
      | [] => Ok []
      end
  end.

(** Put changed nodes back in the places they were selected from. *)
Fixpoint put_back (selected : list bool) (changed : list Node) (nodes : list Node) : list Node :=
  match selected, nodes with
  | true :: selected, _ :: nodes =>
      match changed with
      | node :: changed => node :: put_back selected changed nodes
      | [] => nodes
      end
  | false :: selected, node :: nodes => node :: put_back selected changed nodes
  | _, _ => nodes
  end.

Definition select (selected : list bool) (nodes : list Node) : list Node :=
  omap (fun '(b, node) => if b : bool then Some node else None) (zip selected nodes).

Section entries.
Context (execute : list Node -> Collected -> M (list Node)).

(** What the loops keep: the parents and the errors. *)
Abbreviation LoopState := (list Node * list QueryExecutionError)%type.

(** Which parents match the type condition. *)
Definition matching (type_cond : ObjectOrInterface) (parents : list Node)
  : res Empty_set (list bool) :=
  if is_root_node parents then Ok ((fun _ => true) <$> parents)
  else map_res (fun p => let? t := typename p in oi_matches types_for_interface type_cond t) parents.

(** The children for one type condition of a response key, hung below those
    nodes it applies to. *)
Definition fetch_entry (response_key : string) (type_cond : ObjectOrInterface)
    (fields : list QField) (selected : list bool) (s : LoopState) : M LoopState :=
  let '(nodes, errors) := s in
  let parents := select selected nodes in
  mbind (mlift (unwrap (head fields))) (fun field0 =>
  mbind (mlift (unwrap (oi_field type_cond (qf_name field0)))) (fun field =>
  mbind (mlift (unwrap (object_or_interface schema (get_base_type (fd_field_type field)))))
    (fun child_type =>
  mbind (mlift (lift_panic (join_new types_for_interface type_cond child_type (fd_name field))))
    (fun join =>
  mbind (mlift (lift_panic (collect_fields q types_for_interface cfuel child_type
                              (qf_selection_set <$> fields)))) (fun grouped_field_set =>
  fun t =>
    match execute_field type_cond parents join field0 field with
    | Ok children =>
        match execute children grouped_field_set t with
        | (Ok children, t) =>
            mbind (mlift (lift_panic (perform parents children response_key)))
              (fun parents => mret (put_back selected parents nodes, errors)) t
        | (Err e, t) => (Ok (nodes, errors ++ e), t)
        | (Panic, t) => (Panic, t)
        end
    | Err e => (Ok (nodes, errors ++ e), t)
    | Panic => (Panic, t)
    end))))).

Definition execute_entry (response_key : string) (entry : ObjectOrInterface * list QField)
    (s : LoopState) : M LoopState :=
  let '(type_cond, fields) := entry in
  mbind (mlift (lift_panic (matching type_cond s.1))) (fun selected =>
  match select selected s.1 with
  | [] => mret s
  | _ => fetch_entry response_key type_cond fields selected s
  end).

Fixpoint execute_entries (response_key : string) (l : list (ObjectOrInterface * list QField))
    (s : LoopState) : M LoopState :=
  match l with
  | [] => mret s
  | entry :: l =>
      mbind (execute_entry response_key entry s) (fun s => execute_entries response_key l s)
  end.

Fixpoint execute_keys (grouped_field_set : Collected) (s : LoopState) : M LoopState :=
  match grouped_field_set with
  | [] => mret s
  | (response_key, collected_fields) :: grouped_field_set =>
      fun t =>
        if expired t then (Ok (s.1, s.2 ++ [QTimeout]), S t)
        else mbind (execute_entries response_key (entries collected_fields) s)
               (fun s => execute_keys grouped_field_set s) (S t)
  end.
End entries.

Fixpoint execute_selection_set (fuel : nat) (parents : list Node) (grouped_field_set : Collected)
  : M (list Node) :=
  match fuel with
  | O => mlift Panic
  | S fuel =>
      mbind (execute_keys (execute_selection_set fuel) grouped_field_set (parents, []))
        (fun '(parents, errors) =>
           match errors with [] => mret parents | _ => mlift (Err errors) end)
  end.

Definition execute_root_selection_set (query_type : ObjectType) (fuel : nat)
    (selection_set : SelectionSet) : M (list Node) :=
  mbind (mlift (lift_panic (collect_fields q types_for_interface cfuel (OIObject query_type)
                              [selection_set]))) (fun grouped_field_set =>
  execute_selection_set fuel make_root_node grouped_field_set).

Definition run (query_type : ObjectType) (fuel : nat) (selection_set : SelectionSet) : M qvalue :=
  mbind (execute_root_selection_set query_type fuel selection_set) (fun nodes =>
  mret (QObject (foldl (fun map node =>
    foldl (fun map '(key, nodes) => object_insert ("prefetch:" +:+ key) (node_list_as_value nodes) map)
      map (nd_children node)) [] nodes))).
End prefetch.

(** ** What is proved: joins *)
Lemma btree_get_insert {A} key (v : A) m k :
  btree_get k (btree_insert key v m) = if String.eqb key k then Some v else btree_get k m.
Proof.
  induction m as [|[k' w] m IH]; cbn [btree_insert btree_get]; [done|].
  destruct (String.compare key k') eqn:E; cbn [btree_get]; [|done|].
  - apply String.compare_eq_iff in E as ->. by destruct (String.eqb k' k).
  - rewrite IH. destruct (String.eqb_spec k' k) as [->|]; [|done].
    destruct (String.eqb_spec key k) as [->|]; [|done].
    pose proof (String.compare_antisym k k) as H. by rewrite E in H.
Qed.

Lemma set_children_get key nodes parent k :
  btree_get k (nd_children (set_children key nodes parent))
  = if String.eqb key k then Some nodes else btree_get k (nd_children parent).
Proof. apply btree_get_insert. Qed.

(** The id of the parent a child was fetched for, as the store says. *)
Definition parent_id (child : Node) : option string := v ← node_get child "g$parent_id"; as_str v.

Lemma group_children_from g children :
  (forall c, c ∈ children -> is_Some (parent_id c)) ->
  exists g', fold_res group_child g children = Ok g'
    /\ forall id, default [] (g' !! id)
         = default [] (g !! id) ++ filter (fun c => parent_id c = Some id) children.
Proof.
  revert g. induction children as [|c children IH]; intros g Hc.
  { exists g. split; [done|]. intros id. by rewrite filter_nil, app_nil_r. }
  rewrite fold_res_cons. unfold group_child at 1.
  destruct (Hc c ltac:(left)) as [key Ek]. unfold parent_id in Ek.
  destruct (node_get c "g$parent_id") as [[]|] eqn:En; try done. injection Ek as ->.
  cbn [res_bind].
  destruct (IH (<[key := default [] (g !! key) ++ [c]]> g)) as (g' & -> & Hg').
  { intros c' Hc'. apply Hc. by right. }
  exists g'. split; [done|]. intros id. rewrite Hg', filter_cons.
  assert (parent_id c = Some key) as Ep by (unfold parent_id; by rewrite En).
  destruct (decide (id = key)) as [->|Hne].
  - rewrite lookup_insert_eq, decide_True by done. cbn [default from_option id]. by rewrite <- app_assoc.
  - rewrite lookup_insert_ne, decide_False by congruence. done.
Qed.

Lemma group_children_spec children :
  (forall c, c ∈ children -> is_Some (parent_id c)) ->
  exists g, group_children children = Ok g
    /\ forall id, default [] (g !! id) = filter (fun c => parent_id c = Some id) children.
Proof.
  intros Hc. destruct (group_children_from ∅ children Hc) as (g & E & Hg).
  exists g. split; [done|]. intros id. by rewrite Hg, lookup_empty.
Qed.

(** The children that belong to a parent. *)
Definition children_of (parent : Node) (children : list Node) : list Node :=
  match node_id parent with
  | Ok id => filter (fun c => parent_id c = Some id) children
  | _ => []
  end.

(** When every child was fetched for one of the parents, hanging the
    children below them gives each parent exactly its own, in the order in
    which the store returned them, under the response key, and changes nothing
    else; so no child is lost, also when there is only one parent. *)
Lemma perform_distributes parents children key :
  (forall c, c ∈ children -> exists p id, p ∈ parents /\ node_id p = Ok id /\ parent_id c = Some id) ->
  exists parents', perform parents children key = Ok parents'
    /\ Forall2 (fun p p' => nd_entity p' = nd_entity p
                  /\ btree_get key (nd_children p') = Some (children_of p children)
                  /\ forall k, k <> key -> btree_get k (nd_children p') = btree_get k (nd_children p))
         parents parents'
    /\ forall c, c ∈ children -> exists p, p ∈ parents /\ c ∈ children_of p children.
Proof.
  intros Hc.
  assert (perform parents children key
          = Ok ((fun p => set_children key (children_of p children) p) <$> parents)) as ->.
  { destruct (decide (length parents = 1)) as [L|L].
    - destruct parents as [|p [|]]; try done. cbn [perform fmap list_fmap]. do 2 f_equal.
      unfold children_of. destruct children as [|c children].
      { by destruct (node_id p). }
      destruct (Hc c ltac:(left)) as (p' & id & ->%list_elem_of_singleton & Ei & _).
      rewrite Ei. symmetry. f_equal. apply filter_all. intros c' Hc'.
      destruct (Hc c' Hc') as (p1 & id1 & ->%list_elem_of_singleton & E1 & E2). congruence.
    - destruct (group_children_spec children) as (g & Eg & Hg).
      { intros c (p & id & _ & _ & ->)%Hc. done. }
      assert (perform parents children key = let? grouped := group_children children in
        Ok ((fun parent =>
               let values := match node_id parent with Ok id => grouped !! id | _ => None end in
               set_children key (default [] values) parent) <$> parents)) as ->
        by (by destruct parents as [|? [|]]).
      rewrite Eg. cbn [res_bind]. f_equal. apply list_fmap_ext. intros i p _. cbv zeta.
      f_equal. unfold children_of. destruct (node_id p) as [id| |]; [apply Hg|done..]. }
  eexists. split; [done|]. split.
  - apply Forall2_fmap_r, Forall_Forall2_diag, Forall_forall. intros p _. split; [done|].
    rewrite set_children_get, String.eqb_refl. split; [done|]. intros k Hk.
    rewrite set_children_get. by destruct (String.eqb_spec key k).
  - intros c Hin. destruct (Hc c Hin) as (p & id & Hp & Ei & Ep). exists p. split; [done|].
    unfold children_of. rewrite Ei. by apply list_elem_of_filter.
Qed.

(** *** Windows *)

(** A parent of the type a condition is about, with its id. *)
Definition of_type (cond : JoinCond) (parents : list Node) (id : string) (node : Node) : Prop :=
  node ∈ parents /\ typename node = Ok (jc_parent_type cond) /\ node_id node = Ok id.

Lemma parents_of_type_spec cond parents l :
  parents_of_type cond parents = Ok l ->
  forall id node, (id, node) ∈ l <-> of_type cond parents id node.
Proof.
  unfold parents_of_type, of_type. intros H id node. res_inv.
  rewrite list_elem_of_omap. split.
  - intros (p & Hp & Ep). apply (filter_res_elem _ _ _ p E) in Hp as [Hp Et]. res_inv.
    destruct (node_id p) eqn:Ei; try done. injection Ep as -> ->.
    apply String.eqb_eq in Et. by subst.
  - intros (Hn & Et & Ei). exists node. rewrite Ei. split; [|done].
    apply (filter_res_elem _ _ _ node E). split; [done|]. rewrite Et. cbn. by rewrite String.eqb_refl.
Qed.

Lemma dedup_from_spec id l :
  StronglySorted String.le (id :: l.*1) ->
  StronglySorted String.le (id :: (dedup_from id l).*1) /\ NoDup (id :: (dedup_from id l).*1)
  /\ (forall x, x ∈ dedup_from id l -> x ∈ l)
  /\ forall x, x ∈ l.*1 -> x = id \/ x ∈ (dedup_from id l).*1.
Proof.
  revert id. induction l as [|[id' node] l IH]; intros id S; cbn [dedup_from fmap list_fmap fst].
  { split; [done|]. split; [apply NoDup_singleton|]. split; [done|]. intros x []%elem_of_nil. }
  cbn [fmap list_fmap fst] in S. apply StronglySorted_inv in S as [S F].
  destruct (String.eqb_spec id id') as [<-|Hne].
  - destruct (IH id S) as (S' & N & I1 & I2). repeat split; [done|done| |].
    + intros x Hx. right. auto.
    + intros x [->|Hx]%elem_of_cons; auto.
  - destruct (IH id' S) as (S' & N & I1 & I2). cbn [fmap list_fmap fst].
    assert (forall x, x ∈ id' :: (dedup_from id' l).*1 -> String.le id x) as Hle.
    { rewrite Forall_forall in F. intros x [->|Hx]%elem_of_cons; [apply F; left|].
      apply list_elem_of_fmap in Hx as (y & -> & Hy). apply F. right.
      apply list_elem_of_fmap. eauto. }
    repeat split.
    + constructor; [done|]. by apply Forall_forall.
    + constructor; [|done]. intros Hid. apply Hne. apply (anti_symm String.le); [apply Hle; left|].
      apply StronglySorted_inv in S' as [_ F']. rewrite Forall_forall in F'.
      apply elem_of_cons in Hid as [->|Hid]; [done|by apply F'].
    + intros x [->|Hx]%elem_of_cons; [left|right; auto].
    + intros x [->|Hx]%elem_of_cons; [right; left|]. destruct (I2 x Hx) as [->|]; right; [left|by right].
Qed.

Lemma dedup_ids_spec l :
  StronglySorted String.le l.*1 ->
  StronglySorted String.le (dedup_ids l).*1 /\ NoDup (dedup_ids l).*1
  /\ (forall x, x ∈ dedup_ids l -> x ∈ l) /\ forall x, x ∈ l.*1 -> x ∈ (dedup_ids l).*1.
Proof.
  destruct l as [|[id node] l]; intros S; cbn [dedup_ids fmap list_fmap fst].
  { repeat split; [constructor|constructor|done..]. }
  destruct (dedup_from_spec id l S) as (S' & N & I1 & I2). repeat split; [done|done| |].
  - intros x [->|Hx]%elem_of_cons; [left|right; auto].
  - intros x [->|Hx]%elem_of_cons; [left|]. destruct (I2 x Hx) as [->|]; [left|by right].
Qed.

(** A window gives the ids of the parents of its condition's type, each once
    and in order, with what links them to their children: nothing more for
    children that hold their parents' ids, else the ids of the children that
    the parent of that very id holds.  Every parent of the type is there that
    has such ids. *)
Definition link_of {A} (get : Node -> option A) cond parents (links : list (string * A)) : Prop :=
  StronglySorted String.le links.*1 /\ NoDup links.*1
  /\ (forall id a, (id, a) ∈ links ->
        exists node, of_type cond parents id node /\ get node = Some a)
  /\ ((forall id n1 n2, of_type cond parents id n1 -> of_type cond parents id n2 -> get n1 = get n2) ->
      forall id node a, of_type cond parents id node -> get node = Some a -> (id, a) ∈ links).

Definition scalar_link (f : string) (node : Node) : option string := v ← node_get node f; as_str v.
Definition list_link (f : string) (node : Node) : option (list string) :=
  v ← node_get node f; string_ids v.

Definition window_ok cond parents multiplicity (w : EntityWindow) : Prop :=
  ew_child_type w = jc_child_type cond
  /\ match jc_relation cond with
     | RDirect f =>
         ew_link w = Direct (window_attribute f) multiplicity
         /\ StronglySorted String.le (ew_ids w) /\ NoDup (ew_ids w)
         /\ forall id, id ∈ ew_ids w <-> exists node, of_type cond parents id node
     | RDerived (JScalar f) =>
         exists links, ew_ids w = links.*1 /\ ew_link w = Parent (PScalar links.*2)
           /\ link_of (scalar_link f) cond parents links
     | RDerived (JList f) =>
         exists links, ew_ids w = links.*1 /\ ew_link w = Parent (PList links.*2)
           /\ link_of (list_link f) cond parents links
     end.

Lemma StronglySorted_sublist {A} (R : relation A) l1 l2 :
  l1 `sublist_of` l2 -> StronglySorted R l2 -> StronglySorted R l1.
Proof.
  induction 1 as [|x l1 l2 Hs IH|x l1 l2 Hs IH]; intros H; [done| |];
    apply StronglySorted_inv in H as [H F]; [|by apply IH].
  constructor; [by apply IH|]. rewrite Forall_forall in *. intros y Hy. apply F.
  by eapply elem_of_sublist.
Qed.

Lemma links_ok {A} (get : Node -> option A) cond parents l :
  StronglySorted String.le l.*1 -> NoDup l.*1 ->
  (forall id node, (id, node) ∈ l -> of_type cond parents id node) ->
  (forall id node, of_type cond parents id node -> id ∈ l.*1) ->
  link_of get cond parents (omap (fun '(id, node) => a ← get node; Some (id, a)) l).
Proof.
  intros S N I1 I2.
  assert ((omap (fun '(id, node) => a ← get node; Some (id, a)) l).*1 `sublist_of` l.*1) as Hsub.
  { clear. induction l as [|[id node] l IH]; [done|]. rewrite omap_cons_eq.
    destruct (get node); cbn; by constructor. }
  assert (forall id a, (id, a) ∈ omap (fun '(id, node) => a ← get node; Some (id, a)) l <->
            exists node, (id, node) ∈ l /\ get node = Some a) as Hin.
  { intros id a. rewrite list_elem_of_omap. split.
    - intros ([id' node] & Hx & Hg). destruct (get node) eqn:E; try done. injection Hg as -> ->. eauto.
    - intros (node & Hx & Hg). exists (id, node). by rewrite Hg. }
  split; [by eapply StronglySorted_sublist|]. split; [by eapply sublist_NoDup|]. split.
  - intros id a (node & Hx & Hg)%Hin. eauto.
  - intros Hagree id node a Ht Hg. apply Hin.
    pose proof (I2 id node Ht) as Hid. apply list_elem_of_fmap in Hid as ([id' n'] & -> & Hx).
    exists n'. split; [done|].
    rewrite <- Hg. apply (Hagree id'); [by apply I1|done].
Qed.

(** Looking up and reading in one step or in two. *)
Lemma omap_link {A B} (get : Node -> option A) (read : A -> option B) (l : list (string * Node)) :
  omap (fun '(id, node) => v ← get node; b ← read v; Some (id, b)) l
  = omap (fun '(id, node) => b ← (v ← get node; read v); Some (id, b)) l.
Proof.
  induction l as [|[id node] l IH]; [done|]. rewrite !omap_cons_eq, IH.
  by destruct (get node).
Qed.

(** [sort_unstable_by] sorts, in an order of its own where ids are equal. *)
Definition sorts (sort_unstable : list (string * Node) -> list (string * Node)) : Prop :=
  forall l, sort_unstable l ≡ₚ l /\ StronglySorted String.le (sort_unstable l).*1.

Lemma entity_link_ok sort_unstable cond parents l multiplicity :
  sorts sort_unstable -> parents_of_type cond parents = Ok l ->
  let '(ids, link) := entity_link cond (dedup_ids (sort_unstable l)) multiplicity in
  window_ok cond parents multiplicity (mk_window (jc_child_type cond) ids link).
Proof.
  intros Hsort Hl. destruct (Hsort l) as [Hp Hs].
  destruct (dedup_ids_spec _ Hs) as (S & N & I1 & I2).
  assert (forall id node, (id, node) ∈ dedup_ids (sort_unstable l) -> of_type cond parents id node) as J1.
  { intros id node Hx%I1. rewrite Hp in Hx. by apply (parents_of_type_spec _ _ _ Hl). }
  assert (forall id node, of_type cond parents id node -> id ∈ (dedup_ids (sort_unstable l)).*1) as J2.
  { intros id node Hx. apply I2. rewrite Hp. apply list_elem_of_fmap. exists (id, node).
    split; [done|]. by apply (parents_of_type_spec _ _ _ Hl). }
  unfold entity_link, window_ok. destruct (jc_relation cond) as [f|[f|f]]; cbn;
    (split; [done|]).
  - split; [done|]. split; [done|]. split; [done|]. intros id. split; [|by intros [node ?]; eauto].
    intros ([id' node] & -> & Hx)%list_elem_of_fmap. eauto.
  - exists (omap (fun '(id, node) => a ← list_link f node; Some (id, a)) (dedup_ids (sort_unstable l))).
    rewrite (omap_link (fun node => node_get node f) string_ids).
    split; [done|]. split; [done|]. by apply links_ok.
  - exists (omap (fun '(id, node) => a ← scalar_link f node; Some (id, a)) (dedup_ids (sort_unstable l))).
    rewrite (omap_link (fun node => node_get node f) as_str).
    split; [done|]. split; [done|]. by apply links_ok.
Qed.

Lemma windows_from sort_unstable parents multiplicity js acc ws :
  sorts sort_unstable ->
  fold_res (add_window sort_unstable parents multiplicity) acc js = Ok ws ->
  exists conds ws', ws = acc ++ ws' /\ conds `sublist_of` js
    /\ (forall cond, cond ∈ js -> cond ∈ conds <-> exists id node, of_type cond parents id node)
    /\ Forall2 (fun cond w => window_ok cond parents multiplicity w) conds ws'.
Proof.
  intros Hsort. revert acc. induction js as [|j js IH]; intros acc H.
  { injection H as <-. exists [], []. rewrite app_nil_r. split_and!; [done|done| |done].
    by intros cond ?%elem_of_nil. }
  rewrite fold_res_cons in H. unfold add_window at 1 in H.
  destruct (parents_of_type j parents) as [l| |] eqn:El; try done. cbn [res_bind] in H.
  pose proof (parents_of_type_spec _ _ _ El) as Hl.
  pose proof (entity_link_ok _ _ _ _ multiplicity Hsort El) as Hw.
  destruct l as [|x l].
  - cbn [res_bind] in H. destruct (IH _ H) as (conds & ws' & -> & Hs & Hc & HF). exists conds, ws'.
    split_and!; [done|by constructor| |done]. intros cond [->|Hin]%elem_of_cons; [|by apply Hc].
    assert (forall id node, ~ of_type j parents id node) as Hno.
    { intros id node Ht. apply Hl, elem_of_nil in Ht. done. }
    split; [|intros (id & node & []%Hno)]. intros Hj. apply Hc; [|done].
    by eapply elem_of_sublist.
  - destruct (entity_link j _ multiplicity) as [ids link]. cbn [res_bind] in H.
    destruct (IH _ H) as (conds & ws' & -> & Hs & Hc & HF).
    exists (j :: conds), (mk_window (jc_child_type j) ids link :: ws').
    split_and!; [by rewrite <- app_assoc|by constructor| |by constructor].
    assert (exists id node, of_type j parents id node) as Hex.
    { destruct x as [id node]. exists id, node. apply Hl. left. }
    intros cond [->|Hin]%elem_of_cons; [by split; [|left]|].
    rewrite elem_of_cons. split; [intros [->|Hc']; [done|by apply Hc]|]. intros. right. by apply Hc.
Qed.

(** The windows of a join restrict the query to the parents at hand: there
    is one for every pair of a parent type with parents and a child type, in
    the order of the join's conditions, and it lists the ids of exactly these
    parents, sorted and without repetition, each with the children its own
    attribute points to. *)
Lemma windows_exact sort_unstable join parents multiplicity ws :
  sorts sort_unstable ->
  windows sort_unstable join parents multiplicity = Ok ws ->
  exists conds, conds `sublist_of` j_conds join
    /\ (forall cond, cond ∈ j_conds join ->
          cond ∈ conds <-> exists id node, of_type cond parents id node)
    /\ Forall2 (fun cond w => window_ok cond parents multiplicity w) conds ws.
Proof.
  intros Hsort H. destruct (windows_from _ _ _ _ _ _ Hsort H) as (conds & ws' & -> & Hs & Hc & HF).
  eauto.
Qed.
