(* ===== verification/PrefetchTree.v ===== *)
(** * What prefetching promises

    Theorems on [Prefetch]: what the execution collects on an object type is
    collected, every object of the tree has the answers of the store under each
    of the fields collected for its type, and prefetching ends; and an example of a query for which the fields of a fragment are not
    prefetched. *)

From stdpp Require Import prelude list strings gmap sorting.
From Stdlib Require Import ZArith Lia Floats.SpecFloat.
From S2P Require Import Prelude.
From S2P Require Import GraphqlTypes.
From S2P Require Import StoreValue.
From S2P Require Import StoreQuery.
From S2P Require Import GraphqlSchema.
From S2P Require Import Coercion.
From S2P Require Import GraphqlQuery.
From S2P Require Import QueryBuild.
From S2P Require Import Execution.
From S2P Require Import Prefetch.

#[local] Open Scope string_scope.
#[local] Open Scope list_scope.

(** ** What is proved: collected fields *)
Section collected.
Context (q : Query) (types_for_interface : TypesForInterface).
Notation collect_fields_inner := (collect_fields_inner q types_for_interface).
Notation collect_fields := (collect_fields q types_for_interface).

(** Invariants of the collection. *)
Lemma collect_inner_inv (P : gset string * Collected -> Prop) fuel tc set s s' :
  (forall key tc f V out out', P (V, out) -> collect_entry key tc f out = Ok out' -> P (V, out')) ->
  (forall V out name, P (V, out) -> P ({[name]} ∪ V, out)) ->
  P s -> collect_fields_inner fuel tc set s = Ok s' -> P s'.
Proof.
  intros H1 H2. revert tc set s s'.
  induction fuel as [|fuel IH]; intros tc set s s' Hs H; cbn [Prefetch.collect_fields_inner] in H; [done|].
  assert (forall outer cond set s s', P s ->
            collect_fragment q types_for_interface (collect_fields_inner fuel) outer cond set s = Ok s' ->
            P s') as Hfrag.
  { clear s s' set Hs H. intros outer cond set s s' Hs H. unfold collect_fragment in H.
    destruct (match cond with Some _ => _ | None => _ end) as [ty| |]; try done. cbn [res_bind] in H.
    destruct (_ || _); [by eapply IH|].
    destruct (unwrap (E := Empty_set) (types_for_interface !! oi_name outer)); try done. cbn [res_bind] in H.
    destruct (unwrap (E := Empty_set) (types_for_interface !! oi_name ty)); try done. cbn [res_bind] in H.
    eapply fold_res_inv; [exact Hs| |exact H]. intros s1 o s2 _ Hs1 Ho.
    eapply IH; [exact Hs1|exact Ho]. }
  eapply fold_res_inv; [exact Hs| |exact H]. intros [V out] sel s2 _ Hs1 Ho.
  unfold collect_selection in Ho. destruct (negb _); [by injection Ho as <-|].
  destruct sel as [f|name ds|cond ds set'].
  - destruct (is_reference_field _ _ _); [|by injection Ho as <-].
    destruct (collect_entry _ _ _ _) eqn:Ec; try done. injection Ho as <-. by eapply H1.
  - destruct (bool_decide _); [by injection Ho as <-|].
    destruct (get_fragment q name) as [frag| |]; try done. cbn [res_bind] in Ho.
    eapply Hfrag; [|exact Ho]. by apply H2.
  - eapply Hfrag; [exact Hs1|exact Ho].
Qed.

Lemma collect_entry_keys key tc f out out' k :
  collect_entry key tc f out = Ok out' -> k ∈ out'.*1 <-> k = key \/ k ∈ out.*1.
Proof.
  revert out'. induction out as [|[k' c] out IH]; intros out' H; cbn [collect_entry] in H.
  { res_inv. cbn. set_solver. }
  destruct (String.eqb_spec k' key) as [->|]; destruct (collect_field tc f c) eqn:E1;
    try destruct (collect_entry key tc f out) eqn:E2; try done; injection H as <-;
    cbn [fmap list_fmap fst]; rewrite !elem_of_cons; try rewrite (IH _ eq_refl); naive_solver.
Qed.

Lemma collect_entry_nodup key tc f out out' :
  NoDup out.*1 -> collect_entry key tc f out = Ok out' -> NoDup out'.*1.
Proof.
  revert out'. induction out as [|[k' c] out IH]; intros out' Hnd H; cbn [collect_entry] in H.
  { res_inv. apply NoDup_singleton. }
  cbn [fmap list_fmap fst] in Hnd. apply NoDup_cons in Hnd as [Hk Hnd].
  destruct (String.eqb_spec k' key) as [->|Hne].
  - destruct (collect_field tc f c); try done. injection H as <-. by constructor.
  - destruct (collect_entry key tc f out) eqn:E; try done. injection H as <-.
    cbn [fmap list_fmap fst]. constructor; [|by apply IH].
    rewrite (collect_entry_keys _ _ _ _ _ _ E). naive_solver.
Qed.

Lemma collect_fields_keys fuel ty sets grouped :
  collect_fields fuel ty sets = Ok grouped -> NoDup grouped.*1.
Proof.
  unfold Prefetch.collect_fields. intros H.
  destruct (fold_res _ _ _) as [out| |] eqn:E; try done. injection H as <-.
  assert (NoDup out.*1) as Hnd.
  { refine (fold_res_inv _ (fun out => NoDup out.*1) _ _ _ _ _ E); [apply NoDup_nil_2|].
    intros out1 set out2 _ Hnd H. unfold res_map in H. res_inv. destruct a as [V out2].
    refine (collect_inner_inv (fun s => NoDup s.2.*1) _ _ _ _ _ _ _ _ E0); [|done|done].
    intros key tc f V1 o o' Ho Ho'. by eapply collect_entry_nodup. }
  rewrite <- list_fmap_compose. erewrite list_fmap_ext; [exact Hnd|]. by intros i [k c] _.
Qed.
End collected.

(** ** What is proved: nothing selected on an object type is left out *)
Section coverage.
Context (q : Query) (types_for_interface : TypesForInterface) (ot : ObjectType).
Notation schema := (q_schema q).
Notation included := (included (q_variables q)).
Notation collect_inner := (Prefetch.collect_fields_inner q types_for_interface).

(** The fields a selection set selects, directly or through fragments. *)
Inductive reaches : SelectionSet -> QField -> Prop :=
| reaches_field set f :
    SField f ∈ set -> included (SField f) = true -> reaches set f
| reaches_inline set cond ds set' f :
    SInline cond ds set' ∈ set -> included (SInline cond ds set') = true ->
    reaches set' f -> reaches set f
| reaches_spread set name ds frag f :
    SSpread name ds ∈ set -> included (SSpread name ds) = true ->
    q_fragments q !! name = Some frag -> reaches (fr_selection_set frag) f -> reaches set f.

(** All fields of the groups are selected by one of the selection sets. *)
Definition selected_by (sets : list SelectionSet) (groups : GroupedFields) : Prop :=
  forall key fields f, (key, fields) ∈ groups -> f ∈ fields ->
    key = get_response_key f /\ exists set, set ∈ sets /\ reaches set f.

Lemma push_selected sets g groups :
  (exists set, set ∈ sets /\ reaches set g) -> selected_by sets groups ->
  selected_by sets (push_field (get_response_key g) g groups).
Proof.
  intros Hg. induction groups as [|[k fs] groups IH]; intros Hgood; cbn [push_field].
  { intros key fields f E Hf. apply list_elem_of_singleton in E as [= -> ->].
    by apply list_elem_of_singleton in Hf as ->. }
  assert (Hgood' : selected_by sets groups) by (intros k' fs' f' Hin; by eapply Hgood; right).
  destruct (String.eqb_spec k (get_response_key g)) as [->|]; intros key fields f
    [E|Hin]%elem_of_cons Hf.
  - injection E as -> ->.
    apply elem_of_app in Hf as [Hf| ->%list_elem_of_singleton]; [by eapply Hgood; [left|]|done].
  - by eapply Hgood'.
  - injection E as -> ->. by eapply Hgood; [left|].
  - by eapply (IH Hgood').
Qed.

Lemma collect_set_selected fuel set s s' sets :
  (forall f, reaches set f -> exists set', set' ∈ sets /\ reaches set' f) -> selected_by sets s.2 ->
  collect_set q ot fuel set s = Ok s' -> selected_by sets s'.2.
Proof.
  revert set s s'. induction fuel as [|fuel IH]; intros set s s' Hall Hgood H; cbn [collect_set] in H; [done|].
  refine (fold_res_inv _ (fun s => selected_by sets s.2) s set s' Hgood _ H).
  intros [V1 g1] sel s2 Hsel Hg1 Hstep. unfold Execution.collect_selection in Hstep.
  destruct (included sel) eqn:Ei; cbn [negb] in Hstep; [|by injection Hstep as <-].
  destruct sel as [f|name ds|cond ds set'].
  - injection Hstep as <-. apply push_selected; [|done]. apply Hall. by constructor.
  - destruct (bool_decide _); [by injection Hstep as <-|].
    unfold get_fragment in Hstep. destruct (q_fragments q !! name) as [frag|] eqn:Ef; [|done].
    cbn [unwrap res_bind] in Hstep.
    destruct (does_fragment_type_apply _ _ _); [|by injection Hstep as <-].
    refine (IH _ _ _ _ _ Hstep); [|exact Hg1]. intros f Hf. apply Hall. by eapply reaches_spread.
  - destruct (match cond with Some _ => _ | None => _ end); [|by injection Hstep as <-].
    refine (IH _ _ _ _ _ Hstep); [|exact Hg1]. intros f Hf. apply Hall. by eapply reaches_inline.
Qed.

(** Execution only looks at selected fields. *)
Lemma executed_fields_selected fuel sets groups :
  Execution.collect_fields q ot fuel sets = Ok groups -> selected_by sets groups.
Proof.
  intros H. unfold Execution.collect_fields, Execution.collect_fields_inner, res_map in H. res_inv.
  refine (fold_res_inv _ (fun s => selected_by sets s.2) (∅, []) sets a _ _ E);
    [by intros ? ? ? ?%elem_of_nil|].
  intros s set s' Hin Hg Hstep. eapply collect_set_selected; [|exact Hg|exact Hstep]. eauto.
Qed.

(** What one visit of a selection set is to leave behind. *)
Inductive direct : SelectionSet -> QField -> Prop :=
| direct_field set f : SField f ∈ set -> included (SField f) = true -> direct set f
| direct_inline set cond ds set' f :
    SInline cond ds set' ∈ set -> included (SInline cond ds set') = true -> direct set' f ->
    direct set f.

Inductive spread_in : SelectionSet -> string -> Prop :=
| spread_here set name ds :
    SSpread name ds ∈ set -> included (SSpread name ds) = true -> spread_in set name
| spread_inline set cond ds set' name :
    SInline cond ds set' ∈ set -> included (SInline cond ds set') = true -> spread_in set' name ->
    spread_in set name.

Definition has_field (out : Collected) (f : QField) : Prop :=
  exists c o fields, (get_response_key f, c) ∈ out /\ (o, fields) ∈ cr_obj_types c
    /\ ot_name o = ot_name ot /\ f ∈ fields.

Definition processed (set : SelectionSet) (V : gset string) (out : Collected) : Prop :=
  (forall f, direct set f -> is_reference_field schema (OIObject ot) f = true -> has_field out f)
  /\ forall name, spread_in set name -> name ∈ V.

Lemma processed_mono set V out V' out' :
  V ⊆ V' -> (forall f, has_field out f -> has_field out' f) -> processed set V out ->
  processed set V' out'.
Proof. intros HV Ho [H1 H2]. split; [auto|]. intros name Hn. apply HV. auto. Qed.

(** Sets whose spreads have all been visited, by visits that have been
    processed, leave nothing out. *)
Lemma processed_reaches set f V out :
  (forall name frag, name ∈ V -> q_fragments q !! name = Some frag ->
     processed (fr_selection_set frag) V out) ->
  reaches set f -> processed set V out -> is_reference_field schema (OIObject ot) f = true ->
  has_field out f.
Proof.
  intros HV. induction 1 as [set f Hin Hi|set cond ds set' f Hin Hi Hr IH|set name ds frag f Hin Hi Hf Hr IH];
    intros [H1 H2] Href.
  - apply H1; [by constructor|done].
  - apply IH; [|done]. split.
    + intros g Hg. apply H1. by eapply direct_inline.
    + intros name Hn. apply H2. by eapply spread_inline.
  - apply IH; [|done]. eapply HV; [|done]. apply H2. by econstructor.
Qed.

Lemma push_object_in o f l o' g fields :
  (o', fields) ∈ l -> g ∈ fields ->
  exists fields', (o', fields') ∈ push_object o f l /\ g ∈ fields'.
Proof.
  induction l as [|[o1 fs] l IH]; [by intros ?%elem_of_nil|]. cbn [push_object].
  intros [E|Hin]%elem_of_cons Hg.
  - injection E as -> ->. case_match; [exists (fs ++ [f])|exists fs]; split; try left. set_solver. done.
  - case_match; [exists fields; split; [by right|done]|].
    destruct (IH Hin Hg) as (fields' & ? & ?). exists fields'. split; [by right|done].
Qed.

Lemma push_object_new o f l :
  exists o' fields, (o', fields) ∈ push_object o f l /\ ot_name o' = ot_name o /\ f ∈ fields.
Proof.
  induction l as [|[o1 fs] l (o' & fields & H1 & H2)]; cbn [push_object].
  { exists o, [f]. split; [left|]. split; [done|left]. }
  destruct (String.eqb_spec (ot_name o1) (ot_name o)) as [E|].
  - exists o1, (fs ++ [f]). split; [left|]. split; [done|]. set_solver.
  - exists o', fields. split; [by right|done].
Qed.

Lemma collect_entry_has key tc f out out' :
  collect_entry key tc f out = Ok out' ->
  (forall g, has_field out g -> has_field out' g)
  /\ (tc = OIObject ot -> key = get_response_key f -> has_field out' f).
Proof.
  assert (Hf : forall c c', collect_field tc f c = Ok c' ->
            (forall o fields g, (o, fields) ∈ cr_obj_types c -> g ∈ fields ->
               exists fields', (o, fields') ∈ cr_obj_types c' /\ g ∈ fields')
            /\ (tc = OIObject ot -> exists o fields, (o, fields) ∈ cr_obj_types c'
                  /\ ot_name o = ot_name ot /\ f ∈ fields)).
  { intros c c' H. destruct tc as [o|i]; cbn [collect_field] in H.
    - injection H as <-. cbn. split; [intros ???; apply push_object_in|].
      intros [= ->]. apply push_object_new.
    - case_match; [|done]. injection H as <-. cbn. split; [eauto|done]. }
  revert out'. induction out as [|[k c] out IH]; intros out' H; cbn [collect_entry] in H.
  - destruct (collect_field _ _ _) as [c| |] eqn:E; try done. injection H as <-.
    apply Hf in E as [_ E]. split; [by intros g (c' & o & fs & ?%elem_of_nil & _)|].
    intros Htc ->. destruct (E Htc) as (o & fs & ?). exists c, o, fs. split; [left|done].
  - destruct (String.eqb_spec k key) as [->|Hne].
    + destruct (collect_field _ _ _) as [c1| |] eqn:E; try done. injection H as <-.
      apply Hf in E as [E1 E2]. split.
      * intros g (c' & o & fs & [Heq|Hin]%elem_of_cons & Ho & Hn & Hg).
        -- injection Heq as <- ->. destruct (E1 o fs g Ho Hg) as (fs' & ? & ?).
           exists c1, o, fs'. split; [left|done].
        -- exists c', o, fs. split; [by right|done].
      * intros Htc ->. destruct (E2 Htc) as (o & fs & ?). exists c1, o, fs. split; [left|done].
    + destruct (collect_entry key tc f out) as [out1| |] eqn:E; try done. injection H as <-.
      destruct (IH _ eq_refl) as [E1 E2]. split.
      * intros g (c' & o & fs & [Heq|Hin]%elem_of_cons & Ho & Hn & Hg).
        -- injection Heq as <- ->. exists c, o, fs. split; [left|done].
        -- destruct (E1 g) as (c1 & o1 & fs1 & ? & ?); [by exists c', o, fs|].
           exists c1, o1, fs1. split; [by right|done].
      * intros Htc Hk. destruct (E2 Htc Hk) as (c1 & o1 & fs1 & ? & ?).
        exists c1, o1, fs1. split; [by right|done].
Qed.

(** After a visit everything new has been processed. *)
Definition visit_ok (set : SelectionSet) (s s' : gset string * Collected) : Prop :=
  s.1 ⊆ s'.1 /\ (forall f, has_field s.2 f -> has_field s'.2 f) /\ processed set s'.1 s'.2
  /\ forall name frag, name ∈ s'.1 -> name ∉ s.1 -> q_fragments q !! name = Some frag ->
       processed (fr_selection_set frag) s'.1 s'.2.

Lemma processed_cons sel set V out :
  (included sel = true -> processed [sel] V out) -> processed set V out -> processed (sel :: set) V out.
Proof.
  intros H1 [H2 H3]. split.
  - intros f Hf. inversion Hf as [? ? Hin Hi|? ? ? ? ? Hin Hi Hd]; subst;
      apply elem_of_cons in Hin as [<-|Hin].
    + apply (H1 Hi). constructor; [left|done].
    + apply H2. by constructor.
    + apply (H1 Hi). eapply direct_inline; [left|done|done].
    + apply H2. by eapply direct_inline.
  - intros name Hn. inversion Hn as [? ? ? Hin Hi|? ? ? ? ? Hin Hi Hd]; subst;
      apply elem_of_cons in Hin as [<-|Hin].
    + apply (H1 Hi). econstructor; [left|done].
    + apply H3. by econstructor.
    + apply (H1 Hi). eapply spread_inline; [left|done|done].
    + apply H3. by eapply spread_inline.
Qed.

Lemma visit_trans sel set s s1 s2 :
  visit_ok [sel] s s1 -> visit_ok set s1 s2 -> visit_ok (sel :: set) s s2.
Proof.
  intros (V1 & O1 & P1 & N1) (V2 & O2 & P2 & N2). split; [set_solver|]. split; [auto|]. split.
  - apply processed_cons; [intros _|done]. by eapply processed_mono.
  - intros name frag Hin Hn Hf. destruct (decide (name ∈ s1.1)) as [H1|H1].
    + eapply processed_mono; [done|done|]. by eapply N1.
    + by eapply N2.
Qed.

Lemma visit_skip sel s :
  (included sel = true -> processed [sel] s.1 s.2) -> visit_ok [sel] s s.
Proof.
  intros H. split; [done|]. split; [done|]. split; [|by intros ? ? ? []].
  destruct (included sel) eqn:Ei; [by apply H|]. split.
  - intros f Hf. inversion Hf as [? ? Hin Hi|? ? ? ? ? Hin Hi Hd]; subst;
      apply list_elem_of_singleton in Hin as <-; congruence.
  - intros name Hn. inversion Hn as [? ? ? Hin Hi|? ? ? ? ? Hin Hi Hd]; subst;
      apply list_elem_of_singleton in Hin as <-; congruence.
Qed.

Lemma processed_field f V out :
  (is_reference_field schema (OIObject ot) f = true -> has_field out f) ->
  processed [SField f] V out.
Proof.
  intros H. split.
  - intros g Hg. inversion Hg as [? ? Hin Hi|? ? ? ? ? Hin Hi Hd]; subst;
      apply list_elem_of_singleton in Hin; [injection Hin as ->; done|done].
  - intros name Hn. inversion Hn as [? ? ? Hin Hi|? ? ? ? ? Hin Hi Hd]; subst;
      by apply list_elem_of_singleton in Hin.
Qed.

Lemma processed_inline cond ds set V out :
  processed set V out -> processed [SInline cond ds set] V out.
Proof.
  intros [H1 H2]. split.
  - intros g Hg. inversion Hg as [? ? Hin Hi|? ? ? ? ? Hin Hi Hd]; subst;
      apply list_elem_of_singleton in Hin; [done|injection Hin as -> -> ->; auto].
  - intros name Hn. inversion Hn as [? ? ? Hin Hi|? ? ? ? ? Hin Hi Hd]; subst;
      apply list_elem_of_singleton in Hin; [done|injection Hin as -> -> ->; auto].
Qed.

Lemma processed_spread name ds V out : name ∈ V -> processed [SSpread name ds] V out.
Proof.
  intros H. split.
  - intros g Hg. inversion Hg as [? ? Hin Hi|? ? ? ? ? Hin Hi Hd]; subst;
      by apply list_elem_of_singleton in Hin.
  - intros n Hn. inversion Hn as [? ? ? Hin Hi|? ? ? ? ? Hin Hi Hd]; subst;
      apply list_elem_of_singleton in Hin; [injection Hin as -> ->; done|done].
Qed.

(** On an object type the conditions of fragments do not matter. *)
Lemma collect_fragment_object collect cond set s :
  collect_fragment q types_for_interface collect (OIObject ot) cond set s
  = collect (OIObject ot) set s.
Proof.
  unfold collect_fragment. cbn [is_interface].
  assert (match cond with Some _ => Ok (OIObject ot) | None => Ok (OIObject ot) end
          = (Ok (OIObject ot) : res Empty_set _)) as E by by destruct cond.
  destruct cond; cbn [res_bind oi_name is_object]; by rewrite String.eqb_refl.
Qed.

Lemma processed_nil V out : processed [] V out.
Proof.
  split.
  - intros f Hd. inversion Hd as [? ? Hin|? ? ? ? ? Hin]; subst; by apply elem_of_nil in Hin.
  - intros n Hd. inversion Hd as [? ? ? Hin|? ? ? ? ? Hin]; subst; by apply elem_of_nil in Hin.
Qed.

Lemma collect_selection_visits fuel sel s s' :
  (forall set s s', collect_inner fuel (OIObject ot) set s = Ok s' -> visit_ok set s s') ->
  Prefetch.collect_selection q types_for_interface (collect_inner fuel) (OIObject ot) s sel = Ok s' ->
  visit_ok [sel] s s'.
Proof.
  intros IH H. destruct s as [V out]. unfold Prefetch.collect_selection in H.
  destruct (included sel) eqn:Ei; cbn [negb] in H; [|by injection H as <-; apply visit_skip; rewrite Ei].
  destruct sel as [f|name ds|cond ds set'].
  - destruct (is_reference_field schema (OIObject ot) f) eqn:Er.
    + destruct (collect_entry _ _ f out) as [out'| |] eqn:Ec; try done. injection H as <-.
      apply collect_entry_has in Ec as [E1 E2]. split; [done|]. split; [done|]. split; [|by intros ? ? ? []].
      apply processed_field. intros _. by apply E2.
    + injection H as <-. apply visit_skip. intros _. apply processed_field. congruence.
  - destruct (bool_decide_reflect (name ∈ V)) as [Hin|Hnin].
    { injection H as <-. apply visit_skip. intros _. by apply processed_spread. }
    unfold get_fragment in H. destruct (q_fragments q !! name) as [frag|] eqn:Ef; [|done].
    cbn [unwrap res_bind] in H. rewrite collect_fragment_object in H.
    apply IH in H as (HV & Ho & Hp & Hn). cbn [fst snd] in *.
    assert (name ∈ s'.1) as Hname by set_solver.
    split; [set_solver|]. split; [done|]. split; [by apply processed_spread|].
    intros name' frag' H1 H2 H3. destruct (decide (name' = name)) as [->|Hne]; [congruence|].
    apply (Hn name'); [done| |done]. set_solver.
  - rewrite collect_fragment_object in H. apply IH in H as (HV & Ho & Hp & Hn).
    split; [done|]. split; [done|]. split; [by apply processed_inline|done].
Qed.

Lemma collect_inner_visits fuel set s s' :
  collect_inner fuel (OIObject ot) set s = Ok s' -> visit_ok set s s'.
Proof.
  revert set s s'. induction fuel as [|fuel IH]; intros set s s' H;
    cbn [Prefetch.collect_fields_inner] in H; [done|].
  revert s H. induction set as [|sel set IHset]; intros s H.
  { injection H as <-. split; [done|]. split; [done|]. split; [apply processed_nil|by intros ? ? ? []]. }
  rewrite fold_res_cons in H. destruct (Prefetch.collect_selection _ _ _ _ s sel) as [s1| |] eqn:E; try done.
  cbn [res_bind] in H. eapply visit_trans; [|by apply IHset]. by eapply collect_selection_visits.
Qed.

(** For an object type everything the execution will look for is
    prefetched: whatever fragments select it, each field of object or interface
    type that the execution collects under a response key is among the fields
    that prefetching collects under that key for that object type. *)
Lemma object_fields_prefetched fuel fuel' sets groups grouped :
  Execution.collect_fields q ot fuel sets = Ok groups ->
  Prefetch.collect_fields q types_for_interface fuel' (OIObject ot) sets = Ok grouped ->
  forall key fields f, (key, fields) ∈ groups -> f ∈ fields ->
    is_reference_field schema (OIObject ot) f = true ->
    exists c o fields', (key, c) ∈ grouped /\ (OIObject o, fields') ∈ entries c
      /\ ot_name o = ot_name ot /\ f ∈ fields'.
Proof.
  intros H H' key fields f Hin Hf Href.
  destruct (executed_fields_selected _ _ _ H _ _ _ Hin Hf) as (-> & set & Hset & Hr).
  unfold Prefetch.collect_fields in H'.
  destruct (fold_res _ _ _) as [out| |] eqn:E; try done. injection H' as <-.
  assert (has_field out f) as (c & o & fs & Hc & Ho & Hn & Hfs).
  { clear -E Hset Hr Href. apply list_elem_of_split in Hset as (l1 & l2 & ->).
    rewrite fold_res_app in E. destruct (fold_res _ [] l1) as [out1| |]; try done. cbn [res_bind] in E.
    rewrite fold_res_cons in E. unfold res_map in E at 1.
    destruct (collect_inner _ _ set _) as [[V out2]| |] eqn:Ec; try done. cbn [res_bind snd] in E.
    apply collect_inner_visits in Ec as (_ & _ & Hp & Hn). cbn [fst snd] in *.
    refine (fold_res_inv _ (fun out => has_field out f) out2 l2 out _ _ E).
    - eapply processed_reaches; [|exact Hr|exact Hp|done]. intros name frag Hin. apply Hn; [done|].
      set_solver.
    - intros o1 s o2 _ Ho1 Hstep. unfold res_map in Hstep. res_inv.
      apply collect_inner_visits in E0 as (_ & Hmono & _). by apply Hmono. }
  exists (merge_iface_fields c), o, (fs ++ cr_iface_fields c). split.
  { apply list_elem_of_fmap. by exists (get_response_key f, c). }
  split; [|split; [done|set_solver]]. unfold entries, merge_iface_fields. cbn.
  apply elem_of_app. right. apply list_elem_of_fmap. exists (o, fs ++ cr_iface_fields c). split; [done|].
  apply list_elem_of_fmap. by exists (o, fs).
Qed.
End coverage.

(** ** What is proved: the tree of prefetched entities *)
Section tree.
Context {ST : ScalarText} {QS : QueryStore}.
Context (normalize : BigDecimal -> BigDecimal) (float_to_string : spec_float -> string).
Context (sort_unstable : list (string * Node) -> list (string * Node)).
Context (q : Query) (types_for_interface : TypesForInterface).
Context (block max_first max_skip : Z) (expired : nat -> bool) (cfuel afuel : nat).
Notation schema := (q_schema q).
Notation collect := (collect_fields q types_for_interface cfuel).

(** A type condition applies to the root and to entities of its types. *)
Definition applies (tc : ObjectOrInterface) (n : Node) : Prop :=
  nd_entity n = []
  \/ exists t, typename n = Ok t /\ oi_matches types_for_interface tc t = Ok true.

(** What a node gets of the children fetched for it and its siblings: all if it
    has no siblings, else those the store returned for its id. *)
Definition own_children (siblings : list Node) (n : Node) (children : list Node) : list Node :=
  match siblings with [_] => children | _ => children_of n children end.

Notation execute_field := (execute_field normalize float_to_string sort_unstable q
  types_for_interface block max_first max_skip afuel).

(** A type condition [tc] with fields was executed for the node, among siblings to
    which it applies too: below its response key are the children the store
    returned for the fields, with [deep] of their own. *)
Definition fetched_with (deep : ObjectOrInterface -> list SelectionSet -> Node -> Prop) (key : string)
    (tc : ObjectOrInterface) (fields : list QField) (n : Node) : Prop :=
  exists field0 field child_type join siblings children children',
    head fields = Some field0 /\ oi_field tc (qf_name field0) = Some field
    /\ object_or_interface schema (get_base_type (fd_field_type field)) = Some child_type
    /\ join_new types_for_interface tc child_type (fd_name field) = Ok join
    /\ (exists p, p ∈ siblings /\ nd_entity p = nd_entity n) /\ Forall (applies tc) siblings
    /\ execute_field tc siblings join field0 field = Ok children
    /\ Forall2 (fun c c' => nd_entity c' = nd_entity c /\ deep child_type (qf_selection_set <$> fields) c')
         children children'
    /\ btree_get key (nd_children n) = Some (own_children siblings n children').

(** Everything is below a node that selection sets on a type ask for:

    - for every response key that is collected, and of which some type condition
      applies to the node, the children of the last condition that applies, and
      below them everything that the selection sets of its fields ask for;
    - for an object type, children under every response key under which the
      execution of the selection sets will look for a reference field. *)
Inductive fetched (ty : ObjectOrInterface) (sets : list SelectionSet) (n : Node) : Prop :=
| fetched_intro grouped :
    collect ty sets = Ok grouped ->
    (forall key c pre tc fields post,
       (key, c) ∈ grouped -> entries c = pre ++ (tc, fields) :: post ->
       applies tc n -> Forall (fun entry => ~ applies entry.1 n) post ->
       fetched_with fetched key tc fields n) ->
    (forall ot fuel groups key fields f,
       ty = OIObject ot -> applies ty n -> Execution.collect_fields q ot fuel sets = Ok groups ->
       (key, fields) ∈ groups -> f ∈ fields -> is_reference_field schema ty f = true ->
       is_Some (btree_get key (nd_children n))) ->
    fetched ty sets n.

(** What one type condition adds. *)
Definition has_fetched (key : string) (entry : ObjectOrInterface * list QField) (n : Node) : Prop :=
  fetched_with fetched key entry.1 entry.2 n.

(** Some type condition that applies is the last one. *)
#[local] Instance applies_dec tc n : Decision (applies tc n).
Proof.
  destruct (nd_entity n) eqn:E; [left; by left|].
  destruct (typename n) as [t| |] eqn:Et; [|right; intros [?|(t & ? & _)]; congruence..].
  destruct (oi_matches types_for_interface tc t) as [[]| |] eqn:Em;
    [left; right; by exists t|right; intros [?|(t' & ? & ?)]; congruence..].
Defined.

Lemma last_applies (l : list (ObjectOrInterface * list QField)) n :
  (exists entry, entry ∈ l /\ applies entry.1 n) ->
  exists pre tc fields post, l = pre ++ (tc, fields) :: post /\ applies tc n
    /\ Forall (fun entry => ~ applies entry.1 n) post.
Proof.
  induction l as [|[tc fields] l IH]; intros (entry & Hin & Ha); [by apply elem_of_nil in Hin|].
  destruct (decide (Exists (fun entry => applies entry.1 n) l)) as [He|Hn].
  - apply Exists_exists in He. destruct (IH He) as (pre & tc' & fields' & post & -> & Ha' & Hp).
    by exists ((tc, fields) :: pre), tc', fields', post.
  - exists [], tc, fields, l. split; [done|]. rewrite <- Forall_Exists_neg in Hn. split; [|done].
    apply elem_of_cons in Hin as [->|Hin]; [done|]. rewrite Forall_forall in Hn. by destruct (Hn _ Hin).
Qed.

(** The second part of [fetched] is a consequence of the first. *)
Lemma fetched_collected ty sets grouped n :
  collect ty sets = Ok grouped ->
  (forall key c, (key, c) ∈ grouped -> forall pre entry post,
     entries c = pre ++ entry :: post -> applies entry.1 n ->
     Forall (fun entry => ~ applies entry.1 n) post -> has_fetched key entry n) ->
  fetched ty sets n.
Proof.
  intros Hc Hf. apply (fetched_intro _ _ _ grouped); [done| |].
  - intros key c pre tc fields post Hin E Ha Hp. by apply (Hf key c Hin pre (tc, fields) post).
  - intros ot fuel groups key fields f -> Ha Hg Hin Hfin Href.
    destruct (object_fields_prefetched q types_for_interface ot _ _ _ _ _ Hg Hc _ _ _ Hin Hfin Href)
      as (c & o & fields' & Hk & He & Hn & _).
    destruct (last_applies (entries c) n) as (pre & tc & fs & post & E & Ha' & Hp).
    { exists (OIObject o, fields'). split; [done|]. revert Ha. unfold applies. cbn. by rewrite Hn. }
    destruct (Hf key c Hk pre (tc, fs) post E Ha' Hp)
      as (? & ? & ? & ? & ? & ? & ? & _ & _ & _ & _ & _ & _ & _ & _ & ->). by eexists.
Qed.

Lemma applies_entity tc n n' : nd_entity n' = nd_entity n -> applies tc n' <-> applies tc n.
Proof. intros E. unfold applies, typename, node_get. by rewrite E. Qed.

Lemma has_fetched_children key entry n n' :
  nd_entity n' = nd_entity n ->
  btree_get key (nd_children n') = btree_get key (nd_children n) ->
  has_fetched key entry n -> has_fetched key entry n'.
Proof.
  intros Ee E (field0 & field & child_type & join & siblings & children & children' & H1 & H2 & H3 & H4
    & H5 & H6 & H7 & H8 & H9).
  exists field0, field, child_type, join, siblings, children, children'. rewrite E, Ee. split_and!; try done.
  rewrite H9. unfold own_children, children_of, node_id, node_get. by rewrite Ee.
Qed.

(** Parents are the root alone or entities. *)
Definition proper (parents : list Node) : Prop :=
  (exists root, parents = [root] /\ nd_entity root = [])
  \/ Forall (fun p => nd_entity p <> []) parents.

Lemma matching_spec tc parents selected :
  proper parents -> matching types_for_interface tc parents = Ok selected ->
  Forall2 (fun p b => b = true <-> applies tc p) parents selected.
Proof.
  unfold matching. intros [(root & -> & E)|Hp] H.
  - cbn [is_root_node] in H. rewrite E in H. injection H as <-. constructor; [|constructor].
    split; [by left|done].
  - assert (is_root_node parents = false) as Er.
    { destruct parents as [|p parents]; [done|]. apply Forall_cons in Hp as [Hp _].
      cbn. by destruct (nd_entity p). }
    rewrite Er in H. apply map_res_Forall2 in H.
    clear Er. revert Hp H. generalize selected. induction parents as [|p parents IH]; intros bs Hp H.
    { inversion H. constructor. }
    apply Forall_cons in Hp as [Hne Hp]. inversion H as [|? b ? bs' Hb Hbs]; subst.
    constructor; [|by apply IH]. unfold applies. destruct (typename p) as [t| |] eqn:Et; try done. cbn [res_bind] in Hb.
    split; [intros ->; right; eauto|]. intros [?|(t' & [= <-] & ?)]; congruence.
Qed.

Lemma group_children_ids children grouped :
  group_children children = Ok grouped -> forall c, c ∈ children -> is_Some (parent_id c).
Proof.
  intros E c (l1 & l2 & ->)%list_elem_of_split. unfold group_children in E. rewrite fold_res_app in E.
  destruct (fold_res group_child ∅ l1) as [g1| |]; try done. cbn [res_bind] in E.
  rewrite fold_res_cons in E. unfold group_child at 1 in E. unfold parent_id.
  by destruct (node_get c "g$parent_id") as [[]|].
Qed.

Lemma perform_ok parents children key parents' :
  perform parents children key = Ok parents' ->
  parents' = (fun p => set_children key (own_children parents p children) p) <$> parents.
Proof.
  intros H. destruct (decide (length parents = 1)) as [L|L].
  { destruct parents as [|p [|]]; try done. by injection H as <-. }
  assert (H' : (let? grouped := group_children children in
     Ok ((fun parent =>
            let values := match node_id parent with Ok id => grouped !! id | _ => None end in
            set_children key (default [] values) parent) <$> parents)) = Ok parents')
    by (by destruct parents as [|? [|]]).
  clear H. destruct (group_children children) as [g| |] eqn:Eg; try done. cbn [res_bind] in H'. injection H' as <-.
  destruct (group_children_spec children (group_children_ids _ _ Eg)) as (g' & Eg' & Hg).
  assert (g' = g) as -> by congruence. apply list_fmap_ext. intros i p _. cbv zeta. f_equal.
  assert (own_children parents p children = children_of p children) as ->
    by (by destruct parents as [|? [|]]).
  unfold children_of. destruct (node_id p) as [id| |]; [apply Hg|done..].
Qed.

Lemma select_cons b selected n nodes :
  select (b :: selected) (n :: nodes) = if b then n :: select selected nodes else select selected nodes.
Proof. by destruct b. Qed.

Lemma put_back_spec (R : Node -> Node -> Prop) selected nodes changed :
  length selected = length nodes -> Forall2 R (select selected nodes) changed ->
  Forall2 (fun bn n' => if bn.1 : bool then R bn.2 n' else n' = bn.2)
    (zip selected nodes) (put_back selected changed nodes).
Proof.
  revert nodes changed. induction selected as [|b selected IH]; intros [|n nodes] changed L H; try done.
  rewrite select_cons in H. destruct b; cbn [put_back zip zip_with].
  - inversion H; subst. constructor; [done|]. apply IH; [by injection L|done].
  - constructor; [done|]. apply IH; [by injection L|done].
Qed.

(** The store's entities have a [__typename], so they are not empty. *)
Context (store_ok : forall query os, find_query_values query = Ok os -> Forall (fun o => o <> []) os).

Notation fetch_entry := (fetch_entry normalize float_to_string sort_unstable q
  types_for_interface block max_first max_skip cfuel afuel).
Notation execute_entry := (execute_entry normalize float_to_string sort_unstable q
  types_for_interface block max_first max_skip cfuel afuel).
Notation execute_entries := (execute_entries normalize float_to_string sort_unstable q
  types_for_interface block max_first max_skip cfuel afuel).
Notation execute_keys := (execute_keys normalize float_to_string sort_unstable q
  types_for_interface block max_first max_skip expired cfuel afuel).
Notation execute_selection_set := (execute_selection_set normalize float_to_string sort_unstable q
  types_for_interface block max_first max_skip expired cfuel afuel).

Lemma execute_field_proper object_type parents join field field_definition children :
  execute_field object_type parents join field field_definition = Ok children ->
  Forall (fun p => nd_entity p <> []) children.
Proof.
  assert (forall query nodes, res_map (fmap node_from) (find_query_values query) = Ok nodes ->
            Forall (fun p => nd_entity p <> []) nodes) as Hfind.
  { intros query nodes H. unfold res_map in H. res_inv. apply Forall_fmap. by eapply store_ok. }
  assert (forall arguments multiplicity nodes,
            fetch normalize sort_unstable types_for_interface block max_first max_skip parents join
              arguments multiplicity = Ok nodes -> Forall (fun p => nd_entity p <> []) nodes) as Hfetch.
  { intros arguments multiplicity nodes H. unfold fetch in H.
    destruct (build_query _ _ _ _ _ _ _) as [query| |]; try done. cbn [res_bind] in H. cbv zeta in H.
    destruct (is_root_node parents); [by eapply Hfind|].
    destruct (lift_panic _) as [[|w ws]| |]; try done; cbn [res_bind] in H; [|by eapply Hfind].
    injection H as <-. constructor. }
  assert (forall ot, (let? argument_values :=
      coerce_argument_values float_to_string schema afuel (q_variables q) ot
        (qf_name field) (qf_arguments field) in
    let multiplicity :=
      if is_list_or_non_null_list_field field_definition then Many else Single in
    map_err (fun e => [e]) (fetch normalize sort_unstable types_for_interface block max_first max_skip
       parents join argument_values multiplicity)) = Ok children ->
    Forall (fun p => nd_entity p <> []) children) as Hrun.
  { intros ot H. destruct (coerce_argument_values _ _ _ _ _ _ _) as [args| |]; try done.
    cbn [res_bind] in H. cbv zeta in H.
    destruct (fetch _ _ _ _ _ _ _ _ _ _) eqn:Ef; try done. injection H as <-. by eapply Hfetch. }
  unfold Prefetch.execute_field. intros H. destruct object_type as [ot|it]; [by eapply Hrun|].
  destruct (types_for_interface !! it_name it) as [[|ot types]|]; try done; cbn [unwrap res_bind] in H;
    [|by eapply Hrun].
  injection H as <-. constructor.
Qed.

Lemma store_execute_field_names object_type parents join field field_definition :
  execute_field object_type parents join field field_definition <> Err [].
Proof.
  assert (forall ot m, (let? argument_values :=
      coerce_argument_values float_to_string schema afuel (q_variables q) ot
        (qf_name field) (qf_arguments field) in
    map_err (fun e => [e]) (m argument_values : qres (list Node))) <> Err []) as Hrun.
  { intros ot m H. pose proof (coerce_argument_values_names float_to_string q afuel ot (qf_name field)
      (qf_arguments field)) as Hn.
    destruct (coerce_argument_values _ _ _ _ _ _ _) as [args|e|]; try done; cbn [res_bind] in H;
      [|by injection H as ->]. by destruct (m args). }
  unfold Prefetch.execute_field. destruct object_type as [ot|it]; [apply Hrun|].
  destruct (types_for_interface !! it_name it) as [[|ot types]|]; try done. apply Hrun.
Qed.

(** Nodes keep their entities, and their children under other keys. *)
Definition same_but (key : string) (p p' : Node) : Prop :=
  nd_entity p' = nd_entity p
  /\ forall k, k <> key -> btree_get k (nd_children p') = btree_get k (nd_children p).

Definition entry_rel (key : string) (entry : ObjectOrInterface * list QField) (p p' : Node) : Prop :=
  same_but key p p' /\ (applies entry.1 p -> has_fetched key entry p')
  /\ (~ applies entry.1 p -> p' = p).

Definition execute_ok (execute : list Node -> Collected -> M (list Node)) : Prop :=
  (forall parents grouped, names_errors (execute parents grouped)) /\
  forall parents ty sets grouped t nodes t', proper parents -> collect ty sets = Ok grouped ->
    execute parents grouped t = (Ok nodes, t') ->
    Forall2 (fun p p' => nd_entity p' = nd_entity p /\ fetched ty sets p') parents nodes.

Lemma lift_panic_ok {E A} (m : res Empty_set A) (a : A) : lift_panic (E := E) m = Ok a <-> m = Ok a.
Proof. destruct m as [|[]|]; cbn; naive_solver. Qed.

Lemma unwrap_ok {E A} (o : option A) (a : A) : unwrap (E := E) o = Ok a <-> o = Some a.
Proof. destruct o; cbn; naive_solver. Qed.

Lemma selected_rel key entry selected nodes nodes' :
  Forall2 (fun p b => b = true <-> applies entry.1 p) nodes selected ->
  Forall2 (fun bn n' => if bn.1 : bool then same_but key bn.2 n' /\ has_fetched key entry n'
                        else n' = bn.2) (zip selected nodes) nodes' ->
  Forall2 (entry_rel key entry) nodes nodes'.
Proof.
  intros HP. revert nodes'. induction HP as [|p b nodes selected Hb HP IH]; intros nodes' H.
  { inversion H. constructor. }
  cbn [zip zip_with] in H. inversion H as [|? p' ? nodes1 Hp Hn]; subst. constructor; [|by apply IH].
  cbn [fst snd] in Hp. destruct b.
  - destruct Hp as [H1 H2]. split; [done|]. split; [done|]. by intros []; apply Hb.
  - subst p'. split; [by split|]. split; [|done]. intros Ha. by apply Hb in Ha.
Qed.

Lemma none_selected key entry selected nodes :
  Forall2 (fun p b => b = true <-> applies entry.1 p) nodes selected ->
  select selected nodes = [] -> Forall2 (entry_rel key entry) nodes nodes.
Proof.
  induction 1 as [|p b nodes selected Hb HP IH]; intros E; [constructor|].
  rewrite select_cons in E. destruct b; [done|]. constructor; [|by apply IH].
  split; [by split|]. split; [|done]. intros Ha. by apply Hb in Ha.
Qed.

Lemma select_applies tc selected nodes :
  Forall2 (fun p b => b = true <-> applies tc p) nodes selected -> Forall (applies tc) (select selected nodes).
Proof.
  induction 1 as [|p b nodes selected Hb HP IH]; [constructor|]. rewrite select_cons. destruct b; [|done].
  constructor; [by apply Hb|done].
Qed.

Lemma perform_fetched key entry field0 field child_type join parents children children' parents' :
  head entry.2 = Some field0 -> oi_field entry.1 (qf_name field0) = Some field ->
  object_or_interface schema (get_base_type (fd_field_type field)) = Some child_type ->
  join_new types_for_interface entry.1 child_type (fd_name field) = Ok join ->
  Forall (applies entry.1) parents -> execute_field entry.1 parents join field0 field = Ok children ->
  Forall2 (fun c c' => nd_entity c' = nd_entity c /\ fetched child_type (qf_selection_set <$> entry.2) c')
    children children' ->
  perform parents children' key = Ok parents' ->
  Forall2 (fun p p' => same_but key p p' /\ has_fetched key entry p') parents parents'.
Proof.
  intros H1 H2 H3 H4 Ha He Hc ->%perform_ok.
  apply Forall2_fmap_r, Forall_Forall2_diag, Forall_forall. intros p Hp. split.
  - split; [done|]. intros k Hk. rewrite set_children_get. by destruct (String.eqb_spec key k).
  - exists field0, field, child_type, join, parents, children, children'. split_and!; try done.
    + by exists p.
    + by rewrite set_children_get, String.eqb_refl.
Qed.

Lemma fetch_entry_ok execute key tc fields selected nodes errors t nodes' t' :
  execute_ok execute ->
  Forall2 (fun p b => b = true <-> applies tc p) nodes selected ->
  fetch_entry execute key tc fields selected (nodes, errors) t = (Ok (nodes', []), t') ->
  errors = [] /\ Forall2 (entry_rel key (tc, fields)) nodes nodes'.
Proof.
  intros Hex Hsel H. unfold Prefetch.fetch_entry in H.
  apply mbind_ok in H as (field0 & t1 & H1 & H). apply mlift_ok in H1 as [H1%unwrap_ok ->].
  apply mbind_ok in H as (field & t1 & H2 & H). apply mlift_ok in H2 as [H2%unwrap_ok ->].
  apply mbind_ok in H as (child_type & t1 & H3 & H). apply mlift_ok in H3 as [H3%unwrap_ok ->].
  apply mbind_ok in H as (join & t1 & H4 & H). apply mlift_ok in H4 as [H4%lift_panic_ok ->].
  apply mbind_ok in H as (grouped & t1 & H5 & H). apply mlift_ok in H5 as [H5%lift_panic_ok ->].
  assert (forall (e : list QueryExecutionError), e <> [] -> errors ++ e = [] -> False) as Hne
    by (by intros e He [_ ?]%app_eq_nil).
  destruct (execute_field tc _ join field0 field) as [children|e|] eqn:Ef; [| |done].
  2: { injection H as _ He _. exfalso. eapply (Hne e); [|exact He]. intros ->.
       by eapply store_execute_field_names. }
  destruct (execute children grouped t) as [[children'|e|] t1] eqn:Ee; [| |done].
  2: { injection H as _ He _. exfalso. eapply (Hne e); [|exact He].
       by apply (proj1 Hex children grouped t e t1). }
  apply mbind_ok in H as (parents' & t2 & H6 & H). apply mlift_ok in H6 as [H6%lift_panic_ok ->].
  apply mret_ok in H as [[= -> <-] ->]. split; [done|].
  eapply selected_rel; [done|]. apply (put_back_spec (fun p p' => same_but key p p' /\ has_fetched key (tc, fields) p'));
    [by symmetry; eapply Forall2_length|].
  eapply (perform_fetched key (tc, fields)); [done..| |exact Ef| |exact H6]; [by apply select_applies|].
  eapply (proj2 Hex); [right; by eapply execute_field_proper|done|done].
Qed.

Lemma execute_entry_ok execute key entry s t nodes' t' :
  execute_ok execute -> proper s.1 ->
  execute_entry execute key entry s t = (Ok (nodes', []), t') ->
  s.2 = [] /\ Forall2 (entry_rel key entry) s.1 nodes'.
Proof.
  intros Hex Hproper H. destruct entry as [tc fields], s as [nodes errors].
  unfold Prefetch.execute_entry in H. cbn [fst snd] in *.
  apply mbind_ok in H as (selected & t1 & H1 & H). apply mlift_ok in H1 as [H1%lift_panic_ok ->].
  pose proof (matching_spec _ _ _ Hproper H1) as Hsel.
  destruct (select selected nodes) eqn:Eselect.
  - apply mret_ok in H as [[= <- <-] ->]. split; [done|]. by eapply none_selected.
  - by eapply fetch_entry_ok.
Qed.

Lemma proper_entities nodes nodes' :
  Forall2 (fun p p' : Node => nd_entity p' = nd_entity p) nodes nodes' -> proper nodes -> proper nodes'.
Proof.
  intros HF [(root & -> & E)|Hp].
  - inversion HF as [|? p' ? l E' Hl]; subst. inversion Hl; subst. left. exists p'. by rewrite E'.
  - right. induction HF as [|p p' ns ns' E HF IH]; [done|].
    apply Forall_cons in Hp as [Hp Hn]. constructor; [by rewrite E|auto].
Qed.

Lemma Forall2_compose {A} (R S T : A -> A -> Prop) l1 l2 l3 :
  (forall x y z, R x y -> S y z -> T x z) -> Forall2 R l1 l2 -> Forall2 S l2 l3 -> Forall2 T l1 l3.
Proof.
  intros H HF. revert l3. induction HF as [|x y l1 l2 Hxy HF IH]; intros l3 HS;
    inversion HS; subst; constructor; eauto.
Qed.

(** Errors are only added. *)
Lemma execute_entry_errors execute key entry s t s' t' :
  execute_entry execute key entry s t = (Ok s', t') -> exists e, s'.2 = s.2 ++ e.
Proof.
  destruct entry as [tc fields], s as [nodes errors]. unfold Prefetch.execute_entry. intros H.
  apply mbind_ok in H as (selected & t1 & _ & H). cbn [fst] in H.
  assert (exists e, errors = errors ++ e) as Hnil by (exists []; by rewrite app_nil_r).
  destruct (select selected nodes) eqn:Es; [by apply mret_ok in H as [-> _]|].
  unfold Prefetch.fetch_entry in H.
  do 5 (apply mbind_ok in H as (? & ? & _ & H)).
  destruct (execute_field _ _ _ _ _) as [children|e|]; [|by injection H as <- _; eauto|done].
  destruct (execute _ _ _) as [[children'|e|] t3]; [|by injection H as <- _; eauto|done].
  apply mbind_ok in H as (? & ? & _ & H). by apply mret_ok in H as [-> _].
Qed.

Lemma execute_entries_errors execute key l s t s' t' :
  execute_entries execute key l s t = (Ok s', t') -> exists e, s'.2 = s.2 ++ e.
Proof.
  revert s t. induction l as [|entry l IH]; intros s t H; cbn [Prefetch.execute_entries] in H.
  { apply mret_ok in H as [-> _]. exists []. by rewrite app_nil_r. }
  apply mbind_ok in H as (s1 & t1 & H1 & H). apply execute_entry_errors in H1 as [e1 E1].
  destruct (IH _ _ H) as [e2 ->]. rewrite E1, <- app_assoc. eauto.
Qed.

(** What all type conditions of a response key add together. *)
Definition entries_rel (key : string) (l : list (ObjectOrInterface * list QField)) (p p' : Node)
  : Prop :=
  same_but key p p'
  /\ (forall pre entry post, l = pre ++ entry :: post -> applies entry.1 p ->
       Forall (fun entry => ~ applies entry.1 p) post -> has_fetched key entry p')
  /\ (Forall (fun entry => ~ applies entry.1 p) l -> p' = p).

Lemma entries_rel_cons key entry l p p1 p' :
  entry_rel key entry p p1 -> entries_rel key l p1 p' -> entries_rel key (entry :: l) p p'.
Proof.
  intros ((He1 & Hk1) & Ha & Hna) ((He2 & Hk2) & Hl & Hnl).
  pose proof (fun tc => applies_entity tc p p1 He1) as Happ.
  assert (forall l : list (ObjectOrInterface * list QField), Forall (fun entry => ~ applies entry.1 p) l ->
            Forall (fun entry => ~ applies entry.1 p1) l) as Hall.
  { intros l' HF. eapply Forall_impl; [exact HF|]. intros e He. by rewrite Happ. }
  split; [split; [congruence|]|split].
  - intros k Hk. rewrite Hk2, Hk1; done.
  - intros [|e pre] entry' post Eq Happl Hpost; injection Eq as E1 E2.
    + subst entry' post. rewrite (Hnl (Hall _ Hpost)). by apply Ha.
    + apply (Hl pre entry' post); [done|by apply Happ|by apply Hall].
  - intros [Hn HF]%Forall_cons. rewrite (Hnl (Hall _ HF)). by apply Hna.
Qed.

Lemma execute_entries_ok execute key l s t nodes' t' :
  execute_ok execute -> proper s.1 ->
  execute_entries execute key l s t = (Ok (nodes', []), t') ->
  s.2 = [] /\ Forall2 (entries_rel key l) s.1 nodes'.
Proof.
  intros Hex. revert s t. induction l as [|entry l IH]; intros s t Hproper H;
    cbn [Prefetch.execute_entries] in H.
  - apply mret_ok in H as [<- ->]. split; [done|]. apply Forall_Forall2_diag, Forall_forall.
    intros p _. split; [done|]. split; [|done]. by intros [].
  - apply mbind_ok in H as ([nodes1 errors1] & t1 & H1 & H).
    destruct (execute_entries_errors _ _ _ _ _ _ _ H) as [e He]. cbn [snd] in He.
    symmetry in He. apply app_eq_nil in He as [-> ->].
    destruct (execute_entry_ok _ _ _ _ _ _ _ Hex Hproper H1) as [E HF]. split; [done|].
    assert (proper nodes1) as Hp1.
    { eapply proper_entities; [|exact Hproper]. eapply Forall2_impl; [exact HF|]. by intros p p' [[]]. }
    destruct (IH (nodes1, []) t1 Hp1 H) as [_ HF2].
    eapply Forall2_compose; [apply entries_rel_cons|exact HF|exact HF2].
Qed.

(** What all response keys add together. *)
Definition keys_rel (grouped : Collected) (p p' : Node) : Prop :=
  nd_entity p' = nd_entity p
  /\ (forall k, k ∉ grouped.*1 -> btree_get k (nd_children p') = btree_get k (nd_children p))
  /\ forall key c, (key, c) ∈ grouped -> forall pre entry post,
       entries c = pre ++ entry :: post -> applies entry.1 p ->
       Forall (fun entry => ~ applies entry.1 p) post -> has_fetched key entry p'.

Lemma keys_rel_cons key c grouped p p1 p' :
  key ∉ grouped.*1 -> entries_rel key (entries c) p p1 -> keys_rel grouped p1 p' ->
  keys_rel ((key, c) :: grouped) p p'.
Proof.
  intros Hkey ((He1 & Hk1) & Hl & _) (He2 & Hk2 & Hg).
  pose proof (fun tc => applies_entity tc p p1 He1) as Happ.
  split; [congruence|]. split.
  - intros k Hk. cbn [fmap list_fmap fst] in Hk. apply not_elem_of_cons in Hk as [Hne Hk].
    by rewrite Hk2, Hk1.
  - intros k c' [[= -> ->]|Hin]%elem_of_cons pre entry post E Ha Hpost.
    + eapply has_fetched_children; [done|by apply Hk2|]. by eapply Hl.
    + eapply (Hg k c'); [done|done|by apply Happ|].
      eapply Forall_impl; [exact Hpost|]. intros e Hn. by rewrite Happ.
Qed.

Lemma execute_keys_errors execute grouped s t s' t' :
  execute_keys execute grouped s t = (Ok s', t') -> exists e, s'.2 = s.2 ++ e.
Proof.
  revert s t. induction grouped as [|[key c] grouped IH]; intros s t H;
    cbn [Prefetch.execute_keys] in H.
  { apply mret_ok in H as [-> _]. exists []. by rewrite app_nil_r. }
  destruct (expired t); [injection H as <- _; by eexists|].
  apply mbind_ok in H as (s1 & t1 & H1 & H). apply execute_entries_errors in H1 as [e1 E1].
  destruct (IH _ _ H) as [e2 ->]. rewrite E1, <- app_assoc. eauto.
Qed.

Lemma execute_keys_ok execute grouped s t nodes' t' :
  execute_ok execute -> proper s.1 -> NoDup grouped.*1 ->
  execute_keys execute grouped s t = (Ok (nodes', []), t') ->
  s.2 = [] /\ Forall2 (keys_rel grouped) s.1 nodes'.
Proof.
  intros Hex. revert s t. induction grouped as [|[key c] grouped IH]; intros s t Hproper Hnd H;
    cbn [Prefetch.execute_keys] in H.
  - apply mret_ok in H as [<- ->]. split; [done|]. apply Forall_Forall2_diag, Forall_forall.
    intros p _. split; [done|]. split; [done|]. by intros k c ?%elem_of_nil.
  - destruct (expired t); [by injection H as _ ?%app_eq_nil; destruct_and?|].
    apply NoDup_cons in Hnd as [Hkey Hnd].
    apply mbind_ok in H as ([nodes1 errors1] & t1 & H1 & H).
    destruct (execute_keys_errors _ _ _ _ _ _ H) as [e He]. cbn [snd] in He.
    symmetry in He. apply app_eq_nil in He as [-> ->].
    destruct (execute_entries_ok _ _ _ _ _ _ _ Hex Hproper H1) as [E HF]. split; [done|].
    assert (proper nodes1) as Hp1.
    { eapply proper_entities; [|exact Hproper]. eapply Forall2_impl; [exact HF|]. by intros p p' [[]]. }
    destruct (IH (nodes1, []) t1 Hp1 Hnd H) as [_ HF2].
    eapply Forall2_compose; [|exact HF|exact HF2]. intros x y z. by apply keys_rel_cons.
Qed.

(** The loops keep their errors in the state; none escapes. *)
Definition no_error {A} (m : M A) : Prop := forall t e t', m t <> (Err e, t').

Lemma no_error_bind {A B} (m : M A) (f : A -> M B) :
  no_error m -> (forall a, no_error (f a)) -> no_error (mbind m f).
Proof.
  intros Hm Hf t e t' H. unfold mbind in H. destruct (m t) as [[a|e1|] t1] eqn:E; [by eapply Hf| |done].
  by eapply Hm.
Qed.

Lemma no_error_mret {A} (a : A) : no_error (mret a).
Proof. done. Qed.
Lemma no_error_unwrap {A} (o : option A) : no_error (mlift (unwrap o)).
Proof. by destruct o. Qed.
Lemma no_error_lift {A} (m : res Empty_set A) : no_error (mlift (lift_panic m)).
Proof. by destruct m as [|[]|]. Qed.

Lemma fetch_entry_no_error execute key tc fields selected s :
  no_error (fetch_entry execute key tc fields selected s).
Proof.
  destruct s as [nodes errors]. unfold Prefetch.fetch_entry.
  repeat first [apply no_error_bind; [apply no_error_unwrap || apply no_error_lift|intros ?]].
  intros t e t'. destruct (execute_field _ _ _ _ _); try done.
  destruct (execute _ _ _) as [[| |] t1]; try done. revert t1 e t'.
  apply no_error_bind; [apply no_error_lift|intros ?; apply no_error_mret].
Qed.

Lemma execute_keys_no_error execute grouped s : no_error (execute_keys execute grouped s).
Proof.
  assert (forall key l s, no_error (execute_entries execute key l s)) as Hentries.
  { clear s. intros key l. induction l as [|[tc fields] l IH]; intros s; [done|].
    apply no_error_bind; [|apply IH]. apply no_error_bind; [apply no_error_lift|].
    intros selected. destruct (select _ _); [done|apply fetch_entry_no_error]. }
  revert s. induction grouped as [|[key c] grouped IH]; intros s; [done|].
  intros t e t'. cbn [Prefetch.execute_keys]. destruct (expired t); [done|].
  apply no_error_bind; [apply Hentries|apply IH].
Qed.

Lemma execute_selection_set_ok fuel : execute_ok (execute_selection_set fuel).
Proof.
  induction fuel as [|fuel IH]; (split; [intros parents grouped t es t' H|]);
    cbn [Prefetch.execute_selection_set] in *; try done.
  - unfold mbind in H. destruct (execute_keys _ _ _ t) as [[[nodes errors]|e|] t1] eqn:E; [| |done].
    + destruct errors; [done|]. unfold mlift in H. by injection H as <- _.
    + by apply execute_keys_no_error in E.
  - intros parents ty sets grouped t nodes t' Hp Hc H. apply mbind_ok in H as ([nodes1 errors] & t1 & H1 & H).
    destruct errors; [|done]. apply mret_ok in H as [-> _].
    destruct (execute_keys_ok _ _ (parents, []) _ _ _ IH Hp (collect_fields_keys _ _ _ _ _ _ Hc) H1) as [_ HF].
    eapply Forall2_impl; [exact HF|]. intros p p' (E & _ & Hg). split; [done|].
    apply (fetched_collected _ _ grouped); [done|]. intros key c Hin pre entry post Ee Ha Hpost.
    eapply Hg; [done|done|by apply (applies_entity _ _ _ E)|].
    eapply Forall_impl; [exact Hpost|]. intros e Hn Ha'. apply Hn.
    by apply (applies_entity _ _ _ E).
Qed.

(** C22: Prefetching a query gives the tree of all entities it asks for: below the
    root, and below every entity at any depth, there is for each response key that
    is collected the list of children that the store returned for the entity when
    the field was fetched for it and its siblings ([fetched]).  Of several type
    conditions that apply to an entity it is the last, so fields selected on the
    concrete type override those selected on its interface, whose selections they
    include.  On an object type there are children for every reference field that
    the execution will look for.  (On an interface collecting can miss fields: a
    fragment that is spread below two type conditions is collected only for the
    first: see [fragment_of_second_type_missed].) *)
Theorem prefetched_tree_complete query_type fuel selection_set t v t' :
  run normalize float_to_string sort_unstable q types_for_interface block max_first max_skip expired
    cfuel afuel query_type fuel selection_set t = (Ok v, t') ->
  exists root, v = node_to_value root /\ nd_entity root = []
    /\ fetched (OIObject query_type) [selection_set] root.
Proof.
  unfold run, execute_root_selection_set. intros H.
  apply mbind_ok in H as (nodes & t1 & H & H2). apply mret_ok in H2 as [-> _].
  apply mbind_ok in H as (grouped & t2 & H1 & H). apply mlift_ok in H1 as [H1%lift_panic_ok ->].
  pose proof (execute_selection_set_ok fuel) as [_ Hok].
  eapply Hok in H; [|left; by eexists|exact H1].
  inversion H as [|? root ? l [He Hf] Hl]; subst. inversion Hl; subst.
  exists root. split; [|done]. destruct root as [entity children]. cbn in He. subst entity.
  cbn [node_to_value foldl nd_children]. f_equal. clear.
  generalize (@nil (string * qvalue)). induction children as [|[key nodes] children IH]; intros o; [done|].
  cbn [foldl]. rewrite IH. done.
Qed.
End tree.

(** ** What is proved: prefetching ends *)
Section ends.
Context (q : Query) (types_for_interface : TypesForInterface).
Notation schema := (q_schema q).
Notation included := (included (q_variables q)).
Notation collect_inner := (Prefetch.collect_fields_inner q types_for_interface).
Notation collect := (Prefetch.collect_fields q types_for_interface).

(** Bounds the nesting of inline fragments in fragments. *)
Context (K : nat).
Context (HK : forall name f, q_fragments q !! name = Some f -> set_depth (fr_selection_set f) <= K).

Lemma collect_inner_visited fuel tc set s s' : collect_inner fuel tc set s = Ok s' -> s.1 ⊆ s'.1.
Proof.
  refine (collect_inner_inv q types_for_interface (fun s' => s.1 ⊆ s'.1) fuel tc set s s' _ _ _);
    cbn; [done|set_solver|done].
Qed.

Lemma collect_fragment_ext collect1 collect2 outer cond set (s : gset string * Collected) :
  (forall tc s1, s.1 ⊆ s1.1 -> collect1 tc set s1 = collect2 tc set s1
     /\ forall s2, collect1 tc set s1 = Ok s2 -> s1.1 ⊆ s2.1) ->
  collect_fragment q types_for_interface collect1 outer cond set s
  = collect_fragment q types_for_interface collect2 outer cond set s.
Proof.
  intros H. unfold collect_fragment.
  destruct (match cond with Some _ => _ | None => _ end) as [ty| |]; try done. cbn [res_bind].
  destruct (_ || _); [by apply H|].
  destruct (unwrap (E := Empty_set) (types_for_interface !! oi_name outer)); try done. cbn [res_bind].
  destruct (unwrap (E := Empty_set) (types_for_interface !! oi_name ty)); try done. cbn [res_bind].
  apply (fold_res_ext_inv (fun s1 => s.1 ⊆ s1.1)); [done|]. intros s1 o _ Hs.
  destruct (H (OIObject o) s1 Hs) as [E Hm]. split; [done|]. intros s2 H2. etrans; [done|by apply Hm].
Qed.

Lemma collect_inner_stable fuel fuel' tc set s :
  set_depth set + S K * unvisited q s.1 < fuel -> set_depth set + S K * unvisited q s.1 < fuel' ->
  collect_inner fuel tc set s = collect_inner fuel' tc set s.
Proof.
  revert fuel' tc set s. induction fuel as [|fuel IH]; intros [|fuel'] tc set s H1 H2; try lia.
  cbn [Prefetch.collect_fields_inner].
  apply (fold_res_ext_inv (fun s1 => s.1 ⊆ s1.1)); [done|]. intros [V out] sel Hin Hs.
  cbn [fst] in Hs. pose proof (unvisited_mono q _ _ Hs) as Hu.
  pose proof (selection_depth_le set sel Hin) as Hd.
  assert (forall outer cond set' V', V ⊆ V' -> set_depth set' + S K * unvisited q V' < fuel ->
            set_depth set' + S K * unvisited q V' < fuel' ->
            collect_fragment q types_for_interface (collect_inner fuel) outer cond set' (V', out)
            = collect_fragment q types_for_interface (collect_inner fuel') outer cond set' (V', out))
    as Hfrag.
  { intros outer cond set' V' HV L1 L2. apply collect_fragment_ext. intros tc' s1 Hs1.
    pose proof (unvisited_mono q _ _ Hs1) as Hu1. cbn [fst] in Hu1.
    split; [apply IH; nia|]. intros s2. apply collect_inner_visited. }
  assert (collect_selection q types_for_interface (collect_inner fuel) tc (V, out) sel
          = collect_selection q types_for_interface (collect_inner fuel') tc (V, out) sel) as E.
  { unfold collect_selection. destruct (negb _); [done|]. destruct sel as [f|name ds|cond ds set'].
    - done.
    - case_bool_decide as Hv; [done|]. unfold get_fragment.
      destruct (q_fragments q !! name) as [frag|] eqn:Ef; [|done]. cbn [unwrap res_bind].
      pose proof (unvisited_insert q V name frag Ef Hv). pose proof (HK name frag Ef).
      apply Hfrag; [set_solver|nia|nia].
    - unfold set_depth in *. cbn [selection_depth] in Hd. apply Hfrag; [done|unfold set_depth; nia..]. }
  split; [exact E|]. intros [V' out'] H. etrans; [exact Hs|]. cbn [fst].
  assert (collect_inner (S fuel) tc [sel] (V, out) = Ok (V', out')) as H'.
  { cbn [Prefetch.collect_fields_inner]. rewrite fold_res_cons, H. done. }
  by apply collect_inner_visited in H'.
Qed.

(** Enough to collect fields from sets of that depth. *)
Definition collect_fuel : nat := S (K + S K * size (q_fragments q)).

Lemma collect_fields_stable fuel tc sets :
  Forall (fun set => set_depth set <= K) sets -> collect_fuel <= fuel ->
  collect fuel tc sets = collect collect_fuel tc sets.
Proof.
  intros Hs Hf. unfold Prefetch.collect_fields. f_equal.
  apply (fold_res_ext_inv (fun _ => True)); [done|]. intros out set Hin _. split; [|done].
  rewrite Forall_forall in Hs. pose proof (Hs set Hin).
  assert (unvisited q ∅ = size (q_fragments q)) as E.
  { unfold unvisited. rewrite difference_empty_L. apply size_dom. }
  unfold collect_fuel in *. by rewrite (collect_inner_stable fuel (S (K + S K * size (q_fragments q))));
    [|cbn [fst]; rewrite E; lia..].
Qed.

(** Fields that are collected are selected. *)
Definition fields_of (grouped : Collected) (f : QField) : Prop :=
  exists key c, (key, c) ∈ grouped
    /\ (f ∈ cr_iface_fields c \/ exists o fields, (o, fields) ∈ cr_obj_types c /\ f ∈ fields).

Lemma push_object_fields o g l o' fields f :
  (o', fields) ∈ push_object o g l -> f ∈ fields ->
  f = g \/ exists fields', (o', fields') ∈ l /\ f ∈ fields'.
Proof.
  induction l as [|[o1 fs] l IH]; cbn [push_object].
  - intros E Hf. apply list_elem_of_singleton in E as [= -> ->].
    left. by apply list_elem_of_singleton in Hf.
  - destruct (String.eqb _ _).
    + intros [E|Hin]%elem_of_cons Hf; [|right; exists fields; split; [by right|done]].
      injection E as -> ->. apply elem_of_app in Hf as [Hf|Hf%list_elem_of_singleton]; [|by left].
      right. exists fs. split; [left|done].
    + intros [E|Hin]%elem_of_cons Hf.
      * injection E as -> ->. right. exists fs. split; [left|done].
      * destruct (IH Hin Hf) as [->|(fs' & ? & ?)]; [by left|]. right. exists fs'. split; [by right|done].
Qed.

Lemma collect_field_fields tc g c c' f :
  collect_field tc g c = Ok c' ->
  f ∈ cr_iface_fields c' \/ (exists o fields, (o, fields) ∈ cr_obj_types c' /\ f ∈ fields) ->
  f = g \/ f ∈ cr_iface_fields c \/ exists o fields, (o, fields) ∈ cr_obj_types c /\ f ∈ fields.
Proof.
  destruct tc as [o|i]; cbn [collect_field]; intros H.
  - injection H as <-. cbn. intros [?|(o' & fields & H1 & H2)]; [auto|].
    destruct (push_object_fields _ _ _ _ _ _ H1 H2) as [->|(fs & ? & ?)]; eauto 6.
  - case_match; [|done]. injection H as <-. cbn.
    intros [[?|?%list_elem_of_singleton]%elem_of_app|?]; auto.
Qed.

Lemma collect_entry_fields key tc g out out' f :
  collect_entry key tc g out = Ok out' -> fields_of out' f -> f = g \/ fields_of out f.
Proof.
  revert out'. induction out as [|[k c] out IH]; intros out' H; cbn [collect_entry] in H.
  - destruct (collect_field _ _ _) as [c| |] eqn:E; try done. injection H as <-.
    intros (k & c' & Hin & Hf). apply list_elem_of_singleton in Hin as [= -> ->].
    destruct (collect_field_fields _ _ _ _ _ E Hf) as [->|[?%elem_of_nil|(? & ? & ?%elem_of_nil & _)]];
      [by left|done..].
  - destruct (String.eqb k key).
    + destruct (collect_field _ _ _) as [c1| |] eqn:E; try done. injection H as <-.
      intros (k' & c' & [Heq|Hin]%elem_of_cons & Hf); [|right; exists k', c'; split; [by right|done]].
      injection Heq as -> ->. destruct (collect_field_fields _ _ _ _ _ E Hf) as [->|Hc]; [by left|].
      right. exists k, c. split; [left|done].
    + destruct (collect_entry key tc g out) as [out1| |] eqn:E; try done. injection H as <-.
      intros (k' & c' & [Heq|Hin]%elem_of_cons & Hf).
      * injection Heq as -> ->. right. exists k, c. split; [left|done].
      * destruct (IH _ eq_refl) as [->|(k2 & c2 & ? & ?)]; [by exists k', c'|by left|].
        right. exists k2, c2. split; [by right|done].
Qed.

Lemma collect_inner_fields fuel tc set s s' :
  collect_inner fuel tc set s = Ok s' ->
  forall f, fields_of s'.2 f -> reaches q set f \/ fields_of s.2 f.
Proof.
  revert tc set s s'. induction fuel as [|fuel IH]; intros tc set s s' H;
    cbn [Prefetch.collect_fields_inner] in H; [done|].
  refine (fold_res_inv _ (fun s' => forall f, fields_of s'.2 f -> reaches q set f \/ fields_of s.2 f)
            s set s' (fun f Hf => or_intror Hf) _ H).
  clear s' H. intros [V out] sel s2 Hsel Hs Hstep. cbn [snd] in Hs.
  assert (forall outer cond set' V', (forall f, reaches q set' f -> reaches q set f) ->
    collect_fragment q types_for_interface (collect_inner fuel) outer cond set' (V', out) = Ok s2 ->
    forall f, fields_of s2.2 f -> reaches q set f \/ fields_of s.2 f) as Hfrag.
  { clear Hstep. intros outer cond set' V' Hsub H. unfold collect_fragment in H.
    destruct (match cond with Some _ => _ | None => _ end) as [ty| |]; try done. cbn [res_bind] in H.
    assert (forall tc s1 s3, (forall f, fields_of s1.2 f -> reaches q set f \/ fields_of s.2 f) ->
              collect_inner fuel tc set' s1 = Ok s3 ->
              forall f, fields_of s3.2 f -> reaches q set f \/ fields_of s.2 f) as Hone.
    { intros tc' s1 s3 H1 H3 f Hf. destruct (IH _ _ _ _ H3 f Hf); auto. }
    destruct (_ || _); [exact (Hone _ (V', out) _ Hs H)|].
    destruct (unwrap (E := Empty_set) (types_for_interface !! oi_name outer)); try done. cbn [res_bind] in H.
    destruct (unwrap (E := Empty_set) (types_for_interface !! oi_name ty)); try done. cbn [res_bind] in H.
    refine (fold_res_inv _ (fun s1 => forall f, fields_of s1.2 f -> reaches q set f \/ fields_of s.2 f)
              (V', out) _ s2 Hs _ H).
    intros s1 o s3 _ H1 H3. exact (Hone _ _ _ H1 H3). }
  unfold collect_selection in Hstep.
  destruct (included sel) eqn:Ei; cbn [negb] in Hstep; [|by injection Hstep as <-].
  destruct sel as [g|name ds|cond ds set'].
  - destruct (is_reference_field _ _ _); [|by injection Hstep as <-].
    destruct (collect_entry _ _ _ _) as [out'| |] eqn:Ec; try done. injection Hstep as <-. intros f Hf.
    destruct (collect_entry_fields _ _ _ _ _ _ Ec Hf) as [->|]; [left; by constructor|by apply Hs].
  - destruct (bool_decide _); [by injection Hstep as <-|]. unfold get_fragment in Hstep.
    destruct (q_fragments q !! name) as [frag|] eqn:Ef; [|done]. cbn [unwrap res_bind] in Hstep.
    eapply Hfrag; [|exact Hstep]. intros f Hf. by eapply reaches_spread.
  - eapply Hfrag; [|exact Hstep]. intros f Hf. by eapply reaches_inline.
Qed.

Lemma collect_fields_selected fuel tc sets grouped key c entry f :
  collect fuel tc sets = Ok grouped -> (key, c) ∈ grouped -> entry ∈ entries c -> f ∈ entry.2 ->
  exists set, set ∈ sets /\ reaches q set f.
Proof.
  unfold Prefetch.collect_fields. intros H Hc He Hf.
  destruct (fold_res _ _ _) as [out| |] eqn:E; try done. injection H as <-.
  assert (fields_of out f) as Hout.
  { apply list_elem_of_fmap in Hc as ([k c1] & [= -> ->] & Hc). exists k, c1. split; [done|].
    unfold entries, merge_iface_fields in He. cbn in He. apply elem_of_app in He as [He|He].
    - destruct (cr_iface_cond c1); [|by apply elem_of_nil in He].
      apply list_elem_of_singleton in He as ->. by left.
    - apply list_elem_of_fmap in He as ([o fs] & -> & He).
      apply list_elem_of_fmap in He as ([o1 fs1] & [= -> ->] & He). cbn in Hf.
      apply elem_of_app in Hf as [Hf|Hf]; [right; eauto|by left]. }
  revert Hout. refine (fold_res_inv _ (fun out => fields_of out f -> exists set, set ∈ sets /\ reaches q set f)
    [] sets out _ _ E); [by intros (? & ? & ?%elem_of_nil & _)|].
  intros out1 set out2 Hin IH Hstep. unfold res_map in Hstep. res_inv.
  intros Hf2. destruct (collect_inner_fields _ _ _ _ _ E0 f Hf2); eauto.
Qed.

(** Selection sets nest at most [n] deep through fields, and inline fragments
    at most [K] deep. *)
Fixpoint nests (n : nat) (set : SelectionSet) : Prop :=
  set_depth set <= K
  /\ forall f, reaches q set f ->
       match n with O => False | S n => nests n (qf_selection_set f) end.

Definition fields_nest (n : nat) (grouped : Collected) : Prop :=
  forall key c entry f, (key, c) ∈ grouped -> entry ∈ entries c -> f ∈ entry.2 ->
    match n with O => False | S n => nests n (qf_selection_set f) end.

Lemma nests_depth n set : nests n set -> set_depth set <= K.
Proof. by destruct n; intros [? _]. Qed.

Lemma collected_nest fuel tc sets grouped n :
  Forall (nests n) sets -> collect fuel tc sets = Ok grouped -> fields_nest n grouped.
Proof.
  intros Hs H key c entry f Hc He Hf. rewrite Forall_forall in Hs.
  destruct (collect_fields_selected _ _ _ _ _ _ _ _ H Hc He Hf) as (set & Hin & Hr).
  specialize (Hs set Hin). destruct n as [|n]; destruct Hs as [_ Hn]; exact (Hn f Hr).
Qed.

Lemma mbind_cong {A B} (m1 m2 : M A) (f g : A -> M B) t :
  m1 t = m2 t -> (forall a t', f a t' = g a t') -> mbind m1 f t = mbind m2 g t.
Proof. intros E H. unfold mbind. rewrite E. by destruct (m2 t) as [[]]. Qed.

Lemma mbind_ext {A B} (m : M A) (f g : A -> M B) t :
  (forall a t', f a t' = g a t') -> mbind m f t = mbind m g t.
Proof. by apply mbind_cong. Qed.

Section execution.
Context {ST : ScalarText} {QS : QueryStore}.
Context (normalize : BigDecimal -> BigDecimal) (float_to_string : spec_float -> string).
Context (sort_unstable : list (string * Node) -> list (string * Node)).
Context (block max_first max_skip : Z) (expired : nat -> bool) (afuel : nat).
Notation fetch_entry := (Prefetch.fetch_entry normalize float_to_string sort_unstable q
  types_for_interface block max_first max_skip).
Notation execute_entry := (Prefetch.execute_entry normalize float_to_string sort_unstable q
  types_for_interface block max_first max_skip).
Notation execute_entries := (Prefetch.execute_entries normalize float_to_string sort_unstable q
  types_for_interface block max_first max_skip).
Notation execute_keys := (Prefetch.execute_keys normalize float_to_string sort_unstable q
  types_for_interface block max_first max_skip expired).
Notation execute_selection_set := (Prefetch.execute_selection_set normalize float_to_string
  sort_unstable q types_for_interface block max_first max_skip expired).


Context (execute1 execute2 : list Node -> Collected -> M (list Node)) (m : nat).
Context (Hexecute : forall children grouped t, fields_nest m grouped ->
           execute1 children grouped t = execute2 children grouped t).

Lemma fetch_entry_ext cfuel key tc fields selected s t :
  collect_fuel <= cfuel -> (forall f, f ∈ fields -> nests m (qf_selection_set f)) ->
  fetch_entry cfuel afuel execute1 key tc fields selected s t
  = fetch_entry collect_fuel afuel execute2 key tc fields selected s t.
Proof.
  intros Hc Hf. destruct s as [nodes errors]. unfold Prefetch.fetch_entry.
  apply mbind_ext. intros field0 t1. apply mbind_ext. intros field t2.
  apply mbind_ext. intros child_type t3. apply mbind_ext. intros join t4.
  assert (Forall (nests m) (qf_selection_set <$> fields)) as Hn.
  { apply Forall_fmap, Forall_forall. exact Hf. }
  rewrite (collect_fields_stable cfuel); [| |done].
  2: { eapply Forall_impl; [exact Hn|]. apply nests_depth. }
  destruct (collect collect_fuel child_type _) as [grouped|[]|] eqn:E; try done.
  unfold mbind at 1 3. cbn. destruct (execute_field _ _ _ _ _) as [children| |]; try done.
  by rewrite (Hexecute children grouped t4) by by eapply collected_nest.
Qed.

Lemma execute_entries_ext cfuel key l s t :
  collect_fuel <= cfuel ->
  (forall entry f, entry ∈ l -> f ∈ entry.2 -> nests m (qf_selection_set f)) ->
  execute_entries cfuel afuel execute1 key l s t
  = execute_entries collect_fuel afuel execute2 key l s t.
Proof.
  intros Hc. revert s t. induction l as [|[tc fields] l IH]; intros s t Hl; [done|].
  cbn [Prefetch.execute_entries].
  assert (execute_entry cfuel afuel execute1 key (tc, fields) s t
          = execute_entry collect_fuel afuel execute2 key (tc, fields) s t) as E.
  { unfold Prefetch.execute_entry. apply mbind_ext. intros selected t'.
    destruct (select selected s.1); [done|]. apply fetch_entry_ext; [done|].
    intros f Hf. by eapply (Hl (tc, fields)); [left|]. }
  apply mbind_cong; [exact E|]. intros s1 t1. apply IH. intros entry f Hin. apply Hl. by right.
Qed.

Lemma execute_keys_ext cfuel grouped s t :
  collect_fuel <= cfuel -> fields_nest (S m) grouped ->
  execute_keys cfuel afuel execute1 grouped s t = execute_keys collect_fuel afuel execute2 grouped s t.
Proof.
  intros Hc. revert s t. induction grouped as [|[key c] grouped IH]; intros s t Hg; [done|].
  cbn [Prefetch.execute_keys]. destruct (expired t); [done|]. apply mbind_cong.
  { apply execute_entries_ext; [done|]. intros entry f He Hf. by apply (Hg key c entry f); [left|..]. }
  intros s1 t1. apply IH. intros key' c' entry f Hin. apply (Hg key' c'). by right.
Qed.
End execution.

Section run.
Context {ST : ScalarText} {QS : QueryStore}.
Context (normalize : BigDecimal -> BigDecimal) (float_to_string : spec_float -> string).
Context (sort_unstable : list (string * Node) -> list (string * Node)).
Context (block max_first max_skip : Z) (expired : nat -> bool) (afuel : nat).
Notation execute_keys := (Prefetch.execute_keys normalize float_to_string sort_unstable q
  types_for_interface block max_first max_skip expired).
Notation execute_selection_set := (Prefetch.execute_selection_set normalize float_to_string
  sort_unstable q types_for_interface block max_first max_skip expired).

(** Without fields in the groups nothing is executed below. *)
Lemma execute_keys_leaf cfuel execute1 execute2 grouped s t :
  collect_fuel <= cfuel -> fields_nest 0 grouped ->
  execute_keys cfuel afuel execute1 grouped s t = execute_keys collect_fuel afuel execute2 grouped s t.
Proof.
  intros Hc. revert s t. induction grouped as [|[key c] grouped IH]; intros s t Hg; [done|].
  cbn [Prefetch.execute_keys]. destruct (expired t); [done|].
  assert (forall l, (forall entry, entry ∈ l -> entry ∈ entries c) -> forall s t,
    execute_entries normalize float_to_string sort_unstable q types_for_interface block max_first
      max_skip cfuel afuel execute1 key l s t
    = execute_entries normalize float_to_string sort_unstable q types_for_interface block max_first
        max_skip collect_fuel afuel execute2 key l s t) as Hentries.
  { intros l. induction l as [|[tc fields] l IHl]; intros Hl s1 t1; [done|].
    cbn [execute_entries]. destruct fields as [|f fields].
    - apply mbind_cong; [|intros s2 t2; apply IHl; intros entry He; apply Hl; by right].
      apply mbind_ext. intros selected t2. destruct (select selected s1.1); [done|]. by destruct s1.
    - exfalso. apply (Hg key c (tc, f :: fields) f); [left|apply Hl; left|left]. }
  apply mbind_cong; [by apply Hentries|]. intros s1 t1. apply IH. intros key' c' entry f Hin. apply (Hg key' c'). by right.
Qed.

Lemma execute_selection_set_stable cfuel fuel n parents grouped t :
  collect_fuel <= cfuel -> n < fuel -> fields_nest n grouped ->
  execute_selection_set cfuel afuel fuel parents grouped t
  = execute_selection_set collect_fuel afuel (S n) parents grouped t.
Proof.
  intros Hc. revert fuel parents grouped t. induction n as [|n IH]; intros [|fuel] parents grouped t Hf Hg;
    try lia; cbn [Prefetch.execute_selection_set]; (apply mbind_cong; [|done]).
  - by apply execute_keys_leaf.
  - apply (execute_keys_ext _ _ _ _ _ _ _ _ _ _ n); [|done..].
    intros children grouped' t' Hg'. apply IH; [lia|done].
Qed.

(** Prefetching ends, cyclic fragments or not where only scalars are
    selected: when selection sets nest [n] deep, fuel above [n], and above a
    bound on the fragments for collecting fields, changes nothing. *)
Lemma prefetching_ends query_type n selection_set cfuel fuel t :
  nests n selection_set -> collect_fuel <= cfuel -> n < fuel ->
  run normalize float_to_string sort_unstable q types_for_interface block max_first max_skip expired
    cfuel afuel query_type fuel selection_set t
  = run normalize float_to_string sort_unstable q types_for_interface block max_first max_skip expired
      collect_fuel afuel query_type (S n) selection_set t.
Proof.
  intros Hn Hc Hf. unfold run, execute_root_selection_set.
  assert (Forall (nests n) [selection_set]) as Hs by by constructor.
  rewrite (collect_fields_stable cfuel); [| |done].
  2: { eapply Forall_impl; [exact Hs|]. apply nests_depth. }
  apply mbind_cong; [|done].
  destruct (collect collect_fuel (OIObject query_type) [selection_set]) as [grouped|[]|] eqn:E;
    try done. unfold mbind. cbn. apply execute_selection_set_stable; [done..|]. by eapply collected_nest.
Qed.
End run.
End ends.

Module Witness.
#[local] Existing Instance TextInstance.text.
Definition p0 : Pos := mk_Pos 0 0.
Definition pick (name : string) (set : SelectionSet) : Selection :=
    SField (mk_qfield p0 None name [] [] set).
Definition in_subgraph : list Directive :=
    [mk_directive "entity" []; mk_directive "subgraphId" [("id", QString "Qmpets")]].
Definition id_field : Field := mk_field "id" [] (NonNullType (NamedType "ID")) [].
Definition owner_field : Field := mk_field "owner" [] (NonNullType (NamedType "Person")) [].
Definition Pet : InterfaceType := mk_interface_type "Pet" in_subgraph [id_field; owner_field].
Definition Cat : ObjectType := mk_object_type "Cat" ["Pet"] in_subgraph [id_field; owner_field].
Definition Dog : ObjectType := mk_object_type "Dog" ["Pet"] in_subgraph [id_field; owner_field].
Definition Person : ObjectType := mk_object_type "Person" [] in_subgraph [id_field].
Definition Root : ObjectType :=
    mk_object_type "Query" [] []
      [mk_field "pets" [] (NonNullType (ListType (NonNullType (NamedType "Pet")))) []].
Definition schema : Document :=
    [TypeDef (TDScalar (mk_scalar_type "ID" [])); TypeDef (TDInterface Pet); TypeDef (TDObject Cat);
     TypeDef (TDObject Dog); TypeDef (TDObject Person); TypeDef (TDObject Root)].
Definition types : TypesForInterface := {["Pet" := [Cat; Dog]]}.

Definition pets : SelectionSet := [pick "pets" [pick "id" []; pick "owner" [pick "id" []]]].
Definition query (set : SelectionSet) (fragments : gmap string FragmentDefinition) : Query :=
    mk_query_struct "Qmpets" schema ∅ set None fragments KQuery 0.

Definition entity (ty id more : string) (other : string) : Object :=
    if String.eqb more "owner"
    then [("__typename", QString ty); ("id", QString id); ("owner", QString other)]
    else [("__typename", QString ty); (more, QString other); ("id", QString id)].

#[export] Instance store : QueryStore := {|
    find_query_values q :=
      Ok match eq_collection q with
         | All _ => [entity "Cat" "tom" "owner" "ann"; entity "Dog" "rex" "owner" "bob"]
         | Window _ => [entity "Person" "ann" "g$parent_id" "tom"; entity "Person" "bob" "g$parent_id" "rex"]
         end
|}.

Definition by_id (x y : string * Node) : Prop := String.le x.1 y.1.
#[local] Instance by_id_dec : RelDecision by_id.
Proof. intros x y. unfold by_id. apply _. Defined.
Definition sort (l : list (string * Node)) : list (string * Node) := merge_sort by_id l.

Lemma sort_sorts : sorts sort.
Proof.
    intros l. split; [apply merge_sort_Permutation|].
    assert (StronglySorted by_id (merge_sort by_id l)) as H.
    { apply StronglySorted_merge_sort; unfold by_id.
      - intros x y z. apply (transitivity (R := String.le)).
      - intros x y. apply (total String.le). }
    unfold sort. induction H as [|x l' H IH F]; [constructor|]. constructor; [done|].
    apply Forall_fmap. eapply Forall_impl; [exact F|]. done.
Qed.

Lemma store_nonempty q os : find_query_values q = Ok os -> Forall (fun o : Object => o <> []) os.
Proof. cbn. intros [= <-]. destruct (eq_collection q); repeat constructor; done. Qed.

Definition fetch_pets : M qvalue :=
    run id (fun _ => "") sort (query pets ∅) types 7 100 100 (fun _ => false) 9 9 Root 9 pets.

Definition person (id parent : string) : qvalue := QObject (entity "Person" id "g$parent_id" parent).
Definition pet (ty id owner : string) : qvalue :=
    QObject [("__typename", QString ty); ("id", QString id); ("owner", QString owner);
             ("prefetch:owner", QList [person owner id])].
Definition fetched_pets : qvalue :=
    QObject [("prefetch:pets", QList [pet "Cat" "tom" "ann"; pet "Dog" "rex" "bob"])].

Example pets_fetched : fetch_pets 0 = (Ok fetched_pets, 2).
Proof. vm_compute. reflexivity. Qed.

Lemma prefetched_tree_complete_witness : exists root,
    node_to_value root = fetched_pets /\ nd_entity root = []
    /\ fetched id (fun _ => "") sort (query pets ∅) types 7 100 100 9 9 (OIObject Root) [pets] root.
Proof.
    destruct (prefetched_tree_complete id (fun _ => "") sort (query pets ∅) types 7 100 100 (fun _ => false)
      9 9 store_nonempty Root 9 pets 0 fetched_pets 2) as (root & E & Er & H).
    - vm_compute. reflexivity.
    - by exists root.
Defined.

Definition cat : Node := node_from (entity "Cat" "tom" "owner" "ann").
Definition dog : Node := node_from (entity "Dog" "rex" "owner" "bob").
Definition ann : Node := node_from (entity "Person" "ann" "g$parent_id" "tom").

Lemma perform_distributes_witness :
    exists parents', perform [cat; dog] [ann] "owner" = Ok parents'
      /\ Forall2 (fun p p' => btree_get "owner" (nd_children p') = Some (children_of p [ann]))
           [cat; dog] parents'.
Proof.
    destruct (perform_distributes [cat; dog] [ann] "owner") as (parents' & E & HF & _).
    - intros c ->%list_elem_of_singleton. exists cat, "tom". split; [left|done].
    - exists parents'. split; [done|]. eapply Forall2_impl; [exact HF|]. by intros p p' (_ & ? & _).
Defined.

Definition owners : Join :=
    mk_join (OIObject Person)
      [mk_join_cond "Cat" "Person" (RDerived (JScalar "owner"));
       mk_join_cond "Dog" "Person" (RDerived (JScalar "owner"))].

Lemma windows_exact_witness :
    exists conds, conds `sublist_of` j_conds owners
      /\ Forall2 (fun cond w => window_ok cond [dog; cat] Single w) conds
           [mk_window "Person" ["tom"] (Parent (PScalar ["ann"]));
            mk_window "Person" ["rex"] (Parent (PScalar ["bob"]))].
Proof.
    destruct (windows_exact sort owners [dog; cat] Single
      [mk_window "Person" ["tom"] (Parent (PScalar ["ann"]));
       mk_window "Person" ["rex"] (Parent (PScalar ["bob"]))] sort_sorts) as (conds & H & _ & HF).
    - vm_compute. reflexivity.
    - by exists conds.
Defined.

(** A fragment spread below two type conditions. *)
Definition Own : FragmentDefinition := mk_fragment "Own" "Pet" [pick "owner" [pick "id" []]].
Definition by_type : SelectionSet :=
    [SInline (Some "Cat") [] [SSpread "Own" []]; SInline (Some "Dog") [] [SSpread "Own" []]].
Definition spread_query : Query := query [pick "pets" by_type] {["Own" := Own]}.

Lemma object_fields_prefetched_witness :
    exists groups grouped,
      Execution.collect_fields spread_query Dog 9 [by_type] = Ok groups
      /\ Prefetch.collect_fields spread_query types 9 (OIObject Dog) [by_type] = Ok grouped
      /\ exists c tc fields f, ("owner", c) ∈ grouped /\ (tc, fields) ∈ entries c /\ f ∈ fields.
Proof.
    eexists _, _. split; [vm_compute; reflexivity|]. split; [vm_compute; reflexivity|].
    edestruct (object_fields_prefetched spread_query types Dog 9 9 [by_type]) as (c & tc & fields & H);
      [vm_compute; reflexivity|vm_compute; reflexivity|left|left|reflexivity|].
    destruct H as (H1 & H2 & _ & H3). by exists c, (OIObject tc), fields; eexists.
Defined.

Lemma reaches_fields q set f :
    Forall (fun s => match s with SField _ => True | _ => False end) set -> reaches q set f ->
    SField f ∈ set.
Proof.
    intros HF Hr. rewrite Forall_forall in HF. destruct Hr as [set f Hin _|set c ds s' f Hin|set n ds fr f Hin];
      [done|by apply HF in Hin..].
Qed.

Lemma nests_fields K q n (l : list Selection) :
    Forall (fun s => match s with SField f => nests q K n (qf_selection_set f) | _ => False end) l ->
    nests q K (S n) l.
Proof.
    intros HF. rewrite Forall_forall in HF. split.
    - unfold set_depth. assert (max_list (selection_depth <$> l) = 0) as ->; [|lia].
      induction l as [|s l IH]; [done|]. cbn. rewrite IH by (intros; apply HF; by right).
      specialize (HF s ltac:(left)). by destruct s.
    - intros f Hr. apply (HF (SField f)). apply (reaches_fields q); [|done]. apply Forall_forall.
      intros s Hs. specialize (HF s Hs). by destruct s.
Qed.

Lemma prefetching_ends_witness :
    1 <= 3 /\ 5 <= 8
    /\ run id (fun _ => "") sort (query pets ∅) types 7 100 100 (fun _ => false) 3 9 Root 8 pets 0
       = (Ok fetched_pets, 2).
Proof.
    split; [lia|]. split; [lia|].
    rewrite (prefetching_ends (query pets ∅) types 0) with (n := 4); [| | |change (1 <= 3); lia|lia].
    - vm_compute. reflexivity.
    - intros name f Hf. cbn in Hf. by apply lookup_empty_Some in Hf.
    - unfold pets, pick. repeat first [apply Forall_nil; done|apply Forall_cons; split|apply nests_fields].
Defined.

(** On an interface a fragment spread below the conditions of two types is
    collected for the first of them only, although it applies to the second. *)
Example fragment_of_second_type_missed :
    (let? grouped := Prefetch.collect_fields spread_query types 9 (OIInterface Pet) [by_type] in
     Ok ((fun kc => (kc.1, (fun e => oi_name e.1) <$> entries kc.2)) <$> grouped))
    = Ok [("owner", ["Cat"])]
    /\ (let? groups := Execution.collect_fields spread_query Dog 9 [by_type] in Ok groups.*1)
       = Ok ["owner"].
Proof. by vm_compute. Qed.
End Witness.
