(* ===== verification/QueryCache.v ===== *)
(** * The caches of query results

    Models the caching of [graphql/src/execution/execution.rs] and
    [graphql/src/execution/cache.rs]: the cache of recent blocks by network, the
    LFU cache of historical queries ([LfuCache]) and the herd cache, which runs
    identical queries only once at a time.

    Requests run concurrently.  The model is a step relation whose steps are
    the sections of the code under one lock, so that any interleaving of
    requests is a sequence of steps.  The hash of a query is an abstract key;
    what a query returns is a relation, as the store it reads may change.
    Additions of weights are to [usize] and wrap at 2^64. *)

From stdpp Require Import prelude list strings gmap relations sorting.
From Stdlib Require Import ZArith Lia.
From S2P Require Import Prelude.
From S2P Require Import EthTypes.
From S2P Require Import StoreQuery.
From S2P Require Import LfuCache.

#[local] Open Scope list_scope.

Section cache.
Context {Hash : Type} `{Countable Hash}.
(** [Arc<QueryResult>]: whether it has errors, and the weight of its data. *)
Context {QueryResult : Type} (has_errors : QueryResult -> bool) (data_weight : QueryResult -> Z).
(** [QUERY_CACHE_BLOCKS], [QUERY_CACHE_MAX_MEM], [QUERY_CACHE_STALE_PERIOD]. *)
Context (cache_blocks : nat) (max_mem stale_period : Z).

(** ** The cache of a block *)
Record CacheByBlock := mk_cache_by_block {
  cb_block : EthereumBlockPointer;
  cb_max_weight : Z;
  cb_weight : Z;
  cb_cache : gmap Hash QueryResult;
}.

Definition cache_by_block_new (block : EthereumBlockPointer) (max_weight : Z) : CacheByBlock :=
  mk_cache_by_block block max_weight 0 ∅.

(** The flag says whether the result fitted; a result with errors fails the
    assertion. *)
Definition cache_by_block_insert (c : CacheByBlock) (key : Hash) (value : QueryResult) (weight : Z)
  : res Empty_set (CacheByBlock * bool) :=
  if has_errors value then Panic
  else
    let total := wrap64 (cb_weight c + weight) in
    if (total <=? cb_max_weight c)%Z
    then Ok (mk_cache_by_block (cb_block c) (cb_max_weight c) total (<[key := value]> (cb_cache c)),
             true)
    else Ok (c, false).

(** ** The caches of recent blocks by network *)
Abbreviation QueryBlockCache := (list (string * list CacheByBlock)).

(** Insert into the cache of the block, wherever it is. *)
Fixpoint insert_in_block (caches : list CacheByBlock) (block_ptr : EthereumBlockPointer)
    (key : Hash) (result : QueryResult) (weight : Z)
  : option (res Empty_set (list CacheByBlock * bool)) :=
  match caches with
  | [] => None
  | c :: caches =>
      if bool_decide (cb_block c = block_ptr) then
        Some (let? (c, fits) := cache_by_block_insert c key result weight in
              Ok (c :: caches, fits))
      else
        (fun r => let? (caches, fits) := r in Ok (c :: caches, fits))
          <$> insert_in_block caches block_ptr key result weight
  end.

(** [VecDeque::pop_back] *)
Definition pop_back {A} (l : list A) : list A := removelast l.

(** The insertion into the cache of one network. *)
Definition network_insert (caches : list CacheByBlock) (block_ptr : EthereumBlockPointer)
    (key : Hash) (result : QueryResult) (weight : Z) : res Empty_set (list CacheByBlock * bool) :=
  match insert_in_block caches block_ptr key result weight with
  | Some r => r
  | None =>
      if (0 <? cache_blocks)%nat then
        let should_insert :=
          match caches with
          | [] => true
          | highest :: _ => (ptr_number (cb_block highest) <=? ptr_number block_ptr)%Z
          end in
        if should_insert then
          let caches := if (length caches =? cache_blocks)%nat then pop_back caches else caches in
          let max_weight := (max_mem / Z.of_nat cache_blocks)%Z in
          let? (c, fits) :=
            cache_by_block_insert (cache_by_block_new block_ptr max_weight) key result weight in
          Ok (c :: caches, fits)
        else Ok (caches, false)
      else Ok (caches, false)
  end.

Fixpoint block_cache_insert (c : QueryBlockCache) (network : string)
    (block_ptr : EthereumBlockPointer) (key : Hash) (result : QueryResult) (weight : Z)
  : res Empty_set (QueryBlockCache * bool) :=
  match c with
  | [] =>
      let? (caches, fits) := network_insert [] block_ptr key result weight in
      Ok ([(network, caches)], fits)
  | (n, caches) :: c =>
      if String.eqb n network then
        let? (caches, fits) := network_insert caches block_ptr key result weight in
        Ok ((n, caches) :: c, fits)
      else
        let? (c, fits) := block_cache_insert c network block_ptr key result weight in
        Ok ((n, caches) :: c, fits)
  end.

Definition block_cache_get (c : QueryBlockCache) (network : string)
    (block_ptr : EthereumBlockPointer) (key : Hash) : option QueryResult :=
  '(_, caches) ← List.find (fun x => String.eqb x.1 network) c;
  cache ← List.find (fun c => bool_decide (cb_block c = block_ptr)) caches;
  cb_cache cache !! key.

(** ** Requests *)
Record WeightedResult := mk_weighted { wr_result : QueryResult; wr_weight : Z }.
#[local] Instance weighted_weight : CacheWeight WeightedResult := wr_weight.

Context {PQ : PriorityQueue Hash WeightedResult} `{CacheWeight Hash} (size_of_entry : Z).

(** What [execute_root_selection_set] is called with: the key of the query at
    the block, the network and block, and whether results of the resolver and
    the subgraph are to be cached. *)
Record Request := mk_request {
  rq_key : Hash;
  rq_network : option string;
  rq_block : option EthereumBlockPointer;
  rq_cacheable : bool;
}.

(** The network and block to cache under, if the request is to be cached. *)
Definition cached_at (rq : Request) : option (string * EthereumBlockPointer) :=
  if rq_cacheable rq then
    match rq_block rq, rq_network rq with
    | Some block_ptr, Some network =>
        if (ptr_number block_ptr =? BLOCK_NUMBER_MAX)%Z then None else Some (network, block_ptr)
    | _, _ => None
    end
  else None.

(** Where a request is; works are the shared futures of the herd cache. *)
Inductive Status :=
| Started
| MissedBlocks
| Missed
| Owner (work : nat)
| Waiter (work : nat)
| Ran (r : QueryResult)
| Served (r : QueryResult).

Record State := mk_state {
  st_blocks : QueryBlockCache;
  st_lfu : LfuCache Hash WeightedResult;
  st_inflight : gmap Hash nat;
  st_works : gmap nat (Hash * option QueryResult);
  st_clients : gmap nat (Request * Status);
}.

Definition set_status (s : State) (i : nat) (rq : Request) (x : Status) : State :=
  mk_state (st_blocks s) (st_lfu s) (st_inflight s) (st_works s) (<[i := (rq, x)]> (st_clients s)).

(** Storing the result of a query that was run. *)
Definition store_result (s : State) (network : string) (block_ptr : EthereumBlockPointer)
    (key : Hash) (r : QueryResult) : res unit State :=
  let weight := data_weight r in
  let? (blocks, inserted) :=
    lift_panic (block_cache_insert (st_blocks s) network block_ptr key r weight) in
  if inserted : bool then
    Ok (mk_state blocks (st_lfu s) (st_inflight s) (st_works s) (st_clients s))
  else
    let? (_, lfu) := evict_with_period (st_lfu s) max_mem stale_period in
    Ok (mk_state blocks (LfuCache.insert size_of_entry lfu key (mk_weighted r weight))
          (st_inflight s) (st_works s) (st_clients s)).

Section steps.
(** What running a request may return. *)
Context (runs : Request -> QueryResult -> Prop).

Inductive step : State -> State -> Prop :=
| step_start s i rq :
    st_clients s !! i = None -> step s (set_status s i rq Started)
| step_uncached s i rq r :
    st_clients s !! i = Some (rq, Started) -> cached_at rq = None -> runs rq r ->
    step s (set_status s i rq (Served r))
| step_block_hit s i rq network block_ptr r :
    st_clients s !! i = Some (rq, Started) -> cached_at rq = Some (network, block_ptr) ->
    block_cache_get (st_blocks s) network block_ptr (rq_key rq) = Some r ->
    step s (set_status s i rq (Served r))
| step_block_miss s i rq network block_ptr :
    st_clients s !! i = Some (rq, Started) -> cached_at rq = Some (network, block_ptr) ->
    block_cache_get (st_blocks s) network block_ptr (rq_key rq) = None ->
    step s (set_status s i rq MissedBlocks)
| step_lfu s i rq hit lfu :
    st_clients s !! i = Some (rq, MissedBlocks) ->
    LfuCache.get (st_lfu s) (rq_key rq) = (hit, lfu) ->
    step s (mk_state (st_blocks s) lfu (st_inflight s) (st_works s)
              (<[i := (rq, match hit with Some w => Served (wr_result w) | None => Missed end)]>
                 (st_clients s)))
| step_join s i rq work :
    st_clients s !! i = Some (rq, Missed) -> st_inflight s !! rq_key rq = Some work ->
    step s (set_status s i rq (Waiter work))
| step_own s i rq work :
    st_clients s !! i = Some (rq, Missed) -> st_inflight s !! rq_key rq = None ->
    st_works s !! work = None ->
    step s (mk_state (st_blocks s) (st_lfu s) (<[rq_key rq := work]> (st_inflight s))
              (<[work := (rq_key rq, None)]> (st_works s)) (<[i := (rq, Owner work)]> (st_clients s)))
| step_run s i rq work key r :
    st_clients s !! i = Some (rq, Owner work) -> st_works s !! work = Some (key, None) ->
    runs rq r ->
    step s (mk_state (st_blocks s) (st_lfu s) (st_inflight s) (<[work := (key, Some r)]> (st_works s))
              (st_clients s))
| step_owner_done s i rq work key r :
    st_clients s !! i = Some (rq, Owner work) -> st_works s !! work = Some (key, Some r) ->
    step s (mk_state (st_blocks s) (st_lfu s) (delete (rq_key rq) (st_inflight s)) (st_works s)
              (<[i := (rq, Ran r)]> (st_clients s)))
| step_waiter_done s i rq work key r :
    st_clients s !! i = Some (rq, Waiter work) -> st_works s !! work = Some (key, Some r) ->
    step s (set_status s i rq (Served r))
| step_not_stored s i rq r :
    st_clients s !! i = Some (rq, Ran r) -> has_errors r = true ->
    step s (set_status s i rq (Served r))
| step_stored s i rq network block_ptr r s' :
    st_clients s !! i = Some (rq, Ran r) -> has_errors r = false ->
    cached_at rq = Some (network, block_ptr) ->
    store_result s network block_ptr (rq_key rq) r = Ok s' ->
    step s (set_status s' i rq (Served r)).

Definition initial : State := mk_state [] LfuCache.new ∅ ∅ ∅.
Definition reachable (s : State) : Prop := rtc step initial s.
End steps.
End cache.

(** ** What is proved: the cache of recent blocks *)
Section blocks.
Context {Hash : Type} `{Countable Hash}.
Context {QueryResult : Type} (has_errors : QueryResult -> bool) (data_weight : QueryResult -> Z).
Context (cache_blocks : nat) (max_mem : Z).
Notation CacheByBlock := (CacheByBlock (Hash := Hash) (QueryResult := QueryResult)).
Notation network_insert := (network_insert has_errors cache_blocks max_mem).
Notation block_cache_insert := (block_cache_insert has_errors cache_blocks max_mem).

(** The entries of the cache: network, block, key and result. *)
Definition held (c : list (string * list CacheByBlock)) (network : string)
    (block_ptr : EthereumBlockPointer) (key : Hash) (r : QueryResult) : Prop :=
  exists caches b, (network, caches) ∈ c /\ b ∈ caches /\ cb_block b = block_ptr
    /\ cb_cache b !! key = Some r.

Lemma block_cache_get_held c network block_ptr key r :
  block_cache_get c network block_ptr key = Some r -> held c network block_ptr key r.
Proof.
  unfold block_cache_get. destruct (List.find _ c) as [[n caches]|] eqn:En; [|done].
  cbn [mbind option_bind]. destruct (List.find _ caches) as [b|] eqn:Eb; [|done].
  cbn [mbind option_bind]. intros Hr.
  apply List.find_some in En as [En E%String.eqb_eq]. cbn [fst] in E. subst n.
  apply List.find_some in Eb as [Eb Hb%bool_decide_eq_true].
  exists caches, b. repeat split; try done; by apply list_elem_of_In.
Qed.

Lemma cache_by_block_insert_ok (c : CacheByBlock) (key : Hash) value weight c' fits :
  cache_by_block_insert has_errors c key value weight = Ok (c', fits) ->
  has_errors value = false /\ cb_block c' = cb_block c /\ cb_max_weight c' = cb_max_weight c
  /\ (if fits : bool then
        cb_cache c' = <[key := value]> (cb_cache c)
        /\ cb_weight c' = wrap64 (cb_weight c + weight) /\ (cb_weight c' <= cb_max_weight c)%Z
      else c' = c).
Proof.
  unfold cache_by_block_insert. destruct (has_errors value); [done|].
  destruct (Z.leb_spec (wrap64 (cb_weight c + weight)) (cb_max_weight c)); intros [= <- <-]; done.
Qed.

(** The weight of the results in the cache of a block. *)
Definition held_weight (m : gmap Hash QueryResult) : Z := map_fold (fun _ r z => data_weight r + z)%Z 0%Z m.

(** The results in the cache of a block weigh no more than its counter says, and
    that is within the block's share of the memory. *)
Definition block_ok (b : CacheByBlock) : Prop :=
  cb_max_weight b = (max_mem / Z.of_nat cache_blocks)%Z
  /\ (held_weight (cb_cache b) <= cb_weight b <= cb_max_weight b)%Z
  /\ map_Forall (fun _ r => has_errors r = false) (cb_cache b).

(** The blocks of a network: at most as many as configured, the highest first,
    each within its share of the memory. *)
Definition network_ok (caches : list CacheByBlock) : Prop :=
  length caches <= cache_blocks
  /\ StronglySorted (fun a b => ptr_number (cb_block b) <= ptr_number (cb_block a))%Z caches
  /\ NoDup (cb_block <$> caches)
  /\ Forall block_ok caches.

Hypothesis data_weight_nonneg : forall r, (0 <= data_weight r)%Z.

Lemma held_weight_delete m key (r : QueryResult) :
  m !! key = Some r -> held_weight m = (data_weight r + held_weight (delete key m))%Z.
Proof. intros Hk. unfold held_weight. rewrite (map_fold_delete_L _ _ key r m); [done| |done]. intros. lia. Qed.

Lemma held_weight_nonneg m : (0 <= held_weight m)%Z.
Proof.
  unfold held_weight. induction m as [|k r m Hk IH] using map_ind; [by rewrite map_fold_empty|].
  rewrite map_fold_insert_L; [|intros; lia|done]. specialize (data_weight_nonneg r). lia.
Qed.

Lemma held_weight_insert m key r : (held_weight (<[key := r]> m) <= held_weight m + data_weight r)%Z.
Proof.
  rewrite (held_weight_delete _ key r) by apply lookup_insert_eq. rewrite delete_insert_eq.
  destruct (m !! key) as [r0|] eqn:Ek; [|rewrite delete_id by done; lia].
  rewrite (held_weight_delete m key r0 Ek). specialize (data_weight_nonneg r0). lia.
Qed.

(** A result that is inserted fits, as long as the counter does not overflow. *)
Lemma cache_by_block_insert_block_ok (c c' : CacheByBlock) key r fits :
  (cb_max_weight c + data_weight r < 2 ^ 64)%Z ->
  block_ok c -> cache_by_block_insert has_errors c key r (data_weight r) = Ok (c', fits) -> block_ok c'.
Proof.
  intros Hlt (Hm & Hw & He) (Hr & _ & Hm' & Hf)%cache_by_block_insert_ok.
  destruct fits; [|by subst]. destruct Hf as (Hc & Hw' & Hle). unfold block_ok. rewrite Hc, Hm'.
  pose proof (held_weight_nonneg (cb_cache c)). pose proof (held_weight_insert (cb_cache c) key r).
  rewrite wrap64_small in Hw' by (unfold is_u64; specialize (data_weight_nonneg r); lia).
  split; [done|]. split; [lia|]. by apply map_Forall_insert_2.
Qed.

Lemma insert_in_block_ok (caches : list CacheByBlock) block_ptr (key : Hash) r weight caches' fits :
  insert_in_block has_errors caches block_ptr key r weight = Some (Ok (caches', fits)) ->
  exists l1 b b' l2, caches = l1 ++ b :: l2 /\ caches' = l1 ++ b' :: l2 /\ cb_block b = block_ptr
    /\ cache_by_block_insert has_errors b key r weight = Ok (b', fits).
Proof.
  revert caches'. induction caches as [|b caches IH]; intros caches' Hi; [done|].
  cbn [insert_in_block] in Hi. case_bool_decide as Hb.
  - injection Hi as Hi.
    destruct (cache_by_block_insert has_errors b key r weight) as [[b' f]|[]|] eqn:E; simplify_eq/=.
    by exists [], b, b', caches.
  - apply fmap_Some in Hi as ([[caches1 f]|[]|] & Hi & Hr); simplify_eq/=.
    destruct (IH _ Hi) as (l1 & b1 & b1' & l2 & -> & -> & ? & ?).
    by exists (b :: l1), b1, b1', l2.
Qed.

Lemma insert_in_block_none (caches : list CacheByBlock) block_ptr (key : Hash) r weight :
  insert_in_block has_errors caches block_ptr key r weight = None ->
  block_ptr ∉ (cb_block <$> caches).
Proof.
  induction caches as [|b caches IH]; cbn [insert_in_block]; intros Hi; [apply not_elem_of_nil|].
  case_bool_decide as Hb; [done|]. apply fmap_None in Hi.
  rewrite fmap_cons, not_elem_of_cons. split; [congruence|auto].
Qed.

Lemma network_ok_replace l1 (b b' : CacheByBlock) l2 :
  cb_block b' = cb_block b ->  block_ok b' -> network_ok (l1 ++ b :: l2) -> network_ok (l1 ++ b' :: l2).
Proof.
  intros Hb Hb' (H1 & H2 & H3 & H4). split; [by rewrite length_app in *|].
  assert (Hf : cb_block <$> l1 ++ b' :: l2 = cb_block <$> l1 ++ b :: l2)
    by (by rewrite !fmap_app, !fmap_cons, Hb).
  split; [|split; [by rewrite Hf|]].
  - assert (Hiff : forall l : list CacheByBlock,
      StronglySorted (fun a b => ptr_number (cb_block b) <= ptr_number (cb_block a))%Z l
      <-> StronglySorted (fun p q => ptr_number q <= ptr_number p)%Z (cb_block <$> l)).
    { induction l as [|x l IHl]; [split; constructor|]. rewrite fmap_cons.
      split; inversion_clear 1; constructor; try (by apply IHl);
        [by apply Forall_fmap|]. by rewrite Forall_fmap in *. }
    apply Hiff. rewrite Hf. by apply Hiff.
  - apply Forall_app in H4 as [H4 H5]. apply Forall_cons in H5 as [_ H6].
    apply Forall_app. split; [done|]. by constructor.
Qed.

Lemma pop_back_take {A} (l : list A) : pop_back l = take (pred (length l)) l.
Proof. apply removelast_firstn_len. Qed.

Lemma elem_of_pop_back {A} (l : list A) x : x ∈ pop_back l -> x ∈ l.
Proof.
  rewrite pop_back_take. intros Hx. rewrite <- (take_drop (pred (length l)) l). apply elem_of_app.
  by left.
Qed.

Lemma network_ok_pop_back caches : network_ok caches -> network_ok (pop_back caches).
Proof.
  intros (H1 & H2 & H3 & H4). rewrite pop_back_take. set (n := pred (length caches)).
  rewrite <- (take_drop n caches) in H2, H3, H4.
  split; [rewrite length_take; lia|]. split; [by eapply StronglySorted_app_1_l|].
  split; [rewrite fmap_app in H3; by apply NoDup_app in H3 as [? _]|].
  by apply Forall_app in H4 as [? _].
Qed.

Lemma cache_by_block_insert_entries (c : CacheByBlock) key value weight c' fits key' r :
  cache_by_block_insert has_errors c key value weight = Ok (c', fits) ->
  cb_cache c' !! key' = Some r ->
  cb_cache c !! key' = Some r \/ key' = key /\ r = value.
Proof.
  intros (_ & _ & _ & Hf)%cache_by_block_insert_ok. destruct fits; [|subst; by left].
  destruct Hf as [-> _]. intros [[-> ->]|[_ ?]]%lookup_insert_Some; [by right|by left].
Qed.

Lemma network_insert_entries (caches : list CacheByBlock) block_ptr (key : Hash) r weight caches' fits b
    key' r' :
  network_insert caches block_ptr key r weight = Ok (caches', fits) ->
  b ∈ caches' -> cb_cache b !! key' = Some r' ->
  (exists b0, b0 ∈ caches /\ cb_block b0 = cb_block b /\ cb_cache b0 !! key' = Some r')
  \/ key' = key /\ r' = r /\ cb_block b = block_ptr /\ has_errors r = false.
Proof.
  unfold QueryCache.network_insert. intros Hi Hb Hr.
  destruct (insert_in_block has_errors caches block_ptr key r weight) as [[[l f]|[]|]|] eqn:E;
    [simplify_eq|done|].
  - apply insert_in_block_ok in E as (l1 & b1 & b2 & l2 & -> & -> & Hb1 & Hins).
    pose proof (cache_by_block_insert_ok _ _ _ _ _ _ Hins) as (He & Hb2 & _).
    apply elem_of_app in Hb as [Hb|[->|Hb]%elem_of_cons].
    + left. exists b. rewrite elem_of_app. eauto.
    + destruct (cache_by_block_insert_entries _ _ _ _ _ _ _ _ Hins Hr) as [?|[-> ->]];
        [left|right; by rewrite Hb2].
      exists b1. rewrite elem_of_app, elem_of_cons. eauto.
    + left. exists b. rewrite elem_of_app, elem_of_cons. eauto.
  - destruct (0 <? cache_blocks)%nat; [|simplify_eq; left; by exists b].
    destruct (match caches with [] => true | highest :: _ => _ end); [|simplify_eq; left; by exists b].
    destruct (cache_by_block_insert _ _ _ _ _) as [[c f]|[]|] eqn:Ec; simplify_eq/=.
    pose proof (cache_by_block_insert_ok _ _ _ _ _ _ Ec) as (He & Hcb & _).
    apply elem_of_cons in Hb as [->|Hb].
    + destruct (cache_by_block_insert_entries _ _ _ _ _ _ _ _ Ec Hr) as [Hx|[-> ->]];
        [by cbn in Hx|right; by rewrite Hcb].
    + left. exists b. split; [|done]. destruct (length caches =? cache_blocks)%nat; [|done].
      by apply elem_of_pop_back.
Qed.

Lemma network_insert_network_ok (caches : list CacheByBlock) block_ptr (key : Hash) r caches' fits :
  (0 <= max_mem)%Z -> (max_mem + data_weight r < 2 ^ 64)%Z ->
  network_ok caches -> network_insert caches block_ptr key r (data_weight r) = Ok (caches', fits) ->
  network_ok caches'.
Proof.
  unfold QueryCache.network_insert. intros Hmem Hlt Hok Hi.
  assert (Hshare : (0 <= max_mem / Z.of_nat cache_blocks <= max_mem)%Z).
  { destruct cache_blocks as [|n]; [by rewrite Zdiv_0_r|].
    split; [apply Z.div_pos; lia|apply Z.div_le_upper_bound; nia]. }
  destruct (insert_in_block has_errors caches block_ptr key r (data_weight r)) as [[[l f]|[]|]|] eqn:E;
    [simplify_eq|done|].
  - apply insert_in_block_ok in E as (l1 & b1 & b2 & l2 & -> & -> & Hb1 & Hins).
    pose proof (cache_by_block_insert_ok _ _ _ _ _ _ Hins) as (_ & Hb2 & _).
    pose proof Hok as (_ & _ & _ & Hall). apply Forall_app in Hall as [_ Hall].
    apply Forall_cons in Hall as [Hb _].
    apply (network_ok_replace l1 b1); [done| |done].
    eapply cache_by_block_insert_block_ok; [|exact Hb|exact Hins]. destruct Hb as [-> _]. lia.
  - destruct (Nat.ltb_spec 0 cache_blocks) as [Hpos|]; [|by simplify_eq].
    destruct (match caches with [] => true | highest :: _ => _ end) eqn:Eh; [|by simplify_eq].
    destruct (cache_by_block_insert _ _ _ _ _) as [[c f]|[]|] eqn:Ec; simplify_eq/=.
    pose proof (cache_by_block_insert_ok _ _ _ _ _ _ Ec) as (_ & Hcb & _).
    apply cache_by_block_insert_block_ok in Ec as Hcok; [|cbn; lia|].
    2: { split; [done|]. split; [cbn; unfold held_weight; rewrite map_fold_empty; lia|apply map_Forall_empty]. }
    cbn in Hcb.
    set (kept := if (length caches =? cache_blocks)%nat then pop_back caches else caches) in *.
    assert (Hkept : network_ok kept /\ length kept < cache_blocks
              /\ (forall b, b ∈ kept -> b ∈ caches)).
    { subst kept. destruct (Nat.eqb_spec (length caches) cache_blocks) as [Hl|Hl].
      - split; [by apply network_ok_pop_back|]. split; [rewrite pop_back_take, length_take; lia|].
        intros b. apply elem_of_pop_back.
      - split; [done|]. destruct Hok as [? _]. split; [lia|done]. }
    assert (Hhigh : Forall (fun b => ptr_number (cb_block b) <= ptr_number block_ptr)%Z caches).
    { destruct Hok as (_ & Hs & _). destruct caches as [|h caches]; [constructor|].
      apply StronglySorted_inv in Hs as [_ Hs]. apply Z.leb_le in Eh. constructor; [done|].
      eapply Forall_impl; [exact Hs|]. cbn beta. intros. lia. }
    apply insert_in_block_none in E.
    destruct Hkept as ((_ & H2 & H3 & H4) & Hlen & Hsub). split; [cbn [length]; lia|].
    split; [|split].
    + constructor; [done|]. apply Forall_forall. intros b Hb. rewrite Hcb.
      by apply (proj1 (Forall_forall _ _) Hhigh b), Hsub.
    + rewrite fmap_cons, Hcb. apply NoDup_cons. split; [|done]. intros (b & Hb & Hin)%list_elem_of_fmap.
      apply E. rewrite Hb. by apply list_elem_of_fmap_2, Hsub.
    + by constructor.
Qed.

(** The whole cache: every network once, and fine. *)
Definition block_cache_ok (c : list (string * list CacheByBlock)) : Prop :=
  NoDup c.*1 /\ Forall (fun x => network_ok x.2) c.

Lemma block_cache_insert_networks (c : list (string * list CacheByBlock)) network block_ptr key r
    weight c' fits :
  block_cache_insert c network block_ptr key r weight = Ok (c', fits) ->
  forall n, n ∈ c'.*1 -> n = network \/ n ∈ c.*1.
Proof.
  revert c'. induction c as [|[n0 caches] c IH]; intros c' Hi n Hn; cbn [QueryCache.block_cache_insert] in Hi.
  - destruct (network_insert [] block_ptr key r weight) as [[l f]|[]|]; simplify_eq/=.
    left. by apply list_elem_of_singleton in Hn.
  - destruct (String.eqb_spec n0 network) as [->|].
    + destruct (network_insert caches block_ptr key r weight) as [[l f]|[]|]; simplify_eq/=. by right.
    + destruct (QueryCache.block_cache_insert _ _ _ c network block_ptr key r weight)
        as [[c1 f]|[]|] eqn:E; simplify_eq/=.
      apply elem_of_cons in Hn as [->|Hn]; [right; left|].
      destruct (IH c1 eq_refl n Hn); [by left|right; by right].
Qed.

Lemma block_cache_insert_ok (c : list (string * list CacheByBlock)) network block_ptr key r c' fits :
  (0 <= max_mem)%Z -> (max_mem + data_weight r < 2 ^ 64)%Z -> block_cache_ok c ->
  block_cache_insert c network block_ptr key r (data_weight r) = Ok (c', fits) -> block_cache_ok c'.
Proof.
  intros Hmem Hlt. revert c'. induction c as [|[n caches] c IH]; intros c' [Hnd Hall] Hi;
    cbn [QueryCache.block_cache_insert] in Hi.
  - destruct (network_insert [] block_ptr key r (data_weight r)) as [[l f]|[]|] eqn:E; simplify_eq/=.
    split; [apply NoDup_singleton|]. constructor; [|constructor].
    eapply network_insert_network_ok; [done|done| |exact E].
    split; [cbn; lia|]. split; [constructor|]. split; constructor.
  - apply Forall_cons in Hall as [Hn Hall]. cbn [fmap list_fmap fst] in Hnd.
    apply NoDup_cons in Hnd as [Hin Hnd]. destruct (String.eqb_spec n network) as [->|Hne].
    + destruct (network_insert caches block_ptr key r (data_weight r)) as [[l f]|[]|] eqn:E; simplify_eq/=.
      split; [by apply NoDup_cons|]. constructor; [|done].
      by eapply network_insert_network_ok.
    + destruct (QueryCache.block_cache_insert _ _ _ c network block_ptr key r (data_weight r))
        as [[c1 f]|[]|] eqn:E; simplify_eq/=.
      destruct (IH c1 (conj Hnd Hall) eq_refl) as [H1 H2]. split; [|by constructor].
      cbn [fmap list_fmap fst]. apply NoDup_cons. split; [|done]. intros Hn1.
      by destruct (block_cache_insert_networks _ _ _ _ _ _ _ _ E n Hn1).
Qed.

Lemma block_cache_insert_held (c : list (string * list CacheByBlock)) network block_ptr key r weight
    c' fits n b k r' :
  block_cache_insert c network block_ptr key r weight = Ok (c', fits) ->
  held c' n b k r' ->
  held c n b k r' \/ n = network /\ b = block_ptr /\ k = key /\ r' = r /\ has_errors r = false.
Proof.
  revert c'. induction c as [|[n0 caches] c IH]; intros c' Hi (caches' & b' & Hin & Hb' & <- & Hr');
    cbn [QueryCache.block_cache_insert] in Hi.
  - destruct (network_insert [] block_ptr key r weight) as [[l f]|[]|] eqn:E; simplify_eq/=.
    apply list_elem_of_singleton in Hin. simplify_eq.
    destruct (network_insert_entries _ _ _ _ _ _ _ _ _ _ E Hb' Hr') as [(b0 & Hb0 & _)|H1];
      [by apply elem_of_nil in Hb0|right; naive_solver].
  - destruct (String.eqb_spec n0 network) as [->|Hne].
    + destruct (network_insert caches block_ptr key r weight) as [[l f]|[]|] eqn:E; simplify_eq/=.
      apply elem_of_cons in Hin as [[= -> ->]|Hin];
        [|left; exists caches', b'; repeat split; try done; by right].
      destruct (network_insert_entries _ _ _ _ _ _ _ _ _ _ E Hb' Hr') as [(b0 & H1 & H2 & H3)|H1];
        [left|right; naive_solver].
      exists caches, b0. repeat split; try done. left.
    + destruct (QueryCache.block_cache_insert _ _ _ c network block_ptr key r weight)
        as [[c1 f]|[]|] eqn:E; simplify_eq/=.
      apply elem_of_cons in Hin as [[= -> ->]|Hin].
      * left. exists caches, b'. repeat split; try done. left.
      * destruct (IH c1 eq_refl) as [(caches1 & b1 & H1 & H2 & H3 & H4)|H1];
          [by exists caches', b'| |by right].
        left. exists caches1, b1. repeat split; try done. by right.
Qed.
End blocks.

(** ** What is proved: concurrent requests *)
Section concurrent.
Context {Hash : Type} `{Countable Hash}.
Context {QueryResult : Type} (has_errors : QueryResult -> bool) (data_weight : QueryResult -> Z).
Context (cache_blocks : nat) (max_mem stale_period : Z).
#[local] Existing Instance weighted_weight.
Context {PQ : PriorityQueue Hash (WeightedResult (QueryResult := QueryResult))}.
Context `{CacheWeight Hash} (size_of_entry : Z).
Context (runs : QueryCache.Request (Hash := Hash) -> QueryResult -> Prop).
Notation State := (QueryCache.State (Hash := Hash) (QueryResult := QueryResult)).
Notation Request := (QueryCache.Request (Hash := Hash)).
Notation step := (QueryCache.step has_errors data_weight cache_blocks max_mem stale_period size_of_entry runs).
Implicit Types (s : State) (rq : Request) (r : QueryResult) (key : Hash).

(** A result some request with this key returned. *)
Definition sound (key : Hash) (r : QueryResult) : Prop :=
  exists rq, rq_key rq = key /\ runs rq r.

Definition status_ok s (rq : Request) (x : Status (QueryResult := QueryResult)) : Prop :=
  match x with
  | Owner work =>
      (exists o, st_works s !! work = Some (rq_key rq, o)) /\ st_inflight s !! rq_key rq = Some work
  | Waiter work => exists o, st_works s !! work = Some (rq_key rq, o)
  | Ran r | Served r => sound (rq_key rq) r
  | _ => True
  end.

Record inv s : Prop := {
  inv_blocks : block_cache_ok has_errors data_weight cache_blocks max_mem (st_blocks s);
  inv_held n b key r : held (st_blocks s) n b key r -> sound key r;
  inv_lfu key w : values (st_lfu s) !! key = Some w -> sound key (wr_result w);
  inv_works work key r : st_works s !! work = Some (key, Some r) -> sound key r;
  inv_inflight key work : st_inflight s !! key = Some work ->
    exists o, st_works s !! work = Some (key, o);
  inv_status i rq x : st_clients s !! i = Some (rq, x) -> status_ok s rq x;
  inv_owners i j rq rq' work :
    st_clients s !! i = Some (rq, Owner work) -> st_clients s !! j = Some (rq', Owner work) -> i = j;
}.

(** Eviction only takes entries out. *)
Lemma inv_set s i rq x :
  inv s -> status_ok s rq x -> (forall work, x <> Owner work) -> inv (set_status s i rq x).
Proof.
  intros Hi Hx Hno. destruct Hi as [H1 H2 H3 H4 H5 H6 H7]. split; try done.
  - cbn. intros j rq' y [[-> [= <- <-]]|[_ Hj]]%lookup_insert_Some; [done|by eapply H6].
  - cbn. intros j k rq1 rq2 work [[-> [= <- ->]]|[_ Hj]]%lookup_insert_Some; [by destruct (Hno work)|].
    intros [[-> [= <- ->]]|[_ Hk]]%lookup_insert_Some; [by destruct (Hno work)|]. by eapply H7.
Qed.

(** The weights of results, and what the caches may hold on top of one, are in the
    range of the counters. *)
Definition weights_fit : Prop :=
  (forall r, (0 <= data_weight r)%Z) /\ forall rq r, runs rq r -> (max_mem + data_weight r < 2 ^ 64)%Z.

Lemma store_result_inv s network block_ptr key r s' :
  (0 <= max_mem)%Z -> weights_fit -> inv s -> sound key r ->
  store_result has_errors data_weight cache_blocks max_mem stale_period size_of_entry
    s network block_ptr key r = Ok s' ->
  inv s' /\ st_clients s' = st_clients s.
Proof.
  intros Hmem [Hnn Hfit] Hi Hr Hs. unfold store_result in Hs.
  pose proof Hr as (rq0 & _ & Hlt%Hfit).
  destruct (block_cache_insert _ _ _ _ _ _ _ _ _) as [[blocks f]|[]|] eqn:Eb; simplify_eq/=.
  pose proof (block_cache_insert_ok _ _ _ _ Hnn _ _ _ _ _ _ _ Hmem Hlt (inv_blocks s Hi) Eb) as Hok.
  assert (Hheld : forall n b k r', held blocks n b k r' -> sound k r').
  { intros n b k r' Hh. destruct (block_cache_insert_held _ _ _ _ _ _ _ _ _ _ _ _ _ _ _ Eb Hh)
      as [Hh'|(_ & _ & -> & -> & _)]; [by eapply inv_held|done]. }
  destruct Hi as [H1 H2 H3 H4 H5 H6 H7]. destruct f; [simplify_eq; split; [by split|done]|].
  destruct (evict_with_period _ _ _) as [[o lfu]| |] eqn:Ee; simplify_eq/=.
  split; [|done]. split; try done. intros k w. cbn [st_lfu]. rewrite insert_values.
  intros [[<- <-]|[_ Hk]]%lookup_insert_Some; [done|]. eapply H3, evict_values; [exact Ee|exact Hk].
Qed.

Lemma works_same s s' rq x :
  st_works s' = st_works s -> st_inflight s' = st_inflight s -> status_ok s rq x -> status_ok s' rq x.
Proof. unfold status_ok. by intros -> ->. Qed.

Lemma inv_own s i rq work :
  inv s -> st_clients s !! i = Some (rq, Missed) -> st_inflight s !! rq_key rq = None ->
  st_works s !! work = None ->
  inv (mk_state (st_blocks s) (st_lfu s) (<[rq_key rq := work]> (st_inflight s))
         (<[work := (rq_key rq, None)]> (st_works s)) (<[i := (rq, Owner work)]> (st_clients s))).
Proof.
  intros Hi Hc Hn Hw. destruct Hi as [H1 H2 H3 H4 H5 H6 H7].
  assert (Hkeep : forall w k o, st_works s !! w = Some (k, o) ->
            (<[work := (rq_key rq, None)]> (st_works s)) !! w = Some (k, o)).
  { intros w k o Hk. rewrite lookup_insert_ne; [done|]. intros ->. congruence. }
  assert (Hfresh : forall j rq' , st_clients s !! j <> Some (rq', Owner work)).
  { intros j rq' Hj. destruct (H6 _ _ _ Hj) as [[o Ho] _]. congruence. }
  split; cbn; try done.
  - intros w k r [[_ [= _ ?]]|[_ Hk]]%lookup_insert_Some. by eapply H4.
  - intros k w [[<- <-]|[_ Hk]]%lookup_insert_Some; [exists None; by rewrite lookup_insert_eq|].
    destruct (H5 _ _ Hk) as [o Ho]. eauto.
  - intros j rq' x [[_ [= <- <-]]|[Hne Hj]]%lookup_insert_Some.
    { split; [exists None|]; cbn; by rewrite lookup_insert_eq. }
    specialize (H6 _ _ _ Hj). unfold status_ok in *. cbn. destruct x; try done.
    + destruct H6 as [[o Ho] Hin]. split; [eauto|].
      rewrite lookup_insert_ne; [done|]. intros Hk. congruence.
    + destruct H6 as [o Ho]. eauto.
  - intros j k rq1 rq2 w Hj Hk.
    apply lookup_insert_Some in Hj as [[<- Ej]|[_ Hj]];
      apply lookup_insert_Some in Hk as [[<- Ek]|[_ Hk]]; [done| | |by eapply H7].
    + injection Ej as _ <-. by destruct (Hfresh k rq2).
    + injection Ek as _ <-. by destruct (Hfresh j rq1).
Qed.

Lemma inv_run s work key r :
  inv s -> st_works s !! work = Some (key, None) -> sound key r ->
  inv (mk_state (st_blocks s) (st_lfu s) (st_inflight s) (<[work := (key, Some r)]> (st_works s))
         (st_clients s)).
Proof.
  intros Hi Hw Hr. destruct Hi as [H1 H2 H3 H4 H5 H6 H7].
  assert (Hkeep : forall w k o, st_works s !! w = Some (k, o) ->
            exists o', (<[work := (key, Some r)]> (st_works s)) !! w = Some (k, o')).
  { intros w k o Hk. destruct (decide (work = w)) as [->|].
    - exists (Some r). rewrite lookup_insert_eq. congruence.
    - exists o. by rewrite lookup_insert_ne. }
  split; cbn; try done.
  - intros w k r' [[_ [= <- <-]]|[_ Hk]]%lookup_insert_Some; [done|by eapply H4].
  - intros k w Hk. destruct (H5 _ _ Hk) as [o Ho]. by eapply Hkeep.
  - intros j rq x Hj. specialize (H6 _ _ _ Hj). unfold status_ok in *. cbn. destruct x; try done.
    + destruct H6 as [[o Ho] Hin]. split; [by eapply Hkeep|done].
    + destruct H6 as [o Ho]. by eapply Hkeep.
Qed.

Lemma inv_owner_done s i rq work key r :
  inv s -> st_clients s !! i = Some (rq, Owner work) -> st_works s !! work = Some (key, Some r) ->
  inv (mk_state (st_blocks s) (st_lfu s) (delete (rq_key rq) (st_inflight s)) (st_works s)
         (<[i := (rq, Ran r)]> (st_clients s))).
Proof.
  intros Hi Hc Hw. destruct Hi as [H1 H2 H3 H4 H5 H6 H7].
  destruct (H6 _ _ _ Hc) as [[o Ho] Hin]. assert (key = rq_key rq) as -> by congruence.
  split; cbn; try done.
  - intros k w [_ Hk]%lookup_delete_Some. by eapply H5.
  - intros j rq' x [[_ [= <- <-]]|[Hne Hj]]%lookup_insert_Some; [by eapply H4|].
    pose proof (H6 _ _ _ Hj) as Hx. unfold status_ok in *. cbn. destruct x as [| | |w| | |]; try done.
    destruct Hx as [Hx Hin']. split; [done|]. rewrite lookup_delete_ne; [done|].
    intros Hk. apply Hne. rewrite <- Hk, Hin in Hin'. injection Hin' as <-. by eapply H7.
  - intros j k rq1 rq2 w [[_ [=]]|[_ Hj]]%lookup_insert_Some [[_ [=]]|[_ Hk]]%lookup_insert_Some.
    by eapply H7.
Qed.

Lemma step_inv s s' : (0 <= max_mem)%Z -> weights_fit -> inv s -> step s s' -> inv s'.
Proof.
  intros Hmem Hfits Hi Hs. destruct Hs as
    [s i rq Hc|s i rq r Hc Ha Hr|s i rq n b r Hc Ha Hg|s i rq n b Hc Ha Hg|s i rq hit lfu Hc Hg
    |s i rq work Hc Hf|s i rq work Hc Hf Hw|s i rq work key r Hc Hw Hr|s i rq work key r Hc Hw
    |s i rq work key r Hc Hw|s i rq r Hc He|s i rq n b r s' Hc He Ha Hst].
  - by apply inv_set.
  - apply inv_set; [done|by exists rq|done].
  - apply inv_set; [done| |done]. apply block_cache_get_held in Hg. by eapply inv_held.
  - by apply inv_set.
  - destruct (get_values (st_lfu s) (rq_key rq)) as [Hv1 Hv2]. rewrite Hv1 in Hg.
    injection Hg as Hhit <-.
    assert (Hl : inv (mk_state (st_blocks s) (LfuCache.get (st_lfu s) (rq_key rq)).2 (st_inflight s)
                        (st_works s) (st_clients s))).
    { destruct Hi as [H1 H2 H3 H4 H5 H6 H7]. split; try done. cbn. by rewrite Hv2. }
    apply (inv_set _ i rq (match hit with Some w => Served (wr_result w) | None => Missed end) Hl);
      [|by destruct hit].
    destruct hit as [w|]; [|done]. eapply inv_lfu; [exact Hi|by symmetry].
  - apply inv_set; [done| |done]. by eapply inv_inflight.
  - by apply inv_own.
  - apply inv_run; [done|done|]. destruct (inv_status s Hi _ _ _ Hc) as [[o Ho] _].
    exists rq. split; [congruence|done].
  - by eapply inv_owner_done.
  - apply inv_set; [done| |done]. destruct (inv_status s Hi _ _ _ Hc) as [o Ho].
    assert (key = rq_key rq) as -> by congruence. by eapply inv_works.
  - apply inv_set; [done| |done]. by apply (inv_status s Hi _ _ _ Hc).
  - pose proof (inv_status s Hi _ _ _ Hc) as Hr.
    destruct (store_result_inv _ _ _ _ _ _ Hmem Hfits Hi Hr Hst) as [Hi' _]. by apply inv_set.
Qed.

Lemma initial_inv : inv initial.
Proof.
  split; try done.
  - split; [apply NoDup_nil_2|constructor].
  - intros n b key r (caches & c & Hin & _). by apply elem_of_nil in Hin.
Qed.

Lemma reachable_inv s : (0 <= max_mem)%Z -> weights_fit -> rtc step initial s -> inv s.
Proof.
  intros Hmem Hfits Hs. assert (forall s0, inv s0 -> rtc step s0 s -> inv s) as Hall.
  { intros s0 Hs0 Hr. induction Hr as [|s0 s1 s2 H1 _ IH]; [done|]. by apply IH, (step_inv s0). }
  apply (Hall initial); [apply initial_inv|done].
Qed.
End concurrent.

(** C8: However requests interleave, every request is served a result that
    running a request with its key returned; when keys tell queries apart that
    is a result of the request itself.  Of the requests with one key at most
    one runs the query at any time.  The cache of recent blocks holds for every
    network at most as many blocks as configured, the highest first, and only
    results without errors; the weights of the results held for a block add up to
    no more than the block's share of the memory (as long as the memory and the
    weight of a result are below 2^64 together, where the counter would wrap). *)
Theorem requests_served_own_results `{Countable Hash} {QueryResult} has_errors data_weight
    cache_blocks max_mem stale_period
    {PQ : PriorityQueue Hash (WeightedResult (QueryResult := QueryResult))} `{CacheWeight Hash}
    size_of_entry (runs : Request (Hash := Hash) -> QueryResult -> Prop) s :
  (0 <= max_mem)%Z -> weights_fit data_weight max_mem runs ->
  reachable has_errors data_weight cache_blocks max_mem stale_period size_of_entry runs s ->
  (forall i rq r, st_clients s !! i = Some (rq, Served r) ->
     (exists rq', rq_key rq' = rq_key rq /\ runs rq' r)
     /\ ((forall rq1 rq2 r, rq_key rq1 = rq_key rq2 -> runs rq1 r -> runs rq2 r) -> runs rq r))
  /\ (forall i j rq rq' w w', st_clients s !! i = Some (rq, Owner w) ->
        st_clients s !! j = Some (rq', Owner w') -> rq_key rq = rq_key rq' -> i = j)
  /\ block_cache_ok has_errors data_weight cache_blocks max_mem (st_blocks s).
Proof.
  intros Hmem Hfits Hr. apply reachable_inv in Hr; [|done..]. split; [|split; [|by apply Hr]].
  - intros i rq r Hc. destruct (inv_status _ _ _ _ _ _ Hr _ _ _ Hc) as (rq' & Hk & Hrun).
    split; [eauto|]. intros Hsame. by apply (Hsame rq').
  - intros i j rq rq' w w' Hi Hj Hk.
    destruct (inv_status _ _ _ _ _ _ Hr _ _ _ Hi) as [_ H1].
    destruct (inv_status _ _ _ _ _ _ Hr _ _ _ Hj) as [_ H2].
    rewrite Hk, H2 in H1. injection H1 as ->. by eapply inv_owners.
Qed.

Module Witness.
#[local] Existing Instance scan_queue.
#[local] Existing Instance weighted_weight.
#[local] Instance key_weight : CacheWeight nat := fun _ => 8%Z.
Definition rq : Request (Hash := nat) := mk_request 5 (Some "mainnet") (Some (mk_ptr 1 9)) true.
Definition no_errors (r : nat) : bool := false.
Definition data_weight (r : nat) : Z := 10.
Definition runs (rq : Request (Hash := nat)) (r : nat) : Prop := r = 7.
Notation step := (step no_errors data_weight 1 1000 100 16 runs).

(** The second request joins the first while it runs and is served first. *)
Definition final : State (Hash := nat) (QueryResult := nat) :=
    mk_state [("mainnet", [mk_cache_by_block (mk_ptr 1 9) 1000 10 {[5 := 7]}])] LfuCache.new
      ∅ {[0 := (5, Some 7)]} {[0 := (rq, Served 7); 1 := (rq, Served 7)]}.

Lemma final_reachable : reachable no_errors data_weight 1 1000 100 16 runs final.
Proof.
    eapply rtc_l; [by apply (step_start _ _ _ _ _ _ _ _ 0 rq)|].
    eapply rtc_l; [by apply (step_start _ _ _ _ _ _ _ _ 1 rq)|].
    eapply rtc_l; [by apply (step_block_miss _ _ _ _ _ _ _ _ 0 rq "mainnet" (mk_ptr 1 9))|].
    eapply rtc_l; [by apply (step_block_miss _ _ _ _ _ _ _ _ 1 rq "mainnet" (mk_ptr 1 9))|].
    eapply rtc_l; [by apply (step_lfu _ _ _ _ _ _ _ _ 0 rq None LfuCache.new)|].
    eapply rtc_l; [by apply (step_lfu _ _ _ _ _ _ _ _ 1 rq None LfuCache.new)|].
    eapply rtc_l; [by apply (step_own _ _ _ _ _ _ _ _ 0 rq 0)|].
    eapply rtc_l; [by apply (step_join _ _ _ _ _ _ _ _ 1 rq 0)|].
    eapply rtc_l; [by apply (step_run _ _ _ _ _ _ _ _ 0 rq 0 5 7)|].
    eapply rtc_l; [by apply (step_waiter_done _ _ _ _ _ _ _ _ 1 rq 0 5 7)|].
    eapply rtc_l; [by apply (step_owner_done _ _ _ _ _ _ _ _ 0 rq 0 5 7)|].
    eapply rtc_l; [eapply (step_stored _ _ _ _ _ _ _ _ 0 rq "mainnet" (mk_ptr 1 9) 7);
      [done|done|done|vm_compute; reflexivity]|].
    assert (forall s, s = final -> rtc step s final) as Hf by (by intros s ->). apply Hf.
    vm_compute. reflexivity.
Qed.

Lemma requests_served_own_results_witness :
    st_clients final !! 1 = Some (rq, Served 7) /\ runs rq 7.
Proof.
    split; [reflexivity|].
    destruct (requests_served_own_results no_errors data_weight 1 1000 100 16 runs final)
      as [H _]; [done| |exact final_reachable|].
    { split; [done|]. intros rq' r' _. reflexivity. }
    apply (H 1 rq 7); [reflexivity|]. intros rq1 rq2 r _ Hr. exact Hr.
Defined.
End Witness.
