(* ===== verification/MetadataEntities.v ===== *)
(** * The entities of the subgraph of subgraphs

    Models the entity types of [graph/src/data/subgraph/schema.rs]: the
    operations that write them, their reading back from the value of a GraphQL
    query with [TryFromValue] ([graph/src/data/graphql/values.rs], the end of
    [graph/src/data/subgraph/mod.rs]), and the loader of dynamic data sources
    ([core/src/subgraph/loader.rs]).  The records of the stored form of data
    sources are in [Manifest].

    Every entity is written under an id below that of the entity it belongs to.
    The theorems show that no two operations of a write collide, and that a
    dynamic data source that was written is read back by the loader. *)

From stdpp Require Import prelude list strings gmap pretty.
From Stdlib Require Import ZArith Lia Ascii.
From S2P Require Import Prelude.
From S2P Require Import GraphqlTypes.
From S2P Require Import StoreValue.
From S2P Require Import EntityCache.
From S2P Require Import EthTypes.
From S2P Require Import Manifest.
From S2P Require Import StoreQuery.
From S2P Require Import StoreEvents.
From S2P Require Import Metadata.
From S2P Require Import GraphqlSchema.
From S2P Require Import GraphqlQuery.

#[local] Open Scope string_scope.
#[local] Open Scope list_scope.

(** ** Code outside the repository: hashes as bytes and text, JSON, and the
    printing of schemas. *)
Class MetadataText := {
  h160_bytes : Address -> list Byte.byte;
  h256_bytes : H256 -> list Byte.byte;
  h160_from_str : string -> option Address;
  h256_from_str : string -> option H256;
  json_to_string : Entity -> string;
  json_from_str : string -> option Entity;
}.

(** What the round trip relies on: the text of a hash is the hex encoding of
    its bytes. *)
Class MetadataTextLaws {ST : ScalarText} (MT : MetadataText) : Prop := {
  h160_reads a : h160_from_str (hex_encode (h160_bytes a)) = Some a;
  h256_reads h : h256_from_str (hex_encode (h256_bytes h)) = Some h;
}.

(** ** Writing *)

(** [Value::from] of an [Option]. *)
Definition opt_value {A} (f : A -> Value) (o : option A) : Value :=
  match o with Some x => f x | None => VNull end.

(** The [entity!] macro: the fields are set one after the other. *)
Definition set_field (e : Entity) (kv : string * Value) : Entity := entity_set e kv.1 kv.2.
Definition entity_of (fields : list (string * Value)) : Entity := foldl set_field entity_new fields.

(** An element of an [OperationList]: type, id and data. *)
Record Addition := mk_addition { ad_entity : string; ad_id : string; ad_data : Entity }.

Definition sub_id (id part : string) : string := id +:+ "-" +:+ part.
Definition nth_id (id part : string) (i : nat) : string := sub_id (sub_id id part) (pretty i).

(** The loops over numbered children: their ids, and what they add. *)
Definition child_ids {A} (id part : string) (l : list A) : list Value :=
  imap (fun i _ => VString (nth_id id part i)) l.
Definition generate_children {A} (generate : A -> string -> list Addition) (id part : string)
    (l : list A) : list Addition :=
  mjoin (imap (fun i x => generate x (nth_id id part i)) l).

Definition metadata_operation (a : Addition) : MetadataOperation :=
  MSet (ad_entity a) (ad_id a) (ad_data a).
Definition entity_operation (a : Addition) : EntityOperation :=
  OpSet (metadata_key (ad_entity a) (ad_id a)) (ad_data a).

(** [WriteOperations] *)
Definition write_operations (ops : list Addition) : list MetadataOperation :=
  metadata_operation <$> ops.
Definition write_entity_operations (ops : list Addition) : list EntityOperation :=
  entity_operation <$> ops.

Section entities.
Context {ST : ScalarText} {MT : MetadataText}.

Definition generate_source (e : EthereumContractSourceEntity) (id : string) : list Addition :=
  [mk_addition "EthereumContractSource" id
     (entity_of [("id", VString id);
                 ("address", opt_value (fun a => VBytes (h160_bytes a)) (se_address e));
                 ("abi", VString (se_abi e));
                 ("startBlock", VBigInt (se_start_block e))])].

Definition generate_abi (e : EthereumContractAbiEntity) (id : string) : list Addition :=
  [mk_addition "EthereumContractAbi" id
     (entity_of [("id", VString id); ("name", VString (abe_name e)); ("file", VString (abe_file e))])].

Definition generate_filter (e : EthereumBlockHandlerFilterEntity) (id : string) : list Addition :=
  [mk_addition "EthereumBlockHandlerFilterEntity" id
     (entity_of [("id", VString id); ("kind", opt_value VString (fe_kind e))])].

Definition generate_block_handler (e : EthereumBlockHandlerEntity) (id : string) : list Addition :=
  let entity := entity_of [("id", VString id); ("handler", VString (bhe_handler e))] in
  match bhe_filter e with
  | Some f =>
      let filter_id := sub_id id "filter" in
      generate_filter f filter_id
      ++ [mk_addition "EthereumBlockHandlerEntity" id (entity_set entity "filter" (VString filter_id))]
  | None => [mk_addition "EthereumBlockHandlerEntity" id entity]
  end.

Definition generate_call_handler (e : EthereumCallHandlerEntity) (id : string) : list Addition :=
  [mk_addition "EthereumCallHandlerEntity" id
     (entity_of [("id", VString id); ("function", VString (che_function e));
                 ("handler", VString (che_handler e))])].

Definition generate_event_handler (e : EthereumContractEventHandlerEntity) (id : string)
  : list Addition :=
  [mk_addition "EthereumContractEventHandler" id
     (entity_of [("id", VString id); ("event", VString (ehe_event e));
                 ("topic0", opt_value (fun h => VBytes (h256_bytes h)) (ehe_topic0 e));
                 ("handler", VString (ehe_handler e))])].

Definition mapping_data (e : EthereumContractMappingEntity) (id : string) : Entity :=
  entity_of
    [("id", VString id);
     ("kind", VString (me_kind e));
     ("apiVersion", VString (me_api_version e));
     ("language", VString (me_language e));
     ("file", VString (me_file e));
     ("abis", VList (child_ids id "abi" (me_abis e)));
     ("entities", VList (VString <$> me_entities e));
     ("eventHandlers", VList (child_ids id "event-handler" (me_event_handlers e)));
     ("callHandlers", VList (child_ids id "call-handler" (me_call_handlers e)));
     ("blockHandlers", VList (child_ids id "block-handler" (me_block_handlers e)))].

Definition generate_mapping (e : EthereumContractMappingEntity) (id : string) : list Addition :=
  generate_children generate_abi id "abi" (me_abis e)
  ++ generate_children generate_event_handler id "event-handler" (me_event_handlers e)
  ++ generate_children generate_call_handler id "call-handler" (me_call_handlers e)
  ++ generate_children generate_block_handler id "block-handler" (me_block_handlers e)
  ++ [mk_addition "EthereumContractMapping" id (mapping_data e id)].

Definition generate_template_source (e : EthereumContractDataSourceTemplateSourceEntity)
    (id : string) : list Addition :=
  [mk_addition "EthereumContractDataSourceTemplateSource" id
     (entity_of [("id", VString id); ("abi", VString (tse_abi e))])].

Definition template_data (e : EthereumContractDataSourceTemplateEntity) (id : string) : Entity :=
  entity_of
    [("id", VString id);
     ("kind", VString (te_kind e));
     ("network", opt_value VString (te_network e));
     ("name", VString (te_name e));
     ("source", VString (sub_id id "source"));
     ("mapping", VString (sub_id id "mapping"))].

Definition generate_template (e : EthereumContractDataSourceTemplateEntity) (id : string)
  : list Addition :=
  generate_template_source (te_source e) (sub_id id "source")
  ++ generate_mapping (te_mapping e) (sub_id id "mapping")
  ++ [mk_addition "EthereumContractDataSourceTemplate" id (template_data e id)].

Definition dynamic_data (e : DynamicEthereumContractDataSourceEntity) (id : string) : Entity :=
  entity_of
    [("id", VString id);
     ("kind", VString (de_kind e));
     ("network", opt_value VString (de_network e));
     ("name", VString (de_name e));
     ("source", VString (sub_id id "source"));
     ("mapping", VString (sub_id id "mapping"));
     ("templates", VList (child_ids id "templates" (de_templates e)));
     ("deployment", VString (de_deployment e));
     ("ethereumBlockHash", VBytes (h256_bytes (de_ethereum_block_hash e)));
     ("ethereumBlockNumber", VBigInt (de_ethereum_block_number e));
     ("context", opt_value (fun c => VString (json_to_string c)) (de_context e))].

Definition generate_dynamic (e : DynamicEthereumContractDataSourceEntity) (id : string)
  : list Addition :=
  generate_source (de_source e) (sub_id id "source")
  ++ generate_mapping (de_mapping e) (sub_id id "mapping")
  ++ generate_children generate_template id "templates" (de_templates e)
  ++ [mk_addition "DynamicEthereumContractDataSource" id (dynamic_data e id)].

(** [make_id], from a fresh UUID without hyphens. *)
Definition make_id (uuid : string) : string := sub_id uuid "dynamic".

(** *** Data sources and manifests of a deployment *)
Record EthereumContractDataSourceEntity := mk_data_source_entity {
  dse_kind : string;
  dse_network : option string;
  dse_name : string;
  dse_source : EthereumContractSourceEntity;
  dse_mapping : EthereumContractMappingEntity;
  dse_templates : list EthereumContractDataSourceTemplateEntity;
}.

Definition generate_data_source (e : EthereumContractDataSourceEntity) (id : string)
  : list Addition :=
  generate_source (dse_source e) (sub_id id "source")
  ++ generate_mapping (dse_mapping e) (sub_id id "mapping")
  ++ generate_children generate_template id "templates" (dse_templates e)
  ++ [mk_addition "EthereumContractDataSource" id
        (entity_of
           [("id", VString id);
            ("kind", VString (dse_kind e));
            ("network", opt_value VString (dse_network e));
            ("name", VString (dse_name e));
            ("source", VString (sub_id id "source"));
            ("mapping", VString (sub_id id "mapping"));
            ("templates", VList (child_ids id "templates" (dse_templates e)))])].

Record SubgraphManifestEntity := mk_manifest_entity {
  sme_spec_version : string;
  sme_description : option string;
  sme_repository : option string;
  sme_schema : string;
  sme_data_sources : list EthereumContractDataSourceEntity;
  sme_templates : list EthereumContractDataSourceTemplateEntity;
}.

Definition manifest_id (subgraph_id : string) : string := sub_id subgraph_id "manifest".

Definition generate_manifest (e : SubgraphManifestEntity) (id : string) : list Addition :=
  generate_children generate_data_source id "data-source" (sme_data_sources e)
  ++ generate_children generate_template id "templates" (sme_templates e)
  ++ [mk_addition "SubgraphManifest" id
        (entity_of
           [("id", VString id);
            ("specVersion", VString (sme_spec_version e));
            ("description", opt_value VString (sme_description e));
            ("repository", opt_value VString (sme_repository e));
            ("schema", VString (sme_schema e));
            ("dataSources", VList (child_ids id "data-source" (sme_data_sources e)));
            ("templates", VList (child_ids id "templates" (sme_templates e)))])].

Section of_manifest.
Context {ME : ManifestEnv}.
(** The text of a schema's document, printed by the GraphQL parser. *)
Context (schema_to_string : Schema -> string).

Definition entity_of_data_source (d : DataSource) : EthereumContractDataSourceEntity :=
  {| dse_kind := ds_kind d;
     dse_name := ds_name d;
     dse_network := ds_network d;
     dse_source := entity_of_source (ds_source d);
     dse_mapping := entity_of_mapping (ds_mapping d);
     dse_templates := entity_of_template <$> ds_templates d |}.

Definition entity_of_manifest (m : SubgraphManifest) : SubgraphManifestEntity :=
  {| sme_spec_version := sm_spec_version m;
     sme_description := sm_description m;
     sme_repository := sm_repository m;
     sme_schema := schema_to_string (sm_schema m);
     sme_data_sources := entity_of_data_source <$> sm_data_sources m;
     sme_templates := entity_of_template <$> sm_templates m |}.
End of_manifest.

(** *** Subgraphs and versions *)
Record SubgraphEntity := mk_subgraph_entity {
  sge_name : string;
  sge_current_version_id : option string;
  sge_pending_version_id : option string;
  sge_created_at : Z;
}.

Definition subgraph_write_operations (e : SubgraphEntity) (id : string) : list MetadataOperation :=
  [MSet Metadata.SubgraphEntity id
     (entity_of [("id", VString id); ("name", VString (sge_name e));
                 ("currentVersion", opt_value VString (sge_current_version_id e));
                 ("pendingVersion", opt_value VString (sge_pending_version_id e));
                 ("createdAt", VBigInt (sge_created_at e))])].

Definition update_current_version_operations (id : string) (version_id_opt : option string)
  : list MetadataOperation :=
  [MUpdate Metadata.SubgraphEntity id
     (entity_of [("currentVersion", opt_value VString version_id_opt)])].

Definition update_pending_version_operations (id : string) (version_id_opt : option string)
  : list MetadataOperation :=
  [MUpdate Metadata.SubgraphEntity id
     (entity_of [("pendingVersion", opt_value VString version_id_opt)])].

Record SubgraphVersionEntity := mk_version_entity {
  sve_subgraph_id : string;
  sve_deployment_id : string;
  sve_created_at : Z;
}.

Definition version_write_operations (e : SubgraphVersionEntity) (id : string)
  : list MetadataOperation :=
  [MSet Metadata.SubgraphVersionEntity id
     (entity_of [("id", VString id); ("subgraph", VString (sve_subgraph_id e));
                 ("deployment", VString (sve_deployment_id e));
                 ("createdAt", VBigInt (sve_created_at e))])].

(** *** Health and errors *)
Inductive SubgraphHealth := Healthy | Unhealthy | Failed.

#[export] Instance SubgraphHealth_eq_dec : EqDecision SubgraphHealth.
Proof. solve_decision. Defined.

Definition health_to_string (h : SubgraphHealth) : string :=
  match h with Healthy => "healthy" | Unhealthy => "unhealthy" | Failed => "failed" end.

Definition health_from_str (s : string) : option SubgraphHealth :=
  if String.eqb s "healthy" then Some Healthy
  else if String.eqb s "unhealthy" then Some Unhealthy
  else if String.eqb s "failed" then Some Failed
  else None.

Definition health_to_query_value (h : SubgraphHealth) : qvalue := QEnum (health_to_string h).

Record SubgraphError := mk_subgraph_error {
  err_subgraph_id : string;
  err_message : string;
  err_block_ptr : option EthereumBlockPointer;
  err_handler : option string;
}.

Definition entity_of_error (e : SubgraphError) : Entity :=
  entity_of [("subgraphId", VString (err_subgraph_id e));
             ("message", VString (err_message e));
             ("blockNumber", opt_value (fun p => VBigInt (ptr_number p)) (err_block_ptr e));
             ("blockHash", opt_value (fun p => VBytes (h256_bytes (ptr_hash p))) (err_block_ptr e));
             ("handler", opt_value VString (err_handler e))].

Definition error_create_operation (e : SubgraphError) (id : string) : MetadataOperation :=
  MSet "SubgraphError" id (entity_set (entity_of_error e) "id" (VString id)).

(** *** Deployments *)
Record SubgraphDeploymentEntity := mk_deployment_entity {
  sde_manifest : SubgraphManifestEntity;
  sde_failed : bool;
  sde_health : SubgraphHealth;
  sde_synced : bool;
  sde_fatal_error : option SubgraphError;
  sde_non_fatal_errors : list SubgraphError;
  sde_earliest_ethereum_block_hash : option H256;
  sde_earliest_ethereum_block_number : option Z;
  sde_latest_ethereum_block_hash : option H256;
  sde_latest_ethereum_block_number : option Z;
  sde_graft_base : option string;
  sde_graft_block_hash : option H256;
  sde_graft_block_number : option Z;
  sde_reorg_count : Z;
  sde_current_reorg_depth : Z;
  sde_max_reorg_depth : Z;
}.

Definition deployment_new (source_manifest : SubgraphManifestEntity) (synced : bool)
    (earliest_ethereum_block : option EthereumBlockPointer) : SubgraphDeploymentEntity :=
  {| sde_manifest := source_manifest;
     sde_failed := false;
     sde_health := Healthy;
     sde_synced := synced;
     sde_fatal_error := None;
     sde_non_fatal_errors := [];
     sde_earliest_ethereum_block_hash := ptr_hash <$> earliest_ethereum_block;
     sde_earliest_ethereum_block_number := ptr_number <$> earliest_ethereum_block;
     sde_latest_ethereum_block_hash := ptr_hash <$> earliest_ethereum_block;
     sde_latest_ethereum_block_number := ptr_number <$> earliest_ethereum_block;
     sde_graft_base := None;
     sde_graft_block_hash := None;
     sde_graft_block_number := None;
     sde_reorg_count := 0;
     sde_current_reorg_depth := 0;
     sde_max_reorg_depth := 0 |}.

Definition deployment_graft (e : SubgraphDeploymentEntity)
    (base : option (string * EthereumBlockPointer)) : SubgraphDeploymentEntity :=
  match base with
  | None => e
  | Some (subgraph, ptr) =>
      {| sde_manifest := sde_manifest e;
         sde_failed := sde_failed e;
         sde_health := sde_health e;
         sde_synced := sde_synced e;
         sde_fatal_error := sde_fatal_error e;
         sde_non_fatal_errors := sde_non_fatal_errors e;
         sde_earliest_ethereum_block_hash := sde_earliest_ethereum_block_hash e;
         sde_earliest_ethereum_block_number := sde_earliest_ethereum_block_number e;
         sde_latest_ethereum_block_hash := Some (ptr_hash ptr);
         sde_latest_ethereum_block_number := Some (ptr_number ptr);
         sde_graft_base := Some subgraph;
         sde_graft_block_hash := Some (ptr_hash ptr);
         sde_graft_block_number := Some (ptr_number ptr);
         sde_reorg_count := sde_reorg_count e;
         sde_current_reorg_depth := sde_current_reorg_depth e;
         sde_max_reorg_depth := sde_max_reorg_depth e |}
  end.

Definition hash_value (o : option H256) : Value := opt_value (fun h => VBytes (h256_bytes h)) o.

Definition deployment_data (e : SubgraphDeploymentEntity) (id : string) : Entity :=
  entity_of
    [("id", VString id);
     ("manifest", VString (manifest_id id));
     ("failed", VBool (sde_failed e));
     ("health", VString (health_to_string (sde_health e)));
     ("synced", VBool (sde_synced e));
     ("nonFatalErrors", VList []);
     ("earliestEthereumBlockHash", hash_value (sde_earliest_ethereum_block_hash e));
     ("earliestEthereumBlockNumber", opt_value VBigInt (sde_earliest_ethereum_block_number e));
     ("latestEthereumBlockHash", hash_value (sde_latest_ethereum_block_hash e));
     ("latestEthereumBlockNumber", opt_value VBigInt (sde_latest_ethereum_block_number e));
     ("entityCount", VBigInt 0);
     ("graftBase", opt_value VString (sde_graft_base e));
     ("graftBlockHash", hash_value (sde_graft_block_hash e));
     ("graftBlockNumber", opt_value VBigInt (sde_graft_block_number e))].

(** The two assertions are that a fresh deployment has no errors. *)
Definition private_create_operations (e : SubgraphDeploymentEntity) (id : string)
  : res Empty_set (list MetadataOperation) :=
  match sde_fatal_error e, sde_non_fatal_errors e with
  | None, [] =>
      Ok (write_operations (generate_manifest (sde_manifest e) (manifest_id id))
          ++ [MSet Metadata.SubgraphDeploymentEntity id (deployment_data e id)])
  | _, _ => Panic
  end.

Definition create_operations (e : SubgraphDeploymentEntity) (id : string)
  : res Empty_set (list MetadataOperation) :=
  let? ops := private_create_operations e id in
  Ok (MAbortUnless "Subgraph deployment entity must not exist yet to be created"
        (query_filter (typed_query Metadata.SubgraphDeploymentEntity) (FEqual "id" (VString id))) []
      :: ops).

Definition unfail_operations (id : string) (new_health : SubgraphHealth) : list MetadataOperation :=
  [MUpdate Metadata.SubgraphDeploymentEntity id
     (entity_of [("failed", VBool false); ("health", VString (health_to_string new_health));
                 ("fatalError", VNull)])].

(** The id of the error is a fresh UUID. *)
Definition fail_operations (id : string) (error : SubgraphError) (error_id : string)
  : list MetadataOperation :=
  [error_create_operation error error_id;
   MUpdate Metadata.SubgraphDeploymentEntity id
     (entity_of [("failed", VBool true); ("health", VString (health_to_string Failed));
                 ("fatalError", VString error_id)])].

(** ** Reading *)
Inductive FieldError :=
| CannotParse (value : qvalue)
| RequiredFieldNotSet (key : string)
| InvalidText (text : string)
| InvalidSubgraphId (id : string).

Class TryFromValue (T : Type) := try_from_value : qvalue -> res FieldError T.

#[export] Instance bool_from_value : TryFromValue bool := fun value =>
  match value with QBoolean b => Ok b | _ => Err (CannotParse value) end.

#[export] Instance string_from_value : TryFromValue string := fun value =>
  match value with
  | QString s => Ok s
  | QEnum s => Ok s
  | _ => Err (CannotParse value)
  end.

(** The number types are all integers here: [u64] is the one that is read. *)
#[export] Instance u64_from_value : TryFromValue Z := fun value =>
  ok_or (u64_try_from_value value) (CannotParse value).

(** Addresses and hashes, in records of their own so that the class can tell
    them from numbers. *)
Record H160Value := mk_h160 { h160 : Address }.
Record H256Value := mk_h256 { h256 : H256 }.

#[export] Instance h160_from_value : TryFromValue H160Value := fun value =>
  match value with
  | QString s => res_map mk_h160 (ok_or (h160_from_str (trim_0x s)) (InvalidText s))
  | _ => Err (CannotParse value)
  end.

#[export] Instance h256_from_value : TryFromValue H256Value := fun value =>
  match value with
  | QString s => res_map mk_h256 (ok_or (h256_from_str (trim_0x s)) (InvalidText s))
  | _ => Err (CannotParse value)
  end.

#[export] Instance list_from_value {T} {P : TryFromValue T} : TryFromValue (list T) := fun value =>
  match value with QList values => map_res P values | _ => Err (CannotParse value) end.

#[export] Instance entity_from_value : TryFromValue Entity := fun value =>
  match value with
  | QString s => ok_or (json_from_str s) (InvalidText s)
  | _ => Err (CannotParse value)
  end.

(** [SubgraphDeploymentId] *)
Definition deployment_id_from_value (value : qvalue) : res FieldError string :=
  let? s := string_from_value value in
  map_err InvalidSubgraphId (SubgraphDeploymentId_new s).

#[export] Instance health_from_value : TryFromValue SubgraphHealth := fun value =>
  match value with
  | QEnum health => ok_or (health_from_str health) (InvalidText health)
  | _ => Err (CannotParse value)
  end.

(** [ValueMap] *)
Definition get_required {T} {P : TryFromValue T} (map : list (string * qvalue)) (key : string)
  : res FieldError T :=
  let? value := ok_or (object_get map key) (RequiredFieldNotSet key) in
  try_from_value value.

Definition get_optional {T} {P : TryFromValue T} (map : list (string * qvalue)) (key : string)
  : res FieldError (option T) :=
  match object_get map key with
  | None => Ok None
  | Some QNull => Ok None
  | Some value => res_map Some (try_from_value value)
  end.

Definition get_list {T} {P : TryFromValue T} (map : list (string * qvalue)) (key : string)
  : res FieldError (list T) :=
  let? o := get_optional map key in Ok (default [] o).

Definition as_map (value : qvalue) : res FieldError (list (string * qvalue)) :=
  match value with QObject map => Ok map | _ => Err (CannotParse value) end.

#[export] Instance source_from_value : TryFromValue EthereumContractSourceEntity := fun value =>
  let? map := as_map value in
  let? address := get_optional (T := H160Value) map "address" in
  let? abi := get_required map "abi" in
  let? start_block := get_optional map "startBlock" in
  Ok (mk_source_entity (h160 <$> address) abi (default 0%Z start_block)).

#[export] Instance abi_from_value : TryFromValue EthereumContractAbiEntity := fun value =>
  let? map := as_map value in
  let? name := get_required map "name" in
  let? file := get_required map "file" in
  Ok (mk_abi_entity name file).

#[export] Instance filter_from_value : TryFromValue EthereumBlockHandlerFilterEntity := fun value =>
  let? map := match value with QNull => Ok [] | _ => as_map value end in
  let? kind := get_optional map "kind" in
  Ok (mk_filter_entity kind).

#[export] Instance block_handler_from_value : TryFromValue EthereumBlockHandlerEntity := fun value =>
  let? map := as_map value in
  let? handler := get_required map "handler" in
  let? filter := get_optional map "filter" in
  Ok (mk_bh_entity handler filter).

#[export] Instance call_handler_from_value : TryFromValue EthereumCallHandlerEntity := fun value =>
  let? map := as_map value in
  let? function := get_required map "function" in
  let? handler := get_required map "handler" in
  Ok (mk_ch_entity function handler).

#[export] Instance event_handler_from_value : TryFromValue EthereumContractEventHandlerEntity :=
  fun value =>
  let? map := as_map value in
  let? event := get_required map "event" in
  let? topic0 := get_optional (T := H256Value) map "topic0" in
  let? handler := get_required map "handler" in
  Ok (mk_eh_entity event (h256 <$> topic0) handler).

#[export] Instance mapping_from_value : TryFromValue EthereumContractMappingEntity := fun value =>
  let? map := as_map value in
  let? kind := get_required map "kind" in
  let? api_version := get_required map "apiVersion" in
  let? language := get_required map "language" in
  let? file := get_required map "file" in
  let? entities := get_required map "entities" in
  let? abis := get_required map "abis" in
  let? event_handlers := get_list map "eventHandlers" in
  let? call_handlers := get_list map "callHandlers" in
  let? block_handlers := get_list map "blockHandlers" in
  Ok (mk_mapping_entity kind api_version language file entities abis
        block_handlers call_handlers event_handlers).

#[export] Instance template_source_from_value
  : TryFromValue EthereumContractDataSourceTemplateSourceEntity := fun value =>
  let? map := as_map value in
  let? abi := get_required map "abi" in
  Ok (mk_tsource_entity abi).

#[export] Instance template_from_value : TryFromValue EthereumContractDataSourceTemplateEntity :=
  fun value =>
  let? map := as_map value in
  let? kind := get_required map "kind" in
  let? name := get_required map "name" in
  let? network := get_optional map "network" in
  let? source := get_required map "source" in
  let? mapping := get_required map "mapping" in
  Ok (mk_template_entity kind network name source mapping).

(** [UnresolvedDataSource::try_from_value]: the fields are read in this order,
    then the stored forms are converted. *)
#[export] Instance data_source_from_value : TryFromValue UnresolvedDataSource := fun value =>
  let? map := as_map value in
  let? source_entity := get_required (T := EthereumContractSourceEntity) map "source" in
  let? mapping_entity := get_required (T := EthereumContractMappingEntity) map "mapping" in
  let? templates := get_list (T := EthereumContractDataSourceTemplateEntity) map "templates" in
  let? kind := get_required map "kind" in
  let? name := get_required map "name" in
  let? network := get_optional map "network" in
  let? context := get_optional (T := Entity) map "context" in
  Ok {| ds_kind := kind;
        ds_name := name;
        ds_network := network;
        ds_source := source_of_entity source_entity;
        ds_mapping := mapping_of_entity mapping_entity;
        ds_templates := template_of_entity <$> templates;
        ds_context := context |}.

#[export] Instance error_from_value : TryFromValue SubgraphError := fun value =>
  let? map := as_map value in
  let? block_number := get_optional (T := Z) map "blockNumber" in
  let? block_hash := get_optional (T := H256Value) map "blockHash" in
  let block_ptr :=
    match block_number, block_hash with
    | Some number, Some hash => Some (mk_ptr (h256 hash) number)
    | _, _ => None
    end in
  let? subgraph_id :=
    let? v := ok_or (object_get map "subgraphId") (RequiredFieldNotSet "subgraphId") in
    deployment_id_from_value v in
  let? message := get_required map "message" in
  let? handler := get_optional map "handler" in
  Ok (mk_subgraph_error subgraph_id message block_ptr handler).

(** ** The loader *)
Inductive LoaderError :=
| ResultNotAnObject
| DeploymentNotAnObject
| DataSourcesNotObjects
| DataSourcesNotAList
| DataSourcesUnparsable (e : FieldError).

Definition parse_data_sources (query_result : qvalue)
  : res LoaderError (list UnresolvedDataSource) :=
  match query_result with
  | QObject data =>
      match object_get data "subgraphDeployment" with
      | Some (QObject deployment) =>
          match object_get deployment "dynamicDataSources" with
          | Some (QList objs) =>
              if forallb (fun obj => match obj with QObject _ => true | _ => false end) objs
              then map_err DataSourcesUnparsable (map_res try_from_value objs)
              else Err DataSourcesNotObjects
          | _ => Err DataSourcesNotAList
          end
      | _ => Err DeploymentNotAnObject
      end
  | _ => Err ResultNotAnObject
  end.

(** [load_dynamic_data_sources]: pages are asked for until one is empty.  The
    GraphQL runner answers the query for the data sources after the first
    [skip]. *)
Section load.
Context {ME : ManifestEnv}.
Context {RunnerError : Type} (query_metadata : Z -> res RunnerError qvalue).

Inductive LoadFailure :=
| LoadQuery (e : RunnerError)
| LoadParse (e : LoaderError)
| LoadResolve (e : Failure).

Definition resolve_data_sources (l : list UnresolvedDataSource) : res Failure (list DataSource) :=
  map_res resolve_data_source l.

Fixpoint load_loop (fuel : nat) (data_sources : list DataSource)
  : option (res LoadFailure (list DataSource)) :=
  match fuel with
  | 0 => None
  | S fuel =>
      let skip := wrap_i 32 (Z.of_nat (length data_sources)) in
      let next :=
        let? query_result := map_err LoadQuery (query_metadata skip) in
        let? unresolved := map_err LoadParse (parse_data_sources query_result) in
        map_err LoadResolve (resolve_data_sources unresolved) in
      match next with
      | Ok [] => Some (Ok data_sources)
      | Ok next_data_sources => load_loop fuel (data_sources ++ next_data_sources)
      | Err e => Some (Err e)
      | Panic => Some Panic
      end
  end.

Definition load_dynamic_data_sources (fuel : nat) : option (res LoadFailure (list DataSource)) :=
  load_loop fuel [].
End load.
End entities.

(** ** Attribute indexes *)
Record AttributeIndexDefinition := mk_index {
  ix_subgraph_id : string;
  ix_entity_number : nat;
  ix_attribute_number : nat;
  ix_field_value_type : ValueType;
  ix_attribute_name : string;
  ix_entity_name : string;
}.

Definition is_derived_field (f : Field) : bool :=
  existsb (fun dir => String.eqb (dir_name dir) "derivedFrom") (fd_directives f).

Definition is_entity (type_name : string) (definitions : Document) : bool :=
  existsb (fun defn =>
    match defn with
    | TypeDef (TDObject t) =>
        String.eqb (ot_name t) type_name
        && existsb (fun directive => String.eqb (dir_name directive) "entity") (ot_directives t)
    | TypeDef (TDInterface t) => String.eqb (it_name t) type_name
    | _ => false
    end) definitions.

Fixpoint inner_type_name (field_type : GType) (definitions : Document) : res string ValueType :=
  match field_type with
  | NamedType name =>
      match ValueType_from_str name with
      | Ok t => Ok t
      | Err e => if is_entity name definitions then Ok VT_String else Err e
      | Panic => Panic
      end
  | NonNullType inner => inner_type_name inner definitions
  | ListType inner => let? _ := inner_type_name inner definitions in Ok VT_List
  end.

Definition attribute_index (subgraph_id : string) (document : Document) (entity_number : nat)
    (t : ObjectType) (attribute_number : nat) (f : Field) : option AttributeIndexDefinition :=
  if is_derived_field f then None else
  match inner_type_name (fd_field_type f) document with
  | Ok value_type =>
      Some (mk_index subgraph_id entity_number attribute_number value_type (fd_name f) (ot_name t))
  | _ => None
  end.

Definition type_indexes (subgraph_id : string) (document : Document) (entity_number : nat)
    (d : DefinitionNode) : list AttributeIndexDefinition :=
  match d with
  | TypeDef (TDObject t) =>
      omap id (imap (attribute_index subgraph_id document entity_number t)
                 (filter (fun f => fd_name f <> "id") (ot_fields t)))
  | _ => []
  end.

Definition attribute_index_definitions (subgraph_id : string) (document : Document)
  : list AttributeIndexDefinition :=
  mjoin (imap (type_indexes subgraph_id document) document).

(** ** Lemmas on ids *)
Section paths.

(** No hyphens. *)
Definition word (s : string) : Prop := all_chars (fun c => negb (Ascii.eqb c "-"%char)) s = true.

(** What is appended to an id. *)
Fixpoint path (segs : list string) : string :=
  match segs with [] => "" | s :: l => "-" +:+ s +:+ path l end.

Lemma word_cons c s : word (String c s) <-> c <> "-"%char /\ word s.
Proof.
  unfold word. cbn [all_chars]. rewrite andb_true_iff, negb_true_iff, Ascii.eqb_neq. done.
Qed.

Definition tail_ok (t : string) : Prop := t = "" \/ exists t', t = "-" +:+ t'.

Lemma path_tail l : tail_ok (path l).
Proof. destruct l as [|s l]; [by left|right]. by exists (s +:+ path l). Qed.

Lemma append_cons c s t : String c s +:+ t = String c (s +:+ t).
Proof. done. Qed.
Lemma append_nil t : "" +:+ t = t.
Proof. done. Qed.
Lemma path_cons s l : path (s :: l) = String "-" (s +:+ path l).
Proof. done. Qed.

Lemma tail_ok_word c t : tail_ok (String c t) -> c = "-"%char.
Proof. intros [T|[t' T]]; [done|]. by injection T. Qed.

Lemma word_split s1 s2 t1 t2 :
  word s1 -> word s2 -> tail_ok t1 -> tail_ok t2 ->
  s1 +:+ t1 = s2 +:+ t2 -> s1 = s2 /\ t1 = t2.
Proof.
  intros W1 W2 T1 T2. revert s2 W1 W2.
  induction s1 as [|c s1 IH]; intros [|d s2] W1 W2; rewrite ?append_nil, ?append_cons; intros E.
  - done.
  - subst t1. apply word_cons in W2 as [Hd _]. by apply tail_ok_word in T1.
  - subst t2. apply word_cons in W1 as [Hc _]. by apply tail_ok_word in T2.
  - injection E as -> E. apply word_cons in W1 as [_ W1], W2 as [_ W2].
    destruct (IH s2 W1 W2 E) as [-> ->]. done.
Qed.

Lemma path_inj l1 l2 : Forall word l1 -> Forall word l2 -> path l1 = path l2 -> l1 = l2.
Proof.
  intros W1. revert l2. induction W1 as [|s l1 Ws W1 IH]; intros [|s2 l2] W2 E; try done.
  inversion W2; subst. rewrite !path_cons in E. injection E as E.
  apply word_split in E as [-> E]; auto using path_tail. by rewrite (IH l2).
Qed.

Lemma path_app l1 l2 : path (l1 ++ l2) = path l1 +:+ path l2.
Proof.
  induction l1 as [|s l IH]; [done|]. rewrite <- app_comm_cons, !path_cons, IH.
  by rewrite append_cons, append_assoc.
Qed.

Lemma pretty_N_go_word x s : word s -> word (pretty_N_go x s).
Proof.
  revert s. induction (N.lt_wf_0 x) as [x _ IH]; intros s Ws.
  assert (x = 0 \/ 0 < x)%N as [->|Hx] by lia; [by rewrite pretty_N_go_0|].
  rewrite pretty_N_go_step by done. apply IH; [by apply N.div_lt|].
  apply word_cons. split; [|done]. unfold pretty_N_char. by repeat case_match.
Qed.

Lemma pretty_word (n : nat) : word (pretty n).
Proof.
  unfold pretty, pretty_nat, pretty, pretty_N. case_decide; [done|]. by apply pretty_N_go_word.
Qed.


(** ** The ids of what is generated, as paths below an id *)
Definition children_paths {A} (paths : A -> list (list string)) (part : list string) (k : nat)
    (l : list A) : list (list string) :=
  mjoin (imap (fun i x => (fun p => part ++ pretty (k + i) :: p) <$> paths x) l).

Lemma children_paths_cons {A} (paths : A -> list (list string)) part k x l :
  children_paths paths part k (x :: l)
  = ((fun p => part ++ pretty k :: p) <$> paths x) ++ children_paths paths part (S k) l.
Proof.
  unfold children_paths. rewrite imap_cons. cbn [mjoin list_join]. rewrite Nat.add_0_r. f_equal.
  f_equal. apply imap_ext. intros i y _. cbn. by rewrite Nat.add_succ_r.
Qed.

Lemma elem_of_children_paths {A} (paths : A -> list (list string)) part k l p :
  p ∈ children_paths paths part k l ->
  exists i x q, k <= i /\ x ∈ l /\ q ∈ paths x /\ p = part ++ pretty i :: q.
Proof.
  revert k. induction l as [|x l IH]; intros k; [by intros []%elem_of_nil|].
  rewrite children_paths_cons, elem_of_app, list_elem_of_fmap. intros [(q & -> & Hq)|H].
  - exists k, x, q. repeat split; [lia|left|done].
  - destruct (IH _ H) as (i & y & q & Hi & Hy & Hq & ->). exists i, y, q.
    repeat split; [lia|by right|done].
Qed.

Lemma NoDup_children_paths {A} (paths : A -> list (list string)) part k l :
  (forall x, NoDup (paths x)) -> NoDup (children_paths paths part k l).
Proof.
  intros N. revert k. induction l as [|x l IH]; intros k; [constructor|].
  rewrite children_paths_cons. apply NoDup_app. split; [|split; [|done]].
  - apply NoDup_fmap_2; [|done]. intros p q E. simplify_list_eq. done.
  - intros p (q & -> & _)%list_elem_of_fmap H.
    apply elem_of_children_paths in H as (i & y & q' & Hi & _ & _ & E).
    simplify_list_eq. lia.
Qed.

Definition words (paths : list (list string)) : Prop := Forall (Forall word) paths.

Lemma words_children {A} (paths : A -> list (list string)) part k l :
  Forall word part -> (forall x, words (paths x)) -> words (children_paths paths part k l).
Proof.
  intros Hp Hw. apply Forall_forall. intros p (i & x & q & _ & _ & Hq & ->)%elem_of_children_paths.
  apply Forall_app. split; [done|]. constructor; [apply pretty_word|].
  specialize (Hw x). unfold words in Hw. rewrite Forall_forall in Hw. by apply Hw.
Qed.

Definition below (id : string) (paths : list (list string)) : list string :=
  (fun p => id +:+ path p) <$> paths.

Lemma below_app id a b : below id (a ++ b) = below id a ++ below id b.
Proof. apply fmap_app. Qed.

Lemma below_prefix id l paths :
  below (id +:+ path l) paths = below id ((fun p => l ++ p) <$> paths).
Proof.
  unfold below. rewrite <- list_fmap_compose. apply list_fmap_ext. intros i p _. cbn.
  by rewrite path_app, append_assoc.
Qed.

Lemma NoDup_below id paths : words paths -> NoDup paths -> NoDup (below id paths).
Proof.
  intros W N. apply NoDup_fmap_2_strong; [|done]. intros p q Hp Hq E.
  apply (inj (String.append id)) in E. unfold words in W. rewrite Forall_forall in W. apply path_inj; auto.
Qed.

Definition ids (ops : list Addition) : list string := ad_id <$> ops.

(** [generate] adds entities under the paths. *)
Definition adds {A} (generate : A -> string -> list Addition) (paths : A -> list (list string))
  : Prop := forall x id, ids (generate x id) = below id (paths x).

Lemma adds_children {A} (generate : A -> string -> list Addition) paths part segs l id :
  adds generate paths -> "-" +:+ part = path segs ->
  ids (generate_children generate id part l) = below id (children_paths paths segs 0 l).
Proof.
  intros Ha Hp. unfold generate_children.
  assert (forall k, ids (mjoin (imap (fun i x => generate x (nth_id id part (k + i))) l))
                    = below id (children_paths paths segs k l)) as H; [|apply (H 0)].
  induction l as [|x l IH]; intros k; [done|].
  rewrite imap_cons, children_paths_cons, below_app. cbn [mjoin list_join]. unfold ids in *.
  rewrite fmap_app, Nat.add_0_r. f_equal.
  - change (ad_id <$> generate x (nth_id id part k)) with (ids (generate x (nth_id id part k))).
    rewrite Ha. unfold nth_id, sub_id. rewrite Hp.
    assert (forall s, s +:+ "-" +:+ pretty k = s +:+ path [pretty k]) as ->.
    { intros s. cbn [path]. by rewrite append_nil_r. }
    rewrite append_assoc, <- path_app, below_prefix. f_equal. apply list_fmap_ext.
    intros i p _. by rewrite <- app_assoc.
  - rewrite <- (IH (S k)). f_equal. f_equal. apply imap_ext. intros i y _. cbn.
    by rewrite Nat.add_succ_r.
Qed.

Lemma sub_id_path id s : sub_id id s = id +:+ path [s].
Proof. unfold sub_id. cbn [path]. by rewrite append_nil_r. Qed.

Lemma leaf_below id : [id] = below id [[]].
Proof. unfold below. cbn. by rewrite append_nil_r. Qed.

Lemma ids_app a b : ids (a ++ b) = ids a ++ ids b.
Proof. apply fmap_app. Qed.

Definition leaf_paths {A} (_ : A) : list (list string) := [[]].

Definition block_handler_paths (e : EthereumBlockHandlerEntity) : list (list string) :=
  match bhe_filter e with Some _ => [["filter"]; []] | None => [[]] end.

Definition mapping_paths (e : EthereumContractMappingEntity) : list (list string) :=
  children_paths leaf_paths ["abi"] 0 (me_abis e)
  ++ children_paths leaf_paths ["event"; "handler"] 0 (me_event_handlers e)
  ++ children_paths leaf_paths ["call"; "handler"] 0 (me_call_handlers e)
  ++ children_paths block_handler_paths ["block"; "handler"] 0 (me_block_handlers e)
  ++ [[]].

(** Paths of a part with a single segment. *)
Definition part_paths (s : string) (paths : list (list string)) : list (list string) :=
  cons s <$> paths.

Definition template_paths (e : EthereumContractDataSourceTemplateEntity) : list (list string) :=
  part_paths "source" [[]] ++ part_paths "mapping" (mapping_paths (te_mapping e)) ++ [[]].

Definition data_source_paths (mapping : EthereumContractMappingEntity)
    (templates : list EthereumContractDataSourceTemplateEntity) : list (list string) :=
  part_paths "source" [[]] ++ part_paths "mapping" (mapping_paths mapping)
  ++ children_paths template_paths ["templates"] 0 templates ++ [[]].

Definition manifest_paths (e : SubgraphManifestEntity) : list (list string) :=
  children_paths (fun d => data_source_paths (dse_mapping d) (dse_templates d)) ["data"; "source"] 0
    (sme_data_sources e)
  ++ children_paths template_paths ["templates"] 0 (sme_templates e) ++ [[]].

Lemma below_part id s paths : below (sub_id id s) paths = below id (part_paths s paths).
Proof. rewrite sub_id_path. apply below_prefix. Qed.

Context {ST : ScalarText} {MT : MetadataText}.

Lemma adds_block_handler : adds generate_block_handler block_handler_paths.
Proof.
  intros e id. unfold generate_block_handler, block_handler_paths.
  destruct (bhe_filter e); [|apply leaf_below]. unfold below. cbn. by rewrite !append_nil_r.
Qed.

Lemma adds_mapping : adds generate_mapping mapping_paths.
Proof.
  intros e id. unfold generate_mapping, mapping_paths. rewrite !ids_app, !below_app.
  repeat f_equal; try (apply adds_children; [|reflexivity]);
    first [apply adds_block_handler|intros ? ?; apply leaf_below|apply leaf_below].
Qed.

Lemma adds_template : adds generate_template template_paths.
Proof.
  intros e id. unfold generate_template, template_paths. rewrite !ids_app, !below_app.
  rewrite adds_mapping, <- !below_part. repeat f_equal; apply leaf_below.
Qed.

Lemma adds_dynamic :
  adds generate_dynamic (fun e => data_source_paths (de_mapping e) (de_templates e)).
Proof.
  intros e id. unfold generate_dynamic, data_source_paths. rewrite !ids_app, !below_app.
  rewrite adds_mapping, <- !below_part, (adds_children _ template_paths _ ["templates"]);
    [|apply adds_template|reflexivity].
  repeat f_equal; apply leaf_below.
Qed.

Lemma adds_data_source :
  adds generate_data_source (fun e => data_source_paths (dse_mapping e) (dse_templates e)).
Proof.
  intros e id. unfold generate_data_source, data_source_paths. rewrite !ids_app, !below_app.
  rewrite adds_mapping, <- !below_part, (adds_children _ template_paths _ ["templates"]);
    [|apply adds_template|reflexivity].
  repeat f_equal; apply leaf_below.
Qed.

Lemma adds_manifest : adds generate_manifest manifest_paths.
Proof.
  intros e id. unfold generate_manifest, manifest_paths. rewrite !ids_app, !below_app.
  rewrite (adds_children _ template_paths _ ["templates"]) by first [apply adds_template|reflexivity].
  rewrite (adds_children _ _ _ ["data"; "source"]) by first [apply adds_data_source|reflexivity].
  repeat f_equal; apply leaf_below.
Qed.

(** *** No two of them are the same *)
Definition proper_paths (paths : list (list string)) : Prop := words paths /\ NoDup paths.

Lemma proper_leaf : proper_paths [[]].
Proof. split; repeat constructor. apply not_elem_of_nil. Qed.

Lemma proper_block_handler e : proper_paths (block_handler_paths e).
Proof.
  unfold block_handler_paths. destruct (bhe_filter e); [|apply proper_leaf].
  split; [by repeat constructor|]. repeat constructor; set_solver.
Qed.

Lemma proper_children {A} (paths : A -> list (list string)) part k l :
  Forall word part -> (forall x, proper_paths (paths x)) ->
  proper_paths (children_paths paths part k l).
Proof.
  intros W P. split; [apply words_children|apply NoDup_children_paths]; try done; intros x; apply P.
Qed.

Lemma proper_part s paths : word s -> proper_paths paths -> proper_paths (part_paths s paths).
Proof.
  intros W [Ws N]. split.
  - apply Forall_forall. intros p (q & -> & Hq)%list_elem_of_fmap.
    unfold words in Ws. rewrite Forall_forall in Ws. constructor; [done|by apply Ws].
  - by apply NoDup_fmap_2; [intros ? ? [=]|].
Qed.

Lemma head_children {A} (paths : A -> list (list string)) h part k l p :
  p ∈ children_paths paths (h :: part) k l -> head p = Some h.
Proof. by intros (i & x & q & _ & _ & _ & ->)%elem_of_children_paths. Qed.

Lemma head_part s paths p : p ∈ part_paths s paths -> head p = Some s.
Proof. by intros (q & -> & _)%list_elem_of_fmap. Qed.

Lemma head_leaf p : p ∈ [[]] -> head p = (None : option string).
Proof. by intros ->%list_elem_of_singleton. Qed.

(** Blocks of paths with different first segments. *)
Lemma proper_app h a b :
  proper_paths a -> proper_paths b -> (forall p, p ∈ a -> head p = Some h) ->
  (forall p, p ∈ b -> head p <> Some h) -> proper_paths (a ++ b).
Proof.
  intros [Wa Na] [Wb Nb] Ha Hb. split; [by apply Forall_app|].
  apply NoDup_app. split; [done|]. split; [|done]. intros p Hp Hq. apply (Hb p Hq). by apply Ha.
Qed.

Ltac head_differs :=
  let p := fresh "p" in let H := fresh "H" in
  intros p H; rewrite ?elem_of_app in H;
  repeat (destruct H as [H|H]; [first [rewrite (head_part _ _ _ H)|rewrite (head_children _ _ _ _ _ _ H)]; congruence|]);
  rewrite (head_leaf _ H); congruence.

Lemma proper_mapping e : proper_paths (mapping_paths e).
Proof.
  assert (forall A (x : A), proper_paths (leaf_paths x)) as L by (intros; apply proper_leaf).
  unfold mapping_paths.
  apply (proper_app "abi"); [by apply proper_children; [repeat constructor|]| |apply head_children|head_differs].
  apply (proper_app "event"); [by apply proper_children; [repeat constructor|]| |apply head_children|head_differs].
  apply (proper_app "call"); [by apply proper_children; [repeat constructor|]| |apply head_children|head_differs].
  apply (proper_app "block"); [|apply proper_leaf|apply head_children|head_differs].
  apply proper_children; [repeat constructor|apply proper_block_handler].
Qed.

Lemma proper_template e : proper_paths (template_paths e).
Proof.
  unfold template_paths.
  apply (proper_app "source"); [by apply proper_part, proper_leaf| |apply head_part|head_differs].
  apply (proper_app "mapping"); [|apply proper_leaf|apply head_part|head_differs].
  apply proper_part; [done|apply proper_mapping].
Qed.

Lemma proper_data_source m ts : proper_paths (data_source_paths m ts).
Proof.
  unfold data_source_paths.
  apply (proper_app "source"); [by apply proper_part, proper_leaf| |apply head_part|head_differs].
  apply (proper_app "mapping"); [by apply proper_part, proper_mapping| |apply head_part|head_differs].
  apply (proper_app "templates"); [|apply proper_leaf|apply head_children|head_differs].
  apply proper_children; [repeat constructor|apply proper_template].
Qed.

Lemma proper_manifest e : proper_paths (manifest_paths e).
Proof.
  unfold manifest_paths.
  apply (proper_app "data"); [|  |apply head_children|head_differs].
  { apply proper_children; [repeat constructor|]. intros d. apply proper_data_source. }
  apply (proper_app "templates"); [|apply proper_leaf|apply head_children|head_differs].
  apply proper_children; [repeat constructor|apply proper_template].
Qed.

Lemma adds_NoDup {A} (generate : A -> string -> list Addition) paths x id :
  adds generate paths -> proper_paths (paths x) -> NoDup (ids (generate x id)).
Proof. intros Ha [W N]. rewrite Ha. by apply NoDup_below. Qed.
End paths.

(** ** What the operations do to the store *)
Definition addition_key (a : Addition) : EntityKey := metadata_key (ad_entity a) (ad_id a).

(** The store holds an entity that was added, up to nulls. *)
Definition holds (m : gmap EntityKey Entity) (a : Addition) : Prop :=
  exists e, m !! addition_key a = Some e /\ null_equiv e (ad_data a).

#[export] Instance null_equiv_equivalence : Equivalence null_equiv.
Proof. split; [by intros a k|by intros a b H k|]. intros a b c H1 H2 k. by rewrite (H1 k). Qed.

Lemma addition_key_id a b : addition_key a = addition_key b -> ad_id a = ad_id b.
Proof. by intros [= _ ->]. Qed.

(** A step that writes an addition where nothing was, and touches nothing else. *)
Definition writes (step : gmap EntityKey Entity -> Addition -> gmap EntityKey Entity) : Prop :=
  (forall m a, m !! addition_key a = None -> holds (step m a) a)
  /\ forall m a k, k <> addition_key a -> step m a !! k = m !! k.

Lemma writes_other step ops m k :
  writes step -> (forall a, a ∈ ops -> addition_key a <> k) -> foldl step m ops !! k = m !! k.
Proof.
  intros [_ Ho] Hne. revert m. induction ops as [|b ops IH]; intros m; [done|]. cbn [foldl].
  rewrite IH by (intros c Hc; apply Hne; by right). apply Ho. intros E. by apply (Hne b); [left|].
Qed.

Lemma writes_held step ops m :
  writes step -> NoDup (ids ops) -> (forall a, a ∈ ops -> m !! addition_key a = None) ->
  Forall (holds (foldl step m ops)) ops.
Proof.
  intros Hs. pose proof Hs as [Hw Ho]. revert m.
  induction ops as [|a ops IH]; intros m N F; [constructor|].
  apply NoDup_cons in N as [Na N]. cbn [foldl].
  assert (forall b, b ∈ ops -> addition_key b <> addition_key a) as Hne.
  { intros b Hb E. apply Na. apply addition_key_id in E. rewrite <- E. by apply list_elem_of_fmap_2. }
  constructor.
  - destruct (Hw m a) as (e & He & Hn); [apply F; left|]. exists e. split; [|done].
    rewrite <- He. by apply writes_other.
  - apply IH; [done|]. intros b Hb. rewrite Ho by (by apply Hne). apply F. by right.
Qed.

Lemma entity_operation_writes : writes (fun m a => op_spec m (entity_operation a)).
Proof.
  split.
  - intros m a Ha. eexists. split; [apply lookup_insert_eq|]. cbn.
    fold (addition_key a). rewrite Ha. intros k. rewrite merge_remove_null_lookup.
    destruct (ad_data a !! k) as [[]|]; done.
  - intros m a k Hk. cbn. unfold set_spec. by rewrite lookup_insert_ne.
Qed.

Lemma metadata_operation_writes : writes (fun m a => apply_metadata m (metadata_operation a)).
Proof.
  split.
  - intros m a Ha. eexists. split; [apply lookup_insert_eq|]. fold (addition_key a). rewrite Ha.
    cbn. by rewrite (right_id_L ∅ (∪)).
  - intros m a k Hk. cbn. by rewrite lookup_insert_ne.
Qed.

Lemma entity_of_lookup l k :
  entity_of l !! k = snd <$> List.find (fun x => String.eqb (fst x) k) (rev l).
Proof.
  induction l as [|[k' v] l IH] using rev_ind; [apply lookup_empty|].
  unfold entity_of in *. rewrite foldl_snoc, rev_app_distr. cbn.
  destruct (String.eqb_spec k' k) as [->|]; [apply lookup_insert_eq|].
  by rewrite lookup_insert_ne.
Qed.
