(* ===== verification/MetadataLoad.v ===== *)
(** * Loading what was stored in the subgraph of subgraphs

    The loader of dynamic data sources ([core/src/subgraph/loader.rs]) reads
    back, after a restart, the data sources [MetadataEntities] writes: what the
    answer to its query shows of the store, that it parses and resolves, and the
    theorems on stored data sources and deployments. *)

From stdpp Require Import prelude list strings gmap pretty.
From Stdlib Require Import ZArith Lia Ascii.
From Stdlib Require Strings.Byte.
From S2P Require Import Prelude.
From S2P Require Import GraphqlTypes.
From S2P Require Import StoreValue.
From S2P Require Import EntityCache.
From S2P Require Import EthTypes.
From S2P Require Import Manifest.
From S2P Require Import StoreQuery.
From S2P Require Import StoreEvents.
From S2P Require Import Metadata.
From S2P Require Import GraphqlSchema.
From S2P Require Import GraphqlQuery.
From S2P Require Import MetadataEntities.

#[local] Open Scope string_scope.
#[local] Open Scope list_scope.

(** ** The answer to the loader's query

    The runner shows the stored entities under the fields the query selects;
    lists of references come in an order of the store's. *)
Section answer.
Context {ST : ScalarText} {MT : MetadataText}.
Context (order : list string -> list string).
Variable m : gmap EntityKey Entity.

Definition shown (e : Entity) (f : string) : string * qvalue :=
  (f, from_option to_query_value QNull (e !! f)).

Definition shown_child (ty : string) (shape : Entity -> list (string * qvalue)) (e : Entity)
    (f : string) : string * qvalue :=
  (f, match strip_null (e !! f) with
      | Some (VString id) => from_option (fun c => QObject (shape c)) QNull (m !! metadata_key ty id)
      | _ => QNull
      end).

Definition value_ids (v : option Value) : list string :=
  match strip_null v with Some (VList l) => omap as_string l | _ => [] end.

Definition shown_children (ty : string) (shape : Entity -> list (string * qvalue)) (e : Entity)
    (f : string) : string * qvalue :=
  (f, QList (omap (fun id => (fun c => QObject (shape c)) <$> m !! metadata_key ty id)
               (order (value_ids (e !! f))))).

Definition source_shape (e : Entity) := [shown e "address"; shown e "abi"].
Definition abi_shape (e : Entity) := [shown e "name"; shown e "file"].
Definition block_handler_shape (e : Entity) :=
  [shown e "handler"; shown_child "EthereumBlockHandlerFilterEntity" (fun _ => []) e "filter"].
Definition call_handler_shape (e : Entity) := [shown e "function"; shown e "handler"].
Definition event_handler_shape (e : Entity) := [shown e "event"; shown e "handler"; shown e "topic0"].

Definition mapping_shape (e : Entity) :=
  [shown e "kind"; shown e "apiVersion"; shown e "language"; shown e "file"; shown e "entities";
   shown_children "EthereumContractAbi" abi_shape e "abis";
   shown_children "EthereumBlockHandlerEntity" block_handler_shape e "blockHandlers";
   shown_children "EthereumCallHandlerEntity" call_handler_shape e "callHandlers";
   shown_children "EthereumContractEventHandler" event_handler_shape e "eventHandlers"].

Definition template_source_shape (e : Entity) := [shown e "abi"].
Definition template_shape (e : Entity) :=
  [shown e "kind"; shown e "network"; shown e "name";
   shown_child "EthereumContractDataSourceTemplateSource" template_source_shape e "source";
   shown_child "EthereumContractMapping" mapping_shape e "mapping"].

Definition dynamic_shape (e : Entity) :=
  [shown e "kind"; shown e "network"; shown e "name"; shown e "context";
   shown_child "EthereumContractSource" source_shape e "source";
   shown_child "EthereumContractMapping" mapping_shape e "mapping";
   shown_children "EthereumContractDataSourceTemplate" template_shape e "templates"].

(** The data sources with these ids. *)
Definition answer (data_sources : list string) : qvalue :=
  QObject [("subgraphDeployment", QObject [("dynamicDataSources",
    QList (omap (fun id => (fun c => QObject (dynamic_shape c))
                           <$> m !! metadata_key "DynamicEthereumContractDataSource" id)
             data_sources))])].
End answer.

(** ** Reading what was written *)
Section read.
Context {ST : ScalarText} {MT : MetadataText} {STL : ScalarTextLaws} {ML : MetadataTextLaws MT}.
Context (order : list string -> list string) (order_perm : forall l, order l ≡ₚ l).
Variable m : gmap EntityKey Entity.

Lemma shown_equiv e e' f : null_equiv e e' -> shown e f = shown e' f.
Proof.
  intros H. specialize (H f). unfold shown. f_equal.
  destruct (e !! f) as [[]|], (e' !! f) as [[]|]; cbn in *; congruence.
Qed.

Lemma shown_child_equiv ty shape e e' f :
  null_equiv e e' -> shown_child m ty shape e f = shown_child m ty shape e' f.
Proof. intros H. unfold shown_child. by rewrite (H f). Qed.

Lemma shown_children_equiv ty shape e e' f :
  null_equiv e e' -> shown_children order m ty shape e f = shown_children order m ty shape e' f.
Proof. intros H. unfold shown_children, value_ids. by rewrite (H f). Qed.

(** Shapes look at the fields only, so entities that are the same up to nulls
    are shown as the same object. *)
Ltac shape_equiv :=
  repeat (apply (f_equal2 cons); [by first [apply shown_equiv|apply shown_child_equiv|apply shown_children_equiv]|]); reflexivity.

(** What [generate] adds reads back, up to [R]. *)
Definition readable {A} {P : TryFromValue A} (ty : string)
    (generate : A -> string -> list Addition) (shape : Entity -> list (string * qvalue))
    (R : A -> A -> Prop) : Prop :=
  forall x id, Forall (holds m) (generate x id) ->
  exists e y, m !! metadata_key ty id = Some e
    /\ try_from_value (QObject (shape e)) = Ok y /\ R y x.

(** Lists up to their order. *)
Definition same_list {A} (R : A -> A -> Prop) (ys xs : list A) : Prop :=
  exists xs', xs' ≡ₚ xs /\ Forall2 R ys xs'.

Lemma value_ids_children {A} id part (l : list A) :
  value_ids (Some (VList (child_ids id part l))) = imap (fun i _ => nth_id id part i) l.
Proof.
  cbn. unfold child_ids. generalize (nth_id id part) as g. clear.
  induction l as [|x l IH]; intros g; [done|]. rewrite !imap_cons, omap_cons_eq. cbn.
  f_equal. apply (IH (g ∘ S)).
Qed.

Lemma generated_children {A} (generate : A -> string -> list Addition) id part l (Q : string -> A -> Prop) :
  Forall (holds m) (generate_children generate id part l) ->
  (forall x id', Forall (holds m) (generate x id') -> Q id' x) ->
  Forall2 Q (imap (fun i _ => nth_id id part i) l) l.
Proof.
  unfold generate_children. generalize (nth_id id part) as g. intros g H HQ. revert g H.
  induction l as [|x l IH]; intros g H; [constructor|].
  rewrite imap_cons in *. cbn [mjoin list_join] in H. apply Forall_app in H as [H1 H2].
  constructor; [by apply HQ|]. by apply (IH (g ∘ S)).
Qed.

Lemma read_children {A} {P : TryFromValue A} ty generate shape (R : A -> A -> Prop) id part l e f :
  readable ty generate shape R -> Forall (holds m) (generate_children generate id part l) ->
  e !! f = Some (VList (child_ids id part l)) ->
  exists vs ys, shown_children order m ty shape e f = (f, QList vs)
    /\ map_res (fun v => try_from_value v) vs = Ok ys /\ same_list R ys l.
Proof.
  intros HR H Hf. unfold shown_children. rewrite Hf, value_ids_children.
  pose proof (generated_children _ _ _ _ _ H HR) as HQ. cbn beta in HQ.
  destruct (Permutation_Forall2 (symmetry (order_perm _)) HQ) as (xs' & Hp & HF).
  clear H Hf HQ.
  assert (exists ys, map_res (fun v => try_from_value v)
    (omap (fun id => (fun c => QObject (shape c)) <$> m !! metadata_key ty id)
       (order (imap (fun i _ => nth_id id part i) l))) = Ok ys /\ Forall2 R ys xs') as (ys & E & HR').
  { clear Hp. induction HF as [|i x l1 l2 (c & y & Hc & Hy & Hxy) _ (ys & IH & HF)]; [by exists []|].
    exists (y :: ys). rewrite omap_cons_eq, Hc. cbn [fmap option_fmap option_map].
    rewrite map_res_cons, Hy. cbn [res_bind]. rewrite IH. by split; [|constructor]. }
  eexists _, ys. split; [reflexivity|]. split; [exact E|]. by exists xs'.
Qed.

Lemma held_last ops a : Forall (holds m) (ops ++ [a]) -> Forall (holds m) ops /\ holds m a.
Proof. rewrite Forall_app, Forall_singleton. done. Qed.

(** What is shown of an entity that was added, computed from its data. *)
Ltac shown_data H := rewrite !(shown_equiv _ _ _ H); unfold shown; rewrite !entity_of_lookup.

Lemma h160_value a : h160_from_value (QString (Bytes_to_string (h160_bytes a))) = Ok (mk_h160 a).
Proof.
  unfold h160_from_value, Bytes_to_string. change (trim_0x ("0x" +:+ ?s)) with (trim_0x s).
  by rewrite hex_no_prefix, h160_reads.
Qed.

Lemma h256_value h : h256_from_value (QString (Bytes_to_string (h256_bytes h))) = Ok (mk_h256 h).
Proof.
  unfold h256_from_value, Bytes_to_string. change (trim_0x ("0x" +:+ ?s)) with (trim_0x s).
  by rewrite hex_no_prefix, h256_reads.
Qed.

(** The loader does not ask for the start block. *)
Definition without_start_block (x : EthereumContractSourceEntity) : EthereumContractSourceEntity :=
  mk_source_entity (se_address x) (se_abi x) 0.

Lemma readable_source :
  readable "EthereumContractSource" generate_source source_shape (fun y x => y = without_start_block x).
Proof.
  intros [a abi n] id (e & He & Hn)%Forall_singleton. cbn [ad_entity ad_id ad_data] in *.
  exists e, (mk_source_entity a abi 0). split; [done|]. split; [|done]. unfold source_shape.
  shown_data Hn. destruct a as [a|]; [|done].
  cbn -[h160_from_value Bytes_to_string trim_0x]. unfold try_from_value, source_from_value.
  cbn -[h160_from_value Bytes_to_string trim_0x].
  unfold get_optional. cbn -[h160_from_value Bytes_to_string trim_0x].
  unfold try_from_value. by rewrite h160_value.
Qed.

Lemma readable_abi : readable "EthereumContractAbi" generate_abi abi_shape eq.
Proof.
  intros x id (e & He & Hn)%Forall_singleton. cbn [ad_entity ad_id ad_data] in *. exists e, x.
  split; [done|]. split; [|done]. unfold abi_shape. shown_data Hn. by destruct x.
Qed.

Lemma readable_call_handler :
  readable "EthereumCallHandlerEntity" generate_call_handler call_handler_shape eq.
Proof.
  intros x id (e & He & Hn)%Forall_singleton. cbn [ad_entity ad_id ad_data] in *. exists e, x.
  split; [done|]. split; [|done]. unfold call_handler_shape. shown_data Hn. by destruct x.
Qed.

Lemma readable_template_source :
  readable "EthereumContractDataSourceTemplateSource" generate_template_source
    template_source_shape eq.
Proof.
  intros x id (e & He & Hn)%Forall_singleton. cbn [ad_entity ad_id ad_data] in *. exists e, x.
  split; [done|]. split; [|done]. unfold template_source_shape. shown_data Hn. by destruct x.
Qed.

Lemma readable_event_handler :
  readable "EthereumContractEventHandler" generate_event_handler event_handler_shape eq.
Proof.
  intros [ev t h] id (e & He & Hn)%Forall_singleton. cbn [ad_entity ad_id ad_data] in *.
  exists e, (mk_eh_entity ev t h). split; [done|]. split; [|done]. unfold event_handler_shape.
  shown_data Hn. destruct t as [t|]; [|done].
  unfold try_from_value, event_handler_from_value, get_optional.
  cbn -[h256_from_value Bytes_to_string trim_0x].
  unfold try_from_value. rewrite h256_value. done.
Qed.

(** The filter is shown without its kind. *)
Definition without_filter_kind (x : EthereumBlockHandlerEntity) : EthereumBlockHandlerEntity :=
  mk_bh_entity (bhe_handler x) ((fun _ => mk_filter_entity None) <$> bhe_filter x).

Lemma readable_block_handler :
  readable "EthereumBlockHandlerEntity" generate_block_handler (block_handler_shape m)
    (fun y x => y = without_filter_kind x).
Proof.
  intros [h f] id. unfold generate_block_handler. cbn [bhe_filter bhe_handler].
  destruct f as [f|].
  - intros [Hf (e & He & Hn)]%held_last. cbn [ad_entity ad_id ad_data] in *.
    apply Forall_singleton in Hf as (ef & Hef & _).
    exists e, (mk_bh_entity h (Some (mk_filter_entity None))). split; [done|]. split; [|done].
    unfold block_handler_shape. rewrite !(shown_equiv _ _ _ Hn), (shown_child_equiv _ _ _ _ _ Hn). unfold shown, shown_child, entity_set.
    rewrite lookup_insert_eq, lookup_insert_ne, entity_of_lookup by done. cbn [strip_null].
    unfold addition_key in Hef. cbn [ad_entity ad_id] in Hef. by rewrite Hef.
  - intros (e & He & Hn)%Forall_singleton. cbn [ad_entity ad_id ad_data] in *.
    exists e, (mk_bh_entity h None). split; [done|]. split; [|done]. unfold block_handler_shape.
    rewrite !(shown_equiv _ _ _ Hn), (shown_child_equiv _ _ _ _ _ Hn). unfold shown, shown_child. rewrite !entity_of_lookup. done.
Qed.

(** Mappings up to the order of their lists and the kinds of filters. *)
Record same_mapping (y x : EthereumContractMappingEntity) : Prop := {
  smp_kind : me_kind y = me_kind x;
  smp_api_version : me_api_version y = me_api_version x;
  smp_language : me_language y = me_language x;
  smp_file : me_file y = me_file x;
  smp_entities : me_entities y = me_entities x;
  smp_abis : same_list eq (me_abis y) (me_abis x);
  smp_event_handlers : same_list eq (me_event_handlers y) (me_event_handlers x);
  smp_call_handlers : same_list eq (me_call_handlers y) (me_call_handlers x);
  smp_block_handlers :
    same_list (fun y x => y = without_filter_kind x) (me_block_handlers y) (me_block_handlers x);
}.

Lemma read_strings (l : list string) :
  map_res (fun v => try_from_value (T := string) v) (to_query_value <$> (VString <$> l)) = Ok l.
Proof.
  rewrite <- list_fmap_compose.
  induction l as [|s l IH]; [done|]. rewrite fmap_cons, map_res_cons, IH. done.
Qed.

(** What is read under a key of an object. *)
Lemma get_required_list {A} {P : TryFromValue A} o key vs (ys : list A) :
  object_get o key = Some (QList vs) -> map_res (fun v => try_from_value v) vs = Ok ys ->
  get_required o key = Ok ys.
Proof. unfold get_required. intros -> E. exact E. Qed.

Lemma get_list_list {A} {P : TryFromValue A} o key vs (ys : list A) :
  object_get o key = Some (QList vs) -> map_res (fun v => try_from_value v) vs = Ok ys ->
  get_list o key = Ok ys.
Proof.
  unfold get_list, get_optional. intros -> E. unfold try_from_value, list_from_value.
  change (map_res P vs = Ok ys) in E. rewrite E. done.
Qed.

Lemma readable_mapping :
  readable "EthereumContractMapping" generate_mapping (mapping_shape order m) same_mapping.
Proof.
  intros x id H. unfold generate_mapping in H. rewrite !Forall_app in H.
  destruct H as (Ha & He & Hc & Hb & (e & Hm & Hn)%Forall_singleton).
  cbn [ad_entity ad_id ad_data] in *. exists e. unfold addition_key in Hm.
  set (data := mapping_data x id) in *.
  assert (mapping_shape order m e = mapping_shape order m data) as ->
    by (unfold mapping_shape; shape_equiv).
  unfold mapping_shape.
  destruct (read_children _ _ _ _ _ _ _ data "abis" readable_abi Ha) as (va & ya & Ea & Pa & Ra);
    [unfold data, mapping_data; by rewrite entity_of_lookup|].
  destruct (read_children _ _ _ _ _ _ _ data "eventHandlers" readable_event_handler He)
    as (ve & ye & Ee & Pe & Re); [unfold data, mapping_data; by rewrite entity_of_lookup|].
  destruct (read_children _ _ _ _ _ _ _ data "callHandlers" readable_call_handler Hc)
    as (vc & yc & Ec & Pc & Rc); [unfold data, mapping_data; by rewrite entity_of_lookup|].
  destruct (read_children _ _ _ _ _ _ _ data "blockHandlers" readable_block_handler Hb)
    as (vb & yb & Eb & Pb & Rb); [unfold data, mapping_data; by rewrite entity_of_lookup|].
  rewrite Ea, Ee, Ec, Eb. unfold shown, data, mapping_data. rewrite !entity_of_lookup.
  exists (mk_mapping_entity (me_kind x) (me_api_version x) (me_language x) (me_file x)
            (me_entities x) ya yb yc ye).
  split; [exact Hm|]. split; [|by constructor].
  unfold try_from_value, mapping_from_value. cbn [as_map res_bind].
  match goal with |- context [get_required ?o] => set (obj := o) end.
  rewrite (get_required_list obj "entities" _ _ eq_refl (read_strings _)).
  rewrite (get_required_list obj "abis" _ _ eq_refl Pa).
  rewrite (get_list_list obj "eventHandlers" _ _ eq_refl Pe).
  rewrite (get_list_list obj "callHandlers" _ _ eq_refl Pc).
  rewrite (get_list_list obj "blockHandlers" _ _ eq_refl Pb). reflexivity.
Qed.

Record same_template (y x : EthereumContractDataSourceTemplateEntity) : Prop := {
  stp_kind : te_kind y = te_kind x;
  stp_network : te_network y = te_network x;
  stp_name : te_name y = te_name x;
  stp_source : te_source y = te_source x;
  stp_mapping : same_mapping (te_mapping y) (te_mapping x);
}.

Lemma held_child {A} {P : TryFromValue A} ty generate shape (R : A -> A -> Prop) x id part e f :
  readable ty generate shape R -> Forall (holds m) (generate x (sub_id id part)) ->
  e !! f = Some (VString (sub_id id part)) ->
  exists v y, shown_child m ty shape e f = (f, v) /\ v <> QNull
    /\ try_from_value v = Ok y /\ R y x.
Proof.
  intros HR H Hf. destruct (HR _ _ H) as (c & y & Hc & Hy & Rxy).
  exists (QObject (shape c)), y. unfold shown_child. rewrite Hf. cbn [strip_null]. by rewrite Hc.
Qed.

Lemma get_required_value {A} {P : TryFromValue A} o key v (y : A) :
  object_get o key = Some v -> try_from_value v = Ok y -> get_required o key = Ok y.
Proof. unfold get_required. intros -> E. exact E. Qed.

Lemma get_optional_string o key (s : option string) :
  object_get o key = Some (from_option to_query_value QNull (Some (opt_value VString s))) ->
  get_optional o key = Ok s.
Proof. unfold get_optional. intros ->. by destruct s. Qed.

Lemma readable_template :
  readable "EthereumContractDataSourceTemplate" generate_template (template_shape order m) same_template.
Proof.
  intros x id H. unfold generate_template in H. rewrite !Forall_app in H.
  destruct H as (Hs & Hmap & (e & Hm & Hn)%Forall_singleton).
  cbn [ad_entity ad_id ad_data] in *. exists e. unfold addition_key in Hm.
  set (data := template_data x id) in *.
  assert (template_shape order m e = template_shape order m data) as ->
    by (unfold template_shape; shape_equiv).
  unfold template_shape.
  destruct (held_child _ _ _ _ _ _ _ data "source" readable_template_source Hs)
    as (vs & ys & Es & _ & Ps & ->); [unfold data, template_data; by rewrite entity_of_lookup|].
  destruct (held_child _ _ _ _ _ _ _ data "mapping" readable_mapping Hmap)
    as (vm & ym & Em & _ & Pm & Rm); [unfold data, template_data; by rewrite entity_of_lookup|].
  rewrite Es, Em. unfold shown, data, template_data. rewrite !entity_of_lookup.
  exists (mk_template_entity (te_kind x) (te_network x) (te_name x) (te_source x) ym).
  split; [exact Hm|]. split; [|by constructor].
  unfold try_from_value, template_from_value. cbn [as_map res_bind].
  match goal with |- context [get_required ?o] => set (obj := o) end.
  rewrite (get_optional_string obj "network" (te_network x) eq_refl).
  rewrite (get_required_value obj "source" _ _ eq_refl Ps).
  rewrite (get_required_value obj "mapping" _ _ eq_refl Pm). reflexivity.
Qed.

Record same_dynamic (y x : DynamicEthereumContractDataSourceEntity) : Prop := {
  sdy_kind : de_kind y = de_kind x;
  sdy_network : de_network y = de_network x;
  sdy_name : de_name y = de_name x;
  sdy_source : de_source y = without_start_block (de_source x);
  sdy_mapping : same_mapping (de_mapping y) (de_mapping x);
  sdy_templates : same_list same_template (de_templates y) (de_templates x);
  sdy_context : de_context y = de_context x;
}.

(** The context of a data source reads back from JSON. *)
Definition json_readable (context : option Entity) : Prop :=
  forall c, context = Some c -> json_from_str (json_to_string c) = Some c.

Lemma get_optional_entity o key (c : option Entity) :
  object_get o key = Some (from_option to_query_value QNull
    (Some (opt_value (fun c => VString (json_to_string c)) c))) ->
  json_readable c -> get_optional o key = Ok c.
Proof.
  unfold get_optional. intros -> J. destruct c as [c|]; [|done]. cbn.
  unfold try_from_value, entity_from_value. by rewrite (J c).
Qed.

(** What the loader reads of a stored data source. *)
Lemma read_dynamic x id :
  json_readable (de_context x) -> Forall (holds m) (generate_dynamic x id) ->
  exists c y, m !! metadata_key "DynamicEthereumContractDataSource" id = Some c
    /\ try_from_value (QObject (dynamic_shape order m c)) = Ok (unresolved_of_dynamic y)
    /\ same_dynamic y x.
Proof.
  intros J H. unfold generate_dynamic in H. rewrite !Forall_app in H.
  destruct H as (Hs & Hmap & Ht & (e & Hm & Hn)%Forall_singleton).
  cbn [ad_entity ad_id ad_data] in *. exists e. unfold addition_key in Hm.
  set (data := dynamic_data x id) in *.
  assert (dynamic_shape order m e = dynamic_shape order m data) as ->
    by (unfold dynamic_shape; shape_equiv).
  destruct (held_child _ _ _ _ _ _ _ data "source" readable_source Hs)
    as (vs & ys & Es & _ & Ps & Rs); [unfold data, dynamic_data; by rewrite entity_of_lookup|].
  destruct (held_child _ _ _ _ _ _ _ data "mapping" readable_mapping Hmap)
    as (vm & ym & Em & _ & Pm & Rm); [unfold data, dynamic_data; by rewrite entity_of_lookup|].
  destruct (read_children _ _ _ _ _ _ _ data "templates" readable_template Ht)
    as (vt & yt & Et & Pt & Rt); [unfold data, dynamic_data; by rewrite entity_of_lookup|].
  unfold dynamic_shape. rewrite Es, Em, Et. unfold shown, data, dynamic_data.
  rewrite !entity_of_lookup.
  exists (mk_dynamic_entity (de_kind x) (de_deployment x) (de_ethereum_block_hash x)
            (de_ethereum_block_number x) (de_network x) (de_name x) ys ym yt (de_context x)).
  split; [exact Hm|]. split; [|by constructor].
  unfold try_from_value, data_source_from_value. cbn [as_map res_bind].
  match goal with |- context [get_required ?o] => set (obj := o) end.
  rewrite (get_required_value obj "source" _ _ eq_refl Ps).
  rewrite (get_required_value obj "mapping" _ _ eq_refl Pm).
  rewrite (get_list_list obj "templates" _ _ eq_refl Pt).
  rewrite (get_optional_string obj "network" (de_network x) eq_refl).
  rewrite (get_optional_entity obj "context" (de_context x) eq_refl J). reflexivity.
Qed.

Lemma parse_answer ids us :
  Forall2 (fun id u => exists c, m !! metadata_key "DynamicEthereumContractDataSource" id = Some c
    /\ try_from_value (QObject (dynamic_shape order m c)) = Ok u) ids us ->
  parse_data_sources (answer order m ids) = Ok us.
Proof.
  intros H. unfold parse_data_sources, answer. cbn.
  rewrite (proj2 (forallb_forall _ _)).
  2: { intros v Hv%list_elem_of_In. apply list_elem_of_omap in Hv as (id & _ & E).
       by destruct (m !! _); simplify_eq/=. }
  induction H as [|id u ids us (c & Hc & Hu) _ IH]; [done|].
  rewrite omap_cons_eq, Hc. cbn [fmap option_fmap option_map]. rewrite map_res_cons, Hu.
  cbn [res_bind]. destruct (map_res _ _); by simplify_eq/=.
Qed.
End read.

(** ** The loop of the loader *)
Section loading.
Context {ST : ScalarText} {MT : MetadataText} {ME : ManifestEnv}.
Context {RunnerError : Type} (query_metadata : Z -> res RunnerError qvalue).

Lemma load_loop_all {X} (page : nat) (answer : list X -> qvalue)
    (unresolved : X -> UnresolvedDataSource) (resolved : X -> DataSource) (all : list X) :
  0 < page -> (Z.of_nat (length all) < 2 ^ 31)%Z ->
  (forall skip, query_metadata (Z.of_nat skip) = Ok (answer (take page (drop skip all)))) ->
  (forall l, l ⊆ all -> parse_data_sources (answer l) = Ok (unresolved <$> l)) ->
  (forall x, x ∈ all -> resolve_data_source (unresolved x) = Ok (resolved x)) ->
  forall fuel n, n <= length all -> length all - n < fuel ->
  load_loop query_metadata fuel (resolved <$> take n all) = Some (Ok (resolved <$> all)).
Proof.
  intros Hp Hmax Hq Ha Hr fuel. induction fuel as [|fuel IH]; intros n Hn Hf; [lia|]. cbn [load_loop].
  rewrite length_fmap, length_take, Nat.min_l by done.
  assert (wrap_i 32 (Z.of_nat n) = Z.of_nat n) as -> by (apply wrap_i32_small; unfold is_i32; lia).
  rewrite Hq. cbn [map_err res_bind].
  assert (take page (drop n all) ⊆ all) as Hsub.
  { intros x (i & Hx & _)%elem_of_take. rewrite lookup_drop in Hx. by eapply list_elem_of_lookup_2. }
  rewrite Ha by done. cbn [map_err res_bind]. unfold resolve_data_sources.
  assert (map_res resolve_data_source (unresolved <$> take page (drop n all))
          = Ok (resolved <$> take page (drop n all))) as ->.
  { apply map_res_Forall2, Forall2_fmap, Forall_Forall2_diag, Forall_forall. auto. }
  cbn [map_err res_bind].
  pose proof (take_take_drop all n page) as T. pose proof (f_equal length T) as L.
  rewrite length_app, !length_take, length_drop in L.
  destruct (take page (drop n all)) as [|x rest] eqn:D; cbn [fmap list_fmap].
  { apply (f_equal length) in D. rewrite length_take, length_drop in D. cbn in D.
    by rewrite take_ge by lia. }
  rewrite <- fmap_cons, <- fmap_app, T.
  apply (f_equal length) in D. rewrite length_take, length_drop in D. cbn in D.
  destruct (decide (n + page <= length all)); [apply IH; lia|].
  rewrite (take_ge all (n + page)), <- (firstn_all all) at 1 by lia. apply IH; lia.
Qed.
End loading.

(** ** Data sources after a restart *)
Section reloaded.
Context {ST : ScalarText} {MT : MetadataText} {STL : ScalarTextLaws} {ML : MetadataTextLaws MT} {ME : ManifestEnv}.

(** A mapping that was stored and loaded: lists may come back in another order,
    and filters are gone. *)
Record reloaded_mapping (m m0 : Mapping) : Prop := {
  rm_kind : m_kind m = m_kind m0;
  rm_api_version : m_api_version m = m_api_version m0;
  rm_language : m_language m = m_language m0;
  rm_entities : m_entities m = m_entities m0;
  rm_link : m_link m = m_link m0;
  rm_runtime : m_runtime m = m_runtime m0;
  rm_abis : m_abis m ≡ₚ m_abis m0;
  rm_event_handlers : m_event_handlers m ≡ₚ m_event_handlers m0;
  rm_call_handlers : m_call_handlers m ≡ₚ m_call_handlers m0;
  rm_block_handlers :
    m_block_handlers m ≡ₚ (fun h => mk_block_handler (bh_handler h) None) <$> m_block_handlers m0;
}.

Record reloaded_template (t t0 : DataSourceTemplate) : Prop := {
  rt_kind : dt_kind t = dt_kind t0;
  rt_network : dt_network t = dt_network t0;
  rt_name : dt_name t = dt_name t0;
  rt_source : dt_source t = dt_source t0;
  rt_mapping : reloaded_mapping (dt_mapping t) (dt_mapping t0);
}.

Record reloaded (d d0 : DataSource) : Prop := {
  rd_kind : ds_kind d = ds_kind d0;
  rd_network : ds_network d = ds_network d0;
  rd_name : ds_name d = ds_name d0;
  rd_address : src_address (ds_source d) = src_address (ds_source d0);
  rd_abi : src_abi (ds_source d) = src_abi (ds_source d0);
  rd_start_block : src_start_block (ds_source d) = 0%Z;
  rd_mapping : reloaded_mapping (ds_mapping d) (ds_mapping d0);
  rd_context : ds_context d = ds_context d0;
  rd_templates : same_list reloaded_template (ds_templates d) (ds_templates d0);
}.

Lemma same_list_fmap {A B} (f : B -> A) ys xs :
  same_list eq ys (f <$> xs) -> exists xs', xs' ≡ₚ xs /\ ys = f <$> xs'.
Proof.
  intros (l & Hp & Hl%list_eq_Forall2). subst l.
  destruct (Permutation_map_inv _ _ Hp) as (xs' & -> & Hp'). by exists xs'.
Qed.

Lemma same_list_inverse {A B} (f : B -> A) (g : A -> B) ys xs :
  (forall x, g (f x) = x) -> same_list eq ys (f <$> xs) -> g <$> ys ≡ₚ xs.
Proof.
  intros Hg (xs' & Hp & ->)%same_list_fmap. by rewrite (fmap_inverse f g).
Qed.

Lemma reload_mapping y m0 :
  mapping_fetched m0 -> same_mapping y (entity_of_mapping m0) ->
  exists m, resolve_mapping (mapping_of_entity y) = Ok m /\ reloaded_mapping m m0.
Proof.
  intros [Hrun Habi] [? ? ? ? ? Ha He Hc (bs & Hb & HB)]. cbn in *.
  apply same_list_fmap in Ha as (abis & Pa & Ea).
  exists (mk_mapping (m_kind m0) (m_api_version m0) (m_language m0) (m_entities m0) abis
    (block_handler_of_entity <$> me_block_handlers y) (call_handler_of_entity <$> me_call_handlers y)
    (event_handler_of_entity <$> me_event_handlers y) (m_runtime m0) (m_link m0)).
  split.
  - apply resolve_mapping_iff. split; [|split; [done|cbn; by rewrite Pa]].
    unfold forget_mapping, mapping_of_entity. cbn.
    rewrite Ea, (fmap_inverse_to _ _ forget_abi) by by intros [? ? []].
    destruct y, (m_link m0); cbn in *; subst. reflexivity.
  - constructor; cbn; try done.
    + by apply (same_list_inverse entity_of_event_handler); [intros []|].
    + by apply (same_list_inverse entity_of_call_handler); [intros []|].
    + rewrite <- (fmap_inverse_to entity_of_block_handler block_handler_of_entity) by by intros [].
      rewrite <- Hb. clear -HB. induction HB as [|u v us vs -> _ IH]; [done|].
      rewrite !fmap_cons. by f_equiv.
Qed.

Lemma reload_templates ys ts :
  Forall template_fetched ts -> same_list same_template ys (entity_of_template <$> ts) ->
  exists ts', map_res resolve_template (template_of_entity <$> ys) = Ok ts'
    /\ same_list reloaded_template ts' ts.
Proof.
  intros Hf (l & Hl & HF). destruct (Permutation_map_inv _ _ Hl) as (xs & -> & Hp).
  rewrite Hp in Hf. clear Hl.
  assert (exists ts', map_res resolve_template (template_of_entity <$> ys) = Ok ts'
    /\ Forall2 reloaded_template ts' xs) as (ts' & E & R); [|by exists ts'; split; [|exists xs]].
  clear Hp ts.
  revert ys HF. induction Hf as [|t ts Ht _ IH]; intros ys HF.
  { apply Forall2_nil_inv_r in HF as ->. by exists []. }
  rewrite fmap_cons in HF. apply Forall2_cons_inv_r in HF as (y & ys' & [? ? ? Es Hm] & HF & ->).
  destruct (IH _ HF) as (ts' & E & R). cbn in Es, Hm.
  destruct (reload_mapping _ _ Ht Hm) as (m & Em & Rm).
  exists (mk_template (te_kind y) (te_network y) (te_name y) (template_source_of_entity (te_source y)) m :: ts').
  rewrite fmap_cons, map_res_cons, E. unfold resolve_template at 1. cbn.
  rewrite Em. split; [done|]. constructor; [|done]. constructor; cbn; try done.
  rewrite Es. by destruct (dt_source t).
Qed.

Lemma reload deployment d0 p y :
  data_source_fetched d0 -> same_dynamic y (dynamic_entity_of deployment d0 p) ->
  exists d, resolve_data_source (unresolved_of_dynamic y) = Ok d /\ reloaded d d0.
Proof.
  intros [Fm Ft] [? ? ? Es Hm Ht ?]. cbn in *.
  destruct (reload_mapping _ _ Fm Hm) as (m & Em & Rm).
  destruct (reload_templates _ _ Ft Ht) as (ts & Et & Rt).
  unfold resolve_data_source, unresolved_of_dynamic. cbn. rewrite Em. cbn [res_bind].
  rewrite Et. eexists. split; [reflexivity|]. by constructor; cbn; rewrite ?Es.
Qed.

(** The data sources created under fresh ids, in the order of their creation. *)
Definition write_all (writes : list (string * (DataSource * EthereumBlockPointer)))
    (deployment : string) : list Addition :=
  mjoin ((fun w => generate_dynamic (dynamic_entity_of deployment w.2.1 w.2.2) (make_id w.1)) <$> writes).

Lemma ids_make_id x uuid :
  ids (generate_dynamic x (make_id uuid))
  = below uuid (part_paths "dynamic" (data_source_paths (de_mapping x) (de_templates x))).
Proof. rewrite adds_dynamic. apply below_part. Qed.

Lemma below_uuid u v p q s :
  word u -> word v -> s ∈ below u p -> s ∈ below v q -> u = v.
Proof.
  intros Wu Wv (l & -> & _)%list_elem_of_fmap (l' & E & _)%list_elem_of_fmap.
  by apply word_split in E as [-> _]; auto using path_tail.
Qed.

Lemma NoDup_write_all writes deployment :
  Forall word writes.*1 -> NoDup writes.*1 -> NoDup (ids (write_all writes deployment)).
Proof.
  induction writes as [|[u w] writes IH]; intros W N; [constructor|].
  inversion W as [|? ? Wu W']; inversion N as [|? ? Nu N']; subst.
  unfold write_all. rewrite fmap_cons. cbn [mjoin list_join fst snd]. rewrite ids_app.
  apply NoDup_app. split; [|split; [|by apply IH]].
  - rewrite ids_make_id. apply NoDup_below; apply proper_part; try done; apply proper_data_source.
  - intros s Hs (a & -> & Ha)%list_elem_of_fmap. apply list_elem_of_join in Ha as (l & Ha & Hl).
    apply list_elem_of_fmap in Hl as ([v w'] & -> & Hin). rewrite ids_make_id in Hs.
    assert (ad_id a ∈ ids (generate_dynamic (dynamic_entity_of deployment w'.1 w'.2) (make_id v)))
      as Hv by by apply list_elem_of_fmap_2.
    rewrite ids_make_id in Hv. apply Nu. apply list_elem_of_fmap. exists (v, w'). split; [|done].
    eapply below_uuid; [done| |exact Hs|exact Hv]. rewrite Forall_forall in W'.
    apply W'. by apply (list_elem_of_fmap_2 fst).
Qed.
End reloaded.

Lemma Forall_choose {A B} (P : A -> B -> Prop) l :
  Forall (fun x => exists y, P x y) l -> exists k : list (A * B), k.*1 = l /\ Forall (fun xy => P xy.1 xy.2) k.
Proof.
  induction 1 as [|x l (y & H) _ (k & <- & IH)]; [by exists []|].
  exists ((x, y) :: k). split; [done|by constructor].
Qed.

(** ** Properties *)
Section properties.
Context {ST : ScalarText} {MT : MetadataText} {STL : ScalarTextLaws} {ML : MetadataTextLaws MT} {ME : ManifestEnv}.
Context (order : list string -> list string) (order_perm : forall l, order l ≡ₚ l).
Context {RunnerError : Type} (query_metadata : Z -> res RunnerError qvalue).

(** C16: Dynamic data sources survive a restart.  When data sources are written
    to a store under fresh ids, and the GraphQL runner answers the loader's query
    with pages of what the store then holds, the loader ends and returns a data
    source for each that was written, in the order of the runner: the same one
    up to the order of its lists, its start block, which is not read, and the
    filters of its block handlers, which are lost. *)
Theorem dynamic_data_sources_survive (deployment : string) (page fuel : nat)
    (m0 : gmap EntityKey Entity)
    (writes listed : list (string * (DataSource * EthereumBlockPointer))) :
  Forall word writes.*1 -> NoDup writes.*1 ->
  (forall ty u s, u ∈ writes.*1 -> m0 !! metadata_key ty (u +:+ s) = None) ->
  Forall (fun w => data_source_fetched w.2.1 /\ json_readable (ds_context w.2.1)) writes ->
  listed ≡ₚ writes -> 0 < page -> (Z.of_nat (length writes) < 2 ^ 31)%Z -> length writes < fuel ->
  (forall skip, query_metadata (Z.of_nat skip) = Ok
     (answer order (foldl op_spec m0 (write_entity_operations (write_all writes deployment)))
        (make_id <$> (take page (drop skip listed)).*1))) ->
  exists ds, load_dynamic_data_sources query_metadata fuel = Some (Ok ds)
  /\ Forall2 (fun d w => reloaded d w.2.1) ds listed.
Proof.
  intros W N F Hf Hl Hp Hmax Hfuel Hq.
  set (m := foldl op_spec m0 _) in Hq.
  assert (Forall (holds m) (write_all writes deployment)) as Hm.
  { unfold m, write_entity_operations. rewrite foldl_fmap.
    apply writes_held; [apply entity_operation_writes|by apply NoDup_write_all|].
    intros a Ha. apply list_elem_of_join in Ha as (l & Ha & Hl').
    apply list_elem_of_fmap in Hl' as ([u w] & -> & Hin). apply (list_elem_of_fmap_2 ad_id) in Ha.
    change (ad_id <$> ?l) with (ids l) in Ha. rewrite ids_make_id in Ha.
    apply list_elem_of_fmap in Ha as (p & E & _). unfold addition_key. rewrite E. apply F.
    by apply (list_elem_of_fmap_2 fst) in Hin. }
  destruct (Forall_choose (fun w (ud : UnresolvedDataSource * DataSource) =>
    (exists c, m !! metadata_key "DynamicEthereumContractDataSource" (make_id w.1) = Some c
       /\ try_from_value (QObject (dynamic_shape order m c)) = Ok ud.1)
    /\ resolve_data_source ud.1 = Ok ud.2 /\ reloaded ud.2 w.2.1) listed) as (k & <- & Hk).
  { rewrite Hl. rewrite Forall_forall in Hm. rewrite Forall_forall in Hf. apply Forall_forall. intros w Hw.
    destruct (read_dynamic order order_perm m (dynamic_entity_of deployment w.2.1 w.2.2) (make_id w.1))
      as (c & y & Hc & Hy & Hs); [apply (Hf w Hw)| |].
    { apply Forall_forall. intros a Ha. apply Hm, list_elem_of_join. eexists. split; [exact Ha|].
      exact (list_elem_of_fmap_2 (fun w => generate_dynamic (dynamic_entity_of deployment w.2.1 w.2.2) (make_id w.1)) _ _ Hw). }
    destruct (reload deployment w.2.1 w.2.2 y (proj1 (Hf w Hw)) Hs) as (d & Hd & Hr).
    exists (unresolved_of_dynamic y, d). cbn. split; [by exists c|done]. }
  rewrite Forall_forall in Hk. apply Permutation_length in Hl. rewrite length_fmap in Hl.
  exists ((fun wd => wd.2.2) <$> k). split.
  - apply (load_loop_all query_metadata page (fun l => answer order m (make_id <$> l.*1.*1))
      (fun wd => wd.2.1) (fun wd => wd.2.2) k) with (n := 0); [done|lia| | | |lia|lia].
    + intros skip. by rewrite Hq, <- fmap_drop, <- fmap_take.
    + intros l Hl'. apply parse_answer. clear Hq.
      induction l as [|x l IH]; [constructor|]. rewrite !fmap_cons. constructor.
      * apply (Hk x). apply Hl'. left.
      * apply IH. intros y Hy. apply Hl'. by right.
    + intros x Hx. apply (Hk x Hx).
  - apply Forall2_fmap, Forall_Forall2_diag, Forall_forall. intros x Hx. apply (Hk x Hx).
Qed.

(** Creating a deployment.  The operations for a new deployment, grafted or
    not, are produced without a panic; they abort when the deployment exists;
    applied to metadata that has nothing under the id they store the deployment
    and every entity of its manifest, none of which overwrites another, and
    leave the rest alone. *)
Lemma created_deployment_stored (id : string) (manifest : SubgraphManifestEntity) (synced : bool)
    (earliest : option EthereumBlockPointer) (base : option (string * EthereumBlockPointer))
    (m0 : gmap EntityKey Entity) :
  (forall ty s, m0 !! metadata_key ty (id +:+ s) = None) ->
  let e := deployment_graft (deployment_new manifest synced earliest) base in
  exists description query ops,
    create_operations e id = Ok (MAbortUnless description query [] :: ops)
    /\ eq_filter query = Some (FEqual "id" (VString id))
    /\ let m := foldl apply_metadata m0 ops in
       m !! metadata_key Metadata.SubgraphDeploymentEntity id = Some (deployment_data e id)
       /\ Forall (holds m) (generate_manifest manifest (manifest_id id))
       /\ forall k, (forall s, key_entity_id k <> id +:+ s) -> m !! k = m0 !! k.
Proof.
  intros F e. set (adds := generate_manifest manifest (manifest_id id)
    ++ [mk_addition Metadata.SubgraphDeploymentEntity id (deployment_data e id)]).
  assert (create_operations e id = Ok (MAbortUnless
     "Subgraph deployment entity must not exist yet to be created"
     (query_filter (typed_query Metadata.SubgraphDeploymentEntity) (FEqual "id" (VString id))) []
     :: write_operations adds)) as ->.
  { unfold create_operations, private_create_operations, write_operations, adds. rewrite fmap_app.
    unfold e. by destruct base as [[]|]. }
  eexists _, _, _. split; [reflexivity|]. split; [reflexivity|].
  assert (ids adds = below id (part_paths "manifest" (manifest_paths manifest) ++ [[]])) as Hids.
  { unfold adds. rewrite ids_app, adds_manifest, below_app, <- leaf_below. f_equal. apply below_part. }
  assert (proper_paths (part_paths "manifest" (manifest_paths manifest) ++ [[]])) as [Wp Np].
  { apply (proper_app "manifest"); [|apply proper_leaf|apply head_part|].
    - apply proper_part; [done|apply proper_manifest].
    - intros p Hp. by rewrite (head_leaf _ Hp). }
  assert (forall a, a ∈ adds -> exists s, ad_id a = id +:+ s) as Hpre.
  { intros a Ha. apply (list_elem_of_fmap_2 ad_id) in Ha. change (ad_id <$> adds) with (ids adds) in Ha.
    rewrite Hids in Ha. apply list_elem_of_fmap in Ha as (p & -> & _). by eexists. }
  unfold write_operations. rewrite foldl_fmap.
  set (step := fun m a => apply_metadata m (metadata_operation a)).
  assert (Forall (holds (foldl step m0 adds)) adds) as Hm.
  { apply writes_held; [apply metadata_operation_writes|rewrite Hids; by apply NoDup_below|].
    intros a (s & E)%Hpre. unfold addition_key. rewrite E. apply F. }
  apply Forall_app in Hm as [Hm _]. split; [|split; [done|]].
  - unfold adds. rewrite foldl_snoc. unfold step at 1. cbn. rewrite lookup_insert_eq.
    rewrite (writes_other step); [|apply metadata_operation_writes|].
    + rewrite <- (append_nil_r id) at 3. rewrite F. cbn. by rewrite (right_id_L ∅ (∪)).
    + intros a Ha [= _ E]. assert (NoDup (ids adds)) as N by (rewrite Hids; by apply NoDup_below).
      unfold adds in N. rewrite ids_app in N. apply NoDup_app in N as (_ & N & _).
      apply (N (ad_id a)); [by apply list_elem_of_fmap_2|]. rewrite E. left.
  - intros k Hk. apply writes_other; [apply metadata_operation_writes|].
    intros a (s & E)%Hpre <-. by apply (Hk s).
Qed.
End properties.

(** Failing a deployment records the error; unfailing it restores a health and
    clears the fatal error, and neither touches other fields. *)
Lemma unfail_after_fail {ST : ScalarText} {MT : MetadataText} (m : gmap EntityKey Entity) (id : string)
    (e : Entity) (error : SubgraphError) (error_id : string) (health : SubgraphHealth) :
  m !! metadata_key Metadata.SubgraphDeploymentEntity id = Some e ->
  let m' := foldl apply_metadata m (fail_operations id error error_id ++ unfail_operations id health) in
  exists e', m' !! metadata_key Metadata.SubgraphDeploymentEntity id = Some e'
  /\ e' !! "failed" = Some (VBool false)
  /\ e' !! "health" = Some (VString (health_to_string health))
  /\ e' !! "fatalError" = Some VNull
  /\ (forall f, f <> "failed" -> f <> "health" -> f <> "fatalError" -> e' !! f = e !! f)
  /\ is_Some (m' !! metadata_key "SubgraphError" error_id).
Proof.
  intros He. unfold fail_operations, unfail_operations, error_create_operation. cbn [app foldl apply_metadata].
  rewrite !lookup_alter_eq, lookup_insert_ne, He by done.
  rewrite !lookup_alter_ne, lookup_insert_eq by done.
  eexists. split; [reflexivity|].
  do 3 (split; [rewrite lookup_union, entity_of_lookup;
    match goal with |- _ ∪ ?o = _ => by destruct o end|]). split; [|by eexists].
  intros f H1 H2 H3. rewrite !lookup_union, !entity_of_lookup. cbn -[String.eqb].
  rewrite !(proj2 (String.eqb_neq _ f)) by done. cbn. by destruct (e !! f).
Qed.

Lemma health_roundtrip {ST : ScalarText} h : health_from_value (health_to_query_value h) = Ok h.
Proof. by destruct h. Qed.

(** The indexes of a schema are those of the stored fields, numbered by the
    place of the type among the definitions and of the field among those that
    are not the id. *)
Lemma attribute_indexes_exact (sid : string) (doc : Document) (ix : AttributeIndexDefinition) :
  ix ∈ attribute_index_definitions sid doc <->
  exists n t k f ty, doc !! n = Some (TypeDef (TDObject t))
  /\ filter (fun f => fd_name f <> "id") (ot_fields t) !! k = Some f
  /\ is_derived_field f = false /\ inner_type_name (fd_field_type f) doc = Ok ty
  /\ ix = mk_index sid n k ty (fd_name f) (ot_name t).
Proof.
  unfold attribute_index_definitions. rewrite list_elem_of_join. setoid_rewrite elem_of_lookup_imap.
  unfold type_indexes. split.
  - intros (l & Hix & n & d & -> & Hd). destruct d as [[|t| | | |]|]; try by apply elem_of_nil in Hix.
    apply list_elem_of_omap in Hix as (o & Ho & E). cbn in E. subst o.
    apply elem_of_lookup_imap in Ho as (k & f & E & Hf). unfold attribute_index in E.
    destruct (is_derived_field f) eqn:D; [done|].
    destruct (inner_type_name _ _) as [ty| |] eqn:Ety; [|done..]. injection E as ->.
    by exists n, t, k, f, ty.
  - intros (n & t & k & f & ty & Hd & Hf & D & Ety & ->). eexists. split; [|by exists n, (TypeDef (TDObject t))].
    apply list_elem_of_omap. exists (Some (mk_index sid n k ty (fd_name f) (ot_name t))). split; [|done].
    apply elem_of_lookup_imap. exists k, f. split; [|done]. unfold attribute_index. by rewrite D, Ety.
Qed.

(** ** Witness *)
Module Witness.
#[local] Existing Instance Manifest.Witness.text_env.
#[local] Existing Instance TextInstance.text.

Definition number_bytes (n : Z) : list Byte.byte := string_bytes (TextInstance.print_Z n).
Definition number_of (s : string) : option Z :=
  match TextInstance.decode s with
  | Ok b => match TextInstance.parse_Z (String.string_of_list_byte b) with Ok n => Some n | _ => None end
  | _ => None
  end.

#[local] Instance metadata_text : MetadataText := {|
  h160_bytes := number_bytes; h256_bytes := number_bytes;
  h160_from_str := number_of; h256_from_str := number_of;
  json_to_string := fun e => match e !! "name" with Some (VString s) => s | _ => "" end;
  json_from_str := fun s => Some {["name" := VString s]};
|}.

Lemma number_reads n : number_of (TextInstance.encode (number_bytes n)) = Some n.
Proof.
  unfold number_of. pose proof (hex_roundtrip (ScalarTextLaws := TextInstance.text_laws) (number_bytes n)) as H. cbn in H.
  rewrite H. unfold number_bytes, string_bytes. rewrite String.string_of_list_byte_of_string.
  by rewrite TextInstance.parse_print.
Qed.

#[local] Instance metadata_text_laws : MetadataTextLaws metadata_text.
Proof. split; apply number_reads. Qed.

Definition source_mapping : Mapping :=
  mk_mapping "ethereum/events" "0.0.4" "wasm/assemblyscript" ["Pet"]
    [mk_abi "abi" "/ipfs/abi" (mk_link "/ipfs/abi")]
    [mk_block_handler "every" None; mk_block_handler "calls" (Some FilterCall)] []
    [mk_event_handler "Birth(uint256)" (Some 77%Z) "birth"; mk_event_handler "Death()" None "death"]
    (string_bytes "/ipfs/m") (mk_link "/ipfs/m").

Definition source (address : Z) : DataSource :=
  mk_data_source "ethereum/contract" (Some "mainnet") "Pet" (mk_source (Some address) "abi" 0)
    source_mapping (Some {["name" := VString "cat"]})
    [mk_template "ethereum/contract" None "Toy" (mk_template_source "abi") source_mapping].

Definition created : list (string * (DataSource * EthereumBlockPointer)) :=
  [("b", (source 17, mk_ptr 900 9)); ("a", (source 18, mk_ptr 900 9))].
Definition shown_first : list (string * (DataSource * EthereumBlockPointer)) := reverse created.

Definition stored : gmap EntityKey Entity :=
  foldl op_spec ∅ (write_entity_operations (write_all created "Qm")).

Definition runner (skip : Z) : res Empty_set qvalue :=
  Ok (answer reverse stored (make_id <$> (take 1 (drop (Z.to_nat skip) shown_first)).*1)).

Lemma source_fetched a : data_source_fetched (source a).
Proof.
  split; [|constructor; [|constructor]]; (split; [reflexivity|]);
    (constructor; [by exists (string_bytes "/ipfs/abi")|constructor]).
Qed.

Lemma dynamic_data_sources_survive_witness :
  length created = 2
  /\ exists ds, load_dynamic_data_sources runner 3 = Some (Ok ds)
     /\ Forall2 (fun d w => reloaded d w.2.1) ds shown_first.
Proof.
  split; [reflexivity|].
  apply (dynamic_data_sources_survive (STL := TextInstance.text_laws) (ML := metadata_text_laws)
           reverse reverse_Permutation runner "Qm" 1 3 ∅ created shown_first).
  - repeat constructor.
  - repeat constructor; set_solver.
  - intros. apply lookup_empty.
  - repeat (apply Forall_cons_2; [split; [apply source_fetched|intros c [= <-]; reflexivity]|]).
    constructor.
  - apply reverse_Permutation.
  - lia.
  - reflexivity.
  - cbn. lia.
  - intros skip. unfold runner. by rewrite Nat2Z.id.
Defined.

Lemma created_deployment_stored_witness :
  exists description query ops,
    create_operations (deployment_graft (deployment_new
      (mk_manifest_entity "0.0.2" None None "type A" [entity_of_data_source (source 17)] [])
      false None) (Some ("QmBase", mk_ptr 1 7))) "Qm" = Ok (MAbortUnless description query [] :: ops)
    /\ is_Some (foldl apply_metadata ∅ ops !! metadata_key "EthereumContractAbi" "Qm-manifest-data-source-0-mapping-abi-0").
Proof.
  destruct (created_deployment_stored "Qm"
    (mk_manifest_entity "0.0.2" None None "type A" [entity_of_data_source (source 17)] []) false None
    (Some ("QmBase", mk_ptr 1 7)) ∅ (fun _ _ => lookup_empty _))
    as (description & query & ops & E & _ & _ & H & _).
  exists description, query, ops. split; [exact E|].
  rewrite Forall_forall in H.
  destruct (H (mk_addition "EthereumContractAbi" "Qm-manifest-data-source-0-mapping-abi-0"
    (entity_of [("id", VString "Qm-manifest-data-source-0-mapping-abi-0"); ("name", VString "abi");
                ("file", VString "/ipfs/abi")]))) as (e & He & _).
  - vm_compute. repeat first [left|right]. 
  - by exists e.
Defined.
End Witness.
