(* ===== verification/ColumnValues.v ===== *)
(** * Round trips of values through columns

    What [bind_value] writes into a column is a value of the column's SQL
    type, and [from_column_value] reads it back from the [to_jsonb] of the
    row. *)

From stdpp Require Import prelude list strings gmap.
From Stdlib Require Import ZArith Lia Ascii.
From S2P Require Import Prelude.
From S2P Require Import GraphqlTypes.
From S2P Require Import StoreValue.
From S2P Require Import EntityCache.
From S2P Require Import StoreQuery.
From S2P Require Import GraphqlSchema.
From S2P Require Import QueryBuild.
From S2P Require Import Schema.
From S2P Require Import Sql.
From S2P Require Import Layout.
From S2P Require Import RelationalQueries.

#[local] Open Scope string_scope.
#[local] Open Scope list_scope.

Section values.
Context {ST : ScalarText} {STL : ScalarTextLaws} {PT : PgText} {PTL : PgTextLaws}.
Context (normalize : BigDecimal -> BigDecimal).
(** The labels of the enum types of the database. *)
Context (enums : gmap string (gset string)).

(** A single value that is not null, and what the database has for it.  The
    numbers are those the database can represent; [Bytes] ids are written
    without a prefix. *)
Inductive stores : ColumnType -> Value -> Datum -> Prop :=
| stores_string s : stores CTString (VString s) (DText s)
| stores_int i : is_i32 i -> stores CTInt (VInt i) (DInteger i)
| stores_bool b : stores CTBoolean (VBool b) (DBool b)
| stores_bytes b : stores CTBytes (VBytes b) (DBytea b)
| stores_id b : stores CTBytesId (VString (hex_encode b)) (DBytea b)
| stores_bigint n x : numeric_in (bigint_to_string n) = Some x -> stores CTBigInt (VBigInt n) (DNumeric x)
| stores_decimal d x :
    numeric_in (bigdecimal_to_string d) = Some x -> representable normalize d ->
    stores CTBigDecimal (VBigDecimal d) (DNumeric x)
| stores_enum e s labels :
    enums !! en_name e = Some labels -> s ∈ labels -> stores (CTEnum e) (VString s) (DEnum (en_name e) s).

(** A value of a column. *)
Inductive column_stores (c : Column) : Value -> Datum -> Prop :=
| column_null : column_stores c VNull DNull
| column_scalar v d : col_is_list c = false -> stores (col_type c) v d -> column_stores c v d
| column_list l ds :
    col_is_list c = true -> is_tsvector c = false -> Forall2 (stores (col_type c)) l ds -> column_stores c (VList l) (DArray ds)
| column_tsvector config l x :
    col_is_list c = false -> col_type c = CTTSVector config ->
    Forall (fun v => exists s, v = VString s) l -> column_stores c (VList l) (DTsVector x).

(** ** Writing *)
Lemma bytes_of_hex b : bytes_of_str (hex_encode b) = Ok b.
Proof. unfold bytes_of_str, Bytes_from_str. by rewrite hex_no_prefix, hex_roundtrip. Qed.

Lemma stores_type ct v d : stores ct v d -> has_type d (sql_type ct) = true.
Proof. destruct 1; cbn; try done. by rewrite String.eqb_refl. Qed.

Lemma stores_nonnull ct v d : stores ct v d -> is_null d = false /\ v <> VNull.
Proof. by destruct 1. Qed.

Lemma bind_scalar ct v d :
  stores ct v d -> exists e, bind_value v ct = Ok e /\ forall r, eval enums r e = Ok d.
Proof.
  destruct 1; cbn; try (by eexists).
  - rewrite bytes_of_hex. cbn. by eexists.
  - eexists. split; [done|]. intros r. cbn. by rewrite H.
  - eexists. split; [done|]. intros r. cbn. by rewrite H.
  - eexists. split; [done|]. intros r. cbn. rewrite H. cbn. by rewrite bool_decide_true.
Qed.

(** The element of an array. *)
Lemma map_res_Forall2_intro {E A B} (f : A -> res E B) (R : A -> B -> Prop) l k :
  (forall a b, R a b -> f a = Ok b) -> Forall2 R l k -> map_res f l = Ok k.
Proof. intros Hf HR. apply map_res_Forall2. by eapply Forall2_impl. Qed.

Lemma cast_array t ds ds' :
  (forall i d, ds !! i = Some d -> has_type d t = false) ->
  map_res (cast_data enums t) ds = Ok ds' ->
  cast_data enums (TArray t) (DArray ds) = Ok (DArray ds').
Proof.
  intros Hn Hm. cbn [cast_data]. destruct ds as [|d ds]; [by injection Hm as <-|].
  cbn [has_type forallb]. rewrite (Hn 0%nat d) by done. cbn [andb]. by rewrite Hm.
Qed.

Lemma bind_array_ok ct (f : Value -> sres Datum) l ds :
  (forall v d, stores ct v d -> f v = Ok d) -> Forall2 (stores ct) l ds ->
  exists e, bind_array f l = Ok e /\ forall r, eval enums r e = Ok (DArray ds).
Proof.
  intros Hf Hl. unfold bind_array. rewrite (map_res_Forall2_intro f (stores ct) l ds) by done. by eexists.
Qed.

(** An array of texts that is cast. *)
Lemma cast_texts ct t (text : Value -> string) l ds r :
  (forall v d, stores ct v d -> cast_data enums t (DText (text v)) = Ok d) ->
  has_type (DText "") t = false ->
  Forall2 (stores ct) l ds ->
  eval enums r (ECast (EBind (DArray ((fun v => DText (text v)) <$> l))) (TArray t)) = Ok (DArray ds).
Proof.
  intros Hc Ht Hl. cbn [eval res_bind]. apply cast_array.
  - intros i d Hi. apply list_lookup_fmap_Some in Hi as (v & -> & _). by destruct t.
  - apply map_res_Forall2, Forall2_fmap_l. eapply Forall2_impl; [done|]. intros v d. apply Hc.
Qed.

Lemma bind_list ct l ds :
  (forall config, ct <> CTTSVector config) -> Forall2 (stores ct) l ds ->
  exists e, bind_value (VList l) ct = Ok e /\ forall r, eval enums r e = Ok (DArray ds).
Proof.
  intros Hts Hl. destruct ct; cbn [bind_value].
  - apply (bind_array_ok CTBoolean); [|done]. by inversion 1.
  - eexists. split; [done|]. intros r. apply (cast_texts CTBigDecimal); [|done..].
    inversion 1 as [| | | | | |? x Hx|]; subst. cbn. by rewrite Hx.
  - eexists. split; [done|]. intros r. apply (cast_texts CTBigInt); [|done..].
    inversion 1 as [| | | | |? x Hx| |]; subst. cbn. by rewrite Hx.
  - apply (bind_array_ok CTBytes); [|done]. by inversion 1.
  - apply (bind_array_ok CTInt); [|done]. by inversion 1.
  - apply (bind_array_ok CTString); [|done]. by inversion 1.
  - by destruct (Hts config).
  - set (text := fun v => match v with VString s => s | _ => "" end).
    assert (map_res sql_text l = Ok ((fun v => DText (text v)) <$> l)) as Hm.
    { apply map_res_all_ok. intros v (i & Hi)%list_elem_of_lookup.
      destruct (Forall2_lookup_l _ _ _ _ _ Hl Hi) as (d & _ & Hs). by inversion Hs. }
    unfold bind_array. rewrite Hm. eexists. split; [done|]. intros r. apply (cast_texts (CTEnum e)); [|done..].
    inversion 1 as [| | | | | | |? s labels He Hin]; subst. cbn. rewrite He. cbn. by rewrite bool_decide_true.
  - apply (bind_array_ok CTBytesId); [|done]. inversion 1; subst. cbn. by rewrite bytes_of_hex.
Qed.

(** Fulltext columns. *)
Lemma eval_vectors r e v es :
  eval enums r e = Ok (DTsVector v) ->
  Forall (fun e => exists v, eval enums r e = Ok (DTsVector v)) es ->
  exists v, eval enums r (foldl ETsConcat e es) = Ok (DTsVector v).
Proof.
  intros He Hes. revert e v He. induction Hes as [|a es [w Hw] _ IH]; intros e v He; [by exists v|].
  cbn [foldl]. eapply IH. cbn [eval]. rewrite He. cbn [res_bind]. by rewrite Hw.
Qed.

Lemma bind_tsvector config l :
  Forall (fun v => exists s, v = VString s) l ->
  exists e, bind_value (VList l) (CTTSVector config) = Ok e
    /\ forall r, exists x, eval enums r e = Ok (DTsVector x).
Proof.
  intros Hl. cbn [bind_value].
  set (vec := fun v => EToTsVector (EBind (DText (language_as_str (fc_language config))))
                         (EBind (DText (match v with VString s => s | _ => "" end)))).
  rewrite (map_res_all_ok _ vec).
  - cbn [res_bind]. destruct l as [|v l]; [eexists; split; [done|]; by eexists|]. cbn [fmap list_fmap].
    eexists. split; [done|]. intros r. eapply eval_vectors; [done|].
    apply Forall_fmap, Forall_true. intros w. by eexists.
  - intros v Hv. rewrite Forall_forall in Hl. destruct (Hl v Hv) as [s ->]. done.
Qed.

(** Every value a column stores is written as it says. *)
Lemma bind_column c v d :
  column_stores c v d ->
  exists e, bind_value v (col_type c) = Ok e
    /\ forall r, exists d', eval enums r e = Ok d' /\ column_stores c v d'
                        /\ (is_tsvector c = false -> d' = d).
Proof.
  intros Hs. destruct Hs as [|v d Hl Hs|l ds Hl Hts Hs|config l x Hl Ht Hf].
  - eexists. split; [done|]. intros r. eexists. split; [done|]. split; [constructor|done].
  - destruct (bind_scalar _ _ _ Hs) as (e & He & Hr). exists e. split; [done|]. intros r. exists d.
    split; [done|]. split; [by apply column_scalar|done].
  - destruct (bind_list (col_type c) l ds) as (e & He & Hr); [|done|].
    { intros config E. unfold is_tsvector in Hts. by rewrite E in Hts. }
    exists e. split; [done|]. intros r. exists (DArray ds). split; [done|]. split; [by apply column_list|done].
  - destruct (bind_tsvector config l Hf) as (e & He & Hr). rewrite Ht. exists e. split; [done|]. intros r.
    destruct (Hr r) as [y Hy]. exists (DTsVector y). split; [done|]. split; [by eapply column_tsvector|].
    unfold is_tsvector. by rewrite Ht.
Qed.

Lemma column_stores_type c v d : column_stores c v d -> has_type d (cd_type (column_ddl c)) = true.
Proof.
  intros [|w e Hl Hs|l ds Hl Hts Hs|config l x Hl Ht Hf]; cbn.
  - done.
  - rewrite Hl. by eapply stores_type.
  - rewrite Hl. cbn. apply List.forallb_forall. intros d' Hd%list_elem_of_In.
    apply list_elem_of_lookup in Hd as [i Hi]. destruct (Forall2_lookup_r _ _ _ _ _ Hs Hi) as (w & _ & Hw).
    by eapply stores_type.
  - by rewrite Hl, Ht.
Qed.

Lemma column_stores_null c v d : column_stores c v d -> is_null d = true <-> v = VNull.
Proof. destruct 1 as [|w e Hl Hs| |]; [done| |done|done]. apply stores_nonnull in Hs as [-> ?]. done. Qed.

(** ** Reading *)
Lemma trim_hex b : trim_start_hex ("\x" +:+ hex_encode b) = hex_encode b.
Proof.
  cbn. pose proof (hex_no_backslash b) as Hn. destruct (hex_encode b) as [|a r]; [done|].
  cbn. destruct (ascii_dec a "\") as [-> |Ha]; [by destruct (Hn r)|].
  destruct a as [[] [] [] [] [] [] [] []]; try done.
Qed.

Lemma stores_read ct v d :
  stores ct v d ->
  exists v', from_column_value (V := Value) normalize ct (to_jsonb d) = Ok v' /\ v' ≡ v.
Proof.
  destruct 1; cbn [to_jsonb from_column_value].
  - by eexists.
  - unfold from_json_number. rewrite integer_reads, bool_decide_true by done. by eexists.
  - by eexists.
  - unfold bytea_text. rewrite trim_hex. cbn. unfold Bytes_from_str. rewrite hex_no_prefix, hex_roundtrip.
    cbn. by eexists.
  - unfold bytea_text, bytes_as_str. rewrite trim_hex. by eexists.
  - cbn. rewrite (numeric_bigint n x) by done. cbn. by eexists.
  - cbn. destruct (numeric_decimal d x) as (d' & Hd & He); [done|]. unfold BigDecimal_from_str. rewrite Hd.
    cbn. eexists. split; [done|]. apply H0. done.
  - by eexists.
Qed.

Lemma list_read (f : Json -> sres Value) l ds :
  Forall2 (fun v d => exists v', f (to_jsonb d) = Ok v' /\ v' ≡ v) l ds ->
  exists l', map_res f (to_jsonb <$> ds) = Ok l' /\ Forall2 (≡) l' l.
Proof.
  induction 1 as [|v d l ds (v' & Hv & Ev) _ (l' & Hl & El)]; [by exists []|].
  exists (v' :: l'). rewrite fmap_cons, map_res_cons, Hv. cbn [res_bind]. rewrite Hl. split; [done|by constructor].
Qed.

Lemma column_read c v d :
  column_stores c v d -> is_tsvector c = false ->
  exists v', from_column_value (V := Value) normalize (col_type c) (to_jsonb d) = Ok v' /\ v' ≡ v.
Proof.
  intros [|w e Hl Hs|l ds Hl Hts Hs|config l x Hl Ht Hf] Hn.
  - by eexists.
  - by apply stores_read.
  - destruct (list_read (from_column_value normalize (col_type c)) l ds) as (l' & Hr & El).
    { eapply Forall2_impl; [done|]. intros w e. apply stores_read. }
    exists (VList l'). cbn [to_jsonb from_column_value]. rewrite Hr. split; [done|]. by apply Value_equiv_list.
  - unfold is_tsvector in Hn. by rewrite Ht in Hn.
Qed.
End values.
