(* ===== verification/Collation.v ===== *)
(** * Orders of values in the database

    How the database compares texts and numbers, as hypotheses: texts
    character by character, which is the collation [C], numbers by their value.
    For such a collation comparing prefixes first, as [PrefixComparison] does
    to make use of an index, is comparing the whole texts; and comparing what a
    column stores is comparing the values. *)

From stdpp Require Import prelude list strings gmap.
From Stdlib Require Import ZArith Lia Ascii.
From S2P Require Import Prelude.
From S2P Require Import StoreValue.
From S2P Require Import EntityCache.
From S2P Require Import StoreQuery.
From S2P Require Import GraphqlSchema.
From S2P Require Import QueryBuild.
From S2P Require Import Schema.
From S2P Require Import Sql.
From S2P Require Import Selects.
From S2P Require Import Layout.
From S2P Require Import RelationalQueries.
From S2P Require Import FilterQueries.
From S2P Require Import ColumnValues.

#[local] Open Scope string_scope.
#[local] Open Scope list_scope.

(** ** Lexicographic order *)
Fixpoint list_compare (l k : list Z) : comparison :=
  match l, k with
  | [], [] => Eq
  | [], _ => Lt
  | _, [] => Gt
  | a :: l, b :: k => match (a ?= b)%Z with Eq => list_compare l k | c => c end
  end.

Lemma list_compare_eq l k : list_compare l k = Eq <-> l = k.
Proof.
  revert k. induction l as [|a l IH]; intros [|b k]; try done. cbn.
  destruct (Z.compare_spec a b) as [->|Hab|Hab]; [rewrite IH; naive_solver|split; [done|intros [= ? ?]; lia]..].
Qed.

Lemma list_compare_opp l k : list_compare k l = CompOpp (list_compare l k).
Proof.
  revert k. induction l as [|a l IH]; intros [|b k]; try done. cbn.
  rewrite (Z.compare_antisym a b). destruct (a ?= b)%Z; [apply IH|done..].
Qed.

Lemma list_compare_trans l k m : list_compare l k = Lt -> list_compare k m = Lt -> list_compare l m = Lt.
Proof.
  revert k m. induction l as [|a l IH]; intros [|b k] [|c m]; try done. cbn.
  destruct (Z.compare_spec a b) as [->|Hab|Hab]; [|intros _|done].
  - destruct (Z.compare_spec b c); [apply IH|done..].
  - destruct (Z.compare_spec b c) as [->|Hbc|Hbc]; [intros _|intros _|done].
    + by rewrite (proj2 (Z.compare_lt_iff a c)).
    + by rewrite (proj2 (Z.compare_lt_iff a c)) by lia.
Qed.

(** A list that is longer than the other is cut without harm. *)
Lemma list_compare_take n l k : (length k < n)%nat -> list_compare (take n l) k = list_compare l k.
Proof.
  revert n k. induction l as [|a l IH]; intros [|n] k Hn; try (cbn in Hn; lia); [done|].
  destruct k as [|b k]; [done|]. cbn in *. destruct (a ?= b)%Z; [apply IH; lia|done..].
Qed.

(** Where the beginnings differ they decide. *)
Lemma list_compare_prefixes n l k :
  match list_compare (take n l) (take n k) with
  | Eq => take n l = take n k
  | c => list_compare l k = c
  end.
Proof.
  revert n k. induction l as [|a l IH]; intros [|n] [|b k]; try done.
  cbn. destruct (Z.compare_spec a b) as [->| |]; [|done..]. specialize (IH n k).
  destruct (list_compare (take n l) (take n k)); [by f_equal|done..].
Qed.

(** ** What is assumed of the database *)
Definition BigDecimal_compare (a b : BigDecimal) : comparison :=
  let s := Z.max (bd_scale a) (bd_scale b) in
  (bd_digits a * 10 ^ (s - bd_scale a) ?= bd_digits b * 10 ^ (s - bd_scale b))%Z.

Class CharacterCollation {ST : ScalarText} {PT : PgText} := {
  text_chars : string -> list Z;
  chars_inj s t : text_chars s = text_chars t -> s = t;
  chars_length s : (length (text_chars s) <= String.length s)%nat;
  chars_compare s t : text_compare s t = list_compare (text_chars s) (text_chars t);
  chars_left s n : text_chars (text_left s (Z.of_nat n)) = take n (text_chars s);
  bigint_compare n m x y :
    numeric_in (bigint_to_string n) = Some x -> numeric_in (bigint_to_string m) = Some y ->
    numeric_compare x y = (n ?= m)%Z;
  decimal_compare d e x y :
    numeric_in (bigdecimal_to_string d) = Some x -> numeric_in (bigdecimal_to_string e) = Some y ->
    numeric_compare x y = BigDecimal_compare d e;
}.

Section collation.
Context {ST : ScalarText} {STL : ScalarTextLaws} {PT : PgText} {PTL : PgTextLaws} {CC : CharacterCollation}.
Context `{HashOrder}.
Context (normalize : BigDecimal -> BigDecimal).
Context (enums : gmap string (gset string)).

Lemma text_compare_eq s t : text_compare s t = Eq <-> s = t.
Proof.
  rewrite chars_compare, list_compare_eq. split; [apply chars_inj|by intros ->].
Qed.

Lemma text_compare_opp s t : text_compare t s = CompOpp (text_compare s t).
Proof. rewrite !chars_compare. apply list_compare_opp. Qed.

Lemma text_compare_trans s t u : text_compare s t = Lt -> text_compare t u = Lt -> text_compare s u = Lt.
Proof. rewrite !chars_compare. apply list_compare_trans. Qed.

(** ** Comparing texts *)
Definition text_holds (op : CmpOp) (s t : string) : bool := cmp_holds op (text_compare s t).

Lemma compare_texts op s t : compare_data op (DText s) (DText t) = Ok (DBool (text_holds op s t)).
Proof.
  unfold text_holds. destruct op; try done; cbn; destruct (String.eqb_spec s t) as [E|E].
  - by rewrite (proj2 (text_compare_eq s t) E).
  - destruct (text_compare s t) eqn:Ec; [|done..]. by apply text_compare_eq in Ec.
  - by rewrite (proj2 (text_compare_eq s t) E).
  - destruct (text_compare s t) eqn:Ec; [|done..]. by apply text_compare_eq in Ec.
Qed.

(** The first characters. *)
Definition text_prefix (s : string) : string := text_left s STRING_PREFIX_SIZE.

Lemma prefix_chars s : text_chars (text_prefix s) = take 256 (text_chars s).
Proof. apply (chars_left s 256). Qed.

Lemma short_prefix s : (String.length s <= 255)%nat -> text_prefix s = s.
Proof.
  intros Hs. apply chars_inj. rewrite prefix_chars. apply take_ge. pose proof (chars_length s). lia.
Qed.

(** A short text is compared with prefixes. *)
Lemma short_text_compare s t :
  (String.length s <= 255)%nat -> text_compare (text_prefix t) (text_prefix s) = text_compare t s.
Proof.
  intros Hs. rewrite (short_prefix s) by done. rewrite !chars_compare, prefix_chars. apply list_compare_take.
  pose proof (chars_length s). lia.
Qed.

Lemma prefix_decides s t :
  match text_compare (text_prefix t) (text_prefix s) with
  | Eq => True
  | c => text_compare t s = c
  end.
Proof.
  rewrite !chars_compare, !prefix_chars. pose proof (list_compare_prefixes 256 (text_chars t) (text_chars s)) as Hp.
  by destruct (list_compare (take 256 _) _).
Qed.

Definition expr_op (op : Comparison) : CmpOp :=
  match op with
  | Less => CmpLt | LessOrEqual => CmpLe | Equal => CmpEq | NotEqual => CmpNe
  | GreaterOrEqual => CmpGe | Greater => CmpGt | Match => CmpEq
  end.

Lemma compare_expr_op op a b : op <> Match -> compare_expr op a b = ECmp (expr_op op) a b.
Proof. by destruct op. Qed.

Lemma eval_prefix_cmp c s t op r :
  op <> Match -> col_type c = CTString -> column_of r (col_name c) = DText t ->
  exists e, prefix_cmp c (VString s) op = Ok e
    /\ eval enums r e = Ok (DBool (text_holds (expr_op op) (text_prefix t) (text_prefix s))).
Proof.
  intros Hop Hc Hr. unfold prefix_cmp. rewrite Hc. cbn [bind_value res_bind]. eexists. split; [done|].
  rewrite compare_expr_op by done. unfold column_prefix, prefix_of. cbn [eval res_bind]. rewrite Hr.
  cbn [res_bind]. apply compare_texts.
Qed.

Lemma eval_full_cmp c s t op r :
  op <> Match -> col_type c = CTString -> column_of r (col_name c) = DText t ->
  exists e, full_cmp c (VString s) op = Ok e /\ eval enums r e = Ok (DBool (text_holds (expr_op op) t s)).
Proof.
  intros Hop Hc Hr. unfold full_cmp. rewrite Hc. cbn [bind_value res_bind]. eexists. split; [done|].
  rewrite compare_expr_op by done. cbn [eval res_bind]. rewrite Hr. cbn [res_bind]. apply compare_texts.
Qed.

(** Comparing prefixes first is comparing the texts. *)
Lemma eval_prefix_comparison op c s t r :
  op <> Match -> col_type c = CTString -> column_of r (col_name c) = DText t ->
  exists e, prefix_comparison op c (VString s) = Ok e
    /\ eval enums r e = Ok (DBool (text_holds (expr_op op) t s)).
Proof.
  intros Hop Hc Hr. unfold prefix_comparison.
  destruct (eval_full_cmp c s t op r Hop Hc Hr) as (f & Hf & Ef).
  destruct (Z.ltb_spec (STRING_PREFIX_SIZE - 1) (Z.of_nat (String.length s))) as [Hlarge|Hshort].
  2: { assert (exists e, prefix_cmp c (VString s) op = Ok e
         /\ eval enums r e = Ok (DBool (text_holds (expr_op op) t s))) as Hsmall; [|by destruct op].
       destruct (eval_prefix_cmp c s t op r Hop Hc Hr) as (p & Hp & Ep). exists p. split; [done|]. rewrite Ep.
       unfold text_holds. rewrite short_text_compare by (unfold STRING_PREFIX_SIZE in *; lia). done. }
  pose proof (prefix_decides s t) as Hd.
  assert (forall op, op <> Match -> exists e, prefix_cmp c (VString s) op = Ok e
            /\ eval enums r e = Ok (DBool (text_holds (expr_op op) (text_prefix t) (text_prefix s)))) as Hpre
    by (intros; by apply eval_prefix_cmp).
  destruct (Hpre Equal ltac:(done)) as (pe & Hpe & Epe).
  destruct (Hpre (prefix_op op) ltac:(by destruct op)) as (pp & Hpp & Epp).
  assert (forall o, text_holds o t s = cmp_holds o (text_compare t s)) as Hh by done.
  unfold text_holds in Epe, Epp, Ef.
  assert (t = s -> text_compare (text_prefix t) (text_prefix s) = Eq) as Heq.
  { intros ->. by apply text_compare_eq. }
  destruct op; try done; cbn [prefix_op] in *; rewrite ?Hpp, ?Hpe, ?Hf; cbn [res_bind];
    try (eexists; split; [done|]; exact Ef);
    (eexists; split; [done|]); cbn [eval]; rewrite ?Epe, ?Epp, ?Ef; cbn [res_bind]; rewrite Hh;
    destruct (text_compare (text_prefix t) (text_prefix s)) eqn:Ep; rewrite ?Hd; try done;
    destruct (text_compare t s) eqn:Ec; try done; apply text_compare_eq, Heq in Ec; congruence.
Qed.

(** A comparison with a column that is null is unknown. *)
Lemma prefix_comparison_null op c s r :
  op <> Match -> col_type c = CTString -> column_of r (col_name c) = DNull ->
  exists e, prefix_comparison op c (VString s) = Ok e /\ eval enums r e = Ok DNull.
Proof.
  intros Hop Hc Hr. unfold prefix_comparison, prefix_cmp, full_cmp. rewrite Hc.
  destruct (_ <? _)%Z; destruct op; try done; cbn [bind_value res_bind prefix_op compare_expr];
    (eexists; split; [done|]); unfold column_prefix, prefix_of; cbn [eval res_bind]; rewrite Hr; done.
Qed.

(** ** Comparing values *)
Lemma BigDecimal_compare_eq d e : cmp_holds CmpEq (BigDecimal_compare d e) = BigDecimal_eqb d e.
Proof.
  apply eq_true_iff_eq. rewrite (BigDecimal_eqb_common d e (Z.max (bd_scale d) (bd_scale e))) by lia.
  unfold BigDecimal_compare. rewrite <- Z.compare_eq_iff. by destruct (_ ?= _)%Z.
Qed.

Lemma hex_encode_inj b c : hex_encode b = hex_encode c -> b = c.
Proof. intros E. pose proof (hex_roundtrip b) as Hb. rewrite E, hex_roundtrip in Hb. by injection Hb. Qed.

Lemma equal_stored ct v w d d' :
  stores normalize enums ct v d -> stores normalize enums ct w d' -> equal_data d d' = Ok (Value_eqb v w).
Proof.
  intros Hv Hw. destruct Hv; inversion Hw; subst; cbn; try done.
  - f_equal. case_bool_decide as E; [subst; by rewrite String.eqb_refl|].
    symmetry. apply String.eqb_neq. by intros ?%hex_encode_inj.
  - erewrite bigint_compare by done. by destruct (Z.compare_spec n n0) as [->| |];
      rewrite ?Z.eqb_refl; [|rewrite (proj2 (Z.eqb_neq _ _)) by lia..].
  - erewrite decimal_compare by done. by rewrite <- BigDecimal_compare_eq.
  - by rewrite String.eqb_refl.
Qed.

Lemma equal_arrays ct l k ds ds' :
  Forall2 (stores normalize enums ct) l ds -> Forall2 (stores normalize enums ct) k ds' ->
  equal_data (DArray ds) (DArray ds') = Ok (Value_eqb (VList l) (VList k)).
Proof.
  intros Hl. revert k ds'. induction Hl as [|v d l ds Hv Hl IH]; intros k ds' Hk; destruct Hk as [|w d' k ds' Hw Hk];
    try done. specialize (IH k ds' Hk). cbn [equal_data Value_eqb] in *. rewrite (equal_stored ct v w d d') by done.
  cbn [res_bind]. by rewrite IH.
Qed.

Definition equality (negated : bool) (b : bool) : Datum := DBool (if negated then negb b else b).

Lemma compare_equal d d' b (negated : bool) :
  equal_data d d' = Ok b -> is_null d = false -> is_null d' = false ->
  compare_data (if negated then CmpNe else CmpEq) d d' = Ok (equality negated b).
Proof.
  intros He Hd Hd'. unfold equality. destruct d, d'; try done; pose proof He as He0; cbn [equal_data] in He0;
    try (injection He0 as <-); destruct negated; cbn [compare_data cmp_Z cmp_holds res_map]; try done;
    try (rewrite He; done); try (by destruct (numeric_compare _ _)).
Qed.

(** Equality of elements of arrays. *)
Lemma compare_elements ct v w d d' :
  stores normalize enums ct v d -> stores normalize enums ct w d' ->
  compare_data CmpEq d d' = Ok (DBool (Value_eqb v w)).
Proof.
  intros Hv Hw. apply (compare_equal d d' (Value_eqb v w) false); [by eapply equal_stored|..];
    by eapply stores_nonnull.
Qed.

(** Equality of what a column stores, where it is not null. *)
Lemma compare_column c v w d d' (negated : bool) :
  is_tsvector c = false -> column_stores normalize enums c v d -> column_stores normalize enums c w d' ->
  v <> VNull -> w <> VNull ->
  compare_data (if negated then CmpNe else CmpEq) d d' = Ok (equality negated (Value_eqb v w)).
Proof.
  intros Hts Hv Hw Hnv Hnw.
  assert (forall config, col_type c <> CTTSVector config) as Hn.
  { intros config E. unfold is_tsvector in Hts. by rewrite E in Hts. }
  apply compare_equal.
  - destruct Hv as [|v d Hl Hv|l ds Hl Ht Hv|config l x Hl Ht Hv],
      Hw as [|w d' Hl' Hw|k ds' Hl' Ht' Hw|config' k y Hl' Ht' Hw];
      try done; try congruence; try (exfalso; by eapply Hn).
    + by eapply equal_stored.
    + by eapply equal_arrays.
  - pose proof (column_stores_null normalize enums c v d Hv). destruct (is_null d); naive_solver.
  - pose proof (column_stores_null normalize enums c w d' Hw). destruct (is_null d'); naive_solver.
Qed.

(** The order of values that can be compared. *)
Definition value_compare (v w : Value) : option comparison :=
  match v, w with
  | VString s, VString t => Some (text_compare s t)
  | VInt a, VInt b => Some (a ?= b)%Z
  | VBigInt a, VBigInt b => Some (a ?= b)%Z
  | VBigDecimal a, VBigDecimal b => Some (BigDecimal_compare a b)
  | _, _ => None
  end.

Definition ordered_type (ct : ColumnType) : bool :=
  match ct with CTString | CTInt | CTBigInt | CTBigDecimal => true | _ => false end.

Lemma cmp_Z_holds op a b : cmp_Z op a b = cmp_holds op (a ?= b)%Z.
Proof.
  destruct (Z.compare_spec a b) as [->|Hab|Hab]; destruct op; cbn; apply eq_true_iff_eq;
    rewrite ?negb_true_iff, ?Z.eqb_eq, ?Z.eqb_neq, ?Z.leb_le, ?Z.ltb_lt; lia.
Qed.

Lemma compare_stored ct v w d d' :
  ordered_type ct = true -> stores normalize enums ct v d -> stores normalize enums ct w d' ->
  exists o, value_compare v w = Some o /\ order_data d d' = Ok o
    /\ forall op, compare_data op d d' = Ok (DBool (cmp_holds op o)).
Proof.
  intros Ho Hv Hw. destruct Hv; try done; inversion Hw; subst; (eexists; split; [done|]); (split; [|intros op]).
  - done.
  - apply compare_texts.
  - done.
  - cbn. by rewrite cmp_Z_holds.
  - cbn. by erewrite bigint_compare.
  - cbn. by erewrite bigint_compare.
  - cbn. by erewrite decimal_compare.
  - cbn. by erewrite decimal_compare.
Qed.
End collation.
