(* ===== verification/Patterns.v ===== *)
(** * Patterns

    What it means for a text to start with, end with or contain a pattern of
    [like]: a prefix, a suffix or a part of it matches.  Proved here is that the
    patterns with percent signs around that [FilterQueries] makes match exactly
    these texts. *)

From stdpp Require Import prelude list strings.
From Stdlib Require Import Lia Ascii.
From S2P Require Import Prelude.
From S2P Require Import Sql.
From S2P Require Import FilterQueries.

#[local] Open Scope string_scope.
#[local] Open Scope list_scope.

(** ** Parts of texts *)
Fixpoint suffixes (s : string) : list string :=
  s :: match s with String _ s' => suffixes s' | EmptyString => [] end.

Fixpoint prefixes (s : string) : list string :=
  EmptyString :: match s with String c s' => String c <$> prefixes s' | EmptyString => [] end.

Definition text_starts (p t : string) : bool := existsb (like p) (prefixes t).
Definition text_ends (p t : string) : bool := existsb (like p) (suffixes t).
Definition text_has (p t : string) : bool := existsb (text_starts p) (suffixes t).

(** The pattern begins or ends with a percent sign. *)
Definition outer_percent (p : string) : bool :=
  String.prefix "%" p || existsb (String.eqb "%") (suffixes p).

Definition text_contains (p t : string) : bool := if outer_percent p then like p t else text_has p t.

#[local] Lemma string_app_cons c s t : String c s +:+ t = String c (s +:+ t).
Proof. done. Qed.

#[local] Lemma string_app_assoc (s t u : string) : (s +:+ t) +:+ u = s +:+ t +:+ u.
Proof. induction s as [|c s IH]; [done|]. by rewrite !string_app_cons, IH. Qed.

#[local] Lemma string_app_nil_r (s : string) : s +:+ "" = s.
Proof. induction s as [|c s IH]; [done|]. by rewrite string_app_cons, IH. Qed.

(** ** Percent signs in front *)
Lemma any_suffix_parts f s : any_suffix f s = existsb f (suffixes s).
Proof. induction s as [|c s IH]; cbn; [done|]. by rewrite IH. Qed.

Lemma like_any_then p t : like ("%" +:+ p) t = text_ends p t.
Proof. apply any_suffix_parts. Qed.

Lemma existsb_prefixes f s :
  existsb f (prefixes s) = true <-> exists y z, s = y +:+ z /\ f y = true.
Proof.
  revert f. induction s as [|c s IH]; intros f; cbn [prefixes existsb].
  - rewrite orb_false_r. split; [intros Hx; by exists "", ""|]. intros (y & z & E & Hy). by destruct y.
  - rewrite orb_true_iff.
    assert (existsb f (String c <$> prefixes s) = existsb (fun y => f (String c y)) (prefixes s)) as ->.
    { clear. induction (prefixes s) as [|y l IHl]; [done|]. rewrite fmap_cons. cbn [existsb]. by rewrite IHl. }
    rewrite IH. split.
    + intros [Hx|(y & z & -> & Hx)]; [by exists "", (String c s)|by exists (String c y), z].
    + intros (y & z & E & Hy). destruct y as [|d y]; [by left|]. right. injection E as -> ->. by exists y, z.
Qed.

Lemma existsb_suffixes f s :
  existsb f (suffixes s) = true <-> exists y z, s = y +:+ z /\ f z = true.
Proof.
  induction s as [|c s IH]; cbn [suffixes existsb]; rewrite orb_true_iff.
  - split; [intros [Hx|]; [by exists "", ""|done]|]. intros (y & z & E & Hz). left. by destruct y, z.
  - rewrite IH. split.
    + intros [Hx|(y & z & -> & Hz)]; [by exists "", (String c s)|by exists (String c y), z].
    + intros (y & z & E & Hz). destruct y as [|d y]; [left; cbn in E; by rewrite E|].
      right. injection E as -> ->. by exists y, z.
Qed.

(** ** Percent signs behind *)
Lemma skip_app s z :
  skip_continuation (s +:+ z)
  = if String.eqb (skip_continuation s) "" then skip_continuation z else skip_continuation s +:+ z.
Proof.
  induction s as [|c s IH]; [done|]. rewrite string_app_cons. cbn [skip_continuation].
  by destruct (continues c).
Qed.

(** Skipping leaves a suffix; what is skipped is also skipped before a prefix of it. *)
Lemma skip_split s y z :
  skip_continuation s = y +:+ z -> exists x, s = x +:+ z /\ skip_continuation x = y.
Proof.
  induction s as [|c s IH]; cbn; intros E.
  - destruct y; [|done]. exists "". by destruct z.
  - destruct (continues c) eqn:Ec.
    + destruct (IH E) as (x & -> & Hx). exists (String c x). cbn. by rewrite Ec.
    + destruct y as [|d y]; cbn in E.
      * exists "". by rewrite <- E.
      * injection E as -> ->. exists (String d y). cbn. by rewrite Ec.
Qed.

(** A pattern followed by a percent sign matches what starts with the pattern. *)
Lemma like_then_any_iff p t :
  pattern_ok p = true -> like (p +:+ "%") t = true <-> exists y z, t = y +:+ z /\ like p y = true.
Proof.
  revert t. induction p as [p IH] using (induction_ltof1 _ String.length). intros t Hp. unfold ltof in IH.
  destruct p as [|c p]; cbn [pattern_ok] in Hp.
  { change ("" +:+ "%") with "%". cbn [like Ascii.eqb Bool.eqb].
    rewrite any_suffix_parts, existsb_suffixes. split; intros _; [by exists "", t|].
    exists t, "". by rewrite string_app_nil_r. }
  rewrite string_app_cons. cbn [like]. destruct (Ascii.eqb c "%") eqn:E1; [|destruct (Ascii.eqb c "_") eqn:E2].
  - assert (Ascii.eqb c "\" = false) as E by (by apply Ascii.eqb_eq in E1 as ->). rewrite E in Hp.
    rewrite any_suffix_parts, existsb_suffixes. split.
    + intros (x & u & -> & Hu). apply IH in Hu as (y & z & -> & Hy); [|cbn; lia|done].
      exists (x +:+ y), z. rewrite string_app_assoc, any_suffix_parts, existsb_suffixes. eauto.
    + intros (y & z & -> & Hy). rewrite any_suffix_parts, existsb_suffixes in Hy.
      destruct Hy as (x & u & -> & Hu). exists x, (u +:+ z). rewrite string_app_assoc. split; [done|].
      apply IH; [cbn; lia|done|]. by exists u, z.
  - assert (Ascii.eqb c "\" = false) as E by (by apply Ascii.eqb_eq in E2 as ->). rewrite E in Hp.
    destruct t as [|d t]; [split; [done|intros (y & z & Ht & Hy); by destruct y]|].
    rewrite IH by (done || cbn; lia). split.
    + intros (y & z & (x & -> & <-)%skip_split & Hy). by exists (String d x), z.
    + intros (y & z & Ht & Hy). destruct y as [|d' y]; [done|]. injection Ht as <- ->. rewrite skip_app.
      destruct (String.eqb_spec (skip_continuation y) "") as [Es|_]; [|by exists (skip_continuation y), z].
      exists "", (skip_continuation z). split; [done|]. by rewrite <- Es.
  - destruct (Ascii.eqb c "\") eqn:E3.
    + destruct p as [|d p]; [done|]. rewrite string_app_cons.
      destruct t as [|x t]; [split; [done|intros (y & z & Ht & Hy); by destruct y]|].
      rewrite andb_true_iff, IH by (done || cbn; lia). split.
      * intros (Hd & y & z & -> & Hy). exists (String x y), z. by rewrite Hd.
      * intros (y & z & Ht & Hy). destruct y as [|x' y]; [done|]. injection Ht as <- ->.
        apply andb_true_iff in Hy as [? ?]. eauto.
    + destruct t as [|x t]; [split; [done|intros (y & z & Ht & Hy); by destruct y]|].
      rewrite andb_true_iff, IH by (done || cbn; lia). split.
      * intros (Hd & y & z & -> & Hy). exists (String x y), z. by rewrite Hd.
      * intros (y & z & Ht & Hy). destruct y as [|x' y]; [done|]. injection Ht as <- ->.
        apply andb_true_iff in Hy as [? ?]. eauto.
Qed.

Lemma like_then_any p t : pattern_ok p = true -> like (p +:+ "%") t = text_starts p t.
Proof.
  intros Hp. apply eq_true_iff_eq. rewrite like_then_any_iff by done. symmetry. apply existsb_prefixes.
Qed.

Lemma pattern_ok_app p : pattern_ok p = true -> pattern_ok (p +:+ "%") = true.
Proof.
  induction p as [p IH] using (induction_ltof1 _ String.length). unfold ltof in IH. intros Hp.
  destruct p as [|c p]; [done|]. rewrite string_app_cons. cbn [pattern_ok] in Hp |- *.
  destruct (Ascii.eqb c "\"); [|apply IH; [cbn; lia|done]].
  destruct p as [|d p]; [done|]. rewrite string_app_cons. apply IH; [cbn; lia|done].
Qed.

(** ** The pattern of [contains] *)
Lemma outer_percent_spec p : outer_percent p = starts_with_percent p || ends_with_percent p.
Proof.
  unfold outer_percent. f_equal.
  - destruct p as [|c p]; [done|]. cbn [String.prefix starts_with_percent].
    destruct (ascii_dec "%" c) as [<-|Hne]; [by destruct p|]. symmetry. apply Ascii.eqb_neq. congruence.
  - induction p as [|c p IH]; [done|]. cbn [suffixes existsb]. rewrite IH. clear IH.
    cbn [String.eqb]. rewrite (Ascii.eqb_sym "%" c).
    destruct p as [|d p]; cbn [ends_with_percent]; by destruct (Ascii.eqb c "%").
Qed.

Lemma contains_pattern_matches p t :
  pattern_ok p = true -> like (contains_pattern p) t = text_contains p t.
Proof.
  intros Hp. unfold contains_pattern, text_contains. rewrite <- outer_percent_spec.
  destruct (outer_percent p); [done|]. rewrite like_any_then. unfold text_ends, text_has.
  induction (suffixes t) as [|s l IH]; cbn [existsb]; [done|]. by rewrite IH, like_then_any.
Qed.

Lemma contains_pattern_ok p : pattern_ok p = true -> pattern_ok (contains_pattern p) = true.
Proof. intros Hp. unfold contains_pattern. destruct (_ || _); [done|]. by apply pattern_ok_app. Qed.
