(* ===== verification/FilterMeaning.v ===== *)
(** * What filters select

    The meaning of the filters of a query on entities, and that the conditions
    [QueryFilter] makes of them select exactly the rows of the entities that
    satisfy them.  As in SQL an attribute that is null satisfies no comparison,
    whether negated or not, but only [Equal] with null.

    Left out are the filters whose conditions mean something else than their
    names say, which are at the end.  The texts of filters are patterns of
    [like], in which percent signs and underscores are wildcards: a text
    contains, starts or ends with a pattern if a part, a prefix or a suffix of it
    matches.  A pattern to be contained that begins or ends with a percent sign
    is the whole pattern. *)

From stdpp Require Import prelude list strings gmap.
From Stdlib Require Import ZArith Lia Ascii.
From S2P Require Import Prelude.
From S2P Require Import StoreValue.
From S2P Require Import EntityCache.
From S2P Require Import StoreQuery.
From S2P Require Import GraphqlSchema.
From S2P Require Import QueryBuild.
From S2P Require Import Schema.
From S2P Require Import Sql.
From S2P Require Import Selects.
From S2P Require Import Layout.
From S2P Require Import RelationalQueries.
From S2P Require Import FilterQueries.
From S2P Require Import ColumnValues.
From S2P Require Import Collation.
From S2P Require Import Patterns.

#[local] Open Scope string_scope.
#[local] Open Scope list_scope.

Section meaning.
Context {ST : ScalarText} {STL : ScalarTextLaws} {PT : PgText} {PTL : PgTextLaws} {CC : CharacterCollation}.
Context `{HashOrder}.
Context (normalize : BigDecimal -> BigDecimal).
Context (enums : gmap string (gset string)).

(** ** Filters on entities *)
Definition attribute (e : Entity) (a : string) : Value := default VNull (e !! a).

Definition compares (op : CmpOp) (v w : Value) : bool :=
  match value_compare v w with Some o => cmp_holds op o | None => false end.

Definition occurs (b c : list Byte.byte) : bool := (0 <? position b c)%Z.

Definition matches (f : string -> bool) (negated : bool) (v : Value) : bool :=
  match v with
  | VString s => if negated then negb (f s) else f s
  | _ => false
  end.

Definition contains_value (negated : bool) (v w : Value) : bool :=
  match v, w with
  | _, VString s => matches (text_contains s) negated v
  | VBytes c, VBytes b => if negated then negb (occurs b c) else occurs b c
  | VList l, VList k => forallb (fun x => existsb (fun y => Value_eqb y x) l) k
  | _, _ => false
  end.

Definition atom (f : EntityFilter) (e : Entity) : bool :=
  match f with
  | FEqual a v => Value_eqb (attribute e a) v
  | FNot a v => negb (is_null_value (attribute e a)) && negb (Value_eqb (attribute e a) v)
  | FGreaterThan a v => compares CmpGt (attribute e a) v
  | FLessThan a v => compares CmpLt (attribute e a) v
  | FGreaterOrEqual a v => compares CmpGe (attribute e a) v
  | FLessOrEqual a v => compares CmpLe (attribute e a) v
  | FIn a vs => existsb (Value_eqb (attribute e a)) vs
  | FNotIn a vs =>
      negb (is_null_value (attribute e a)) && negb (existsb (Value_eqb (attribute e a)) vs)
  | FContains a v => contains_value false (attribute e a) v
  | FNotContains a v => contains_value true (attribute e a) v
  | FStartsWith a (VString s) => matches (text_starts s) false (attribute e a)
  | FNotStartsWith a (VString s) => matches (text_starts s) true (attribute e a)
  | FEndsWith a (VString s) => matches (text_ends s) false (attribute e a)
  | FNotEndsWith a (VString s) => matches (text_ends s) true (attribute e a)
  | _ => false
  end.

(** ** Filters that fit a table *)

(** A column that is not for fulltext search, and a text if its field is a
    string. *)
Record plain_column (t : Table) (a : string) (c : Column) : Prop := mk_plain_column {
  pc_field : column_for_field t a = Ok c;
  pc_tsvector : is_tsvector c = false;
  pc_fulltext : is_fulltext c = false;
  pc_text : is_text c = true -> col_type c = CTString;
}.

Definition fits (c : Column) (v : Value) : Prop := exists d, column_stores normalize enums c v d.

Definition text_column (c : Column) : Prop := col_is_list c = false /\ col_type c = CTString.

Definition contains_fits (c : Column) (v : Value) : Prop :=
  match v with
  | VString s => text_column c /\ pattern_ok s = true
  | VBytes _ => col_is_list c = false /\ col_type c = CTBytes
  | VList _ => fits c v
  | _ => False
  end.

Definition pattern_fits (c : Column) (v : Value) : Prop :=
  text_column c /\ exists s, v = VString s /\ pattern_ok s = true.

Definition fits_column (f : EntityFilter) (c : Column) : Prop :=
  match f with
  | FAnd _ | FOr _ => False
  | FEqual _ v | FNot _ v => fits c v
  | FGreaterThan _ v | FLessThan _ v | FGreaterOrEqual _ v | FLessOrEqual _ v =>
      col_is_list c = false /\ ordered_type (col_type c) = true /\ fits c v /\ v <> VNull
  | FIn _ vs => Forall (fits c) vs
  | FNotIn _ vs => Forall (fits c) vs /\ vs <> [] /\ (Forall (eq VNull) vs \/ Forall (fun v => v <> VNull) vs)
  | FContains _ v => contains_fits c v
  | FNotContains _ v => contains_fits c v /\ forall l, v <> VList l
  | FStartsWith _ v | FNotStartsWith _ v | FEndsWith _ v | FNotEndsWith _ v => pattern_fits c v
  end.

Definition filter_attribute (f : EntityFilter) : string :=
  match f with
  | FAnd _ | FOr _ => ""
  | FContains a _ | FNotContains a _ | FEqual a _ | FNot a _ | FGreaterThan a _ | FLessThan a _
  | FGreaterOrEqual a _ | FLessOrEqual a _ | FIn a _ | FNotIn a _ | FStartsWith a _ | FNotStartsWith a _
  | FEndsWith a _ | FNotEndsWith a _ => a
  end.

Definition atom_fits (t : Table) (f : EntityFilter) : Prop :=
  exists c, plain_column t (filter_attribute f) c /\ fits_column f c.

Fixpoint filter_fits (t : Table) (f : EntityFilter) : Prop :=
  match f with
  | FAnd fs | FOr fs =>
      (fix go fs := match fs with [] => True | f :: fs => filter_fits t f /\ go fs end) fs
  | f => atom_fits t f
  end.

(** ** Rows that hold an entity *)
Definition row_holds (t : Table) (e : Entity) (r : Row) : Prop :=
  forall c, c ∈ tb_columns t -> is_tsvector c = false ->
    column_stores normalize enums c (attribute e (col_field c)) (column_of r (col_name c)).

(** ** Truth of conditions *)
Definition truth (d : Datum) (b : bool) : Prop := d = DBool b \/ (d = DNull /\ b = false).

(** The condition is defined on the row and says what it should. *)
Definition condition (r : Row) (e : SqlExpr) (b : bool) : Prop :=
  exists d, eval enums r e = Ok d /\ truth d b.

Lemma condition_selects r e b : condition r e b -> selects_row enums e r = Ok b.
Proof. intros (d & Hd & [-> |[-> ->]]); unfold selects_row; by rewrite Hd. Qed.

Lemma condition_and r e1 e2 b1 b2 :
  condition r e1 b1 -> condition r e2 b2 -> condition r (EAnd e1 e2) (b1 && b2).
Proof.
  intros (d1 & E1 & H1) (d2 & E2 & H2). unfold condition. cbn [eval]. rewrite E1. cbn [res_bind]. rewrite E2.
  destruct H1 as [-> |[-> ->]], H2 as [-> |[-> ->]]; try destruct b1; try destruct b2; cbn;
    eexists; (split; [done|]); unfold truth; auto.
Qed.

Lemma condition_or r e1 e2 b1 b2 :
  condition r e1 b1 -> condition r e2 b2 -> condition r (EOr e1 e2) (b1 || b2).
Proof.
  intros (d1 & E1 & H1) (d2 & E2 & H2). unfold condition. cbn [eval]. rewrite E1. cbn [res_bind]. rewrite E2.
  destruct H1 as [-> |[-> ->]], H2 as [-> |[-> ->]]; try destruct b1; try destruct b2; cbn;
    eexists; (split; [done|]); unfold truth; auto.
Qed.

Lemma condition_bool r e b : eval enums r e = Ok (DBool b) -> condition r e b.
Proof. intros E. exists (DBool b). split; [done|by left]. Qed.

Lemma condition_null r e : eval enums r e = Ok DNull -> condition r e false.
Proof. intros E. exists DNull. split; [done|by right]. Qed.

Lemma condition_fold (op : SqlExpr -> SqlExpr -> SqlExpr) (f : bool -> bool -> bool) r es bs e b :
  (forall e1 e2 b1 b2, condition r e1 b1 -> condition r e2 b2 -> condition r (op e1 e2) (f b1 b2)) ->
  Forall2 (condition r) es bs -> condition r e b -> condition r (foldl op e es) (foldl f b bs).
Proof. intros Hop Hf. revert e b. induction Hf as [|e1 b1 es bs H1 _ IH]; intros e b He; [done|]. cbn. apply IH. by apply Hop. Qed.

(** ** Each kind of filter *)
Section atoms.
Context (t : Table) (a : string) (c : Column) (r : Row) (w : Value).
Hypothesis Hc : plain_column t a c.
(** The value of the attribute. *)
Hypothesis Hw : column_stores normalize enums c w (column_of r (col_name c)).

Lemma plain_filter_column : filter_column t a = Ok c.
Proof using Hc. unfold filter_column. by rewrite (pc_field _ _ _ Hc). Qed.

Lemma null_attribute : w = VNull -> column_of r (col_name c) = DNull.
Proof using Hw.
  intros E. pose proof (proj2 (column_stores_null normalize enums c _ _ Hw) E) as Hn.
  by destruct (column_of r (col_name c)).
Qed.

Lemma null_column : is_null (column_of r (col_name c)) = is_null_value w.
Proof using Hw.
  pose proof (column_stores_null normalize enums c _ _ Hw) as Hn.
  destruct (is_null (column_of r (col_name c))); [by rewrite (proj1 Hn)|]. destruct w; try done.
  by discriminate (proj2 Hn).
Qed.

Lemma text_attribute : text_column c -> w = VNull \/ exists s, w = VString s /\ column_of r (col_name c) = DText s.
Proof using Hw.
  intros [Hl Ht]. inversion Hw as [|v d Hl' Hs|l ds Hl' _ _|config l x Hl' Ht' _]; subst; try congruence; [by left|].
  right. rewrite Ht in Hs. inversion Hs; subst. eauto.
Qed.

(** Whether it is null. *)
Lemma is_null_condition (negated : bool) :
  condition r (negate_if negated (EIsNull (EColumn (col_name c))))
    (if negated then negb (is_null_value w) else is_null_value w).
Proof using Hw.
  apply condition_bool. destruct negated; cbn [negate_if eval res_bind]; by rewrite null_column.
Qed.

(** A condition on the column that is unknown where it is null. *)
Lemma condition_not_null e b :
  (column_of r (col_name c) = DNull -> eval enums r e = Ok DNull) ->
  (w <> VNull -> eval enums r e = Ok (DBool b)) ->
  condition r e (negb (is_null_value w) && b).
Proof using Hw.
  intros Hn Hb. destruct (is_null_value w) eqn:E; cbn.
  - apply condition_null, Hn, null_attribute. by destruct w.
  - apply condition_bool, Hb. by intros ->.
Qed.

Lemma string_is_text v : fits c v -> (exists s, v = VString s) -> is_text c = true -> text_column c.
Proof using Hc.
  intros [d Hd] [s ->] Ht. split; [|by apply (pc_text _ _ _ Hc)].
  unfold is_text in Ht. apply andb_true_iff in Ht as [_ Ht]. by apply negb_true_iff.
Qed.

(** Comparing texts. *)
Lemma text_condition op s :
  op <> Match -> text_column c ->
  exists e, prefix_comparison op c (VString s) = Ok e
    /\ condition r e (match w with VString x => text_holds (expr_op op) x s | _ => false end).
Proof using Hw CC.
  intros Hop Ht. destruct (text_attribute Ht) as [Ew|(x & Ew & Hx)]; rewrite Ew.
  - destruct (prefix_comparison_null enums op c s r) as (e & He & Ee); [done|apply Ht|by apply null_attribute|].
    exists e. split; [done|]. by apply condition_null.
  - destruct (eval_prefix_comparison enums op c s x r) as (e & He & Ee); [done|apply Ht|done|].
    exists e. split; [done|]. by apply condition_bool.
Qed.

(** Equality and inequality. *)
Lemma equality_condition v (negated : bool) :
  fits c v ->
  exists e, equals_filter t a v (if negated then NotEqual else Equal) = Ok e
    /\ condition r e (if negated then negb (is_null_value w) && negb (Value_eqb w v) else Value_eqb w v).
Proof using Hc Hw CC STL PTL.
  intros Hv. unfold equals_filter. rewrite plain_filter_column. cbn [res_bind].
  rewrite (pc_fulltext _ _ _ Hc). destruct (is_text c && _) eqn:Etext.
  - apply andb_true_iff in Etext as [Ht Hs]. destruct v as [s| | | | | | |]; try done.
    assert (text_column c) as Htc by (by apply (string_is_text (VString s)); [|by eexists|]).
    destruct (text_condition (if negated then NotEqual else Equal) s) as (e & He & Ee); [by destruct negated|done|].
    exists e. split; [done|]. destruct (text_attribute Htc) as [Ew|(x & Ew & _)]; rewrite Ew in *;
      [by destruct negated|]. unfold text_holds in Ee. cbn [is_null_value negb andb Value_eqb].
    destruct (String.eqb_spec x s) as [-> |E]; [|assert (text_compare x s <> Eq) by (by rewrite text_compare_eq)].
    + rewrite (proj2 (text_compare_eq s s) eq_refl) in Ee. by destruct negated.
    + destruct negated; cbn [expr_op] in Ee; by destruct (text_compare x s).
  - destruct (is_null_value v) eqn:En.
    + destruct v; try done. destruct negated.
      * eexists. split; [done|]. pose proof (is_null_condition true) as Hn. by destruct w.
      * eexists. split; [done|]. pose proof (is_null_condition false) as Hn. by destruct w.
    + destruct Hv as [d Hd]. destruct (bind_column normalize enums c v d Hd) as (e & He & Hev).
      destruct (Hev r) as (d' & Hed & Hd' & _).
      assert (condition r (compare_expr (if negated then NotEqual else Equal) (EColumn (col_name c)) e)
        (negb (is_null_value w) && (if negated then negb (Value_eqb w v) else Value_eqb w v))) as Hcond.
      { rewrite compare_expr_op by (by destruct negated). apply condition_not_null; intros Hx; cbn [eval res_bind];
          rewrite Hed; cbn [res_bind]; [by rewrite Hx|].
        pose proof (compare_column normalize enums c w v _ d' negated (pc_tsvector _ _ _ Hc) Hw Hd' Hx) as Hcmp.
        destruct negated; apply Hcmp; by intros ->. }
      exists (compare_expr (if negated then NotEqual else Equal) (EColumn (col_name c)) e).
      split; [destruct v; try done; by rewrite He|]. destruct negated; [done|].
      destruct (is_null_value w) eqn:Enw; [|done]. destruct w; try done. by destruct v.
Qed.

Lemma ordered_stores v d :
  col_is_list c = false -> ordered_type (col_type c) = true -> column_stores normalize enums c v d -> v <> VNull ->
  stores normalize enums (col_type c) v d.
Proof.
  intros Hl Ho Hs Hn. destruct Hs as [|v d _ Hs|l ds Hl' _ _|config l x _ Ht _]; try congruence.
  by rewrite Ht in Ho.
Qed.

(** Orders. *)
Lemma order_condition v op :
  op = Less \/ op = LessOrEqual \/ op = GreaterOrEqual \/ op = Greater ->
  col_is_list c = false -> ordered_type (col_type c) = true -> fits c v -> v <> VNull ->
  exists e, compare_filter t a v op = Ok e /\ condition r e (compares (expr_op op) w v).
Proof using Hc Hw CC STL PTL.
  intros Hop Hl Ho [d Hd] Hn. unfold compare_filter. rewrite plain_filter_column. cbn [res_bind].
  assert (op <> Match) as Hm by naive_solver.
  destruct (is_text c && _) eqn:Etext.
  - apply andb_true_iff in Etext as [Ht Hs]. destruct v as [s| | | | | | |]; try done.
    assert (text_column c) as Htc by (split; [done|by apply (pc_text _ _ _ Hc)]).
    destruct (text_condition op s Hm Htc) as (e & He & Ee). exists e. split; [done|].
    destruct (text_attribute Htc) as [Ew|(x & Ew & _)]; by rewrite Ew in *.
  - destruct (bind_column normalize enums c v d Hd) as (e & He & Hev).
    destruct (Hev r) as (d' & Hed & Hd' & _).
    exists (compare_expr op (EColumn (col_name c)) e). rewrite compare_expr_op by done. split.
    { pose proof (ordered_stores v d Hl Ho Hd Hn) as Hs. rewrite He. cbn [res_bind].
      rewrite <- (compare_expr_op op) by done. by destruct Hs. }
    assert (compares (expr_op op) w v = negb (is_null_value w) && compares (expr_op op) w v) as -> by (by destruct w).
    apply condition_not_null; intros Hx; cbn [eval res_bind]; rewrite Hed; cbn [res_bind].
    { rewrite Hx. by destruct d'. }
    destruct (compare_stored normalize enums (col_type c) w v (column_of r (col_name c)) d') as (o & Hv & _ & Hcmp);
      [done|by apply ordered_stores..|].
    unfold compares. rewrite Hv. apply Hcmp.
Qed.
(** *** Lists of values *)
Lemma negate_condition e b (negated : bool) :
  (column_of r (col_name c) = DNull -> eval enums r e = Ok DNull) ->
  (w <> VNull -> eval enums r e = Ok (DBool b)) ->
  condition r (negate_if negated e) (negb (is_null_value w) && (if negated then negb b else b)).
Proof using Hw.
  intros Hn Hb. apply condition_not_null; intros Hx; destruct negated; cbn [negate_if eval];
    rewrite ?Hn, ?Hb by done; done.
Qed.

Lemma map_compare_null ds : map_res (compare_data CmpEq DNull) ds = Ok ((fun _ => DNull) <$> ds).
Proof. by apply map_res_all_ok. Qed.

Lemma any_nulls (ds : list Datum) : ds <> [] -> any_data ((fun _ => DNull) <$> ds) = DNull.
Proof.
  intros Hds. unfold any_data. assert (existsb (fun d => match d with DBool true => true | _ => false end)
    ((fun _ : Datum => DNull) <$> ds) = false) as -> by (by induction ds as [|d [|] IH]; [| |apply IH]).
  by destruct ds.
Qed.

Lemma any_bools (bs : list bool) : any_data (DBool <$> bs) = DBool (existsb id bs).
Proof.
  unfold any_data. assert (existsb is_null (DBool <$> bs) = false) as -> by (by induction bs).
  assert (existsb (fun d => match d with DBool true => true | _ => false end) (DBool <$> bs) = existsb id bs)
    as -> by (induction bs as [|[] bs IH]; by cbn in *). by destruct (existsb id bs).
Qed.

Lemma eval_in (d : Datum) e es ds :
  eval enums r e = Ok d -> Forall2 (fun e d => eval enums r e = Ok d) es ds -> es <> [] ->
  eval enums r (EIn e es) = res_map any_data (map_res (compare_data CmpEq d) ds).
Proof.
  intros He Hes Hn. cbn [eval]. rewrite He. cbn [res_bind].
  assert ((fix go l := match l with
             | [] => Ok []
             | e :: l => let? d := eval enums r e in let? ds := go l in Ok (d :: ds)
             end) es = Ok ds) as ->.
  { clear Hn. induction Hes as [|e1 d1 es ds H1 _ IH]; [done|]. rewrite H1. cbn [res_bind]. by rewrite IH. }
  cbn [res_bind]. destruct Hes; [done|]. done.
Qed.

(** The values that are not null, as they are bound. *)
Lemma bind_values vs :
  Forall (fits c) vs ->
  exists es ds, map_res (fun v => bind_value v (col_type c)) vs = Ok es
    /\ Forall2 (fun e d => eval enums r e = Ok d) es ds /\ Forall2 (column_stores normalize enums c) vs ds.
Proof using STL PTL.
  induction 1 as [|v vs [d Hd] _ (es & ds & Hes & Hev & Hds)]; [by exists [], []|].
  destruct (bind_column normalize enums c v d Hd) as (e & He & Hr). destruct (Hr r) as (d' & Hed & Hd' & _).
  exists (e :: es), (d' :: ds). rewrite map_res_cons, He. cbn [res_bind]. rewrite Hes.
  split; [done|]. by split; constructor.
Qed.

Lemma compare_list (vs : list Value) ds d :
  Forall2 (fun v x => compare_data CmpEq d x = Ok (DBool (Value_eqb w v))) vs ds ->
  res_map any_data (map_res (compare_data CmpEq d) ds) = Ok (DBool (existsb (Value_eqb w) vs)).
Proof using.
  intros Hvs. assert (map_res (compare_data CmpEq d) ds = Ok (DBool <$> (Value_eqb w <$> vs))) as ->.
  { induction Hvs as [|v x vs ds Hv _ IH]; [done|]. rewrite map_res_cons, Hv. cbn [res_bind]. by rewrite IH. }
  unfold res_map. cbn [res_bind]. rewrite any_bools. do 2 f_equal. clear Hvs. by induction vs as [|v vs IH]; [|cbn; rewrite IH].
Qed.
(** Short texts are looked up by prefix. *)
Definition in_column (prefix : bool) : SqlExpr := if prefix then column_prefix c else EColumn (col_name c).

Lemma eval_in_column_null prefix : column_of r (col_name c) = DNull -> eval enums r (in_column prefix) = Ok DNull.
Proof using. intros Hn. destruct prefix; cbn; by rewrite Hn. Qed.

Lemma in_column_compare prefix v d :
  (prefix = true -> text_column c /\ is_short_string v = true) ->
  column_stores normalize enums c v d -> w <> VNull -> v <> VNull ->
  exists x, eval enums r (in_column prefix) = Ok x /\ compare_data CmpEq x d = Ok (DBool (Value_eqb w v)).
Proof using Hc Hw CC PTL STL.
  intros Hp Hd Hnw Hnv. destruct prefix; cbn [in_column].
  2: { eexists. split; [done|]. by apply (compare_column normalize enums c w v _ d false (pc_tsvector _ _ _ Hc)). }
  destruct (Hp eq_refl) as [Ht Hs]. destruct v as [s| | | | | | |]; try done.
  destruct (text_attribute Ht) as [Ew|(x & Ew & Hx)]; [done|].
  exists (DText (text_prefix x)). split; [by cbn; rewrite Hx|].
  assert (d = DText s) as ->.
  { destruct Ht as [_ Ht]. inversion Hd as [|? ? _ Hs'| |]; subst. rewrite Ht in Hs'. by inversion Hs'. }
  rewrite compare_texts, Ew. cbn [Value_eqb]. do 2 f_equal.
  assert (String.length s <= 255)%nat as Hlen.
  { cbn [is_short_string] in Hs. apply Z.leb_le in Hs. unfold STRING_PREFIX_SIZE in Hs. lia. }
  rewrite <- (short_prefix s) at 1 by done. unfold text_holds. rewrite short_text_compare by done.
  destruct (String.eqb_spec x s) as [-> |E]; [by rewrite (proj2 (text_compare_eq s s) eq_refl)|].
  pose proof (proj1 (text_compare_eq x s)) as Hneq. destruct (text_compare x s); cbn; [by destruct E; apply Hneq|done..].
Qed.

Lemma in_condition prefix vs (negated : bool) :
  vs <> [] -> Forall (fits c) vs -> Forall (fun v => v <> VNull) vs ->
  (prefix = true -> text_column c /\ Forall (fun v => is_short_string v = true) vs) ->
  exists es, map_res (fun v => bind_value v (col_type c)) vs = Ok es
    /\ condition r (negate_if negated (EIn (in_column prefix) es))
         (negb (is_null_value w)
          && (if negated then negb (existsb (Value_eqb w) vs) else existsb (Value_eqb w) vs)).
Proof using Hc Hw CC PTL STL.
  intros Hvs Hf Hnn Hp. destruct (bind_values vs Hf) as (es & ds & Hes & Hev & Hds).
  exists es. split; [done|].
  assert (es <> []) as Hne by (intros ->; inversion Hev; subst; by inversion Hds; subst).
  apply negate_condition; intros Hx.
  - rewrite (eval_in DNull _ es ds) by (try done; by apply eval_in_column_null).
    rewrite map_compare_null. unfold res_map. cbn [res_bind]. rewrite any_nulls; [done|].
    intros ->. by inversion Hev; subst.
  - destruct vs as [|v0 vs0]; [done|]. inversion Hds as [|? d0 ? ds0 Hd0 _]; subst.
    apply Forall_cons in Hnn as Hnn'. destruct (in_column_compare prefix v0 d0) as (x & Ex & _); [|done|done|apply Hnn'|].
    { intros E. destruct (Hp E) as [? [? _]%Forall_cons]. done. }
    rewrite (eval_in x _ es (d0 :: ds0)) by done. apply compare_list.
    assert (Forall2 (fun v d => compare_data CmpEq x d = Ok (DBool (Value_eqb w v))) (v0 :: vs0) (d0 :: ds0)); [|done].
    apply Forall2_same_length_lookup. split; [by eapply Forall2_length|]. intros i v d Hv Hd.
    pose proof (Forall2_lookup_lr _ _ _ _ _ _ Hds Hv Hd) as Hs.
    destruct (in_column_compare prefix v d) as (x' & Ex' & Hcmp); [|done|done| |].
    + intros E. destruct (Hp E) as [? Hsh]. split; [done|]. by eapply (Forall_lookup_1 _ _ _ _ Hsh).
    + by eapply (Forall_lookup_1 _ _ _ _ Hnn).
    + rewrite Ex in Ex'. injection Ex' as <-. done.
Qed.
Definition non_null (vs : list Value) : list Value := List.filter (fun v => negb (is_null_value v)) vs.

Lemma is_null_value_iff v : is_null_value v = true <-> v = VNull.
Proof. by destruct v. Qed.

Lemma non_null_values vs : Forall (fun v => v <> VNull) (non_null vs).
Proof.
  apply Forall_forall. intros v (_ & Hv)%list_elem_of_In%List.filter_In ->. done.
Qed.

Lemma non_null_fits vs : Forall (fits c) vs -> Forall (fits c) (non_null vs).
Proof.
  rewrite !Forall_forall. intros Hf v (Hv%list_elem_of_In & _)%list_elem_of_In%List.filter_In. by apply Hf.
Qed.

Lemma non_null_empty vs : existsb (fun v => negb (is_null_value v)) vs = false <-> non_null vs = [].
Proof. induction vs as [|v vs IH]; [done|]. unfold non_null in *. cbn. by destruct (negb (is_null_value v)). Qed.

(** Looking up a value in a list. *)
Lemma existsb_null vs : existsb (Value_eqb VNull) vs = existsb is_null_value vs.
Proof. induction vs as [|v vs IH]; [done|]. cbn [existsb]. rewrite IH. by destruct v. Qed.

Lemma existsb_non_null x vs : x <> VNull -> existsb (Value_eqb x) vs = existsb (Value_eqb x) (non_null vs).
Proof.
  intros Hn. induction vs as [|v vs IH]; [done|]. unfold non_null in *. cbn [existsb List.filter].
  rewrite IH. destruct v; try done. by destruct x.
Qed.

Lemma short_values prefix vs :
  prefix = (is_text c && forallb is_short_string vs) -> vs <> [] -> Forall (fits c) vs ->
  prefix = true -> text_column c /\ Forall (fun v => is_short_string v = true) (non_null vs).
Proof using Hc.
  intros -> Hne Hf [Ht Hs]%andb_true_iff. rewrite List.forallb_forall in Hs. split.
  - destruct vs as [|v vs]; [done|]. apply Forall_cons in Hf as [Hf _].
    apply (string_is_text v); [done| |done]. specialize (Hs v (or_introl eq_refl)). destruct v; try done. by eexists.
  - apply Forall_forall. intros v (Hv & _)%list_elem_of_In%List.filter_In. by apply Hs.
Qed.

Lemma non_null_condition prefix vs (negated : bool) :
  Forall (fits c) vs ->
  (prefix = true -> text_column c /\ Forall (fun v => is_short_string v = true) (non_null vs)) ->
  exists es, map_res (fun v => bind_value v (col_type c)) (non_null vs) = Ok es
    /\ (non_null vs <> [] -> condition r (negate_if negated (EIn (in_column prefix) es))
         (negb (is_null_value w)
          && (if negated then negb (existsb (Value_eqb w) (non_null vs)) else existsb (Value_eqb w) (non_null vs)))).
Proof using Hc Hw CC PTL STL.
  intros Hf Hp. destruct (decide (non_null vs = [])) as [-> |Hnn]; [by exists []|].
  destruct (in_condition prefix (non_null vs) negated Hnn (non_null_fits vs Hf) (non_null_values vs) Hp)
    as (es & Hes & Hcond). by exists es.
Qed.

Lemma not_mixed vs :
  existsb is_null_value vs = true -> existsb (fun v => negb (is_null_value v)) vs = true ->
  Forall (eq VNull) vs \/ Forall (fun v => v <> VNull) vs -> False.
Proof.
  intros (v & Hv%list_elem_of_In & En)%existsb_exists (x & Hx%list_elem_of_In & Enn)%existsb_exists Hall.
  rewrite !Forall_forall in Hall. destruct Hall as [Hall|Hall].
  - by rewrite <- (Hall x Hx) in Enn.
  - apply is_null_value_iff in En. by destruct (Hall v Hv).
Qed.

Lemma in_array_condition vs (negated : bool) :
  Forall (fits c) vs ->
  (negated = true -> vs <> [] /\ (Forall (eq VNull) vs \/ Forall (fun v => v <> VNull) vs)) ->
  exists e, in_array t a vs negated = Ok e
    /\ condition r e (if negated then negb (is_null_value w) && negb (existsb (Value_eqb w) vs)
                      else existsb (Value_eqb w) vs).
Proof using Hc Hw CC PTL STL.
  intros Hf Hneg. unfold in_array. rewrite plain_filter_column. cbn [res_bind].
  destruct (decide (vs = [])) as [-> |Hne].
  { eexists. split; [done|]. destruct negated; [by destruct (Hneg eq_refl)|]. by apply condition_bool. }
  remember (is_text c && forallb is_short_string vs) as prefix eqn:Ep.
  pose proof (short_values prefix vs Ep Hne Hf) as Hshort.
  fold (non_null vs).
  destruct (non_null_condition prefix vs negated Hf Hshort) as (es & Hes & Hcond).
  rewrite Hes. destruct vs as [|v0 vs0] eqn:Evs; [done|]. rewrite <- Evs in *. clear Evs. cbn [res_bind].
  pose proof (is_null_condition negated) as Hnull. fold (in_column prefix).
  pose proof (existsb_null vs) as Ex. pose proof (existsb_non_null w vs) as En. pose proof (non_null_empty vs) as Hemp.
  destruct (existsb (fun v => negb (is_null_value v)) vs) eqn:Enn.
  - assert (non_null vs <> []) as Hnn by (intros E; by apply Hemp in E). specialize (Hcond Hnn).
    destruct (existsb is_null_value vs) eqn:Enull; cbn [andb]; (eexists; split; [done|]).
    + destruct negated; [exfalso; by eapply not_mixed, Hneg|].
      pose proof (condition_or _ _ _ _ _ Hnull Hcond) as Hor.
      destruct (is_null_value w) eqn:Ew; cbn in Hor.
      * apply is_null_value_iff in Ew. by rewrite Ew, Ex.
      * rewrite En by (intros E; by rewrite E in Ew). done.
    + destruct (is_null_value w) eqn:Ew; cbn in Hcond |- *.
      * apply is_null_value_iff in Ew. rewrite Ew, Ex. by destruct negated.
      * rewrite En by (intros E; by rewrite E in Ew). by destruct negated.
  - assert (existsb is_null_value vs = true) as Enull.
    { destruct vs as [|v vs]; [done|]. cbn in Enn |- *. by destruct v. }
    rewrite Enull. cbn [andb]. eexists. split; [done|].
    destruct (is_null_value w) eqn:Ew.
    + apply is_null_value_iff in Ew. rewrite Ew, Ex, Enull. by destruct negated.
    + rewrite En by (intros E; by rewrite E in Ew). rewrite (proj1 Hemp eq_refl). by destruct negated.
Qed.
(** *** Patterns *)
Lemma pattern_condition pattern (negated : bool) :
  text_column c -> pattern_ok pattern = true ->
  condition r (negate_if negated (ELike (EColumn (col_name c)) (EBind (DText pattern))))
    (matches (like pattern) negated w).
Proof using Hw.
  intros Ht Hp.
  assert (matches (like pattern) negated w
          = negb (is_null_value w)
            && (if negated then negb (match w with VString s => like pattern s | _ => false end)
                else match w with VString s => like pattern s | _ => false end)) as ->.
  { destruct (text_attribute Ht) as [Ew|(x & Ew & _)]; rewrite Ew; by destruct negated. }
  apply negate_condition; intros Hx; cbn [eval res_bind]; [by rewrite Hx|].
  destruct (text_attribute Ht) as [Ew|(x & Ew & Hcol)]; [done|]. by rewrite Hcol, Hp, Ew.
Qed.

Lemma matches_ext f g negated v : (forall s, f s = g s) -> matches f negated v = matches g negated v.
Proof. intros Hfg. destruct v; cbn; by rewrite ?Hfg. Qed.

Lemma like_condition v (negated starts : bool) :
  pattern_fits c v ->
  exists e s, v = VString s /\ starts_or_ends_with t a v negated starts = Ok e
    /\ condition r e (matches (if starts then text_starts s else text_ends s) negated w).
Proof using Hc Hw.
  intros [Ht (s & -> & Hp)]. unfold starts_or_ends_with. rewrite plain_filter_column. cbn [res_bind].
  eexists _, s. split; [done|]. split; [done|].
  rewrite (matches_ext _ (like (if starts then s +:+ "%" else "%" +:+ s))).
  - apply pattern_condition; [done|]. destruct starts; [by apply pattern_ok_app|done].
  - intros x. destruct starts; [by rewrite like_then_any|by rewrite like_any_then].
Qed.

(** *** Parts of values *)
Lemma position_from_nonneg n b d : (0 < n)%Z -> (0 <= position_from n b d)%Z.
Proof.
  revert n. induction d as [|x d IH]; intros n Hn; cbn; destruct (bytes_prefix _ _); try lia. apply IH. lia.
Qed.

Lemma bytes_condition b (negated : bool) :
  col_is_list c = false -> col_type c = CTBytes ->
  condition r (ECmp (if negated then CmpEq else CmpGt) (EPosition (EBind (DBytea b)) (EColumn (col_name c))) (int_literal 0))
    (contains_value negated w (VBytes b)).
Proof using Hw.
  intros Hl Ht. inversion Hw as [Ew Hcol|v d _ Hs Ew Hcol|l ds Hl' _ _|config l x _ Ht' _]; try congruence.
  { apply condition_null. cbn [eval res_bind]. rewrite <- Hcol. by destruct negated. }
  rewrite Ht in Hs. inversion Hs as [| | |y Et Ey Ed| | | |]. apply condition_bool. cbn [eval res_bind].
  rewrite <- Ed. cbn [contains_value]. unfold occurs, position, int_literal.
  pose proof (position_from_nonneg 1 b y ltac:(lia)).
  destruct negated; cbn [eval res_bind compare_data cmp_Z negb]; do 2 f_equal.
  destruct (Z.eqb_spec (position_from 1 b y) 0), (Z.ltb_spec 0 (position_from 1 b y)); cbn; done || lia.
Qed.

Lemma elements_stored l k ds ds' :
  Forall2 (stores normalize enums (col_type c)) l ds -> Forall2 (stores normalize enums (col_type c)) k ds' ->
  arrays_data (fun l k => forallb (fun y => existsb (fun x => elements_equal x y) l) k) (DArray ds) (DArray ds')
  = Ok (DBool (forallb (fun x => existsb (fun y => Value_eqb y x) l) k)).
Proof using CC STL.
  intros Hl Hk. cbn [arrays_data].
  assert (forallb (fun x => forallb (same_kind x) ds') ds = true) as ->.
  { apply List.forallb_forall. intros x (i & Hx)%list_elem_of_In%list_elem_of_lookup.
    apply List.forallb_forall. intros y (j & Hy)%list_elem_of_In%list_elem_of_lookup.
    destruct (Forall2_lookup_r _ _ _ _ _ Hl Hx) as (v & _ & Hv), (Forall2_lookup_r _ _ _ _ _ Hk Hy) as (u & _ & Hu).
    unfold same_kind. by rewrite (compare_elements normalize enums _ v u x y Hv Hu). }
  do 2 f_equal. induction Hk as [|u y k ds' Hu _ IH]; [done|]. cbn [forallb]. rewrite IH. f_equal. clear IH.
  induction Hl as [|v x l ds Hv _ IH]; [done|]. cbn [existsb]. rewrite IH. unfold elements_equal.
  by rewrite (compare_elements normalize enums _ v u x y Hv Hu).
Qed.

Lemma list_condition l :
  fits c (VList l) ->
  exists e, bind_value (VList l) (col_type c) = Ok e
    /\ condition r (EArrayContains (EColumn (col_name c)) e) (contains_value false w (VList l)).
Proof using Hc Hw CC PTL STL.
  intros [d Hd]. destruct (bind_column normalize enums c _ d Hd) as (e & He & Hev).
  destruct (Hev r) as (d' & Hed & Hd' & _). exists e. split; [done|]. pose proof (pc_tsvector _ _ _ Hc) as Hts.
  inversion Hd' as [|? ? Hl Hs|k ds' Hl _ Hk|config k x Hl Ht _]; subst; [inversion Hs| |unfold is_tsvector in Hts; by rewrite Ht in Hts].
  inversion Hw as [Ew Hcol|v d1 Hl' Hs|k ds Hl' _ Hk' Ew Hcol|config k x Hl' Ht' _]; try congruence.
  - apply condition_null. cbn [eval res_bind]. rewrite Hed, <- Hcol. done.
  - apply condition_bool. cbn [eval res_bind]. rewrite Hed, <- Hcol. cbn [res_bind]. by apply elements_stored.
Qed.

Lemma contains_condition v (negated : bool) :
  contains_fits c v -> (negated = true -> forall l, v <> VList l) ->
  exists e, contains_filter t a v negated = Ok e /\ condition r e (contains_value negated w v).
Proof using Hc Hw CC PTL STL.
  intros Hv Hneg. unfold contains_filter. rewrite plain_filter_column. cbn [res_bind].
  destruct v as [s| | | |l| |b|]; try done; cbn [contains_fits] in Hv.
  - eexists. split; [done|]. destruct Hv as [Ht Hp].
    assert (contains_value negated w (VString s) = matches (text_contains s) negated w) as -> by (by destruct w).
    rewrite (matches_ext _ (like (contains_pattern s))) by (intros x; by rewrite contains_pattern_matches).
    apply pattern_condition; [done|]. by apply contains_pattern_ok.
  - destruct (list_condition l Hv) as (e & He & Hcond). rewrite He. eexists. split; [done|].
    destruct negated; [by destruct (Hneg eq_refl l)|done].
  - destruct Hv as [Hl Ht]. pose proof (bytes_condition b negated Hl Ht). destruct negated; by eexists.
Qed.
End atoms.

(** ** Filters *)
Lemma column_for_field_elem t a c : column_for_field t a = Ok c -> c ∈ tb_columns t /\ col_field c = a.
Proof.
  unfold column_for_field. destruct (List.find _ _) as [c'|] eqn:E; [|done]. intros [= ->].
  apply List.find_some in E as [Hc Ha%String.eqb_eq]. split; [by apply list_elem_of_In|done].
Qed.

Definition is_atom (f : EntityFilter) : Prop := match f with FAnd _ | FOr _ => False | _ => True end.

(** A filter that is not a combination of others. *)
Lemma atom_condition t f e r :
  is_atom f -> atom_fits t f -> row_holds t e r ->
  exists ex, filter_expr t f = Ok ex /\ condition r ex (atom f e).
Proof.
  intros Hatom (c & Hc & Hf) Hr.
  assert (column_stores normalize enums c (attribute e (filter_attribute f)) (column_of r (col_name c))) as Hw.
  { destruct (column_for_field_elem t _ c (pc_field _ _ _ Hc)) as [Hin <-].
    apply Hr; [done|apply Hc]. }
  destruct f as [| |a v|a v|a v|a v|a v|a v|a vs|a vs|a v|a v|a v|a v|a v|a v]; try done;
    cbn [filter_expr atom filter_attribute fits_column] in *.
  - by apply (equality_condition t a c r _ Hc Hw v false).
  - by apply (equality_condition t a c r _ Hc Hw v true).
  - destruct Hf as (Hl & Ho & Hf & Hn). apply (order_condition t a c r _ Hc Hw v Greater); auto.
  - destruct Hf as (Hl & Ho & Hf & Hn). apply (order_condition t a c r _ Hc Hw v Less); auto.
  - destruct Hf as (Hl & Ho & Hf & Hn). apply (order_condition t a c r _ Hc Hw v GreaterOrEqual); auto.
  - destruct Hf as (Hl & Ho & Hf & Hn). apply (order_condition t a c r _ Hc Hw v LessOrEqual); auto.
  - by apply (in_array_condition t a c r _ Hc Hw vs false).
  - destruct Hf as [Hf Hvs]. by apply (in_array_condition t a c r _ Hc Hw vs true).
  - by apply (contains_condition t a c r _ Hc Hw v false).
  - destruct Hf as [Hf Hl]. by apply (contains_condition t a c r _ Hc Hw v true).
  - destruct (like_condition t a c r _ Hc Hw v false true Hf) as (ex & s & -> & Hex & Hcond). by exists ex.
  - destruct (like_condition t a c r _ Hc Hw v true true Hf) as (ex & s & -> & Hex & Hcond). by exists ex.
  - destruct (like_condition t a c r _ Hc Hw v false false Hf) as (ex & s & -> & Hex & Hcond). by exists ex.
  - destruct (like_condition t a c r _ Hc Hw v true false Hf) as (ex & s & -> & Hex & Hcond). by exists ex.
Qed.

Lemma EntityFilter_nested (P : EntityFilter -> Prop) :
  (forall fs, Forall P fs -> P (FAnd fs)) -> (forall fs, Forall P fs -> P (FOr fs)) ->
  (forall f, is_atom f -> P f) -> forall f, P f.
Proof.
  intros Hand Hor Hatom. fix IH 1. intros f.
  assert (forall fs, (forall f, P f) -> Forall P fs) as Hall by (intros fs HP; by apply Forall_true).
  destruct f as [fs|fs| | | | | | | | | | | | | |]; try (by apply Hatom).
  - apply Hand. clear Hall. induction fs as [|f fs IHfs]; constructor; [apply IH|apply IHfs].
  - apply Hor. clear Hall. induction fs as [|f fs IHfs]; constructor; [apply IH|apply IHfs].
Qed.

Lemma filter_expr_and t fs : filter_expr t (FAnd fs) = res_map (binary_op EAnd true) (map_res (filter_expr t) fs).
Proof. done. Qed.

Lemma filter_expr_or t fs : filter_expr t (FOr fs) = res_map (binary_op EOr false) (map_res (filter_expr t) fs).
Proof. done. Qed.

Lemma filter_fits_all t fs : filter_fits t (FAnd fs) <-> Forall (filter_fits t) fs.
Proof. cbn. induction fs as [|f fs IH]; [done|]. by rewrite Forall_cons, IH. Qed.

Lemma filter_fits_any t fs : filter_fits t (FOr fs) <-> Forall (filter_fits t) fs.
Proof. apply (filter_fits_all t fs). Qed.

Lemma conditions t fs e r :
  Forall (fun f => filter_fits t f -> exists ex, filter_expr t f = Ok ex /\ condition r ex (sat atom f e)) fs ->
  Forall (filter_fits t) fs ->
  exists es, map_res (filter_expr t) fs = Ok es /\ Forall2 (condition r) es ((fun f => sat atom f e) <$> fs).
Proof.
  intros HI Hf. induction HI as [|f fs H1 _ IH]; [by exists []|]. apply Forall_cons in Hf as [Hf Hfs].
  destruct (H1 Hf) as (ex & Hex & Hc), (IH Hfs) as (es & Hes & Hcs). exists (ex :: es).
  rewrite map_res_cons, Hex. cbn [res_bind]. rewrite Hes. split; [done|by constructor].
Qed.

Lemma condition_binary (op : SqlExpr -> SqlExpr -> SqlExpr) (f : bool -> bool -> bool) (on_empty : bool) r es bs :
  (forall e1 e2 b1 b2, condition r e1 b1 -> condition r e2 b2 -> condition r (op e1 e2) (f b1 b2)) ->
  (forall b, f on_empty b = b) ->
  Forall2 (condition r) es bs -> condition r (binary_op op on_empty es) (foldl f on_empty bs).
Proof.
  intros Hop Hf Hcs. destruct Hcs as [|ex b es bs Hc Hcs]; [by apply condition_bool|].
  cbn [binary_op foldl]. rewrite Hf. by apply condition_fold.
Qed.

Lemma foldl_and bs b : foldl andb b bs = b && forallb id bs.
Proof. revert b. induction bs as [|x bs IH]; intros b; cbn; [by rewrite andb_true_r|]. by rewrite IH, andb_assoc. Qed.

Lemma foldl_or bs b : foldl orb b bs = b || existsb id bs.
Proof. revert b. induction bs as [|x bs IH]; intros b; cbn; [by rewrite orb_false_r|]. by rewrite IH, orb_assoc. Qed.

(** The condition of a filter selects the rows of the entities that satisfy it. *)
Lemma filter_condition t e r f :
  row_holds t e r -> filter_fits t f ->
  exists ex, filter_expr t f = Ok ex /\ condition r ex (sat atom f e).
Proof.
  intros Hr. revert f. apply (EntityFilter_nested (fun f => filter_fits t f -> _)); intros fs HI.
  - intros Hf. apply filter_fits_all in Hf. destruct (conditions t fs e r HI Hf) as (es & Hes & Hcs).
    rewrite filter_expr_and, Hes. eexists. split; [done|]. rewrite sat_and.
    pose proof (condition_binary EAnd andb true r _ _ ltac:(intros; by apply condition_and) ltac:(done) Hcs) as Hc.
    rewrite foldl_and in Hc. cbn [andb] in Hc.
    assert (forallb id ((fun f => sat atom f e) <$> fs) = forallb (fun f => sat atom f e) fs) as E
      by (clear; by induction fs as [|f fs IH]; [|cbn; rewrite IH]). by rewrite <- E.
  - intros Hf. apply filter_fits_any in Hf. destruct (conditions t fs e r HI Hf) as (es & Hes & Hcs).
    rewrite filter_expr_or, Hes. eexists. split; [done|]. rewrite sat_or.
    pose proof (condition_binary EOr orb false r _ _ ltac:(intros; by apply condition_or) ltac:(done) Hcs) as Hc.
    rewrite foldl_or in Hc. cbn [orb] in Hc.
    assert (existsb id ((fun f => sat atom f e) <$> fs) = existsb (fun f => sat atom f e) fs) as E
      by (clear; by induction fs as [|f fs IH]; [|cbn; rewrite IH]). by rewrite <- E.
  - intros Hf. assert (atom_fits t fs) as Ha by (by destruct fs). rename fs into f.
    destruct (atom_condition t f e r HI Ha Hr) as (ex & Hex & Hc). exists ex. split; [done|]. by destruct f.
Qed.

(** A filter that fits can be written, whatever the table has. *)
Lemma filter_expr_fits t f : filter_fits t f -> exists ex, filter_expr t f = Ok ex.
Proof.
  intros Hf. destruct (filter_condition t ∅ ∅ f) as (ex & Hex & _); [|done|by exists ex].
  intros c _ _. unfold attribute, column_of. rewrite !lookup_empty. constructor.
Qed.

Lemma fits_valid t f : filter_fits t f -> valid_attributes f t = Ok ().
Proof.
  revert f. apply (EntityFilter_nested (fun f => filter_fits t f -> valid_attributes f t = Ok ())); intros f HI.
  - intros Hf%filter_fits_all. cbn. induction HI as [|g fs Hg _ IH]; [done|]. apply Forall_cons in Hf as [? ?].
    rewrite Hg by done. by apply IH.
  - intros Hf%filter_fits_any. cbn. induction HI as [|g fs Hg _ IH]; [done|]. apply Forall_cons in Hf as [? ?].
    rewrite Hg by done. by apply IH.
  - intros Hf. assert (atom_fits t f) as (c & Hc & _) by (by destruct f). pose proof (pc_field _ _ _ Hc) as Hcf.
    destruct f; try done; cbn [valid_attributes filter_attribute] in *; by rewrite Hcf.
Qed.
End meaning.

(** ** Filters that mean something else *)
Section others.
Context {ST : ScalarText} {PT : PgText} `{HashOrder}.

(** A value is in no empty list, yet it is not selected as not in it. *)
Lemma not_in_nothing t a c : filter_column t a = Ok c -> filter_expr t (FNotIn a []) = Ok (EBind (DBool false)).
Proof. intros Hc. cbn. unfold in_array. by rewrite Hc. Qed.

(** Not being in a list with null and other values selects all that is not
    null, also what is in the list. *)
Lemma not_in_with_null enums t a c v e r :
  filter_column t a = Ok c -> is_text c = false -> v <> VNull -> bind_value v (col_type c) = Ok e ->
  (exists b, eval enums r (ENot (EIn (EColumn (col_name c)) [e])) = Ok (DBool b)) ->
  is_null (column_of r (col_name c)) = false ->
  exists ex, filter_expr t (FNotIn a [VNull; v]) = Ok ex /\ selects_row enums ex r = Ok true.
Proof.
  intros Hc Ht Hv He [b Hb] Hn. cbn [filter_expr]. unfold in_array. rewrite Hc. cbn [res_bind]. rewrite Ht.
  assert (is_null_value v = false) as Env by (by destruct v).
  cbn [andb existsb List.filter is_null_value negb orb]. rewrite Env. cbn [negb orb andb map_res].
  rewrite He. cbn [res_bind].
  eexists. split; [done|]. apply (condition_selects enums r _ (true || b)), condition_or.
  - apply condition_bool. cbn. by rewrite Hn.
  - by apply condition_bool.
Qed.

(** Not containing a list is containing it. *)
Lemma not_contains_is_contains t a l : filter_expr t (FNotContains a (VList l)) = filter_expr t (FContains a (VList l)).
Proof. done. Qed.

(** Not matching a text is matching it. *)
Lemma not_match_is_match t a c v :
  filter_column t a = Ok c -> is_text c = false -> is_fulltext c = true ->
  filter_expr t (FNot a v) = filter_expr t (FEqual a v).
Proof. intros Hc Ht Hf. cbn. unfold equals_filter. rewrite Hc. cbn [res_bind]. by rewrite Ht, Hf. Qed.

(** Underscores of the text match any character. *)
Lemma underscore_matches : like ("a_c" +:+ "%") "abcd" = true.
Proof. reflexivity. Qed.
End others.
