(* ===== verification/Versions.v ===== *)
(** * Versions of entities in a table

    A table of entities holds versions, rows with an id and a range of blocks.
    This file has what the statements of [RelationalQueries] do to the rows of
    a table: the rows of a table in good order have at most one version of an
    entity at any block, and each statement is described by the map from
    blocks and ids to versions that the rows stand for. *)

From stdpp Require Import prelude list strings gmap.
From Stdlib Require Import ZArith Lia Ascii List.
From S2P Require Import Prelude.
From S2P Require Import GraphqlTypes.
From S2P Require Import StoreValue.
From S2P Require Import StoreQuery.
From S2P Require Import Sql.
From S2P Require Import Layout.
From S2P Require Import RelationalQueries.

#[local] Open Scope string_scope.
#[local] Open Scope list_scope.

Section versions.
Context {ST : ScalarText} {PT : PgText}.

Abbreviation MAX := BLOCK_NUMBER_MAX.

(** ** Rows *)
Definition row_id (r : Row) : Datum := column_of r "id".
Definition row_range (r : Row) : Int4Range :=
  match column_of r "block_range" with DRange rg => rg | _ => RangeEmpty end.

Definition id_datum (ty : IdType) (d : Datum) : Prop :=
  match ty, d with IdString, DText _ | IdBytes, DBytea _ => True | _, _ => False end.

(** Ranges as the store writes them: from some block on, and if they end, they
    do so before the largest block number. *)
Definition range_ok (rg : Int4Range) : Prop :=
  match rg with
  | RangeEmpty => True
  | RangeBounds (Some l) (Some u) => (l < u < MAX)%Z
  | RangeBounds (Some l) None => (l <= MAX)%Z
  | RangeBounds None _ => False
  end.

Record row_ok (ty : IdType) (r : Row) : Prop := mk_row_ok {
  ro_id : id_datum ty (row_id r);
  ro_range : column_of r "block_range" = DRange (row_range r);
  ro_bounds : range_ok (row_range r);
}.

(** The row is the version of [d] at block [n]. *)
Definition row_at (d : Datum) (n : Z) (r : Row) : bool :=
  same_id (row_id r) d && range_contains (row_range r) n.

(** Rows in good order. *)
Record rows_ok (ty : IdType) (rows : list Row) : Prop := mk_rows_ok {
  rk_rows : forall r, r ∈ rows -> row_ok ty r;
  rk_single : forall d n, (length (List.filter (row_at d n) rows) <= 1)%nat;
}.

(** The version of an entity at a block. *)
Definition version (rows : list Row) (n : Z) (d : Datum) : option Row :=
  head (List.filter (row_at d n) rows).

Lemma id_compare ty a b :
  id_datum ty a -> id_datum ty b ->
  compare_data CmpEq a b = Ok (DBool (same_id a b)) /\ (same_id a b = true <-> a = b).
Proof.
  unfold same_id. destruct ty, a, b; try done; intros _ _; cbn; (split; [by case_match|]).
  - destruct (String.eqb_spec s s0); naive_solver.
  - case_bool_decide; naive_solver.
Qed.

Lemma same_id_refl ty a : id_datum ty a -> same_id a a = true.
Proof. intros Ha. by apply (id_compare ty a a). Qed.

Lemma same_id_sym ty a b : id_datum ty b -> same_id a b = same_id b a.
Proof.
  unfold same_id. destruct ty, b; try done; intros _; destruct a; try done; cbn.
  - by rewrite String.eqb_sym.
  - by rewrite (bool_decide_ext (b0 = b) (b = b0)).
Qed.

Lemma same_id_eq ty a b : id_datum ty a -> same_id a b = true -> a = b.
Proof.
  intros Ha. unfold same_id. destruct ty, a, b; try done; cbn.
  - destruct (String.eqb_spec s s0); naive_solver.
  - case_bool_decide; naive_solver.
Qed.

(** ** Ranges *)
Lemma contains_bounds l u n :
  range_contains (RangeBounds (Some l) u) n = true <->
  (l <= n)%Z /\ match u with Some u => (n < u)%Z | None => True end.
Proof. cbn. rewrite andb_true_iff, Z.leb_le. destruct u; [by rewrite Z.ltb_lt|tauto]. Qed.

(** Ranges overlap when they have a block in common. *)
Lemma overlap_block r s :
  range_ok r -> range_ok s ->
  range_overlaps r s = true <-> exists n, range_contains r n = true /\ range_contains s n = true.
Proof.
  destruct r as [|[l1|] u1], s as [|[l2|] u2]; try done; intros H1 H2.
  - split; [done|naive_solver].
  - split; [done|naive_solver].
  - split; [done|naive_solver].
  - setoid_rewrite contains_bounds. cbn. rewrite andb_true_iff. split.
    + intros [O1 O2]. exists (Z.max l1 l2). cbn in *.
      destruct u1, u2; rewrite ?Z.ltb_lt in *; repeat split; lia.
    + intros (n & N1 & N2). destruct u1, u2; cbn; rewrite ?Z.ltb_lt; split; try done; lia.
Qed.

Lemma contains_max r : range_ok r -> range_contains r MAX = true <-> exists l, r = RangeBounds (Some l) None.
Proof.
  destruct r as [|[l|] [u|]]; try done; intros Hr; cbn in Hr.
  - split; [done|by intros []].
  - rewrite contains_bounds. split; [lia|by intros [? [=]]].
  - rewrite contains_bounds. split; [by exists l|]. intros [l' [= <-]]. done.
Qed.

(** ** Rows in good order *)
Definition disjoint (a b : Row) : Prop :=
  forall d n, row_at d n a = true -> row_at d n b = true -> False.

Lemma single_pairs rows :
  (forall d n, (length (List.filter (row_at d n) rows) <= 1)%nat) <-> ForallOrdPairs disjoint rows.
Proof.
  induction rows as [|a rows IH]; cbn [List.filter].
  { split; [intros _; constructor|cbn; lia]. }
  split.
  - intros Hs. constructor.
    + apply List.Forall_forall. intros b Hb d n Ha Hbn. specialize (Hs d n). rewrite Ha in Hs. cbn in Hs.
      assert (b ∈ List.filter (row_at d n) rows) as Hin.
      { apply list_elem_of_In, List.filter_In. done. }
      destruct (List.filter (row_at d n) rows); [by apply elem_of_nil in Hin|cbn in Hs; lia].
    + apply IH. intros d n. specialize (Hs d n). destruct (row_at d n a); cbn in Hs; lia.
  - intros Hp d n. inversion Hp as [|? ? Ha Hl]; subst. destruct (row_at d n a) eqn:E.
    + cbn. assert (List.filter (row_at d n) rows = []) as ->; [|cbn; lia].
      destruct (List.filter (row_at d n) rows) as [|b l] eqn:Ef; [done|]. exfalso.
      assert (List.In b (List.filter (row_at d n) rows)) as [Hb Hbn]%List.filter_In by (rewrite Ef; by left).
      rewrite List.Forall_forall in Ha. by eapply Ha.
    + by apply IH.
Qed.

Lemma filter_permutation {A} (p : A -> bool) l k :
  l ≡ₚ k -> List.filter p l ≡ₚ List.filter p k.
Proof.
  induction 1 as [|x l k _ IH|x y l|l k m _ IH1 _ IH2]; cbn.
  - done.
  - destruct (p x); [by constructor|done].
  - destruct (p x), (p y); try done; constructor.
  - by etrans.
Qed.

#[export] Instance rows_ok_permutation ty : Proper ((≡ₚ) ==> iff) (rows_ok ty).
Proof.
  intros l k E. split; intros [Hr Hs]; split.
  - intros r Hin. apply Hr. by rewrite E.
  - intros d n. by rewrite <- (filter_permutation _ _ _ E).
  - intros r Hin. apply Hr. by rewrite <- E.
  - intros d n. by rewrite (filter_permutation _ _ _ E).
Qed.

Lemma version_iff rows n d r :
  (forall d n, (length (List.filter (row_at d n) rows) <= 1)%nat) ->
  version rows n d = Some r <-> r ∈ rows /\ row_at d n r = true.
Proof.
  intros Hs. unfold version. rewrite list_elem_of_In, <- List.filter_In.
  specialize (Hs d n). destruct (List.filter (row_at d n) rows) as [|a [|b l]]; cbn in *; [naive_solver| |lia].
  split; [by intros [= ->]; left|by intros [->|[]]].
Qed.

Lemma version_none rows n d : version rows n d = None <-> forall r, r ∈ rows -> row_at d n r = false.
Proof.
  unfold version. split.
  - intros Hn r Hr. destruct (row_at d n r) eqn:E; [|done].
    assert (List.In r (List.filter (row_at d n) rows)) as Hin.
    { apply List.filter_In. by rewrite <- list_elem_of_In. }
    by destruct (List.filter (row_at d n) rows).
  - intros Hn. destruct (List.filter (row_at d n) rows) as [|a l] eqn:E; [done|].
    assert (List.In a (List.filter (row_at d n) rows)) as [Ha Hat]%List.filter_In by (rewrite E; by left).
    rewrite Hn in Hat; [done|by apply list_elem_of_In].
Qed.

Lemma version_permutation ty rows rows' n d :
  rows_ok ty rows -> rows ≡ₚ rows' -> version rows n d = version rows' n d.
Proof.
  intros [_ Hs] E. unfold version. pose proof (filter_permutation (row_at d n) _ _ E) as Ef.
  specialize (Hs d n). destruct (List.filter (row_at d n) rows) as [|a [|b l]]; cbn in *.
  - by apply Permutation_nil_l in Ef as <-.
  - by apply Permutation_singleton_l in Ef as <-.
  - lia.
Qed.

(** Two tables stand for the same versions when they have the same rows at
    every block. *)
Lemma version_ext rows rows' n d :
  (forall d n, (length (List.filter (row_at d n) rows) <= 1)%nat) ->
  (forall d n, (length (List.filter (row_at d n) rows') <= 1)%nat) ->
  (forall r, row_at d n r = true -> r ∈ rows <-> r ∈ rows') ->
  version rows n d = version rows' n d.
Proof.
  intros Hs Hs' Hr. apply option_eq. intros r. rewrite !version_iff by done.
  split; intros [Hin Hat]; (split; [by apply Hr|done]).
Qed.

(** ** Updating and deleting rows *)
Definition update_map (p : Row -> bool) (f : Row -> Row) (r : Row) : Row := if p r then f r else r.

(** A row and what it is updated to. *)
Definition tag_row (p : Row -> bool) (f : Row -> Row) (r : Row) : Row * option Row :=
  (r, if p r then Some (f r) else None).

(** An update that is described by a selection and a function. *)
Lemma update_rows_map enums t sets where_ rows p f :
  (forall r, r ∈ rows -> selects_row enums where_ r = Ok (p r)) ->
  (forall r, r ∈ rows -> p r = true -> update_row enums t sets r = Ok (f r)) ->
  update_rows enums t sets where_ rows
  = Ok (tag_row p f <$> rows).
Proof.
  intros Hp Hf. unfold update_rows. apply map_res_all_ok. intros r Hr. rewrite (Hp r Hr).
  cbn [res_bind]. unfold tag_row. destruct (p r) eqn:E; [|done]. by rewrite (Hf r Hr E).
Qed.

Lemma updated_rows_map p f (rows : list Row) :
  (updated_row <$> (tag_row p f <$> rows))
  = update_map p f <$> rows.
Proof.
  rewrite <- list_fmap_compose. apply list_fmap_ext. intros i r _. unfold updated_row, update_map, tag_row. cbn.
  by destruct (p r).
Qed.

Lemma changed_rows_map p f (rows : list Row) :
  omap snd (tag_row p f <$> rows) = f <$> List.filter p rows.
Proof.
  induction rows as [|r rows IH]; [done|]. rewrite fmap_cons, omap_cons_eq. unfold tag_row at 1.
  cbn [List.filter snd]. destruct (p r); cbn; by rewrite IH.
Qed.

(** Two rows that the exclusion constraint keeps apart while they are updated. *)
Definition apart (g : Row -> Row) (a b : Row) : Prop :=
  disjoint (g a) b /\ disjoint a (g b) /\ disjoint (g a) (g b).

Lemma excludes_disjoint ty t a b :
  td_exclusion t = true -> row_ok ty a -> row_ok ty b ->
  excludes t a b = false <-> disjoint a b.
Proof.
  intros Ht [Ia Ra Ba] [Ib Rb Bb]. unfold excludes, disjoint, row_at. rewrite Ht, Ra, Rb. cbn [andb].
  fold (row_id a) (row_id b). split.
  - intros Hx d n [Da Na]%andb_true_iff [Db' Nb]%andb_true_iff.
    apply (same_id_eq ty) in Da; [|done]. apply (same_id_eq ty) in Db'; [|done].
    rewrite Da, <- Db', (same_id_refl ty) in Hx by done. cbn in Hx.
    assert (range_overlaps (row_range a) (row_range b) = true) by (apply overlap_block; eauto). congruence.
  - intros Hd. destruct (same_id (row_id a) (row_id b)) eqn:Es; [|done]. cbn.
    destruct (range_overlaps _ _) eqn:Eo; [|done]. exfalso.
    apply overlap_block in Eo as (n & Na & Nb); [|done..].
    apply (Hd (row_id b) n); apply andb_true_iff; (split; [|done]); [done|by eapply same_id_refl].
Qed.

Lemma disjoint_sym a b : disjoint a b -> disjoint b a.
Proof. intros Hd d n Hb Ha. by eapply Hd. Qed.

Lemma no_conflict ty t p f rows :
  td_exclusion t = true ->
  (forall r, r ∈ rows -> row_ok ty r /\ row_ok ty (update_map p f r)) ->
  ForallOrdPairs (apart (update_map p f)) rows ->
  update_conflicts t (tag_row p f <$> rows) = false.
Proof.
  intros Ht Hr Hp. induction Hp as [|a rows Ha _ IH]; [done|].
  cbn [fmap list_fmap update_conflicts]. apply orb_false_iff. split.
  - apply existsb_false_iff. intros q (b & -> & Hb)%list_elem_of_fmap. cbn [fst snd].
    rewrite List.Forall_forall in Ha. destruct (Ha b) as (A1 & A2 & A3); [by apply list_elem_of_In|].
    destruct (Hr a) as [Ra Ga]; [by left|]. destruct (Hr b) as [Rb Gb]; [by right|].
    unfold update_map in *. unfold updated_row, tag_row. cbn [fst snd].
    apply disjoint_sym in A2 as A2'. apply disjoint_sym in A3 as A3'.
    destruct (p a), (p b); cbn [default]; rewrite ?orb_false_iff; repeat split;
      try (by apply (excludes_disjoint ty)); done.
  - apply IH. intros r Hin. apply Hr. by right.
Qed.

Lemma apart_ext g h rows :
  (forall r, r ∈ rows -> g r = h r) -> ForallOrdPairs (apart g) rows -> ForallOrdPairs (apart h) rows.
Proof.
  intros Hg Hp. induction Hp as [|a rows Ha _ IH]; constructor.
  - rewrite List.Forall_forall in *. intros b Hb. specialize (Ha b Hb). unfold apart in *.
    rewrite <- !Hg; [done|right; by apply list_elem_of_In|by left].
  - apply IH. intros r Hr. apply Hg. by right.
Qed.

Lemma meaning_update db name t sets where_ returning ty p f g out :
  sets <> [] ->
  db_tables db !! name = Some t ->
  check_columns (ts_def t) (where_ :: sets.*2 ++ returning) = Ok () ->
  td_exclusion (ts_def t) = true ->
  (forall r, r ∈ ts_rows t -> selects_row (db_enums db) where_ r = Ok (p r)) ->
  (forall r, r ∈ ts_rows t -> p r = true -> update_row (db_enums db) (ts_def t) sets r = Ok (f r)) ->
  (forall r, r ∈ ts_rows t -> update_map p f r = g r) ->
  (forall r, r ∈ ts_rows t -> row_ok ty r /\ row_ok ty (g r)) ->
  ForallOrdPairs (apart g) (ts_rows t) ->
  returned (db_enums db) returning (f <$> List.filter p (ts_rows t)) = Ok out ->
  meaning db (SUpdate name sets where_ returning)
  = Ok (with_rows db name t (g <$> ts_rows t),
        mk_outcome out (length (List.filter p (ts_rows t)))).
Proof.
  intros Hs Ht Hc Hx Hp Hf Hg Hr Ha Ho. unfold meaning. destruct sets as [|s sets]; [done|].
  unfold get_table. rewrite Ht. cbn [ok_or res_bind]. rewrite Hc. cbn [res_bind].
  rewrite (update_rows_map _ _ _ _ _ p f) by done. cbn [res_bind].
  rewrite (no_conflict ty); [|done| |].
  - rewrite changed_rows_map, updated_rows_map, Ho. cbn [res_bind]. rewrite length_fmap.
    do 3 f_equal. apply list_fmap_ext. intros i r Hi%list_elem_of_lookup_2. by apply Hg.
  - intros r Hin. rewrite Hg by done. by apply Hr.
  - apply (apart_ext g); [|done]. intros r Hin. by rewrite Hg.
Qed.

Lemma filter_res_bool {E} (f : Row -> res E bool) p rows :
  (forall r, r ∈ rows -> f r = Ok (p r)) -> filter_res f rows = Ok (List.filter p rows).
Proof.
  intros Hf. induction rows as [|r rows IH]; [done|]. cbn [filter_res List.filter].
  rewrite (Hf r) by left. cbn [res_bind]. fold (filter_res f). rewrite IH; [by destruct (p r)|].
  intros r' Hr. apply Hf. by right.
Qed.

Lemma meaning_delete db name t where_ returning p out :
  db_tables db !! name = Some t ->
  check_columns (ts_def t) (where_ :: returning) = Ok () ->
  (forall r, r ∈ ts_rows t -> selects_row (db_enums db) where_ r = Ok (p r)) ->
  returned (db_enums db) returning (List.filter p (ts_rows t)) = Ok out ->
  meaning db (SDelete name where_ returning)
  = Ok (with_rows db name t (List.filter (fun r => negb (p r)) (ts_rows t)),
        mk_outcome out (length (List.filter p (ts_rows t)))).
Proof.
  intros Ht Hc Hp Ho. unfold meaning, get_table. rewrite Ht. cbn [ok_or res_bind]. rewrite Hc.
  cbn [res_bind]. rewrite (filter_res_bool _ p) by done. cbn [res_bind].
  rewrite (filter_res_bool _ (fun r => negb (p r))); [|intros r Hr; by rewrite Hp].
  cbn [res_bind]. by rewrite Ho.
Qed.

(** ** Tables of entities *)
Definition id_sql_type (ty : IdType) : SqlType :=
  match ty with IdString => TText | IdBytes => TBytea end.

Record def_ok (ty : IdType) (t : TableDef) : Prop := mk_def_ok {
  do_exclusion : td_exclusion t = true;
  do_id : exists d, column_def t "id" = Some d /\ cd_type d = id_sql_type ty;
  do_range : exists d, column_def t "block_range" = Some d /\ cd_type d = TInt4Range;
}.

Record table_ok (ty : IdType) (t : TableState) : Prop := mk_table_ok {
  tk_def : def_ok ty (ts_def t);
  tk_rows : rows_ok ty (ts_rows t);
  tk_not_null : forall r, r ∈ ts_rows t -> check_not_null (ts_def t) r = Ok ();
}.

Definition set_range (rg : Int4Range) (r : Row) : Row := <["block_range" := DRange rg]> r.

Lemma set_range_id rg r : row_id (set_range rg r) = row_id r.
Proof. unfold row_id, column_of, set_range. by rewrite lookup_insert_ne. Qed.
Lemma set_range_range rg r : column_of (set_range rg r) "block_range" = DRange rg.
Proof. unfold column_of, set_range. by rewrite lookup_insert_eq. Qed.
Lemma row_range_set rg r : row_range (set_range rg r) = rg.
Proof. unfold row_range. by rewrite set_range_range. Qed.

Lemma row_at_set d n rg r :
  row_at d n (set_range rg r) = same_id (row_id r) d && range_contains rg n.
Proof. unfold row_at. by rewrite set_range_id, row_range_set. Qed.

Lemma row_ok_set ty rg r : row_ok ty r -> range_ok rg -> row_ok ty (set_range rg r).
Proof.
  intros [Hi _ _] Hrg. split.
  - by rewrite set_range_id.
  - by rewrite set_range_range, row_range_set.
  - by rewrite row_range_set.
Qed.

Lemma not_null_set t rg r : check_not_null t r = Ok () -> check_not_null t (set_range rg r) = Ok ().
Proof.
  unfold check_not_null. destruct (existsb _ (td_columns t)) eqn:E; [done|]. intros _.
  rewrite existsb_false_iff in E.
  assert (existsb (fun d => cd_not_null d && is_null (column_of (set_range rg r) (cd_name d)))
            (td_columns t) = false) as ->; [|done].
  apply existsb_false_iff. intros d Hd. specialize (E d Hd).
  destruct (String.eqb_spec (cd_name d) "block_range") as [->|Hn].
  - rewrite set_range_range. apply andb_false_r.
  - unfold column_of, set_range in *. rewrite lookup_insert_ne by congruence. done.
Qed.

(** ** Conditions on rows *)
#[local] Arguments column_of {ST PT} r c : simpl never.

Lemma range_column ty r : row_ok ty r -> column_of r BLOCK_RANGE_COLUMN = DRange (row_range r).
Proof. apply ro_range. Qed.

Lemma eval_range enums ty r : row_ok ty r -> eval enums r block_range = Ok (DRange (row_range r)).
Proof. intros Hr. cbn. by rewrite (range_column ty r Hr). Qed.

Lemma eval_contains enums ty r n :
  row_ok ty r ->
  eval enums r (EContains block_range (int_literal n)) = Ok (DBool (range_contains (row_range r) n)).
Proof. intros Hr. cbn. by rewrite (range_column ty r Hr). Qed.

Lemma eval_lower enums ty r op n :
  row_ok ty r ->
  eval enums r (ECmp op (ELower block_range) (int_literal n))
  = Ok (match range_lower (row_range r) with Some l => DBool (cmp_Z op l n) | None => DNull end).
Proof. intros Hr. cbn. rewrite (range_column ty r Hr). cbn. by destruct (range_lower (row_range r)). Qed.

Lemma eval_upper enums ty r op n :
  row_ok ty r ->
  eval enums r (ECmp op upper_or_max (int_literal n))
  = Ok (DBool (cmp_Z op (default MAX (range_upper (row_range r))) n)).
Proof. intros Hr. cbn. rewrite (range_column ty r Hr). cbn. by destruct (range_upper (row_range r)). Qed.

Lemma eval_and enums r e1 e2 a b :
  eval enums r e1 = Ok (DBool a) -> eval enums r e2 = Ok (DBool b) ->
  eval enums r (EAnd e1 e2) = Ok (DBool (a && b)).
Proof. intros E1 E2. cbn. rewrite E1. cbn [res_bind]. rewrite E2. by destruct a, b. Qed.

(** A conjunction with something unknown where it is false anyway. *)
Lemma eval_and_unknown enums r e1 e2 :
  eval enums r e1 = Ok (DBool false) -> eval enums r e2 = Ok DNull ->
  eval enums r (EAnd e1 e2) = Ok (DBool false).
Proof. intros E1 E2. cbn. rewrite E1. cbn [res_bind]. by rewrite E2. Qed.

Lemma selects_bool enums r e b : eval enums r e = Ok (DBool b) -> selects_row enums e r = Ok b.
Proof. intros E. unfold selects_row. by rewrite E. Qed.

(** *** The clause on block ranges of a query, for both kinds of tables *)
Lemma eval_block_range_contains enums ty t r n :
  row_ok ty r ->
  eval enums r (block_range_contains t n) = Ok (DBool (range_contains (row_range r) n)).
Proof.
  intros Hr. unfold block_range_contains. destruct (_ && _) eqn:Ea; [|by eapply eval_contains].
  apply andb_true_iff in Ea as [_ Hn%Z.ltb_lt].
  pose proof (eval_contains enums ty r n Hr) as Ec. pose proof (eval_upper enums ty r CmpGt n Hr) as Eu.
  pose proof (eval_lower enums ty r CmpLe n Hr) as El. pose proof (ro_bounds ty r Hr) as Hb.
  destruct (row_range r) as [|[l|] u]; [| |done].
  - eapply eval_and_unknown; [|exact El]. by eapply (eval_and _ _ _ _ false).
  - cbn [range_lower] in El. rewrite (eval_and _ _ _ _ _ _ (eval_and _ _ _ _ _ _ Ec Eu) El). f_equal. f_equal.
    cbn. destruct (Z.leb_spec l n), u as [u|]; cbn in *; rewrite ?andb_true_r, ?andb_false_r; try done.
    + destruct (Z.ltb_spec n u); done.
    + by apply Z.ltb_lt in Hn as ->.
Qed.

(** *** The conditions of the reverting statements *)
Definition starts_from (b : Z) (r : Row) : bool :=
  match range_lower (row_range r) with Some l => (b <=? l)%Z | None => false end.

Lemma selects_revert_remove enums ty r b :
  row_ok ty r ->
  selects_row enums (ECmp CmpGe (ELower block_range) (int_literal b)) r = Ok (starts_from b r).
Proof.
  intros Hr. unfold selects_row, starts_from. rewrite (eval_lower enums ty r CmpGe b Hr). cbn [res_bind].
  by destruct (range_lower (row_range r)).
Qed.

Definition ended_after (n : Z) (r : Row) : bool :=
  range_contains (row_range r) n && negb (range_contains (row_range r) MAX).

Lemma selects_revert_clamp enums ty r n :
  row_ok ty r ->
  selects_row enums
    (EAnd (EAnd (EAnd (EAnd (EContains block_range (int_literal n)) (ENot BLOCK_RANGE_CURRENT))
                   (ECmp CmpLe (ELower block_range) (int_literal n)))
             (ECmp CmpGt upper_or_max (int_literal n)))
       (ECmp CmpLt upper_or_max (int_literal MAX))) r = Ok (ended_after n r).
Proof.
  intros Hr. apply selects_bool. unfold ended_after.
  pose proof (eval_contains enums ty r n Hr) as Ec. pose proof (eval_contains enums ty r MAX Hr) as Em.
  assert (eval enums r (ENot BLOCK_RANGE_CURRENT)
          = Ok (DBool (negb (range_contains (row_range r) MAX)))) as En.
  { unfold BLOCK_RANGE_CURRENT. cbn [eval] in *. by rewrite Em. }
  pose proof (eval_upper enums ty r CmpGt n Hr) as Eg. pose proof (eval_upper enums ty r CmpLt MAX Hr) as El.
  pose proof (eval_lower enums ty r CmpLe n Hr) as Ele. pose proof (ro_bounds ty r Hr) as Hb.
  pose proof (eval_and _ _ _ _ _ _ Ec En) as E1.
  destruct (row_range r) as [|[l|] u]; [| |done].
  - pose proof (eval_and_unknown _ _ _ _ E1 Ele) as E2.
    pose proof (eval_and _ _ _ _ _ _ (eval_and _ _ _ _ _ _ E2 Eg) El) as E3. exact E3.
  - cbn [range_lower] in Ele. pose proof (eval_and _ _ _ _ _ _ E1 Ele) as E2.
    rewrite (eval_and _ _ _ _ _ _ (eval_and _ _ _ _ _ _ E2 Eg) El). f_equal. f_equal.
    cbn in *. destruct u as [u|]; cbn in *.
    + destruct (Z.leb_spec l n), (Z.ltb_spec n u), (Z.leb_spec l MAX), (Z.ltb_spec MAX u),
        (Z.ltb_spec u MAX); try done; lia.
    + destruct (Z.leb_spec l MAX); [|lia]. by rewrite !andb_false_r.
Qed.

(** ** The data of a table: for a block and an id, the version without its range *)
Definition row_data (r : Row) : Row := delete "block_range" r.
Definition data_at (rows : list Row) (n : Z) (d : Datum) : option Row := row_data <$> version rows n d.

Lemma row_data_set rg r : row_data (set_range rg r) = row_data r.
Proof. unfold row_data, set_range. apply delete_insert_eq. Qed.

Lemma data_at_iff ty rows n d x :
  rows_ok ty rows ->
  data_at rows n d = Some x <-> exists r, r ∈ rows /\ row_at d n r = true /\ row_data r = x.
Proof.
  intros [_ Hs]. unfold data_at. rewrite fmap_Some. setoid_rewrite version_iff; [|done].
  split; [intros (r & [? ?] & ->)|intros (r & ? & ? & <-)]; eauto.
Qed.

Lemma data_at_permutation ty rows rows' n d :
  rows_ok ty rows -> rows ≡ₚ rows' -> data_at rows n d = data_at rows' n d.
Proof. intros Hr E. unfold data_at. by erewrite version_permutation. Qed.

Lemma data_at_id ty rows n d x : rows_ok ty rows -> data_at rows n d = Some x -> id_datum ty d.
Proof.
  intros Hr (r & Hin & [Hd _]%andb_true_iff & _)%(data_at_iff ty); [|done].
  pose proof (ro_id ty r (rk_rows ty rows Hr r Hin)) as Hi. by apply (same_id_eq ty) in Hd as <-.
Qed.

(** Rows whose ranges are changed stand for other data only at the blocks that
    enter or leave a range. *)
Lemma set_ranges ty rows (h : Row -> Int4Range) :
  rows_ok ty rows ->
  (forall r, r ∈ rows -> range_ok (h r)) ->
  ForallOrdPairs (apart (fun r => set_range (h r) r)) rows ->
  rows_ok ty ((fun r => set_range (h r) r) <$> rows)
  /\ forall n d x, data_at ((fun r => set_range (h r) r) <$> rows) n d = Some x <->
       exists r, r ∈ rows /\ same_id (row_id r) d = true /\ range_contains (h r) n = true
                 /\ row_data r = x.
Proof.
  intros [Hr Hs] Hh Ha.
  assert (rows_ok ty ((fun r => set_range (h r) r) <$> rows)) as Hok.
  { split.
    - intros r (r0 & -> & Hin)%list_elem_of_fmap. by apply row_ok_set; [apply Hr|apply Hh].
    - apply single_pairs. clear Hr Hs Hh. induction Ha as [|a rows Ha _ IH]; [constructor|].
      rewrite fmap_cons. constructor; [|done]. rewrite List.Forall_forall in *.
      intros b (b0 & -> & Hb)%list_elem_of_In%list_elem_of_fmap.
      apply (Ha b0). by apply list_elem_of_In. }
  split; [done|]. intros n d x. rewrite (data_at_iff ty) by done. split.
  - intros (r & (r0 & -> & Hin)%list_elem_of_fmap & Hat & <-). rewrite row_at_set in Hat.
    apply andb_true_iff in Hat as [? ?]. exists r0. rewrite row_data_set. eauto.
  - intros (r & Hin & Hd & Hn & <-). exists (set_range (h r) r). rewrite row_at_set, row_data_set, Hd, Hn.
    split; [|done]. apply list_elem_of_fmap. by exists r.
Qed.

(** Ranges that only shrink keep rows apart. *)
Lemma shrinking_apart rows (h : Row -> Int4Range) :
  ForallOrdPairs disjoint rows ->
  (forall r n, r ∈ rows -> range_contains (h r) n = true -> range_contains (row_range r) n = true) ->
  ForallOrdPairs (apart (fun r => set_range (h r) r)) rows.
Proof.
  intros Hp Hh.
  assert (forall r d n, r ∈ rows -> row_at d n (set_range (h r) r) = true -> row_at d n r = true) as Hs.
  { intros r d n Hr. rewrite row_at_set. unfold row_at. intros [-> Hn]%andb_true_iff. by apply Hh. }
  clear Hh. induction Hp as [|a rows Ha Hl IH]; constructor.
  - rewrite List.Forall_forall in *. intros b Hb. specialize (Ha b Hb).
    assert (b ∈ rows) by (by apply list_elem_of_In).
    split_and!; intros d n H1 H2; apply (Ha d n); try done; apply Hs; try done; first [by left|by right].
  - apply IH. intros r d n Hr. apply Hs. by right.
Qed.

(** *** Clamping the current version *)
Definition clamped (b : Z) (rg : Int4Range) : Int4Range :=
  match int4range (range_lower rg) (Some b) with Ok rg => rg | _ => RangeEmpty end.

Definition clamp_range (d : Datum) (b : Z) (r : Row) : Int4Range :=
  if row_at d MAX r then clamped b (row_range r) else row_range r.

(** The current version, if there is one, begins no later than [b]. *)
Definition can_clamp (d : Datum) (b : Z) (rows : list Row) : Prop :=
  forall r, r ∈ rows -> row_at d MAX r = true ->
    match range_lower (row_range r) with Some l => (l <= b)%Z | None => True end.

Lemma clamped_contains b l n :
  (l <= b)%Z ->
  range_contains (clamped b (RangeBounds (Some l) None)) n = true <-> (l <= n < b)%Z.
Proof.
  intros Hb. unfold clamped. cbn [range_lower int4range]. destruct (Z.ltb_spec l b).
  - rewrite contains_bounds. done.
  - destruct (Z.eqb_spec l b); [|lia]. cbn. split; [done|lia].
Qed.

Lemma clamped_ok b l : (l <= b < MAX)%Z -> range_ok (clamped b (RangeBounds (Some l) None)).
Proof.
  intros Hb. unfold clamped. cbn [range_lower int4range]. destruct (Z.ltb_spec l b); [cbn; lia|].
  destruct (Z.eqb_spec l b); [done|lia].
Qed.

Lemma current_range ty d r :
  row_ok ty r -> row_at d MAX r = true -> exists l, row_range r = RangeBounds (Some l) None.
Proof. intros [_ _ Hb] [_ Hm]%andb_true_iff. by apply contains_max in Hm. Qed.

Lemma clamp_rows ty d b rows :
  rows_ok ty rows -> (b < MAX)%Z -> can_clamp d b rows ->
  let rows' := (fun r => set_range (clamp_range d b r) r) <$> rows in
  ForallOrdPairs (apart (fun r => set_range (clamp_range d b r) r)) rows
  /\ (forall r, r ∈ rows -> range_ok (clamp_range d b r))
  /\ rows_ok ty rows'
  /\ forall n d' x, data_at rows' n d' = Some x <->
       data_at rows n d' = Some x
       /\ ~ (d' = d /\ (b <= n)%Z /\ is_Some (data_at rows MAX d)).
Proof.
  intros Hok Hb Hc. pose proof (rk_rows ty rows Hok) as Hr. cbv zeta.
  assert (forall r n, r ∈ rows -> range_contains (clamp_range d b r) n = true <->
            range_contains (row_range r) n = true /\ ~ (row_at d MAX r = true /\ (b <= n)%Z)) as Hcont.
  { intros r n Hin. unfold clamp_range. destruct (row_at d MAX r) eqn:Ea; [|naive_solver].
    destruct (current_range ty d r (Hr r Hin) Ea) as [l El].
    specialize (Hc r Hin Ea). rewrite El in *. cbn [range_lower] in Hc.
    rewrite clamped_contains, contains_bounds by done. split; [intros; split; [lia|intros [_ ?]; lia]|].
    intros [[? _] Hn]. split; [done|]. destruct (Z.lt_ge_cases n b); [done|]. by destruct Hn. }
  assert (forall r, r ∈ rows -> range_ok (clamp_range d b r)) as Hro.
  { intros r Hin. unfold clamp_range. destruct (row_at d MAX r) eqn:Ea; [|apply (Hr r Hin)].
    destruct (current_range ty d r (Hr r Hin) Ea) as [l El]. specialize (Hc r Hin Ea).
    rewrite El in *. apply clamped_ok. cbn in Hc. lia. }
  assert (ForallOrdPairs (apart (fun r => set_range (clamp_range d b r) r)) rows) as Hap.
  { apply shrinking_apart; [by apply single_pairs, (rk_single ty)|]. intros r n Hin Hn. by apply Hcont in Hn as []. }
  split; [done|]. split; [done|].
  destruct (set_ranges ty rows (clamp_range d b)) as [Hok' Hd]; [done..|]. split; [done|].
  intros n d' x. rewrite Hd. split.
  - intros (r & Hin & Hid & Hn & <-). apply Hcont in Hn as [Hn Hnot]; [|done].
    assert (row_at d' n r = true) as Hat by (by apply andb_true_iff). split.
    + apply (data_at_iff ty); [done|]. eauto.
    + intros (-> & Hbn & y & Hy). apply Hnot. split; [|done].
      apply (data_at_iff ty) in Hy as (r2 & Hin2 & Hat2 & _); [|done].
      destruct (current_range ty d r2 (Hr r2 Hin2) Hat2) as [l El]. specialize (Hc r2 Hin2 Hat2).
      rewrite El in Hc. cbn in Hc.
      assert (row_at d n r2 = true) as Hat2n.
      { apply andb_true_iff in Hat2 as [Hid2 _]. apply andb_true_iff. split; [done|].
        rewrite El. apply contains_bounds. lia. }
      assert (Some r = Some r2) as [= ->]; [|done].
      rewrite <- (proj2 (version_iff rows n d r (rk_single ty rows Hok))) by done.
      by apply (version_iff rows n d r2 (rk_single ty rows Hok)).
  - intros [(r & Hin & Hat & <-)%(data_at_iff ty) Hnot]; [|done]. exists r. split; [done|].
    apply andb_true_iff in Hat as [Hid Hn]. split; [done|]. split; [|done].
    apply Hcont; [done|]. split; [done|]. intros [Hm Hbn]. apply Hnot.
    assert (d' = d) as ->.
    { apply andb_true_iff in Hm as [Hm _]. pose proof (ro_id ty r (Hr r Hin)) as Hi.
      apply (same_id_eq ty) in Hid as <-; [|done]. by apply (same_id_eq ty) in Hm. }
    split; [done|]. split; [done|]. exists (row_data r). apply (data_at_iff ty); [done|]. eauto.
Qed.

(** *** Inserting a version *)
Lemma insert_rows ty t rows r b :
  td_exclusion t = true -> rows_ok ty rows -> row_ok ty r ->
  row_range r = RangeBounds (Some b) None ->
  (forall n, (b <= n)%Z -> data_at rows n (row_id r) = None) ->
  existsb (excludes t r) rows = false
  /\ rows_ok ty (rows ++ [r])
  /\ forall n d x, data_at (rows ++ [r]) n d = Some x <->
       data_at rows n d = Some x \/ (d = row_id r /\ (b <= n)%Z /\ x = row_data r).
Proof.
  intros Ht Hok Hr Hrg Hnone. pose proof (ro_id ty r Hr) as Hid.
  assert (forall n, range_contains (row_range r) n = true <-> (b <= n)%Z) as Hn.
  { intros n. rewrite Hrg, contains_bounds. tauto. }
  assert (forall a, a ∈ rows -> disjoint r a) as Hdis.
  { intros a Ha d n [Hd Hc%Hn]%andb_true_iff Hat. apply (same_id_eq ty) in Hd as <-; [|done].
    specialize (Hnone n Hc). unfold data_at in Hnone. apply fmap_None in Hnone.
    rewrite version_none in Hnone. by rewrite Hnone in Hat. }
  assert (rows_ok ty (rows ++ [r])) as Hok'.
  { split.
    - intros a [Ha| ->%list_elem_of_singleton]%elem_of_app; [by apply Hok|done].
    - intros d n. rewrite List.filter_app, length_app. cbn [List.filter].
      pose proof (rk_single ty rows Hok d n) as Hs. destruct (row_at d n r) eqn:E; [|cbn; lia].
      assert (List.filter (row_at d n) rows = []) as ->; [|cbn; lia].
      destruct (List.filter (row_at d n) rows) as [|a l] eqn:Ef; [done|]. exfalso.
      assert (List.In a (List.filter (row_at d n) rows)) as [Ha%list_elem_of_In Hat]%List.filter_In
        by (rewrite Ef; by left).
      by apply (Hdis a Ha d n). }
  split; [|split; [done|]].
  - apply existsb_false_iff. intros a Ha. apply (excludes_disjoint ty); [done..|by apply Hok|by apply Hdis].
  - intros n d x. rewrite !(data_at_iff ty) by done. split.
    + intros (a & [Ha| ->%list_elem_of_singleton]%elem_of_app & Hat & <-); [left; eauto|right].
      apply andb_true_iff in Hat as [Hd Hc%Hn]. by apply (same_id_eq ty) in Hd as <-.
    + intros [(a & Ha & Hat & <-)|(-> & Hb & ->)].
      * exists a. split; [|done]. apply elem_of_app. by left.
      * exists r. split; [apply elem_of_app; right; by left|]. split; [|done].
        apply andb_true_iff. split; [by eapply same_id_refl|by apply Hn].
Qed.

(** A version that begins while there is one violates the constraint. *)
Lemma insert_rows_conflict ty t rows r b n x :
  td_exclusion t = true -> rows_ok ty rows -> row_ok ty r ->
  row_range r = RangeBounds (Some b) None ->
  (b <= n)%Z -> data_at rows n (row_id r) = Some x ->
  existsb (excludes t r) rows = true.
Proof.
  intros Ht Hok Hr Hrg Hn (a & Ha & Hat & _)%(data_at_iff ty); [|done].
  apply existsb_true_iff. exists a. split; [done|].
  destruct (excludes t r a) eqn:E; [done|]. exfalso.
  apply (excludes_disjoint ty) in E; [|done..|by apply Hok]. apply (E (row_id r) n); [|done].
  apply andb_true_iff. split; [by eapply same_id_refl, ro_id|]. rewrite Hrg. by apply contains_bounds.
Qed.

(** *** Reverting a block *)
Definition unclamp_range (n : Z) (r : Row) : Int4Range :=
  if ended_after n r then RangeBounds (range_lower (row_range r)) None else row_range r.

(** What the reverting statements leave. *)
Definition reverted (b : Z) (rows : list Row) : list Row :=
  (fun r => set_range (unclamp_range (b - 1) r) r) <$> List.filter (fun r => negb (starts_from b r)) rows.

(** A row that does not start from [b] on ends where it ended, if that is
    before the block [b - 1], and else never. *)
Lemma unclamp_contains ty b r n :
  row_ok ty r -> starts_from b r = false ->
  range_contains (unclamp_range (b - 1) r) n = range_contains (row_range r) (Z.min n (b - 1)).
Proof.
  intros [_ _ Hb]. unfold starts_from, unclamp_range, ended_after.
  destruct (row_range r) as [|[l|] [u|]]; try done; cbn in *; intros Hs%Z.leb_gt.
  - destruct (Z.leb_spec l (b - 1)), (Z.ltb_spec (b - 1) u), (Z.leb_spec l MAX), (Z.ltb_spec MAX u);
      try lia; cbn;
      destruct (Z.leb_spec l n), (Z.leb_spec l (Z.min n (b - 1))),
        (Z.ltb_spec n u), (Z.ltb_spec (Z.min n (b - 1)) u); try done; lia.
  - destruct (Z.leb_spec l MAX); [|lia]. cbn. rewrite !andb_true_r, andb_false_r. cbn.
    rewrite andb_true_r. destruct (Z.leb_spec l n), (Z.leb_spec l (Z.min n (b - 1))); try done; lia.
Qed.

Lemma contained_before ty b r n :
  row_ok ty r -> starts_from b r = false -> range_contains (row_range r) n = true ->
  range_contains (row_range r) (Z.min n (b - 1)) = true.
Proof.
  intros [_ _ Hb]. unfold starts_from. destruct (row_range r) as [|[l|] u]; try done.
  cbn [range_lower]. rewrite !contains_bounds. intros Hs%Z.leb_gt [? Hu]. split; [lia|].
  destruct u; [lia|done].
Qed.

Lemma starts_later ty b r n :
  row_ok ty r -> starts_from b r = true -> (n < b)%Z -> range_contains (row_range r) n = false.
Proof.
  intros [_ _ Hb]. unfold starts_from. destruct (row_range r) as [|[l|] u]; try done.
  cbn [range_lower]. intros Hs%Z.leb_le Hn. apply not_true_iff_false. rewrite contains_bounds. lia.
Qed.

Lemma unclamp_ok ty b r : row_ok ty r -> range_ok (unclamp_range b r).
Proof.
  intros [_ _ Hb]. unfold unclamp_range. destruct (ended_after b r) eqn:E; [|done]. revert E.
  unfold ended_after.
  destruct (row_range r) as [|[l|] [u|]]; try done; cbn [range_ok range_lower range_contains] in *;
    intros [E _]%andb_true_iff; try done; cbn; try lia.
Qed.

Lemma kept_rows_ok ty (p : Row -> bool) rows : rows_ok ty rows -> rows_ok ty (List.filter p rows).
Proof.
  intros [Hr Hs]. split.
  - intros r [Hin%list_elem_of_In _]%list_elem_of_In%List.filter_In. by apply Hr.
  - intros d n. etrans; [|apply (Hs d n)]. clear. induction rows as [|a rows IH]; [done|].
    cbn [List.filter]. destruct (p a); cbn [List.filter]; destruct (row_at d n a); cbn; lia.
Qed.

Lemma reverted_apart ty b rows :
  rows_ok ty rows ->
  ForallOrdPairs (apart (fun r => set_range (unclamp_range (b - 1) r) r))
    (List.filter (fun r => negb (starts_from b r)) rows).
Proof.
  intros Hok. pose proof (kept_rows_ok ty (fun r => negb (starts_from b r)) rows Hok) as Hk.
  assert (forall r, r ∈ List.filter (fun r => negb (starts_from b r)) rows ->
            row_ok ty r /\ starts_from b r = false) as Hr.
  { intros r Hin. split; [by apply Hk|].
    apply list_elem_of_In, List.filter_In in Hin as [_ Hn]. by apply negb_true_iff. }
  pose proof (proj1 (single_pairs _) (rk_single ty _ Hk)) as Hp. revert Hr Hp.
  generalize (List.filter (fun r => negb (starts_from b r)) rows) as l. intros l Hr Hp.
  assert (forall r d n, r ∈ l -> row_at d n r = true -> row_at d (Z.min n (b - 1)) r = true) as H1.
  { intros r d n Hin [? ?]%andb_true_iff. destruct (Hr r Hin). apply andb_true_iff.
    split; [done|by eapply contained_before]. }
  assert (forall r d n, r ∈ l -> row_at d n (set_range (unclamp_range (b - 1) r) r) = true ->
            row_at d (Z.min n (b - 1)) r = true) as H2.
  { intros r d n Hin. destruct (Hr r Hin). rewrite row_at_set, (unclamp_contains ty) by done. done. }
  clear Hr. induction Hp as [|a l Ha Hl IH]; constructor.
  - rewrite List.Forall_forall in *. intros c Hc. specialize (Ha c Hc).
    assert (c ∈ a :: l) by (right; by apply list_elem_of_In).
    assert (a ∈ a :: l) by (by left).
    split_and!; intros d n X Y; apply (Ha d (Z.min n (b - 1))); auto.
  - apply IH; intros r d n Hin; [apply H1|apply H2]; by right.
Qed.

(** After a revert the data at any block is that of the block, or of the last
    block that is left. *)
Lemma reverted_rows ty b rows :
  rows_ok ty rows ->
  rows_ok ty (reverted b rows)
  /\ forall n d, data_at (reverted b rows) n d = data_at rows (Z.min n (b - 1)) d.
Proof.
  intros Hok. pose proof (kept_rows_ok ty (fun r => negb (starts_from b r)) rows Hok) as Hk.
  assert (forall r, r ∈ List.filter (fun r => negb (starts_from b r)) rows <->
            r ∈ rows /\ starts_from b r = false) as Hin.
  { intros r. rewrite !list_elem_of_In, List.filter_In, negb_true_iff. done. }
  destruct (set_ranges ty _ (unclamp_range (b - 1)) Hk) as [Hok' Hd].
  { intros r Hr. by eapply unclamp_ok, Hk. }
  { by eapply reverted_apart. }
  split; [done|]. intros n d. apply option_eq. intros x. unfold reverted. rewrite Hd, (data_at_iff ty) by done.
  split.
  - intros (r & [Hr Hs]%Hin & Hid & Hn & <-). exists r. split; [done|]. split; [|done].
    apply andb_true_iff. split; [done|].
    by rewrite (unclamp_contains ty) in Hn by (by try apply Hok).
  - intros (r & Hr & [Hid Hn]%andb_true_iff & <-).
    assert (starts_from b r = false) as Hs.
    { destruct (starts_from b r) eqn:E; [|done].
      rewrite (starts_later ty b r) in Hn; [done|by apply Hok|done|lia]. }
    exists r. split; [by apply Hin|]. split; [done|]. split; [|done].
    by rewrite (unclamp_contains ty) by (by try apply Hok).
Qed.
End versions.
