(* ===== verification/VersionedTables.v ===== *)
(** * Statements on tables of versions

    What the statements of [RelationalQueries] mean for the table of an entity
    type: which statement each function builds, that it succeeds, and the rows
    it leaves, in the terms of [Versions]. *)

From stdpp Require Import prelude list strings gmap.
From Stdlib Require Import ZArith Lia Ascii.
From S2P Require Import Prelude.
From S2P Require Import GraphqlTypes.
From S2P Require Import StoreValue.
From S2P Require Import EntityCache.
From S2P Require Import StoreQuery.
From S2P Require Import GraphqlSchema.
From S2P Require Import QueryBuild.
From S2P Require Import Schema.
From S2P Require Import Sql.
From S2P Require Import Layout.
From S2P Require Import RelationalQueries.
From S2P Require Import Versions.

#[local] Open Scope string_scope.
#[local] Open Scope list_scope.

Section tables.
Context {ST : ScalarText} {PT : PgText} `{HashOrder}.

Abbreviation MAX := BLOCK_NUMBER_MAX.

(** ** Tables that can be created *)

(** Columns have different names, also from [block_range], as [create table]
    demands, and the id is not a list. *)
Record table_wf (ty : IdType) (t : Table) : Prop := mk_table_wf {
  tw_columns : NoDup ((col_name <$> tb_columns t) ++ [BLOCK_RANGE_COLUMN]);
  tw_fields : NoDup (col_field <$> tb_columns t);
  tw_id : exists pk, primary_key t = Ok pk /\ col_field pk = "id" /\ col_is_list pk = false
                     /\ id_type (col_type pk) = Ok ty;
}.

(** An id as the database has it. *)
Definition id_value (ty : IdType) (id : string) : sres Datum :=
  match ty with
  | IdString => Ok (DText id)
  | IdBytes => res_map DBytea (bytes_of_str id)
  end.

Lemma id_value_datum ty id d : id_value ty id = Ok d -> id_datum ty d.
Proof. destruct ty; cbn; [by intros [= <-]|]. destruct (bytes_of_str id); cbn; [by intros [= <-]|done..]. Qed.

Lemma id_sql_type_of ct ty : id_type ct = Ok ty -> sql_type ct = id_sql_type ty.
Proof. by destruct ct; intros [= <-]. Qed.

Lemma find_fmap {A B} (f : A -> B) (p : B -> bool) l :
  List.find p (f <$> l) = f <$> List.find (fun a => p (f a)) l.
Proof. induction l as [|a l IH]; [done|]. cbn. by destruct (p (f a)). Qed.

Lemma find_app {A} (p : A -> bool) l k :
  List.find p (l ++ k) = match List.find p l with Some a => Some a | None => List.find p k end.
Proof. induction l as [|a l IH]; [done|]. cbn. by destruct (p a). Qed.

Lemma column_def_ddl t c :
  column_def (table_ddl t) c
  = match List.find (fun col => String.eqb (col_name col) c) (tb_columns t) with
    | Some col => Some (column_ddl col)
    | None => if String.eqb BLOCK_RANGE_COLUMN c
              then Some (mk_column_def BLOCK_RANGE_COLUMN TInt4Range true) else None
    end.
Proof.
  unfold column_def, table_ddl. cbn [td_columns]. rewrite find_app, find_fmap. cbn [cd_name column_ddl].
  by destruct (List.find _ (tb_columns t)).
Qed.

Lemma find_column (l : list Column) c :
  NoDup (col_name <$> l) -> c ∈ l -> List.find (fun col => String.eqb (col_name col) (col_name c)) l = Some c.
Proof.
  induction l as [|a l IH]; [by intros _ ?%not_elem_of_nil|]. rewrite fmap_cons.
  intros [Ha Hl]%NoDup_cons Hc. cbn [List.find]. apply elem_of_cons in Hc as [-> |Hc].
  - by rewrite String.eqb_refl.
  - destruct (String.eqb_spec (col_name a) (col_name c)) as [E|]; [|by apply IH].
    destruct Ha. rewrite E. by apply list_elem_of_fmap_2.
Qed.

Lemma tw_names ty t : table_wf ty t -> NoDup (col_name <$> tb_columns t).
Proof. intros [Hn _ _]. by apply NoDup_app in Hn as [? _]. Qed.

Lemma tw_not_range ty t c : table_wf ty t -> c ∈ tb_columns t -> col_name c <> BLOCK_RANGE_COLUMN.
Proof.
  intros [Hn _ _] Hc E. apply NoDup_app in Hn as (_ & Hn & _). apply (Hn BLOCK_RANGE_COLUMN); [|by left].
  rewrite <- E. by apply list_elem_of_fmap_2.
Qed.

Lemma column_def_column ty t c :
  table_wf ty t -> c ∈ tb_columns t -> column_def (table_ddl t) (col_name c) = Some (column_ddl c).
Proof. intros Hw Hc. rewrite column_def_ddl, find_column; [done|by eapply tw_names|done]. Qed.

Lemma column_def_range ty t :
  table_wf ty t ->
  column_def (table_ddl t) BLOCK_RANGE_COLUMN = Some (mk_column_def BLOCK_RANGE_COLUMN TInt4Range true).
Proof.
  intros Hw. rewrite column_def_ddl. destruct (List.find _ _) as [c|] eqn:E; [|done].
  apply List.find_some in E as [Hc%list_elem_of_In E%String.eqb_eq]. by destruct (tw_not_range ty t c Hw Hc).
Qed.

Lemma primary_key_column t pk :
  primary_key t = Ok pk -> pk ∈ tb_columns t /\ col_name pk = PRIMARY_KEY_COLUMN.
Proof.
  unfold primary_key. destruct (List.find _ _) as [c|] eqn:E; [|done]. intros [= ->].
  apply List.find_some in E as [Hc E]. split; [by apply list_elem_of_In|]. by apply String.eqb_eq in E.
Qed.

Lemma def_ok_ddl ty t : table_wf ty t -> def_ok ty (table_ddl t).
Proof.
  intros Hw. destruct (tw_id ty t Hw) as (pk & Hpk & _ & Hl & Hty).
  apply primary_key_column in Hpk as [Hin Hn]. split; [done| |].
  - exists (column_ddl pk). split; [|unfold column_ddl; cbn; rewrite Hl; by apply id_sql_type_of].
    change "id" with PRIMARY_KEY_COLUMN. rewrite <- Hn. by eapply column_def_column.
  - eexists. split; [by eapply column_def_range|done].
Qed.

(** The table is in the database, in good order. *)
Record table_in (db : Database) (ty : IdType) (t : Table) (ts : TableState) : Prop := mk_table_in {
  ti_table : db_tables db !! tb_qualified_name t = Some ts;
  ti_def : ts_def ts = table_ddl t;
  ti_ok : table_ok ty ts;
}.

(** ** Conditions *)
Definition id_condition (ty : IdType) (d : Datum) : SqlExpr :=
  ECmp CmpEq (EColumn "id") (ECast (EBind d) (id_sql_type ty)).

Lemma table_id_eq_ok ty t id d :
  table_wf ty t -> id_value ty id = Ok d -> table_id_eq t id = Ok (id_condition ty d).
Proof.
  intros Hw Hd. destruct (tw_id ty t Hw) as (pk & Hpk & _ & _ & Hty).
  apply primary_key_column in Hpk as Hn. destruct Hn as [_ Hn].
  unfold table_id_eq. rewrite Hpk. cbn [lift_panic res_bind]. unfold id_eq, bind_id. rewrite Hty.
  cbn [lift_panic res_bind]. unfold id_value in Hd. rewrite Hd. cbn [res_bind].
  unfold id_condition. by rewrite (id_sql_type_of _ _ Hty), Hn.
Qed.

Lemma eval_id_condition enums ty r d :
  row_ok ty r -> id_datum ty d -> eval enums r (id_condition ty d) = Ok (DBool (same_id (row_id r) d)).
Proof.
  intros [Hi _ _] Hd. unfold id_condition. cbn [eval]. fold (row_id r).
  unfold same_id. destruct ty, d; try done; destruct (row_id r); try done; cbn.
  - by destruct (String.eqb _ _).
  - by destruct (bool_decide _).
Qed.

Lemma eval_and_bool enums r e1 e2 a b :
  eval enums r e1 = Ok (DBool a) -> eval enums r e2 = Ok (DBool b) ->
  selects_row enums (EAnd e1 e2) r = Ok (a && b).
Proof. intros E1 E2. by apply selects_bool, eval_and. Qed.

Lemma known_columns t es :
  (forall c, c ∈ es ≫= expr_columns -> is_Some (column_def t c)) -> check_columns t es = Ok ().
Proof.
  intros Hc. unfold check_columns.
  assert (forallb (fun c => bool_decide (is_Some (column_def t c))) (es ≫= expr_columns) = true) as ->; [|done].
  apply List.forallb_forall. intros c Hin%list_elem_of_In. by apply bool_decide_eq_true, Hc.
Qed.

(** The columns [id] and [block_range] are there. *)
Lemma checks_of_range ty t es :
  table_wf ty t -> Forall (fun c => c = "id" \/ c = BLOCK_RANGE_COLUMN) (es ≫= expr_columns) ->
  check_columns (table_ddl t) es = Ok ().
Proof.
  intros Hw Hes. rewrite Forall_forall in Hes. apply known_columns. intros c Hc.
  destruct (Hes c Hc) as [-> | ->].
  - destruct (def_ok_ddl ty t Hw) as [_ (d & -> & _) _]. by eexists.
  - rewrite (column_def_range ty t Hw). by eexists.
Qed.

Ltac range_columns := cbn; repeat (apply Forall_cons_2; [by auto|]); by apply Forall_nil_2.

Lemma set_range_self ty r : row_ok ty r -> set_range (row_range r) r = r.
Proof.
  intros [_ Hr _]. apply insert_id. unfold column_of in Hr. destruct (r !! "block_range") as [x|]; [|done].
  by cbn in Hr; subst.
Qed.

(** An update of the range. *)
Lemma update_range_row enums ty t r e rg :
  table_wf ty t -> check_not_null (table_ddl t) r = Ok () ->
  eval enums r e = Ok (DRange rg) ->
  update_row enums (table_ddl t) [(BLOCK_RANGE_COLUMN, e)] r = Ok (set_range rg r).
Proof.
  intros Hw Hn He. unfold update_row. cbn [map_res fmap list_fmap fst snd]. rewrite He. cbn [res_bind].
  unfold assign_columns. cbn [fold_res fst snd]. unfold assign_column.
  rewrite (column_def_range ty t Hw). cbn [ok_or res_bind cd_type has_type].
  change (<[BLOCK_RANGE_COLUMN := DRange rg]> r) with (set_range rg r). by rewrite (not_null_set _ rg r Hn).
Qed.

(** ** Clamping *)
Definition clamp_row (d : Datum) (b : Z) (r : Row) : Row := set_range (clamp_range d b r) r.

Definition clamp_statement (ty : IdType) (t : Table) (d : Datum) (b : Z) : Statement :=
  SUpdate (tb_qualified_name t)
    [(BLOCK_RANGE_COLUMN, EInt4Range (ELower block_range) (int_literal b))]
    (EAnd (id_condition ty d) BLOCK_RANGE_CURRENT) [].

Lemma clamp_range_query_ok ty t key d b :
  table_wf ty t -> id_value ty (key_entity_id key) = Ok d ->
  clamp_range_query t key b = Ok (clamp_statement ty t d b).
Proof. intros Hw Hd. unfold clamp_range_query. by rewrite (table_id_eq_ok ty t _ d Hw Hd). Qed.

Lemma clamp_selects enums ty r d :
  row_ok ty r -> id_datum ty d ->
  selects_row enums (EAnd (id_condition ty d) BLOCK_RANGE_CURRENT) r = Ok (row_at d MAX r).
Proof.
  intros Hr Hd. apply eval_and_bool; [by apply eval_id_condition|by eapply eval_contains].
Qed.

Lemma eval_clamped enums ty r b :
  row_ok ty r ->
  eval enums r (EInt4Range (ELower block_range) (int_literal b))
  = res_map DRange (int4range (range_lower (row_range r)) (Some b)).
Proof.
  intros Hr. cbn. rewrite (range_column ty r Hr). cbn. by destruct (range_lower (row_range r)).
Qed.

Lemma clamp_checks ty t d b :
  table_wf ty t ->
  check_columns (table_ddl t)
    [EAnd (id_condition ty d) BLOCK_RANGE_CURRENT; EInt4Range (ELower block_range) (int_literal b)] = Ok ().
Proof.
  intros Hw. apply (checks_of_range ty); [done|]. range_columns.
Qed.

Lemma clamp_row_update ty d b (rows : list Row) r :
  (forall r, r ∈ rows -> row_ok ty r) -> r ∈ rows ->
  update_map (row_at d MAX) (fun r => set_range (clamped b (row_range r)) r) r = clamp_row d b r.
Proof.
  intros Hr Hin. unfold update_map, clamp_row, clamp_range. destruct (row_at d MAX r); [done|].
  by rewrite (set_range_self ty r (Hr r Hin)).
Qed.

(** Clamping succeeds if the current version begins no later than [b]. *)
Lemma meaning_clamp db ty t ts d b :
  table_wf ty t -> table_in db ty t ts -> id_datum ty d -> (b < MAX)%Z -> can_clamp d b (ts_rows ts) ->
  meaning db (clamp_statement ty t d b)
  = Ok (with_rows db (tb_qualified_name t) ts (clamp_row d b <$> ts_rows ts),
        mk_outcome [] (length (List.filter (row_at d MAX) (ts_rows ts)))).
Proof.
  intros Hw [Ht Hd [_ Hok Hnn]] Hid Hb Hc.
  destruct (clamp_rows ty d b (ts_rows ts) Hok Hb Hc) as (Hap & Hro & _ & _).
  pose proof (rk_rows ty _ Hok) as Hr.
  apply (meaning_update _ _ _ _ _ _ ty _ (fun r => set_range (clamped b (row_range r)) r)); try done.
  - rewrite Hd. by apply clamp_checks.
  - by rewrite Hd.
  - intros r Hin. apply (clamp_selects _ ty); [by apply Hr|done].
  - intros r Hin Hcur. rewrite Hd. apply (update_range_row _ ty); [done|rewrite <- Hd; by apply Hnn|].
    rewrite (eval_clamped _ ty) by (by apply Hr). destruct (current_range ty d r (Hr r Hin) Hcur) as [l El].
    specialize (Hc r Hin Hcur). rewrite El in *. unfold clamped. cbn in *.
    destruct (Z.ltb_spec l b); [done|]. destruct (Z.eqb_spec l b); [done|lia].
  - intros r Hin. by apply (clamp_row_update ty _ _ (ts_rows ts)).
  - intros r Hin. split; [by apply Hr|]. by apply row_ok_set; [apply Hr|apply Hro].
Qed.

(** It fails if the current version begins later. *)
Lemma map_res_err {E A B} (f : A -> res E B) l x e :
  x ∈ l -> f x = Err e -> (forall y, y ∈ l -> f y = Err e \/ exists b, f y = Ok b) -> map_res f l = Err e.
Proof.
  intros Hx Ex Hf. induction l as [|a l IH]; [by apply not_elem_of_nil in Hx|]. rewrite map_res_cons.
  destruct (Hf a) as [-> |[b Eb]]; [by left|done|]. rewrite Eb. cbn [res_bind].
  apply elem_of_cons in Hx as [-> |Hx]; [congruence|]. rewrite IH; [done|done|].
  intros y Hy. apply Hf. by right.
Qed.

Lemma meaning_clamp_early db ty t ts d b r l :
  table_wf ty t -> table_in db ty t ts -> id_datum ty d -> r ∈ ts_rows ts -> row_at d MAX r = true ->
  range_lower (row_range r) = Some l -> (b < l)%Z ->
  meaning db (clamp_statement ty t d b) = Err RangeBoundsOrder.
Proof.
  intros Hw [Ht Hd [_ Hok Hnn]] Hid Hin Hcur El Hb. pose proof (rk_rows ty _ Hok) as Hr.
  unfold meaning, clamp_statement, get_table. rewrite Ht. cbn [ok_or res_bind]. rewrite Hd.
  pose proof (clamp_checks ty t d b Hw) as Hck. cbn [fmap list_fmap app snd]. rewrite Hck. cbn [res_bind].
  assert (update_row (db_enums db) (table_ddl t)
            [(BLOCK_RANGE_COLUMN, EInt4Range (ELower block_range) (int_literal b))] r
          = Err RangeBoundsOrder) as Hu.
  { unfold update_row. cbn [map_res fst snd]. rewrite (eval_clamped _ ty) by (by apply Hr).
    rewrite El. cbn [int4range]. destruct (Z.ltb_spec l b); [lia|]. by destruct (Z.eqb_spec l b); [lia|]. }
  unfold update_rows. rewrite (map_res_err _ _ r RangeBoundsOrder); [done|done| |].
  - rewrite (clamp_selects _ ty) by (by try apply Hr). cbn [res_bind]. by rewrite Hcur, Hu.
  - intros a Ha. rewrite (clamp_selects _ ty) by (by try apply Hr). cbn [res_bind].
    destruct (row_at d MAX a) eqn:Ea; [|right; eauto].
    assert (Some a = Some r) as [= ->].
    { rewrite <- (proj2 (version_iff _ MAX d a (rk_single ty _ Hok))) by done.
      by apply (version_iff _ MAX d r (rk_single ty _ Hok)). }
    left. by rewrite Hu.
Qed.

(** ** Reverting *)
(** The id of a row as the statement returns it. *)
Definition id_text (d : Datum) : string :=
  match d with DText s => s | DBytea b => bytea_text b | _ => "" end.

Lemma returned_ids enums ty rows :
  (forall r, r ∈ rows -> row_ok ty r) ->
  returned enums [id_as_text] rows = Ok ((fun r => [DText (id_text (row_id r))]) <$> rows).
Proof.
  intros Hr. unfold returned. apply map_res_all_ok. intros r Hin. cbn [map_res fmap list_fmap].
  pose proof (ro_id ty r (Hr r Hin)) as Hi. unfold id_as_text, PRIMARY_KEY_COLUMN. cbn [eval res_bind].
  fold (row_id r). destruct ty, (row_id r); done.
Qed.

Lemma meaning_revert_remove db ty t ts b :
  table_wf ty t -> table_in db ty t ts ->
  meaning db (revert_remove_query t b)
  = Ok (with_rows db (tb_qualified_name t) ts (List.filter (fun r => negb (starts_from b r)) (ts_rows ts)),
        mk_outcome ((fun r => [DText (id_text (row_id r))]) <$> List.filter (starts_from b) (ts_rows ts))
          (length (List.filter (starts_from b) (ts_rows ts)))).
Proof.
  intros Hw [Ht Hd [_ Hok Hnn]]. pose proof (rk_rows ty _ Hok) as Hr.
  apply meaning_delete; [done| | |].
  - rewrite Hd. apply (checks_of_range ty); [done|]. range_columns.
  - intros r Hin. apply (selects_revert_remove _ ty). by apply Hr.
  - apply (returned_ids _ ty). intros r Hin%list_elem_of_In%List.filter_In. apply Hr, list_elem_of_In, Hin.
Qed.

Definition unclamp_row (n : Z) (r : Row) : Row := set_range (unclamp_range n r) r.

Lemma unclamp_row_update ty n (rows : list Row) r :
  (forall r, r ∈ rows -> row_ok ty r) -> r ∈ rows ->
  update_map (ended_after n) (fun r => set_range (RangeBounds (range_lower (row_range r)) None) r) r
  = unclamp_row n r.
Proof.
  intros Hr Hin. unfold update_map, unclamp_row, unclamp_range. destruct (ended_after n r); [done|].
  by rewrite (set_range_self ty r (Hr r Hin)).
Qed.

Lemma unclamp_checks ty t n :
  table_wf ty t ->
  match revert_clamp_query t n with
  | SUpdate _ sets where_ returning => check_columns (table_ddl t) (where_ :: sets.*2 ++ returning) = Ok ()
  | _ => False
  end.
Proof. intros Hw. apply (checks_of_range ty); [done|]. range_columns. Qed.

Lemma meaning_revert_clamp db ty t ts n :
  table_wf ty t -> table_in db ty t ts -> ForallOrdPairs (apart (unclamp_row n)) (ts_rows ts) ->
  meaning db (revert_clamp_query t n)
  = Ok (with_rows db (tb_qualified_name t) ts (unclamp_row n <$> ts_rows ts),
        mk_outcome ((fun r => [DText (id_text (row_id r))]) <$> List.filter (ended_after n) (ts_rows ts))
          (length (List.filter (ended_after n) (ts_rows ts)))).
Proof.
  intros Hw [Ht Hd [_ Hok Hnn]] Hap. pose proof (rk_rows ty _ Hok) as Hr.
  set (f := fun r : Row => set_range (RangeBounds (range_lower (row_range r)) None) r).
  apply (meaning_update _ _ _ _ _ _ ty _ f); try done.
  - rewrite Hd. apply (unclamp_checks ty t n Hw).
  - by rewrite Hd.
  - intros r Hin. apply (selects_revert_clamp _ ty). by apply Hr.
  - intros r Hin _. rewrite Hd. apply (update_range_row _ ty); [done|rewrite <- Hd; by apply Hnn|].
    cbn. rewrite (range_column ty r (Hr r Hin)). cbn. by destruct (range_lower (row_range r)).
  - intros r Hin. by apply (unclamp_row_update ty _ (ts_rows ts)).
  - intros r Hin. split; [by apply Hr|].
    apply row_ok_set; [by apply Hr|]. apply (unclamp_ok ty). by apply Hr.
  - assert ((fun r : Row => [DText (id_text (row_id r))]) <$> List.filter (ended_after n) (ts_rows ts)
            = (fun r => [DText (id_text (row_id r))]) <$> (f <$> List.filter (ended_after n) (ts_rows ts))) as ->.
    { rewrite <- list_fmap_compose. apply list_fmap_ext. intros i r _. unfold f. cbn. by rewrite set_range_id. }
    apply (returned_ids _ ty). intros a (r & -> & Hin%list_elem_of_In%List.filter_In)%list_elem_of_fmap.
    destruct Hin as [Hin%list_elem_of_In Hend]. specialize (Hr r Hin). unfold f.
    apply row_ok_set; [done|].
    pose proof (unclamp_ok ty n r Hr) as Hu. unfold unclamp_range in Hu. by rewrite Hend in Hu.
Qed.

(** ** Finding *)
Lemma block_range_columns t n c : c ∈ expr_columns (block_range_contains t n) -> c = BLOCK_RANGE_COLUMN.
Proof.
  unfold block_range_contains. destruct (_ && _); cbn; intros Hc;
    repeat (apply elem_of_cons in Hc as [-> |Hc]; [done|]); by apply not_elem_of_nil in Hc.
Qed.

Definition find_statement (ty : IdType) (t : Table) (d : Datum) (n : Z) : Statement :=
  SSelect [select_entity t (EAnd (id_condition ty d) (block_range_contains t n))].

Lemma find_query_ok ty t id d n :
  table_wf ty t -> id_value ty id = Ok d -> find_query t id n = Ok (find_statement ty t d n).
Proof. intros Hw Hd. unfold find_query. by rewrite (table_id_eq_ok ty t _ d Hw Hd). Qed.

Lemma version_filter ty rows n d :
  rows_ok ty rows -> List.filter (row_at d n) rows = option_list (version rows n d).
Proof.
  intros [_ Hs]. specialize (Hs d n). unfold version.
  destruct (List.filter (row_at d n) rows) as [|a [|b l]]; [done..|cbn in Hs; lia].
Qed.

(** The statement of [find] returns the version, if there is one. *)
Lemma meaning_find db ty t ts d n :
  table_wf ty t -> table_in db ty t ts -> id_datum ty d ->
  meaning db (find_statement ty t d n)
  = Ok (db, let rows := (fun r => [DText (tb_object t); DJson (row_json r)])
                          <$> option_list (version (ts_rows ts) n d) in
            mk_outcome rows (length rows)).
Proof.
  intros Hw [Ht Hd [_ Hok Hnn]] Hid. pose proof (rk_rows ty _ Hok) as Hr.
  unfold meaning, find_statement, select_entity. cbn [map_res]. unfold select_block at 1, get_table.
  cbn [sb_table sb_where sb_outputs]. rewrite Ht. cbn [ok_or res_bind].
  assert (check_columns (ts_def ts) [EAnd (id_condition ty d) (block_range_contains t n);
            EBind (DText (tb_object t)); ERowJson] = Ok ()) as ->.
  { rewrite Hd. apply (checks_of_range ty); [done|]. cbn. rewrite app_nil_r. apply Forall_cons_2; [by auto|].
    apply Forall_forall. intros c Hc%block_range_columns. auto. }
  cbn [res_bind]. rewrite (filter_res_bool _ (row_at d n)).
  - cbn [res_bind]. rewrite (version_filter ty) by done.
    rewrite (map_res_all_ok _ (fun r => [DText (tb_object t); DJson (row_json r)])) by done.
    cbn [res_bind mjoin list_join]. by rewrite app_nil_r.
  - intros r Hin. apply eval_and_bool; [by apply eval_id_condition, Hid; apply Hr|].
    by eapply eval_block_range_contains, Hr.
Qed.
End tables.
