(* ===== verification/Reverts.v ===== *)
(** * What a revert reports

    Reverting a block of a table removes the versions that start from it on
    and makes versions that ended in it current again.  This file relates the
    ids that the two statements return to the data at the blocks: which
    entities appear, disappear or stay the same, and how their number
    changes. *)

From stdpp Require Import prelude list strings gmap.
From Stdlib Require Import ZArith Lia Ascii.
From S2P Require Import Prelude.
From S2P Require Import GraphqlTypes.
From S2P Require Import StoreValue.
From S2P Require Import StoreQuery.
From S2P Require Import GraphqlSchema.
From S2P Require Import Schema.
From S2P Require Import Sql.
From S2P Require Import Layout.
From S2P Require Import RelationalQueries.
From S2P Require Import ColumnValues.
From S2P Require Import Versions.
From S2P Require Import VersionedTables.

#[local] Open Scope string_scope.
#[local] Open Scope list_scope.

Section reverts.
Context {ST : ScalarText} {STL : ScalarTextLaws} {PT : PgText} {PTL : PgTextLaws} `{HashOrder}.

Abbreviation MAX := BLOCK_NUMBER_MAX.

(** An id as the store reports it. *)
Definition id_str (d : Datum) : string :=
  match d with DText s => s | DBytea b => hex_encode b | _ => "" end.

Lemma id_str_inj ty d d' : id_datum ty d -> id_datum ty d' -> id_str d = id_str d' -> d = d'.
Proof.
  destruct ty, d, d'; try done; cbn; intros _ _ E; [congruence|]. f_equal.
  pose proof (hex_roundtrip b) as E1. rewrite E, hex_roundtrip in E1. by injection E1.
Qed.

(** The ids of the rows that satisfy [p]. *)
Definition ids_of (p : Row -> bool) (rows : list Row) : gset string :=
  list_to_set ((fun r => id_str (row_id r)) <$> List.filter p rows).

Lemma elem_ids_of p rows s :
  s ∈ ids_of p rows <-> exists r, r ∈ rows /\ p r = true /\ id_str (row_id r) = s.
Proof.
  unfold ids_of. rewrite elem_of_list_to_set, list_elem_of_fmap. split.
  - intros (r & -> & Hin%list_elem_of_In%List.filter_In). destruct Hin as [Hin%list_elem_of_In Hp]. eauto.
  - intros (r & Hin & Hp & <-). exists r. split; [done|]. apply list_elem_of_In, List.filter_In.
    by rewrite <- list_elem_of_In.
Qed.

Lemma ids_of_permutation p rows rows' : rows ≡ₚ rows' -> ids_of p rows = ids_of p rows'.
Proof. intros E. apply set_eq. intros s. rewrite !elem_ids_of. by setoid_rewrite E. Qed.

(** The ids of the entities at a block. *)
Definition live (rows : list Row) (n : Z) : gset string :=
  ids_of (fun r => range_contains (row_range r) n) rows.

Lemma elem_live ty rows n d :
  rows_ok ty rows -> id_datum ty d -> id_str d ∈ live rows n <-> is_Some (data_at rows n d).
Proof.
  intros Hok Hd. unfold live. rewrite elem_ids_of. split.
  - intros (r & Hin & Hn & E). exists (row_data r). apply (data_at_iff ty); [done|]. exists r. split; [done|].
    split; [|done]. apply id_str_inj with (ty := ty) in E; [|by apply (ro_id ty), Hok|done].
    apply andb_true_iff. split; [|done]. rewrite E. by eapply same_id_refl.
  - intros (x & (r & Hin & [Hd' Hn]%andb_true_iff & _)%(data_at_iff ty)); [|done]. exists r.
    apply (same_id_eq ty) in Hd' as <-; [done|]. by apply (ro_id ty), Hok.
Qed.

(** Two rows with the same id at the same block are the same. *)
Lemma same_row ty rows r r' n :
  rows_ok ty rows -> r ∈ rows -> r' ∈ rows -> id_str (row_id r) = id_str (row_id r') ->
  range_contains (row_range r) n = true -> range_contains (row_range r') n = true -> r = r'.
Proof.
  intros Hok Hin Hin' E Hn Hn'. pose proof (rk_rows ty rows Hok) as Hr.
  apply id_str_inj with (ty := ty) in E; [|by apply (ro_id ty), Hr..].
  assert (Some r = Some r') as [= ->]; [|done].
  rewrite <- (proj2 (version_iff rows n (row_id r') r (rk_single ty rows Hok))).
  - apply (version_iff rows n (row_id r') r' (rk_single ty rows Hok)). split; [done|].
    apply andb_true_iff. split; [by eapply same_id_refl, ro_id, Hr|done].
  - split; [done|]. apply andb_true_iff. split; [|done]. rewrite E. by eapply same_id_refl, ro_id, Hr.
Qed.

(** The ranges of rows that start from [b] on and of rows that ended after it. *)
Lemma starts_from_range ty b r :
  row_ok ty r -> starts_from b r = true ->
  exists l u, row_range r = RangeBounds (Some l) u /\ (b <= l)%Z /\ range_contains (row_range r) l = true.
Proof.
  intros [_ _ Hb]. unfold starts_from. destruct (row_range r) as [|[l|] u]; cbn [range_lower]; try done.
  intros Hl%Z.leb_le. exists l, u. split; [done|]. split; [done|]. apply contains_bounds.
  split; [lia|]. destruct u; [cbn in Hb; lia|done].
Qed.

Lemma not_ended ty n r :
  row_ok ty r -> ended_after n r = false -> range_contains (row_range r) n = true ->
  exists l, row_range r = RangeBounds (Some l) None /\ (l <= n)%Z.
Proof.
  intros [_ _ Hb] He Hn. unfold ended_after in He. rewrite Hn in He. cbn in He. apply negb_false_iff in He.
  apply contains_max in He as [l El]; [|done]. exists l. split; [done|]. rewrite El in Hn.
  apply contains_bounds in Hn. lia.
Qed.

Definition removed_ids (b : Z) (rows : list Row) : gset string := ids_of (starts_from b) rows.
Definition unclamped_ids (b : Z) (rows : list Row) : gset string := ids_of (ended_after (b - 1)) rows.

Lemma unclamped_live b rows s : s ∈ unclamped_ids b rows -> s ∈ live rows (b - 1).
Proof.
  unfold unclamped_ids, live. rewrite !elem_ids_of. intros (r & Hin & [Hn _]%andb_true_iff & E). eauto.
Qed.

Lemma deleted_not_live ty b rows s :
  rows_ok ty rows -> s ∈ removed_ids b rows -> s ∉ unclamped_ids b rows -> s ∉ live rows (b - 1).
Proof.
  intros Hok. unfold removed_ids, unclamped_ids, live. rewrite !elem_ids_of.
  intros (r & Hin & Hs & E) Hu (r2 & Hin2 & Hn & E2). pose proof (rk_rows ty rows Hok) as Hr.
  destruct (starts_from_range ty b r (Hr r Hin) Hs) as (l & u & El & Hl & Hc).
  destruct (ended_after (b - 1) r2) eqn:He; [by destruct Hu; eauto|].
  destruct (not_ended ty (b - 1) r2 (Hr r2 Hin2) He Hn) as (l2 & El2 & Hl2).
  assert (r = r2) as ->.
  { apply (same_row ty rows r r2 l); try done; [congruence|]. rewrite El2. apply contains_bounds. lia. }
  rewrite El2 in El. injection El as -> _. lia.
Qed.

Lemma unreported_same ty b rows d :
  rows_ok ty rows -> id_datum ty d -> (b <= MAX)%Z ->
  id_str d ∉ removed_ids b rows -> id_str d ∉ unclamped_ids b rows ->
  data_at rows (b - 1) d = data_at rows MAX d.
Proof.
  intros Hok Hd Hb. unfold removed_ids, unclamped_ids. rewrite !elem_ids_of. intros Hrem Hun.
  pose proof (rk_rows ty rows Hok) as Hr.
  assert (forall r, r ∈ rows -> same_id (row_id r) d = true ->
            range_contains (row_range r) (b - 1) = range_contains (row_range r) MAX) as Hsame.
  { intros r Hin Hid. apply (same_id_eq ty) in Hid; [|by apply (ro_id ty), Hr].
    destruct (starts_from b r) eqn:Es; [by destruct Hrem; exists r; rewrite Hid|].
    destruct (ended_after (b - 1) r) eqn:Ee; [by destruct Hun; exists r; rewrite Hid|].
    pose proof (ro_bounds ty r (Hr r Hin)) as Hbo. unfold starts_from in Es. unfold ended_after in Ee.
    destruct (row_range r) as [|[l|] u]; try done. cbn [range_lower] in Es. apply Z.leb_gt in Es.
    apply eq_true_iff_eq. rewrite !contains_bounds.
    apply andb_false_iff in Ee as [Ee|Ee%negb_false_iff%contains_bounds].
    - apply not_true_iff_false in Ee. rewrite contains_bounds in Ee. split; [done|].
      intros [Hl Hu]. destruct u; [cbn in Hbo; lia|]. destruct Ee. split; [lia|done].
    - split; [done|]. intros _. split; [lia|]. destruct u; [cbn in Hbo; lia|done]. }
  apply option_eq. intros x. rewrite !(data_at_iff ty) by done. unfold row_at.
  split; intros (r & Hin & [Hid Hn]%andb_true_iff & Hx); exists r; (split; [done|]); (split; [|done]);
    rewrite Hid; cbn; [rewrite <- Hsame|rewrite Hsame]; done.
Qed.

(** *** Where nothing changed after the block *)
Definition settled_row (b : Z) (r : Row) : Prop :=
  forall n m, (b <= n)%Z -> (b <= m)%Z -> range_contains (row_range r) n = range_contains (row_range r) m.

Lemma removed_live ty b rows s :
  rows_ok ty rows -> (forall r, r ∈ rows -> settled_row b r) -> (b <= MAX)%Z ->
  s ∈ removed_ids b rows -> s ∈ live rows MAX.
Proof.
  intros Hok Hs Hb. unfold removed_ids, live. rewrite !elem_ids_of. intros (r & Hin & Hst & E).
  destruct (starts_from_range ty b r (rk_rows ty rows Hok r Hin) Hst) as (l & u & El & Hl & Hc).
  exists r. split; [done|]. split; [|done]. by rewrite (Hs r Hin MAX l).
Qed.

Lemma deleted_ids ty b rows :
  rows_ok ty rows -> (forall r, r ∈ rows -> settled_row b r) -> (b <= MAX)%Z ->
  removed_ids b rows ∖ unclamped_ids b rows = live rows MAX ∖ live rows (b - 1).
Proof.
  intros Hok Hs Hb. apply set_eq. intros s. rewrite !elem_of_difference. split.
  - intros [Hr Hu]. split; [by eapply removed_live|by eapply deleted_not_live].
  - intros [Hm Hn]. split; [|intros Hu; by apply Hn, unclamped_live].
    unfold live in Hm. apply elem_ids_of in Hm as (r & Hin & Hc & E). apply elem_ids_of. exists r.
    split; [done|]. split; [|done]. apply contains_max in Hc as [l El]; [|by apply (ro_bounds ty), Hok].
    unfold starts_from. rewrite El. cbn [range_lower]. apply Z.leb_le. destruct (Z.le_gt_cases b l); [done|].
    destruct Hn. apply elem_ids_of. exists r. split; [done|]. split; [|done]. rewrite El. apply contains_bounds. lia.
Qed.

Lemma inserted_ids ty b rows :
  rows_ok ty rows -> (forall r, r ∈ rows -> settled_row b r) -> (b <= MAX)%Z ->
  unclamped_ids b rows ∖ removed_ids b rows = live rows (b - 1) ∖ live rows MAX.
Proof.
  intros Hok Hs Hb. apply set_eq. intros s. rewrite !elem_of_difference. split.
  - intros [Hu Hr]. split; [by apply unclamped_live|]. unfold live. intros Hm.
    apply elem_ids_of in Hm as (r & Hin & Hc & E).
    apply elem_ids_of in Hu as (r2 & Hin2 & [Hn2 Hm2]%andb_true_iff & E2).
    pose proof (rk_rows ty rows Hok) as Hrk.
    apply contains_max in Hc as [l El]; [|by apply (ro_bounds ty), Hrk].
    destruct (Z.le_gt_cases b l) as [Hl|Hl].
    + apply Hr, elem_ids_of. exists r. split; [done|]. split; [|done]. unfold starts_from. rewrite El.
      by apply Z.leb_le.
    + assert (r = r2) as ->.
      { apply (same_row ty rows r r2 (b - 1)); try done; [congruence|]. rewrite El. apply contains_bounds. lia. }
      apply negb_true_iff, not_true_iff_false in Hm2. apply Hm2, contains_max; [by apply (ro_bounds ty), Hrk|eauto].
  - intros [Hl Hm]. split; [|intros Hr; by eapply Hm, removed_live].
    unfold live in Hl. apply elem_ids_of in Hl as (r & Hin & Hc & E). apply elem_ids_of. exists r.
    split; [done|]. split; [|done]. unfold ended_after. rewrite Hc. cbn. apply negb_true_iff.
    apply not_true_iff_false. intros Hcm. apply Hm, elem_ids_of. eauto.
Qed.

(** The change of the number of entities. *)
Lemma size_exchange (A B : gset string) :
  (Z.of_nat (size (B ∖ A)) - Z.of_nat (size (A ∖ B)) = Z.of_nat (size B) - Z.of_nat (size A))%Z.
Proof.
  pose proof (size_union_alt A B) as E1. pose proof (size_union_alt B A) as E2.
  rewrite (union_comm_L B A) in E2. lia.
Qed.
End reverts.
