(* ===== verification/EntityRows.v ===== *)
(** * Entities as rows

    The row that [InsertQuery] writes for an entity, and the entity that
    [deserialize_with_layout] reads from a row: what is read back is what was
    written, apart from nulls and the columns for fulltext search. *)

From stdpp Require Import prelude list strings gmap.
From Stdlib Require Import ZArith Lia Ascii.
From S2P Require Import Prelude.
From S2P Require Import GraphqlTypes.
From S2P Require Import StoreValue.
From S2P Require Import EntityCache.
From S2P Require Import StoreQuery.
From S2P Require Import GraphqlSchema.
From S2P Require Import QueryBuild.
From S2P Require Import Schema.
From S2P Require Import Sql.
From S2P Require Import Layout.
From S2P Require Import RelationalQueries.
From S2P Require Import ColumnValues.
From S2P Require Import Versions.
From S2P Require Import VersionedTables.

#[local] Open Scope string_scope.
#[local] Open Scope list_scope.

(** ** Writing pairs into a map *)
Section writing.
Context {V : Type}.

Definition put (m : gmap string V) (kv : string * V) : gmap string V := <[kv.1 := kv.2]> m.

Lemma put_lookup_none l m k : k ∉ l.*1 -> foldl put m l !! k = m !! k.
Proof.
  revert m. induction l as [|[k' v'] l IH]; intros m Hk; [done|]. rewrite fmap_cons, not_elem_of_cons in Hk.
  destruct Hk as [Hn Hk]. cbn [foldl]. rewrite IH by done. unfold put. by rewrite lookup_insert_ne.
Qed.

Lemma put_lookup l m k :
  (forall v1 v2, (k, v1) ∈ l -> (k, v2) ∈ l -> v1 = v2) ->
  (forall v, (k, v) ∈ l -> foldl put m l !! k = Some v)
  /\ (k ∉ l.*1 -> foldl put m l !! k = m !! k).
Proof.
  revert m. induction l as [|[k' v'] l IH]; intros m Hf; [split; [by intros v ?%not_elem_of_nil|done]|].
  destruct (IH (put m (k', v'))) as [IH1 IH2].
  { intros v1 v2 H1 H2. apply Hf; by right. }
  cbn [foldl]. split.
  - intros v Hv. destruct (decide (k ∈ l.*1)) as [([k2 v2] & E & Hl)%list_elem_of_fmap|Hl].
    + cbn in E. subst k2. rewrite (Hf v v2); [by apply IH1|done|by right].
    + apply elem_of_cons in Hv as [[= -> ->]|Hv]; [|destruct Hl; by apply (list_elem_of_fmap_2 fst) in Hv].
      rewrite IH2 by done. unfold put. by rewrite lookup_insert_eq.
  - intros Hk. rewrite fmap_cons, not_elem_of_cons in Hk. destruct Hk as [Hn Hk]. rewrite IH2 by done.
    unfold put. by rewrite lookup_insert_ne.
Qed.

Lemma put_lookup_some l m k : k ∈ l.*1 -> exists v, (k, v) ∈ l /\ foldl put m l !! k = Some v.
Proof.
  revert m. induction l as [|[k' v'] l IH]; intros m Hk; [by apply not_elem_of_nil in Hk|]. cbn [foldl].
  destruct (decide (k ∈ l.*1)) as [Hl|Hl].
  - destruct (IH (put m (k', v')) Hl) as (v & Hv & E). exists v. split; [by right|done].
  - apply elem_of_cons in Hk as [-> |?]; [|done]. exists v'. split; [by left|].
    rewrite (put_lookup_none l _ _ Hl). unfold put. by rewrite lookup_insert_eq.
Qed.
End writing.

Section rows.
Context {ST : ScalarText} {STL : ScalarTextLaws} {PT : PgText} {PTL : PgTextLaws} `{HashOrder}.
Context (normalize : BigDecimal -> BigDecimal).
Context (enums : gmap string (gset string)).

(** ** Entities that can be stored *)

(** The columns for fulltext search are made of other columns. *)
Definition fulltext_wf (t : Table) : Prop :=
  forall c, c ∈ tb_columns t ->
    if is_tsvector c
    then col_is_list c = false /\ is_nullable c = true
         /\ exists fields, col_fulltext_fields c = Some fields
              /\ forall c', c' ∈ tb_columns t -> is_tsvector c' = true -> col_field c' ∉ fields
    else col_fulltext_fields c = None.

Record storable (t : Table) (entity : Entity) : Prop := mk_storable {
  so_values c v :
    c ∈ tb_columns t -> is_tsvector c = false -> entity !! col_field c = Some v ->
    exists d, column_stores normalize enums c v d;
  so_required c :
    c ∈ tb_columns t -> is_nullable c = false -> exists v, entity !! col_field c = Some v /\ v <> VNull;
  so_fulltext c fields f v :
    c ∈ tb_columns t -> col_fulltext_fields c = Some fields -> f ∈ fields ->
    entity !! f = Some v -> exists s, v = VString s;
  so_vectors c : c ∈ tb_columns t -> is_tsvector c = true -> entity !! col_field c = None;
}.

(** What [InsertQuery_new] makes of the entity: fulltext columns are added. *)
Record with_vectors (t : Table) (entity e : Entity) : Prop := mk_with_vectors {
  wv_other k : (forall c, c ∈ tb_columns t -> is_tsvector c = true -> col_field c <> k) -> e !! k = entity !! k;
  wv_vectors c v :
    c ∈ tb_columns t -> is_tsvector c = true -> e !! col_field c = Some v ->
    exists l, v = VList l /\ Forall (fun v => exists s, v = VString s) l;
}.

Lemma set_elements_elem (s : gset string) x : x ∈ set_elements s <-> x ∈ s.
Proof.
  unfold set_elements. rewrite list_elem_of_fmap. split.
  - intros ([y []] & -> & Hy%hash_iter_elem). by apply lookup_gset_to_gmap_Some in Hy as [? _].
  - intros Hx. exists (x, tt). split; [done|]. by apply hash_iter_elem, lookup_gset_to_gmap_Some.
Qed.

Lemma add_fulltext_ok t entity e c :
  fulltext_wf t -> storable t entity -> with_vectors t entity e -> c ∈ tb_columns t ->
  with_vectors t entity (add_fulltext c e).
Proof.
  intros Hf Hs [Ho Hv] Hc. unfold add_fulltext. specialize (Hf c Hc).
  destruct (is_tsvector c) eqn:Ets; [|by rewrite Hf].
  destruct Hf as (_ & _ & fields & Ef & Hn). rewrite Ef.
  destruct (omap _ _) as [|v l] eqn:El; [done|]. split.
  - intros k Hk. rewrite lookup_insert_ne by (by apply Hk). by apply Ho.
  - intros c' w Hc' Hts. destruct (decide (col_field c = col_field c')) as [<-|Hne].
    + rewrite lookup_insert_eq. intros [= <-]. eexists. split; [done|]. rewrite <- El.
      apply Forall_forall. intros x Hin. apply list_elem_of_omap in Hin as (f & Hfin & Hx).
      apply set_elements_elem in Hfin.
      rewrite Ho in Hx; [by apply (so_fulltext t entity Hs c fields f x)|]. intros c2 Hc2 Hts2 <-. by apply (Hn c2).
    + rewrite lookup_insert_ne by done. by apply Hv.
Qed.

Lemma column_eq_field ty t c c' :
  table_wf ty t -> c ∈ tb_columns t -> c' ∈ tb_columns t -> col_field c = col_field c' -> c = c'.
Proof.
  intros Hw [i Hi]%list_elem_of_lookup [j Hj]%list_elem_of_lookup E.
  assert (i = j) as ->; [|congruence].
  eapply (NoDup_lookup _ i j (col_field c) (tw_fields ty t Hw)); rewrite list_lookup_fmap;
    [by rewrite Hi|rewrite Hj; cbn; by rewrite E].
Qed.

Lemma column_eq_name ty t c c' :
  table_wf ty t -> c ∈ tb_columns t -> c' ∈ tb_columns t -> col_name c = col_name c' -> c = c'.
Proof.
  intros Hw [i Hi]%list_elem_of_lookup [j Hj]%list_elem_of_lookup E.
  assert (i = j) as ->; [|congruence].
  eapply (NoDup_lookup _ i j (col_name c) (tw_names ty t Hw)); rewrite list_lookup_fmap;
    [by rewrite Hi|rewrite Hj; cbn; by rewrite E].
Qed.

Lemma wv_plain ty t entity e c :
  table_wf ty t -> with_vectors t entity e -> c ∈ tb_columns t -> is_tsvector c = false ->
  e !! col_field c = entity !! col_field c.
Proof.
  intros Hw Hv Hc Hn. apply (wv_other t entity e Hv). intros c' Hc' Hts E.
  apply (column_eq_field ty t) in E as ->; congruence.
Qed.

Lemma InsertQuery_new_ok ty t key entity b :
  table_wf ty t -> fulltext_wf t -> storable t entity ->
  exists e, InsertQuery_new t key entity b = Ok (mk_insert_query t key e b) /\ with_vectors t entity e.
Proof.
  intros Hw Hf Hs. unfold InsertQuery_new.
  assert (forall l e, (forall c, c ∈ l -> c ∈ tb_columns t) -> with_vectors t entity e ->
            exists e', fold_res (insert_column key) e l = Ok e' /\ with_vectors t entity e') as Hfold.
  { induction l as [|c l IH]; intros e Hl He; [by exists e|]. rewrite fold_res_cons.
    pose proof (Hl c ltac:(by left)) as Hc.
    pose proof (add_fulltext_ok t entity e c Hf Hs He Hc) as He'.
    unfold insert_column at 1. destruct (is_nullable c) eqn:En; cbn [negb andb].
    - apply IH; [|done]. intros c' Hc'. apply Hl. by right.
    - destruct (so_required t entity Hs c Hc En) as (v & Hv & _).
      rewrite (wv_plain ty t entity _ c), Hv; [|done..|].
      + apply IH; [|done]. intros c' Hc'. apply Hl. by right.
      + specialize (Hf c Hc). destruct (is_tsvector c); [|done]. destruct Hf as (_ & ? & _). congruence. }
  destruct (Hfold (tb_columns t) entity) as (e & -> & He); [done| |by exists e].
  split; [done|]. intros c v Hc Hts. by rewrite (so_vectors t entity Hs c Hc Hts).
Qed.

(** ** The row *)
Record row_of (t : Table) (e : Entity) (rg : Int4Range) (r : Row) : Prop := mk_row_of {
  rf_columns c : c ∈ tb_columns t ->
    match e !! col_field c with
    | Some v => exists d, r !! col_name c = Some d /\ column_stores normalize enums c v d
    | None => r !! col_name c = None
    end;
  rf_range : r !! BLOCK_RANGE_COLUMN = Some (DRange rg);
  rf_others k : is_Some (r !! k) -> k = BLOCK_RANGE_COLUMN \/ exists c, c ∈ tb_columns t /\ k = col_name c;
}.

Definition present (t : Table) (e : Entity) : list (Column * Value) :=
  omap (fun c => pair c <$> e !! col_field c) (tb_columns t).

Lemma elem_present t e c v : (c, v) ∈ present t e <-> c ∈ tb_columns t /\ e !! col_field c = Some v.
Proof.
  unfold present. rewrite list_elem_of_omap. split.
  - intros (c' & Hc & E). apply fmap_Some in E as (v' & Hv & [= -> ->]). done.
  - intros [Hc Hv]. exists c. split; [done|]. by rewrite Hv.
Qed.

(** The expressions of the present columns, and what they evaluate to. *)
Lemma bind_present (l : list (Column * Value)) :
  (forall cv, cv ∈ l -> exists d, column_stores normalize enums cv.1 cv.2 d) ->
  exists es ds,
    map_res (fun cv : Column * Value => bind_value cv.2 (col_type cv.1)) l = Ok es
    /\ map_res (eval enums ∅) es = Ok ds
    /\ Forall2 (fun cv d => column_stores normalize enums cv.1 cv.2 d) l ds.
Proof.
  induction l as [|cv l IH]; intros Hl; [by exists [], []|].
  destruct IH as (es & ds & He & Hd & Hf); [intros; apply Hl; by right|].
  destruct (Hl cv) as [d0 Hd0]; [by left|].
  destruct (bind_column normalize enums _ _ _ Hd0) as (e & Ee & Hr). destruct (Hr ∅) as (d & Ed & Hs & _).
  exists (e :: es), (d :: ds). rewrite !map_res_cons, Ee, He, Ed. cbn [res_bind]. rewrite Hd.
  split; [done|]. split; [done|]. by constructor.
Qed.

Lemma assign_columns_put t kvs r :
  (forall kv, kv ∈ kvs -> exists def, column_def t kv.1 = Some def /\ has_type kv.2 (cd_type def) = true) ->
  assign_columns t r kvs = Ok (foldl put r kvs).
Proof.
  revert r. induction kvs as [|kv kvs IH]; intros r Hk; [done|]. unfold assign_columns in *.
  rewrite fold_res_cons. destruct (Hk kv) as (def & Hd & Ht); [by left|]. unfold assign_column at 1.
  rewrite Hd. cbn [ok_or res_bind]. rewrite Ht. cbn [res_bind]. apply IH. intros; apply Hk; by right.
Qed.

Lemma present_stores ty t entity e c v :
  table_wf ty t -> fulltext_wf t -> storable t entity -> with_vectors t entity e ->
  (c, v) ∈ present t e -> exists d, column_stores normalize enums c v d.
Proof.
  intros Hw Hf Hs He [Hc Hv]%elem_present. destruct (is_tsvector c) eqn:Ets.
  - destruct (wv_vectors t entity e He c v Hc Ets Hv) as (l & -> & Hl).
    specialize (Hf c Hc). rewrite Ets in Hf. destruct Hf as (Hlist & _).
    unfold is_tsvector in Ets. destruct (col_type c) as [| | | | | |config| |] eqn:Et; try done.
    exists (DTsVector tsvector_empty). by eapply column_tsvector.
  - rewrite (wv_plain ty t entity e c) in Hv by done. by eapply so_values.
Qed.

(** The names and values that the statement has. *)
Definition row_pairs (l : list (Column * Value)) (ds : list Datum) (b : Z) : list (string * Datum) :=
  zip ((fun cv : Column * Value => col_name cv.1) <$> l) ds
  ++ [(BLOCK_RANGE_COLUMN, DRange (RangeBounds (Some b) None))].

Lemma elem_row_pairs l ds b k d :
  Forall2 (fun cv d => column_stores normalize enums cv.1 cv.2 d) l ds ->
  (k, d) ∈ row_pairs l ds b <->
    (exists i c v, l !! i = Some (c, v) /\ ds !! i = Some d /\ k = col_name c)
    \/ (k = BLOCK_RANGE_COLUMN /\ d = DRange (RangeBounds (Some b) None)).
Proof.
  intros Hf. unfold row_pairs. rewrite elem_of_app, list_elem_of_singleton, list_elem_of_lookup.
  split; (intros [Hl|Hr]; [left|right]).
  - destruct Hl as [i (k' & d' & [= <- <-] & Hk & Hd)%lookup_zip_with_Some].
    apply list_lookup_fmap_Some in Hk as ([c v] & -> & Hl). by exists i, c, v.
  - by injection Hr as -> ->.
  - destruct Hl as (i & c & v & Hl & Hd & ->). exists i. apply lookup_zip_with_Some.
    exists (col_name c), d. split; [done|]. split; [|done]. by rewrite list_lookup_fmap, Hl.
  - by destruct Hr as [-> ->].
Qed.

Lemma present_nodup ty t e : table_wf ty t -> NoDup (present t e).*1.
Proof.
  intros Hw. apply (sublist_NoDup _ (tb_columns t)).
  - eapply NoDup_fmap_1, (tw_names ty t Hw).
  - unfold present. induction (tb_columns t) as [|c l IH]; [done|]. rewrite omap_cons_eq.
    destruct (e !! col_field c); cbn; by constructor.
Qed.

Lemma row_pairs_row ty t e ds b :
  table_wf ty t ->
  Forall2 (fun cv d => column_stores normalize enums cv.1 cv.2 d) (present t e) ds ->
  row_of t e (RangeBounds (Some b) None) (foldl put ∅ (row_pairs (present t e) ds b)).
Proof.
  intros Hw Hf.
  pose proof (fun k d => elem_row_pairs (present t e) ds b k d Hf) as Hin.
  assert (forall i j c v v', present t e !! i = Some (c, v) -> present t e !! j = Some (c, v') -> i = j) as Huniq.
  { intros i j c v v' Hi Hj. eapply (NoDup_lookup (present t e).*1 i j c (present_nodup ty t e Hw));
      rewrite list_lookup_fmap; [by rewrite Hi|by rewrite Hj]. }
  assert (forall k d1 d2, (k, d1) ∈ row_pairs (present t e) ds b -> (k, d2) ∈ row_pairs (present t e) ds b ->
            d1 = d2) as Hfun.
  { intros k d1 d2 [(i & c & v & Hi & Hd & ->)|[-> ->]]%Hin [(j & c' & v' & Hj & Hd' & E)|[E ->]]%Hin.
    - assert (c ∈ tb_columns t /\ c' ∈ tb_columns t) as [Hc Hc'].
      { split; eapply elem_present, list_elem_of_lookup_2; done. }
      apply (column_eq_name ty t) in E as <-; [|done..]. rewrite (Huniq i j c v v') in Hd by done. congruence.
    - destruct (tw_not_range ty t c Hw); [|done]. by eapply elem_present, list_elem_of_lookup_2.
    - destruct (tw_not_range ty t c' Hw); [|done]. by eapply elem_present, list_elem_of_lookup_2.
    - done. }
  assert (forall k d, (k, d) ∈ row_pairs (present t e) ds b ->
            foldl put ∅ (row_pairs (present t e) ds b) !! k = Some d) as Hput.
  { intros k d Hk. apply put_lookup; [|done]. intros; by eapply Hfun. }
  split.
  - intros c Hc. destruct (e !! col_field c) as [v|] eqn:Ev.
    + assert ((c, v) ∈ present t e) as [i Hi]%list_elem_of_lookup by (by apply elem_present).
      destruct (Forall2_lookup_l _ _ _ _ _ Hf Hi) as (d & Hd & Hs). exists d. split; [|done].
      apply Hput, Hin. left. by exists i, c, v.
    + rewrite (proj2 (put_lookup _ ∅ (col_name c) (Hfun _))); [done|].
      intros ([k d] & E & [(i & c' & v' & Hi & _ & ->)|[-> _]]%Hin)%list_elem_of_fmap; cbn in E.
      * apply list_elem_of_lookup_2, elem_present in Hi as [Hc' Hv'].
        apply (column_eq_name ty t) in E as <-; [congruence|done..].
      * by apply (tw_not_range ty t c Hw Hc).
  - apply Hput, Hin. by right.
  - intros k [d Hd]. destruct (decide (k ∈ (row_pairs (present t e) ds b).*1)) as [Hk|Hk].
    + apply list_elem_of_fmap in Hk as ([k' d'] & -> & [(i & c & v & Hi & _ & ->)|[-> _]]%Hin); [right|by left].
      exists c. split; [|done]. by eapply elem_present, list_elem_of_lookup_2.
    + by rewrite (proj2 (put_lookup _ ∅ k (Hfun _))) in Hd.
Qed.

Lemma zip_app {A B} (l1 l2 : list A) (k1 k2 : list B) :
  length l1 = length k1 -> zip (l1 ++ l2) (k1 ++ k2) = zip l1 k1 ++ zip l2 k2.
Proof. apply zip_with_app. Qed.

(** The statement inserts the row [r]. *)
Definition inserts (t : Table) (st : Statement) (r : Row) : Prop :=
  match st with
  | SInsert name columns values =>
      name = tb_qualified_name t
      /\ exists data, map_res (eval enums ∅) values = Ok data
                      /\ assign_columns (table_ddl t) ∅ (zip columns data) = Ok r
  | _ => False
  end.

Lemma insert_statement_ok ty t key entity e b :
  table_wf ty t -> fulltext_wf t -> storable t entity -> with_vectors t entity e ->
  exists st r, insert_statement (mk_insert_query t key e b) = Ok st /\ inserts t st r
    /\ row_of t e (RangeBounds (Some b) None) r.
Proof.
  intros Hw Hf Hs He.
  destruct (bind_present (present t e)) as (es & ds & Ees & Eds & Hds).
  { intros [c v]. apply (present_stores ty t entity); done. }
  exists (SInsert (tb_qualified_name t)
            (((fun cv : Column * Value => col_name cv.1) <$> present t e) ++ [BLOCK_RANGE_COLUMN])
            (es ++ [EBind (DRange (RangeBounds (Some b) None))])),
    (foldl put ∅ (row_pairs (present t e) ds b)).
  split; [|split; [split; [done|]|by eapply row_pairs_row]].
  { unfold insert_statement. cbn [iq_entity iq_table iq_block]. fold (present t e). by rewrite Ees. }
  exists (ds ++ [DRange (RangeBounds (Some b) None)]). split.
  - apply map_res_Forall2, Forall2_app; [by apply map_res_Forall2|by repeat constructor].
  - rewrite zip_app by (by rewrite length_fmap; eapply Forall2_length).
    change (zip [BLOCK_RANGE_COLUMN] [DRange (RangeBounds (Some b) None)])
      with [(BLOCK_RANGE_COLUMN, DRange (RangeBounds (Some b) None))].
    fold (row_pairs (present t e) ds b). apply assign_columns_put.
    intros [k d] [(i & c & v & Hi & Hd & ->)|[-> ->]]%elem_row_pairs; [| |done].
    + exists (column_ddl c). pose proof (Forall2_lookup_lr _ _ _ _ _ _ Hds Hi Hd) as Hcs. cbn [fst snd] in *.
      apply list_elem_of_lookup_2, elem_present in Hi as [Hc _].
      split; [by eapply column_def_column|by eapply column_stores_type].
    + eexists. split; [by eapply column_def_range|done].
Qed.

(** The row can be inserted. *)
Lemma row_of_not_null t e rg r :
  (forall c, c ∈ tb_columns t -> is_primary_key c || negb (is_nullable c) = true ->
             exists v, e !! col_field c = Some v /\ v <> VNull) ->
  row_of t e rg r -> check_not_null (table_ddl t) r = Ok ().
Proof.
  intros Hreq [Hc Hr _]. unfold check_not_null.
  assert (existsb (fun d => cd_not_null d && is_null (column_of r (cd_name d))) (td_columns (table_ddl t)) = false)
    as ->; [|done].
  apply existsb_false_iff. unfold table_ddl. cbn [td_columns].
  intros d [(c & -> & Hin)%list_elem_of_fmap| ->%list_elem_of_singleton]%elem_of_app.
  - unfold column_ddl. cbn [cd_not_null cd_name]. destruct (_ || _) eqn:En; [|done].
    destruct (Hreq c Hin En) as (v & Hv & Hn). specialize (Hc c Hin). rewrite Hv in Hc.
    destruct Hc as (d & Hd & Hs). unfold column_of. rewrite Hd. cbn.
    destruct (is_null d) eqn:E; [|done]. by apply (column_stores_null normalize enums c v d Hs) in E.
  - cbn. unfold column_of. by rewrite Hr.
Qed.

(** The id of the row. *)
Lemma row_of_id ty t e rg r id d :
  table_wf ty t -> row_of t e rg r -> e !! "id" = Some (VString id) -> id_value ty id = Ok d ->
  row_id r = d.
Proof.
  intros Hw [Hc _ _] Hid Hd. destruct (tw_id ty t Hw) as (pk & Hpk & Ef & El & Ety).
  apply primary_key_column in Hpk as [Hin En]. specialize (Hc pk Hin). rewrite Ef, Hid in Hc.
  destruct Hc as (d' & Hd' & Hs). unfold row_id, column_of. change "id" with PRIMARY_KEY_COLUMN.
  rewrite <- En, Hd'. cbn.
  inversion Hs as [|v d2 _ Hst| |]; subst.
  destruct (col_type pk) eqn:Et; try done; injection Ety as <-; inversion Hst; subst; cbn in Hd.
  - congruence.
  - rewrite bytes_of_hex in Hd. cbn in Hd. congruence.
Qed.

Lemma row_of_ok ty t e rg r id d :
  table_wf ty t -> row_of t e rg r -> e !! "id" = Some (VString id) -> id_value ty id = Ok d ->
  range_ok rg -> row_ok ty r /\ row_range r = rg /\ row_id r = d.
Proof.
  intros Hw Hr Hid Hd Hb. pose proof (row_of_id ty t e rg r id d Hw Hr Hid Hd) as Ei.
  assert (row_range r = rg) as Er.
  { unfold row_range, column_of. change "block_range" with BLOCK_RANGE_COLUMN. by rewrite (rf_range t e rg r Hr). }
  split; [|done]. split.
  - rewrite Ei. by eapply id_value_datum.
  - rewrite Er. unfold column_of. change "block_range" with BLOCK_RANGE_COLUMN. by rewrite (rf_range t e rg r Hr).
  - by rewrite Er.
Qed.

(** ** Reading the row *)

(** Columns that are read, under the names of their fields. *)
Definition readable (t : Table) : list Column := List.filter (fun c => negb (is_tsvector c)) (tb_columns t).

(** The entity that is found: without nulls and fulltext columns, with the
    name of its type. *)
Definition stored_entity (t : Table) (entity : Entity) : Entity :=
  foldl put {["__typename" := VString (tb_object t)]}
    (omap (fun c => match entity !! col_field c with
                    | Some VNull | None => None
                    | Some v => Some (col_field c, v)
                    end) (readable t)).

Lemma find_readable t k :
  table_column t k = List.find (fun c => String.eqb (col_name c) k) (readable t).
Proof.
  unfold table_column, readable. induction (tb_columns t) as [|c l IH]; [done|]. cbn.
  destruct (is_tsvector c); cbn; [done|]. by rewrite IH.
Qed.

Lemma elem_readable t c : c ∈ readable t <-> c ∈ tb_columns t /\ is_tsvector c = false.
Proof. unfold readable. rewrite !list_elem_of_In, List.filter_In, negb_true_iff. done. Qed.

Lemma table_column_iff ty t k c :
  table_wf ty t -> table_column t k = Some c <-> c ∈ readable t /\ col_name c = k.
Proof.
  intros Hw. rewrite find_readable. split.
  - intros [Hin E%String.eqb_eq]%List.find_some. by split; [apply list_elem_of_In|].
  - intros [Hin <-]. destruct (List.find _ (readable t)) as [c'|] eqn:E.
    + apply List.find_some in E as [Hin'%list_elem_of_In E%String.eqb_eq]. f_equal.
      apply elem_readable in Hin as [? _], Hin' as [? _]. by eapply column_eq_name.
    + pose proof (List.find_none _ _ E c (proj1 (list_elem_of_In _ _) Hin)) as Hn.
      cbn in Hn. by rewrite String.eqb_refl in Hn.
Qed.

(** What a key of the row adds to the entity. *)
Definition key_effect (t : Table) (kv : string * Json) (o : option (string * Value)) : Prop :=
  forall out, deserialize_key normalize t out kv = Ok (match o with Some p => put out p | None => out end).

Lemma deserialize_effects t kvs os out :
  Forall2 (key_effect t) kvs os ->
  fold_res (deserialize_key normalize t) out kvs = Ok (foldl put out (omap id os)).
Proof.
  intros Hf. revert out. induction Hf as [|kv o kvs os Ho _ IH]; intros out; [done|].
  rewrite fold_res_cons, Ho. cbn [res_bind]. rewrite IH. by destruct o.
Qed.

(** The effect of a key of the row. *)
Definition reads_key (t : Table) (e : Entity) (kv : string * Json) (o : option (string * Value)) : Prop :=
  key_effect t kv o
  /\ (o = None -> forall c v, c ∈ readable t -> col_name c = kv.1 -> e !! col_field c = Some v -> v = VNull)
  /\ (forall f v', o = Some (f, v') ->
        exists c v, c ∈ readable t /\ col_name c = kv.1 /\ f = col_field c /\ e !! f = Some v
                    /\ v <> VNull /\ v' ≡ v).

Lemma row_key_effect ty t e rg r k d :
  table_wf ty t -> row_of t e rg r -> (forall c, c ∈ tb_columns t -> col_name c <> "g$parent_id") ->
  r !! k = Some d ->
  exists o, reads_key t e (k, to_jsonb d) o.
Proof.
  intros Hw [Hc Hr Ho] Hp Hk.
  assert (k <> "g$parent_id") as Hne.
  { intros ->. destruct (Ho "g$parent_id") as [?|(c & Hin & E)]; [by eexists|done|]. by apply (Hp c Hin). }
  destruct (table_column t k) as [c|] eqn:Ec.
  - pose proof Ec as [Hin En]%(table_column_iff ty); [|done]. apply elem_readable in Hin as Hin'.
    destruct Hin' as [Hin' Hts]. specialize (Hc c Hin'). rewrite En in Hc.
    destruct (e !! col_field c) as [v|] eqn:Ev; [|congruence]. destruct Hc as (d' & Hd' & Hs).
    assert (d' = d) as -> by congruence.
    destruct (column_read normalize enums c v d Hs Hts) as (v' & Hv' & Eq).
    exists (match v' with VNull => None | _ => Some (col_field c, v') end). split_and!.
    + intros out. unfold deserialize_key. cbn [fst snd]. destruct (String.eqb_spec k "g$parent_id"); [done|].
      rewrite Ec, Hv'. cbn [res_bind]. by destruct v'.
    + intros E c2 v2 Hin2 En2 Ev2. cbn in En2. apply elem_readable in Hin2 as [Hin2 _].
      rewrite (column_eq_name ty t c2 c) in Ev2 by (done || congruence). rewrite Ev in Ev2. injection Ev2 as <-.
      assert (v' = VNull) as -> by (by destruct v'). symmetry in Eq. by apply Value_eqb_VNull_r in Eq.
    + intros f w E. exists c, v.
      assert (f = col_field c /\ w = v' /\ v' <> VNull) as (-> & -> & Hn) by (by destruct v'; inversion E).
      split_and!; try done. intros ->. destruct Hn. by apply Value_eqb_VNull_r in Eq.
  - exists None. split_and!; [| |done].
    2: { intros _ c v Hin En. cbn in En. by rewrite (proj2 (table_column_iff ty t k c Hw)) in Ec. }
    intros out. unfold deserialize_key. cbn [fst snd]. destruct (String.eqb_spec k "g$parent_id"); [done|].
    by rewrite Ec.
Qed.

Lemma elem_stored t (entity : Entity) k v :
  (k, v) ∈ omap (fun c => match entity !! col_field c with
                          | Some VNull | None => None
                          | Some v => Some (col_field c, v)
                          end) (readable t)
  <-> exists c, c ∈ readable t /\ k = col_field c /\ entity !! k = Some v /\ v <> VNull.
Proof.
  rewrite list_elem_of_omap. split; intros (c & Hin & Hc); exists c; (split; [done|]).
  - destruct (entity !! col_field c) as [w|] eqn:E; [|done].
    assert (k = col_field c /\ v = w /\ v <> VNull) as (-> & -> & ?) by (by destruct w; inversion Hc). done.
  - destruct Hc as (-> & Hv & Hn). rewrite Hv. by destruct v.
Qed.

Lemma choose_Forall2 {A B} (R : A -> B -> Prop) l :
  (forall x, x ∈ l -> exists y, R x y) -> exists k, Forall2 R l k.
Proof.
  induction l as [|x l IH]; intros Hl; [by exists []|]. destruct (Hl x) as [y Hy]; [by left|].
  destruct IH as [k Hk]; [intros; apply Hl; by right|]. exists (y :: k). by constructor.
Qed.

Lemma reads_sound ty t (entity e : Entity) kvs os k v' :
  table_wf ty t -> with_vectors t entity e -> Forall2 (reads_key t e) kvs os -> (k, v') ∈ omap id os ->
  exists c v, c ∈ readable t /\ k = col_field c /\ entity !! k = Some v /\ v <> VNull /\ v' ≡ v.
Proof.
  intros Hw He Hos (o & [i Hi]%list_elem_of_lookup & E)%list_elem_of_omap. cbn in E. subst o.
  destruct (Forall2_lookup_r _ _ _ _ _ Hos Hi) as ([k2 j] & _ & _ & _ & Hx).
  destruct (Hx k v' eq_refl) as (c & v & Hin & _ & -> & Ev & Hn & Eq). exists c, v.
  split_and!; try done. apply elem_readable in Hin as [Hin Hts]. by rewrite <- (wv_plain ty t entity e c).
Qed.

Lemma reads_complete ty t (entity e : Entity) kvs os c v d :
  table_wf ty t -> with_vectors t entity e -> Forall2 (reads_key t e) kvs os ->
  c ∈ readable t -> entity !! col_field c = Some v -> v <> VNull -> (col_name c, to_jsonb d) ∈ kvs ->
  col_field c ∈ (omap id os).*1.
Proof.
  intros Hw He Hos Hin Ev Hn [i Hi]%list_elem_of_lookup.
  apply elem_readable in Hin as Hin'. destruct Hin' as [Hin' Hts].
  destruct (Forall2_lookup_l _ _ _ _ _ Hos Hi) as ([[f v']|] & Ho & _ & Hnone & Hsome).
  - destruct (Hsome f v' eq_refl) as (c' & w & Hc' & En & -> & _). apply elem_readable in Hc' as [Hc' _].
    cbn in En. apply (column_eq_name ty t) in En as ->; [|done..].
    apply (list_elem_of_fmap_2 fst _ (col_field c, v')), list_elem_of_omap.
    exists (Some (col_field c, v')). split; [by eapply list_elem_of_lookup_2|done].
  - destruct Hn. apply (Hnone eq_refl c); [done..|]. by rewrite (wv_plain ty t entity e c).
Qed.

(** What is read from the row is the stored entity. *)
Lemma deserialize_row ty ly t entity e rg r :
  table_wf ty t -> (forall c, c ∈ tb_columns t -> col_name c <> "g$parent_id") ->
  with_vectors t entity e -> row_of t e rg r -> ly_tables ly !! tb_object t = Some t ->
  exists e', deserialize_with_layout normalize ly (mk_entity_data (tb_object t) (row_json r)) = Ok e'
             /\ e' ≡ stored_entity t entity.
Proof.
  intros Hw Hp He Hr Ht. unfold deserialize_with_layout, table_for_entity. cbn [ed_entity ed_data].
  rewrite Ht. cbn [ok_or res_bind row_json].
  set (kvs := (fun kv => (kv.1, to_jsonb kv.2)) <$> map_to_list r).
  assert (exists os, Forall2 (reads_key t e) kvs os) as [os Hos].
  { apply choose_Forall2. intros kv ([k d] & -> & Hin%elem_of_map_to_list)%list_elem_of_fmap.
    by apply (row_key_effect ty t e rg r k d). }
  rewrite (deserialize_effects t kvs os) by (eapply Forall2_impl; [done|by intros ? ? (? & _)]).
  eexists. split; [done|]. change (cv_from_string (tb_object t)) with (VString (tb_object t)).
  set (m := {["__typename" := VString (tb_object t)]} : Entity).
  intros k. unfold stored_entity. fold m. set (l2 := omap _ (readable t)).
  destruct (decide (k ∈ l2.*1)) as [Hk|Hk].
  - destruct (put_lookup_some l2 m k Hk) as (v & Hin & ->).
    apply elem_stored in Hin as (c & Hc & -> & Hv & Hn).
    pose proof (proj1 (elem_readable t c) Hc) as [Hc' Hts].
    pose proof (rf_columns t e rg r Hr c Hc') as Hrc.
    rewrite (wv_plain ty t entity e c), Hv in Hrc by done. destruct Hrc as (d & Hd & _).
    destruct (put_lookup_some (omap id os) m (col_field c)) as (v' & Hin' & ->).
    { eapply (reads_complete ty); try done. apply list_elem_of_fmap. exists (col_name c, d).
      split; [done|by apply elem_of_map_to_list]. }
    destruct (reads_sound ty t entity e kvs os _ _ Hw He Hos Hin') as (_ & w & _ & _ & Hw' & _ & Eq).
    constructor. congruence.
  - rewrite !put_lookup_none; [done|done|]. intros ([k2 v'] & -> & Hin)%list_elem_of_fmap. cbn in *.
    destruct (reads_sound ty t entity e kvs os _ _ Hw He Hos Hin) as (c & v & Hc & -> & Hv & Hn & _). apply Hk.
    apply (list_elem_of_fmap_2 fst _ (col_field c, v)), elem_stored. by exists c.
Qed.

(** The data of a row, without its range, holds the entity. *)
Definition holds (t : Table) (entity : Entity) (x : Row) : Prop :=
  exists e, with_vectors t entity e /\ forall rg, row_of t e rg (set_range rg x).

Lemma row_of_set ty t e rg rg' r :
  table_wf ty t -> row_of t e rg r -> row_of t e rg' (set_range rg' (row_data r)).
Proof.
  intros Hw [Hc _ Ho].
  assert (set_range rg' (row_data r) = <[BLOCK_RANGE_COLUMN := DRange rg']> r) as ->.
  { unfold set_range, row_data. by rewrite insert_delete_eq. }
  split.
  - intros c Hin. rewrite lookup_insert_ne by (apply not_eq_sym; by eapply tw_not_range). by apply Hc.
  - by rewrite lookup_insert_eq.
  - intros k Hk. destruct (decide (k = BLOCK_RANGE_COLUMN)) as [->|Hn]; [by left|].
    rewrite lookup_insert_ne in Hk by done. by apply Ho.
Qed.

Lemma row_of_holds ty t entity e rg r :
  table_wf ty t -> with_vectors t entity e -> row_of t e rg r -> holds t entity (row_data r).
Proof. intros Hw He Hr. exists e. split; [done|]. intros rg'. by eapply row_of_set. Qed.
End rows.
