(* ===== verification/RelationalStore.v ===== *)
(** * The operations of the relational store

    Models the operations of [Layout] in [store/postgres/src/relational.rs]:
    finding, querying, inserting, updating and deleting versions of entities, reverting a
    block, reverting metadata and copying the data of another subgraph.

    An operation runs in a transaction: it returns the database it leaves, or
    fails, and then the caller's transaction leaves the database as it was.
    Of a [StoreEvent] the set of its changes is kept.  Logging is left out. *)

From stdpp Require Import prelude list strings gmap.
From Stdlib Require Import ZArith Lia Ascii.
From S2P Require Import Prelude.
From S2P Require Import GraphqlTypes.
From S2P Require Import StoreValue.
From S2P Require Import EntityCache.
From S2P Require Import EthTypes.
From S2P Require Import StoreQuery.
From S2P Require Import StoreEvents.
From S2P Require Import Metadata.
From S2P Require Import GraphqlSchema.
From S2P Require Import Schema.
From S2P Require Import MetadataEntities.
From S2P Require Import Sql.
From S2P Require Import Layout.
From S2P Require Import RelationalQueries.
From S2P Require Import Selects.
From S2P Require Import FilterQueries.

#[local] Open Scope string_scope.
#[local] Open Scope list_scope.

Section operations.
Context {ST : ScalarText} {PT : PgText} {PG : Postgres} `{HashOrder}.
Context (normalize : BigDecimal -> BigDecimal).

(** Running a statement. *)
Definition run_sql (db : Db) (st : Statement) : sres (Db * Outcome) := map_err SESql (execute db st).

(** A row of [select $object as entity, to_jsonb(e) as data]. *)
Definition entity_data_of_row (row : list Datum) : sres EntityData :=
  match row with
  | [DText entity; DJson data] => Ok (mk_entity_data entity data)
  | _ => Panic
  end.

(** *** Reading *)
Definition layout_find (ly : Layout) (db : Db) (entity id : string) (block : Z)
  : sres (Db * option Entity) :=
  let? table := table_for_entity ly entity in
  let? q := find_query table id block in
  let? (db, out) := run_sql db q in
  match oc_rows out with
  | [] => Ok (db, None)
  | row :: _ =>
      let? data := entity_data_of_row row in
      let? e := deserialize_with_layout normalize ly data in
      Ok (db, Some e)
  end.

Definition push_entity (ly : Layout) (m : gmap string (list Entity)) (row : list Datum)
  : sres (gmap string (list Entity)) :=
  let? data := entity_data_of_row row in
  let? e := deserialize_with_layout normalize ly data in
  Ok (<[ed_entity data := default [] (m !! ed_entity data) ++ [e]]> m).

Definition layout_find_many (ly : Layout) (db : Db) (ids_for_type : gmap string (list string)) (block : Z)
  : sres (Db * gmap string (list Entity)) :=
  let? tables := map_res (fun it => table_for_entity ly it.1) (btree_iter ids_for_type) in
  let? q := find_many_query ids_for_type tables block in
  let? (db, out) := run_sql db q in
  let? m := fold_res (push_entity ly) ∅ (oc_rows out) in
  Ok (db, m).

Definition layout_conflicting_entity (ly : Layout) (db : Db) (entity_id : string)
    (entities : list string) : sres (Db * option string) :=
  let? q := conflicting_entity_query ly entities entity_id in
  let? (db, out) := run_sql db q in
  match last (oc_rows out) with
  | None => Ok (db, None)
  | Some [DText entity] => Ok (db, Some entity)
  | Some _ => Panic
  end.

(** *** Queries

    Whatever goes wrong in the database is an error of resolving entities. *)
Context {PQ : PostgresQueries}.
Context (TYPEA_BATCH_SIZE : nat) (sql_error_text store_error_text : StoreError -> string).

Definition query_store_error {A} (m : sres A) : qres A := map_err (fun e => StoreErr (store_error_text e)) m.

Definition load_entities (db : Db) (q : FilterQuery) : sres (list EntityData) :=
  let? q := filter_query_select TYPEA_BATCH_SIZE q in
  let? rows := map_err SESql (query db q) in
  map_res entity_data_of_row rows.

Definition layout_query {V} `{!FromColumnValue V} (ly : Layout) (db : Db) (collection : EntityCollection)
    (filter : option EntityFilter) (order : EntityOrder) (range : EntityRange) (block : Z)
  : qres (list (gmap string V)) :=
  let? collection := query_store_error (FilterCollection_new ly collection filter) in
  let? q := query_store_error (FilterQuery_new collection filter order range block) in
  let? values := map_err (fun e => ResolveEntitiesError (sql_error_text e)) (load_entities db q) in
  map_res (fun data => query_store_error (deserialize_with_layout normalize ly data)) values.

(** *** Writing *)
Definition insert_at (table : Table) (db : Db) (key : EntityKey) (entity : Entity) (block : Z)
  : sres Db :=
  let? q := InsertQuery_new table key entity block in
  let? st := insert_statement q in
  let? (db, _) := run_sql db st in
  Ok db.

Definition layout_insert (ly : Layout) (db : Db) (key : EntityKey) (entity : Entity) (block : Z)
  : sres Db :=
  let? table := table_for_entity ly (entity_type key) in
  insert_at table db key entity block.

Definition layout_insert_unversioned (ly : Layout) (db : Db) (key : EntityKey) (entity : Entity)
  : sres Db :=
  let? table := table_for_entity ly (entity_type key) in
  insert_at table db key entity BLOCK_UNVERSIONED.

Definition layout_update (ly : Layout) (db : Db) (key : EntityKey) (entity : Entity) (block : Z)
  : sres Db :=
  let? table := table_for_entity ly (entity_type key) in
  let? st := clamp_range_query table key block in
  let? (db, _) := run_sql db st in
  insert_at table db key entity block.

Definition update_at (table : Table) (db : Db) (key : EntityKey) (entity : Entity) : sres (Db * nat) :=
  let? _ := UpdateQuery_new key entity in
  let? st := update_statement table key entity in
  let? (db, out) := run_sql db st in
  Ok (db, oc_count out).

Definition layout_update_unversioned (ly : Layout) (db : Db) (key : EntityKey) (entity : Entity)
  : sres (Db * nat) :=
  let? table := table_for_entity ly (entity_type key) in
  update_at table db key entity.

(** Attributes the entity does not mention become null. *)
Definition null_missing (table : Table) (entity : Entity) : Entity :=
  foldl (fun e column => if bool_decide (is_Some (e !! col_field column)) then e
                         else <[col_field column := VNull]> e) entity (tb_columns table).

Definition layout_overwrite_unversioned (ly : Layout) (db : Db) (key : EntityKey) (entity : Entity)
  : sres (Db * nat) :=
  let? table := table_for_entity ly (entity_type key) in
  update_at table db key (null_missing table entity).

Definition layout_delete (ly : Layout) (db : Db) (key : EntityKey) (block : Z) : sres (Db * nat) :=
  let? table := table_for_entity ly (entity_type key) in
  let? st := clamp_range_query table key block in
  let? (db, out) := run_sql db st in
  Ok (db, oc_count out).

Definition layout_delete_unversioned (ly : Layout) (db : Db) (key : EntityKey) : sres (Db * nat) :=
  let? table := table_for_entity ly (entity_type key) in
  let? st := delete_statement table key in
  let? (db, out) := run_sql db st in
  Ok (db, oc_count out).

(** *** Reverting a block *)
Definition change_in (ly : Layout) (entity_type : string) (operation : EntityChangeOperation)
    (id : string) : EntityChange :=
  mk_change (ly_subgraph ly) entity_type id operation.

(** The body of the loop over the tables: the database, the changes and the
    change of the number of entities, an [i32] in the code, which 2^31 entities in
    a block would take to overflow. *)
Definition revert_table (ly : Layout) (block : Z) (st : Db * gset EntityChange * Z) (table : Table)
  : sres (Db * gset EntityChange * Z) :=
  let '(db, changes, count) := st in
  let? (db, out) := run_sql db (revert_remove_query table block) in
  let? removed := revert_ids table out in
  let? (db, out) := run_sql db (revert_clamp_query table (block - 1)) in
  let? unclamped := revert_ids table out in
  let removed : gset string := list_to_set removed in
  let unclamped : gset string := list_to_set unclamped in
  let deleted := removed ∖ unclamped in
  let inserted := unclamped ∖ removed in
  Ok (db,
      changes ∪ set_map (change_in ly (tb_object table) ChangeRemoved) deleted
              ∪ set_map (change_in ly (tb_object table) ChangeSet) unclamped,
      (count + (Z.of_nat (size inserted) - Z.of_nat (size deleted)))%Z).

Definition layout_revert_block (ly : Layout) (db : Db) (block : Z)
  : sres (Db * gset EntityChange * Z) :=
  fold_res (revert_table ly block) (db, ∅, 0%Z) (hash_iter (ly_tables ly)).*2.

(** *** Reverting metadata *)
Definition DDS : string := "DynamicEthereumContractDataSource".

Definition delete_by_prefix (ly : Layout) (dds : list string) (prefix_len : Z)
    (st : Db * gset EntityChange) (table : Table) : sres (Db * gset EntityChange) :=
  let '(db, changes) := st in
  let? (db, out) := run_sql db (delete_by_prefix_query table dds prefix_len) in
  let? ids := revert_ids table out in
  Ok (db, changes ∪ list_to_set (change_in ly (tb_object table) ChangeRemoved <$> ids)).

Definition text_row (row : list Datum) : sres string :=
  match row with [DText id] => Ok id | _ => Panic end.

Definition layout_revert_metadata (ly : Layout) (db : Db) (subgraph : SubgraphDeploymentId) (block : Z)
  : sres (Db * gset EntityChange) :=
  if negb (is_meta (ly_subgraph ly)) then Panic
  else
    let? (db, out) := run_sql db (delete_dynamic_data_sources_query subgraph block) in
    let? dds := map_res text_row (oc_rows out) in
    let prefix_len := match dds with [] => 0%nat | id :: _ => String.length id end in
    if existsb (fun id => negb (String.length id =? prefix_len)%nat) dds then Panic
    else
      let changes : gset EntityChange := list_to_set (change_in ly DDS ChangeRemoved <$> dds) in
      match dds with
      | [] => Ok (db, changes)
      | _ =>
          fold_res (delete_by_prefix ly dds (Z.of_nat prefix_len)) (db, changes)
            (List.filter (fun table => negb (String.eqb (tb_object table) DDS)
                                       && negb (String.prefix "Subgraph" (tb_object table)))
               (hash_iter (ly_tables ly)).*2)
      end.

(** *** Copying the data of another subgraph *)

(** The statement of [copy_dds.sql], which is generated, copies dynamic data
    sources under new ids. *)
Context (copy_dynamic_data_sources : Db -> list string -> list string -> string -> sres Db).
(** The random ids: the [n]th is [new_v4 n]. *)
Context (new_v4 : nat -> string).

Definition copy_table (db : Db) (ds : Table * Table) : sres Db :=
  let? st := copy_entity_data_query ds.1 ds.2 in
  let? (db, _) := run_sql db st in
  Ok db.

Definition dynamic_data_sources_query (subgraph : string) : Statement :=
  SSelect [mk_select_block [EColumn "id"] DDS_TABLE
             (ECmp CmpEq (EColumn "deployment") (EBind (DText subgraph)))].

Definition layout_copy_from (self : Layout) (db : Db) (base : Layout) (block : EthereumBlockPointer)
    (metadata : Layout) : sres Db :=
  if is_meta (ly_subgraph self) || is_meta (ly_subgraph base) then Panic
  else
    let? db := fold_res copy_table db (common_tables self base) in
    let? (db, out) := run_sql db (dynamic_data_sources_query (ly_subgraph base)) in
    let? dds := map_res text_row (oc_rows out) in
    let new_dds := (fun n => make_id (new_v4 n)) <$> seq 0 (length dds) in
    let? db := copy_dynamic_data_sources db dds new_dds (ly_subgraph self) in
    let block_to_revert := (ptr_number block + 1)%Z in
    if bool_decide (is_i32 block_to_revert) then
      let? (db, _, _) := layout_revert_block self db block_to_revert in
      let? (db, _) := layout_revert_metadata metadata db (ly_subgraph self) block_to_revert in
      Ok db
    else Panic.
End operations.
