(* ===== verification/StoreViews.v ===== *)
(** * What the relational store promises

    The store of a subgraph stands for a view: for an entity type, a block and
    an id, the data of the version at that block.  The operations of
    [RelationalStore] are shown to do to the view what the specification
    [View] says, for every database server that keeps the laws of
    [PostgresLaws]: finding reads the view, writing at a block changes it from
    that block on, and reverting a block takes the view back to the block
    before. *)

From stdpp Require Import prelude list strings gmap.
From Stdlib Require Import ZArith Lia Ascii.
From S2P Require Import Prelude.
From S2P Require Import GraphqlTypes.
From S2P Require Import StoreValue.
From S2P Require Import EntityCache.
From S2P Require Import EthTypes.
From S2P Require Import StoreQuery.
From S2P Require Import StoreEvents.
From S2P Require Import Metadata.
From S2P Require Import GraphqlSchema.
From S2P Require Import QueryBuild.
From S2P Require Import Schema.
From S2P Require Import MetadataEntities.
From S2P Require Import Sql.
From S2P Require Import Layout.
From S2P Require Import RelationalQueries.
From S2P Require Import ColumnValues.
From S2P Require Import Versions.
From S2P Require Import VersionedTables.
From S2P Require Import Reverts.
From S2P Require Import EntityRows.
From S2P Require Import RelationalStore.

#[local] Open Scope string_scope.
#[local] Open Scope list_scope.

Section views.
Context {ST : ScalarText} {STL : ScalarTextLaws} {PT : PgText} {PTL : PgTextLaws}.
Context {PG : Postgres} {PGL : PostgresLaws} `{HashOrder}.
Context (normalize : BigDecimal -> BigDecimal).

Abbreviation MAX := BLOCK_NUMBER_MAX.

(** ** Databases up to the order of rows *)
Lemma run_sql_ok db st db1 out :
  meaning (contents db) st = Ok (db1, out) ->
  exists db' o, run_sql db st = Ok (db', o) /\ same_database db1 (contents db') /\ same_outcome out o.
Proof.
  intros Hm. pose proof (executes db st) as Hx. rewrite Hm in Hx. destruct Hx as (d & o & Hd & ? & ?).
  exists d, o. unfold run_sql. by rewrite Hd.
Qed.

Lemma run_sql_err db st e : meaning (contents db) st = Err e -> exists e', run_sql db st = Err (SESql e').
Proof.
  intros Hm. pose proof (executes db st) as Hx. rewrite Hm in Hx. destruct Hx as [e' He].
  exists e'. unfold run_sql. by rewrite He.
Qed.

Definition rows_of (db : Database) (t : Table) : list Row :=
  match db_tables db !! tb_qualified_name t with Some ts => ts_rows ts | None => [] end.

Definition table_view (db : Database) (t : Table) : Z -> Datum -> option Row := data_at (rows_of db t).

(** The type of the ids of a table. *)
Definition id_type_of (t : Table) : IdType :=
  match primary_key t with
  | Ok pk => match id_type (col_type pk) with Ok ty => ty | _ => IdString end
  | _ => IdString
  end.

Lemma id_type_of_wf ty t : table_wf ty t -> id_type_of t = ty.
Proof. intros [_ _ (pk & Hpk & _ & _ & Ht)]. unfold id_type_of. by rewrite Hpk, Ht. Qed.

(** ** Layouts whose tables can be created, and databases that have them *)
Record layout_wf (ly : Layout) : Prop := mk_layout_wf {
  lw_object obj t : ly_tables ly !! obj = Some t -> tb_object t = obj;
  lw_table obj t : ly_tables ly !! obj = Some t -> table_wf (id_type_of t) t;
  lw_fulltext obj t : ly_tables ly !! obj = Some t -> fulltext_wf t;
  lw_parent obj t c : ly_tables ly !! obj = Some t -> c ∈ tb_columns t -> col_name c <> "g$parent_id";
  lw_names obj obj' t t' :
    ly_tables ly !! obj = Some t -> ly_tables ly !! obj' = Some t' ->
    tb_qualified_name t = tb_qualified_name t' -> obj = obj';
}.

Definition store_ok (ly : Layout) (db : Database) : Prop :=
  forall obj t, ly_tables ly !! obj = Some t -> exists ts, table_in db (id_type_of t) t ts.

Lemma check_not_null_permutation t (rows rows' : list Row) :
  rows ≡ₚ rows' ->
  (forall r, r ∈ rows -> check_not_null t r = Ok ()) -> forall r, r ∈ rows' -> check_not_null t r = Ok ().
Proof. intros E Hr r Hin. apply Hr. by rewrite E. Qed.

Lemma same_table_in db1 db2 ty t ts :
  same_database db1 db2 -> table_in db1 ty t ts ->
  exists ts', table_in db2 ty t ts' /\ ts_rows ts ≡ₚ ts_rows ts'.
Proof.
  intros [_ Hs] [Ht Hd [Hdef Hok Hnn]]. specialize (Hs (tb_qualified_name t)). rewrite Ht in Hs.
  inversion Hs as [x ts' [Ed Er] E1 E2|]; subst. exists ts'. split; [|done]. split; [done|congruence|].
  split; [congruence|by rewrite <- Er|]. rewrite <- Ed. by eapply check_not_null_permutation.
Qed.

Lemma table_in_rows db ty t ts : table_in db ty t ts -> rows_of db t = ts_rows ts.
Proof. intros [Ht _ _]. unfold rows_of. by rewrite Ht. Qed.

Lemma same_rows db1 db2 t : same_database db1 db2 -> rows_of db1 t ≡ₚ rows_of db2 t.
Proof.
  intros [_ Hs]. unfold rows_of. specialize (Hs (tb_qualified_name t)).
  destruct Hs as [ts ts' [_ Er]|]; done.
Qed.

(** Nothing but the tables [touched] changes. *)
Definition table_of (ly : Layout) (name : string) : Prop :=
  exists obj t, ly_tables ly !! obj = Some t /\ tb_qualified_name t = name.

Record frame (touched : string -> Prop) (db db' : Database) : Prop := mk_frame {
  fr_enums : db_enums db' = db_enums db;
  fr_tables name : ~ touched name -> option_Forall2 same_table (db_tables db !! name) (db_tables db' !! name);
}.

#[export] Instance same_table_preorder : PreOrder same_table.
Proof. split; [by intros t; split|]. intros a b c [E1 P1] [E2 P2]. split; [by rewrite E1|by rewrite P1]. Qed.

#[export] Instance frame_preorder touched : PreOrder (frame touched).
Proof.
  split.
  - intros db. split; [done|]. intros name _. destruct (db_tables db !! name); by constructor.
  - intros a b c [E1 T1] [E2 T2]. split; [congruence|]. intros name Hn. specialize (T1 name Hn). specialize (T2 name Hn).
    destruct T1 as [x y Hxy|]; inversion T2 as [? z Hyz|]; subst; constructor. by etrans.
Qed.

Lemma frame_weaken (p q : string -> Prop) db db' : (forall name, p name -> q name) -> frame p db db' -> frame q db db'.
Proof. intros Hpq [E T]. split; [done|]. intros name Hn. apply T. intros Hp. by apply Hn, Hpq. Qed.

Lemma same_database_frame touched db db' : same_database db db' -> frame touched db db'.
Proof. intros [E Hs]. split; [by rewrite E|]. intros name _. apply Hs. Qed.

Lemma with_rows_frame db db' name ts rows :
  db_tables db !! name = Some ts -> same_database (with_rows db name ts rows) db' -> frame (eq name) db db'.
Proof.
  intros Ht [E Hs]. split; [by rewrite <- E|]. intros n Hn. specialize (Hs n).
  unfold with_rows in Hs. cbn [db_tables] in Hs. by rewrite lookup_insert_ne in Hs.
Qed.

(** Replacing the rows of one table. *)
Lemma replace_rows ly db db' obj t ts rows :
  layout_wf ly -> store_ok ly db -> ly_tables ly !! obj = Some t -> table_in db (id_type_of t) t ts ->
  rows_ok (id_type_of t) rows -> (forall r, r ∈ rows -> check_not_null (ts_def ts) r = Ok ()) ->
  same_database (with_rows db (tb_qualified_name t) ts rows) db' ->
  store_ok ly db'
  /\ rows_of db' t ≡ₚ rows
  /\ (forall obj' t', ly_tables ly !! obj' = Some t' -> obj' <> obj -> rows_of db' t' ≡ₚ rows_of db t')
  /\ frame (eq (tb_qualified_name t)) db db'.
Proof.
  intros Hw Hs Ht Hin Hok Hnn Hsame.
  set (db1 := with_rows db (tb_qualified_name t) ts rows) in *.
  assert (table_in db1 (id_type_of t) t (mk_table_state (ts_def ts) rows)) as Hin1.
  { destruct Hin as [_ Hd [Hdef _ _]]. split; [apply lookup_insert_eq|done|by split]. }
  assert (forall obj' t', ly_tables ly !! obj' = Some t' -> obj' <> obj ->
            db_tables db1 !! tb_qualified_name t' = db_tables db !! tb_qualified_name t') as Hother.
  { intros obj' t' Ht' Hne. apply lookup_insert_ne. intros E. apply Hne. by eapply (lw_names ly Hw). }
  split_and!.
  - intros obj' t' Ht'. destruct (decide (obj' = obj)) as [->|Hne].
    + rewrite Ht in Ht'. injection Ht' as <-. by destruct (same_table_in _ _ _ _ _ Hsame Hin1) as (ts' & ? & _); eauto.
    + destruct (Hs obj' t' Ht') as [ts' [Htab Hdef Hts]].
      destruct (same_table_in db1 db' (id_type_of t') t' ts') as (ts2 & ? & _); [done| |by exists ts2].
      split; [by rewrite (Hother obj')|done|done].
  - rewrite <- (same_rows _ _ t Hsame). by rewrite (table_in_rows _ _ _ _ Hin1).
  - intros obj' t' Ht' Hne. rewrite <- (same_rows _ _ t' Hsame). unfold rows_of. by rewrite (Hother obj').
  - eapply with_rows_frame; [apply Hin|done].
Qed.

(** ** Views *)
Definition View := string -> Z -> Datum -> option Row.

Definition at_entity (obj : string) (d : Datum) (b : Z) (obj' : string) (n : Z) (d' : Datum) : bool :=
  String.eqb obj' obj && same_id d' d && (b <=? n)%Z.

(** From the block [b] on, the entity is [x]. *)
Definition view_put (obj : string) (d : Datum) (b : Z) (x : Row) (v : View) : View :=
  fun obj' n d' => if at_entity obj d b obj' n d' then Some x else v obj' n d'.

(** From the block [b] on, there is no such entity. *)
Definition view_remove (obj : string) (d : Datum) (b : Z) (v : View) : View :=
  fun obj' n d' => if at_entity obj d b obj' n d' then None else v obj' n d'.

(** The blocks from [b] on are as the block before. *)
Definition view_revert (b : Z) (v : View) : View := fun obj n d => v obj (Z.min n (b - 1)) d.

Record represents (ly : Layout) (db : Db) (v : View) : Prop := mk_represents {
  rp_ok : store_ok ly (contents db);
  rp_view obj t n d : ly_tables ly !! obj = Some t -> table_view (contents db) t n d = v obj n d;
}.

(** Nothing changes after the block [b]. *)
Record store_at (ly : Layout) (b : Z) (db : Db) (v : View) : Prop := mk_store_at {
  sa_represents : represents ly db v;
  sa_settled obj t r : ly_tables ly !! obj = Some t -> r ∈ rows_of (contents db) t -> settled_row b r;
}.

(** Every row holds an entity, also those that are no version at any block. *)
Definition filled (ly : Layout) (db : Database) : Prop :=
  forall obj t r, ly_tables ly !! obj = Some t -> r ∈ rows_of db t ->
    exists e, holds normalize (db_enums db) t e (row_data r).

Record storage (ly : Layout) (b : Z) (db : Db) (v : View) : Prop := mk_storage {
  sg_store : store_at ly b db v;
  sg_filled : filled ly (contents db);
}.

Lemma filled_same ly db db' : same_database db db' -> filled ly db -> filled ly db'.
Proof.
  intros Hs Hf obj t r Ht Hr. rewrite <- (same_rows _ _ t Hs) in Hr. destruct Hs as [<- _]. by apply (Hf obj t).
Qed.

Lemma settled_later b b' r : (b <= b')%Z -> settled_row b r -> settled_row b' r.
Proof. intros Hb Hs n m Hn Hm. apply Hs; lia. Qed.

Lemma store_at_later ly b b' db v : (b <= b')%Z -> store_at ly b db v -> store_at ly b' db v.
Proof. intros Hb [Hr Hs]. split; [done|]. intros. eapply settled_later; [done|by eapply Hs]. Qed.

(** In a settled table the data from [b] on is the current data. *)
Lemma settled_data ty b rows n d :
  rows_ok ty rows -> (forall r, r ∈ rows -> settled_row b r) -> (b <= n)%Z -> (b <= MAX)%Z ->
  data_at rows n d = data_at rows MAX d.
Proof.
  intros Hok Hs Hn Hb. apply option_eq. intros x. rewrite !(data_at_iff ty) by done.
  split; intros (r & Hin & Hat & E); exists r; (split; [done|]); (split; [|done]);
    unfold row_at in *; [rewrite (Hs r Hin MAX n)|rewrite (Hs r Hin n MAX)]; done.
Qed.

Lemma settled_can_clamp ty b rows d :
  rows_ok ty rows -> (forall r, r ∈ rows -> settled_row b r) -> (b <= MAX)%Z -> can_clamp d b rows.
Proof.
  intros Hok Hs Hb r Hin Hcur. pose proof (rk_rows ty _ Hok r Hin) as Hr.
  destruct (current_range ty d r Hr Hcur) as [l El].
  apply andb_true_iff in Hcur as [_ Hm]. rewrite (Hs r Hin MAX b) in Hm by lia.
  rewrite El in *. cbn [range_lower]. apply contains_bounds in Hm. lia.
Qed.

Lemma table_of_store ly db obj t :
  store_ok ly db -> ly_tables ly !! obj = Some t ->
  exists ts, table_in db (id_type_of t) t ts /\ rows_of db t = ts_rows ts.
Proof. intros Hs Ht. destruct (Hs obj t Ht) as [ts Hin]. exists ts. split; [done|by eapply table_in_rows]. Qed.

Lemma represents_step ly db db' v v' obj t ts rows :
  layout_wf ly -> represents ly db v -> ly_tables ly !! obj = Some t ->
  table_in (contents db) (id_type_of t) t ts ->
  rows_ok (id_type_of t) rows -> (forall r, r ∈ rows -> check_not_null (ts_def ts) r = Ok ()) ->
  same_database (with_rows (contents db) (tb_qualified_name t) ts rows) (contents db') ->
  (forall n d, data_at rows n d = v' obj n d) ->
  (forall obj' n d, obj' <> obj -> v' obj' n d = v obj' n d) ->
  represents ly db' v' /\ rows_of (contents db') t ≡ₚ rows
  /\ (forall obj' t', ly_tables ly !! obj' = Some t' -> obj' <> obj ->
        rows_of (contents db') t' ≡ₚ rows_of (contents db) t')
  /\ frame (eq (tb_qualified_name t)) (contents db) (contents db').
Proof.
  intros Hw [Hs Hv] Ht Hin Hok Hnn Hsame Hd Ho.
  destruct (replace_rows ly _ _ obj t ts rows Hw Hs Ht Hin Hok Hnn Hsame) as (Hs' & Hr & Hr' & He).
  split; [|done]. split; [done|]. intros obj' t' n d Ht'. unfold table_view.
  destruct (decide (obj' = obj)) as [->|Hne].
  - rewrite Ht in Ht'. injection Ht' as <-. rewrite <- Hd. symmetry. by eapply data_at_permutation.
  - rewrite Ho, <- (Hv obj' t' n d Ht') by done. symmetry.
    destruct (table_of_store ly _ obj' t' Hs Ht') as (ts' & Hin' & E).
    apply (data_at_permutation (id_type_of t')); [|symmetry; by eapply Hr'].
    rewrite E. by destruct Hin' as [_ _ [_ ? _]].
Qed.

Lemma store_step ly b db db' v v' obj t ts rows :
  layout_wf ly -> storage ly b db v -> ly_tables ly !! obj = Some t ->
  table_in (contents db) (id_type_of t) t ts ->
  rows_ok (id_type_of t) rows -> (forall r, r ∈ rows -> check_not_null (ts_def ts) r = Ok ()) ->
  (forall r, r ∈ rows -> settled_row b r) ->
  same_database (with_rows (contents db) (tb_qualified_name t) ts rows) (contents db') ->
  (forall n d, data_at rows n d = v' obj n d) ->
  (forall obj' n d, obj' <> obj -> v' obj' n d = v obj' n d) ->
  (forall r, r ∈ rows -> exists e, holds normalize (db_enums (contents db)) t e (row_data r)) ->
  storage ly b db' v' /\ frame (eq (tb_qualified_name t)) (contents db) (contents db').
Proof.
  intros Hw [[Hr Hset] Hfill] Ht Hin Hok Hnn Hs Hsame Hd Ho Hnew.
  destruct (represents_step ly db db' v v' obj t ts rows) as (Hr' & Hrows & Hother & He); try done.
  split; [|done]. split; [split; [done|]|]; intros obj' t' r Ht' Hrin;
    destruct (decide (obj' = obj)) as [->|Hne].
  - rewrite Ht in Ht'. injection Ht' as <-. apply Hs. by rewrite <- Hrows.
  - apply (Hset obj' t'); [done|]. by rewrite <- (Hother obj' t' Ht' Hne).
  - rewrite Ht in Ht'. injection Ht' as <-. rewrite (fr_enums _ _ _ He). apply Hnew. by rewrite <- Hrows.
  - rewrite (fr_enums _ _ _ He). apply (Hfill obj' t'); [done|]. by rewrite <- (Hother obj' t' Ht' Hne).
Qed.

Lemma at_entity_iff obj d b obj' n d' ty :
  id_datum ty d -> at_entity obj d b obj' n d' = true <-> obj' = obj /\ d' = d /\ (b <= n)%Z.
Proof.
  intros Hd. unfold at_entity. rewrite !andb_true_iff, String.eqb_eq, Z.leb_le. split.
  - intros [[-> E] Hn]. rewrite (same_id_sym ty) in E by done. by apply (same_id_eq ty) in E.
  - intros (-> & -> & Hn). split; [|done]. split; [done|by eapply same_id_refl].
Qed.

Lemma at_entity_other obj d b obj' n d' : obj' <> obj -> at_entity obj d b obj' n d' = false.
Proof. intros Hne. unfold at_entity. by destruct (String.eqb_spec obj' obj). Qed.

(** *** Clamping *)
Lemma clamp_settled ty b d rows r :
  rows_ok ty rows -> (forall r, r ∈ rows -> settled_row b r) -> (b < MAX)%Z ->
  r ∈ clamp_row d b <$> rows -> settled_row b r.
Proof.
  intros Hok Hs Hb (r0 & -> & Hin)%list_elem_of_fmap. unfold settled_row, clamp_row. rewrite row_range_set.
  unfold clamp_range. destruct (row_at d MAX r0) eqn:Hcur; [|by apply Hs].
  destruct (current_range ty d r0 (rk_rows ty _ Hok r0 Hin) Hcur) as [l El].
  pose proof (settled_can_clamp ty b rows d Hok Hs ltac:(lia) r0 Hin Hcur) as Hl. rewrite El in *.
  cbn [range_lower] in Hl. intros n m Hn Hm.
  apply eq_true_iff_eq. rewrite !clamped_contains by done. lia.
Qed.

Lemma clamp_view ty b d rows (v : View) obj n d' :
  rows_ok ty rows -> (forall r, r ∈ rows -> settled_row b r) -> (b < MAX)%Z -> id_datum ty d ->
  (forall n d', v obj n d' = data_at rows n d') ->
  data_at (clamp_row d b <$> rows) n d' = view_remove obj d b v obj n d'.
Proof.
  intros Hok Hs Hb Hd Hv.
  assert (can_clamp d b rows) as Hcan by (eapply settled_can_clamp; [done..|lia]).
  destruct (clamp_rows ty d b _ Hok Hb Hcan) as (_ & _ & _ & Hdata).
  change (fun r => set_range (clamp_range d b r) r) with (clamp_row d b) in Hdata.
  apply option_eq. intros x. rewrite Hdata. unfold view_remove. rewrite Hv.
  destruct (at_entity obj d b obj n d') eqn:Ea.
  - apply (at_entity_iff _ _ _ _ _ _ ty) in Ea as (_ & -> & Hn); [|done].
    rewrite (settled_data ty b) by (done || lia). split; [|done]. intros [E Hnot]. destruct Hnot. rewrite E. eauto.
  - split; [by intros []|]. intros E. split; [done|]. intros (-> & Hn & _).
    by rewrite (proj2 (at_entity_iff obj d b obj n d ty Hd)) in Ea.
Qed.

(** The rows of a table of a store, and what it stands for. *)
Lemma store_table ly b db v obj t :
  store_at ly b db v -> ly_tables ly !! obj = Some t ->
  exists ts, table_in (contents db) (id_type_of t) t ts
    /\ (forall r, r ∈ ts_rows ts -> settled_row b r)
    /\ (forall n d, v obj n d = data_at (ts_rows ts) n d).
Proof.
  intros [[Hok Hv] Hs] Ht. destruct (table_of_store ly _ obj t Hok Ht) as (ts & Hin & Er). exists ts.
  split; [done|]. split.
  - intros r Hr. apply (Hs obj t); [done|by rewrite Er].
  - intros n d. rewrite <- (Hv obj t n d Ht). unfold table_view. by rewrite Er.
Qed.

Lemma storage_table ly b db v obj t :
  storage ly b db v -> ly_tables ly !! obj = Some t ->
  exists ts, table_in (contents db) (id_type_of t) t ts
    /\ (forall r, r ∈ ts_rows ts -> settled_row b r)
    /\ (forall n d, v obj n d = data_at (ts_rows ts) n d)
    /\ (forall r, r ∈ ts_rows ts -> exists e, holds normalize (db_enums (contents db)) t e (row_data r)).
Proof.
  intros [Hst Hfill] Ht. destruct (store_table ly b db v obj t Hst Ht) as (ts & Hin & Hs & Hv).
  exists ts. do 3 (split; [done|]). intros r Hr. apply (Hfill obj t); [done|].
  by rewrite (table_in_rows _ _ _ _ Hin).
Qed.

Lemma run_clamp ly b db v obj t d :
  layout_wf ly -> storage ly b db v -> ly_tables ly !! obj = Some t -> id_datum (id_type_of t) d ->
  (b < MAX)%Z ->
  exists db' o, run_sql db (clamp_statement (id_type_of t) t d b) = Ok (db', o)
    /\ (storage ly b db' (view_remove obj d b v) /\ frame (eq (tb_qualified_name t)) (contents db) (contents db'))
    /\ oc_count o = (if v obj MAX d then 1 else 0)%nat.
Proof.
  intros Hw Hst Ht Hd Hb. pose proof (lw_table ly Hw obj t Ht) as Htw.
  destruct (storage_table ly b db v obj t Hst Ht) as (ts & Hin & Hs & Hv & Hfill).
  pose proof Hin as [Htab Hdef [Hdo Hok Hnn]].
  assert (can_clamp d b (ts_rows ts)) as Hcan by (eapply settled_can_clamp; [done..|lia]).
  destruct (clamp_rows _ d b _ Hok Hb Hcan) as (_ & _ & Hok' & _).
  pose proof (meaning_clamp (contents db) _ t ts d b Htw Hin Hd Hb Hcan) as Hm.
  apply run_sql_ok in Hm as (db' & o & Hrun & Hsame & _ & Hcount). exists db', o. split; [done|]. split.
  - eapply (store_step ly b db db' v _ obj t ts _ Hw Hst Ht Hin Hok'); [| |exact Hsame| | |].
    + intros r (r0 & -> & Hr0)%list_elem_of_fmap. by apply not_null_set, Hnn.
    + intros r. by apply (clamp_settled (id_type_of t) b d (ts_rows ts)).
    + intros n d'. by apply (clamp_view (id_type_of t)).
    + intros obj' n d' Hne. unfold view_remove. by rewrite at_entity_other.
    + intros r (r0 & -> & Hr0)%list_elem_of_fmap. unfold clamp_row. rewrite row_data_set. by apply Hfill.
  - rewrite <- Hcount. cbn [oc_count]. rewrite Hv, (version_filter (id_type_of t)) by done. unfold data_at.
    by destruct (version (ts_rows ts) MAX d).
Qed.

(** *** Inserting *)
Lemma meaning_insert db ty t ts st r :
  table_in db ty t ts -> inserts (db_enums db) t st r ->
  check_not_null (table_ddl t) r = Ok () -> existsb (excludes (table_ddl t) r) (ts_rows ts) = false ->
  meaning db st = Ok (with_rows db (tb_qualified_name t) ts (ts_rows ts ++ [r]), mk_outcome [] 1).
Proof.
  intros [Htab Hdef _] Hi Hn Hx. destruct st as [name columns values| | | | |]; try done.
  destruct Hi as (-> & data & Hd & Ha). unfold meaning, get_table. rewrite Htab. cbn [ok_or res_bind].
  rewrite Hd. cbn [res_bind]. rewrite Hdef, Ha. cbn [res_bind]. unfold insert_row. rewrite Hn. cbn [res_bind].
  by rewrite Hx.
Qed.

Lemma meaning_insert_conflict db ty t ts st r :
  table_in db ty t ts -> inserts (db_enums db) t st r ->
  existsb (excludes (table_ddl t) r) (ts_rows ts) = true ->
  exists e, meaning db st = Err e.
Proof.
  intros [Htab Hdef _] Hi Hx. destruct st as [name columns values| | | | |]; try done.
  destruct Hi as (-> & data & Hd & Ha). unfold meaning, get_table. rewrite Htab. cbn [ok_or res_bind].
  rewrite Hd. cbn [res_bind]. rewrite Hdef, Ha. cbn [res_bind]. unfold insert_row, check_not_null.
  destruct (existsb _ (td_columns _)); cbn; [by eexists|]. rewrite Hx. by eexists.
Qed.

(** The id of an entity that is stored. *)
Lemma pk_column ty t :
  table_wf ty t -> exists pk, pk ∈ tb_columns t /\ col_name pk = PRIMARY_KEY_COLUMN /\ col_field pk = "id"
                              /\ is_tsvector pk = false.
Proof.
  intros [_ _ (pk & Hpk & Hf & _ & Hty)]. apply primary_key_column in Hpk as [Hin Hn].
  exists pk. split; [done|]. split; [done|]. split; [done|]. unfold is_tsvector. by destruct (col_type pk).
Qed.

(** The row that is inserted for an entity. *)
Lemma insert_row_of enums ty t key entity b id d :
  table_wf ty t -> fulltext_wf t -> storable normalize enums t entity ->
  entity !! "id" = Some (VString id) -> id_value ty id = Ok d -> (b <= MAX)%Z ->
  exists q st r,
    InsertQuery_new t key entity b = Ok q /\ insert_statement q = Ok st /\ inserts enums t st r
    /\ row_ok ty r /\ row_range r = RangeBounds (Some b) None /\ row_id r = d
    /\ check_not_null (table_ddl t) r = Ok () /\ holds normalize enums t entity (row_data r).
Proof.
  intros Hw Hf Hs Hid Hd Hb.
  destruct (InsertQuery_new_ok normalize enums ty t key entity b Hw Hf Hs) as (e & Hq & He).
  destruct (insert_statement_ok normalize enums ty t key entity e b Hw Hf Hs He) as (st & r & Hst & Hi & Hr).
  destruct (pk_column ty t Hw) as (pk & Hpk & Hpn & Hpf & Hpt).
  assert (e !! "id" = Some (VString id)) as Heid.
  { rewrite <- Hpf, (wv_plain ty t entity e pk), Hpf by done. done. }
  destruct (row_of_ok normalize enums ty t e _ r id d Hw Hr Heid Hd) as (Hok & Hrg & Hrid); [done|].
  exists (mk_insert_query t key e b), st, r. split_and!; try done; [|by eapply row_of_holds].
  eapply row_of_not_null; [|exact Hr]. intros c Hc [Hpc|Hnn]%orb_true_iff.
  - apply String.eqb_eq in Hpc. rewrite (column_eq_name ty t c pk) by (done || congruence). rewrite Hpf. eauto.
  - apply negb_true_iff in Hnn. destruct (so_required _ _ _ _ Hs c Hc Hnn) as (v & Hv & Hne). exists v.
    split; [|done]. destruct (is_tsvector c) eqn:Ets; [|by rewrite (wv_plain ty t entity e c)].
    specialize (Hf c Hc). rewrite Ets in Hf. destruct Hf as (_ & ? & _). congruence.
Qed.

(** Entities of a type that can be inserted: with the id of their key. *)
Record insertable (ly : Layout) (db : Db) (key : EntityKey) (entity : Entity) (t : Table) (d : Datum) : Prop :=
  mk_insertable {
    in_table : ly_tables ly !! entity_type key = Some t;
    in_id : entity !! "id" = Some (VString (key_entity_id key));
    in_datum : id_value (id_type_of t) (key_entity_id key) = Ok d;
    in_storable : storable normalize (db_enums (contents db)) t entity;
  }.

(** It may be inserted before the last change. *)
Lemma run_insert ly b c db v key entity t d :
  layout_wf ly -> storage ly c db v -> insertable ly db key entity t d -> (b <= MAX)%Z -> (b <= c)%Z ->
  (forall n, (b <= n)%Z -> v (entity_type key) n d = None) ->
  exists db' x, insert_at t db key entity b = Ok db'
    /\ storage ly c db' (view_put (entity_type key) d b x v)
    /\ frame (eq (tb_qualified_name t)) (contents db) (contents db')
    /\ holds normalize (db_enums (contents db)) t entity x.
Proof.
  intros Hw Hst [Ht Hid Hd Hsto] Hb Hc Hnone. set (obj := entity_type key) in *.
  pose proof (lw_table ly Hw obj t Ht) as Htw.
  destruct (storage_table ly c db v obj t Hst Ht) as (ts & Hin & Hs & Hv & Hfill).
  pose proof Hin as [Htab Hdef [Hdo Hok Hnn]].
  destruct (insert_row_of (db_enums (contents db)) _ t key entity b _ d Htw (lw_fulltext ly Hw obj t Ht) Hsto Hid Hd Hb)
    as (q & st & r & Hq & Hstm & Hi & Hr & Hrg & Hrid & Hrn & Hh).
  destruct (insert_rows _ (table_ddl t) (ts_rows ts) r b eq_refl Hok Hr Hrg) as (Hx & Hok' & Hdata).
  { intros n Hn. rewrite Hrid, <- Hv. by apply Hnone. }
  pose proof (meaning_insert (contents db) _ t ts st r Hin Hi Hrn Hx) as Hm.
  apply run_sql_ok in Hm as (db' & o & Hrun & Hsame & _). exists db', (row_data r). split.
  { unfold insert_at. rewrite Hq. cbn [res_bind]. rewrite Hstm. cbn [res_bind]. by rewrite Hrun. }
  apply and_assoc. split; [|done].
  eapply (store_step ly c db db' v _ obj t ts _ Hw Hst Ht Hin Hok'); [| |exact Hsame| | |].
  - intros a [Ha| ->%list_elem_of_singleton]%elem_of_app; [by apply Hnn|by rewrite Hdef].
  - intros a [Ha| ->%list_elem_of_singleton]%elem_of_app; [by apply Hs|]. intros n m Hn Hm. rewrite Hrg.
    apply eq_true_iff_eq. rewrite !contains_bounds. lia.
  - intros n d'. apply option_eq. intros x. rewrite Hdata, Hrid. unfold view_put. rewrite Hv.
    destruct (at_entity obj d b obj n d') eqn:Ea.
    + apply (at_entity_iff _ _ _ _ _ _ (id_type_of t)) in Ea as (_ & -> & Hn); [|by eapply id_value_datum].
      rewrite <- Hv, Hnone by done. naive_solver.
    + split; [|by left]. intros [?|(-> & Hn & _)]; [done|].
      rewrite (proj2 (at_entity_iff obj d b obj n d (id_type_of t) (id_value_datum _ _ _ Hd))) in Ea; done.
  - intros obj' n d' Hne. unfold view_put. by rewrite at_entity_other.
  - intros a [Ha| ->%list_elem_of_singleton]%elem_of_app; [by apply Hfill|by exists entity].
Qed.

(** ** The operations *)
Lemma storage_ext ly b db v v' :
  (forall obj n d, v obj n d = v' obj n d) -> storage ly b db v -> storage ly b db v'.
Proof.
  intros E [[[Hok Hv] Hs] Hf]. split; [split; [|done]|done]. split; [done|]. intros obj t n d Ht. by rewrite <- E, (Hv obj t n d Ht).
Qed.

Lemma table_for_entity_ok ly obj t : ly_tables ly !! obj = Some t -> table_for_entity ly obj = Ok t.
Proof. intros Ht. unfold table_for_entity. by rewrite Ht. Qed.

Lemma view_removed ty obj d b v n : id_datum ty d -> (b <= n)%Z -> view_remove obj d b v obj n d = None.
Proof. intros Hd Hn. unfold view_remove. by rewrite (proj2 (at_entity_iff obj d b obj n d ty Hd)). Qed.

Lemma insertable_enums ly db db' key entity t d :
  db_enums (contents db') = db_enums (contents db) ->
  insertable ly db key entity t d -> insertable ly db' key entity t d.
Proof. intros E [? ? ? Hs]. split; [done..|by rewrite E]. Qed.

(** What there is now there is from the last change on. *)
Lemma store_later ly b db v obj t n d :
  store_at ly b db v -> ly_tables ly !! obj = Some t -> (b <= n)%Z -> (b <= MAX)%Z -> v obj n d = v obj MAX d.
Proof.
  intros Hst Ht Hn Hb. destruct (store_table ly b db v obj t Hst Ht) as (ts & Hin & Hs & Hv).
  rewrite !Hv. apply (settled_data (id_type_of t) b); [apply Hin|done..].
Qed.

(** Nothing changes after the largest block. *)
Lemma store_at_max ly db v : represents ly db v -> store_at ly MAX db v.
Proof.
  intros Hr. split; [done|]. intros obj t r Ht Hin n m Hn Hm.
  destruct (table_of_store ly _ obj t (rp_ok _ _ _ Hr) Ht) as (ts & Hts & Er). rewrite Er in Hin.
  destruct Hts as [_ _ [_ Hrok _]]. pose proof (ro_bounds _ _ (rk_rows _ _ Hrok r Hin)) as Hb.
  destruct (row_range r) as [|[l|] [u|]]; try done; cbn in Hb; apply eq_true_iff_eq;
    rewrite !contains_bounds; lia.
Qed.

Lemma layout_insert_ok ly db b c v key entity t d :
  layout_wf ly -> storage ly c db v -> insertable ly db key entity t d -> (b <= MAX)%Z -> (b <= c)%Z ->
  (forall n, (b <= n)%Z -> v (entity_type key) n d = None) ->
  exists db' x, layout_insert ly db key entity b = Ok db'
    /\ storage ly c db' (view_put (entity_type key) d b x v)
    /\ frame (eq (tb_qualified_name t)) (contents db) (contents db')
    /\ holds normalize (db_enums (contents db)) t entity x.
Proof.
  intros Hw Hst Hin Hb Hc Hn. unfold layout_insert. rewrite (table_for_entity_ok ly _ t) by apply Hin.
  by apply (run_insert ly b c db v key entity t d).
Qed.

Lemma layout_update_ok ly db b v key entity t d :
  layout_wf ly -> storage ly b db v -> insertable ly db key entity t d -> (b < MAX)%Z ->
  exists db' x, layout_update ly db key entity b = Ok db'
    /\ storage ly b db' (view_put (entity_type key) d b x v)
    /\ frame (eq (tb_qualified_name t)) (contents db) (contents db')
    /\ holds normalize (db_enums (contents db)) t entity x.
Proof.
  intros Hw Hst Hin Hb. pose proof Hin as [Ht Hid Hd Hsto].
  pose proof (id_value_datum _ _ _ Hd) as Hdd.
  unfold layout_update. rewrite (table_for_entity_ok ly _ t Ht). cbn [res_bind].
  rewrite (clamp_range_query_ok _ t key d b (lw_table ly Hw _ t Ht) Hd). cbn [res_bind].
  destruct (run_clamp ly b db v _ t d Hw Hst Ht Hdd Hb) as (db1 & o & -> & [Hst1 He1] & _). cbn [res_bind].
  destruct (run_insert ly b b db1 _ key entity t d Hw Hst1 (insertable_enums _ _ _ _ _ _ _ (fr_enums _ _ _ He1) Hin))
    as (db2 & x & Hi & Hst2 & He2 & Hh); [lia|done|intros n Hn; by eapply view_removed|].
  exists db2, x. split; [done|]. rewrite (fr_enums _ _ _ He1) in Hh.
  split; [|split; [by etrans|done]]. eapply storage_ext; [|done].
  intros obj n d'. unfold view_put, view_remove. by destruct (at_entity _ _ _ _ _ _).
Qed.

Lemma layout_delete_ok ly db b v key t d :
  layout_wf ly -> storage ly b db v -> ly_tables ly !! entity_type key = Some t ->
  id_value (id_type_of t) (key_entity_id key) = Ok d -> (b < MAX)%Z ->
  exists db', layout_delete ly db key b = Ok (db', if v (entity_type key) MAX d then 1 else 0)%nat
    /\ storage ly b db' (view_remove (entity_type key) d b v)
    /\ frame (eq (tb_qualified_name t)) (contents db) (contents db').
Proof.
  intros Hw Hst Ht Hd Hb. unfold layout_delete. rewrite (table_for_entity_ok ly _ t Ht). cbn [res_bind].
  rewrite (clamp_range_query_ok _ t key d b (lw_table ly Hw _ t Ht) Hd). cbn [res_bind].
  destruct (run_clamp ly b db v _ t d Hw Hst Ht (id_value_datum _ _ _ Hd) Hb) as (db1 & o & -> & [? ?] & <-).
  by exists db1.
Qed.

(** An insert where there is a version from the block on fails. *)
Lemma layout_insert_conflict ly db b v key entity t d n x :
  layout_wf ly -> represents ly db v -> insertable ly db key entity t d -> (b <= MAX)%Z ->
  (b <= n)%Z -> v (entity_type key) n d = Some x ->
  exists e, layout_insert ly db key entity b = Err (SESql e).
Proof.
  intros Hw [Hok Hv] [Ht Hid Hd Hsto] Hb Hn Hx. set (obj := entity_type key) in *.
  pose proof (lw_table ly Hw obj t Ht) as Htw.
  destruct (table_of_store ly _ obj t Hok Ht) as (ts & Hin & Er). pose proof Hin as [_ _ [_ Hrok _]].
  destruct (insert_row_of (db_enums (contents db)) _ t key entity b _ d Htw (lw_fulltext ly Hw obj t Ht) Hsto Hid Hd Hb)
    as (q & st & r & Hq & Hstm & Hi & Hr & Hrg & Hrid & _ & _).
  destruct (meaning_insert_conflict (contents db) _ t ts st r Hin Hi) as [e He].
  { eapply (insert_rows_conflict (id_type_of t)); try done. rewrite Hrid, <- Er.
    rewrite <- (Hv obj t n d Ht) in Hx. exact Hx. }
  destruct (run_sql_err db st e He) as [e' He']. exists e'.
  unfold layout_insert. rewrite (table_for_entity_ok ly (entity_type key) t Ht). cbn [res_bind]. unfold insert_at.
  rewrite Hq. cbn [res_bind]. rewrite Hstm. cbn [res_bind]. by rewrite He'.
Qed.

(** *** Finding *)
Lemma represents_same ly db db' v :
  same_database (contents db) (contents db') -> represents ly db v -> represents ly db' v.
Proof.
  intros Hsame [Hok Hv]. split.
  - intros obj t Ht. destruct (Hok obj t Ht) as [ts Hin].
    destruct (same_table_in _ _ _ _ _ Hsame Hin) as (ts' & ? & _). by exists ts'.
  - intros obj t n d Ht. rewrite <- (Hv obj t n d Ht). unfold table_view. symmetry.
    destruct (table_of_store ly _ obj t Hok Ht) as (ts & Hin & Er). rewrite Er.
    eapply (data_at_permutation (id_type_of t)); [apply Hin|]. rewrite <- Er. by apply same_rows.
Qed.

Lemma version_row ty rows n d x :
  rows_ok ty rows -> data_at rows n d = Some x ->
  exists rg, version rows n d = Some (set_range rg x).
Proof.
  intros Hok Hx. unfold data_at in Hx. apply fmap_Some in Hx as (r & Hr & ->). exists (row_range r).
  apply (version_iff rows n d r (rk_single ty rows Hok)) in Hr as Hin. destruct Hin as [Hin _].
  rewrite Hr. f_equal. rewrite <- (set_range_self ty r (rk_rows ty rows Hok r Hin)) at 1.
  unfold set_range, row_data. by rewrite insert_delete_eq.
Qed.

Lemma layout_find_ok ly db v obj t id d n :
  layout_wf ly -> represents ly db v -> ly_tables ly !! obj = Some t -> id_value (id_type_of t) id = Ok d ->
  exists db', same_database (contents db) (contents db')
    /\ match v obj n d with
       | None => layout_find normalize ly db obj id n = Ok (db', None)
       | Some x => forall enums entity, holds normalize enums t entity x ->
           exists e, layout_find normalize ly db obj id n = Ok (db', Some e) /\ e ≡ stored_entity t entity
       end.
Proof.
  intros Hw Hr Ht Hd. pose proof Hr as [Hok Hv]. pose proof (lw_table ly Hw obj t Ht) as Htw.
  destruct (table_of_store ly _ obj t Hok Ht) as (ts & Hin & Er). pose proof Hin as [_ _ [_ Hrok _]].
  pose proof (meaning_find (contents db) _ t ts d n Htw Hin (id_value_datum _ _ _ Hd)) as Hm.
  apply run_sql_ok in Hm as (db' & o & Hrun & Hsame & Hrows & _). exists db'.
  split; [done|]. rewrite <- (Hv obj t n d Ht). unfold table_view. rewrite Er.
  unfold layout_find. rewrite (table_for_entity_ok ly obj t Ht). cbn [res_bind].
  rewrite (find_query_ok _ t id d n Htw Hd). cbn [res_bind]. rewrite Hrun. cbn [res_bind].
  destruct (data_at (ts_rows ts) n d) as [x|] eqn:Ex.
  - intros enums entity (e & He & Hrow).
    destruct (version_row _ _ _ _ _ Hrok Ex) as [rg Hver]. rewrite Hver in Hrows. cbn in Hrows.
    apply Permutation_singleton_l in Hrows. rewrite <- Hrows.
    cbn [entity_data_of_row res_bind].
    destruct (deserialize_row normalize enums _ ly t entity e rg _ Htw (fun c => lw_parent ly Hw obj t c Ht) He (Hrow rg))
      as (e' & He' & Eq); [by rewrite (lw_object ly Hw obj t Ht)|].
    exists e'. by rewrite He'.
  - unfold data_at in Ex. apply fmap_None in Ex. rewrite Ex in Hrows. cbn in Hrows.
    apply Permutation_nil_l in Hrows. by rewrite <- Hrows.
Qed.

(** ** Reverting a block *)
Lemma filter_all_true {A} (p : A -> bool) l : (forall x, x ∈ l -> p x = true) -> List.filter p l = l.
Proof.
  induction l as [|x l IH]; intros Hp; [done|]. cbn. rewrite (Hp x) by left. f_equal. apply IH. intros; apply Hp; by right.
Qed.

Lemma id_text_str ty d :
  id_datum ty d ->
  match ty with IdString => id_text d | IdBytes => bytes_as_str (id_text d) end = id_str d.
Proof. destruct ty, d; try done. intros _. cbn [id_text id_str]. unfold bytea_text, bytes_as_str. apply trim_hex. Qed.

Lemma revert_ids_ok t (rows : list Row) p out :
  table_wf (id_type_of t) t -> (forall r, r ∈ rows -> row_ok (id_type_of t) r) ->
  (fun r => [DText (id_text (row_id r))]) <$> List.filter p rows ≡ₚ oc_rows out ->
  exists ids, revert_ids t out = Ok ids /\ list_to_set ids = ids_of p rows.
Proof.
  intros Hw Hr Ho. destruct (tw_id _ t Hw) as (pk & Hpk & _ & _ & Hty).
  assert ((fun r => [DText (id_text (row_id r))]) <$> List.filter p rows
          = map (fun s => [DText s]) ((fun r => id_text (row_id r)) <$> List.filter p rows)) as E0.
  { change (map (fun s => [DText s])) with (fmap (M := list) (fun s => [DText s])).
    by rewrite <- list_fmap_compose. }
  rewrite E0 in Ho. symmetry in Ho. apply Permutation_map_inv in Ho as (ss & Ess & Hss).
  unfold revert_ids. rewrite Ess.
  assert (map_res (fun row => match row with [DText id] => Ok id | _ => Panic end)
            (map (fun s => [DText s]) ss) = Ok ss :> sres (list string)) as ->.
  { clear. induction ss as [|s ss IH]; [done|]. cbn [map]. rewrite map_res_cons. cbn [res_bind]. by rewrite IH. }
  cbn [res_bind]. rewrite Hpk. cbn [lift_panic res_bind]. rewrite Hty. cbn [lift_panic res_bind].
  eexists. split; [done|].
  assert (match id_type_of t with IdString => ss | IdBytes => bytes_as_str <$> ss end
          ≡ₚ (fun r => id_str (row_id r)) <$> List.filter p rows) as E.
  { assert ((fun r => id_str (row_id r)) <$> List.filter p rows
            = match id_type_of t with
              | IdString => (fun r => id_text (row_id r)) <$> List.filter p rows
              | IdBytes => bytes_as_str <$> ((fun r => id_text (row_id r)) <$> List.filter p rows)
              end) as ->.
    { assert (forall r, r ∈ List.filter p rows -> id_datum (id_type_of t) (row_id r)) as Hid.
      { intros r [Hin%list_elem_of_In _]%list_elem_of_In%List.filter_In. by apply (ro_id _), Hr. }
      pose proof (id_text_str (id_type_of t)) as Hts.
      destruct (id_type_of t); [|rewrite <- list_fmap_compose]; apply list_fmap_ext;
        intros i r Hi%list_elem_of_lookup_2; symmetry; by apply Hts, Hid. }
    destruct (id_type_of t); [by symmetry|]. by rewrite <- Hss. }
  unfold ids_of. apply set_eq. intros s. rewrite !elem_of_list_to_set. by rewrite E.
Qed.

Lemma kept_unclamped b rows :
  ids_of (ended_after (b - 1)) (List.filter (fun r => negb (starts_from b r)) rows) = unclamped_ids b rows.
Proof.
  apply set_eq. intros s. unfold unclamped_ids. rewrite !elem_ids_of. split.
  - intros (r & [Hin%list_elem_of_In _]%list_elem_of_In%List.filter_In & ?). eauto.
  - intros (r & Hin & Hend & E). exists r. split; [|done]. apply list_elem_of_In, List.filter_In.
    split; [by apply list_elem_of_In|]. apply negb_true_iff. unfold starts_from, ended_after in *.
    destruct (row_range r) as [|[l|] u]; try done. cbn [range_lower]. apply Z.leb_gt.
    apply andb_true_iff in Hend as [Hc _]. apply contains_bounds in Hc. lia.
Qed.

(** What reverting a table reports. *)
Definition table_changes (ly : Layout) (t : Table) (b : Z) (rows : list Row) : gset EntityChange :=
  set_map (change_in ly (tb_object t) ChangeRemoved) (removed_ids b rows ∖ unclamped_ids b rows)
  ∪ set_map (change_in ly (tb_object t) ChangeSet) (unclamped_ids b rows).

Definition table_count (b : Z) (rows : list Row) : Z :=
  Z.of_nat (size (unclamped_ids b rows ∖ removed_ids b rows))
  - Z.of_nat (size (removed_ids b rows ∖ unclamped_ids b rows)).

Lemma run_revert_table ly db changes count obj t b :
  layout_wf ly -> store_ok ly (contents db) -> ly_tables ly !! obj = Some t ->
  let rows := rows_of (contents db) t in
  exists db', revert_table ly b (db, changes, count) t
              = Ok (db', changes ∪ table_changes ly t b rows, (count + table_count b rows)%Z)
    /\ store_ok ly (contents db') /\ rows_of (contents db') t ≡ₚ reverted b rows
    /\ (forall obj' t', ly_tables ly !! obj' = Some t' -> obj' <> obj ->
          rows_of (contents db') t' ≡ₚ rows_of (contents db) t')
    /\ frame (eq (tb_qualified_name t)) (contents db) (contents db').
Proof.
  intros Hw Hok Ht. cbv zeta. pose proof (lw_table ly Hw obj t Ht) as Htw.
  destruct (table_of_store ly _ obj t Hok Ht) as (ts & Hin & ->). pose proof Hin as [_ Hdef [_ Hrok Hnn]].
  destruct (run_sql_ok db _ _ _ (meaning_revert_remove (contents db) _ t ts b Htw Hin))
    as (db1 & o1 & Hrun1 & Hsame1 & Ho1 & _).
  set (kept := List.filter (fun r => negb (starts_from b r)) (ts_rows ts)) in *.
  assert (forall r, r ∈ kept -> r ∈ ts_rows ts /\ starts_from b r = false) as Hkept.
  { intros r [Hr%list_elem_of_In Hs%negb_true_iff]%list_elem_of_In%List.filter_In. done. }
  destruct (replace_rows ly (contents db) (contents db1) obj t ts kept) as (Hok1 & Hrows1 & Hother1 & He1);
    [done..|by apply kept_rows_ok|intros r Hr; by apply Hnn, Hkept|done|].
  destruct (table_of_store ly _ obj t Hok1 Ht) as (ts1 & Hin1 & Er1). rewrite Er1 in Hrows1.
  pose proof Hin1 as [_ Hdef1 [_ Hrok1 Hnn1]].
  assert (List.filter (fun r => negb (starts_from b r)) (ts_rows ts1) = ts_rows ts1) as Hall.
  { apply filter_all_true. intros r Hr. rewrite Hrows1 in Hr. apply Hkept in Hr as [_ ->]. done. }
  pose proof (reverted_apart _ b _ Hrok1) as Hap. rewrite Hall in Hap.
  destruct (run_sql_ok db1 _ _ _ (meaning_revert_clamp (contents db1) _ t ts1 (b - 1) Htw Hin1 Hap))
    as (db2 & o2 & Hrun2 & Hsame2 & Ho2 & _).
  destruct (reverted_rows _ b _ Hrok1) as [Hrok2 _]. unfold reverted in Hrok2. rewrite Hall in Hrok2.
  destruct (replace_rows ly (contents db1) (contents db2) obj t ts1 (unclamp_row (b - 1) <$> ts_rows ts1))
    as (Hok2 & Hrows2 & Hother2 & He2); [done..| |done|].
  { intros r (r0 & -> & Hr0)%list_elem_of_fmap. by apply not_null_set, Hnn1. }
  destruct (revert_ids_ok t (ts_rows ts) (starts_from b) o1 Htw (rk_rows _ _ Hrok) Ho1) as (ids1 & Hids1 & E1).
  destruct (revert_ids_ok t (ts_rows ts1) (ended_after (b - 1)) o2 Htw (rk_rows _ _ Hrok1) Ho2) as (ids2 & Hids2 & E2).
  rewrite (ids_of_permutation _ _ _ Hrows1) in E2. unfold kept in E2. rewrite kept_unclamped in E2.
  exists db2. split.
  { unfold revert_table. rewrite Hrun1. cbn [res_bind]. rewrite Hids1. cbn [res_bind]. rewrite Hrun2. cbn [res_bind].
    rewrite Hids2. cbn [res_bind]. rewrite E1, E2. unfold table_changes, table_count.
    fold (removed_ids b (ts_rows ts)). by rewrite (assoc_L (∪)). }
  split; [done|]. split; [by rewrite Hrows2; unfold reverted; fold kept; rewrite Hrows1|].
  split; [|by etrans]. intros obj' t' Ht' Hne. by rewrite (Hother2 obj' t' Ht' Hne), (Hother1 obj' t' Ht' Hne).
Qed.

Definition sum_Z : list Z -> Z := foldr Z.add 0%Z.

(** What a revert reports for a list of tables. *)
Definition all_changes (ly : Layout) (b : Z) (db : Database) (l : list (string * Table)) : gset EntityChange :=
  ⋃ ((fun ot => table_changes ly ot.2 b (rows_of db ot.2)) <$> l).
Definition all_count (b : Z) (db : Database) (l : list (string * Table)) : Z :=
  sum_Z ((fun ot => table_count b (rows_of db ot.2)) <$> l).

Lemma table_report_permutation ly t b rows rows' :
  rows ≡ₚ rows' -> table_changes ly t b rows = table_changes ly t b rows' /\ table_count b rows = table_count b rows'.
Proof.
  intros E. unfold table_changes, table_count, removed_ids, unclamped_ids.
  by rewrite !(ids_of_permutation _ _ _ E).
Qed.

Lemma report_permutation ly b db db' l :
  (forall ot, ot ∈ l -> rows_of db' ot.2 ≡ₚ rows_of db ot.2) ->
  all_changes ly b db' l = all_changes ly b db l /\ all_count b db' l = all_count b db l.
Proof.
  intros Hl. unfold all_changes, all_count.
  split; f_equal; apply list_fmap_ext; intros i ot Hi%list_elem_of_lookup_2;
    by apply (table_report_permutation ly ot.2 b _ _ (Hl ot Hi)).
Qed.

Lemma run_revert_tables ly b l db changes count :
  layout_wf ly -> store_ok ly (contents db) -> NoDup l.*1 ->
  (forall ot, ot ∈ l -> ly_tables ly !! ot.1 = Some ot.2) ->
  exists db', fold_res (revert_table ly b) (db, changes, count) l.*2
              = Ok (db', changes ∪ all_changes ly b (contents db) l, (count + all_count b (contents db) l)%Z)
    /\ store_ok ly (contents db')
    /\ (forall ot, ot ∈ l -> rows_of (contents db') ot.2 ≡ₚ reverted b (rows_of (contents db) ot.2))
    /\ (forall obj t, ly_tables ly !! obj = Some t -> obj ∉ l.*1 ->
          rows_of (contents db') t ≡ₚ rows_of (contents db) t)
    /\ frame (table_of ly) (contents db) (contents db').
Proof.
  intros Hw. revert db changes count. induction l as [|[obj t] l IH]; intros db changes count Hok Hnd Hl.
  { exists db. unfold all_changes, all_count. cbn. rewrite union_empty_r_L, Z.add_0_r.
    split_and!; try done. by intros ot ?%not_elem_of_nil. }
  rewrite fmap_cons in Hnd. apply NoDup_cons in Hnd as [Hn Hnd].
  pose proof (Hl (obj, t) ltac:(by left)) as Ht. cbn in Ht.
  destruct (run_revert_table ly db changes count obj t b Hw Hok Ht) as (db1 & Hrun & Hok1 & Hr1 & Ho1 & He1).
  assert (frame (table_of ly) (contents db) (contents db1)) as He1'.
  { eapply frame_weaken; [|exact He1]. intros name <-. by exists obj, t. }
  destruct (IH db1 (changes ∪ table_changes ly t b (rows_of (contents db) t))
              (count + table_count b (rows_of (contents db) t))%Z Hok1 Hnd) as (db2 & Hrun2 & Hok2 & Hr2 & Ho2 & He2).
  { intros ot Hot. apply Hl. by right. }
  assert (forall ot, ot ∈ l -> rows_of (contents db1) ot.2 ≡ₚ rows_of (contents db) ot.2) as Hsame.
  { intros ot Hot. apply (Ho1 ot.1); [apply Hl; by right|]. intros E. apply Hn. cbn. rewrite <- E.
    by apply list_elem_of_fmap_2. }
  destruct (report_permutation ly b (contents db) (contents db1) l Hsame) as [Ec En].
  exists db2. rewrite fmap_cons, fold_res_cons. cbn [snd]. rewrite Hrun. cbn [res_bind]. rewrite Hrun2, Ec, En.
  split; [|split; [done|split; [|split; [|by etrans]]]].
  - unfold all_changes, all_count. rewrite !fmap_cons. cbn [snd sum_Z foldr union_list].
    rewrite (assoc_L (∪)). by rewrite Z.add_assoc.
  - intros ot [->|Hot]%elem_of_cons; [cbn [snd]; rewrite (Ho2 obj t) by done; done|].
    rewrite (Hr2 ot Hot). unfold reverted. by rewrite (filter_permutation _ _ _ (Hsame ot Hot)).
  - intros obj' t' Ht' Hnot. rewrite fmap_cons, not_elem_of_cons in Hnot. destruct Hnot as [Hne Hnot].
    rewrite (Ho2 obj' t' Ht' Hnot). by apply (Ho1 obj').
Qed.

(** The number of entities, as the count query of the layout counts them. *)
Definition entities_at (ly : Layout) (db : Database) (n : Z) : Z :=
  sum_Z ((fun ot : string * Table => Z.of_nat (size (live (rows_of db ot.2) n))) <$> hash_iter (ly_tables ly)).
Definition entity_count (ly : Layout) (db : Database) : Z := entities_at ly db MAX.

Lemma settled_reverted b r : range_ok (row_range r) -> starts_from b r = false ->
  settled_row (b - 1) (unclamp_row (b - 1) r).
Proof.
  intros Hr Hs n m Hn Hm. unfold unclamp_row. rewrite row_range_set. unfold unclamp_range, starts_from in *.
  destruct (ended_after (b - 1) r) eqn:He.
  - destruct (row_range r) as [|[l|] u]; try done. cbn [range_lower] in *. apply Z.leb_gt in Hs.
    apply eq_true_iff_eq. rewrite !contains_bounds. lia.
  - unfold ended_after in He. destruct (row_range r) as [|[l|] u]; try done. cbn [range_lower] in Hs.
    apply Z.leb_gt in Hs. apply eq_true_iff_eq. rewrite !contains_bounds.
    destruct u as [u|]; [|lia]. cbn in Hr.
    apply andb_false_iff in He as [He|He%negb_false_iff%contains_bounds]; [|lia].
    apply not_true_iff_false in He. rewrite contains_bounds in He. lia.
Qed.

Lemma elem_table_changes ly t b rows op id :
  change_in ly (tb_object t) op id ∈ table_changes ly t b rows <->
    match op with
    | ChangeSet => id ∈ unclamped_ids b rows
    | ChangeRemoved => id ∈ removed_ids b rows /\ id ∉ unclamped_ids b rows
    end.
Proof.
  unfold table_changes. rewrite elem_of_union, !elem_of_map. setoid_rewrite elem_of_difference. split.
  - intros [(i & E & Hi)|(i & E & Hi)]; injection E as -> ->; done.
  - intros Hop. destruct op; [right|left]; by exists id.
Qed.

Lemma elem_all_changes ly b db obj t op id :
  layout_wf ly -> ly_tables ly !! obj = Some t ->
  change_in ly obj op id ∈ all_changes ly b db (hash_iter (ly_tables ly)) <->
  change_in ly obj op id ∈ table_changes ly t b (rows_of db t).
Proof.
  intros Hw Ht. unfold all_changes. rewrite elem_of_union_list. split.
  - intros (X & ([obj' t'] & -> & Hin%hash_iter_elem)%list_elem_of_fmap & Hc). cbn [snd] in Hc.
    assert (obj' = obj) as ->.
    { unfold table_changes in Hc. rewrite elem_of_union, !elem_of_map in Hc. rewrite <- (lw_object ly Hw obj' t' Hin).
      destruct Hc as [(i & E & _)|(i & E & _)]; injection E; congruence. }
    congruence.
  - intros Hc. eexists. split; [|exact Hc]. apply list_elem_of_fmap. exists (obj, t). split; [done|].
    by apply hash_iter_elem.
Qed.

Lemma sum_difference {A} (f g h : A -> Z) l :
  (forall x, x ∈ l -> f x = (g x - h x)%Z) -> sum_Z (f <$> l) = (sum_Z (g <$> l) - sum_Z (h <$> l))%Z.
Proof.
  induction l as [|x l IH]; intros Hf; [done|]. rewrite !fmap_cons. cbn [sum_Z foldr].
  pose proof (IH (fun y Hy => Hf y (list_elem_of_further _ _ _ Hy))) as E. unfold sum_Z in *.
  rewrite (Hf x) by left. lia.
Qed.

Lemma table_count_live ty b rows :
  rows_ok ty rows -> (forall r, r ∈ rows -> settled_row b r) -> (b <= MAX)%Z ->
  table_count b rows = (Z.of_nat (size (live rows (b - 1))) - Z.of_nat (size (live rows MAX)))%Z.
Proof.
  intros Hok Hs Hb. unfold table_count. rewrite (deleted_ids ty), (inserted_ids ty) by done. apply size_exchange.
Qed.

Lemma live_reverted ty b rows :
  rows_ok ty rows -> (b <= MAX)%Z -> live (reverted b rows) MAX = live rows (b - 1).
Proof.
  intros Hok Hb. destruct (reverted_rows ty b rows Hok) as [Hok' Hd]. apply set_eq. intros s.
  split; intros Hin; pose proof Hin as (r & Hr & _ & <-)%elem_ids_of.
  - assert (id_datum ty (row_id r)) as Hid by (by apply (ro_id ty), Hok').
    apply (elem_live ty) in Hin; [|done..]. rewrite Hd in Hin. apply (elem_live ty); [done..|].
    by rewrite Z.min_r in Hin by lia.
  - assert (id_datum ty (row_id r)) as Hid by (by apply (ro_id ty), Hok).
    apply (elem_live ty) in Hin; [|done..]. apply (elem_live ty); [done..|]. rewrite Hd.
    by rewrite Z.min_r by lia.
Qed.

(** What the changes of a revert say about an entity. *)
Definition reports (ly : Layout) (b : Z) (v : View) (changes : gset EntityChange) : Prop :=
  forall obj t d, ly_tables ly !! obj = Some t -> id_datum (id_type_of t) d ->
    (change_in ly obj ChangeRemoved (id_str d) ∈ changes -> v obj (b - 1)%Z d = None)
    /\ (change_in ly obj ChangeSet (id_str d) ∈ changes -> is_Some (v obj (b - 1)%Z d))
    /\ (change_in ly obj ChangeRemoved (id_str d) ∉ changes ->
        change_in ly obj ChangeSet (id_str d) ∉ changes -> v obj (b - 1)%Z d = v obj MAX d).

Lemma all_changes_report ly b db v :
  layout_wf ly -> represents ly db v -> (b <= MAX)%Z ->
  reports ly b v (all_changes ly b (contents db) (hash_iter (ly_tables ly))).
Proof.
  intros Hw [Hok Hv] Hb obj t d Ht Hd. rewrite !(elem_all_changes ly b _ obj t) by done.
  destruct (table_of_store ly _ obj t Hok Ht) as (ts & Hin & Er). pose proof Hin as [_ _ [_ Hrok _]].
  rewrite <- !(Hv obj t _ d Ht). unfold table_view. rewrite Er.
  rewrite <- (lw_object ly Hw obj t Ht), !elem_table_changes. split_and!.
  - intros [H1 H2]. apply eq_None_not_Some. rewrite <- (elem_live (id_type_of t)) by done.
    by eapply deleted_not_live.
  - intros Hu. rewrite <- (elem_live (id_type_of t)) by done. by apply unclamped_live.
  - intros H1 H2. apply (unreported_same (id_type_of t)); try done. intros Hr. by apply H1.
Qed.

Lemma revert_block_ok ly db v b :
  layout_wf ly -> represents ly db v -> (b <= MAX)%Z ->
  exists db' changes count, layout_revert_block ly db b = Ok (db', changes, count)
    /\ store_at ly (b - 1) db' (view_revert b v)
    /\ (forall obj t r, ly_tables ly !! obj = Some t -> r ∈ rows_of (contents db') t ->
          exists r0, r0 ∈ rows_of (contents db) t /\ row_data r = row_data r0)
    /\ frame (table_of ly) (contents db) (contents db')
    /\ reports ly b v changes
    /\ (store_at ly b db v -> count = (entity_count ly (contents db') - entity_count ly (contents db))%Z)
    /\ entity_count ly (contents db') = entities_at ly (contents db) (b - 1).
Proof.
  intros Hw Hrep Hb. pose proof Hrep as [Hok Hv].
  assert (forall ot, ot ∈ hash_iter (ly_tables ly) -> ly_tables ly !! ot.1 = Some ot.2) as Hl.
  { by intros [o t] ?%hash_iter_elem. }
  assert (NoDup (hash_iter (ly_tables ly)).*1) as Hnd by (rewrite hash_iter_perm; apply NoDup_fst_map_to_list).
  destruct (run_revert_tables ly b _ db ∅ 0%Z Hw Hok Hnd Hl) as (db' & Hrun & Hok' & Hr & _ & He).
  assert (forall obj t, ly_tables ly !! obj = Some t ->
            rows_of (contents db') t ≡ₚ reverted b (rows_of (contents db) t)) as Hrows.
  { intros obj t Ht. apply (Hr (obj, t)). by apply hash_iter_elem. }
  assert (forall obj t, ly_tables ly !! obj = Some t -> rows_ok (id_type_of t) (rows_of (contents db) t)) as Hrok.
  { intros obj t Ht. destruct (table_of_store ly _ obj t Hok Ht) as (ts & Hin & ->). apply Hin. }
  assert (entity_count ly (contents db') = entities_at ly (contents db) (b - 1)) as Hcount.
  { unfold entity_count, entities_at. f_equal. apply list_fmap_ext.
    intros i [obj t] Ht%list_elem_of_lookup_2%hash_iter_elem. cbn [snd]. do 2 f_equal.
    unfold live at 1. rewrite (ids_of_permutation _ _ _ (Hrows obj t Ht)). fold (live (reverted b (rows_of (contents db) t)) MAX).
    apply (live_reverted (id_type_of t)); [by eapply Hrok|done]. }
  eexists _, _, _. split; [exact Hrun|]. split; [split|split; [|split; [done|split; [|split; [|done]]]]].
  - split; [done|]. intros obj t n d Ht. unfold table_view, view_revert. rewrite <- (Hv obj t _ d Ht).
    destruct (reverted_rows (id_type_of t) b _ (Hrok obj t Ht)) as [Hrv Hd].
    rewrite <- (data_at_permutation (id_type_of t) _ _ n d Hrv); [by rewrite Hd|]. symmetry. by eapply Hrows.
  - intros obj t r Ht Hin. rewrite (Hrows obj t Ht) in Hin. unfold reverted in Hin.
    apply list_elem_of_fmap in Hin as (r0 & -> & [Hr0%list_elem_of_In Hs%negb_true_iff]%list_elem_of_In%List.filter_In).
    apply settled_reverted; [|done]. by apply (ro_bounds (id_type_of t)), (Hrok obj t Ht).
  - intros obj t r Ht Hin. rewrite (Hrows obj t Ht) in Hin. unfold reverted in Hin.
    apply list_elem_of_fmap in Hin as (r0 & -> & [Hr0%list_elem_of_In _]%list_elem_of_In%List.filter_In).
    exists r0. by rewrite row_data_set.
  - rewrite union_empty_l_L. by apply all_changes_report.
  - intros [_ Hset]. rewrite Z.add_0_l, Hcount. unfold all_count, entity_count, entities_at. apply sum_difference.
    intros [obj t] Ht%hash_iter_elem. cbn [snd].
    by rewrite (table_count_live (id_type_of t)) by (first [done|by eapply Hrok|by intros; eapply Hset]).
Qed.
End views.
