(* ===== verification/QueryMeaning.v ===== *)
(** * What queries return

    The entities a query of the relational store finds: those that exist at the
    block and satisfy the filter, sorted by the attribute it asks for and then
    by id, from [skip] on and at most [first] ([Layout::query] of a single
    entity type, [FilterQuery::query_no_window_one_entity]). *)

From stdpp Require Import prelude list strings gmap sorting.
From Stdlib Require Import ZArith Lia Ascii.
From S2P Require Import Prelude.
From S2P Require Import Sorting.
From S2P Require Import StoreValue.
From S2P Require Import EntityCache.
From S2P Require Import StoreQuery.
From S2P Require Import GraphqlSchema.
From S2P Require Import QueryBuild.
From S2P Require Import Schema.
From S2P Require Import Sql.
From S2P Require Import Selects.
From S2P Require Import Layout.
From S2P Require Import RelationalQueries.
From S2P Require Import FilterQueries.
From S2P Require Import ColumnValues.
From S2P Require Import Collation.
From S2P Require Import FilterMeaning.
From S2P Require Import Versions.
From S2P Require Import VersionedTables.
From S2P Require Import EntityRows.
From S2P Require Import RelationalStore.
From S2P Require Import StoreViews.

#[local] Open Scope string_scope.
#[local] Open Scope list_scope.

(** ** The columns a filter mentions *)
Section columns.
Context {ST : ScalarText} {PT : PgText}.

Definition mentions (c : Column) (e : SqlExpr) : Prop := Forall (eq (col_name c)) (expr_columns e).

Lemma array_columns (f : Value -> sres Datum) l e : bind_array f l = Ok e -> expr_columns e = [].
Proof. unfold bind_array. destruct (map_res f l); [by intros [= <-]|done..]. Qed.

Lemma concat_columns e es :
  expr_columns e = [] -> Forall (fun e => expr_columns e = []) es -> expr_columns (foldl ETsConcat e es) = [].
Proof.
  intros He Hes. revert e He. induction Hes as [|x es Hx _ IH]; intros e He; [done|]. cbn. apply IH. cbn. by rewrite He, Hx.
Qed.

(** A bound value has none. *)
Lemma bound_columns v ct e : bind_value v ct = Ok e -> expr_columns e = [].
Proof.
  destruct v as [s|i|d|b|l| |b|n]; cbn [bind_value]; try (by intros [= <-]).
  - destruct ct; try done; try (by intros [= <-]); by destruct (bytes_of_str s); intros [= <-].
  - destruct ct; try apply array_columns; try (by intros [= <-]).
    + destruct (map_res _ l) as [es|?|] eqn:Em; try done. cbn [res_bind]. intros [= <-].
      destruct es as [|x es]; [done|].
      assert (Forall (fun e => expr_columns e = []) (x :: es)) as Hes.
      { apply Forall_forall. intros y (j & Hy)%list_elem_of_lookup.
        destruct (Forall2_lookup_r _ _ _ _ _ (proj1 (map_res_Forall2 _ _ _) Em) Hy) as (w & _ & Hw).
        unfold to_tsvector_expr in Hw. by destruct w; try done; injection Hw as <-. }
      apply Forall_cons in Hes as [Hx Hes]. by apply concat_columns.
    + destruct (bind_array sql_text l) as [x|?|] eqn:Ea; try done. intros [= <-]. by apply (array_columns _ _ _ Ea).
Qed.

Lemma compare_mentions op c e v :
  mentions c e -> expr_columns v = [] -> mentions c (compare_expr op e v).
Proof. unfold mentions. intros He Hv. destruct op; cbn; by rewrite Hv, app_nil_r. Qed.

Lemma negate_mentions c (negated : bool) e : mentions c e -> mentions c (negate_if negated e).
Proof. by destruct negated. Qed.

Lemma column_mentions c : mentions c (EColumn (col_name c)).
Proof. by repeat constructor. Qed.

Lemma prefix_mentions c : mentions c (column_prefix c).
Proof. by repeat constructor. Qed.

Lemma both_mention c (op : SqlExpr -> SqlExpr -> SqlExpr) a b :
  (forall a b, expr_columns (op a b) = expr_columns a ++ expr_columns b) ->
  mentions c a -> mentions c b -> mentions c (op a b).
Proof. unfold mentions. intros Hop Ha Hb. rewrite Hop. by apply Forall_app. Qed.

Lemma cmp_mentions c x op e :
  (prefix_cmp c x op = Ok e \/ full_cmp c x op = Ok e) -> mentions c e.
Proof.
  unfold prefix_cmp, full_cmp. destruct (bind_value x (col_type c)) as [v| |] eqn:Ev; [|naive_solver..].
  apply bound_columns in Ev. intros [[= <-]|[= <-]].
  - apply compare_mentions; [apply prefix_mentions|]. cbn. by rewrite Ev.
  - by apply compare_mentions; [apply column_mentions|].
Qed.

Lemma prefix_comparison_mentions op c x e : prefix_comparison op c x = Ok e -> mentions c e.
Proof.
  unfold prefix_comparison. destruct x as [s| | | | | | |]; try done.
  assert (forall o v, prefix_cmp c (VString s) o = Ok v -> mentions c v) as Hp by (intros; eapply cmp_mentions; eauto).
  assert (forall o v, full_cmp c (VString s) o = Ok v -> mentions c v) as Hf by (intros; eapply cmp_mentions; eauto).
  cbv zeta. destruct (_ <? _)%Z; destruct op; try (by apply Hp); try (by apply Hf);
    repeat match goal with
           | |- context [res_bind ?m _] =>
               let E := fresh "E" in destruct m eqn:E; cbn [res_bind]; [apply Hp in E || apply Hf in E|done|done]
           end; intros [= <-]; repeat (apply both_mention; [done| |]); done.
Qed.

Lemma equals_mentions t a v op c e :
  filter_column t a = Ok c -> equals_filter t a v op = Ok e -> mentions c e.
Proof.
  intros Hc. unfold equals_filter. rewrite Hc. cbn [res_bind].
  destruct (is_text c && _); [apply prefix_comparison_mentions|].
  assert (forall f, (forall x, expr_columns x = [] -> mentions c (f x)) ->
    (let? x := bind_value v (col_type c) in Ok (f x)) = Ok e -> mentions c e) as Hb.
  { intros f Hf. destruct (bind_value v (col_type c)) as [x| |] eqn:Ev; [|done..]. intros [= <-].
    by eapply Hf, bound_columns. }
  destruct (is_fulltext c).
  - apply Hb. intros x Hx. unfold mentions. cbn. rewrite Hx. by repeat constructor.
  - assert (forall x, expr_columns x = [] -> mentions c (compare_expr op (EColumn (col_name c)) x)) as Hcmp
      by (intros; apply compare_mentions; [apply column_mentions|done]).
    destruct v; try (by apply Hb). destruct op; try done; intros [= <-]; apply column_mentions.
Qed.

Lemma compare_filter_mentions t a v op c e :
  filter_column t a = Ok c -> compare_filter t a v op = Ok e -> mentions c e.
Proof.
  intros Hc. unfold compare_filter. rewrite Hc. cbn [res_bind].
  destruct (is_text c && _); [apply prefix_comparison_mentions|].
  destruct (bind_value v (col_type c)) as [x| |] eqn:Ev; [|by destruct v..].
  apply bound_columns in Ev. destruct v; try done; cbn [res_bind]; intros [= <-];
    (apply compare_mentions; [apply column_mentions|done]).
Qed.

Lemma in_array_mentions `{HashOrder} t a vs negated c e :
  filter_column t a = Ok c -> in_array t a vs negated = Ok e -> mentions c e.
Proof.
  intros Hc. unfold in_array. rewrite Hc. cbn [res_bind]. destruct vs as [|v0 vs0] eqn:Evs; [by intros [= <-]; constructor|].
  rewrite <- Evs. destruct (map_res _ (List.filter _ _)) as [es| |] eqn:Em; [|done..]. cbn [res_bind].
  set (x := if is_text c && forallb is_short_string vs then column_prefix c else EColumn (col_name c)).
  assert (mentions c x) as Hx by (subst x; destruct (_ && _); [apply prefix_mentions|apply column_mentions]).
  assert (mentions c (negate_if negated (EIn x es))) as Hin.
  { apply negate_mentions. unfold mentions. cbn [expr_columns]. apply Forall_app. split; [done|].
    apply Forall_forall. intros k (y & Hk & (j & Hy)%list_elem_of_lookup)%list_elem_of_bind.
    destruct (Forall2_lookup_r _ _ _ _ _ (proj1 (map_res_Forall2 _ _ _) Em) Hy) as (w & _ & Hw).
    apply bound_columns in Hw. rewrite Hw in Hk. by apply not_elem_of_nil in Hk. }
  assert (mentions c (negate_if negated (EIsNull (EColumn (col_name c))))) as Hnull
    by (apply negate_mentions, column_mentions).
  intros [= <-]. destruct (existsb is_null_value vs && _); [by apply both_mention|].
  by destruct (existsb is_null_value vs).
Qed.

Lemma contains_mentions t a v negated c e :
  filter_column t a = Ok c -> contains_filter t a v negated = Ok e -> mentions c e.
Proof.
  intros Hc. unfold contains_filter. rewrite Hc. cbn [res_bind]. destruct v as [s| | | |l| |b|]; try done.
  - intros [= <-]. apply negate_mentions. unfold mentions. cbn. by repeat constructor.
  - destruct (bind_value _ _) as [x| |] eqn:Ev; [|done..]. intros [= <-]. apply bound_columns in Ev.
    unfold mentions. cbn [expr_columns]. rewrite Ev. by repeat constructor.
  - intros [= <-]. destruct negated; by repeat constructor.
Qed.

Lemma like_mentions t a v negated starts c e :
  filter_column t a = Ok c -> starts_or_ends_with t a v negated starts = Ok e -> mentions c e.
Proof.
  intros Hc. unfold starts_or_ends_with. rewrite Hc. cbn [res_bind]. destruct v as [s| | | |l| |b|]; try done.
  intros [= <-]. apply negate_mentions. unfold mentions. cbn. by repeat constructor.
Qed.

(** The columns of a table. *)
Definition of_table (t : Table) (k : string) : Prop := exists c, c ∈ tb_columns t /\ k = col_name c.

Lemma filter_column_elem t a c : filter_column t a = Ok c -> c ∈ tb_columns t.
Proof.
  unfold filter_column. destruct (column_for_field t a) as [c'| |] eqn:E; [|done..]. intros [= ->].
  by apply column_for_field_elem in E as [? _].
Qed.

Lemma mentions_of_table t c e : c ∈ tb_columns t -> mentions c e -> Forall (of_table t) (expr_columns e).
Proof. intros Hc Hm. eapply Forall_impl; [exact Hm|]. intros k <-. by exists c. Qed.

Lemma atom_columns `{HashOrder} t f e :
  is_atom f -> filter_expr t f = Ok e -> Forall (of_table t) (expr_columns e).
Proof.
  intros Hatom He.
  assert (exists c, filter_column t (filter_attribute f) = Ok c) as [c Hc].
  { destruct f; try done; cbn [filter_expr filter_attribute] in *;
      unfold equals_filter, compare_filter, in_array, contains_filter, starts_or_ends_with in He;
      destruct (filter_column t a); by eauto. }
  apply (mentions_of_table t c); [by eapply filter_column_elem|].
  destruct f; try done; cbn [filter_expr filter_attribute] in *;
    eauto using equals_mentions, compare_filter_mentions, in_array_mentions, contains_mentions, like_mentions.
Qed.

Lemma binary_columns (P : string -> Prop) (op : SqlExpr -> SqlExpr -> SqlExpr) on_empty es :
  (forall a b, expr_columns (op a b) = expr_columns a ++ expr_columns b) ->
  Forall (fun e => Forall P (expr_columns e)) es -> Forall P (expr_columns (binary_op op on_empty es)).
Proof.
  intros Hop Hes. destruct Hes as [|e es He Hes]; [constructor|]. cbn [binary_op].
  revert e He. induction Hes as [|x es Hx _ IH]; intros e He; [done|]. cbn [foldl]. apply IH. rewrite Hop.
  by apply Forall_app.
Qed.

Lemma filters_columns `{HashOrder} t fs es :
  Forall (fun f => forall e, filter_expr t f = Ok e -> Forall (of_table t) (expr_columns e)) fs ->
  map_res (filter_expr t) fs = Ok es -> Forall (fun e => Forall (of_table t) (expr_columns e)) es.
Proof.
  intros HI Hm%map_res_Forall2. induction Hm as [|f e fs es He _ IH]; [constructor|].
  apply Forall_cons in HI as [Hf HI]. constructor; auto.
Qed.

Lemma filter_columns `{HashOrder} t f e : filter_expr t f = Ok e -> Forall (of_table t) (expr_columns e).
Proof.
  revert f e. apply (EntityFilter_nested (fun f => forall e, filter_expr t f = Ok e -> _)); intros f HI.
  - intros e. rewrite filter_expr_and. destruct (map_res _ _) as [es| |] eqn:Em; [|done..]. intros [= <-].
    apply binary_columns; [done|]. by eapply filters_columns.
  - intros e. rewrite filter_expr_or. destruct (map_res _ _) as [es| |] eqn:Em; [|done..]. intros [= <-].
    apply binary_columns; [done|]. by eapply filters_columns.
  - intros e He. by eapply atom_columns.
Qed.
End columns.

(** ** Orders *)
Section preorders.
Context {A : Type}.

Lemma strict_preorder (c : A -> A -> comparison) (P : A -> Prop) :
  (forall x y, P x -> P y -> c x y = Eq -> x = y) -> (forall x y, P x -> P y -> c y x = CompOpp (c x y)) ->
  (forall x y z, P x -> P y -> P z -> c x y = Lt -> c y z = Lt -> c x z = Lt) -> total_preorder_on c P.
Proof.
  intros He Ho Ht. split; [done|]. unfold cle. intros x y z Hx Hy Hz Hxy Hyz.
  destruct (c x y) eqn:Exy; [apply He in Exy as ->; done| |done].
  destruct (c y z) eqn:Eyz; [apply He in Eyz as <-; congruence|rewrite (Ht x y z); done|done].
Qed.

Definition then_by (c1 c2 : A -> A -> comparison) (x y : A) : comparison :=
  match c1 x y with Eq => c2 x y | o => o end.

Lemma then_by_total (c1 c2 : A -> A -> comparison) (P : A -> Prop) :
  total_preorder_on c1 P -> total_preorder_on c2 P -> total_preorder_on (then_by c1 c2) P.
Proof.
  intros T1 T2. pose proof (tp_opp c1 P T1) as O1. pose proof (tp_opp c2 P T2) as O2. split.
  - intros x y Hx Hy. unfold then_by. rewrite (O1 x y), (O2 x y) by done. by destruct (c1 x y).
  - intros x y z Hx Hy Hz. pose proof (tp_trans c1 P T1 x y z Hx Hy Hz) as Hxz.
    pose proof (tp_trans c1 P T1 y z x Hy Hz Hx) as Hyx. pose proof (tp_trans c1 P T1 z x y Hz Hx Hy) as Hzy.
    pose proof (tp_trans c2 P T2 x y z Hx Hy Hz) as H2. unfold cle, then_by in *.
    rewrite (O1 x y), (O1 y z), (O1 x z) in * by done.
    destruct (c1 x y), (c1 y z), (c1 x z); cbn in *; intros;
      first [done|by apply H2|by apply Hxz|exfalso; by apply Hyx|exfalso; by apply Hzy].
Qed.
End preorders.

Lemma preorder_comap {A B} (f : B -> A) (c : A -> A -> comparison) (P : A -> Prop) :
  total_preorder_on c P -> total_preorder_on (fun x y => c (f x) (f y)) (fun x => P (f x)).
Proof.
  intros [Ho Ht]. split; [intros x y; apply Ho|]. unfold cle in *. intros x y z Hx Hy Hz. by apply Ht.
Qed.

(** Comparing numbers with any number of decimals. *)
Lemma BigDecimal_compare_common a b s :
  (bd_scale a <= s)%Z -> (bd_scale b <= s)%Z ->
  BigDecimal_compare a b = (bd_digits a * 10 ^ (s - bd_scale a) ?= bd_digits b * 10 ^ (s - bd_scale b))%Z.
Proof.
  intros Ha Hb. unfold BigDecimal_compare. set (m := Z.max (bd_scale a) (bd_scale b)).
  replace (s - bd_scale a)%Z with (m - bd_scale a + (s - m))%Z by lia.
  replace (s - bd_scale b)%Z with (m - bd_scale b + (s - m))%Z by lia.
  rewrite !Z.pow_add_r, !Z.mul_assoc by lia. apply Zmult_compare_compat_r.
  apply Z.lt_gt, Z.pow_pos_nonneg; lia.
Qed.

Lemma BigDecimal_total : total_preorder_on BigDecimal_compare (fun _ => True).
Proof.
  split; unfold cle.
  - intros x y _ _. rewrite (BigDecimal_compare_common x y (Z.max (bd_scale x) (bd_scale y))) by lia.
    rewrite (BigDecimal_compare_common y x (Z.max (bd_scale x) (bd_scale y))) by lia. apply Z.compare_antisym.
  - intros x y z _ _ _. set (s := Z.max (bd_scale x) (Z.max (bd_scale y) (bd_scale z))).
    rewrite (BigDecimal_compare_common x y s), (BigDecimal_compare_common y z s), (BigDecimal_compare_common x z s) by lia.
    rewrite !Z.compare_gt_iff. lia.
Qed.

Lemma StronglySorted_fmap {A B} (f : A -> B) (R : B -> B -> Prop) l :
  StronglySorted (fun x y => R (f x) (f y)) l -> StronglySorted R (f <$> l).
Proof.
  induction 1 as [|x l _ IH Hx]; [constructor|]. rewrite fmap_cons. constructor; [done|]. by apply Forall_fmap.
Qed.

Lemma map_res_all_ok_fmap {E A B C} (f : B -> res E C) (g : A -> B) (h : A -> C) l :
  (forall a, f (g a) = Ok (h a)) -> map_res f (g <$> l) = Ok (h <$> l).
Proof.
  intros Hf. induction l as [|a l IH]; [done|]. rewrite !fmap_cons, map_res_cons, Hf. cbn [res_bind]. by rewrite IH.
Qed.

Section order.
Context {ST : ScalarText} {STL : ScalarTextLaws} {PT : PgText} {PTL : PgTextLaws} {CC : CharacterCollation}.

Lemma collation_total : total_preorder_on text_compare (fun _ => True).
Proof.
  apply strict_preorder.
  - intros s t _ _. apply text_compare_eq.
  - intros s t _ _. apply text_compare_opp.
  - intros s t u _ _ _. apply text_compare_trans.
Qed.

(** *** Ids *)
Definition id_order (a b : Datum) : comparison :=
  match a, b with
  | DText s, DText t => text_compare s t
  | DBytea b, DBytea c => bytes_compare b c
  | _, _ => Eq
  end.

Definition byte_key (b : list Byte.byte) : list Z := (fun x => Z.of_N (Byte.to_N x)) <$> b.

Lemma byte_key_inj b c : byte_key b = byte_key c -> b = c.
Proof.
  revert c. induction b as [|x b IH]; intros [|y c]; try done. cbn. intros [= E%N2Z.inj ?]. f_equal; [|by apply IH].
  pose proof (Byte.of_to_N x) as Hx. rewrite E, Byte.of_to_N in Hx. by injection Hx.
Qed.

Lemma bytes_compare_key b c : bytes_compare b c = list_compare (byte_key b) (byte_key c).
Proof. revert c. induction b as [|x b IH]; intros [|y c]; try done. cbn. rewrite <- N2Z.inj_compare, <- IH. done. Qed.

Lemma id_order_eq ty a b : id_datum ty a -> id_datum ty b -> id_order a b = Eq -> a = b.
Proof.
  destruct ty, a, b; try done; cbn; intros _ _.
  - by intros ->%text_compare_eq.
  - rewrite bytes_compare_key. by intros ->%list_compare_eq%byte_key_inj.
Qed.

Lemma id_order_total ty : total_preorder_on id_order (id_datum ty).
Proof.
  apply strict_preorder; [by apply id_order_eq|..].
  - intros a b. destruct ty, a, b; try done; cbn; intros _ _; [apply text_compare_opp|].
    rewrite !bytes_compare_key. apply list_compare_opp.
  - intros a b c. destruct ty, a, b, c; try done; cbn; intros _ _ _; [apply text_compare_trans|].
    rewrite !bytes_compare_key. apply list_compare_trans.
Qed.

Lemma id_order_data ty a b : id_datum ty a -> id_datum ty b -> order_data a b = Ok (id_order a b).
Proof. by destruct ty, a, b. Qed.

(** *** Attributes *)
Definition value_order (v w : Value) : comparison := default Eq (value_compare v w).

(** The values an attribute can be sorted by. *)
Definition sort_value (ct : ColumnType) (v : Value) : Prop :=
  match ct, v with
  | CTString, VString _ | CTInt, VInt _ | CTBigInt, VBigInt _ | CTBigDecimal, VBigDecimal _ => True
  | _, _ => False
  end.

Lemma value_order_total ct : total_preorder_on value_order (sort_value ct).
Proof.
  pose proof collation_total as [To Tt]. pose proof BigDecimal_total as [Do Dt]. unfold cle in *. split; unfold cle.
  - intros v w. destruct ct; try done; destruct v, w; try done; cbn; intros _ _;
      [by apply Do|apply Z.compare_antisym..|by apply To].
  - intros v w u. destruct ct; try done; destruct v, w, u; try done; cbn; intros _ _ _;
      [by apply Dt|rewrite !Z.compare_gt_iff; lia..|by apply Tt].
Qed.

(** Null comes last whatever the direction. *)
Definition attribute_compare (desc : bool) (v w : Value) : comparison :=
  match v, w with
  | VNull, VNull => Eq
  | VNull, _ => Gt
  | _, VNull => Lt
  | _, _ => directed desc (value_order v w)
  end.

Definition sortable (ct : ColumnType) (v : Value) : Prop := v = VNull \/ sort_value ct v.

Lemma attribute_order_total ct desc : total_preorder_on (attribute_compare desc) (sortable ct).
Proof.
  pose proof (value_order_total ct) as [Ho Ht]. unfold cle, sortable in *. split; unfold cle.
  - intros v w [-> |Hv] [-> |Hw]; [done|by destruct ct, w|by destruct ct, v|]. specialize (Ho v w Hv Hw).
    destruct ct; try done; destruct v, w; try done; cbn [attribute_compare]; rewrite Ho;
      by destruct desc, (value_order _ _).
  - intros v w u [-> |Hv] [-> |Hw] [-> |Hu]; try done; try (by destruct ct, v); try (by destruct ct, w);
      try (by destruct ct, u); try (by destruct ct, v, w); try (by destruct ct, v, u); try (by destruct ct, w, u).
    assert (directed desc (value_order v w) <> Gt -> directed desc (value_order w u) <> Gt ->
            directed desc (value_order v u) <> Gt) as Hd.
    { destruct desc; cbn [directed]; [|by apply Ht]. rewrite <- !Ho by done. intros. by apply (Ht u w v). }
    destruct ct; try done; destruct v, w, u; try done; exact Hd.
Qed.

(** *** Entities with their ids *)
Definition entity_order (key : option (string * bool)) : Datum * Entity -> Datum * Entity -> comparison :=
  let ids (x y : Datum * Entity) := id_order x.1 y.1 in
  match key with
  | None => ids
  | Some (a, desc) => then_by (fun x y => attribute_compare desc (attribute x.2 a) (attribute y.2 a)) ids
  end.
End order.

(** ** Sorted rows *)
Section sorting.
Context {ST : ScalarText} {STL : ScalarTextLaws} {PT : PgText} {PTL : PgTextLaws} {CC : CharacterCollation}.
Context `{HashOrder}.
Context (normalize : BigDecimal -> BigDecimal).
Context (enums : gmap string (gset string)).

(** A column entities can be sorted by. *)
Record sort_column (t : Table) (a : string) (c : Column) : Prop := mk_sort_column {
  sc_field : column_for_field t a = Ok c;
  sc_fulltext : is_fulltext c = false;
  sc_tsvector : is_tsvector c = false;
  sc_list : col_is_list c = false;
  sc_ordered : ordered_type (col_type c) = true;
}.

(** What the order of a query sorts by before the id. *)
Definition sorts_by (t : Table) (order : EntityOrder) (key : option (string * bool)) : Prop :=
  match order with
  | DefaultOrder => key = None
  | Ascending a _ => key = Some (a, false) /\ exists c, sort_column t a c
  | Descending a _ => key = Some (a, true) /\ exists c, sort_column t a c
  | Unordered => False
  end.

Context (t : Table) (ent : Row -> Entity) (ty : IdType).

(** The row holds its entity. *)
Definition good_row (r : Row) : Prop := row_ok ty r /\ row_holds normalize enums t (ent r) r.

Lemma null_or_not v : v = VNull \/ v <> VNull.
Proof using. destruct v; auto. Qed.

Lemma compare_id r s :
  good_row r -> good_row s -> compare_key enums id_key r s = Ok (id_order (row_id r) (row_id s)).
Proof using.
  intros [Hr _] [Hs _]. pose proof (ro_id ty r Hr) as Ir. pose proof (ro_id ty s Hs) as Is.
  unfold compare_key. cbn [ok_by id_key ok_desc]. unfold row_id in *. change PRIMARY_KEY_COLUMN with "id".
  pose proof (id_order_data ty _ _ Ir Is) as Ho.
  destruct ty, (column_of r "id"), (column_of s "id"); try done; cbn [order_nulls_last]; rewrite Ho; done.
Qed.

Lemma attribute_stored a c r :
  sort_column t a c -> good_row r ->
  column_stores normalize enums c (attribute (ent r) a) (column_of r (col_name c)).
Proof using.
  intros [Hf _ Hts _ _] [_ Hr]. apply column_for_field_elem in Hf as [Hin <-]. by apply Hr.
Qed.

Lemma attribute_sortable a c r :
  sort_column t a c -> good_row r -> sortable (col_type c) (attribute (ent r) a).
Proof using.
  intros Hc Hr. pose proof (attribute_stored a c r Hc Hr) as Hs.
  destruct (null_or_not (attribute (ent r) a)) as [E|E]; [by left|]. right.
  pose proof (ordered_stores normalize enums c _ _ (sc_list _ _ _ Hc) (sc_ordered _ _ _ Hc) Hs E) as Hst.
  pose proof (sc_ordered _ _ _ Hc) as Ho. by destruct Hst.
Qed.

Lemma order_nulls_cases desc order (a b : Datum) :
  order_nulls_last desc order a b
  = if is_null a then Ok (if is_null b then Eq else Gt)
    else if is_null b then Ok Lt else res_map (directed desc) (order a b).
Proof using. by destruct a, b. Qed.

Lemma attribute_cases desc v w :
  attribute_compare desc v w
  = if is_null_value v then (if is_null_value w then Eq else Gt)
    else if is_null_value w then Lt else directed desc (value_order v w).
Proof using. by destruct v, w. Qed.

Lemma compare_attribute a c desc r s :
  sort_column t a c -> good_row r -> good_row s ->
  compare_key enums (mk_order_key (SortColumn (col_name c)) desc) r s
  = Ok (attribute_compare desc (attribute (ent r) a) (attribute (ent s) a)).
Proof using CC.
  intros Hc Hr Hs. pose proof (attribute_stored a c r Hc Hr) as Sr. pose proof (attribute_stored a c s Hc Hs) as Ss.
  unfold compare_key. cbn [ok_by ok_desc].
  set (v := attribute (ent r) a) in *. set (w := attribute (ent s) a) in *.
  rewrite order_nulls_cases, attribute_cases.
  rewrite (null_column normalize enums c r v Sr), (null_column normalize enums c s w Ss).
  destruct (is_null_value v) eqn:Ev; [by destruct (is_null_value w)|]. destruct (is_null_value w) eqn:Ew; [done|].
  assert (v <> VNull /\ w <> VNull) as [Nv Nw] by (split; intros E; by rewrite E in *).
  pose proof (ordered_stores normalize enums c _ _ (sc_list _ _ _ Hc) (sc_ordered _ _ _ Hc) Sr Nv) as Tr.
  pose proof (ordered_stores normalize enums c _ _ (sc_list _ _ _ Hc) (sc_ordered _ _ _ Hc) Ss Nw) as Ts.
  destruct (compare_stored normalize enums _ v w _ _ (sc_ordered _ _ _ Hc) Tr Ts) as (o & Ho & Hd & _).
  unfold value_order. by rewrite Hd, Ho.
Qed.

(** A row as the entity it holds. *)
Definition row_entity (r : Row) : Datum * Entity := (row_id r, ent r).
Definition data_order (key : option (string * bool)) (r s : Row) : comparison :=
  entity_order key (row_entity r) (row_entity s).

(** Where the id is the attribute, it alone decides. *)
Lemma id_attribute a c r :
  table_wf ty t -> sort_column t a c -> is_primary_key c = true -> good_row r ->
  exists s, row_id r = DText s /\ attribute (ent r) a = VString s.
Proof using.
  intros Hwf Hc Hpk Hr. pose proof (attribute_stored a c r Hc Hr) as Hs. destruct Hr as [Hr _].
  pose proof (ro_id ty r Hr) as Hid. unfold is_primary_key in Hpk. apply String.eqb_eq in Hpk.
  destruct (tw_id ty t Hwf) as (pk & Hp & _ & _ & Hty). apply primary_key_column in Hp as [Hin Hn].
  destruct (column_for_field_elem t a c (sc_field _ _ _ Hc)) as [Hinc _].
  assert (c = pk) as -> by (eapply column_eq_name; [done..|congruence]).
  rewrite Hn in Hs. unfold row_id in *. change PRIMARY_KEY_COLUMN with "id" in Hs.
  pose proof (sc_ordered _ _ _ Hc) as Ho. pose proof (sc_list _ _ _ Hc) as Hl.
  inversion Hs as [Ev Ed|v d _ Hst Ev Ed|? ? Hl'|? ? ? _ Ht]; try congruence.
  - rewrite <- Ed in Hid. by destruct ty.
  - destruct (col_type pk); try done; inversion Hst as [x Ex Ed'| | | | | | |]; subst; eauto;
      rewrite <- Ed in Hid; by destruct ty.
  - by rewrite Ht in Ho.
Qed.

Lemma sort_expr_order a c desc :
  table_wf ty t -> sort_column t a c ->
  exists ks, sort_expr c None desc = Ok ks /\ ks <> []
    /\ forall r s, good_row r -> good_row s ->
         compare_rows enums ks r s = Ok (data_order (Some (a, desc)) r s).
Proof using CC.
  intros Hwf Hc. unfold sort_expr.
  assert (forall config, col_type c <> CTTSVector config) as Hn.
  { intros config E. pose proof (sc_ordered _ _ _ Hc) as Ho. by rewrite E in Ho. }
  assert (match col_type c with
          | CTTSVector config =>
              let? value := unwrap None in
              Ok (SortRank (match fc_algorithm config with Rank => false | ProximityRank => true end)
                    (col_name c) (EToTsQuery (EBind (DText value))))
          | _ => Ok (SortColumn (col_name c))
          end = Ok (E := StoreError) (SortColumn (col_name c))) as ->.
  { destruct (col_type c); try done. by destruct (Hn config). }
  cbn [res_bind]. eexists. split; [done|]. destruct (is_primary_key c) eqn:Hpk; (split; [done|]);
    intros r s Hr Hs; cbn [compare_rows]; rewrite (compare_attribute a c desc r s Hc Hr Hs); cbn [res_bind];
    unfold data_order, entity_order, then_by; cbn [row_entity fst snd].
  - destruct (attribute_compare desc _ _) eqn:E; [|done..].
    destruct (id_attribute a c r Hwf Hc Hpk Hr) as (x & Hx & Ex), (id_attribute a c s Hwf Hc Hpk Hs) as (y & Hy & Ey).
    rewrite Hx, Hy. rewrite Ex, Ey in E. cbn in *. by destruct desc, (text_compare x y).
  - rewrite (compare_id r s Hr Hs). cbn [res_bind].
    by destruct (attribute_compare desc _ _), (id_order (row_id r) (row_id s)).
Qed.

Lemma query_keys order key filter :
  table_wf ty t -> sorts_by t order key ->
  exists sk ks, SortKey_new order t filter = Ok sk /\ order_by sk = Ok ks /\ ks <> []
    /\ forall r s, good_row r -> good_row s ->
         compare_rows enums ks r s = Ok (data_order key r s).
Proof using CC.
  intros Hwf Hk.
  assert (forall a desc c, sort_column t a c ->
    exists sk ks, sort_with_key t a filter desc = Ok sk /\ order_by sk = Ok ks /\ ks <> []
    /\ forall r s, good_row r -> good_row s ->
         compare_rows enums ks r s = Ok (data_order (Some (a, desc)) r s)) as Hkey.
  { intros a desc c Hc. destruct (sort_expr_order a c desc Hwf Hc) as (ks & Hks & Hne & Hcmp).
    exists (SKKey c None desc), ks. unfold sort_with_key.
    rewrite (sc_field _ _ _ Hc). cbn [res_bind]. by rewrite (sc_fulltext _ _ _ Hc). }
  destruct order as [a v|a v| |]; cbn [sorts_by SortKey_new] in *.
  - destruct Hk as [-> [c Hc]]. by apply (Hkey a false c).
  - destruct Hk as [-> [c Hc]]. by apply (Hkey a true c).
  - subst key. exists SKId, [id_key]. do 3 (split; [done|]). intros r s Hr Hs. cbn [compare_rows].
    rewrite (compare_id r s Hr Hs). cbn [res_bind]. unfold data_order. cbn [entity_order row_entity fst]. by destruct (id_order _ _).
  - done.
Qed.

(** *** Sorting rows *)
Lemma data_order_total order key : sorts_by t order key -> total_preorder_on (data_order key) good_row.
Proof using ty CC.
  intros Hk. unfold data_order, entity_order.
  assert (total_preorder_on (fun r s => id_order (row_id r) (row_id s)) good_row) as Hid.
  { eapply total_preorder_weaken; [|apply (preorder_comap row_id _ _ (id_order_total ty))].
    intros r [Hr _]. by apply (ro_id ty r). }
  destruct key as [[a desc]|]; [|done].
  assert (exists c, sort_column t a c) as [c Hc] by (destruct order; naive_solver).
  apply (then_by_total (A := Row) (fun r s => attribute_compare desc (attribute (ent r) a)
    (attribute (ent s) a)) (fun r s => id_order (row_id r) (row_id s))); [|done].
  eapply total_preorder_weaken;
    [|apply (preorder_comap (fun r => attribute (ent r) a) _ _ (attribute_order_total (col_type c) desc))].
  intros r Hr. cbn. by apply attribute_sortable.
Qed.

Lemma data_order_eq key r s : good_row r -> good_row s -> data_order key r s = Eq -> row_id r = row_id s.
Proof using CC.
  intros [Hr _] [Hs _] E. apply (id_order_eq ty); [by apply (ro_id ty r)|by apply (ro_id ty s)|].
  unfold data_order, entity_order, then_by in E. cbn [row_entity fst snd] in E.
  destruct key as [[a desc]|]; [|done]. by destruct (attribute_compare desc _ _).
Qed.

Lemma sorted_strictly key rows :
  Forall good_row rows -> NoDup (row_id <$> rows) -> StronglySorted (cle (data_order key)) rows ->
  StronglySorted (fun r s => data_order key r s = Lt) rows.
Proof using ty CC.
  intros Hg Hn Hs. induction Hs as [|r rows _ IH Hr]; [constructor|].
  apply Forall_cons in Hg as [Hgr Hg]. rewrite fmap_cons in Hn. apply NoDup_cons in Hn as [Hnr Hn].
  constructor; [by apply IH|]. rewrite Forall_forall in *. intros s Hin. specialize (Hr s Hin). unfold cle in Hr.
  destruct (data_order key r s) eqn:E; [|done|done]. exfalso. apply Hnr. apply list_elem_of_fmap. exists s.
  split; [|done]. by apply (data_order_eq key); [|by apply Hg|].
Qed.

Lemma strictly_sorted_ok (cmp : Row -> Row -> res SqlError comparison) key rows :
  (forall r s, r ∈ rows -> s ∈ rows -> cmp r s = Ok (data_order key r s)) ->
  StronglySorted (fun r s => data_order key r s = Lt) rows -> strictly_sorted cmp rows = true.
Proof using.
  intros Hc Hs. induction Hs as [|r rows Hs IH Hr]; [done|]. destruct rows as [|s rows]; [done|].
  apply Forall_cons in Hr as [Hr _]. cbn [strictly_sorted].
  rewrite Hc, Hr by (repeat constructor). cbn [andb]. apply IH. intros a b Ha Hb. apply Hc; by right.
Qed.

(** The rows, sorted: there are no ties. *)
Lemma top_rows_ok order key ks limit offset rows :
  sorts_by t order key -> ks <> [] ->
  (forall r s, good_row r -> good_row s -> compare_rows enums ks r s = Ok (data_order key r s)) ->
  Forall good_row rows -> NoDup (row_id <$> rows) ->
  exists sorted, top_rows enums ks limit offset rows = Ok (limited limit offset sorted)
    /\ sorted ≡ₚ rows /\ StronglySorted (fun r s => data_order key r s = Lt) sorted.
Proof using ty CC.
  intros Hk Hne Hcmp Hg Hn. set (sorted := sort_pure (data_order key) rows). exists sorted.
  destruct (sort_pure_stable_sorted (data_order key) good_row (data_order_total order key Hk) rows Hg) as (Hp & Hs & _).
  fold sorted in Hp, Hs. pose proof Hg as Hg'. rewrite Forall_forall in Hg'.
  assert (StronglySorted (fun r s => data_order key r s = Lt) sorted) as Hstrict.
  { apply sorted_strictly; [by rewrite <- Hp|by rewrite <- Hp|done]. }
  split; [|by split]. unfold top_rows. destruct ks as [|k ks']; [done|].
  rewrite (sort_by_ok (data_order key)) by (intros r s Hr Hs'; apply Hcmp; by apply Hg'). cbn [res_bind].
  fold sorted. rewrite (strictly_sorted_ok _ key); [done| |done].
  intros r s Hr Hs'. rewrite <- Hp in Hr, Hs'. apply Hcmp; by apply Hg'.
Qed.

(** Rows of different entities. *)
Lemma single_ids rows (p : Row -> bool) n :
  rows_ok ty rows -> (forall r, p r = true -> range_contains (row_range r) n = true) ->
  NoDup (row_id <$> List.filter p rows).
Proof using.
  intros [Hr Hs] Hp. apply single_pairs in Hs. induction Hs as [|r rows Hd _ IH]; [constructor|].
  assert (NoDup (row_id <$> List.filter p rows)) as Hn by (apply IH; intros; apply Hr; by right).
  cbn [List.filter]. destruct (p r) eqn:E; [|done]. rewrite fmap_cons. apply NoDup_cons. split; [|done].
  intros (s & Es & (Hin & Hps)%list_elem_of_In%List.filter_In)%list_elem_of_fmap.
  rewrite List.Forall_forall in Hd. apply (Hd s Hin (row_id r) n); unfold row_at; rewrite <- ?Es.
  - rewrite (same_id_refl ty), Hp; [done|done|]. apply (ro_id ty r), Hr. by left.
  - rewrite (same_id_refl ty), Hp; [done|done|]. rewrite Es. apply (ro_id ty s), Hr. right. by apply list_elem_of_In.
Qed.
End sorting.

(** ** Queries of one entity type *)
Section query.
Context {ST : ScalarText} {STL : ScalarTextLaws} {PT : PgText} {PTL : PgTextLaws} {CC : CharacterCollation}.
Context {PG : Postgres} {PGL : PostgresLaws} {PQ : PostgresQueries} {PQL : PostgresQueriesLaws} {HO : HashOrder}.
Context (normalize : BigDecimal -> BigDecimal).

(** Names as GraphQL and SQL allow them: no column is named as those of the
    environment are, and no quotes. *)
Record plain_names (t : Table) : Prop := mk_plain_names {
  pn_columns c : c ∈ tb_columns t -> in_environment (col_name c) = false;
  pn_object : unquote (tb_object t) = Some (tb_object t);
}.

Definition satisfies (filter : option EntityFilter) (e : Entity) : bool :=
  match filter with None => true | Some f => sat atom f e end.

Definition selected (filter : option EntityFilter) (ent : Row -> Entity) (n : Z) (r : Row) : bool :=
  range_contains (row_range r) n && satisfies filter (ent r).

Lemma own_columns_entity o (r : Row) :
  (forall k, is_Some (r !! k) -> in_environment k = false) -> own_columns (<[ENTITY := DText o]> r) = r.
Proof.
  intros Hr. apply map_eq. intros k. unfold own_columns. rewrite map_lookup_filter.
  destruct (decide (k = ENTITY)) as [-> |Hk].
  - rewrite lookup_insert_eq. cbn [mbind option_bind guard]. case_guard as E; [done|].
    destruct (r !! ENTITY) eqn:Er; [|done]. by assert (in_environment ENTITY = false) by (apply Hr; by rewrite Er).
  - rewrite lookup_insert_ne by done. destruct (r !! k) as [d|] eqn:Er; [|done]. cbn [mbind option_bind].
    case_guard as E; [done|]. destruct E. apply Hr. cbn. by rewrite Er.
Qed.

Section table.
Context (t : Table) (ent : Row -> Entity) (db : Database) (ts : TableState) (n : Z).
Abbreviation ty := (id_type_of t).
Hypothesis Hwf : table_wf ty t.
Hypothesis Hts : table_in db ty t ts.
(** Every row holds some entity, also those of other blocks and of none. *)
Hypothesis Hall : forall r, r ∈ ts_rows ts -> exists e, holds normalize (db_enums db) t e (row_data r).
(** The rows of the block hold theirs. *)
Hypothesis Hent : forall r, r ∈ ts_rows ts -> range_contains (row_range r) n = true ->
  holds normalize (db_enums db) t (ent r) (row_data r).

Lemma held_row e r : r ∈ ts_rows ts -> holds normalize (db_enums db) t e (row_data r) ->
  row_holds normalize (db_enums db) t e r
  /\ exists e', with_vectors t e e' /\ row_of normalize (db_enums db) t e' (row_range r) r.
Proof using Hwf Hts.
  intros Hr (e' & He & Hrow). specialize (Hrow (row_range r)).
  assert (set_range (row_range r) (row_data r) = r) as E.
  { etrans; [|apply (set_range_self ty r), (rk_rows _ _ (tk_rows _ _ (ti_ok _ _ _ _ Hts)) r Hr)].
    unfold set_range, row_data. by rewrite insert_delete_eq. }
  rewrite E in Hrow. split; [|by exists e']. destruct Hrow as [Hc _ _]. intros c Hin Hn. specialize (Hc c Hin).
  rewrite (wv_plain ty t e e' c) in Hc by done. unfold attribute, column_of. destruct (e !! col_field c) as [v|].
  - by destruct Hc as (d & -> & Hs).
  - rewrite Hc. constructor.
Qed.

Lemma table_row_ok r : r ∈ ts_rows ts -> row_ok ty r.
Proof using Hts. apply (rk_rows _ _ (tk_rows _ _ (ti_ok _ _ _ _ Hts))). Qed.

(** The condition of the query. *)
Definition fits_table (filter : option EntityFilter) : Prop :=
  match filter with None => True | Some f => filter_fits normalize (db_enums db) t f end.

Definition table_filter (filter : option EntityFilter) : option QueryFilter :=
  (fun f => mk_query_filter f t) <$> filter.

Lemma row_columns r k : r ∈ ts_rows ts -> is_Some (r !! k) -> k = BLOCK_RANGE_COLUMN \/ of_table t k.
Proof using Hwf Hts Hall.
  intros Hr Hk. destruct (Hall r Hr) as [e He]. destruct (held_row e r Hr He) as (_ & e' & _ & Hrow).
  by apply (rf_others _ _ _ _ _ _ Hrow).
Qed.

Lemma known_query_columns e :
  Forall (fun k => k = BLOCK_RANGE_COLUMN \/ of_table t k) (expr_columns e) ->
  check_query_columns (ts_def ts) [e] = Ok ().
Proof using Hwf Hts.
  intros He. unfold check_query_columns. rewrite (ti_def _ _ _ _ Hts).
  assert (forallb (fun c => in_environment c || bool_decide (is_Some (column_def (table_ddl t) c))) ([e] ≫= expr_columns) = true) as ->; [|done].
  apply List.forallb_forall. intros k Hk%list_elem_of_In. cbn in Hk. rewrite app_nil_r in Hk.
  rewrite Forall_forall in He. apply orb_true_iff. right. apply bool_decide_eq_true.
  destruct (He k Hk) as [-> |(c & Hc & ->)].
  - rewrite (column_def_range ty) by done. by eexists.
  - rewrite (column_def_column ty) by done. by eexists.
Qed.

Lemma filter_selects f e r :
  filter_fits normalize (db_enums db) t f -> filter_expr t f = Ok e -> r ∈ ts_rows ts ->
  condition (db_enums db) r (EAnd (block_range_contains t n) e) (selected (Some f) ent n r).
Proof using Hwf Hts Hall Hent CC STL PTL.
  intros Hf He Hr.
  assert (condition (db_enums db) r (block_range_contains t n) (range_contains (row_range r) n)) as Hc.
  { apply condition_bool. by eapply eval_block_range_contains, table_row_ok. }
  assert (forall e', holds normalize (db_enums db) t e' (row_data r) -> condition (db_enums db) r e (sat atom f e')) as Hcond.
  { intros e' He'. destruct (filter_condition normalize (db_enums db) t e' r f) as (x & Hx & Hsat); [by apply held_row|done|].
    rewrite He in Hx. by injection Hx as <-. }
  unfold selected. destruct (range_contains (row_range r) n) eqn:Ec.
  - apply (condition_and _ _ _ _ true); [done|]. by apply Hcond, Hent.
  - destruct (Hall r Hr) as [e' He']. apply (condition_and _ _ _ _ false (sat atom f e')); [done|]. by apply Hcond.
Qed.

Lemma where_condition filter :
  fits_table filter ->
  exists es, and_filter (table_filter filter) = Ok es
    /\ Forall (fun k => k = BLOCK_RANGE_COLUMN \/ of_table t k) (expr_columns (conjunction (block_range_contains t n) es))
    /\ forall r, r ∈ ts_rows ts ->
         selects_row (db_enums db) (conjunction (block_range_contains t n) es) r = Ok (selected filter ent n r).
Proof using Hwf Hts Hall Hent CC STL PTL HO.
  intros Hf.
  assert (Forall (fun k => k = BLOCK_RANGE_COLUMN \/ of_table t k) (expr_columns (block_range_contains t n))) as Hb.
  { apply Forall_forall. intros k Hk%block_range_columns. by left. }
  destruct filter as [f|]; cbn [table_filter fmap option_fmap option_map and_filter].
  - destruct (filter_expr_fits normalize (db_enums db) t f Hf) as [e Ee].
    exists [e]. unfold query_filter_expr. cbn [qf_table qf_filter]. rewrite Ee. split; [done|]. split.
    + cbn. apply Forall_app. split; [done|]. eapply Forall_impl; [by eapply filter_columns|]. by right.
    + intros r Hr. apply condition_selects. by apply filter_selects.
  - exists []. split; [done|]. split; [done|]. intros r Hr. apply condition_selects, condition_bool.
    unfold selected. cbn. rewrite andb_true_r. by eapply eval_block_range_contains, table_row_ok.
Qed.

(** The rows the query finds, in the order of the table. *)
Definition found (filter : option EntityFilter) : list Row :=
  List.filter (selected filter ent n) (ts_rows ts).

Lemma filtered_rows_ok c key range filter :
  fits_table filter ->
  exists q, filtered_rows (mk_filter_query c key range n) t (table_filter filter) = Ok q
    /\ select_rows db ∅ q = Ok (found filter).
Proof using Hwf Hts Hall Hent CC STL PTL HO.
  intros Hf. destruct (where_condition filter Hf) as (es & Hes & Hcols & Hsel).
  unfold filtered_rows. rewrite Hes. cbn [res_bind fq_block]. eexists. split; [done|].
  cbn [select_rows]. unfold get_table. rewrite (ti_table _ _ _ _ Hts). cbn [ok_or res_bind].
  rewrite (known_query_columns _ Hcols). cbn [res_bind].
  rewrite (list_fmap_ext _ id _ (fun i r _ => map_union_empty r)), list_fmap_id.
  by apply filter_res_bool.
Qed.

Lemma found_elem filter r :
  r ∈ found filter <-> r ∈ ts_rows ts /\ range_contains (row_range r) n = true /\ satisfies filter (ent r) = true.
Proof using. unfold found. rewrite !list_elem_of_In, List.filter_In. unfold selected. by rewrite andb_true_iff. Qed.

Lemma found_good filter :
  Forall (good_row normalize (db_enums db) t ent ty) (found filter) /\ NoDup (row_id <$> found filter).
Proof using Hwf Hts Hent.
  split.
  - apply Forall_forall. intros r (Hr & Hn & _)%found_elem. split; [by apply table_row_ok|]. by apply held_row, Hent.
  - apply (single_ids ty _ _ n); [apply (tk_rows _ _ (ti_ok _ _ _ _ Hts))|].
    intros r Hr. by apply andb_true_iff in Hr as [? _].
Qed.

Lemma limited_elem {A} limit offset (l : list A) x : x ∈ limited limit offset l -> x ∈ l.
Proof using.
  unfold limited. intros Hx. assert (x ∈ drop (Z.to_nat offset) l) as (k & Hk)%list_elem_of_lookup.
  - destruct limit as [k|]; [apply elem_of_take in Hx as (j & Hx & _); by eapply list_elem_of_lookup_2|done].
  - rewrite lookup_drop in Hk. by eapply list_elem_of_lookup_2.
Qed.

Lemma limited_fmap {A B} (f : A -> B) limit offset l : limited limit offset (f <$> l) = f <$> limited limit offset l.
Proof using. unfold limited. rewrite <- fmap_drop. destruct limit; [by rewrite fmap_take|done]. Qed.

(** The statement returns them sorted and limited, as JSON. *)
Lemma query_meaning_ok c order key range filter :
  plain_names t -> sorts_by t order key -> fits_table filter ->
  exists sk q sorted,
    SortKey_new order t filter = Ok sk
    /\ query_no_window_one_entity (mk_filter_query c sk range n) t (table_filter filter) = Ok q
    /\ sorted_query q = true
    /\ query_meaning db q = Ok ((fun r => [DText (tb_object t); DJson (row_json r)])
                                 <$> limited (er_first range) (er_skip range) sorted)
    /\ sorted ≡ₚ found filter /\ StronglySorted (fun r s => data_order ent key r s = Lt) sorted.
Proof using Hwf Hts Hall Hent CC STL PTL HO.
  intros Hplain Hk Hf.
  destruct (query_keys normalize (db_enums db) t ent ty order key filter Hwf Hk) as (sk & ks & Hsk & Hks & Hne & Hcmp).
  destruct (filtered_rows_ok c sk range filter Hf) as (q & Hq & Hrows).
  destruct (found_good filter) as [Hg Hn].
  destruct (top_rows_ok normalize (db_enums db) t ent ty order key ks (er_first range) (er_skip range) _ Hk Hne Hcmp Hg Hn)
    as (sorted & Htop & Hp & Hs).
  exists sk. unfold query_no_window_one_entity, ordered. rewrite Hq. cbn [res_bind fq_sort_key fq_range]. rewrite Hks.
  cbn [res_bind]. eexists _, sorted. split; [done|]. split; [done|]. split; [by destruct ks|]. split; [|done].
  unfold query_meaning. cbn [select_rows]. rewrite Hrows. cbn [res_bind]. rewrite Htop. cbn [res_bind].
  rewrite (map_res_all_ok _ (<[ENTITY := DText (tb_object t)]>)).
  - cbn [res_bind]. f_equal. rewrite <- list_fmap_compose. apply list_fmap_ext. intros i r Hr. unfold compose, entity_output.
    assert (r ∈ ts_rows ts) as Hin.
    { assert (r ∈ found filter) as (Hin & _)%found_elem; [|done]. rewrite <- Hp. eapply limited_elem, list_elem_of_lookup_2, Hr. }
    rewrite own_columns_entity.
    + unfold column_of. by rewrite lookup_insert_eq.
    + intros k Hrk. destruct (row_columns r k Hin Hrk) as [-> |(col & Hcol & ->)]; [done|]. by apply (pn_columns t Hplain).
  - intros r _. unfold with_columns, entity_column. cbn [map_res fold_res eval snd fst].
    rewrite (pn_object t Hplain). done.
Qed.
End table.

(** *** [Layout::query] *)
Context (TYPEA_BATCH_SIZE : nat) (sql_error_text store_error_text : StoreError -> string).

Lemma collection_ok ly db obj t filter :
  ly_tables ly !! obj = Some t -> fits_table t db filter ->
  FilterCollection_new ly (All [obj]) filter = Ok (FCAll [(t, table_filter t filter)]).
Proof.
  intros Ht Hf. unfold FilterCollection_new. cbn [map_res]. rewrite (table_for_entity_ok ly obj t Ht). cbn [res_bind].
  destruct filter as [f|]; [|done]. cbn [option_filter table_filter fmap option_fmap option_map]. unfold QueryFilter_new.
  by rewrite (fits_valid normalize (db_enums db) t f Hf).
Qed.

Lemma read_rows enums ly t (ent : Row -> Entity) rows :
  table_wf (id_type_of t) t -> (forall c, c ∈ tb_columns t -> col_name c <> "g$parent_id") ->
  ly_tables ly !! tb_object t = Some t ->
  Forall (fun r => exists e rg, with_vectors t (ent r) e /\ row_of normalize enums t e rg r) rows ->
  exists es, map_res (fun data => query_store_error store_error_text (deserialize_with_layout (V := Value) normalize ly data))
      ((fun r => mk_entity_data (tb_object t) (row_json r)) <$> rows) = Ok es
    /\ Forall2 (fun e r => e ≡ stored_entity t (ent r)) es rows.
Proof.
  intros Hw Hp Ht Hr. induction Hr as [|r rows (e & rg & He & Hrow) _ (es & Hes & Hs)]; [by exists []|].
  destruct (deserialize_row normalize enums _ ly t (ent r) e rg r Hw Hp He Hrow Ht) as (e' & He' & Eq).
  exists (e' :: es). rewrite fmap_cons, map_res_cons, He'. cbn [query_store_error map_err res_bind]. rewrite Hes.
  split; [done|by constructor].
Qed.

(** The entities of a type at a block that satisfy the filter, sorted and
    limited. *)
Lemma layout_query_ok ly db v (ev : string -> Z -> Datum -> option Entity) obj t filter order key range n :
  layout_wf ly -> represents ly db v -> filled normalize ly (contents db) -> ly_tables ly !! obj = Some t -> plain_names t ->
  (forall d, match v obj n d, ev obj n d with
             | Some x, Some e => holds normalize (db_enums (contents db)) t e x
             | None, None => True
             | _, _ => False
             end) ->
  fits_table t (contents db) filter -> sorts_by t order key ->
  exists es ds,
    layout_query normalize TYPEA_BATCH_SIZE sql_error_text store_error_text ly db (All [obj]) filter order range n = Ok es
    /\ Forall2 (fun e de => e ≡ stored_entity t de.2) es (limited (er_first range) (er_skip range) ds)
    /\ StronglySorted (fun x y => entity_order key x y = Lt) ds
    /\ forall d e, (d, e) ∈ ds <-> ev obj n d = Some e /\ satisfies filter e = true.
Proof.
  intros Hw [Hok Hv] Hfill Ht Hplain Hev Hf Hk. pose proof (lw_table ly Hw obj t Ht) as Htw.
  destruct (table_of_store ly _ obj t Hok Ht) as (ts & Hin & Er).
  assert (forall r, r ∈ ts_rows ts -> exists e, holds normalize (db_enums (contents db)) t e (row_data r)) as Hall.
  { intros r Hr. apply (Hfill obj t); [done|by rewrite Er]. }
  set (ent := fun r => default ∅ (ev obj n (row_id r))).
  assert (forall r, r ∈ ts_rows ts -> range_contains (row_range r) n = true ->
    v obj n (row_id r) = Some (row_data r)) as Hvis.
  { intros r Hr Hc. rewrite <- (Hv obj t n (row_id r) Ht). unfold table_view. rewrite Er.
    apply (data_at_iff (id_type_of t)); [apply Hin|]. exists r. split; [done|]. split; [|done]. unfold row_at.
    rewrite (same_id_refl (id_type_of t)), Hc; [done|]. by apply (table_row_ok t (contents db) ts Hin r). }
  assert (forall r, r ∈ ts_rows ts -> range_contains (row_range r) n = true ->
    ev obj n (row_id r) = Some (ent r) /\ holds normalize (db_enums (contents db)) t (ent r) (row_data r)) as Hent.
  { intros r Hr Hc. specialize (Hev (row_id r)). rewrite (Hvis r Hr Hc) in Hev. unfold ent.
    by destruct (ev obj n (row_id r)). }
  destruct (query_meaning_ok t ent (contents db) ts n Htw Hin Hall (fun r Hr Hc => proj2 (Hent r Hr Hc))
              (FCAll [(t, table_filter t filter)]) order key range filter Hplain Hk Hf)
    as (sk & q & sorted & Hsk & Hq & Hsorted & Hmeaning & Hp & Hstrong).
  assert (forall r, r ∈ sorted -> r ∈ ts_rows ts /\ range_contains (row_range r) n = true
            /\ satisfies filter (ent r) = true) as Hs.
  { intros r Hr. apply (found_elem ent ts n). by rewrite <- Hp. }
  destruct (read_rows (db_enums (contents db)) ly t ent (limited (er_first range) (er_skip range) sorted))
    as (es & Hes & Hread); [done|by intros; eapply lw_parent|by rewrite (lw_object ly Hw obj t Ht)| |].
  { apply Forall_forall. intros r Hr%limited_elem. destruct (Hs r Hr) as (Hr' & Hc & _).
    destruct (held_row t (contents db) ts Htw Hin (ent r) r Hr' (proj2 (Hent r Hr' Hc))) as (_ & e' & He' & Hrow).
    by exists e', (row_range r). }
  exists es, (row_entity ent <$> sorted). split; [|split; [|split]].
  - unfold layout_query, query_store_error at 1 2. rewrite (collection_ok ly (contents db) obj t filter Ht Hf).
    cbn [map_err res_bind]. unfold FilterQuery_new. cbn [first_table head fmap option_fmap option_map fst unwrap res_bind].
    rewrite Hsk. cbn [map_err res_bind]. unfold load_entities, filter_query_select. cbn [fq_collection].
    rewrite Hq. cbn [res_bind]. pose proof (queries db q) as Hquery. rewrite Hmeaning, Hsorted in Hquery.
    destruct Hquery as (rows & -> & ->). cbn [map_err res_bind].
    rewrite (map_res_all_ok_fmap entity_data_of_row _ (fun r => mk_entity_data (tb_object t) (row_json r))) by done.
    exact Hes.
  - rewrite limited_fmap. by apply Forall2_fmap_r.
  - apply StronglySorted_fmap, Hstrong.
  - intros d e. rewrite list_elem_of_fmap. split.
    + intros (r & [= -> ->] & Hr). destruct (Hs r Hr) as (Hr' & Hc & Hsat). by destruct (Hent r Hr' Hc).
    + intros [He Hsat]. specialize (Hev d). rewrite He in Hev. destruct (v obj n d) as [x|] eqn:Ex; [|done].
      rewrite <- (Hv obj t n d Ht) in Ex. unfold table_view in Ex. rewrite Er in Ex.
      apply (data_at_iff (id_type_of t)) in Ex as (r & Hr & [Hid Hc]%andb_true_iff & <-); [|apply Hin].
      apply (same_id_eq (id_type_of t)) in Hid; [|by apply (table_row_ok t (contents db) ts Hin r)]. subst d.
      exists r. destruct (Hent r Hr Hc) as [He' _]. unfold row_entity. rewrite He in He'. injection He' as ->.
      split; [done|]. rewrite Hp. apply found_elem. split; [done|]. split; [done|].
      exact Hsat.
Qed.
End query.
