(* ===== verification/PostgresStore.v ===== *)
(** * The Postgres store

    Models the connections to the entities of one subgraph and of the subgraph
    metadata in [store/postgres/src/entities.rs], the pointer to the current
    block in [metadata.rs], and reading entities, transacting a block and
    reverting a block in [store.rs].

    Subgraphs are stored in the relational scheme; the older JSONB storage is
    left out.  A connection is the layouts of the two storages; finding them,
    which is [get_entity_conn], is left out, and so are metrics, cancellation
    and sending events: an operation returns the changes of its events. *)

From stdpp Require Import prelude list strings gmap pretty.
From Stdlib Require Import ZArith Lia Ascii.
From S2P Require Import Prelude.
From S2P Require Import GraphqlTypes.
From S2P Require Import StoreValue.
From S2P Require Import EntityCache.
From S2P Require Import EthTypes.
From S2P Require Import StoreQuery.
From S2P Require Import StoreEvents.
From S2P Require Import Metadata.
From S2P Require Import GraphqlSchema.
From S2P Require Import Schema.
From S2P Require Import MetadataEntities.
From S2P Require Import Sql.
From S2P Require Import Layout.
From S2P Require Import RelationalQueries.
From S2P Require Import Selects.
From S2P Require Import FilterQueries.
From S2P Require Import RelationalStore.

#[local] Open Scope string_scope.
#[local] Open Scope list_scope.

(** ** History events: of [history_event.rs], without an entry in the table of
    event metadata. *)
Record HistoryEvent := mk_history_event {
  he_id : option Z;
  he_subgraph : SubgraphDeploymentId;
  he_block_ptr : EthereumBlockPointer;
}.

Definition create_without_event_metadata (subgraph : SubgraphDeploymentId) (block_ptr : EthereumBlockPointer)
  : HistoryEvent := mk_history_event None subgraph block_ptr.

(** [block_range.rs] *)
Definition block_number (history_event : HistoryEvent) : sres Z :=
  if (ptr_number (he_block_ptr history_event) <? BLOCK_NUMBER_MAX)%Z
  then Ok (ptr_number (he_block_ptr history_event)) else Panic.

(** ** Connections *)
Record Connection := mk_connection { cn_storage : Layout; cn_metadata : Layout }.

Definition storage_for (conn : Connection) (key : EntityKey) : sres Layout :=
  if is_meta (subgraph_id key) then Ok (cn_metadata conn)
  else if String.eqb (subgraph_id key) (ly_subgraph (cn_storage conn)) then Ok (cn_storage conn)
  else Panic.

(** What is read of [SubgraphInfo]. *)
Record SubgraphInfo := mk_subgraph_info {
  si_api : ApiSchema;
  si_graft_block : option Z;
}.

Definition DEPLOYMENT_TABLE : SqlName := qualified_name "subgraphs" "subgraph_deployment".
Definition ENTITY_COUNT_COLUMN : SqlName := "entity_count".

Section store.
Context {ST : ScalarText} {PT : PgText} {PG : Postgres} {MT : MetadataText} `{HashOrder}.
Context (normalize : BigDecimal -> BigDecimal).
(** [Display] of [StoreError]. *)
Context (store_error_text : StoreError -> string).

Definition conn_find (conn : Connection) (db : Db) (entity id : string) (block : Z)
  : sres (Db * option Entity) := layout_find normalize (cn_storage conn) db entity id block.

Definition conn_find_many (conn : Connection) (db : Db) (ids_for_type : gmap string (list string)) (block : Z)
  : sres (Db * gmap string (list Entity)) := layout_find_many normalize (cn_storage conn) db ids_for_type block.

Definition conn_conflicting_entity (conn : Connection) (db : Db) (entity_id : string) (entities : list string)
  : sres (Db * option string) := layout_conflicting_entity (cn_storage conn) db entity_id entities.

Definition conn_insert (conn : Connection) (db : Db) (key : EntityKey) (entity : Entity)
    (history_event : option HistoryEvent) : sres Db :=
  let? layout := storage_for conn key in
  match history_event with
  | Some history_event =>
      let? block := block_number history_event in layout_insert layout db key entity block
  | None => layout_insert_unversioned layout db key entity
  end.

Definition conn_update (conn : Connection) (db : Db) (key : EntityKey) (entity : Entity)
    (history_event : option HistoryEvent) : sres Db :=
  let? layout := storage_for conn key in
  match history_event with
  | Some history_event =>
      let? block := block_number history_event in layout_update layout db key entity block
  | None => res_map fst (layout_overwrite_unversioned layout db key entity)
  end.

Definition conn_update_metadata (conn : Connection) (db : Db) (key : EntityKey) (entity : Entity)
  : sres (Db * nat) := layout_update_unversioned (cn_metadata conn) db key entity.

Definition conn_find_metadata (conn : Connection) (db : Db) (entity id : string)
  : sres (Db * option Entity) := layout_find normalize (cn_metadata conn) db entity id BLOCK_NUMBER_MAX.

Definition conn_delete (conn : Connection) (db : Db) (key : EntityKey)
    (history_event : option HistoryEvent) : sres (Db * nat) :=
  let? layout := storage_for conn key in
  match history_event with
  | Some history_event =>
      let? block := block_number history_event in layout_delete layout db key block
  | None => layout_delete_unversioned layout db key
  end.

Definition conn_revert_block (conn : Connection) (db : Db) (block_ptr : EthereumBlockPointer)
  : sres (Db * gset EntityChange * Z) :=
  if bool_decide (is_i32 (ptr_number block_ptr)) then
    let block := ptr_number block_ptr in
    let? (db, event, count) := layout_revert_block (cn_storage conn) db block in
    let? (db, meta_event) :=
      layout_revert_metadata (cn_metadata conn) db (ly_subgraph (cn_storage conn)) block in
    Ok (db, event ∪ meta_event, count)
  else Panic.

(** [Storage::update_entity_count]; the tables are counted in some order. *)
Definition update_entity_count_statement (ly : Layout) (count : Z) : Statement :=
  SAddCount DEPLOYMENT_TABLE ENTITY_COUNT_COLUMN count
    ((fun t : string * Table => tb_qualified_name t.2) <$> hash_iter (ly_tables ly))
    (DText (ly_subgraph ly)).

Definition conn_update_entity_count (conn : Connection) (db : Db) (count : Z) : sres Db :=
  if (count =? 0)%Z then Ok db
  else res_map fst (run_sql db (update_entity_count_statement (cn_storage conn) count)).

Definition create_history_event (conn : Connection) (block_ptr : EthereumBlockPointer) : HistoryEvent :=
  create_without_event_metadata (ly_subgraph (cn_storage conn)) block_ptr.

(** [needs_migrating] is false of every storage. *)
Definition should_migrate : bool := false.

(** ** The block pointer ([metadata.rs]) *)
Definition block_ptr_store_event (id : SubgraphDeploymentId) : gset EntityChange :=
  {[mk_change SUBGRAPHS_ID Metadata.SubgraphDeploymentEntity id ChangeSet]}.

Definition is_deployment (id : SubgraphDeploymentId) : SqlExpr :=
  ECmp CmpEq (EColumn "id") (EBind (DText id)).

Definition set_block_ptr (ptr : EthereumBlockPointer) : list (string * SqlExpr) :=
  [("latest_ethereum_block_number", ECast (EBind (DText (bigint_to_string (ptr_number ptr)))) TNumeric);
   ("latest_ethereum_block_hash", EBind (DBytea (h256_bytes (ptr_hash ptr))))].

Definition forward_block_ptr (db : Db) (id : SubgraphDeploymentId) (ptr : EthereumBlockPointer)
  : sres (Db * gset EntityChange) :=
  let? (db, _) := run_sql db (SUpdate DEPLOYMENT_TABLE
                    (set_block_ptr ptr ++ [("current_reorg_depth", EBind (DInteger 0))])
                    (is_deployment id) []) in
  Ok (db, block_ptr_store_event id).

Definition plus_one (column : string) : SqlExpr := EAdd (EColumn column) (EBind (DInteger 1)).

Definition revert_block_ptr (db : Db) (id : SubgraphDeploymentId) (ptr : EthereumBlockPointer)
  : sres (Db * gset EntityChange) :=
  let? (db, _) := run_sql db (SUpdate DEPLOYMENT_TABLE
                    (set_block_ptr ptr
                     ++ [("reorg_count", plus_one "reorg_count");
                         ("current_reorg_depth", plus_one "current_reorg_depth");
                         ("max_reorg_depth",
                          EGreatest (plus_one "current_reorg_depth") (EColumn "max_reorg_depth"))])
                    (is_deployment id) []) in
  Ok (db, block_ptr_store_event id).

(** [TryFrom<Value>] for [Option<H256>] and [Option<BigInt>] *)
Definition parse_h256 (s : string) : sres (option H256) :=
  match h256_from_str s with Some h => Ok (Some h) | None => Err (SEUnknown "invalid H256") end.

Definition h256_of_value (value : Value) : sres (option H256) :=
  match value with
  | VBytes bytes => parse_h256 (trim_0x (Bytes_to_string bytes))
  | VString s => parse_h256 s
  | VNull => Ok None
  | _ => Err (SEUnknown "Value is not an H256")
  end.

Definition bigint_of_value (value : Value) : sres (option Z) :=
  match value with
  | VBigInt n => Ok (Some n)
  | VNull => Ok None
  | _ => Err (SEUnknown "Value is not an BigInt")
  end.

Definition block_ptr_with_conn (conn : Connection) (db : Db) (id : SubgraphDeploymentId)
  : sres (Db * option EthereumBlockPointer) :=
  let? (db, found) :=
    map_err (fun e => SEUnknown ("error reading subgraph entity: " +:+ store_error_text e))
      (conn_find_metadata conn db Metadata.SubgraphDeploymentEntity id) in
  let? subgraph_entity :=
    ok_or found (SEUnknown ("could not read block ptr for non-existent subgraph " +:+ id)) in
  let? hash := match subgraph_entity !! "latestEthereumBlockHash" with
               | None => Ok None | Some value => h256_of_value value end in
  let? number := match subgraph_entity !! "latestEthereumBlockNumber" with
                 | None => Ok None | Some value => bigint_of_value value end in
  match hash, number with
  | Some hash, Some number =>
      if bool_decide (is_u64 number) then Ok (db, Some (mk_ptr hash number)) else Panic
  | None, None => Ok (db, None)
  | _, _ => Err (SEUnknown ("Ethereum block pointer has invalid `latestEthereumBlockHash` "
                            +:+ "or `latestEthereumBlockNumber`"))
  end.

(** ** The store *)

(** The schema and graft point of a deployment, which the store caches:
    deriving the API schema is not modelled. *)
Context (subgraph_info : SubgraphDeploymentId -> sres SubgraphInfo).

Definition get_entity (conn : Connection) (db : Db) (op_subgraph op_entity op_id : string)
  : qres (Db * option Entity) :=
  map_err (fun e => ResolveEntityError op_subgraph op_entity op_id ("Invalid entity " +:+ store_error_text e))
    (conn_find conn db op_entity op_id BLOCK_NUMBER_MAX).

Definition get (conn : Connection) (db : Db) (key : EntityKey) : qres (Db * option Entity) :=
  get_entity conn db (subgraph_id key) (entity_type key) (key_entity_id key).

Definition get_many (conn : Connection) (db : Db) (ids_for_type : gmap string (list string))
  : sres (Db * gmap string (list Entity)) :=
  if bool_decide (ids_for_type = ∅) then Ok (db, ∅)
  else conn_find_many conn db ids_for_type BLOCK_NUMBER_MAX.

(** *** Queries *)
Context {PQ : PostgresQueries}.
Context (TYPEA_BATCH_SIZE : nat) (sql_error_text : StoreError -> string).

(** [Connection::query] and [execute_query] *)
Definition execute_query {V} `{!FromColumnValue V} (conn : Connection) (db : Db) (query : EntityQuery)
  : qres (list (gmap string V)) :=
  layout_query normalize TYPEA_BATCH_SIZE sql_error_text store_error_text (cn_storage conn) db
    (eq_collection query) (eq_filter query) (eq_order query) (eq_range query) (eq_block query).

Definition find (conn : Connection) (db : Db) (query : EntityQuery) : qres (list Entity) :=
  execute_query conn db query.

Definition find_one (conn : Connection) (db : Db) (query : EntityQuery) : qres (option Entity) :=
  let? results := execute_query (V := Value) conn db (query_range query (range_first 1)) in
  match results with
  | [] => Ok None
  | [e] => Ok (Some e)
  | _ => Panic
  end.

(** What prefetching asks the store for ([query_store.rs]): the objects are
    ordered maps. *)
Definition store_query_values (conn_for : SubgraphDeploymentId -> sres Connection) (db : Db) (query : EntityQuery)
  : qres (list (list (string * qvalue))) :=
  let? conn := query_store_error store_error_text (conn_for (eq_subgraph_id query)) in
  res_map (fmap btree_iter) (execute_query (V := qvalue) conn db query).

(** The types that share an interface with the type of an entity. *)
Definition types_with_shared_interface (schema : Schema) (entity_type : string) : sres (list string) :=
  let interfaces := default [] (interfaces_for_type schema entity_type) in
  let? types := map_res (fun interface => unwrap (sc_types_for_interface schema !! it_name interface)) interfaces in
  Ok (List.filter (fun type_name => negb (String.eqb type_name entity_type)) (ot_name <$> mjoin types)).

Definition check_interface_entity_uniqueness (conn : Connection) (db : Db) (key : EntityKey) : sres Db :=
  let? info := subgraph_info (subgraph_id key) in
  let? types := types_with_shared_interface (api_schema_ (si_api info)) (entity_type key) in
  match types with
  | [] => Ok db
  | _ =>
      let? (db, conflicting) := conn_conflicting_entity conn db (key_entity_id key) types in
      match conflicting with
      | Some conflicting_entity =>
          Err (SEConflictingId (entity_type key) (key_entity_id key) conflicting_entity)
      | None => Ok db
      end
  end.

Definition failed_to_remove (key : EntityKey) (e : StoreError) : StoreError :=
  SEUnknown ("Failed to remove entity (" +:+ subgraph_id key +:+ ", " +:+ entity_type key +:+ ", "
             +:+ key_entity_id key +:+ "): " +:+ store_error_text e).

(** One modification, and by how much it changes the number of entities. *)
Definition apply_modification (conn : Connection) (db : Db) (history_event : option HistoryEvent)
    (modification : EntityModification) : sres (Db * Z) :=
  match modification with
  | Overwrite key data =>
      let? db := check_interface_entity_uniqueness conn db key in
      let? db := conn_update conn db key data history_event in
      Ok (db, 0%Z)
  | Insert key data =>
      let? db := check_interface_entity_uniqueness conn db key in
      let? db := conn_insert conn db key data history_event in
      Ok (db, 1%Z)
  | Remove key =>
      let? (db, n) := map_err (failed_to_remove key) (conn_delete conn db key history_event) in
      Ok (db, (- Z.of_nat n)%Z)
  end.

(** The count is an [i32] in the code, which 2^31 modifications in a block would
    take to overflow. *)
Definition apply_counted (conn : Connection) (history_event : option HistoryEvent) (st : Db * Z)
    (modification : EntityModification) : sres (Db * Z) :=
  let '(db, count) := st in
  let do_count := negb (mod_is_meta modification) in
  let? (db, n) := apply_modification conn db history_event modification in
  Ok (db, if do_count then (count + n)%Z else count).

Definition apply_entity_modifications (conn : Connection) (db : Db) (mods : list EntityModification)
    (history_event : option HistoryEvent) : sres Db :=
  let? (db, count) := fold_res (apply_counted conn history_event) (db, 0%Z) mods in
  conn_update_entity_count conn db count.

(** The result of a block: the database, the two events, and whether the
    subgraph should be migrated. *)
Definition transact_block_operations (conn : Connection) (db : Db) (id : SubgraphDeploymentId)
    (block_ptr_to : EthereumBlockPointer) (mods : list EntityModification)
  : sres (Db * gset EntityChange * gset EntityChange * bool) :=
  if existsb (fun m => negb (String.eqb (subgraph_id (entity_key m)) id) && negb (mod_is_meta m)) mods
  then Panic
  else
    let? (db, block_ptr_from) := block_ptr_with_conn conn db id in
    if from_option (fun from => ptr_number block_ptr_to <=? ptr_number from)%Z false block_ptr_from
    then Err (SEDuplicateBlockProcessing id (ptr_number block_ptr_to))
    else
      let history_event := create_history_event conn block_ptr_to in
      let event : gset EntityChange := list_to_set (change_of_modification <$> mods) in
      let? db := apply_entity_modifications conn db mods (Some history_event) in
      let? (db, metadata_event) := forward_block_ptr db id block_ptr_to in
      Ok (db, metadata_event, event, should_migrate).

(** [graft_block as u64] *)
Definition grafted_after (graft_block : option Z) (number : Z) : bool :=
  from_option (fun b => number <? wrap64 b)%Z false graft_block.

Definition revert_block_operations (conn : Connection) (db : Db) (id : SubgraphDeploymentId)
    (block_ptr_from block_ptr_to : EthereumBlockPointer)
  : sres (Db * gset EntityChange * gset EntityChange) :=
  if negb (ptr_number block_ptr_from =? ptr_number block_ptr_to + 1)%Z then Panic
  else
    let? info := subgraph_info id in
    if grafted_after (si_graft_block info) (ptr_number block_ptr_to)
    then Err (SEUnknown ("Can not revert subgraph `" +:+ id +:+ "` to block "
                +:+ pretty (ptr_number block_ptr_to) +:+ " as it was grafted at block "
                +:+ from_option pretty "" (si_graft_block info) +:+ " and reverting past a graft point is not possible"))
    else
      let? (db, ptr) := block_ptr_with_conn conn db id in
      if negb (bool_decide (ptr = Some block_ptr_from)) then Panic
      else
        let? (db, metadata_event) := revert_block_ptr db id block_ptr_to in
        let? (db, event, count) := conn_revert_block conn db block_ptr_from in
        let? db := conn_update_entity_count conn db count in
        Ok (db, metadata_event, event).
End store.
