(* ===== verification/StoreBlocks.v ===== *)
(** * Blocks of the store

    A subgraph that is deployed stands for its entities at every block, and
    its deployment has the pointer to the current block and the number of
    entities.  Transacting a block changes the entities from that block on as
    the modifications say, and moves the pointer; reverting it takes both back.
    Blocks that were transacted before are not touched by either. *)

From stdpp Require Import prelude list strings gmap.
From Stdlib Require Import ZArith Lia Ascii.
From S2P Require Import Prelude.
From S2P Require Import GraphqlTypes.
From S2P Require Import StoreValue.
From S2P Require Import EntityCache.
From S2P Require Import EthTypes.
From S2P Require Import StoreQuery.
From S2P Require Import StoreEvents.
From S2P Require Import Metadata.
From S2P Require Import GraphqlSchema.
From S2P Require Import QueryBuild.
From S2P Require Import Schema.
From S2P Require Import MetadataEntities.
From S2P Require Import Sql.
From S2P Require Import Layout.
From S2P Require Import RelationalQueries.
From S2P Require Import ColumnValues.
From S2P Require Import Versions.
From S2P Require Import VersionedTables.
From S2P Require Import Reverts.
From S2P Require Import EntityRows.
From S2P Require Import RelationalStore.
From S2P Require Import StoreViews.
From S2P Require Import PostgresStore.

#[local] Open Scope string_scope.
#[local] Open Scope list_scope.

Section blocks.
Context {ST : ScalarText} {STL : ScalarTextLaws} {PT : PgText} {PTL : PgTextLaws}.
Context {PG : Postgres} {PGL : PostgresLaws} {MT : MetadataText} {MTL : MetadataTextLaws MT} `{HashOrder}.
Context (normalize : BigDecimal -> BigDecimal) (store_error_text : StoreError -> string).
Context (subgraph_info : SubgraphDeploymentId -> sres SubgraphInfo).

Abbreviation MAX := BLOCK_NUMBER_MAX.

(** ** Entities at blocks *)
Definition EntityView := string -> Z -> Datum -> option Entity.

Definition entity_put (obj : string) (d : Datum) (b : Z) (e : Entity) (v : EntityView) : EntityView :=
  fun obj' n d' => if at_entity obj d b obj' n d' then Some e else v obj' n d'.
Definition entity_remove (obj : string) (d : Datum) (b : Z) (v : EntityView) : EntityView :=
  fun obj' n d' => if at_entity obj d b obj' n d' then None else v obj' n d'.
Definition entity_revert (b : Z) (v : EntityView) : EntityView := fun obj n d => v obj (Z.min n (b - 1)) d.

(** The entities that the data of a view hold. *)
Definition holds_at (enums : EnumMap) (t : Table) (x : option Row) (e : option Entity) : Prop :=
  match x, e with
  | Some x, Some e => holds normalize enums t e x
  | None, None => True
  | _, _ => False
  end.

(** The storage [ly] stands for the entities [ev], and nothing changed after
    the block [b]. *)
Definition stands (ly : Layout) (b : Z) (db : Db) (ev : EntityView) : Prop :=
  exists v, storage normalize ly b db v
    /\ forall obj t n d, ly_tables ly !! obj = Some t ->
         holds_at (db_enums (contents db)) t (v obj n d) (ev obj n d).

Lemma stands_later ly b b' db ev : (b <= b')%Z -> stands ly b db ev -> stands ly b' db ev.
Proof. intros Hb (v & Hv & Hh). exists v. split; [|done]. destruct Hv as [Hv ?]. split; [by eapply store_at_later|done]. Qed.

(** A database in good order stands for the entities its rows hold. *)
Definition view_of_rows (ly : Layout) (db : Database) (f : string -> Row -> Entity) : EntityView :=
  fun obj n d => match ly_tables ly !! obj with Some t => f obj <$> table_view db t n d | None => None end.

Lemma stands_rows ly b db (f : string -> Row -> Entity) :
  store_ok ly (contents db) ->
  (forall obj t r, ly_tables ly !! obj = Some t -> r ∈ rows_of (contents db) t ->
     settled_row b r /\ holds normalize (db_enums (contents db)) t (f obj (row_data r)) (row_data r)) ->
  stands ly b db (view_of_rows ly (contents db) f).
Proof.
  intros Hok Hr.
  set (v := fun obj n d => match ly_tables ly !! obj with Some t => table_view (contents db) t n d | None => None end).
  exists v. split; [split; [split; [split; [done|]|]|]|].
  - intros obj t n d Ht. unfold v. by rewrite Ht.
  - intros obj t r Ht Hin. by apply (Hr obj t).
  - intros obj t r Ht Hin. eexists. by apply (Hr obj t).
  - intros obj t n d Ht. unfold v, view_of_rows. rewrite Ht. unfold table_view, holds_at.
    destruct (data_at (rows_of (contents db) t) n d) as [x|] eqn:E; [|done]. cbn [fmap option_fmap option_map].
    destruct (table_of_store ly _ obj t Hok Ht) as (ts & Hin & Er). rewrite Er in E.
    apply (data_at_iff (id_type_of t)) in E as (r & Hrin & _ & <-); [|apply Hin].
    apply (Hr obj t r); [done|by rewrite Er].
Qed.

Lemma stands_present ly db (ev : EntityView) obj t n d (v : View) :
  (forall obj t n d, ly_tables ly !! obj = Some t -> holds_at (db_enums (contents db)) t (v obj n d) (ev obj n d)) ->
  ly_tables ly !! obj = Some t -> is_Some (v obj n d) <-> is_Some (ev obj n d).
Proof.
  intros Hh Ht. specialize (Hh obj t n d Ht). unfold holds_at in Hh.
  destruct (v obj n d), (ev obj n d); try done; split; by intros []; eauto.
Qed.

(** *** A storage that another one leaves alone *)
Lemma storage_frame ly b db db' v touched :
  layout_wf ly -> (forall name, table_of ly name -> ~ touched name) ->
  frame touched (contents db) (contents db') -> storage normalize ly b db v -> storage normalize ly b db' v.
Proof.
  intros Hw Hd [Ee Hf] [[[Hok Hv] Hs] Hfill].
  assert (forall obj t, ly_tables ly !! obj = Some t ->
            exists ts ts', table_in (contents db) (id_type_of t) t ts /\ table_in (contents db') (id_type_of t) t ts'
                           /\ ts_rows ts ≡ₚ ts_rows ts') as Hts.
  { intros obj t Ht. destruct (Hok obj t Ht) as [ts Hin]. destruct Hin as [Htab Hdef [Hdo Hr Hn]].
    specialize (Hf (tb_qualified_name t) (Hd _ ltac:(by exists obj, t))). rewrite Htab in Hf.
    inversion Hf as [x ts' [E P] E1 E2|]; subst. exists ts, ts'. split; [done|]. split; [|done].
    split; [done|congruence|]. split; [congruence|by rewrite <- P|]. rewrite <- E.
    by eapply check_not_null_permutation. }
  split; [split; [split|]|].
  - intros obj t Ht. destruct (Hts obj t Ht) as (ts & ts' & _ & ? & _). by exists ts'.
  - intros obj t n d Ht. rewrite <- (Hv obj t n d Ht). destruct (Hts obj t Ht) as (ts & ts' & H1 & H2 & P).
    unfold table_view. rewrite (table_in_rows _ _ _ _ H1), (table_in_rows _ _ _ _ H2). symmetry.
    eapply (data_at_permutation (id_type_of t)); [apply H1|done].
  - intros obj t r Ht Hr. apply (Hs obj t); [done|]. destruct (Hts obj t Ht) as (ts & ts' & H1 & H2 & P).
    rewrite (table_in_rows _ _ _ _ H2) in Hr. rewrite (table_in_rows _ _ _ _ H1). by rewrite P.
  - intros obj t r Ht Hr. rewrite Ee. apply (Hfill obj t); [done|]. destruct (Hts obj t Ht) as (ts & ts' & H1 & H2 & P).
    rewrite (table_in_rows _ _ _ _ H2) in Hr. rewrite (table_in_rows _ _ _ _ H1). by rewrite P.
Qed.

Lemma stands_frame ly b db db' ev touched :
  layout_wf ly -> (forall name, table_of ly name -> ~ touched name) ->
  frame touched (contents db) (contents db') -> stands ly b db ev -> stands ly b db' ev.
Proof.
  intros Hw Hd Hf (v & Hv & Hh). exists v. split; [by eapply storage_frame|].
  by rewrite (fr_enums _ _ _ Hf).
Qed.

(** ** Modifications of one storage *)
Record writes (ly : Layout) (enums : EnumMap) (key : EntityKey) (entity : Entity) (t : Table) (d : Datum) : Prop :=
  mk_writes {
    wr_table : ly_tables ly !! entity_type key = Some t;
    wr_id : entity !! "id" = Some (VString (key_entity_id key));
    wr_datum : id_value (id_type_of t) (key_entity_id key) = Ok d;
    wr_storable : storable normalize enums t entity;
  }.

Lemma writes_insertable ly db key entity t d :
  writes ly (db_enums (contents db)) key entity t d -> insertable normalize ly db key entity t d.
Proof. intros [? ? ? ?]. by split. Qed.

Lemma holds_put ly enums (ev : EntityView) (v : View) obj t d b x e :
  ly_tables ly !! obj = Some t -> holds normalize enums t e x ->
  (forall obj t n d, ly_tables ly !! obj = Some t -> holds_at enums t (v obj n d) (ev obj n d)) ->
  forall obj' t' n d', ly_tables ly !! obj' = Some t' ->
    holds_at enums t' (view_put obj d b x v obj' n d') (entity_put obj d b e ev obj' n d').
Proof.
  intros Ht He Hv obj' t' n d' Ht'. unfold view_put, entity_put. destruct (at_entity _ _ _ _ _ _) eqn:Ea; [|by apply Hv].
  unfold at_entity in Ea. apply andb_true_iff in Ea as [[->%String.eqb_eq _]%andb_true_iff _].
  rewrite Ht in Ht'. by injection Ht' as <-.
Qed.

Lemma holds_remove ly enums (ev : EntityView) (v : View) obj d b :
  (forall obj t n d, ly_tables ly !! obj = Some t -> holds_at enums t (v obj n d) (ev obj n d)) ->
  forall obj' t' n d', ly_tables ly !! obj' = Some t' ->
    holds_at enums t' (view_remove obj d b v obj' n d') (entity_remove obj d b ev obj' n d').
Proof.
  intros Hv obj' t' n d' Ht'. unfold view_remove, entity_remove. by destruct (at_entity _ _ _ _ _ _); [|apply Hv].
Qed.

Lemma stands_insert ly db b c ev key entity t d :
  layout_wf ly -> stands ly c db ev -> writes ly (db_enums (contents db)) key entity t d -> (b <= MAX)%Z ->
  (b <= c)%Z -> (forall n, (b <= n)%Z -> ev (entity_type key) n d = None) ->
  exists db', layout_insert ly db key entity b = Ok db'
    /\ stands ly c db' (entity_put (entity_type key) d b entity ev)
    /\ frame (eq (tb_qualified_name t)) (contents db) (contents db').
Proof.
  intros Hw (v & Hv & Hh) Hwr Hb Hc Hn.
  destruct (layout_insert_ok normalize ly db b c v key entity t d) as (db' & x & Hi & Hst & Hf & Hx);
    [done|done|by apply writes_insertable|done|done| |].
  { intros n Hle. apply eq_None_not_Some. rewrite (stands_present ly db ev _ t) by (done || apply Hwr).
    rewrite Hn by done. by intros []. }
  exists db'. split; [done|]. split; [|done]. exists (view_put (entity_type key) d b x v). split; [done|].
  rewrite (fr_enums _ _ _ Hf). eapply holds_put; [apply Hwr|done|done].
Qed.

Lemma stands_later_entity ly db b ev obj t n d :
  stands ly b db ev -> ly_tables ly !! obj = Some t -> (b <= n)%Z -> (b <= MAX)%Z ->
  ev obj MAX d = None -> ev obj n d = None.
Proof.
  intros (v & Hv & Hh) Ht Hn Hb E. apply eq_None_not_Some. rewrite <- (stands_present ly db ev obj t n d v) by done.
  rewrite (store_later ly b db v obj t) by (done || apply Hv). rewrite (stands_present ly db ev obj t) by done.
  rewrite E. by intros [].
Qed.

Lemma stands_update ly db b ev key entity t d :
  layout_wf ly -> stands ly b db ev -> writes ly (db_enums (contents db)) key entity t d -> (b < MAX)%Z ->
  exists db', layout_update ly db key entity b = Ok db'
    /\ stands ly b db' (entity_put (entity_type key) d b entity ev)
    /\ frame (eq (tb_qualified_name t)) (contents db) (contents db').
Proof.
  intros Hw (v & Hv & Hh) Hwr Hb.
  destruct (layout_update_ok normalize ly db b v key entity t d) as (db' & x & Hi & Hst & Hf & Hx);
    [done|done|by apply writes_insertable|done|].
  exists db'. split; [done|]. split; [|done]. exists (view_put (entity_type key) d b x v). split; [done|].
  rewrite (fr_enums _ _ _ Hf). eapply holds_put; [apply Hwr|done|done].
Qed.

Lemma stands_delete ly db b ev key t d :
  layout_wf ly -> stands ly b db ev -> ly_tables ly !! entity_type key = Some t ->
  id_value (id_type_of t) (key_entity_id key) = Ok d -> (b < MAX)%Z ->
  exists db', layout_delete ly db key b = Ok (db', if ev (entity_type key) MAX d then 1 else 0)%nat
    /\ stands ly b db' (entity_remove (entity_type key) d b ev)
    /\ frame (eq (tb_qualified_name t)) (contents db) (contents db').
Proof.
  intros Hw (v & Hv & Hh) Ht Hd Hb.
  destruct (layout_delete_ok normalize ly db b v key t d) as (db' & Hi & Hst & Hf); [done..|].
  exists db'. split.
  - rewrite Hi. do 2 f_equal. specialize (Hh _ t MAX d Ht). unfold holds_at in Hh.
    by destruct (v _ _ _), (ev _ _ _).
  - split; [|done]. exists (view_remove (entity_type key) d b v). split; [done|].
    rewrite (fr_enums _ _ _ Hf). by apply holds_remove.
Qed.

(** ** The number of entities *)
Definition alive (ly : Layout) (db : Database) (n : Z) (obj : string) : gset string :=
  from_option (fun t => live (rows_of db t) n) ∅ (ly_tables ly !! obj).

Lemma entities_alive ly db n :
  entities_at ly db n
  = sum_Z ((fun ot : string * Table => Z.of_nat (size (alive ly db n ot.1))) <$> hash_iter (ly_tables ly)).
Proof.
  unfold entities_at. f_equal. apply list_fmap_ext. intros i [obj t] Hi%list_elem_of_lookup_2.
  apply hash_iter_elem in Hi. unfold alive. cbn [fst snd]. by rewrite Hi.
Qed.

Lemma alive_view ly b db ev n obj t d :
  stands ly b db ev -> ly_tables ly !! obj = Some t -> id_datum (id_type_of t) d ->
  id_str d ∈ alive ly (contents db) n obj <-> is_Some (ev obj n d).
Proof.
  intros (v & [[[Hok Hv] _] _] & Hh) Ht Hd. unfold alive. rewrite Ht. cbn [from_option].
  destruct (table_of_store ly _ obj t Hok Ht) as (ts & Hin & Er).
  rewrite (elem_live (id_type_of t)); [|rewrite Er; apply Hin|done].
  change (data_at (rows_of (contents db) t) n d) with (table_view (contents db) t n d).
  rewrite (Hv obj t n d Ht). by eapply stands_present.
Qed.

Lemma alive_ids ly b db ev n obj s :
  stands ly b db ev -> s ∈ alive ly (contents db) n obj ->
  exists t d, ly_tables ly !! obj = Some t /\ id_datum (id_type_of t) d /\ s = id_str d.
Proof.
  intros (v & [[[Hok Hv] _] _] & Hh). unfold alive. destruct (ly_tables ly !! obj) as [t|] eqn:Ht; [|done].
  cbn [from_option]. destruct (table_of_store ly _ obj t Hok Ht) as (ts & Hin & ->).
  intros (r & Hr & _ & <-)%elem_ids_of. exists t, (row_id r). split; [done|]. split; [|done].
  by apply (ro_id (id_type_of t)), Hin.
Qed.

(** Two storages with the same entities. *)
Lemma alive_same ly b b' db db' ev ev' n n' obj s :
  stands ly b db ev -> stands ly b' db' ev' ->
  (forall t d, ly_tables ly !! obj = Some t -> id_datum (id_type_of t) d -> s = id_str d ->
     is_Some (ev' obj n' d) <-> is_Some (ev obj n d)) ->
  s ∈ alive ly (contents db') n' obj <-> s ∈ alive ly (contents db) n obj.
Proof.
  intros Hs Hs' He. split; intros Hin.
  - destruct (alive_ids ly b' db' ev' n' obj s Hs' Hin) as (t & d & Ht & Hd & ->).
    apply (alive_view ly b db ev n obj t), (He t); [done..|]. by apply (alive_view ly b' db' ev' n' obj t).
  - destruct (alive_ids ly b db ev n obj s Hs Hin) as (t & d & Ht & Hd & ->).
    apply (alive_view ly b' db' ev' n' obj t), (He t); [done..|]. by apply (alive_view ly b db ev n obj t).
Qed.

Lemma entities_same ly b b' db db' ev ev' n n' :
  stands ly b db ev -> stands ly b' db' ev' ->
  (forall obj t d, ly_tables ly !! obj = Some t -> id_datum (id_type_of t) d ->
     is_Some (ev' obj n' d) <-> is_Some (ev obj n d)) ->
  entities_at ly (contents db') n' = entities_at ly (contents db) n.
Proof.
  intros Hs Hs' He. rewrite !entities_alive. f_equal. apply list_fmap_ext. intros i [obj t] _. cbn [fst].
  do 2 f_equal. apply set_eq. intros s. eapply alive_same; [done..|]. intros t' d Ht Hd _. by eapply He.
Qed.

Lemma sum_change (f g : string -> Z) (l : list (string * Table)) obj :
  NoDup l.*1 -> obj ∈ l.*1 -> (forall o, o <> obj -> f o = g o) ->
  sum_Z ((fun ot : string * Table => f ot.1) <$> l)
  = (sum_Z ((fun ot : string * Table => g ot.1) <$> l) + (f obj - g obj))%Z.
Proof.
  intros Hnd Hin Hf. induction l as [|[o t] l IH]; [by apply not_elem_of_nil in Hin|].
  rewrite !fmap_cons in *. cbn [fst sum_Z foldr] in *. apply NoDup_cons in Hnd as [Hn Hnd].
  apply elem_of_cons in Hin as [-> |Hin].
  - assert ((fun ot : string * Table => f ot.1) <$> l = (fun ot : string * Table => g ot.1) <$> l) as ->; [|lia].
    apply list_fmap_ext. intros i ot Hi%list_elem_of_lookup_2. apply Hf. intros E. apply Hn. rewrite <- E.
    by apply list_elem_of_fmap_2.
  - rewrite (Hf o) by (intros ->; done). fold (sum_Z ((fun ot : string * Table => f ot.1) <$> l)).
    fold (sum_Z ((fun ot : string * Table => g ot.1) <$> l)). rewrite IH by done. lia.
Qed.

(** The change of the number of entities when one entity changes. *)
Lemma entity_count_change ly b db db' ev ev' obj t d :
  stands ly b db ev -> stands ly b db' ev' -> ly_tables ly !! obj = Some t -> id_datum (id_type_of t) d ->
  (forall obj' d', ~ (obj' = obj /\ d' = d) -> is_Some (ev' obj' MAX d') <-> is_Some (ev obj' MAX d')) ->
  entity_count ly (contents db')
  = (entity_count ly (contents db) + (if ev' obj MAX d then 1 else 0) - (if ev obj MAX d then 1 else 0))%Z.
Proof.
  intros Hs Hs' Ht Hd Hother. unfold entity_count. rewrite !entities_alive.
  assert (forall o s, (o <> obj \/ s <> id_str d) ->
            s ∈ alive ly (contents db') MAX o <-> s ∈ alive ly (contents db) MAX o) as Hsame.
  { intros o s Hne. eapply alive_same; [done..|]. intros t' d' _ _ ->. apply Hother. intros [-> ->]. by destruct Hne. }
  rewrite (sum_change (fun o => Z.of_nat (size (alive ly (contents db') MAX o)))
             (fun o => Z.of_nat (size (alive ly (contents db) MAX o))) _ obj).
  - pose proof (alive_view ly b db ev MAX obj t d Hs Ht Hd) as H1.
    pose proof (alive_view ly b db' ev' MAX obj t d Hs' Ht Hd) as H2.
    set (A := alive ly (contents db) MAX obj) in *. set (A' := alive ly (contents db') MAX obj) in *.
    assert (A' ∖ {[id_str d]} = A ∖ {[id_str d]}) as Ed.
    { apply set_eq. intros s. rewrite !elem_of_difference, !elem_of_singleton. split; intros [Hs1 Hs2];
        (split; [|done]); apply (Hsame obj s); auto. }
    assert (forall (X : gset string), (size X = size (X ∖ {[id_str d]}) + (if bool_decide (id_str d ∈ X) then 1 else 0))%nat) as Hsz.
    { intros X. case_bool_decide as Hx.
      - rewrite size_difference by set_solver. rewrite size_singleton.
        assert (size X <> 0)%nat; [|lia]. intros E. apply size_empty_inv in E. set_solver.
      - f_equal. assert (X ∖ {[id_str d]} = X) as ->; [set_solver|lia]. }
    rewrite (Hsz A), (Hsz A'), Ed.
    assert ((if bool_decide (id_str d ∈ A) then 1 else 0) = (if ev obj MAX d then 1 else 0))%nat as ->.
    { case_bool_decide as Hx; destruct (ev obj MAX d); try done; [by apply H1 in Hx as []|by destruct Hx; apply H1]. }
    assert ((if bool_decide (id_str d ∈ A') then 1 else 0) = (if ev' obj MAX d then 1 else 0))%nat as ->.
    { case_bool_decide as Hx; destruct (ev' obj MAX d); try done; [by apply H2 in Hx as []|by destruct Hx; apply H2]. }
    destruct (ev obj MAX d), (ev' obj MAX d); lia.
  - rewrite hash_iter_perm. apply NoDup_fst_map_to_list.
  - apply list_elem_of_fmap. exists (obj, t). split; [done|by apply hash_iter_elem].
  - intros o Ho. do 2 f_equal. apply set_eq. intros s. apply Hsame. by left.
Qed.

(** ** The modifications of a block *)
Record conn_wf (conn : Connection) : Prop := mk_conn_wf {
  cw_storage : layout_wf (cn_storage conn);
  cw_metadata : layout_wf (cn_metadata conn);
  cw_subgraph : is_meta (ly_subgraph (cn_storage conn)) = false;
  cw_meta : is_meta (ly_subgraph (cn_metadata conn)) = true;
  cw_disjoint name : table_of (cn_storage conn) name -> ~ table_of (cn_metadata conn) name;
}.

(** The entities of the subgraph, and those of the metadata. *)
Definition Views : Type := EntityView * EntityView.

Definition layout_of (conn : Connection) (key : EntityKey) : Layout :=
  if is_meta (subgraph_id key) then cn_metadata conn else cn_storage conn.
Definition view_of (vs : Views) (key : EntityKey) : EntityView :=
  if is_meta (subgraph_id key) then vs.2 else vs.1.
Definition on_view (key : EntityKey) (f : EntityView -> EntityView) (vs : Views) : Views :=
  if is_meta (subgraph_id key) then (vs.1, f vs.2) else (f vs.1, vs.2).

(** The id of a key in its table. *)
Definition key_datum (ly : Layout) (key : EntityKey) : Datum :=
  match ly_tables ly !! entity_type key with
  | Some t => match id_value (id_type_of t) (key_entity_id key) with Ok d => d | _ => DNull end
  | None => DNull
  end.

(** What a modification at the block [b] does to the entities. *)
Definition modify (conn : Connection) (b : Z) (vs : Views) (m : EntityModification) : Views :=
  let key := entity_key m in
  let d := key_datum (layout_of conn key) key in
  on_view key
    (match m with
     | Insert _ e | Overwrite _ e => entity_put (entity_type key) d b e
     | Remove _ => entity_remove (entity_type key) d b
     end) vs.

(** A type that shares no interface with another. *)
Definition no_shared_interface (key : EntityKey) : Prop :=
  exists info, subgraph_info (subgraph_id key) = Ok info
    /\ types_with_shared_interface (api_schema_ (si_api info)) (entity_type key) = Ok [].

(** Modifications as the entity cache makes them: an entity is inserted where
    there is none and overwritten where there is one.  Metadata, which other
    subgraphs write too, is only added under new ids, as it is for dynamic
    data sources. *)
Record modification_ok (conn : Connection) (enums : EnumMap) (b : Z) (vs : Views) (m : EntityModification) (t : Table) (d : Datum)
  : Prop := mk_modification_ok {
    mo_subgraph : is_meta (subgraph_id (entity_key m)) = true
                  \/ subgraph_id (entity_key m) = ly_subgraph (cn_storage conn);
    mo_table : ly_tables (layout_of conn (entity_key m)) !! entity_type (entity_key m) = Some t;
    mo_datum : id_value (id_type_of t) (key_entity_id (entity_key m)) = Ok d;
    mo_deployment : is_meta (subgraph_id (entity_key m)) = true -> tb_qualified_name t <> DEPLOYMENT_TABLE;
    mo_entity e : (m = Insert (entity_key m) e \/ m = Overwrite (entity_key m) e) ->
      e !! "id" = Some (VString (key_entity_id (entity_key m)))
      /\ storable normalize enums t e /\ no_shared_interface (entity_key m);
    mo_current :
      if is_meta (subgraph_id (entity_key m))
      then (exists e, m = Insert (entity_key m) e)
           /\ forall n, (b <= n)%Z -> vs.2 (entity_type (entity_key m)) n d = None
      else let old := vs.1 (entity_type (entity_key m)) MAX d in
           match m with Insert _ _ => old = None | Overwrite _ _ => is_Some old | Remove _ => True end;
  }.

Fixpoint modifications_ok (conn : Connection) (enums : EnumMap) (b : Z) (vs : Views)
    (mods : list EntityModification) : Prop :=
  match mods with
  | [] => True
  | m :: mods =>
      (exists t d, modification_ok conn enums b vs m t d)
      /\ modifications_ok conn enums b (modify conn b vs m) mods
  end.

(** The subgraph is at the block [b]; of the metadata nothing is known, since
    it has all subgraphs. *)
Definition last_change (b : Z) (key : EntityKey) : Z := if is_meta (subgraph_id key) then MAX else b.

Record stand (conn : Connection) (b : Z) (db : Db) (vs : Views) : Prop := mk_stand {
  st_storage : stands (cn_storage conn) b db vs.1;
  st_metadata : stands (cn_metadata conn) MAX db vs.2;
}.

(** An operation on one of the storages. *)
Lemma stand_step conn b db db' vs key t f :
  conn_wf conn -> stand conn b db vs -> ly_tables (layout_of conn key) !! entity_type key = Some t ->
  stands (layout_of conn key) (last_change b key) db' (f (view_of vs key)) ->
  frame (eq (tb_qualified_name t)) (contents db) (contents db') ->
  stand conn b db' (on_view key f vs).
Proof.
  intros Hw [Hs Hm] Ht Hst Hf. unfold layout_of, view_of, on_view, last_change in *.
  destruct (is_meta (subgraph_id key)); split; cbn [fst snd]; try done.
  - eapply (stands_frame _ _ db); [apply Hw| |exact Hf|done]. intros name Hn E. subst name.
    eapply (cw_disjoint conn Hw); [done|]. by exists (entity_type key), t.
  - eapply (stands_frame _ _ db); [apply Hw| |exact Hf|done]. intros name Hn E. subst name.
    eapply (cw_disjoint conn Hw); [|done]. by exists (entity_type key), t.
Qed.

Lemma key_datum_ok ly key t d :
  ly_tables ly !! entity_type key = Some t -> id_value (id_type_of t) (key_entity_id key) = Ok d ->
  key_datum ly key = d.
Proof. intros Ht Hd. unfold key_datum. by rewrite Ht, Hd. Qed.

Lemma check_unshared conn db key :
  no_shared_interface key -> check_interface_entity_uniqueness subgraph_info conn db key = Ok db.
Proof.
  intros (info & Hi & Ht). unfold check_interface_entity_uniqueness. rewrite Hi. cbn [res_bind]. by rewrite Ht.
Qed.

Lemma storage_for_layout conn key :
  is_meta (subgraph_id key) = true \/ subgraph_id key = ly_subgraph (cn_storage conn) ->
  storage_for conn key = Ok (layout_of conn key).
Proof.
  unfold storage_for, layout_of. destruct (is_meta (subgraph_id key)); [done|].
  intros [?|E]; [done|]. rewrite E. by rewrite String.eqb_refl.
Qed.

(** By how much a modification changes the number of entities. *)
Definition count_change (vs : Views) (m : EntityModification) (d : Datum) : Z :=
  match m with
  | Insert _ _ => 1
  | Overwrite _ _ => 0
  | Remove key => if view_of vs key (entity_type key) MAX d then (-1) else 0
  end.

Lemma apply_modification_ok conn b db vs h m t d :
  conn_wf conn -> stand conn b db vs -> (b < MAX)%Z -> ptr_number (he_block_ptr h) = b ->
  modification_ok conn (db_enums (contents db)) b vs m t d ->
  exists db', apply_modification store_error_text subgraph_info conn db (Some h) m = Ok (db', count_change vs m d)
    /\ stand conn b db' (modify conn b vs m)
    /\ frame (eq (tb_qualified_name t)) (contents db) (contents db').
Proof.
  intros Hw Hs Hb Hh [Hsub Ht Hd _ He Hcur]. set (key := entity_key m) in *.
  assert (layout_wf (layout_of conn key)) as Hlw by (unfold layout_of; destruct (is_meta _); apply Hw).
  assert (stands (layout_of conn key) (last_change b key) db (view_of vs key)) as Hst.
  { unfold layout_of, view_of, last_change. destruct (is_meta _); apply Hs. }
  assert (block_number h = Ok b) as Hbn.
  { unfold block_number. rewrite Hh. by rewrite (proj2 (Z.ltb_lt _ _) Hb). }
  assert (b <= last_change b key)%Z as Hle by (unfold last_change; destruct (is_meta _); lia).
  assert ((exists k e, m = Insert k e) \/ last_change b key = b) as Hkind.
  { unfold last_change. destruct (is_meta _); [left|by right]. destruct Hcur as [[e E] _]. eauto. }
  pose proof (key_datum_ok _ _ t d Ht Hd) as Hkd. pose proof (storage_for_layout conn _ Hsub) as Hfor.
  unfold modify. fold key. rewrite Hkd. destruct m as [k e|k e|k]; cbn [entity_key] in *; cbn [apply_modification count_change];
    subst key; try (destruct Hkind as [(? & ? & ?)|Hlast]; [done|rewrite Hlast in Hst]).
  - destruct (He e) as (Hid & Hsto & Hun); [by left|]. rewrite check_unshared by done. cbn [res_bind].
    unfold conn_insert. rewrite Hfor. cbn [res_bind]. rewrite Hbn. cbn [res_bind].
    destruct (stands_insert _ db b _ _ k e t d Hlw Hst) as (db' & -> & Hst' & Hf); [by split|lia|done| |].
    { clear -Hcur Ht Hs Hb. unfold view_of, layout_of in *. destruct (is_meta (subgraph_id k)); [apply Hcur|]. intros n Hn.
      apply (stands_later_entity (cn_storage conn) db b _ _ t); [apply Hs|done|done|lia|done]. }
    exists db'. split; [done|]. split; [by eapply stand_step|done].
  - destruct (He e) as (Hid & Hsto & Hun); [by right|]. rewrite check_unshared by done. cbn [res_bind].
    unfold conn_update. rewrite Hfor. cbn [res_bind]. rewrite Hbn. cbn [res_bind].
    destruct (stands_update _ db b _ k e t d Hlw Hst) as (db' & -> & Hst' & Hf); [by split|lia|].
    exists db'. split; [done|]. split; [eapply stand_step; [done..| |done]; by rewrite Hlast|done].
  - unfold conn_delete. rewrite Hfor. cbn [res_bind]. rewrite Hbn. cbn [res_bind].
    destruct (stands_delete _ db b _ k t d Hlw Hst Ht Hd Hb) as (db' & -> & Hst' & Hf). cbn [map_err res_bind].
    exists db'. split; [by destruct (view_of vs k _ _ _)|].
    split; [eapply stand_step; [done..| |done]; by rewrite Hlast|done].
Qed.

Lemma entity_count_same ly b b' db db' ev :
  stands ly b db ev -> stands ly b' db' ev -> entity_count ly (contents db') = entity_count ly (contents db).
Proof. intros Hs Hs'. by eapply entities_same. Qed.

Lemma at_other ty obj d b obj' n d' :
  id_datum ty d -> ~ (obj' = obj /\ d' = d) -> at_entity obj d b obj' n d' = false.
Proof.
  intros Hd Hne. apply not_true_iff_false. rewrite (at_entity_iff _ _ _ _ _ _ ty) by done.
  intros (? & ? & _). by apply Hne.
Qed.

Lemma at_current ty obj d b : id_datum ty d -> (b <= MAX)%Z -> at_entity obj d b obj MAX d = true.
Proof. intros Hd Hb. by apply (at_entity_iff _ _ _ _ _ _ ty). Qed.

Lemma modify_count conn b db db' vs m t d :
  stand conn b db vs -> stand conn b db' (modify conn b vs m) -> (b < MAX)%Z ->
  modification_ok conn (db_enums (contents db)) b vs m t d ->
  entity_count (cn_storage conn) (contents db')
  = (entity_count (cn_storage conn) (contents db) + (if mod_is_meta m then 0 else count_change vs m d))%Z.
Proof.
  intros [Hs _] [Hs' _] Hb [_ Ht Hd _ _ Hcur]. unfold modify, on_view, mod_is_meta in *.
  rewrite (key_datum_ok _ _ t d Ht Hd) in Hs'. unfold layout_of, view_of in *.
  destruct (is_meta (subgraph_id (entity_key m))) eqn:Em.
  { cbn [fst] in Hs'. rewrite Z.add_0_r. by eapply entity_count_same. }
  cbn [fst] in Hs'. pose proof (id_value_datum _ _ _ Hd) as Hdd.
  rewrite (entity_count_change _ b db db' vs.1 _ (entity_type (entity_key m)) t d Hs Hs' Ht Hdd).
  - destruct m as [key e|key e|key]; cbn [entity_key count_change] in *;
      unfold entity_put, entity_remove; rewrite (at_current (id_type_of t)) by (done || lia).
    + rewrite Hcur. lia.
    + destruct Hcur as [? ->]. lia.
    + unfold view_of. rewrite Em. destruct (vs.1 _ _ _); lia.
  - intros obj' d' Hne. destruct m as [key e|key e|key]; cbn [entity_key] in *;
      unfold entity_put, entity_remove; by rewrite (at_other (id_type_of t)).
Qed.

(** The deployments are not among what is modified. *)
Definition not_deployment (name : string) : Prop := name <> DEPLOYMENT_TABLE.

Lemma modification_not_deployment conn enums b vs m t d :
  conn_wf conn -> table_of (cn_metadata conn) DEPLOYMENT_TABLE ->
  modification_ok conn enums b vs m t d -> tb_qualified_name t <> DEPLOYMENT_TABLE.
Proof.
  intros Hw Hdep [_ Ht _ Hm _ _] E. unfold layout_of in Ht. destruct (is_meta _); [by apply Hm|].
  apply (cw_disjoint conn Hw DEPLOYMENT_TABLE); [|done]. rewrite <- E. by exists (entity_type (entity_key m)), t.
Qed.

Lemma apply_modifications_ok conn b h mods db vs count :
  conn_wf conn -> table_of (cn_metadata conn) DEPLOYMENT_TABLE ->
  stand conn b db vs -> (b < MAX)%Z -> ptr_number (he_block_ptr h) = b ->
  modifications_ok conn (db_enums (contents db)) b vs mods ->
  exists db', fold_res (apply_counted store_error_text subgraph_info conn (Some h)) (db, count) mods
    = Ok (db', (count + (entity_count (cn_storage conn) (contents db') - entity_count (cn_storage conn) (contents db)))%Z)
    /\ stand conn b db' (foldl (modify conn b) vs mods)
    /\ frame not_deployment (contents db) (contents db')
    /\ (entity_count (cn_storage conn) (contents db')
        <= entity_count (cn_storage conn) (contents db) + Z.of_nat (length mods))%Z.
Proof.
  intros Hw Hdep Hs Hb Hh. revert db vs count Hs. induction mods as [|m mods IH]; intros db vs count Hs Hm.
  { exists db. rewrite Z.sub_diag, Z.add_0_r. split_and!; [done..|cbn; lia]. }
  destruct Hm as [(t & d & Hmo) Hm].
  destruct (apply_modification_ok conn b db vs h m t d) as (db1 & Hrun & Hs1 & Hf1); [done..|].
  pose proof (modify_count conn b db db1 vs m t d Hs Hs1 Hb Hmo) as Hc.
  assert (frame not_deployment (contents db) (contents db1)) as Hf1'.
  { eapply frame_weaken; [|exact Hf1]. intros name <-. by eapply modification_not_deployment. }
  rewrite fold_res_cons. unfold apply_counted at 1. rewrite Hrun. cbn [res_bind].
  destruct (IH db1 (modify conn b vs m)
              (if negb (mod_is_meta m) then (count + count_change vs m d)%Z else count) Hs1) as (db2 & Hrun2 & Hs2 & Hf2 & Hn2).
  { by rewrite (fr_enums _ _ _ Hf1). }
  assert (count_change vs m d <= 1)%Z as Hle by (destruct m; cbn [count_change];
    try destruct (view_of _ _ _ _ _); lia).
  exists db2. rewrite Hrun2. split; [|split; [done|split; [by etrans|]]].
  2: { cbn [length]. rewrite Hc in Hn2. destruct (mod_is_meta m); lia. }
  do 2 f_equal. rewrite Hc. destruct (mod_is_meta m); cbn [negb]; lia.
Qed.
End blocks.
