(* ===== verification/Deployments.v ===== *)
(** * The deployment of a subgraph in the store

    The row of a deployment in the metadata has the pointer to the current
    block and the number of entities.  This file shows what the statements of
    [metadata.rs] and [Storage::update_entity_count] do to it, and that
    [block_ptr_with_conn] reads the pointer that was written. *)

From stdpp Require Import prelude list strings gmap.
From Stdlib Require Import ZArith Lia Ascii.
From S2P Require Import Prelude.
From S2P Require Import GraphqlTypes.
From S2P Require Import StoreValue.
From S2P Require Import EntityCache.
From S2P Require Import EthTypes.
From S2P Require Import StoreQuery.
From S2P Require Import StoreEvents.
From S2P Require Import Metadata.
From S2P Require Import GraphqlSchema.
From S2P Require Import QueryBuild.
From S2P Require Import Schema.
From S2P Require Import MetadataEntities.
From S2P Require Import Sql.
From S2P Require Import Layout.
From S2P Require Import RelationalQueries.
From S2P Require Import ColumnValues.
From S2P Require Import Versions.
From S2P Require Import VersionedTables.
From S2P Require Import Reverts.
From S2P Require Import EntityRows.
From S2P Require Import RelationalStore.
From S2P Require Import StoreViews.
From S2P Require Import PostgresStore.
From S2P Require Import StoreBlocks.

#[local] Open Scope string_scope.
#[local] Open Scope list_scope.

Section deployments.
Context {ST : ScalarText} {STL : ScalarTextLaws} {PT : PgText} {PTL : PgTextLaws}.
Context {PG : Postgres} {PGL : PostgresLaws} {MT : MetadataText} {MTL : MetadataTextLaws MT} `{HashOrder}.
Context (normalize : BigDecimal -> BigDecimal) (store_error_text : StoreError -> string).

Abbreviation MAX := BLOCK_NUMBER_MAX.

(** ** Updating columns of a row *)
Lemma row_of_put enums ty t e rg r c v d :
  table_wf ty t -> row_of normalize enums t e rg r -> c ∈ tb_columns t -> column_stores normalize enums c v d ->
  row_of normalize enums t (<[col_field c := v]> e) rg (<[col_name c := d]> r).
Proof.
  intros Hw [Hc Hr Ho] Hin Hs. split.
  - intros c' Hin'. destruct (decide (col_name c' = col_name c)) as [E|Hne].
    + rewrite (column_eq_name ty t c' c) by done. rewrite !lookup_insert_eq. eauto.
    + rewrite !lookup_insert_ne; [by apply Hc|done|]. intros E. apply Hne. by rewrite (column_eq_field ty t c' c).
  - by rewrite lookup_insert_ne by (by eapply tw_not_range).
  - intros k. destruct (decide (k = col_name c)) as [->|Hne]; [right; by exists c|].
    rewrite lookup_insert_ne by done. apply Ho.
Qed.

(** A column, the value it is set to, and the value as the statement has it. *)
Record ColumnSet := mk_column_set { cs_column : Column; cs_value : Value; cs_datum : Datum; cs_expr : SqlExpr }.

Definition set_row (l : list ColumnSet) (r : Row) : Row :=
  foldl put r ((fun s => (col_name (cs_column s), cs_datum s)) <$> l).
Definition set_entity (l : list ColumnSet) (e : Entity) : Entity :=
  foldl put e ((fun s => (col_field (cs_column s), cs_value s)) <$> l).
Definition set_exprs (l : list ColumnSet) : list (string * SqlExpr) :=
  (fun s => (col_name (cs_column s), cs_expr s)) <$> l.

Record column_set_ok (enums : EnumMap) (t : Table) (r : Row) (s : ColumnSet) : Prop := mk_column_set_ok {
  co_column : cs_column s ∈ tb_columns t;
  co_other : col_name (cs_column s) <> PRIMARY_KEY_COLUMN;
  co_stores : column_stores normalize enums (cs_column s) (cs_value s) (cs_datum s);
  co_value : cs_value s <> VNull;
  co_expr : eval enums r (cs_expr s) = Ok (cs_datum s);
}.

Lemma row_of_sets enums ty t e rg r r0 l :
  table_wf ty t -> Forall (column_set_ok enums t r0) l -> row_of normalize enums t e rg r ->
  row_of normalize enums t (set_entity l e) rg (set_row l r).
Proof.
  intros Hw Hl. revert e r. induction Hl as [|s l [Hc _ Hs _ _] _ IH]; intros e r Hr; [done|].
  apply (IH (<[col_field (cs_column s) := cs_value s]> e)). by eapply row_of_put.
Qed.

(** The attributes that must be there. *)
Definition required (t : Table) (e : Entity) : Prop :=
  forall c, c ∈ tb_columns t -> is_primary_key c || negb (is_nullable c) = true ->
    exists v, e !! col_field c = Some v /\ v <> VNull.

Lemma required_sets enums t e r l : Forall (column_set_ok enums t r) l -> required t e -> required t (set_entity l e).
Proof.
  intros Hl. revert e. induction Hl as [|s l [Hc _ _ Hv _] _ IH]; intros e Hr; [done|].
  apply (IH (<[col_field (cs_column s) := cs_value s]> e)). intros c Hin Hreq.
  destruct (decide (col_field (cs_column s) = col_field c)) as [->|Hne].
  - rewrite lookup_insert_eq. eauto.
  - rewrite lookup_insert_ne by done. by apply Hr.
Qed.

Lemma set_row_other (l : list ColumnSet) (r : Row) k :
  Forall (fun s => col_name (cs_column s) <> k) l -> set_row l r !! k = r !! k.
Proof.
  intros Hl. apply put_lookup_none. intros ([k' d] & E & (s & E' & Hs)%list_elem_of_fmap)%list_elem_of_fmap.
  rewrite Forall_forall in Hl. specialize (Hl s Hs). cbn in E. injection E' as -> ->. by destruct Hl.
Qed.

Lemma update_sets enums ty t e rg r l :
  table_wf ty t -> row_of normalize enums t e rg r -> required t e -> Forall (column_set_ok enums t r) l ->
  update_row enums (table_ddl t) (set_exprs l) r = Ok (set_row l r).
Proof.
  intros Hw Hr Hreq Hl. unfold update_row.
  rewrite (map_res_Forall2_intro _ (fun s v => exists c, s = (col_name (cs_column c), cs_expr c)
      /\ v = (col_name (cs_column c), cs_datum c) /\ eval enums r (cs_expr c) = Ok (cs_datum c))
     (set_exprs l) ((fun s => (col_name (cs_column s), cs_datum s)) <$> l)).
  - cbn [res_bind]. rewrite assign_columns_put.
    + cbn [res_bind]. fold (set_row l r).
      by rewrite (row_of_not_null normalize enums t (set_entity l e) rg (set_row l r)
                   (required_sets enums t e r l Hl Hreq) (row_of_sets enums ty t e rg r r l Hw Hl Hr)).
    + intros kv (s & -> & Hs)%list_elem_of_fmap. rewrite Forall_forall in Hl. destruct (Hl s Hs) as [Hc _ Hst _ _].
      exists (column_ddl (cs_column s)). split; [by eapply column_def_column|by eapply column_stores_type].
  - intros s v (c & -> & -> & E). cbn [fst snd]. by rewrite E.
  - unfold set_exprs. clear Hr Hreq. induction Hl as [|s l [_ _ _ _ E] _ IH]; [constructor|].
    rewrite !fmap_cons. constructor; [by exists s|done].
Qed.

(** ** The table of deployments *)
Definition deployment_columns : list (string * string * ColumnType) :=
  [("latest_ethereum_block_number", "latestEthereumBlockNumber", CTBigInt);
   ("latest_ethereum_block_hash", "latestEthereumBlockHash", CTBytes);
   ("reorg_count", "reorgCount", CTInt); ("current_reorg_depth", "currentReorgDepth", CTInt);
   ("max_reorg_depth", "maxReorgDepth", CTInt); (ENTITY_COUNT_COLUMN, "entityCount", CTBigInt)].

Record deployment_table (ly : Layout) (t : Table) : Prop := mk_deployment_table {
  dt_table : ly_tables ly !! Metadata.SubgraphDeploymentEntity = Some t;
  dt_name : tb_qualified_name t = DEPLOYMENT_TABLE;
  dt_id : id_type_of t = IdString;
  dt_plain c : c ∈ tb_columns t -> is_tsvector c = false;
  dt_columns name field ty : (name, field, ty) ∈ deployment_columns ->
    exists c, c ∈ tb_columns t /\ col_name c = name /\ col_field c = field /\ col_type c = ty
              /\ col_is_list c = false;
}.

(** The one row of the deployment [id], which is not versioned, has the
    attributes [dep]. *)
Record deployment_row (enums : EnumMap) (t : Table) (id : string) (dep : Entity) (rows : list Row) (r : Row)
  : Prop := mk_deployment_row {
    dr_row : List.filter (fun r => same_id (row_id r) (DText id)) rows = [r];
    dr_range : row_range r = RangeBounds (Some BLOCK_UNVERSIONED) None;
    dr_of : row_of normalize enums t dep (row_range r) r;
    dr_required : required t dep;
  }.

Definition deployed (ly : Layout) (db : Db) (id : string) (dep : Entity) : Prop :=
  exists t r, deployment_table ly t
    /\ deployment_row (db_enums (contents db)) t id dep (rows_of (contents db) t) r.

Lemma deployment_row_permutation enums t id dep rows rows' r :
  rows ≡ₚ rows' -> deployment_row enums t id dep rows r -> deployment_row enums t id dep rows' r.
Proof.
  intros E [Hr ? ? ?]. split; try done.
  pose proof (filter_permutation (fun r => same_id (row_id r) (DText id)) _ _ E) as P. rewrite Hr in P.
  by apply Permutation_singleton_l in P.
Qed.

(** ** Updating the one row with an id *)
Section one_row.
Context (ty : IdType) (d : Datum) (f : Row -> Row) (rows : list Row) (r : Row).
Context (Hok : rows_ok ty rows) (Hd : id_datum ty d).
Context (Hone : List.filter (fun r => same_id (row_id r) d) rows = [r]).
Context (Hid : row_id (f r) = row_id r).
Context (Hcol : column_of (f r) "block_range" = column_of r "block_range").

Definition one_map : Row -> Row := update_map (fun r => same_id (row_id r) d) f.

Lemma one_elem a : a ∈ rows -> same_id (row_id a) d = true -> a = r.
Proof.
  intros Ha Hs. assert (List.In a (List.filter (fun r => same_id (row_id r) d) rows)) as Hin.
  { apply List.filter_In. split; [by apply list_elem_of_In|done]. }
  rewrite Hone in Hin. by destruct Hin as [->|[]].
Qed.

Lemma one_in : r ∈ rows /\ same_id (row_id r) d = true.
Proof.
  assert (List.In r (List.filter (fun r => same_id (row_id r) d) rows)) as Hin by (rewrite Hone; by left).
  apply List.filter_In in Hin as [? ?]. by rewrite list_elem_of_In.
Qed.

Lemma one_range : row_range (f r) = row_range r.
Proof. unfold row_range. by rewrite Hcol. Qed.

Lemma one_row_ok : row_ok ty (f r).
Proof.
  destruct (rk_rows ty rows Hok r (proj1 one_in)) as [Hi Hr Hb]. split.
  - by rewrite Hid.
  - by rewrite Hcol, one_range.
  - by rewrite one_range.
Qed.

Lemma one_map_row a : a ∈ rows -> row_ok ty (one_map a) /\ forall d' n, row_at d' n (one_map a) = row_at d' n a.
Proof.
  intros Ha. unfold one_map, update_map. destruct (same_id (row_id a) d) eqn:E; [|split; [by apply Hok|done]].
  rewrite (one_elem a Ha E). split; [apply one_row_ok|]. intros d' n. unfold row_at. by rewrite Hid, one_range.
Qed.

Lemma one_apart : ForallOrdPairs (apart one_map) rows.
Proof.
  pose proof (proj1 (single_pairs rows) (rk_single ty rows Hok)) as Hp.
  assert (forall a, a ∈ rows -> forall d' n, row_at d' n (one_map a) = row_at d' n a) as Hm by (intros a Ha; by apply one_map_row).
  clear Hone Hok. induction Hp as [|a l Ha _ IH]; constructor.
  - rewrite List.Forall_forall in *. intros c Hc. specialize (Ha c Hc). apply list_elem_of_In in Hc.
    split_and!; intros d' n; rewrite ?(Hm a) by left; rewrite ?(Hm c) by (by right); apply Ha.
  - apply IH. intros c Hc. apply Hm. by right.
Qed.

Lemma one_rows_ok : rows_ok ty (one_map <$> rows).
Proof.
  split.
  - intros a (b & -> & Hb)%list_elem_of_fmap. by apply one_map_row.
  - apply single_pairs. pose proof one_apart as Hap. clear Hone Hok. induction Hap as [|a l Ha _ IH]; [constructor|].
    rewrite fmap_cons. constructor; [|done]. rewrite List.Forall_forall in *.
    intros c (c0 & -> & Hc0)%list_elem_of_In%list_elem_of_fmap. apply (Ha c0). by apply list_elem_of_In.
Qed.

Lemma one_filter : List.filter (fun r => same_id (row_id r) d) (one_map <$> rows) = [f r].
Proof.
  assert (forall l, (forall a, a ∈ l -> a ∈ rows) ->
            List.filter (fun r => same_id (row_id r) d) (one_map <$> l)
            = f <$> List.filter (fun r => same_id (row_id r) d) l) as Hl.
  { induction l as [|a l IH]; intros Hin; [done|]. rewrite fmap_cons. cbn [List.filter].
    rewrite IH by (intros; apply Hin; by right). unfold one_map at 1 2, update_map.
    destruct (same_id (row_id a) d) eqn:E; [|by rewrite E].
    rewrite (one_elem a (Hin a ltac:(by left)) E), Hid. by rewrite (proj2 one_in). }
  rewrite Hl by done. by rewrite Hone.
Qed.

Lemma one_data n d' :
  data_at (one_map <$> rows) n d'
  = if same_id d' d && range_contains (row_range r) n then Some (row_data (f r)) else data_at rows n d'.
Proof.
  destruct one_in as [Hr Hs]. apply option_eq. intros x. rewrite (data_at_iff ty) by apply one_rows_ok. split.
  - intros (a & (a0 & -> & Ha)%list_elem_of_fmap & Hat & <-). rewrite (proj2 (one_map_row a0 Ha)) in Hat.
    unfold one_map, update_map. destruct (same_id (row_id a0) d) eqn:E.
    + rewrite (one_elem a0 Ha E) in *. apply andb_true_iff in Hat as [H1 H2].
      apply (same_id_eq ty) in H1 as <-; [|by apply (ro_id ty), Hok]. by rewrite Hs, H2.
    + assert (same_id d' d = false) as ->.
      { apply andb_true_iff in Hat as [H1 _]. by apply (same_id_eq ty) in H1 as <-; [|by apply (ro_id ty), Hok]. }
      apply (data_at_iff ty); [done|]. eauto.
  - destruct (same_id d' d && _) eqn:E.
    + apply andb_true_iff in E as [E1 E2]. intros [= <-]. exists (f r). split; [|split; [|done]].
      * apply list_elem_of_fmap. exists r. split; [|done]. unfold one_map, update_map. by rewrite Hs.
      * unfold row_at. rewrite Hid, one_range, E2, andb_true_r.
        rewrite (same_id_sym ty) in E1 by done. apply (same_id_eq ty) in E1 as <-; [done|done].
    + intros (a & Ha & Hat & <-)%(data_at_iff ty); [|done]. exists (one_map a).
      split; [by apply list_elem_of_fmap_2|]. rewrite (proj2 (one_map_row a Ha)). split; [done|].
      unfold one_map, update_map. destruct (same_id (row_id a) d) eqn:E2; [|done].
      rewrite (one_elem a Ha E2) in *. apply andb_true_iff in Hat as [H1 H2].
      apply (same_id_eq ty) in H1 as <-; [|by apply (ro_id ty), Hok]. by rewrite Hs, H2 in E.
Qed.
End one_row.

Lemma plain_vectors t e : (forall c, c ∈ tb_columns t -> is_tsvector c = false) -> with_vectors t e e.
Proof. intros Hp. split; [done|]. intros c v Hc Hts. by rewrite Hp in Hts. Qed.

Lemma sets_other enums ty t r l :
  table_wf ty t -> Forall (column_set_ok enums t r) l ->
  row_id (set_row l r) = row_id r /\ column_of (set_row l r) "block_range" = column_of r "block_range".
Proof.
  intros Hw Hl. unfold row_id, column_of. rewrite !set_row_other; [done| |];
    eapply Forall_impl; try exact Hl; intros s [Hc Ho _ _ _]; [by eapply (tw_not_range ty t)|done].
Qed.

(** Only entities of the type of deployments change. *)
Definition same_others (em em' : EntityView) : Prop :=
  forall obj n d, obj <> Metadata.SubgraphDeploymentEntity -> em' obj n d = em obj n d.

#[local] Instance same_others_preorder : PreOrder same_others.
Proof. split; [done|]. intros a b c H1 H2 obj n d Hne. by rewrite H2, H1. Qed.

(** A statement that sets columns of the row of a deployment. *)
Lemma deployment_step ly b db em id dep t r l st ts out :
  layout_wf ly -> stands normalize ly b db em -> deployment_table ly t ->
  table_in (contents db) (id_type_of t) t ts ->
  deployment_row (db_enums (contents db)) t id dep (ts_rows ts) r ->
  Forall (column_set_ok (db_enums (contents db)) t r) l ->
  meaning (contents db) st
  = Ok (with_rows (contents db) (tb_qualified_name t) ts (one_map (DText id) (set_row l) <$> ts_rows ts), out) ->
  exists db' o em', run_sql db st = Ok (db', o)
    /\ stands normalize ly b db' em' /\ same_others em em'
    /\ deployment_row (db_enums (contents db')) t id (set_entity l dep) (rows_of (contents db') t) (set_row l r)
    /\ frame (eq DEPLOYMENT_TABLE) (contents db) (contents db').
Proof.
  intros Hw (v & Hst & Hh) Hdt Hin Hdr Hl Hm. pose proof (dt_table ly t Hdt) as Ht.
  pose proof (lw_table ly Hw _ t Ht) as Htw. pose proof Hin as [_ Hdef [_ Hok Hnn]].
  destruct Hdr as [Hone Hrg Hof Hreq].
  assert (id_datum (id_type_of t) (DText id)) as Hd by (by rewrite (dt_id ly t Hdt)).
  destruct (sets_other _ _ t r l Htw Hl) as [Hid Hcol].
  destruct (one_in (DText id) (ts_rows ts) r Hone) as [Hr Hsame].
  pose proof (row_of_sets _ _ t dep (row_range r) r r l Htw Hl Hof) as Hof'.
  destruct (run_sql_ok db st _ out Hm) as (db' & o & Hrun & Hsd & _).
  set (obj := Metadata.SubgraphDeploymentEntity) in *.
  destruct (storage_table normalize ly b db v obj t Hst Ht) as (ts2 & Hin2 & Hset & Hv & Hfill).
  assert (ts2 = ts) as ->.
  { pose proof (ti_table _ _ _ _ Hin) as E1. rewrite (ti_table _ _ _ _ Hin2) in E1. by injection E1. }
  assert (holds normalize (db_enums (contents db)) t (set_entity l dep) (row_data (set_row l r))) as Hnew.
  { eapply row_of_holds; [done| |exact Hof']. by apply plain_vectors, Hdt. }
  destruct (store_step normalize ly b db db' v (view_put obj (DText id) BLOCK_UNVERSIONED (row_data (set_row l r)) v) obj t ts
              (one_map (DText id) (set_row l) <$> ts_rows ts)) as [Hst' Hf]; try done.
  - by apply (one_rows_ok _ _ _ _ r).
  - intros a (a0 & -> & Ha0)%list_elem_of_fmap. unfold one_map, update_map.
    destruct (same_id (row_id a0) (DText id)) eqn:E; [|by apply Hnn].
    rewrite (one_elem (DText id) (set_row l) (ts_rows ts) r Hone Hid Hcol a0 Ha0 E), Hdef.
    eapply row_of_not_null; [|exact Hof']. by apply (required_sets (db_enums (contents db)) _ _ r).
  - intros a (a0 & -> & Ha0)%list_elem_of_fmap n m Hn Hm'. unfold one_map, update_map.
    destruct (same_id (row_id a0) (DText id)) eqn:E; [|by apply Hset].
    rewrite (one_elem (DText id) (set_row l) (ts_rows ts) r Hone Hid Hcol a0 Ha0 E).
    rewrite (one_range (set_row l) r Hcol). by apply Hset.
  - intros n d'. rewrite (one_data _ (DText id) (set_row l) (ts_rows ts) r Hok Hd Hone Hid Hcol). unfold view_put, at_entity.
    rewrite String.eqb_refl, Hrg, Hv. cbn [andb range_contains]. by rewrite andb_true_r.
  - intros obj' n d' Hne. unfold view_put. by rewrite at_entity_other.
  - intros a (a0 & -> & Ha0)%list_elem_of_fmap. unfold one_map, update_map.
    destruct (same_id (row_id a0) (DText id)) eqn:E; [|by apply Hfill].
    rewrite (one_elem (DText id) (set_row l) (ts_rows ts) r Hone Hid Hcol a0 Ha0 E). by eexists.
  - exists db', o, (entity_put obj (DText id) BLOCK_UNVERSIONED (set_entity l dep) em). split; [done|].
    rewrite (dt_name ly t Hdt) in Hf. split; [|split; [|split; [|done]]].
    + eexists. split; [exact Hst'|]. rewrite (fr_enums _ _ _ Hf). by eapply holds_put.
    + intros obj' n d' Hne. unfold entity_put. by rewrite at_entity_other.
    + rewrite (fr_enums _ _ _ Hf). eapply deployment_row_permutation; [|].
      2: { split; [by apply (one_filter (DText id) (set_row l) (ts_rows ts) r)| | |by apply (required_sets (db_enums (contents db)) _ _ r)].
           - by rewrite (one_range (set_row l) r Hcol).
           - by rewrite (one_range (set_row l) r Hcol). }
      pose proof (same_rows _ _ t Hsd) as P. rewrite <- P. unfold rows_of, with_rows. cbn [db_tables].
      by rewrite lookup_insert_eq.
Qed.

(** ** The statements on a deployment *)
Lemma stands_deployment ly b db em id dep :
  layout_wf ly -> stands normalize ly b db em -> deployed ly db id dep ->
  exists t ts r, deployment_table ly t /\ table_in (contents db) (id_type_of t) t ts
    /\ deployment_row (db_enums (contents db)) t id dep (ts_rows ts) r.
Proof.
  intros Hw (v & [[[Hok _] _] _] & _) (t & r & Hdt & Hdr).
  destruct (table_of_store ly _ _ t Hok (dt_table ly t Hdt)) as (ts & Hin & Er).
  exists t, ts, r. split; [done|]. split; [done|]. by rewrite <- Er.
Qed.

Lemma eval_deployment enums r id :
  row_ok IdString r -> eval enums r (is_deployment id) = Ok (DBool (same_id (row_id r) (DText id))).
Proof.
  intros [Hi _ _]. unfold is_deployment. cbn [eval res_bind]. fold (row_id r). unfold same_id.
  destruct (row_id r); try done. cbn. by destruct (String.eqb _ _).
Qed.

Lemma set_checks ty t l es :
  table_wf ty t ->
  (forall c, c ∈ (set_exprs l).*2 ≫= expr_columns -> exists col, col ∈ tb_columns t /\ col_name col = c) ->
  Forall (fun c => c = "id") (es ≫= expr_columns) ->
  check_columns (table_ddl t) (es ++ (set_exprs l).*2) = Ok ().
Proof.
  intros Hw Hcols Hes. apply known_columns. intros c Hc.
  rewrite bind_app, elem_of_app in Hc. destruct Hc as [Hc|Hc].
  - rewrite Forall_forall in Hes. rewrite (Hes c Hc). destruct (def_ok_ddl ty t Hw) as [_ (d & -> & _) _]. by eexists.
  - destruct (Hcols c Hc) as (col & Hin & <-). rewrite (column_def_column ty) by done. by eexists.
Qed.

Lemma meaning_deployment ly db id dep t ts r l :
  layout_wf ly -> deployment_table ly t -> table_in (contents db) (id_type_of t) t ts ->
  deployment_row (db_enums (contents db)) t id dep (ts_rows ts) r ->
  l <> [] -> Forall (column_set_ok (db_enums (contents db)) t r) l ->
  (forall c, c ∈ (set_exprs l).*2 ≫= expr_columns -> exists col, col ∈ tb_columns t /\ col_name col = c) ->
  exists out, meaning (contents db) (SUpdate DEPLOYMENT_TABLE (set_exprs l) (is_deployment id) [])
  = Ok (with_rows (contents db) (tb_qualified_name t) ts (one_map (DText id) (set_row l) <$> ts_rows ts), out).
Proof.
  intros Hw Hdt Hin Hdr Hl Hok Hcols. pose proof (lw_table ly Hw _ t (dt_table ly t Hdt)) as Htw.
  pose proof Hin as [Htab Hdef [_ Hrok Hnn]]. destruct Hdr as [Hone Hrg Hof Hreq].
  assert (id_datum (id_type_of t) (DText id)) as Hd by (by rewrite (dt_id ly t Hdt)).
  destruct (sets_other _ _ t r l Htw Hok) as [Hid Hcol].
  eexists. rewrite <- (dt_name ly t Hdt).
  apply (meaning_update _ _ _ _ _ _ (id_type_of t) (fun r => same_id (row_id r) (DText id)) (set_row l)).
  - by destruct l.
  - done.
  - rewrite Hdef, app_nil_r. apply (set_checks (id_type_of t) t l [is_deployment id]); [done..|].
    apply Forall_cons_2; [done|by apply Forall_nil_2].
  - by rewrite Hdef.
  - intros a Ha. apply selects_bool, eval_deployment. rewrite <- (dt_id ly t Hdt). by apply Hrok.
  - intros a Ha E. rewrite (one_elem (DText id) (set_row l) (ts_rows ts) r Hone Hid Hcol a Ha E), Hdef.
    by eapply update_sets.
  - done.
  - intros a Ha. split; [by apply Hrok|]. by apply (one_map_row _ _ _ (ts_rows ts) r).
  - by apply (one_apart (id_type_of t) _ _ _ r).
  - done.
Qed.

(** Columns that are set to a value whatever they are. *)
Definition sets_columns (ly : Layout) (db : Db) (id : string) (dep dep' : Entity) (sets : list (string * SqlExpr))
  : Prop :=
  forall t r, deployment_table ly t -> row_of normalize (db_enums (contents db)) t dep (row_range r) r ->
    exists l, l <> [] /\ set_exprs l = sets /\ set_entity l dep = dep'
      /\ Forall (column_set_ok (db_enums (contents db)) t r) l
      /\ forall c, c ∈ sets.*2 ≫= expr_columns -> exists col, col ∈ tb_columns t /\ col_name col = c.

Lemma run_deployment ly b db em id dep dep' sets :
  layout_wf ly -> stands normalize ly b db em -> deployed ly db id dep -> sets_columns ly db id dep dep' sets ->
  exists db' o em', run_sql db (SUpdate DEPLOYMENT_TABLE sets (is_deployment id) []) = Ok (db', o)
    /\ stands normalize ly b db' em' /\ same_others em em' /\ deployed ly db' id dep'
    /\ frame (eq DEPLOYMENT_TABLE) (contents db) (contents db').
Proof.
  intros Hw Hs Hdep Hsets. destruct (stands_deployment ly b db em id dep Hw Hs Hdep) as (t & ts & r & Hdt & Hin & Hdr).
  destruct (Hsets t r Hdt (dr_of _ _ _ _ _ _ Hdr)) as (l & Hl & <- & <- & Hok & Hcols).
  destruct (meaning_deployment ly db id dep t ts r l Hw Hdt Hin Hdr Hl Hok Hcols) as [out Hm].
  destruct (deployment_step ly b db em id dep t r l _ ts out Hw Hs Hdt Hin Hdr Hok Hm)
    as (db' & o & em' & Hrun & Hs' & Hso & Hdr' & Hf).
  exists db', o, em'. split; [done|]. split; [done|]. split; [done|]. split; [|done]. by exists t, (set_row l r).
Qed.

(** *** The values that are set *)
Lemma set_number enums t c r n :
  (Z.abs n < 2 ^ 64)%Z -> c ∈ tb_columns t -> col_name c <> PRIMARY_KEY_COLUMN -> col_type c = CTBigInt ->
  col_is_list c = false ->
  column_set_ok enums t r (mk_column_set c (VBigInt n) (DNumeric (numeric_of_Z n))
    (ECast (EBind (DText (bigint_to_string n))) TNumeric)).
Proof.
  intros Hn Hin Hid Hty Hl. split; cbn; try done.
  - apply column_scalar; [done|]. rewrite Hty. constructor. by apply numeric_small.
  - by rewrite (numeric_small n Hn).
Qed.

Lemma set_hash enums t c r b :
  c ∈ tb_columns t -> col_name c <> PRIMARY_KEY_COLUMN -> col_type c = CTBytes -> col_is_list c = false ->
  column_set_ok enums t r (mk_column_set c (VBytes b) (DBytea b) (EBind (DBytea b))).
Proof. intros Hin Hid Hty Hl. split; cbn; try done. apply column_scalar; [done|]. rewrite Hty. constructor. Qed.

Lemma set_integer enums t c r e n :
  c ∈ tb_columns t -> col_name c <> PRIMARY_KEY_COLUMN -> col_type c = CTInt -> col_is_list c = false ->
  is_i32 n -> eval enums r e = Ok (DInteger n) ->
  column_set_ok enums t r (mk_column_set c (VInt n) (DInteger n) e).
Proof. intros Hin Hid Hty Hl Hn He. split; cbn; try done. apply column_scalar; [done|]. rewrite Hty. by constructor. Qed.

(** The column of an integer attribute. *)
Lemma row_integer enums t (dep : Entity) rg r c n :
  row_of normalize enums t dep rg r -> c ∈ tb_columns t -> col_type c = CTInt -> dep !! col_field c = Some (VInt n) ->
  column_of r (col_name c) = DInteger n /\ is_i32 n.
Proof.
  intros Hr Hc Hty Hv. pose proof (rf_columns _ _ _ _ _ _ Hr c Hc) as Hrc. rewrite Hv in Hrc.
  destruct Hrc as (d & Hd & Hs). unfold column_of. rewrite Hd. cbn.
  inversion Hs as [|v d' _ Hst| |]; subst. rewrite Hty in Hst. by inversion Hst.
Qed.

Definition with_block_ptr (ptr : EthereumBlockPointer) (dep : Entity) : Entity :=
  <["latestEthereumBlockHash" := VBytes (h256_bytes (ptr_hash ptr))]>
    (<["latestEthereumBlockNumber" := VBigInt (ptr_number ptr)]> dep).

(** What [forward_block_ptr] and [revert_block_ptr] make of the deployment. *)
Definition forwarded (ptr : EthereumBlockPointer) (dep : Entity) : Entity :=
  <["currentReorgDepth" := VInt 0]> (with_block_ptr ptr dep).

Definition reorg_attributes (count depth max : Z) (dep : Entity) : Prop :=
  dep !! "reorgCount" = Some (VInt count) /\ dep !! "currentReorgDepth" = Some (VInt depth)
  /\ dep !! "maxReorgDepth" = Some (VInt max).

Definition rewound (ptr : EthereumBlockPointer) (count depth max : Z) (dep : Entity) : Entity :=
  <["maxReorgDepth" := VInt (Z.max (depth + 1) max)]>
    (<["currentReorgDepth" := VInt (depth + 1)]>
       (<["reorgCount" := VInt (count + 1)]> (with_block_ptr ptr dep))).

Ltac deployment_column Hc name field ty c Hin Hn Hf Ht Hl :=
  destruct (Hc name field ty) as (c & Hin & Hn & Hf & Ht & Hl); [set_solver|].

Lemma sets_forward ly db id dep ptr :
  is_u64 (ptr_number ptr) ->
  sets_columns ly db id dep (forwarded ptr dep) (set_block_ptr ptr ++ [("current_reorg_depth", EBind (DInteger 0))]).
Proof.
  intros Hn t r Hdt Hr. pose proof (dt_columns ly t Hdt) as Hc.
  deployment_column Hc "latest_ethereum_block_number" "latestEthereumBlockNumber" CTBigInt c1 H1 N1 F1 T1 L1.
  deployment_column Hc "latest_ethereum_block_hash" "latestEthereumBlockHash" CTBytes c2 H2 N2 F2 T2 L2.
  deployment_column Hc "current_reorg_depth" "currentReorgDepth" CTInt c3 H3 N3 F3 T3 L3.
  exists [mk_column_set c1 (VBigInt (ptr_number ptr)) (DNumeric (numeric_of_Z (ptr_number ptr)))
           (ECast (EBind (DText (bigint_to_string (ptr_number ptr)))) TNumeric);
          mk_column_set c2 (VBytes (h256_bytes (ptr_hash ptr))) (DBytea (h256_bytes (ptr_hash ptr)))
           (EBind (DBytea (h256_bytes (ptr_hash ptr))));
          mk_column_set c3 (VInt 0) (DInteger 0) (EBind (DInteger 0))].
  split; [done|]. unfold set_exprs, set_entity, set_block_ptr. cbn. rewrite N1, N2, N3, F1, F2, F3.
  split; [done|]. split; [done|]. split; [|by intros c ?%not_elem_of_nil].
  repeat apply Forall_cons_2; [apply set_number|apply set_hash|apply set_integer|apply Forall_nil_2];
    rewrite ?N1, ?N2, ?N3; try done. unfold is_u64 in Hn. lia.
Qed.

Lemma sets_revert ly db id dep ptr count depth max :
  is_u64 (ptr_number ptr) -> reorg_attributes count depth max dep ->
  is_i32 (count + 1) -> is_i32 (depth + 1) ->
  sets_columns ly db id dep (rewound ptr count depth max dep)
    (set_block_ptr ptr
     ++ [("reorg_count", plus_one "reorg_count"); ("current_reorg_depth", plus_one "current_reorg_depth");
         ("max_reorg_depth", EGreatest (plus_one "current_reorg_depth") (EColumn "max_reorg_depth"))]).
Proof.
  intros Hn (Ac & Ad & Am) Hi Hj t r Hdt Hr. pose proof (dt_columns ly t Hdt) as Hc.
  deployment_column Hc "latest_ethereum_block_number" "latestEthereumBlockNumber" CTBigInt c1 H1 N1 F1 T1 L1.
  deployment_column Hc "latest_ethereum_block_hash" "latestEthereumBlockHash" CTBytes c2 H2 N2 F2 T2 L2.
  deployment_column Hc "reorg_count" "reorgCount" CTInt c3 H3 N3 F3 T3 L3.
  deployment_column Hc "current_reorg_depth" "currentReorgDepth" CTInt c4 H4 N4 F4 T4 L4.
  deployment_column Hc "max_reorg_depth" "maxReorgDepth" CTInt c5 H5 N5 F5 T5 L5.
  rewrite <- F3 in Ac. rewrite <- F4 in Ad. rewrite <- F5 in Am.
  destruct (row_integer _ t dep _ r c3 count Hr H3 T3 Ac) as [Rc Ic].
  destruct (row_integer _ t dep _ r c4 depth Hr H4 T4 Ad) as [Rd Id].
  destruct (row_integer _ t dep _ r c5 max Hr H5 T5 Am) as [Rm Im].
  rewrite N3 in Rc. rewrite N4 in Rd. rewrite N5 in Rm.
  set (en := db_enums (contents db)) in *.
  assert (eval en r (plus_one "current_reorg_depth") = Ok (DInteger (depth + 1))) as Ed.
  { unfold plus_one. cbn [eval res_bind]. rewrite Rd. by rewrite bool_decide_true. }
  exists [mk_column_set c1 (VBigInt (ptr_number ptr)) (DNumeric (numeric_of_Z (ptr_number ptr)))
           (ECast (EBind (DText (bigint_to_string (ptr_number ptr)))) TNumeric);
          mk_column_set c2 (VBytes (h256_bytes (ptr_hash ptr))) (DBytea (h256_bytes (ptr_hash ptr)))
           (EBind (DBytea (h256_bytes (ptr_hash ptr))));
          mk_column_set c3 (VInt (count + 1)) (DInteger (count + 1)) (plus_one "reorg_count");
          mk_column_set c4 (VInt (depth + 1)) (DInteger (depth + 1)) (plus_one "current_reorg_depth");
          mk_column_set c5 (VInt (Z.max (depth + 1) max)) (DInteger (Z.max (depth + 1) max))
           (EGreatest (plus_one "current_reorg_depth") (EColumn "max_reorg_depth"))].
  split; [done|]. unfold set_exprs, set_entity, set_block_ptr. cbn. rewrite N1, N2, N3, N4, N5, F1, F2, F3, F4, F5.
  split; [done|]. split; [done|]. split.
  - repeat apply Forall_cons_2;
      [apply set_number|apply set_hash|apply set_integer|apply set_integer|apply set_integer|apply Forall_nil_2];
      rewrite ?N1, ?N2, ?N3, ?N4, ?N5; try done.
    + unfold is_u64 in Hn. lia.
    + unfold plus_one. cbn [eval res_bind]. rewrite Rc. by rewrite bool_decide_true.
    + unfold is_i32 in *. lia.
    + cbn [eval res_bind]. fold (plus_one "current_reorg_depth"). change (EAdd _ _) with (plus_one "current_reorg_depth").
      rewrite Ed. cbn [res_bind]. by rewrite Rm.
  - intros c Hin. repeat (apply elem_of_cons in Hin as [->|Hin]); [by exists c3|by exists c4|by exists c4|by exists c5|].
    by apply not_elem_of_nil in Hin.
Qed.

(** ** Counting entities *)

(** The current versions of a table are as many as its live ids. *)
Lemma upper_inf_current ty r : row_ok ty r -> upper_inf r = range_contains (row_range r) MAX.
Proof.
  intros Hr. unfold upper_inf. change "block_range" with BLOCK_RANGE_COLUMN. rewrite (range_column ty r Hr).
  pose proof (ro_bounds ty r Hr) as Hb. apply eq_true_iff_eq. rewrite contains_max by done.
  destruct (row_range r) as [|[l|] [u|]]; try done; split; try done; [|by intros [? ?]..|intros _; eauto].
  by intros [? ?].
Qed.

Lemma size_live ty rows n :
  rows_ok ty rows ->
  size (live rows n) = length (List.filter (fun r => range_contains (row_range r) n) rows).
Proof.
  intros Hok. unfold live, ids_of. rewrite size_list_to_set; [by rewrite length_fmap|].
  pose proof (proj1 (single_pairs rows) (rk_single ty rows Hok)) as Hp.
  pose proof (rk_rows ty rows Hok) as Hr. clear Hok.
  induction Hp as [|a l Ha _ IH]; [constructor|].
  assert (NoDup ((fun r => id_str (row_id r)) <$> List.filter (fun r => range_contains (row_range r) n) l)) as Hl.
  { apply IH. intros. apply Hr. by right. }
  cbn [List.filter]. destruct (range_contains (row_range a) n) eqn:Ea; [|done]. rewrite fmap_cons.
  apply NoDup_cons. split; [|done].
  intros (c & E & [Hc1 Hc2]%list_elem_of_In%List.filter_In)%list_elem_of_fmap. rewrite List.Forall_forall in Ha.
  specialize (Ha c Hc1 (row_id a) n). apply list_elem_of_In in Hc1.
  apply (id_str_inj ty) in E; [|apply (ro_id ty), Hr; by left|apply (ro_id ty), Hr; by right].
  assert (same_id (row_id a) (row_id a) = true) as Hs by (apply (same_id_refl ty), (ro_id ty), Hr; by left).
  unfold row_at in Ha. rewrite Ea, <- E, Hs, Hc2 in Ha. by apply Ha.
Qed.

Lemma count_tables ly db :
  store_ok ly db -> ly_tables ly <> ∅ ->
  count_current db ((fun t : string * Table => tb_qualified_name t.2) <$> hash_iter (ly_tables ly))
  = Ok (entity_count ly db).
Proof.
  intros Hok Hne. unfold count_current, entity_count, entities_at.
  set (l := hash_iter (ly_tables ly)).
  assert (map_res (fun name => let? t := get_table db name in
                     Ok (Z.of_nat (length (List.filter upper_inf (ts_rows t)))))
            ((fun t : string * Table => tb_qualified_name t.2) <$> l)
          = Ok ((fun ot : string * Table => Z.of_nat (size (live (rows_of db ot.2) MAX))) <$> l) :> res SqlError _) as ->.
  { apply map_res_Forall2, Forall2_fmap, Forall2_same_length_lookup_2; [done|]. intros i [o t] ot' H1 H2.
    rewrite H1 in H2. injection H2 as <-. apply list_elem_of_lookup_2 in H1. apply hash_iter_elem in H1. cbn [snd].
    destruct (table_of_store ly _ o t Hok H1) as (ts & Hin & ->). unfold get_table.
    rewrite (ti_table _ _ _ _ Hin). cbn [ok_or res_bind]. do 2 f_equal.
    destruct Hin as [_ _ [_ Hrok _]]. rewrite (size_live (id_type_of t)) by done. f_equal.
    apply List.filter_ext_in. intros r Hr%list_elem_of_In. by eapply upper_inf_current, Hrok. }
  cbn [res_bind]. destruct l as [|x l'] eqn:El; [|done]. destruct Hne. apply map_empty. intros k.
  destruct (ly_tables ly !! k) as [t|] eqn:E; [|done]. apply hash_iter_elem in E. fold l in E.
  rewrite El in E. by apply not_elem_of_nil in E.
Qed.

(** The number the deployment has for its entities. *)
Definition counts (n : Z) (dep : Entity) : Prop := dep !! "entityCount" = Some (VBigInt n) /\ (0 <= n < 2 ^ 64)%Z.

Lemma row_number enums t (dep : Entity) rg r c n :
  row_of normalize enums t dep rg r -> c ∈ tb_columns t -> col_type c = CTBigInt ->
  dep !! col_field c = Some (VBigInt n) -> (Z.abs n < 2 ^ 64)%Z ->
  column_of r (col_name c) = DNumeric (numeric_of_Z n).
Proof.
  intros Hr Hc Hty Hv Hn. pose proof (rf_columns _ _ _ _ _ _ Hr c Hc) as Hrc. rewrite Hv in Hrc.
  destruct Hrc as (d & Hd & Hs). unfold column_of. rewrite Hd. cbn.
  inversion Hs as [|v d' _ Hst| |]; subst. rewrite Hty in Hst. inversion Hst as [| | | | |n' x Hx| |]; subst.
  rewrite (numeric_small n Hn) in Hx. by injection Hx as <-.
Qed.

Lemma meaning_count meta db ly dep t ts r n count :
  layout_wf meta -> deployment_table meta t -> table_in (contents db) (id_type_of t) t ts ->
  deployment_row (db_enums (contents db)) t (ly_subgraph ly) dep (ts_rows ts) r ->
  store_ok ly (contents db) -> ly_tables ly <> ∅ -> counts n dep -> (0 <= n + count < 2 ^ 64)%Z ->
  exists l out, set_entity l dep = <["entityCount" := VBigInt (n + count)]> dep
    /\ Forall (column_set_ok (db_enums (contents db)) t r) l
    /\ meaning (contents db) (update_entity_count_statement ly count)
       = Ok (with_rows (contents db) (tb_qualified_name t) ts
               (one_map (DText (ly_subgraph ly)) (set_row l) <$> ts_rows ts), out).
Proof.
  intros Hw Hdt Hin Hdr Hok Hne [Hdep Hn] Hnc. pose proof (lw_table meta Hw _ t (dt_table meta t Hdt)) as Htw.
  pose proof Hin as [Htab Hdef [_ Hrok Hnn]]. destruct Hdr as [Hone Hrg Hof Hreq].
  destruct (dt_columns meta t Hdt ENTITY_COUNT_COLUMN "entityCount" CTBigInt) as (c & Hc & Nc & Fc & Tc & Lc);
    [unfold deployment_columns; set_solver|].
  set (s := mk_column_set c (VBigInt (n + count)) (DNumeric (numeric_of_Z (n + count)))
              (ECast (EBind (DText (bigint_to_string (n + count)))) TNumeric)).
  assert (column_set_ok (db_enums (contents db)) t r s) as Hs.
  { apply set_number; try done; [lia|]. by rewrite Nc. }
  assert (Forall (column_set_ok (db_enums (contents db)) t r) [s]) as Hl by (apply Forall_cons_2; [done|constructor]).
  destruct (sets_other _ _ t r [s] Htw Hl) as [Hid Hcol].
  assert (column_of r ENTITY_COUNT_COLUMN = DNumeric (numeric_of_Z n)) as Hrc.
  { rewrite <- Nc. eapply row_number; [done..| |lia]. by rewrite Fc. }
  exists [s]. eexists. split; [unfold set_entity; cbn; by rewrite Fc|]. split; [done|].
  unfold meaning, update_entity_count_statement, get_table. rewrite <- (dt_name meta t Hdt), Htab. cbn [ok_or res_bind].
  rewrite Hdef, <- Nc, (column_def_column (id_type_of t)) by done. cbn [ok_or res_bind].
  rewrite count_tables by done. cbn [res_bind column_ddl cd_type]. rewrite Lc, Tc, Nc. cbn [sql_type].
  rewrite bool_decide_true, !bool_decide_false by done. cbn [negb orb].
  rewrite (map_res_all_ok _ (one_map (DText (ly_subgraph ly)) (set_row [s]))); [done|].
  intros a Ha. unfold add_count_row, one_map, update_map. fold (row_id a).
  destruct (same_id (row_id a) (DText (ly_subgraph ly))) eqn:E; [|done].
  rewrite (one_elem (DText (ly_subgraph ly)) (set_row [s]) (ts_rows ts) r Hone Hid Hcol a Ha E), Hrc.
  unfold add_count. rewrite numeric_is_Z, numeric_add_Z. destruct (Z.eqb_spec n (-1)); [lia|]. cbn [res_bind].
  unfold set_row. cbn. by rewrite Nc.
Qed.

Lemma update_entity_count_ok conn b db em dep n count :
  conn_wf conn -> stands normalize (cn_metadata conn) b db em ->
  deployed (cn_metadata conn) db (ly_subgraph (cn_storage conn)) dep ->
  store_ok (cn_storage conn) (contents db) -> ly_tables (cn_storage conn) <> ∅ ->
  counts n dep -> (0 <= n + count < 2 ^ 64)%Z ->
  exists db' em', conn_update_entity_count conn db count = Ok db'
    /\ stands normalize (cn_metadata conn) b db' em' /\ same_others em em'
    /\ deployed (cn_metadata conn) db' (ly_subgraph (cn_storage conn)) (<["entityCount" := VBigInt (n + count)]> dep)
    /\ frame (eq DEPLOYMENT_TABLE) (contents db) (contents db').
Proof.
  intros Hcw Hs Hdep Hok Hne Hn Hnc. pose proof (cw_metadata conn Hcw) as Hw. unfold conn_update_entity_count.
  destruct (Z.eqb_spec count 0) as [->|Hc].
  { exists db, em. split; [done|]. split; [done|]. split; [done|]. split; [|done]. rewrite Z.add_0_r, insert_id; [done|apply Hn]. }
  destruct (stands_deployment _ b db em _ dep Hw Hs Hdep) as (t & ts & r & Hdt & Hin & Hdr).
  destruct (meaning_count _ db (cn_storage conn) dep t ts r n count Hw Hdt Hin Hdr Hok Hne Hn Hnc)
    as (l & out & <- & Hl & Hm).
  destruct (deployment_step _ b db em _ dep t r l _ ts out Hw Hs Hdt Hin Hdr Hl Hm)
    as (db' & o & em' & -> & Hs' & Hso & Hdr' & Hf).
  exists db', em'. split; [done|]. split; [done|]. split; [done|]. split; [|done]. by exists t, (set_row l r).
Qed.

(** ** Reading the pointer *)
Lemma stored_value ly t (dep e : Entity) c v :
  layout_wf ly -> deployment_table ly t -> c ∈ tb_columns t -> dep !! col_field c = Some v -> v <> VNull ->
  e ≡ stored_entity t dep -> exists v', e !! col_field c = Some v' /\ v' ≡ v.
Proof.
  intros Hw Hdt Hc Hv Hn He. pose proof (lw_table ly Hw _ t (dt_table ly t Hdt)) as Htw.
  specialize (He (col_field c)). unfold stored_entity in He.
  set (m := {["__typename" := VString (tb_object t)]} : Entity) in He. set (l := omap _ (readable t)) in He.
  assert (c ∈ readable t) as Hcr.
  { apply elem_readable. split; [done|by apply (dt_plain ly t Hdt)]. }
  assert (col_field c ∈ l.*1) as Hin.
  { apply (list_elem_of_fmap_2 fst _ (col_field c, v)), elem_stored. by exists c. }
  destruct (put_lookup_some l m (col_field c) Hin) as (w & Hw' & El). rewrite El in He.
  apply elem_stored in Hw' as (c' & _ & _ & Hw' & _). rewrite Hv in Hw'. injection Hw' as <-.
  inversion He as [x y E|]; subst. by exists x.
Qed.

Definition pointer (ptr : EthereumBlockPointer) (dep : Entity) : Prop :=
  dep !! "latestEthereumBlockHash" = Some (VBytes (h256_bytes (ptr_hash ptr)))
  /\ dep !! "latestEthereumBlockNumber" = Some (VBigInt (ptr_number ptr)) /\ is_u64 (ptr_number ptr).

Definition no_pointer (dep : Entity) : Prop :=
  forall f, f = "latestEthereumBlockHash" \/ f = "latestEthereumBlockNumber" -> default VNull (dep !! f) = VNull.

Definition points_to (ptr : option EthereumBlockPointer) (dep : Entity) : Prop :=
  match ptr with Some ptr => pointer ptr dep | None => no_pointer dep end.

Lemma parse_h256_bytes h : h256_of_value (VBytes (h256_bytes h)) = Ok (Some h).
Proof.
  unfold h256_of_value, Bytes_to_string, parse_h256. change (trim_0x ("0x" +:+ ?s)) with (trim_0x s).
  by rewrite hex_no_prefix, h256_reads.
Qed.

Lemma stored_absent t (dep e : Entity) f :
  default VNull (dep !! f) = VNull -> f <> "__typename" -> e ≡ stored_entity t dep -> e !! f = None.
Proof.
  intros Hn Hf He. specialize (He f). unfold stored_entity in He.
  set (m := {["__typename" := VString (tb_object t)]} : Entity) in He. set (l := omap _ (readable t)) in He.
  rewrite put_lookup_none in He.
  - unfold m in He. rewrite lookup_singleton_ne in He by done. by inversion He.
  - intros ([f' v] & -> & (c & _ & -> & Hv & Hnn)%elem_stored)%list_elem_of_fmap. cbn in Hn. by rewrite Hv in Hn.
Qed.

Lemma find_deployment conn b db em id dep :
  conn_wf conn -> stands normalize (cn_metadata conn) b db em -> deployed (cn_metadata conn) db id dep ->
  exists db' e t, conn_find_metadata normalize conn db Metadata.SubgraphDeploymentEntity id = Ok (db', Some e)
    /\ same_database (contents db) (contents db') /\ deployment_table (cn_metadata conn) t /\ e ≡ stored_entity t dep.
Proof.
  intros Hcw Hs Hdep. pose proof (cw_metadata conn Hcw) as Hw. pose proof Hs as (v & [[Hrep _] _] & _).
  destruct (stands_deployment _ b db em id dep Hw Hs Hdep) as (t & ts & r & Hdt & Hin & [Hone Hrg Hof Hreq]).
  pose proof (dt_table _ t Hdt) as Ht. pose proof (lw_table _ Hw _ t Ht) as Htw.
  assert (id_value (id_type_of t) id = Ok (DText id)) as Hid by (by rewrite (dt_id _ t Hdt)).
  destruct (layout_find_ok normalize _ db v _ t id (DText id) MAX Hw Hrep Ht Hid) as (db' & Hsame & Hfind).
  assert (v Metadata.SubgraphDeploymentEntity MAX (DText id) = Some (row_data r)) as Hv.
  { rewrite <- (rp_view _ _ _ Hrep _ t _ _ Ht). unfold table_view. rewrite (table_in_rows _ _ _ _ Hin).
    apply (data_at_iff (id_type_of t)); [apply Hin|]. destruct (one_in (DText id) (ts_rows ts) r Hone) as [Hr Hsm].
    exists r. split; [done|]. split; [|done]. unfold row_at. by rewrite Hsm, Hrg. }
  rewrite Hv in Hfind. destruct (Hfind (db_enums (contents db)) dep) as (e & He & Ee).
  { eapply row_of_holds; [done| |exact Hof]. by apply plain_vectors, Hdt. }
  by exists db', e, t.
Qed.

(** [block_ptr_with_conn] reads the pointer of the deployment. *)
Lemma block_ptr_ok conn b db em id dep ptr :
  conn_wf conn -> stands normalize (cn_metadata conn) b db em -> deployed (cn_metadata conn) db id dep ->
  points_to ptr dep ->
  exists db', block_ptr_with_conn normalize store_error_text conn db id = Ok (db', ptr)
    /\ same_database (contents db) (contents db').
Proof.
  intros Hcw Hs Hdep Hp. destruct (find_deployment conn b db em id dep Hcw Hs Hdep) as (db' & e & t & Hf & Hsame & Hdt & He).
  exists db'. split; [|done]. unfold block_ptr_with_conn. rewrite Hf. cbn [map_err res_bind ok_or].
  pose proof (dt_columns _ t Hdt) as Hc. pose proof (cw_metadata conn Hcw) as Hw. destruct ptr as [ptr|].
  - destruct Hp as (Hh & Hn & Hu).
    deployment_column Hc "latest_ethereum_block_number" "latestEthereumBlockNumber" CTBigInt c1 H1 N1 F1 T1 L1.
    deployment_column Hc "latest_ethereum_block_hash" "latestEthereumBlockHash" CTBytes c2 H2 N2 F2 T2 L2.
    rewrite <- F1 in Hn. rewrite <- F2 in Hh.
    destruct (stored_value _ t dep e c1 _ Hw Hdt H1 Hn ltac:(done) He) as (v1 & E1 & Ev1).
    destruct (stored_value _ t dep e c2 _ Hw Hdt H2 Hh ltac:(done) He) as (v2 & E2 & Ev2).
    rewrite F1 in E1. rewrite F2 in E2. rewrite E1, E2.
    destruct v1 as [| | | | | | |n1]; try done. apply Z.eqb_eq in Ev1 as ->.
    destruct v2 as [| | | | | |b2|]; try done. apply bool_decide_eq_true in Ev2 as ->.
    rewrite parse_h256_bytes. cbn. rewrite bool_decide_true by done. by destruct ptr.
  - rewrite (stored_absent t dep e "latestEthereumBlockHash") by (try apply Hp; auto).
    by rewrite (stored_absent t dep e "latestEthereumBlockNumber") by (try apply Hp; auto).
Qed.
End deployments.
