(* ===== verification/MetadataReverts.v ===== *)
(** * Reverting metadata

    Reverting a block removes the dynamic data sources that were made from that
    block on, and all other metadata whose ids begin with theirs.  Nothing else
    of the metadata changes, and nothing that describes deployments. *)

From stdpp Require Import prelude list strings gmap.
From Stdlib Require Import ZArith Lia Ascii.
From S2P Require Import Prelude.
From S2P Require Import GraphqlTypes.
From S2P Require Import StoreValue.
From S2P Require Import EntityCache.
From S2P Require Import EthTypes.
From S2P Require Import StoreQuery.
From S2P Require Import StoreEvents.
From S2P Require Import Metadata.
From S2P Require Import GraphqlSchema.
From S2P Require Import QueryBuild.
From S2P Require Import Schema.
From S2P Require Import MetadataEntities.
From S2P Require Import Sql.
From S2P Require Import Layout.
From S2P Require Import RelationalQueries.
From S2P Require Import ColumnValues.
From S2P Require Import Versions.
From S2P Require Import VersionedTables.
From S2P Require Import Reverts.
From S2P Require Import EntityRows.
From S2P Require Import RelationalStore.
From S2P Require Import StoreViews.
From S2P Require Import PostgresStore.
From S2P Require Import StoreBlocks.

#[local] Open Scope string_scope.
#[local] Open Scope list_scope.

Section metadata.
Context {ST : ScalarText} {STL : ScalarTextLaws} {PT : PgText} {PTL : PgTextLaws}.
Context {PG : Postgres} {PGL : PostgresLaws} `{HashOrder}.
Context (normalize : BigDecimal -> BigDecimal).

Abbreviation MAX := BLOCK_NUMBER_MAX.

(** ** Deleting rows *)
(** Some entities are gone. *)
Definition sub_view (ev' ev : EntityView) : Prop := forall obj n d, ev' obj n d = None \/ ev' obj n d = ev obj n d.

#[local] Instance sub_view_preorder : PreOrder sub_view.
Proof.
  split; [by right|]. intros a b c H1 H2 obj n d. destruct (H1 obj n d) as [->|E]; [by left|].
  destruct (H2 obj n d) as [E2|E2]; [left|right]; congruence.
Qed.

Lemma kept_data ty (q : Row -> bool) rows n d x :
  rows_ok ty rows -> data_at (List.filter q rows) n d = Some x -> data_at rows n d = Some x.
Proof.
  intros Hok (r & [Hr _]%list_elem_of_In%List.filter_In & Hat & <-)%(data_at_iff ty); [|by apply kept_rows_ok].
  apply (data_at_iff ty); [done|]. exists r. by rewrite list_elem_of_In.
Qed.

Definition kept_view (obj : string) (rows : list Row) (ev : EntityView) : EntityView :=
  fun obj' n d => if String.eqb obj' obj && negb (bool_decide (is_Some (data_at rows n d))) then None else ev obj' n d.

Lemma stands_delete_rows ly db ev obj t ts q st out :
  layout_wf ly -> stands normalize ly MAX db ev -> ly_tables ly !! obj = Some t ->
  table_in (contents db) (id_type_of t) t ts ->
  meaning (contents db) st = Ok (with_rows (contents db) (tb_qualified_name t) ts (List.filter q (ts_rows ts)), out) ->
  exists db' o ev', run_sql db st = Ok (db', o) /\ same_outcome out o
    /\ stands normalize ly MAX db' ev' /\ sub_view ev' ev
    /\ (forall obj' n d, obj' <> obj -> ev' obj' n d = ev obj' n d)
    /\ frame (eq (tb_qualified_name t)) (contents db) (contents db').
Proof.
  intros Hw (v & Hst & Hh) Ht Hin Hm. pose proof Hin as [_ _ [_ Hok Hnn]].
  destruct (storage_table normalize ly MAX db v obj t Hst Ht) as (ts2 & Hin2 & Hset & Hv & Hfill).
  assert (ts2 = ts) as ->.
  { pose proof (ti_table _ _ _ _ Hin) as E1. rewrite (ti_table _ _ _ _ Hin2) in E1. by injection E1. }
  destruct (run_sql_ok db st _ out Hm) as (db' & o & Hrun & Hsd & Hso). set (rows := List.filter q (ts_rows ts)) in *.
  assert (forall r, r ∈ rows -> r ∈ ts_rows ts) as Hsub.
  { intros r [Hr _]%list_elem_of_In%List.filter_In. by apply list_elem_of_In. }
  set (v' := fun obj' n d => if String.eqb obj' obj then data_at rows n d else v obj' n d).
  destruct (store_step normalize ly MAX db db' v v' obj t ts rows) as [Hst' Hf]; try done.
  - by apply kept_rows_ok.
  - intros r Hr. by apply Hnn, Hsub.
  - intros r Hr. by apply Hset, Hsub.
  - intros n d. unfold v'. by rewrite String.eqb_refl.
  - intros obj' n d Hne. unfold v'. by destruct (String.eqb_spec obj' obj).
  - intros r Hr. by apply Hfill, Hsub.
  - exists db', o, (kept_view obj rows ev). split; [done|]. split; [done|]. split; [|split; [|split; [|done]]].
    + exists v'. split; [done|]. rewrite (fr_enums _ _ _ Hf). intros obj' t' n d Ht'. specialize (Hh obj' t' n d Ht').
      unfold v', kept_view. destruct (String.eqb_spec obj' obj) as [->|]; cbn [andb]; [|done].
      destruct (data_at rows n d) as [x|] eqn:E; [|by rewrite bool_decide_false by (by intros [])].
      rewrite bool_decide_true by eauto. cbn [negb]. apply (kept_data (id_type_of t)) in E; [|done].
      by rewrite Hv, E in Hh.
    + intros obj' n d. unfold kept_view. destruct (_ && _); [by left|by right].
    + intros obj' n d Hne. unfold kept_view. by destruct (String.eqb_spec obj' obj).
Qed.

(** ** The statements *)
Record metadata_wf (ly : Layout) : Prop := mk_metadata_wf {
  mw_meta : is_meta (ly_subgraph ly) = true;
  mw_ids obj t : ly_tables ly !! obj = Some t -> id_type_of t = IdString;
  mw_dds : exists t, ly_tables ly !! DDS = Some t /\ tb_qualified_name t = DDS_TABLE
             /\ exists c, c ∈ tb_columns t /\ col_name c = "deployment";
}.

(** The rows of dynamic data sources, with ids of the length [k]. *)
Definition dds_rows (ly : Layout) (db : Database) (k : nat) : Prop :=
  forall t r, ly_tables ly !! DDS = Some t -> r ∈ rows_of db t ->
    (exists s, column_of r "deployment" = DText s) /\ (exists s, row_id r = DText s /\ String.length s = k).

Definition made_from (b : Z) (subgraph : string) (r : Row) : bool :=
  starts_from b r && same_id (column_of r "deployment") (DText subgraph).

Lemma selects_dds enums r b subgraph :
  row_ok IdString r -> (exists s, column_of r "deployment" = DText s) ->
  selects_row enums
    (EAnd (ECmp CmpGe (ELower block_range) (int_literal b)) (ECmp CmpEq (EColumn "deployment") (EBind (DText subgraph)))) r
  = Ok (made_from b subgraph r).
Proof.
  intros Hr [s Hs]. unfold selects_row, made_from, starts_from. cbn [eval]. rewrite Hs.
  pose proof (eval_lower enums IdString r CmpGe b Hr) as El. cbn [eval] in El.
  unfold same_id. cbn [compare_data res_bind]. rewrite El. cbn [res_bind].
  destruct (range_lower (row_range r)) as [l|]; cbn; [destruct (b <=? l)%Z|]; by destruct (String.eqb s subgraph).
Qed.

Definition has_prefix (prefixes : list string) (k : Z) (r : Row) : bool :=
  existsb (fun p => match row_id r with DText s => String.eqb (text_left s k) p | _ => false end) prefixes.

Lemma selects_prefix enums r prefixes k :
  row_ok IdString r ->
  selects_row enums (EAny (ELeft (EColumn PRIMARY_KEY_COLUMN) (int_literal k)) (EBind (DArray (DText <$> prefixes)))) r
  = Ok (has_prefix prefixes k r).
Proof.
  intros [Hi _ _]. unfold selects_row, has_prefix. cbn [eval]. unfold int_literal, PRIMARY_KEY_COLUMN. cbn [eval].
  change (column_of r "id") with (row_id r). destruct (row_id r) as [| | | |s| | | | | | |]; try done. cbn [res_bind].
  assert (map_res (compare_data CmpEq (DText (text_left s k))) (DText <$> prefixes)
          = Ok ((fun p => DBool (String.eqb (text_left s k) p)) <$> prefixes) :> res SqlError _) as ->.
  { apply map_res_Forall2, Forall2_fmap, Forall_Forall2_diag, Forall_true. done. }
  cbn [res_map]. unfold any_data. induction prefixes as [|p l IH]; [done|]. rewrite !fmap_cons. cbn [existsb].
  destruct (String.eqb (text_left s k) p); cbn [orb is_null] in *; [done|]. exact IH.
Qed.

Lemma meaning_delete_dds ly db t ts b subgraph k :
  layout_wf ly -> metadata_wf ly -> ly_tables ly !! DDS = Some t -> table_in db (id_type_of t) t ts ->
  dds_rows ly db k ->
  exists c, meaning db (delete_dynamic_data_sources_query subgraph b)
  = Ok (with_rows db (tb_qualified_name t) ts (List.filter (fun r => negb (made_from b subgraph r)) (ts_rows ts)),
        mk_outcome ((fun r => [row_id r]) <$> List.filter (made_from b subgraph) (ts_rows ts)) c).
Proof.
  intros Hw Hmw Ht Hin Hd. destruct (mw_dds ly Hmw) as (t' & Ht' & Hn & c & Hc & Hcn).
  rewrite Ht in Ht'. injection Ht' as <-. pose proof (lw_table ly Hw DDS t Ht) as Htw.
  pose proof (mw_ids ly Hmw DDS t Ht) as Hty. pose proof Hin as [Htab Hdef [_ Hok Hnn]]. rewrite Hty in Hok.
  eexists. unfold delete_dynamic_data_sources_query. rewrite <- Hn. apply meaning_delete; [done| | |].
  - rewrite Hdef. apply known_columns. intros x Hx. cbn in Hx.
    rewrite !elem_of_cons in Hx. destruct Hx as [-> |[-> |[-> |[]%not_elem_of_nil]]].
    + rewrite (column_def_range (id_type_of t) t Htw). by eexists.
    + rewrite <- Hcn, (column_def_column (id_type_of t)) by done. by eexists.
    + destruct (def_ok_ddl _ t Htw) as [_ (d & Hd1 & _) _]. change PRIMARY_KEY_COLUMN with "id". rewrite Hd1. by eexists.
  - intros r Hr. apply selects_dds; [by apply Hok|]. apply (Hd t r Ht). by rewrite (table_in_rows _ _ _ _ Hin).
  - unfold returned. by apply map_res_all_ok.
Qed.

Lemma meaning_delete_prefix ly db obj t ts prefixes n :
  layout_wf ly -> metadata_wf ly -> ly_tables ly !! obj = Some t -> table_in db (id_type_of t) t ts ->
  exists c, meaning db (delete_by_prefix_query t prefixes n)
  = Ok (with_rows db (tb_qualified_name t) ts (List.filter (fun r => negb (has_prefix prefixes n r)) (ts_rows ts)),
        mk_outcome ((fun r => [DText (id_text (row_id r))]) <$> List.filter (has_prefix prefixes n) (ts_rows ts)) c).
Proof.
  intros Hw Hmw Ht Hin. pose proof (lw_table ly Hw obj t Ht) as Htw.
  pose proof (mw_ids ly Hmw obj t Ht) as Hty. pose proof Hin as [Htab Hdef [_ Hok Hnn]].
  eexists. apply meaning_delete; [done| | |].
  - rewrite Hdef. apply (checks_of_range (id_type_of t)); [done|]. cbn.
    repeat (apply Forall_cons_2; [by auto|]). by apply Forall_nil_2.
  - intros r Hr. apply selects_prefix. rewrite <- Hty. by apply Hok.
  - apply (returned_ids _ (id_type_of t)). intros r [Hr _]%list_elem_of_In%List.filter_In.
    apply Hok. by apply list_elem_of_In.
Qed.

(** ** The loop over the tables *)
Definition is_subgraph_type (obj : string) : bool := String.prefix "Subgraph" obj.

(** The tables from which rows may be removed. *)
Definition erased (ly : Layout) (name : string) : Prop :=
  exists obj t, ly_tables ly !! obj = Some t /\ tb_qualified_name t = name /\ is_subgraph_type obj = false.

Definition same_subgraph_types (ev' ev : EntityView) : Prop :=
  forall obj n d, is_subgraph_type obj = true -> ev' obj n d = ev obj n d.

Lemma stands_table ly b db ev obj t :
  stands normalize ly b db ev -> ly_tables ly !! obj = Some t ->
  exists ts, table_in (contents db) (id_type_of t) t ts.
Proof. intros (v & [[[Hok _] _] _] & _) Ht. by apply (Hok obj). Qed.

Lemma delete_by_prefix_ok ly db ev changes dds n obj t :
  layout_wf ly -> metadata_wf ly -> stands normalize ly MAX db ev -> ly_tables ly !! obj = Some t ->
  is_subgraph_type obj = false ->
  exists db' changes' ev', delete_by_prefix ly dds n (db, changes) t = Ok (db', changes')
    /\ stands normalize ly MAX db' ev' /\ sub_view ev' ev /\ same_subgraph_types ev' ev
    /\ frame (erased ly) (contents db) (contents db').
Proof.
  intros Hw Hmw Hs Ht Ho. destruct (stands_table _ _ _ _ _ _ Hs Ht) as [ts Hin].
  destruct (meaning_delete_prefix ly (contents db) obj t ts dds n Hw Hmw Ht Hin) as [c Hm].
  destruct (stands_delete_rows ly db ev obj t ts _ _ _ Hw Hs Ht Hin Hm)
    as (db' & o & ev' & Hrun & [Hrows _] & Hs' & Hsub & Hother & Hf).
  destruct (revert_ids_ok t (ts_rows ts) _ o (lw_table ly Hw obj t Ht) (rk_rows _ _ (tk_rows _ _ (ti_ok _ _ _ _ Hin))) Hrows)
    as (ids & Hids & _).
  unfold delete_by_prefix. rewrite Hrun. cbn [res_bind]. rewrite Hids. cbn [res_bind].
  exists db'. eexists. exists ev'. split; [done|]. split; [done|]. split; [done|]. split.
  - intros obj' k d Ho'. apply Hother. intros ->. congruence.
  - eapply frame_weaken; [|exact Hf]. intros name <-. by exists obj, t.
Qed.

Lemma delete_by_prefixes_ok ly dds n l db ev changes :
  layout_wf ly -> metadata_wf ly -> stands normalize ly MAX db ev ->
  (forall t, t ∈ l -> ly_tables ly !! tb_object t = Some t /\ is_subgraph_type (tb_object t) = false) ->
  exists db' changes' ev', fold_res (delete_by_prefix ly dds n) (db, changes) l = Ok (db', changes')
    /\ stands normalize ly MAX db' ev' /\ sub_view ev' ev /\ same_subgraph_types ev' ev
    /\ frame (erased ly) (contents db) (contents db').
Proof.
  intros Hw Hmw. revert db ev changes. induction l as [|t l IH]; intros db ev changes Hs Hl.
  { by exists db, changes, ev. }
  destruct (Hl t) as [Ht Ho]; [by left|].
  destruct (delete_by_prefix_ok ly db ev changes dds n _ t Hw Hmw Hs Ht Ho)
    as (db1 & changes1 & ev1 & Hrun1 & Hs1 & Hsub1 & Hsame1 & Hf1).
  destruct (IH db1 ev1 changes1 Hs1) as (db2 & changes2 & ev2 & Hrun2 & Hs2 & Hsub2 & Hsame2 & Hf2).
  { intros t' Ht'. apply Hl. by right. }
  exists db2, changes2, ev2. rewrite fold_res_cons, Hrun1. cbn [res_bind]. split; [done|]. split; [done|].
  split; [by etrans|]. split; [|by etrans]. intros obj k d Hp. by rewrite Hsame2, Hsame1.
Qed.

Lemma text_rows (l : list Row) (out : list (list Datum)) :
  (forall r, r ∈ l -> exists s, row_id r = DText s) -> (fun r => [row_id r]) <$> l ≡ₚ out ->
  exists ids, map_res text_row out = Ok ids /\ forall s, s ∈ ids -> exists r, r ∈ l /\ row_id r = DText s.
Proof.
  intros Hl Hp.
  assert (forall row, row ∈ out -> exists r s, r ∈ l /\ row_id r = DText s /\ row = [DText s]) as Hout.
  { intros row Hr. rewrite <- Hp in Hr. apply list_elem_of_fmap in Hr as (r & -> & Hr).
    destruct (Hl r Hr) as [s Hs]. exists r, s. by rewrite Hs. }
  clear Hp Hl. induction out as [|row out IH]; [exists []; by split; [|intros s ?%not_elem_of_nil]|].
  destruct IH as (ids & Hids & Hin); [intros row' Hr'; apply Hout; by right|].
  destruct (Hout row) as (r & s & Hr & Hs & ->); [by left|]. exists (s :: ids). rewrite map_res_cons. cbn [text_row res_bind].
  rewrite Hids. split; [done|]. intros s' [->|Hs']%elem_of_cons; [by exists r|by apply Hin].
Qed.

(** Reverting metadata succeeds if the ids of dynamic data sources have one
    length, and only removes. *)
Lemma revert_metadata_ok ly db ev subgraph b k :
  layout_wf ly -> metadata_wf ly -> stands normalize ly MAX db ev -> dds_rows ly (contents db) k ->
  exists db' changes ev', layout_revert_metadata ly db subgraph b = Ok (db', changes)
    /\ stands normalize ly MAX db' ev' /\ sub_view ev' ev /\ same_subgraph_types ev' ev
    /\ frame (erased ly) (contents db) (contents db').
Proof.
  intros Hw Hmw Hs Hd. destruct (mw_dds ly Hmw) as (t & Ht & Hn & _).
  destruct (stands_table _ _ _ _ _ _ Hs Ht) as [ts Hin].
  destruct (meaning_delete_dds ly (contents db) t ts b subgraph k Hw Hmw Ht Hin Hd) as [c Hm].
  destruct (stands_delete_rows ly db ev DDS t ts _ _ _ Hw Hs Ht Hin Hm)
    as (db1 & o & ev1 & Hrun & [Hrows _] & Hs1 & Hsub & Hother & Hf).
  assert (forall r, r ∈ List.filter (made_from b subgraph) (ts_rows ts) ->
            exists s, row_id r = DText s /\ String.length s = k) as Hids.
  { intros r [Hr%list_elem_of_In _]%list_elem_of_In%List.filter_In. apply (Hd t r Ht).
    by rewrite (table_in_rows _ _ _ _ Hin). }
  destruct (text_rows _ _ ltac:(intros r Hr; destruct (Hids r Hr) as (s & ? & _); eauto) Hrows) as (dds & Hdds & Hlen).
  assert (frame (erased ly) (contents db) (contents db1)) as Hf1.
  { eapply frame_weaken; [|exact Hf]. intros name <-. by exists DDS, t. }
  assert (same_subgraph_types ev1 ev) as Hsame1.
  { intros obj n d Hp. apply Hother. by intros ->. }
  unfold layout_revert_metadata. rewrite (mw_meta ly Hmw). cbn [negb]. rewrite Hrun. cbn [res_bind]. rewrite Hdds. cbn [res_bind].
  assert (existsb (fun id => negb (String.length id =? match dds with [] => 0 | id :: _ => String.length id end)%nat) dds = false)
    as ->.
  { apply existsb_false_iff. intros s Hsd. destruct dds as [|s0 dds]; [by apply not_elem_of_nil in Hsd|].
    apply negb_false_iff, Nat.eqb_eq.
    destruct (Hlen s Hsd) as (r & Hr & E), (Hlen s0 ltac:(by left)) as (r0 & Hr0 & E0).
    destruct (Hids r Hr) as (x & Ex & <-), (Hids r0 Hr0) as (y & Ey & Hy). congruence. }
  destruct dds as [|s0 dds]; [by exists db1; eexists; exists ev1|].
  destruct (delete_by_prefixes_ok ly (s0 :: dds) (Z.of_nat (String.length s0))
              (List.filter (fun table => negb (String.eqb (tb_object table) DDS)
                                         && negb (String.prefix "Subgraph" (tb_object table))) (hash_iter (ly_tables ly)).*2)
              db1 ev1 (list_to_set (change_in ly DDS ChangeRemoved <$> s0 :: dds)) Hw Hmw Hs1)
    as (db2 & changes & ev2 & Hrun2 & Hs2 & Hsub2 & Hsame2 & Hf2).
  { intros t' [Ht' Hp]%list_elem_of_In%List.filter_In. apply list_elem_of_In in Ht'.
    apply list_elem_of_fmap in Ht' as ([obj t2] & -> & Hi%hash_iter_elem). cbn [snd].
    rewrite (lw_object ly Hw obj t2 Hi). split; [done|]. apply andb_true_iff in Hp as [_ Hp%negb_true_iff]. cbn [snd] in Hp.
    by rewrite (lw_object ly Hw obj t2 Hi) in Hp. }
  exists db2, changes, ev2. split; [done|]. split; [done|]. split; [by etrans|]. split; [|by etrans].
  intros obj n d Hp. by rewrite Hsame2, Hsame1.
Qed.
End metadata.
