(* ===== verification/Transactions.v ===== *)
(** * Transactions of the store

    A subgraph is at a block when the database stands for its entities up to
    that block, and its deployment has the pointer to the block and the number
    of entities.  Transacting the next block and reverting the last one lead
    from one such state to another, in one transaction each. *)

From stdpp Require Import prelude list strings gmap.
From Stdlib Require Import ZArith Lia Ascii.
From S2P Require Import Prelude.
From S2P Require Import GraphqlTypes.
From S2P Require Import StoreValue.
From S2P Require Import EntityCache.
From S2P Require Import EthTypes.
From S2P Require Import StoreQuery.
From S2P Require Import StoreEvents.
From S2P Require Import Metadata.
From S2P Require Import GraphqlSchema.
From S2P Require Import QueryBuild.
From S2P Require Import Schema.
From S2P Require Import MetadataEntities.
From S2P Require Import Sql.
From S2P Require Import Layout.
From S2P Require Import RelationalQueries.
From S2P Require Import ColumnValues.
From S2P Require Import Versions.
From S2P Require Import VersionedTables.
From S2P Require Import Reverts.
From S2P Require Import EntityRows.
From S2P Require Import RelationalStore.
From S2P Require Import StoreViews.
From S2P Require Import PostgresStore.
From S2P Require Import StoreBlocks.
From S2P Require Import Deployments.
From S2P Require Import MetadataReverts.

#[local] Open Scope string_scope.
#[local] Open Scope list_scope.

Section transactions.
Context {ST : ScalarText} {STL : ScalarTextLaws} {PT : PgText} {PTL : PgTextLaws}.
Context {PG : Postgres} {PGL : PostgresLaws} {MT : MetadataText} {MTL : MetadataTextLaws MT} `{HashOrder}.
Context (normalize : BigDecimal -> BigDecimal) (store_error_text : StoreError -> string).
Context (subgraph_info : SubgraphDeploymentId -> sres SubgraphInfo).

Abbreviation MAX := BLOCK_NUMBER_MAX.
#[local] Existing Instance same_others_preorder.

(** ** A subgraph at a block *)
Definition last_block (ptr : option EthereumBlockPointer) : Z := from_option ptr_number BLOCK_UNVERSIONED ptr.

Record subgraph_at (conn : Connection) (db : Db) (ptr : option EthereumBlockPointer) (vs : Views) (dep : Entity)
  : Prop := mk_subgraph_at {
    sb_stand : stand normalize conn (last_block ptr) db vs;
    sb_deployed : deployed normalize (cn_metadata conn) db (ly_subgraph (cn_storage conn)) dep;
    sb_pointer : points_to ptr dep;
    sb_count : counts (entity_count (cn_storage conn) (contents db)) dep;
  }.

Lemma deployed_frame ly db db' id dep touched :
  ~ touched DEPLOYMENT_TABLE -> frame touched (contents db) (contents db') ->
  deployed normalize ly db id dep -> deployed normalize ly db' id dep.
Proof.
  intros Hn [Ee Hf] (t & r & Hdt & Hdr). exists t, r. split; [done|]. rewrite Ee.
  eapply deployment_row_permutation; [|exact Hdr]. specialize (Hf _ Hn). rewrite <- (dt_name ly t Hdt) in Hf.
  unfold rows_of. by destruct Hf as [a b [_ P]|].
Qed.

Lemma stand_frame conn b db db' vs touched :
  conn_wf conn -> (forall name, table_of (cn_storage conn) name \/ table_of (cn_metadata conn) name -> ~ touched name) ->
  frame touched (contents db) (contents db') -> stand normalize conn b db vs -> stand normalize conn b db' vs.
Proof.
  intros Hw Ht Hf [Hs Hm]. split; (eapply stands_frame; [apply Hw| |exact Hf|done]); intros name Hn; apply Ht; auto.
Qed.

Lemma stand_same conn b db db' vs :
  conn_wf conn -> same_database (contents db) (contents db') -> stand normalize conn b db vs ->
  stand normalize conn b db' vs.
Proof.
  intros Hw Hs. eapply (stand_frame _ _ _ _ _ (fun _ => False)); [done|by intros ? _ []|by apply same_database_frame].
Qed.

Lemma stand_later conn b b' db vs : (b <= b')%Z -> stand normalize conn b db vs -> stand normalize conn b' db vs.
Proof. intros Hb [Hs Hm]. split; [by eapply stands_later|done]. Qed.

(** The table of deployments is one of the metadata. *)
Lemma deployed_table ly db id dep : deployed normalize ly db id dep -> table_of ly DEPLOYMENT_TABLE.
Proof.
  intros (t & r & Hdt & _). exists Metadata.SubgraphDeploymentEntity, t. split; [apply Hdt|by apply (dt_name ly)].
Qed.

(** A statement on the deployment leaves the entities of the subgraph alone. *)
Lemma subgraph_storage_frame conn b db db' ev :
  conn_wf conn -> table_of (cn_metadata conn) DEPLOYMENT_TABLE ->
  frame (eq DEPLOYMENT_TABLE) (contents db) (contents db') ->
  stands normalize (cn_storage conn) b db ev -> stands normalize (cn_storage conn) b db' ev.
Proof.
  intros Hw Hd Hf. eapply stands_frame; [apply Hw| |exact Hf]. intros name Hn <-. by apply (cw_disjoint conn Hw _ Hn).
Qed.

(** ** Transacting a block *)
Lemma modifications_subgraph conn enums b vs mods :
  modifications_ok normalize subgraph_info conn enums b vs mods ->
  existsb (fun m => negb (String.eqb (subgraph_id (entity_key m)) (ly_subgraph (cn_storage conn)))
                    && negb (mod_is_meta m)) mods = false.
Proof.
  revert vs. induction mods as [|m mods IH]; intros vs; [done|]. intros [(t & d & Hm) Hms]. cbn [existsb].
  rewrite (IH _ Hms), orb_false_r. unfold mod_is_meta.
  destruct (mo_subgraph _ _ _ _ _ _ _ _ _ Hm) as [-> | ->]; [by rewrite andb_false_r|by rewrite String.eqb_refl].
Qed.

(** The conditions on a block and its modifications. *)
Record block_ok (conn : Connection) (db : Db) (ptr : option EthereumBlockPointer) (vs : Views)
    (block : EthereumBlockPointer) (mods : list EntityModification) : Prop := mk_block_ok {
  bo_later : (last_block ptr < ptr_number block < MAX)%Z;
  bo_number : (0 <= ptr_number block)%Z;
  bo_mods : modifications_ok normalize subgraph_info conn (db_enums (contents db)) (ptr_number block) vs mods;
  bo_tables : ly_tables (cn_storage conn) <> ∅;
  bo_count : (entity_count (cn_storage conn) (contents db) + Z.of_nat (length mods) < 2 ^ 64)%Z;
}.

Definition modified (conn : Connection) (b : Z) (vs : Views) (mods : list EntityModification) : Views :=
  foldl (modify conn b) vs mods.

Lemma entity_count_pos ly db : (0 <= entity_count ly db)%Z.
Proof.
  unfold entity_count, entities_at. induction (hash_iter (ly_tables ly)) as [|x l IH]; [done|].
  rewrite fmap_cons. unfold sum_Z in *. cbn [foldr]. lia.
Qed.

Lemma forwarded_points ptr dep : is_u64 (ptr_number ptr) -> points_to (Some ptr) (forwarded ptr dep).
Proof.
  intros Hu. unfold forwarded, with_block_ptr. split; [|split; [|done]]; cbn;
    repeat (rewrite lookup_insert_ne by done); by rewrite lookup_insert_eq.
Qed.

(** The deployment after a block. *)
Definition transacted (conn : Connection) (db : Db) (block : EthereumBlockPointer) (dep : Entity) : Entity :=
  forwarded block (<["entityCount" := VBigInt (entity_count (cn_storage conn) (contents db))]> dep).

Lemma transact_ok conn db ptr vs dep block mods :
  conn_wf conn -> subgraph_at conn db ptr vs dep -> block_ok conn db ptr vs block mods ->
  let id := ly_subgraph (cn_storage conn) in
  let vs1 := modified conn (ptr_number block) vs mods in
  exists db' em,
    transact_block_operations normalize store_error_text subgraph_info conn db id block mods
    = Ok (db', block_ptr_store_event id, list_to_set (change_of_modification <$> mods), false)
    /\ subgraph_at conn db' (Some block) (vs1.1, em) (transacted conn db' block dep) /\ same_others vs1.2 em.
Proof.
  intros Hw [Hst Hdep Hptr [Hcnt Hcr]] [Hb Hb0 Hmods Hne Hmax] id vs1.
  assert (is_u64 (ptr_number block)) as Hu by (unfold is_u64, BLOCK_NUMBER_MAX in *; lia).
  unfold transact_block_operations. unfold id at 1. rewrite (modifications_subgraph _ _ _ _ _ Hmods).
  destruct (block_ptr_ok normalize store_error_text conn MAX db vs.2 id dep ptr Hw (st_metadata _ _ _ _ _ Hst) Hdep Hptr)
    as (db1 & -> & Hsame). cbn [res_bind].
  assert (from_option (fun from => ptr_number block <=? ptr_number from)%Z false ptr = false) as ->.
  { destruct ptr; [|done]. cbn in *. apply Z.leb_gt. lia. }
  unfold apply_entity_modifications.
  assert (stand normalize conn (ptr_number block) db1 vs) as Hst1.
  { apply (stand_later _ (last_block ptr)); [lia|by eapply stand_same]. }
  assert (deployed normalize (cn_metadata conn) db1 id dep) as Hdep1.
  { eapply (deployed_frame _ _ _ _ _ (fun _ => False)); [by intros []|by apply same_database_frame|done]. }
  assert (entity_count (cn_storage conn) (contents db1) = entity_count (cn_storage conn) (contents db)) as Ec.
  { eapply entity_count_same; [apply Hst|apply Hst1]. }
  destruct (apply_modifications_ok normalize store_error_text subgraph_info conn (ptr_number block)
              (create_history_event conn block) mods db1 vs 0 Hw (deployed_table _ _ _ _ Hdep1) Hst1)
    as (db2 & Hrun & Hst2 & Hf2 & Hle); [lia|done|by rewrite <- (proj1 Hsame)|].
  rewrite Hrun. cbn [res_bind]. rewrite Ec in *. rewrite Z.add_0_l.
  assert (deployed normalize (cn_metadata conn) db2 id dep) as Hdep2.
  { eapply deployed_frame; [|exact Hf2|done]. by intros []. }
  pose proof (entity_count_pos (cn_storage conn) (contents db2)) as Hpos.
  destruct (st_storage _ _ _ _ _ Hst2) as (v2 & [[[Hok2 _] _] _] & _).
  destruct (update_entity_count_ok normalize conn MAX db2 _ dep _
              (entity_count (cn_storage conn) (contents db2) - entity_count (cn_storage conn) (contents db))
              Hw (st_metadata _ _ _ _ _ Hst2) Hdep2 Hok2 Hne (conj Hcnt Hcr)) as (db3 & em3 & -> & Hm3 & Ho3 & Hdep3 & Hf3);
    [lia|]. cbn [res_bind].
  destruct (run_deployment normalize (cn_metadata conn) MAX db3 em3 id _ _ _ (cw_metadata conn Hw) Hm3 Hdep3
              (sets_forward normalize _ db3 id _ block Hu))
    as (db4 & o & em4 & Hrun4 & Hm4 & Ho4 & Hdep4 & Hf4).
  unfold forward_block_ptr. rewrite Hrun4. cbn [res_bind]. exists db4, em4. split; [done|].
  split; [|by etrans].
  assert (stands normalize (cn_storage conn) (ptr_number block) db4 vs1.1) as Hs4.
  { eapply (subgraph_storage_frame conn _ db2); [done|by eapply deployed_table| |apply Hst2]. by etrans. }
  assert (entity_count (cn_storage conn) (contents db4) = entity_count (cn_storage conn) (contents db2)) as Ec4.
  { eapply entity_count_same; [apply Hst2|exact Hs4]. }
  unfold transacted. rewrite Ec4.
  assert (entity_count (cn_storage conn) (contents db)
          + (entity_count (cn_storage conn) (contents db2) - entity_count (cn_storage conn) (contents db))
          = entity_count (cn_storage conn) (contents db2))%Z as En by lia.
  rewrite En in Hdep4. split; [by split|done|by apply forwarded_points|].
  rewrite Ec4. split; [|lia]. unfold forwarded, with_block_ptr. repeat (rewrite lookup_insert_ne by done).
  by rewrite lookup_insert_eq.
Qed.

(** A block that is not after the current one is refused. *)
Lemma transact_duplicate conn db from vs dep block mods :
  conn_wf conn -> subgraph_at conn db (Some from) vs dep -> (ptr_number block <= ptr_number from)%Z ->
  (forall m, m ∈ mods -> mod_is_meta m = true \/ subgraph_id (entity_key m) = ly_subgraph (cn_storage conn)) ->
  let id := ly_subgraph (cn_storage conn) in
  transact_block_operations normalize store_error_text subgraph_info conn db id block mods
  = Err (SEDuplicateBlockProcessing id (ptr_number block)).
Proof.
  intros Hw [Hst Hdep Hptr _] Hb Hmods id. unfold transact_block_operations.
  assert (existsb (fun m => negb (String.eqb (subgraph_id (entity_key m)) id) && negb (mod_is_meta m)) mods = false) as ->.
  { apply existsb_false_iff. intros m Hm. destruct (Hmods m Hm) as [-> | ->]; [by rewrite andb_false_r|].
    by rewrite String.eqb_refl. }
  destruct (block_ptr_ok normalize store_error_text conn MAX db vs.2 id dep (Some from) Hw (st_metadata _ _ _ _ _ Hst) Hdep Hptr)
    as (db1 & -> & _). cbn. by rewrite (proj2 (Z.leb_le _ _) Hb).
Qed.

(** ** Reverting a block *)
Record revert_ok_at (conn : Connection) (db : Db) (from to : EthereumBlockPointer) (dep : Entity) : Prop :=
  mk_revert_ok_at {
    ra_next : ptr_number from = (ptr_number to + 1)%Z;
    ra_bounds : (0 <= ptr_number to)%Z /\ (ptr_number from < MAX)%Z;
    ra_graft : exists info, subgraph_info (ly_subgraph (cn_storage conn)) = Ok info
                 /\ grafted_after (si_graft_block info) (ptr_number to) = false;
    ra_reorgs : exists count depth max, reorg_attributes count depth max dep
                  /\ is_i32 (count + 1) /\ is_i32 (depth + 1);
    ra_dds : exists k, dds_rows (cn_metadata conn) (contents db) k;
    ra_tables : ly_tables (cn_storage conn) <> ∅;
    ra_count : (entities_at (cn_storage conn) (contents db) (ptr_number to) < 2 ^ 64)%Z;
  }.

Lemma rewound_points ptr count depth max dep :
  is_u64 (ptr_number ptr) -> points_to (Some ptr) (rewound ptr count depth max dep).
Proof.
  intros Hu. unfold rewound, with_block_ptr. split; [|split; [|done]]; cbn;
    repeat (rewrite lookup_insert_ne by done); by rewrite lookup_insert_eq.
Qed.

Lemma stands_same_count ly b b' db db' ev :
  stands normalize ly b db ev -> stands normalize ly b' db' ev ->
  forall n, entities_at ly (contents db') n = entities_at ly (contents db) n.
Proof. intros Hs Hs' n. by eapply entities_same. Qed.

(** Reverting the storage. *)
Lemma stands_revert ly db ev b :
  layout_wf ly -> stands normalize ly b db ev -> (b <= MAX)%Z ->
  exists db' changes, layout_revert_block ly db b
      = Ok (db', changes, (entity_count ly (contents db') - entity_count ly (contents db))%Z)
    /\ stands normalize ly (b - 1) db' (entity_revert b ev)
    /\ frame (table_of ly) (contents db) (contents db')
    /\ entity_count ly (contents db') = entities_at ly (contents db) (b - 1).
Proof.
  intros Hw (v & Hv & Hh) Hb.
  destruct (revert_block_ok ly db v b Hw (sa_represents _ _ _ _ (sg_store _ _ _ _ _ Hv)) Hb)
    as (db' & changes & count & Hrun & Hst & Hdata & Hf & _ & Hc & He).
  exists db', changes. rewrite <- (Hc (sg_store _ _ _ _ _ Hv)). split; [done|]. split; [|done]. exists (view_revert b v).
  split.
  { split; [done|]. intros obj t r Ht Hr. destruct (Hdata obj t r Ht Hr) as (r0 & Hr0 & ->).
    rewrite (fr_enums _ _ _ Hf). by apply (sg_filled _ _ _ _ _ Hv obj t). }
  rewrite (fr_enums _ _ _ Hf). intros obj t n d Ht. by apply Hh.
Qed.

Lemma dds_rows_frame ly db db' k touched :
  metadata_wf ly -> ~ touched DDS_TABLE -> frame touched db db' -> dds_rows ly db k -> dds_rows ly db' k.
Proof.
  intros Hmw Hn [_ Hf] Hd t r Ht Hr. destruct (mw_dds ly Hmw) as (t' & Ht' & Hname & _).
  rewrite Ht in Ht'. injection Ht' as <-. apply (Hd t r Ht). specialize (Hf _ Hn). rewrite <- Hname in Hf.
  unfold rows_of in *. destruct Hf as [a b [_ P]|]; [by rewrite P|done].
Qed.

Lemma erased_deployment ly db id dep :
  layout_wf ly -> deployed normalize ly db id dep -> ~ erased ly DEPLOYMENT_TABLE.
Proof.
  intros Hw (t & r & Hdt & _) (obj & t' & Ht' & Hn & Ho).
  rewrite <- (dt_name ly t Hdt) in Hn.
  by rewrite (lw_names ly Hw obj _ t' t Ht' (dt_table ly t Hdt) Hn) in Ho.
Qed.

Lemma erased_table ly name : erased ly name -> table_of ly name.
Proof. intros (obj & t & ? & ? & _). by exists obj, t. Qed.

(** The middle of a revert: the storage, and the metadata of data sources. *)
Lemma conn_revert_ok conn db vs b k id dep ptr :
  conn_wf conn -> metadata_wf (cn_metadata conn) -> stand normalize conn b db vs ->
  deployed normalize (cn_metadata conn) db id dep -> dds_rows (cn_metadata conn) (contents db) k ->
  ptr_number ptr = b -> (0 <= b < MAX)%Z ->
  exists db' changes em, conn_revert_block conn db ptr
      = Ok (db', changes,
            (entity_count (cn_storage conn) (contents db') - entity_count (cn_storage conn) (contents db))%Z)
    /\ stand normalize conn (b - 1) db' (entity_revert b vs.1, em)
    /\ deployed normalize (cn_metadata conn) db' id dep
    /\ sub_view em vs.2 /\ same_subgraph_types em vs.2
    /\ entity_count (cn_storage conn) (contents db') = entities_at (cn_storage conn) (contents db) (b - 1).
Proof.
  intros Hw Hmw [Hs Hm] Hdep Hdds Hptr Hb. unfold conn_revert_block. rewrite Hptr.
  rewrite bool_decide_true by (unfold is_i32, BLOCK_NUMBER_MAX in *; lia).
  assert (forall name, table_of (cn_storage conn) name -> ~ table_of (cn_metadata conn) name) as Hdis by apply Hw.
  destruct (stands_revert _ db vs.1 b (cw_storage conn Hw) Hs) as (db1 & changes & Hrun & Hs1 & Hf1 & Hc1); [lia|].
  rewrite Hrun. cbn [res_bind].
  assert (stands normalize (cn_metadata conn) MAX db1 vs.2) as Hm1.
  { eapply stands_frame; [apply Hw| |exact Hf1|done]. intros name Hn Hn'. by apply (Hdis name). }
  assert (deployed normalize (cn_metadata conn) db1 id dep) as Hdep1.
  { eapply deployed_frame; [|exact Hf1|done]. intros Hn. by eapply Hdis, deployed_table. }
  assert (dds_rows (cn_metadata conn) (contents db1) k) as Hdds1.
  { eapply dds_rows_frame; [done| |exact Hf1|done]. intros Hn. eapply (Hdis DDS_TABLE); [done|].
    destruct (mw_dds _ Hmw) as (t & Ht & Hname & _). by exists DDS, t. }
  destruct (revert_metadata_ok normalize _ db1 vs.2 (ly_subgraph (cn_storage conn)) b k (cw_metadata conn Hw) Hmw Hm1 Hdds1)
    as (db2 & changes2 & em & -> & Hm2 & Hsub & Hsame & Hf2).
  assert (stands normalize (cn_storage conn) (b - 1) db2 (entity_revert b vs.1)) as Hs2.
  { eapply stands_frame; [apply Hw| |exact Hf2|done]. intros name Hn Hn'%erased_table. by apply (Hdis name). }
  cbn [res_bind]. exists db2. eexists. exists em.
  pose proof (stands_same_count _ _ _ _ _ _ Hs1 Hs2 MAX) as Ec. fold (entity_count (cn_storage conn) (contents db2)) in Ec.
  fold (entity_count (cn_storage conn) (contents db1)) in Ec.
  rewrite Ec. split; [done|]. split; [done|]. split; [|done].
  eapply deployed_frame; [|exact Hf2|done]. by eapply erased_deployment; [apply Hw|].
Qed.

Lemma revert_ok conn db from to vs dep :
  conn_wf conn -> metadata_wf (cn_metadata conn) -> subgraph_at conn db (Some from) vs dep ->
  revert_ok_at conn db from to dep ->
  let id := ly_subgraph (cn_storage conn) in
  exists db' event em dep',
    revert_block_operations normalize store_error_text subgraph_info conn db id from to
    = Ok (db', block_ptr_store_event id, event)
    /\ subgraph_at conn db' (Some to) (entity_revert (ptr_number from) vs.1, em) dep'
    /\ forall obj n d, obj <> Metadata.SubgraphDeploymentEntity -> em obj n d = None \/ em obj n d = vs.2 obj n d.
Proof.
  intros Hw Hmw [Hst Hdep Hptr [Hcnt Hcr]] [Hnext Hb (info & Hinfo & Hg) (count & depth & max & Hre & Hi & Hj) (k & Hdds) Hne Hmax] id.
  unfold revert_block_operations. rewrite (proj2 (Z.eqb_eq _ _) Hnext). cbn [negb]. unfold id at 1. rewrite Hinfo. cbn [res_bind].
  rewrite Hg.
  assert (is_u64 (ptr_number to)) as Hu by (unfold is_u64, BLOCK_NUMBER_MAX in *; lia).
  destruct (block_ptr_ok normalize store_error_text conn MAX db vs.2 id dep (Some from) Hw (st_metadata _ _ _ _ _ Hst) Hdep Hptr)
    as (db1 & -> & Hsame). cbn [res_bind]. rewrite bool_decide_true by done. cbn [negb].
  assert (stand normalize conn (ptr_number from) db1 vs) as [Hs1 Hm1] by (by eapply stand_same).
  assert (deployed normalize (cn_metadata conn) db1 id dep) as Hdep1.
  { eapply (deployed_frame _ _ _ _ _ (fun _ => False)); [by intros []|by apply same_database_frame|done]. }
  destruct (run_deployment normalize (cn_metadata conn) MAX db1 vs.2 id _ _ _ (cw_metadata conn Hw) Hm1 Hdep1
              (sets_revert normalize _ db1 id _ to count depth max Hu Hre Hi Hj))
    as (db2 & o & em2 & Hrun2 & Hm2 & Ho2 & Hdep2 & Hf2).
  unfold revert_block_ptr. rewrite Hrun2. cbn [res_bind].
  assert (stands normalize (cn_storage conn) (ptr_number from) db2 vs.1) as Hs2.
  { eapply subgraph_storage_frame; [done|by eapply deployed_table|exact Hf2|done]. }
  assert (dds_rows (cn_metadata conn) (contents db2) k) as Hdds2.
  { eapply (dds_rows_frame _ (contents db1)); [done| |exact Hf2|]; [done|].
    eapply (dds_rows_frame _ (contents db) _ _ (fun _ => False)); [done|by intros []|by apply same_database_frame|done]. }
  assert (stand normalize conn (ptr_number from) db2 (vs.1, em2)) as Hst2 by (by split).
  destruct (conn_revert_ok conn db2 (vs.1, em2) (ptr_number from) k id _ from Hw Hmw Hst2 Hdep2 Hdds2)
    as (db3 & changes & em3 & -> & [Hs3 Hm3] & Hdep3 & Hsub & _ & Hc3); [done|lia|]. cbn [res_bind].
  pose proof (stands_same_count _ _ _ _ _ _ (st_storage _ _ _ _ _ Hst) Hs2) as Hsc.
  assert (counts (entity_count (cn_storage conn) (contents db2)) (rewound to count depth max dep)) as Hcnt2.
  { unfold entity_count. rewrite Hsc. split; [|done].
    unfold rewound, with_block_ptr. by repeat (rewrite lookup_insert_ne by done). }
  rewrite Hsc in Hc3. assert (ptr_number from - 1 = ptr_number to)%Z as Eto by lia. rewrite Eto in *.
  pose proof (entity_count_pos (cn_storage conn) (contents db3)) as Hpos.
  pose proof Hs3 as (v3 & [[[Hok3 _] _] _] & _).
  destruct (update_entity_count_ok normalize conn MAX db3 em3 _ _
              (entity_count (cn_storage conn) (contents db3) - entity_count (cn_storage conn) (contents db2))
              Hw Hm3 Hdep3 Hok3 Hne Hcnt2) as (db4 & em4 & -> & Hm4 & Ho4 & Hdep4 & Hf4); [lia|]. cbn [res_bind].
  assert (stands normalize (cn_storage conn) (ptr_number to) db4 (entity_revert (ptr_number from) vs.1)) as Hs4.
  { eapply subgraph_storage_frame; [done|by eapply deployed_table|exact Hf4|done]. }
  exists db4. eexists. exists em4. eexists. split; [done|]. split.
  - split; [by split|done| |].
    + destruct (rewound_points to count depth max dep Hu) as (? & ? & ?).
      split; [|split; [|done]]; by rewrite lookup_insert_ne.
    + pose proof (stands_same_count _ _ _ _ _ _ Hs3 Hs4 MAX) as Ec. unfold counts, entity_count in *. rewrite Ec.
      split; [|lia]. rewrite lookup_insert_eq. do 2 f_equal. lia.
  - intros obj n d Hobj. rewrite (Ho4 obj n d Hobj). rewrite <- (Ho2 obj n d Hobj). apply Hsub.
Qed.

(** *** Reverting what was transacted *)
Lemma modified_before conn b mods vs obj n d :
  (n < b)%Z -> (modified conn b vs mods).1 obj n d = vs.1 obj n d.
Proof.
  intros Hn. unfold modified. revert vs. induction mods as [|m mods IH]; intros vs; [done|]. cbn [foldl]. rewrite IH.
  unfold modify, on_view. destruct (is_meta _); [done|]. cbn [fst].
  assert (forall obj' d', at_entity obj' d' b obj n d = false) as Ha.
  { intros obj' d'. unfold at_entity. rewrite (proj2 (Z.leb_gt _ _) Hn). by rewrite andb_false_r. }
  destruct m; unfold entity_put, entity_remove; by rewrite Ha.
Qed.

Lemma reverted_view conn b mods vs n :
  (b = n + 1)%Z ->
  forall obj m d, entity_revert b (modified conn b vs mods).1 obj m d = vs.1 obj (Z.min m n) d.
Proof.
  intros -> obj m d. unfold entity_revert. rewrite Z.add_simpl_r. apply modified_before. lia.
Qed.

Lemma stands_view_ext ly b db ev ev' :
  (forall obj n d, ev obj n d = ev' obj n d) -> stands normalize ly b db ev -> stands normalize ly b db ev'.
Proof. intros E (v & Hv & Hh). exists v. split; [done|]. intros. rewrite <- E. by apply Hh. Qed.

(** The entities up to a block, and that block's for later ones. *)
Definition until (n : Z) (ev : EntityView) : EntityView := fun obj m d => ev obj (Z.min m n) d.

Lemma transact_revert_ok conn db to vs dep block mods count depth max info :
  conn_wf conn -> metadata_wf (cn_metadata conn) -> subgraph_at conn db (Some to) vs dep ->
  block_ok conn db (Some to) vs block mods -> ptr_number block = (ptr_number to + 1)%Z ->
  subgraph_info (ly_subgraph (cn_storage conn)) = Ok info -> grafted_after (si_graft_block info) (ptr_number to) = false ->
  reorg_attributes count depth max dep -> is_i32 (count + 1) ->
  let id := ly_subgraph (cn_storage conn) in
  exists db1 e1 e2,
    transact_block_operations normalize store_error_text subgraph_info conn db id block mods = Ok (db1, e1, e2, false)
    /\ ((exists k, dds_rows (cn_metadata conn) (contents db1) k) ->
        exists db2 e3 em dep2,
          revert_block_operations normalize store_error_text subgraph_info conn db1 id block to
          = Ok (db2, block_ptr_store_event id, e3)
          /\ subgraph_at conn db2 (Some to) (until (ptr_number to) vs.1, em) dep2).
Proof.
  intros Hw Hmw Hsub Hb Hnext Hinfo Hg Hre Hi id.
  destruct (transact_ok conn db (Some to) vs dep block mods Hw Hsub Hb) as (db1 & em1 & Hrun & Hsub1 & _).
  exists db1. eexists _, _. split; [exact Hrun|]. intros Hdds. destruct Hb as [Hlt H0 Hmods Hne Hmax].
  destruct Hsub as [[Hs _] _ (_ & _ & Hu) [_ Hcr]]. pose proof Hsub1 as [[Hs1 _] _ _ _].
  assert (0 <= ptr_number to)%Z as Hto by (unfold is_u64 in Hu; lia).
  destruct (revert_ok conn db1 block to _ _ Hw Hmw Hsub1) as (db2 & e3 & em & dep2 & Hrun2 & Hsub2 & _).
  - split; try done; [lia|by exists info| |].
    + exists count, 0%Z, max. destruct Hre as (R1 & R2 & R3). split; [|split; [done|unfold is_i32; lia]].
      unfold transacted, forwarded, with_block_ptr, reorg_attributes.
      split_and!; repeat (rewrite lookup_insert_ne by done); [done|by rewrite lookup_insert_eq|done].
    + rewrite (entities_same normalize (cn_storage conn) _ _ db db1 vs.1 _ MAX (ptr_number to) Hs Hs1); [apply Hcr|].
      intros obj t d Ht Hd. cbn [fst]. rewrite modified_before by lia.
      destruct Hs as (v & Hv & Hh). rewrite <- !(stands_present normalize _ _ _ obj t _ d v Hh Ht).
      rewrite (store_later (cn_storage conn) (ptr_number to) db v obj t); [done|apply Hv|done..|lia|]. cbn in Hlt. lia.
  - exists db2, e3, em, dep2. split; [exact Hrun2|]. destruct Hsub2 as [[Hs2 Hm2] ? ? ?]. split; try done. split; [|done].
    eapply stands_view_ext; [|exact Hs2]. intros obj n d. by apply reverted_view.
Qed.

(** ** Reading *)
Lemma conn_find_ok conn db b vs obj t id d n :
  conn_wf conn -> stand normalize conn b db vs -> ly_tables (cn_storage conn) !! obj = Some t ->
  id_value (id_type_of t) id = Ok d ->
  exists db', same_database (contents db) (contents db')
    /\ match vs.1 obj n d with
       | None => conn_find normalize conn db obj id n = Ok (db', None)
       | Some entity => exists e, conn_find normalize conn db obj id n = Ok (db', Some e) /\ e ≡ stored_entity t entity
       end.
Proof.
  intros Hw [(v & [[Hrep _] _] & Hh) _] Ht Hd.
  destruct (layout_find_ok normalize _ db v obj t id d n (cw_storage conn Hw) Hrep Ht Hd) as (db' & Hsame & Hf).
  exists db'. split; [done|]. specialize (Hh obj t n d Ht). unfold holds_at in Hh. unfold conn_find.
  destruct (v obj n d) as [x|], (vs.1 obj n d) as [e|]; try done. by apply (Hf (db_enums (contents db))).
Qed.

(** The entity a modification is of. *)
Definition modifies (conn : Connection) (obj : string) (d : Datum) (m : EntityModification) : bool :=
  negb (mod_is_meta m) && String.eqb obj (entity_type (entity_key m))
  && same_id d (key_datum (cn_storage conn) (entity_key m)).

(** What the modifications of a block leave of an entity. *)
Definition written (conn : Connection) (obj : string) (d : Datum) (mods : list EntityModification)
    (old : option Entity) : option Entity :=
  foldl (fun old m => if modifies conn obj d m
                      then match m with Insert _ e | Overwrite _ e => Some e | Remove _ => None end
                      else old) old mods.

Lemma modified_written conn b vs mods obj n d :
  (modified conn b vs mods).1 obj n d = if (b <=? n)%Z then written conn obj d mods (vs.1 obj n d) else vs.1 obj n d.
Proof.
  unfold modified. revert vs. induction mods as [|m mods IH]; intros vs; [by destruct (b <=? n)%Z|].
  cbn [foldl]. rewrite IH. unfold written. cbn [foldl]. destruct (b <=? n)%Z eqn:Eb.
  - f_equal. unfold modify, on_view, modifies, mod_is_meta, layout_of.
    destruct (is_meta (subgraph_id (entity_key m))); [done|]. cbn [fst negb andb].
    destruct m; unfold entity_put, entity_remove, at_entity; by rewrite Eb, andb_true_r.
  - unfold modify, on_view. destruct (is_meta _); [done|]. cbn [fst].
    destruct m; unfold entity_put, entity_remove, at_entity; by rewrite Eb, andb_false_r.
Qed.

(** What is read of the entity [e] of a table. *)
Definition reads (t : Table) (e : option Entity) (found : option Entity) : Prop :=
  match e, found with
  | Some e, Some e' => e' ≡ stored_entity t e
  | None, None => True
  | _, _ => False
  end.

Lemma find_reads conn db b vs obj t id d n :
  conn_wf conn -> stand normalize conn b db vs -> ly_tables (cn_storage conn) !! obj = Some t ->
  id_value (id_type_of t) id = Ok d ->
  exists db' found, conn_find normalize conn db obj id n = Ok (db', found)
    /\ reads t (vs.1 obj n d) found /\ same_database (contents db) (contents db').
Proof.
  intros Hw Hst Ht Hd. destruct (conn_find_ok conn db b vs obj t id d n Hw Hst Ht Hd) as (db' & Hsame & Hf).
  exists db'. destruct (vs.1 obj n d) as [e|]; [destruct Hf as (e' & Hf & He); by exists (Some e')|by exists None].
Qed.
End transactions.
