(* ===== verification/StoreProperties.v ===== *)
(** * What the store promises

    The theorems about the Postgres store: transacting and reverting blocks
    does to the entities of a subgraph, block by block, what the modifications
    say; what is read, by id or by a query, is what was written; a revert reports what it changes;
    and the past can not be written. *)

From stdpp Require Import prelude list strings gmap sorting.
From Stdlib Require Import ZArith Lia Ascii.
From S2P Require Import Prelude.
From S2P Require Import GraphqlTypes.
From S2P Require Import StoreValue.
From S2P Require Import EntityCache.
From S2P Require Import EthTypes.
From S2P Require Import StoreQuery.
From S2P Require Import StoreEvents.
From S2P Require Import Metadata.
From S2P Require Import GraphqlSchema.
From S2P Require Import QueryBuild.
From S2P Require Import Schema.
From S2P Require Import MetadataEntities.
From S2P Require Import MetadataLoad.
From S2P Require Import Sql.
From S2P Require Import Layout.
From S2P Require Import RelationalQueries.
From S2P Require Import Selects.
From S2P Require Import FilterQueries.
From S2P Require Import ColumnValues.
From S2P Require Import Collation.
From S2P Require Import FilterMeaning.
From S2P Require Import QueryMeaning.
From S2P Require Import Versions.
From S2P Require Import VersionedTables.
From S2P Require Import Reverts.
From S2P Require Import EntityRows.
From S2P Require Import RelationalStore.
From S2P Require Import StoreViews.
From S2P Require Import PostgresStore.
From S2P Require Import StoreBlocks.
From S2P Require Import Deployments.
From S2P Require Import MetadataReverts.
From S2P Require Import Transactions.

#[local] Open Scope string_scope.
#[local] Open Scope list_scope.

Section properties.
Context {ST : ScalarText} {STL : ScalarTextLaws} {PT : PgText} {PTL : PgTextLaws}.
Context {PG : Postgres} {PGL : PostgresLaws} {MT : MetadataText} {MTL : MetadataTextLaws MT} `{HashOrder}.
Context (normalize : BigDecimal -> BigDecimal) (store_error_text : StoreError -> string).
Context (subgraph_info : SubgraphDeploymentId -> sres SubgraphInfo).

Abbreviation MAX := BLOCK_NUMBER_MAX.

(** C3: Transacting the block after the current one succeeds, in any order of
    rows and tables.  The entities of the subgraph change from that block on as
    the modifications say and stay as they were before it, the metadata gains
    what is inserted, and the deployment has the new pointer and the number of
    entities that there are now; the events name what was modified. *)
Theorem transact_block_operations_correct conn db ptr vs dep block mods :
  conn_wf conn -> subgraph_at normalize conn db ptr vs dep ->
  block_ok normalize subgraph_info conn db ptr vs block mods ->
  let id := ly_subgraph (cn_storage conn) in
  let vs' := modified conn (ptr_number block) vs mods in
  exists db' metadata,
    transact_block_operations normalize store_error_text subgraph_info conn db id block mods
    = Ok (db', block_ptr_store_event id, list_to_set (change_of_modification <$> mods), false)
    /\ subgraph_at normalize conn db' (Some block) (vs'.1, metadata) (transacted conn db' block dep)
    /\ same_others vs'.2 metadata.
Proof. apply transact_ok. Qed.

(** C12: After a block was transacted, what is found of an entity at a block
    before it is what was there, and from that block on what the last of its
    modifications left. *)
Theorem transacted_entities_found conn db ptr vs dep block mods :
  conn_wf conn -> subgraph_at normalize conn db ptr vs dep ->
  block_ok normalize subgraph_info conn db ptr vs block mods ->
  let id := ly_subgraph (cn_storage conn) in
  exists db' e1 e2,
    transact_block_operations normalize store_error_text subgraph_info conn db id block mods = Ok (db', e1, e2, false)
    /\ forall obj t entity_id d n, ly_tables (cn_storage conn) !! obj = Some t ->
         id_value (id_type_of t) entity_id = Ok d ->
         exists db'' found, conn_find normalize conn db' obj entity_id n = Ok (db'', found)
           /\ reads t (if (ptr_number block <=? n)%Z then written conn obj d mods (vs.1 obj n d) else vs.1 obj n d) found.
Proof.
  intros Hw Hs Hb id.
  destruct (transact_ok normalize store_error_text subgraph_info conn db ptr vs dep block mods Hw Hs Hb)
    as (db' & em & Hrun & [Hst _ _ _] & _).
  exists db'. eexists _, _. split; [exact Hrun|]. intros obj t eid d n Ht Hd. rewrite <- modified_written.
  destruct (find_reads normalize conn db' _ _ obj t eid d n Hw Hst Ht Hd) as (db'' & found & ? & ? & _). eauto.
Qed.

(** C4: Reverting the current block succeeds if it was not grafted there.  The
    entities at later blocks become those of the block before, earlier blocks
    stay, the deployment has the pointer to the block before and the number of
    entities there was then; metadata is only removed. *)
Theorem revert_block_operations_correct conn db from to vs dep :
  conn_wf conn -> metadata_wf (cn_metadata conn) -> subgraph_at normalize conn db (Some from) vs dep ->
  revert_ok_at subgraph_info conn db from to dep ->
  let id := ly_subgraph (cn_storage conn) in
  exists db' event metadata dep',
    revert_block_operations normalize store_error_text subgraph_info conn db id from to
    = Ok (db', block_ptr_store_event id, event)
    /\ subgraph_at normalize conn db' (Some to) (entity_revert (ptr_number from) vs.1, metadata) dep'
    /\ forall obj n d, obj <> Metadata.SubgraphDeploymentEntity ->
         metadata obj n d = None \/ metadata obj n d = vs.2 obj n d.
Proof. apply revert_ok. Qed.

(** C11: Reverting a block that was transacted takes the subgraph back to where
    it was: to the same pointer, and to the same entities at every block up to
    it. *)
Theorem revert_undoes_transact conn db to vs dep block mods count depth max info :
  conn_wf conn -> metadata_wf (cn_metadata conn) -> subgraph_at normalize conn db (Some to) vs dep ->
  block_ok normalize subgraph_info conn db (Some to) vs block mods -> ptr_number block = (ptr_number to + 1)%Z ->
  subgraph_info (ly_subgraph (cn_storage conn)) = Ok info ->
  grafted_after (si_graft_block info) (ptr_number to) = false ->
  reorg_attributes count depth max dep -> is_i32 (count + 1) ->
  let id := ly_subgraph (cn_storage conn) in
  exists db1 e1 e2,
    transact_block_operations normalize store_error_text subgraph_info conn db id block mods = Ok (db1, e1, e2, false)
    /\ ((exists k, dds_rows (cn_metadata conn) (contents db1) k) ->
        exists db2 event metadata dep2,
          revert_block_operations normalize store_error_text subgraph_info conn db1 id block to
          = Ok (db2, block_ptr_store_event id, event)
          /\ subgraph_at normalize conn db2 (Some to) (until (ptr_number to) vs.1, metadata) dep2).
Proof. apply transact_revert_ok. Qed.

(** C18: Reverting a layout to the block before [b] gives every block from [b]
    on the entities of the block before and leaves earlier ones, whatever
    versions there are.  It reports an entity as removed only if it is not
    there any more, as set only if it is, and one that it does not report did
    not change.  The count is by how much the number of entities changed if
    nothing was written past [b] ([store_at]); it is wrong, for instance, for a
    version that ends at a later block. *)
Theorem revert_block_reports ly db v b :
  layout_wf ly -> represents ly db v -> (b <= MAX)%Z ->
  exists db' changes count, layout_revert_block ly db b = Ok (db', changes, count)
    /\ store_at ly (b - 1) db' (view_revert b v)
    /\ reports ly b v changes
    /\ (store_at ly b db v -> count = (entity_count ly (contents db') - entity_count ly (contents db))%Z).
Proof.
  intros Hw Hr Hb. destruct (revert_block_ok ly db v b Hw Hr Hb) as (db' & changes & count & ? & ? & _ & _ & ? & ? & _).
  by exists db', changes, count.
Qed.

(** C25: The past can not be written.  An entity that has a version from some
    block on can not be inserted at an earlier block, and one whose current
    version begins later than a block can be neither updated nor deleted at
    that block: the database refuses, and the transaction fails. *)
Theorem past_can_not_be_written ly db v b key entity t d l :
  layout_wf ly -> represents ly db v -> insertable normalize ly db key entity t d -> (b < l <= MAX)%Z ->
  (exists r, r ∈ rows_of (contents db) t /\ row_id r = d /\ row_range r = RangeBounds (Some l) None) ->
  (exists e, layout_insert ly db key entity b = Err (SESql e))
  /\ (exists e, layout_update ly db key entity b = Err (SESql e))
  /\ exists e, layout_delete ly db key b = Err (SESql e).
Proof.
  intros Hw Hr Hi Hb (r & Hrin & Hrid & Hrg). pose proof Hi as [Ht _ Hd _].
  pose proof (lw_table ly Hw _ t Ht) as Htw. pose proof (id_value_datum _ _ _ Hd) as Hdd.
  destruct (table_of_store ly _ _ t (rp_ok _ _ _ Hr) Ht) as (ts & Hin & Er). rewrite Er in Hrin.
  pose proof Hin as [_ _ [_ Hok _]].
  assert (forall n, (l <= n)%Z -> row_at d n r = true) as Hat.
  { intros n Hn. unfold row_at. rewrite Hrid, Hrg, (same_id_refl (id_type_of t)) by done. cbn. by rewrite (proj2 (Z.leb_le _ _) Hn). }
  assert (v (entity_type key) l d = Some (row_data r)) as Hv.
  { rewrite <- (rp_view _ _ _ Hr _ t _ _ Ht). unfold table_view. rewrite Er. apply (data_at_iff (id_type_of t)); [done|].
    exists r. split; [done|]. split; [by apply Hat|done]. }
  pose proof (meaning_clamp_early (contents db) _ t ts d b r l Htw Hin Hdd Hrin (Hat MAX ltac:(lia))
                ltac:(by rewrite Hrg) ltac:(lia)) as Hm.
  apply (run_sql_err db) in Hm as [e He]. split; [|split; exists e].
  - by eapply (layout_insert_conflict normalize ly db b v key entity t d l); [..|exact Hv]; try done; lia.
  - unfold layout_update. rewrite (table_for_entity_ok ly _ t Ht). cbn [res_bind].
    rewrite (clamp_range_query_ok _ t key d b Htw Hd). cbn [res_bind]. by rewrite He.
  - unfold layout_delete. rewrite (table_for_entity_ok ly _ t Ht). cbn [res_bind].
    rewrite (clamp_range_query_ok _ t key d b Htw Hd). cbn [res_bind]. by rewrite He.
Qed.

(** C24: A value that a column stores is bound as an expression that evaluates
    to what the database has for it, of the type of the column, and what is
    read back from its JSON is the value, up to the representation of
    decimals: for scalars of all types, enums, references and lists. *)
Theorem column_values_roundtrip enums c v d :
  column_stores normalize enums c v d -> is_tsvector c = false ->
  exists e v', bind_value v (col_type c) = Ok e /\ (forall r, eval enums r e = Ok d)
    /\ has_type d (cd_type (column_ddl c)) = true
    /\ from_column_value (V := Value) normalize (col_type c) (to_jsonb d) = Ok v' /\ v' ≡ v.
Proof.
  intros Hs Hts. destruct (bind_column normalize enums c v d Hs) as (e & He & Hr).
  destruct (column_read normalize enums c v d Hs Hts) as (v' & Hv & Eq). exists e, v'. split; [done|].
  split; [|split; [by eapply column_stores_type|done]].
  intros r. destruct (Hr r) as (d' & Hd' & _ & E). by rewrite Hd', E.
Qed.

(** *** Queries *)
Context {CC : CharacterCollation} {PQ : PostgresQueries} {PQL : PostgresQueriesLaws}.
Context (TYPEA_BATCH_SIZE : nat) (sql_error_text : StoreError -> string).

(** C13: A query of one entity type finds exactly the entities that exist at its
    block and satisfy its filter, in the order of the attribute it sorts by and
    then of their ids, nulls last; of these it leaves out the first [skip] and
    returns at most [first].  This is for filters that fit the table
    ([fits_table]): values of the columns' types, no fulltext search, no [not_in]
    with the empty list or with null among other values, no [not_contains] of a
    list (what these do is at the end of [FilterMeaning]); the texts of
    [contains], [starts_with] and [ends_with] are patterns, whose percent signs
    and underscores are wildcards.  The database compares texts by their
    characters ([CharacterCollation], the collation C). *)
Theorem find_selects_sorts_limits conn db ptr vs dep query obj t key :
  conn_wf conn -> subgraph_at normalize conn db ptr vs dep ->
  eq_collection query = All [obj] -> ly_tables (cn_storage conn) !! obj = Some t -> plain_names t ->
  fits_table normalize t (contents db) (eq_filter query) -> sorts_by t (eq_order query) key ->
  exists es ds,
    find normalize store_error_text TYPEA_BATCH_SIZE sql_error_text conn db query = Ok es
    /\ Forall2 (fun e de => e ≡ stored_entity t de.2) es
         (limited (er_first (eq_range query)) (er_skip (eq_range query)) ds)
    /\ StronglySorted (fun x y => entity_order key x y = Lt) ds
    /\ forall d e, (d, e) ∈ ds <-> vs.1 obj (eq_block query) d = Some e /\ satisfies (eq_filter query) e = true.
Proof.
  intros Hw Hs Hq Ht Hn Hf Hk. destruct (st_storage _ _ _ _ _ (sb_stand _ _ _ _ _ _ Hs)) as (v & [[Hrep _] Hfill] & Hh).
  unfold find, execute_query. rewrite Hq.
  apply (layout_query_ok normalize TYPEA_BATCH_SIZE sql_error_text store_error_text (cn_storage conn) db v); try done.
  - apply Hw.
  - intros d. exact (Hh obj t (eq_block query) d Ht).
Qed.
End properties.

(** ** Witnesses *)
Module Witness.
#[local] Existing Instance TextInstance.text.
#[local] Existing Instance TextInstance.text_laws.
#[local] Existing Instance MetadataLoad.Witness.metadata_text.
#[local] Existing Instance MetadataLoad.Witness.metadata_text_laws.
#[local] Existing Instance Schema.Witness.hash_order.
#[local] Existing Instance Reference.server.
#[local] Existing Instance Reference.server_laws.

(** A numeric is its text. *)
Definition number_of (s : string) : BigDecimal :=
  match TextInstance.parse_dec s, TextInstance.parse_Z s with
  | Ok d, _ => d
  | _, Ok n => mk_BigDecimal n 0
  | _, _ => mk_BigDecimal 0 0
  end.

#[export] Instance pg_text : PgText := {|
  Numeric := string; numeric_in := Some; numeric_json := id;
  numeric_add a b := match TextInstance.parse_Z a with Ok n => TextInstance.print_Z (n + b) | _ => a end;
  numeric_is a b := match TextInstance.parse_Z a with Ok n => (n =? b)%Z | _ => false end;
  numeric_of_Z := TextInstance.print_Z;
  numeric_compare a b := BigDecimal_compare (number_of a) (number_of b);
  integer_json := TextInstance.print_Z;
  json_as_i64 s := match TextInstance.parse_Z s with Ok n => Some n | _ => None end;
  text_left s n := String.substring 0 (Z.to_nat n) s;
  text_compare := String.compare; enum_compare _ := String.compare;
  TsVector := string; to_tsvector _ s := s; tsvector_empty := ""; tsvector_concat := String.append;
  tsvector_json := id;
  TsQuery := string; to_tsquery := Some; ts_match v q := String.eqb v q;
  ts_rank_compare _ _ := String.compare;
|}.

Lemma digit_no_backslash b : TextInstance.hex_digit (TextInstance.byte_nat b / 16) <> "\"%char.
Proof. destruct b; vm_compute; discriminate. Qed.

#[export] Instance pg_text_laws : PgTextLaws.
Proof.
  split.
  - intros n x [= <-]. apply TextInstance.parse_print.
  - intros d x [= <-]. destruct (bigdecimal_roundtrip d) as (d' & Hd & He). by exists d'.
  - done.
  - intros a b. cbn. by rewrite TextInstance.parse_print.
  - intros a b. cbn. by rewrite TextInstance.parse_print.
  - intros z _. cbn. by rewrite TextInstance.parse_print.
  - intros [|b bs] r; [done|]. cbn. intros [= E _]. by apply (digit_no_backslash b).
Qed.

(** Texts are compared by the codes of their bytes, numbers by value. *)
Definition codes (s : string) : list Z := (fun c => Z.of_N (N_of_ascii c)) <$> String.list_ascii_of_string s.

Lemma codes_inj s t : codes s = codes t -> s = t.
Proof.
  revert t. induction s as [|a s IH]; intros [|b t]; try done. cbn. intros [= E%N2Z.inj ?]. f_equal; [|by apply IH].
  by rewrite <- (ascii_N_embedding a), E, ascii_N_embedding.
Qed.

Lemma codes_compare s t : String.compare s t = list_compare (codes s) (codes t).
Proof.
  revert t. induction s as [|a s IH]; intros [|b t]; try done.
  change (codes (String a s)) with (Z.of_N (N_of_ascii a) :: codes s).
  change (codes (String b t)) with (Z.of_N (N_of_ascii b) :: codes t).
  cbn [String.compare list_compare]. rewrite N2Z.inj_compare, <- IH. done.
Qed.

Lemma codes_left s n : codes (String.substring 0 n s) = take n (codes s).
Proof. revert n. induction s as [|a s IH]; intros [|n]; try done. cbn. f_equal. apply IH. Qed.

Lemma codes_length s : length (codes s) = String.length s.
Proof. induction s as [|a s IH]; [done|]. cbn. by rewrite <- IH. Qed.

Lemma number_of_int n : number_of (TextInstance.print_Z n) = mk_BigDecimal n 0.
Proof. unfold number_of, TextInstance.parse_dec. by rewrite TextInstance.print_Z_no_e, TextInstance.parse_print. Qed.

#[export] Instance collation : CharacterCollation.
Proof.
  apply (Build_CharacterCollation _ _ codes).
  - apply codes_inj.
  - intros s. by rewrite codes_length.
  - apply codes_compare.
  - intros s n. cbn. rewrite Nat2Z.id. apply codes_left.
  - intros n m x y [= <-] [= <-]. cbn. rewrite !number_of_int. unfold BigDecimal_compare. cbn. by rewrite !Z.mul_1_r.
  - intros d e x y [= <-] [= <-]. cbn. unfold number_of. by rewrite !TextInstance.parse_print_dec.
Defined.

(** [to_snake_case] of names in camel case. *)
Fixpoint snake (first : bool) (s : string) : string :=
  match s with
  | EmptyString => EmptyString
  | String c r =>
      let n := N_of_ascii c in
      if ((65 <=? n) && (n <=? 90))%N
      then (if first then "" else "_") +:+ String (ascii_of_N (n + 32)) (snake false r)
      else String c (snake false r)
  end.
#[local] Instance inflector : Inflector := {
  to_camel_case s := s; to_plural s := s +:+ "s"; to_snake_case := snake true;
}.

Definition field (name : string) (ty : GType) : Field := mk_field name [] ty [].
Definition entity_def (name : string) (fields : list (string * GType)) : DefinitionNode :=
  Schema.Witness.entity_type name (field "id" (NonNullType (NamedType "ID")) :: ((fun f => field f.1 f.2) <$> fields)).
Definition required_of (ty : string) : GType := NonNullType (NamedType ty).

Definition metadata_schema : Schema := Schema_new "subgraphs"
  [entity_def "SubgraphDeployment"
     [("latestEthereumBlockHash", NamedType "Bytes"); ("latestEthereumBlockNumber", NamedType "BigInt");
      ("entityCount", required_of "BigInt"); ("reorgCount", required_of "Int");
      ("currentReorgDepth", required_of "Int"); ("maxReorgDepth", required_of "Int")];
   entity_def "DynamicEthereumContractDataSource" [("deployment", required_of "String")]].
Definition pets_schema : Schema := Schema_new "QmPets" [entity_def "Pet" [("name", required_of "String"); ("age", NamedType "Int")]].

Definition layout_of_schema (schema : string) (s : Schema) : Layout :=
  match Layout_new ∅ s (mk_catalog schema ∅) false with
  | Ok ly => ly
  | _ => mk_layout ∅ "" (mk_catalog "" ∅) ∅ ""
  end.
Definition metadata_layout : Layout := Eval vm_compute in layout_of_schema "subgraphs" metadata_schema.
Definition pets_layout : Layout := Eval vm_compute in layout_of_schema "sgd1" pets_schema.

(** Properties of all tables of a layout. *)
Lemma all_tables (ly : Layout) (l : list (string * Table)) (P : string -> Table -> Prop) :
  map_to_list (ly_tables ly) = l -> Forall (fun ot => P ot.1 ot.2) l ->
  forall obj t, ly_tables ly !! obj = Some t -> P obj t.
Proof. intros <- Hl obj t Ht%elem_of_map_to_list. rewrite Forall_forall in Hl. by apply (Hl (obj, t)). Qed.

(** Tables without columns for fulltext search, whose first column is the id. *)
Definition plain_table (t : Table) : bool :=
  bool_decide (NoDup ((col_name <$> tb_columns t) ++ [BLOCK_RANGE_COLUMN]))
  && bool_decide (NoDup (col_field <$> tb_columns t))
  && forallb (fun c => negb (is_tsvector c) && negb (bool_decide (is_Some (col_fulltext_fields c)))
                       && negb (String.eqb (col_name c) "g$parent_id")) (tb_columns t)
  && match tb_columns t with
     | c :: _ => String.eqb (col_name c) "id" && String.eqb (col_field c) "id" && negb (col_is_list c)
                 && bool_decide (col_type c = CTString)
     | [] => false
     end.

Lemma plain_table_ok t :
  plain_table t = true ->
  id_type_of t = IdString /\ table_wf (id_type_of t) t /\ fulltext_wf t
  /\ forall c, c ∈ tb_columns t -> col_name c <> "g$parent_id".
Proof.
  unfold plain_table. rewrite !andb_true_iff. intros [[[H1%bool_decide_eq_true H2%bool_decide_eq_true] H3] H4].
  assert (forall c, c ∈ tb_columns t -> is_tsvector c = false /\ col_fulltext_fields c = None /\ col_name c <> "g$parent_id") as Hc.
  { intros c Hc. rewrite List.forallb_forall in H3. specialize (H3 c ltac:(by apply list_elem_of_In)).
    apply andb_true_iff in H3 as [[Ha%negb_true_iff Hb%negb_true_iff]%andb_true_iff He%negb_true_iff].
    split; [done|]. split; [|by apply String.eqb_neq]. apply bool_decide_eq_false in Hb. by apply eq_None_not_Some. }
  destruct (tb_columns t) as [|pk l] eqn:El; [done|].
  apply andb_true_iff in H4 as [[[Hn%String.eqb_eq Hf%String.eqb_eq]%andb_true_iff Hl%negb_true_iff]%andb_true_iff Hty%bool_decide_eq_true].
  assert (primary_key t = Ok pk) as Hpk.
  { unfold primary_key. rewrite El. cbn. unfold is_primary_key. by rewrite Hn. }
  assert (id_type_of t = IdString) as Hid by (unfold id_type_of; by rewrite Hpk, Hty).
  split; [done|]. rewrite Hid. split; [|split].
  - split; rewrite ?El; try done. exists pk. by rewrite Hpk, Hf, Hl, Hty.
  - intros c Hin. rewrite El in Hin. destruct (Hc c Hin) as (-> & ? & _). done.
  - intros c Hin. by apply Hc.
Qed.

Definition plain_layout (ly : Layout) : bool :=
  forallb (fun ot => String.eqb (tb_object ot.2) ot.1 && plain_table ot.2) (map_to_list (ly_tables ly))
  && bool_decide (NoDup ((fun ot : string * Table => tb_qualified_name ot.2) <$> map_to_list (ly_tables ly))).

Lemma plain_layout_ok ly :
  plain_layout ly = true ->
  layout_wf ly /\ forall obj t, ly_tables ly !! obj = Some t -> id_type_of t = IdString.
Proof.
  unfold plain_layout. intros [H1 H2%bool_decide_eq_true]%andb_true_iff. rewrite List.forallb_forall in H1.
  assert (forall obj t, ly_tables ly !! obj = Some t -> tb_object t = obj /\ plain_table t = true) as Ht.
  { intros obj t Ht%elem_of_map_to_list. specialize (H1 (obj, t) ltac:(by apply list_elem_of_In)).
    apply andb_true_iff in H1 as [E%String.eqb_eq ?]. done. }
  split; [split|].
  - intros obj t E. by apply Ht.
  - intros obj t E. by apply plain_table_ok, (Ht obj).
  - intros obj t E. by apply plain_table_ok, (Ht obj).
  - intros obj t c E. by apply plain_table_ok, (Ht obj).
  - intros obj obj' t t' E1%elem_of_map_to_list E2%elem_of_map_to_list Hq.
    apply list_elem_of_lookup in E1 as [i Hi], E2 as [j Hj].
    assert (i = j) as <-; [|congruence].
    eapply (NoDup_lookup _ i j (tb_qualified_name t) H2); rewrite list_lookup_fmap; [by rewrite Hi|by rewrite Hj, Hq].
  - intros obj t E. by apply plain_table_ok, (Ht obj).
Qed.

Definition conn : Connection := mk_connection pets_layout metadata_layout.

Lemma layouts_wf : layout_wf pets_layout /\ layout_wf metadata_layout.
Proof. split; apply plain_layout_ok; vm_compute; reflexivity. Qed.

Lemma conn_is_wf : conn_wf conn.
Proof.
  destruct layouts_wf as [H1 H2]. split; try done.
  intros name (obj & t & Ht & <-) (obj' & t' & Ht' & E).
  apply elem_of_map_to_list in Ht, Ht'. vm_compute in Ht, Ht'.
  apply list_elem_of_singleton in Ht. injection Ht as -> ->.
  repeat (apply elem_of_cons in Ht' as [Ht'|Ht']; [injection Ht' as -> ->; by vm_compute in E|]). by apply not_elem_of_nil in Ht'.
Qed.

Lemma metadata_is_wf : metadata_wf metadata_layout.
Proof.
  split; [done|apply plain_layout_ok; vm_compute; reflexivity|].
  exists (default (mk_table "" "" "" [] false 0) (ly_tables metadata_layout !! DDS)).
  split; [vm_compute; reflexivity|]. split; [vm_compute; reflexivity|].
  exists (mk_column "deployment" "deployment" (NonNullType (NamedType "String")) CTString None false).
  split; [|done]. vm_compute. right. left.
Qed.

Ltac vm_refl := lazymatch goal with |- ?a = ?b => exact (eq_refl b <: a = b) end.

(** A deployment at block 5, without entities. *)
Definition table_of_name (ly : Layout) (obj : string) : Table :=
  default (mk_table "" "" "" [] false 0) (ly_tables ly !! obj).
Definition deployments : Table := Eval vm_compute in table_of_name metadata_layout "SubgraphDeployment".
Definition data_sources : Table := Eval vm_compute in table_of_name metadata_layout DDS.
Definition pets : Table := Eval vm_compute in table_of_name pets_layout "Pet".

Definition dep : Entity :=
  list_to_map [("id", VString "QmPets"); ("latestEthereumBlockHash", VBytes (h256_bytes 5));
               ("latestEthereumBlockNumber", VBigInt 5); ("entityCount", VBigInt 0);
               ("reorgCount", VInt 0); ("currentReorgDepth", VInt 0); ("maxReorgDepth", VInt 0)].
Definition dep_row : Row :=
  list_to_map [("id", DText "QmPets"); ("latest_ethereum_block_hash", DBytea (h256_bytes 5));
               ("latest_ethereum_block_number", DNumeric (TextInstance.print_Z 5)); ("entity_count", DNumeric (TextInstance.print_Z 0));
               ("reorg_count", DInteger 0); ("current_reorg_depth", DInteger 0); ("max_reorg_depth", DInteger 0);
               ("block_range", DRange (RangeBounds (Some BLOCK_UNVERSIONED) None))].
Definition db0 : Database :=
  mk_database (list_to_map [(tb_qualified_name deployments, mk_table_state (table_ddl deployments) [dep_row]);
                            (tb_qualified_name data_sources, mk_table_state (table_ddl data_sources) []);
                            (tb_qualified_name pets, mk_table_state (table_ddl pets) [])]) ∅.

Lemma metadata_cases obj t :
  ly_tables metadata_layout !! obj = Some t ->
  (obj = "SubgraphDeployment" /\ t = deployments) \/ (obj = DDS /\ t = data_sources).
Proof.
  intros Ht%elem_of_map_to_list. vm_compute in Ht.
  repeat (apply elem_of_cons in Ht as [Ht|Ht]; [injection Ht as -> ->; auto|]). by apply not_elem_of_nil in Ht.
Qed.

Lemma pets_cases obj t : ly_tables pets_layout !! obj = Some t -> obj = "Pet" /\ t = pets.
Proof.
  intros Ht%elem_of_map_to_list. vm_compute in Ht. apply list_elem_of_singleton in Ht. by injection Ht as -> ->.
Qed.

Lemma row_range_dep : row_range dep_row = RangeBounds (Some BLOCK_UNVERSIONED) None.
Proof. reflexivity. Qed.

Lemma dep_row_ok : row_ok IdString dep_row.
Proof. split; [done|done|]. rewrite row_range_dep. vm_compute. done. Qed.

Lemma one_rows ty r : row_ok ty r -> rows_ok ty [r].
Proof.
  intros Hr. split; [by intros a ->%list_elem_of_singleton|]. intros d n. cbn. destruct (row_at d n r); cbn; lia.
Qed.

Lemma no_rows ty : rows_ok ty [].
Proof. split; [by intros r ?%not_elem_of_nil|]. intros d n. cbn. lia. Qed.

Lemma in_db0 (t : Table) rows :
  plain_table t = true -> db_tables db0 !! tb_qualified_name t = Some (mk_table_state (table_ddl t) rows) ->
  rows_ok IdString rows -> Forall (fun r => check_not_null (table_ddl t) r = Ok ()) rows ->
  table_in db0 (id_type_of t) t (mk_table_state (table_ddl t) rows).
Proof.
  intros (Hid & Hw & _)%plain_table_ok Ht Hr Hn. split; [done|done|]. split.
  - by apply def_ok_ddl.
  - by rewrite Hid.
  - by apply Forall_forall.
Qed.

Lemma deployments_in : table_in db0 (id_type_of deployments) deployments (mk_table_state (table_ddl deployments) [dep_row]).
Proof.
  apply in_db0; [vm_refl..|apply one_rows, dep_row_ok|]. apply Forall_singleton. vm_refl.
Qed.
Lemma data_sources_in : table_in db0 (id_type_of data_sources) data_sources (mk_table_state (table_ddl data_sources) []).
Proof. apply in_db0; [vm_refl..|apply no_rows|constructor]. Qed.
Lemma pets_in : table_in db0 (id_type_of pets) pets (mk_table_state (table_ddl pets) []).
Proof. apply in_db0; [vm_refl..|apply no_rows|constructor]. Qed.

Lemma metadata_ok : store_ok metadata_layout db0.
Proof. intros obj t [[-> ->]|[-> ->]]%metadata_cases; eexists; [apply deployments_in|apply data_sources_in]. Qed.
Lemma pets_ok : store_ok pets_layout db0.
Proof. intros obj t [-> ->]%pets_cases. eexists. apply pets_in. Qed.

Definition normalize : BigDecimal -> BigDecimal := id.

Lemma dep_row_of : row_of normalize ∅ deployments dep (row_range dep_row) dep_row.
Proof.
  split; [|done|].
  - intros c Hc. unfold deployments in Hc. cbn in Hc.
    repeat (apply elem_of_cons in Hc as [-> |Hc]; [eexists; split; [reflexivity|]; apply column_scalar; [done|]; by constructor|]).
    by apply not_elem_of_nil in Hc.
  - intros k [d Hk]. apply elem_of_list_to_map_2, (list_elem_of_fmap_2 fst) in Hk. cbn [fst] in Hk.
    assert (Forall (fun k => k = BLOCK_RANGE_COLUMN \/ k ∈ col_name <$> tb_columns deployments)
              ["id"; "latest_ethereum_block_hash"; "latest_ethereum_block_number"; "entity_count"; "reorg_count";
               "current_reorg_depth"; "max_reorg_depth"; "block_range"]) as Hkeys by (apply (bool_decide_unpack _); vm_compute; exact I).
    rewrite Forall_forall in Hkeys. destruct (Hkeys k Hk) as [->|(c & -> & Hc)%list_elem_of_fmap]; [by left|right; by exists c].
Qed.

Definition at5 : EthereumBlockPointer := mk_ptr 5 5.
Definition no_pets : EntityView := view_of_rows pets_layout db0 (fun _ _ => ∅).
Definition metadata0 : EntityView := view_of_rows metadata_layout db0 (fun _ _ => dep).

Lemma dep_plain c : c ∈ tb_columns deployments -> is_tsvector c = false.
Proof.
  intros Hc. unfold deployments in Hc. cbn in Hc.
  repeat (apply elem_of_cons in Hc as [-> |Hc]; [done|]). by apply not_elem_of_nil in Hc.
Qed.

Lemma stands_pets : stands normalize pets_layout 5 db0 no_pets.
Proof.
  apply (stands_rows (PG := Reference.server) normalize pets_layout 5 db0 (fun _ _ => ∅) pets_ok). intros obj t r [-> ->]%pets_cases Hr.
  rewrite (table_in_rows db0 _ _ _ pets_in : rows_of (contents (Postgres := Reference.server) db0) _ = _) in Hr. by apply not_elem_of_nil in Hr.
Qed.

Lemma stands_metadata : stands normalize metadata_layout BLOCK_NUMBER_MAX db0 metadata0.
Proof.
  apply (stands_rows (PG := Reference.server) normalize metadata_layout BLOCK_NUMBER_MAX db0 (fun _ _ => dep) metadata_ok).
  intros obj t r [[-> ->]|[-> ->]]%metadata_cases Hr.
  - rewrite (table_in_rows db0 _ _ _ deployments_in : rows_of (contents (Postgres := Reference.server) db0) _ = _) in Hr. apply list_elem_of_singleton in Hr as ->. split.
    + intros n m Hn Hm. rewrite row_range_dep. apply eq_true_iff_eq. rewrite !contains_bounds.
      unfold BLOCK_UNVERSIONED, BLOCK_NUMBER_MAX in *. lia.
    + eapply (row_of_holds _ _ (id_type_of deployments)); [apply plain_table_ok; vm_refl|apply plain_vectors, dep_plain|apply dep_row_of].
  - rewrite (table_in_rows db0 _ _ _ data_sources_in : rows_of (contents (Postgres := Reference.server) db0) _ = _) in Hr. by apply not_elem_of_nil in Hr.
Qed.

Lemma stand0 : stand normalize conn 5 db0 (no_pets, metadata0).
Proof. split; [exact stands_pets|exact stands_metadata]. Qed.

Lemma deployments_table : deployment_table metadata_layout deployments.
Proof.
  split; [vm_refl|vm_refl|vm_refl|apply dep_plain|].
  intros name f ty Hin.
  assert (Forall (fun x : string * string * ColumnType =>
            existsb (fun c => String.eqb (col_name c) x.1.1 && String.eqb (col_field c) x.1.2
                              && bool_decide (col_type c = x.2) && negb (col_is_list c)) (tb_columns deployments) = true)
            deployment_columns) as Hall by (apply (bool_decide_unpack _); vm_compute; exact I).
  rewrite Forall_forall in Hall. specialize (Hall _ Hin). apply existsb_true_iff in Hall as (c & Hc & Hp).
  cbn in Hp. apply andb_true_iff in Hp as [[[H1%String.eqb_eq H2%String.eqb_eq]%andb_true_iff H3%bool_decide_eq_true]%andb_true_iff H4%negb_true_iff].
  by exists c.
Qed.

Lemma deployed0 : deployed normalize metadata_layout db0 "QmPets" dep.
Proof.
  exists deployments, dep_row. split; [apply deployments_table|]. split; [vm_refl|exact row_range_dep|apply dep_row_of|].
  intros c Hc _. unfold deployments in Hc. cbn in Hc.
  repeat (apply elem_of_cons in Hc as [-> |Hc]; [eexists; split; [reflexivity|done]|]). by apply not_elem_of_nil in Hc.
Qed.

Lemma subgraph0 : subgraph_at normalize conn db0 (Some at5) (no_pets, metadata0) dep.
Proof.
  split; [apply stand0|apply deployed0| |].
  - split; [reflexivity|]. split; [reflexivity|]. unfold is_u64. cbn. lia.
  - split; [vm_refl|]. vm_compute. done.
Qed.

(** Block 6 adds a pet. *)
Definition at6 : EthereumBlockPointer := mk_ptr 6 6.
Definition rex : EntityKey := mk_key "QmPets" "Pet" "rex".
Definition rex6 : Entity := list_to_map [("id", VString "rex"); ("name", VString "Rex")].
Definition block6 : list EntityModification := [Insert rex rex6].
Definition info (_ : SubgraphDeploymentId) : sres SubgraphInfo :=
  Ok (mk_subgraph_info (mk_api_schema pets_schema (mk_object_type "Query" [] [] []) None) None).

Lemma rex_storable : storable normalize ∅ pets rex6.
Proof.
  split.
  - intros c v Hc _ Hv. unfold pets in Hc. cbn in Hc.
    repeat (apply elem_of_cons in Hc as [-> |Hc];
      [vm_compute in Hv; first [discriminate|injection Hv as <-; eexists; apply column_scalar; [done|]; constructor]|]).
    by apply not_elem_of_nil in Hc.
  - intros c Hc Hn. unfold pets in Hc. cbn in Hc.
    repeat (apply elem_of_cons in Hc as [-> |Hc]; [vm_compute in Hn; first [discriminate|eexists; split; [reflexivity|done]]|]).
    by apply not_elem_of_nil in Hc.
  - intros c fields f v Hc. unfold pets in Hc. cbn in Hc.
    repeat (apply elem_of_cons in Hc as [-> |Hc]; [done|]). by apply not_elem_of_nil in Hc.
  - intros c Hc. unfold pets in Hc. cbn in Hc.
    repeat (apply elem_of_cons in Hc as [-> |Hc]; [done|]). by apply not_elem_of_nil in Hc.
Qed.

Lemma no_pets_none obj n d : no_pets obj n d = None.
Proof.
  unfold no_pets, view_of_rows. destruct (ly_tables pets_layout !! obj) as [t|] eqn:E; [|done].
  apply pets_cases in E as [-> ->]. unfold table_view. by rewrite (table_in_rows _ _ _ _ pets_in).
Qed.

Lemma block6_ok : block_ok normalize info conn db0 (Some at5) (no_pets, metadata0) at6 block6.
Proof.
  split; [cbn; unfold BLOCK_NUMBER_MAX; lia|cbn; lia| |by vm_compute|by vm_compute].
  split; [|done]. exists pets, (DText "rex"). split.
  - by right.
  - reflexivity.
  - reflexivity.
  - done.
  - intros e [[= <-]|[= <-]]. split; [reflexivity|]. split; [apply rex_storable|]. eexists. split; [reflexivity|reflexivity].
  - apply no_pets_none.
Qed.

Lemma transact_block_operations_correct_witness :
  exists db' metadata,
    transact_block_operations normalize (fun _ => "") info conn db0 "QmPets" at6 block6
    = Ok (db', block_ptr_store_event "QmPets", list_to_set (change_of_modification <$> block6), false)
    /\ subgraph_at normalize conn db' (Some at6) ((modified conn 6 (no_pets, metadata0) block6).1, metadata)
         (transacted conn db' at6 dep)
    /\ same_others metadata0 metadata.
Proof.
  apply (transact_block_operations_correct (PG := Reference.server) normalize (fun _ => "") info conn db0 (Some at5) (no_pets, metadata0) dep at6 block6
           conn_is_wf subgraph0 block6_ok).
Defined.

Lemma transacted_entities_found_witness :
  exists db' e1 e2,
    transact_block_operations normalize (fun _ => "") info conn db0 "QmPets" at6 block6 = Ok (db', e1, e2, false)
    /\ exists db'' e, conn_find normalize conn db' "Pet" "rex" 7 = Ok (db'', Some e) /\ e ≡ stored_entity pets rex6.
Proof.
  destruct (transacted_entities_found (PG := Reference.server) normalize (fun _ => "") info conn db0 (Some at5) (no_pets, metadata0) dep at6 block6
           conn_is_wf subgraph0 block6_ok) as (db' & e1 & e2 & Hrun & Hf).
  exists db', e1, e2. split; [exact Hrun|].
  destruct (Hf "Pet" pets "rex" (DText "rex") 7%Z eq_refl eq_refl) as (db'' & found & Hfind & Hr).
  change (if (6 <=? 7)%Z then written conn "Pet" (DText "rex") block6 (no_pets "Pet" 7%Z (DText "rex")) else no_pets "Pet" 7%Z (DText "rex"))
    with (Some rex6) in Hr.
  destruct found as [e|]; [|destruct Hr]. exists db'', e. split; [exact Hfind|exact Hr].
Defined.

(** After block 6. *)
Definition db6 : Database :=
  match transact_block_operations (PG := Reference.server) normalize (fun _ => "") info conn db0 "QmPets" at6 block6 with
  | Ok (db, _, _, _) => db
  | _ => db0
  end.
Definition pet6 : Row := default ∅ (head (rows_of db6 pets)).

Lemma subgraph6 :
  exists metadata, subgraph_at (PG := Reference.server) normalize conn db6 (Some at6)
    ((modified conn 6 (no_pets, metadata0) block6).1, metadata) (transacted (PG := Reference.server) conn db6 at6 dep).
Proof.
  destruct (transact_ok (PG := Reference.server) normalize (fun _ => "") info conn db0 (Some at5) (no_pets, metadata0) dep at6 block6
              conn_is_wf subgraph0 block6_ok) as (db' & metadata & Hrun & Hs & _).
  exists metadata. assert (db6 = db') as ->; [|exact Hs]. unfold db6.
  change "QmPets" with (ly_subgraph (cn_storage conn)). by rewrite Hrun.
Qed.

Lemma db6_is :
  db6 = match transact_block_operations (PG := Reference.server) normalize (fun _ => "") info conn db0 "QmPets" at6 block6 with
        | Ok (db, _, _, _) => db
        | _ => db0
        end.
Proof. reflexivity. Qed.

#[local] Opaque db6.

Lemma pets6 : exists v, represents (PG := Reference.server) pets_layout db6 v.
Proof. destruct subgraph6 as (metadata & [[(v & [[Hv _] _] & _) _] _ _ _]). by exists v. Qed.

Lemma no_data_sources6 : dds_rows metadata_layout db6 0.
Proof.
  intros t r Ht Hr. assert (t = data_sources) as ->.
  { apply metadata_cases in Ht as [[E _]|[_ ->]]; [by vm_compute in E|done]. }
  assert (rows_of db6 data_sources = []) as E by vm_refl. rewrite E in Hr. exact (False_ind _ (not_elem_of_nil r Hr)).
Qed.

Lemma revert_undoes_transact_witness :
  exists db1 e1 e2,
    transact_block_operations (PG := Reference.server) normalize (fun _ => "") info conn db0 "QmPets" at6 block6 = Ok (db1, e1, e2, false)
    /\ exists db2 event metadata dep2,
         revert_block_operations (PG := Reference.server) normalize (fun _ => "") info conn db1 "QmPets" at6 at5
         = Ok (db2, block_ptr_store_event "QmPets", event)
         /\ subgraph_at (PG := Reference.server) normalize conn db2 (Some at5) (until 5 no_pets, metadata) dep2.
Proof.
  destruct (revert_undoes_transact (PG := Reference.server) normalize (fun _ => "") info conn db0 at5 (no_pets, metadata0) dep at6 block6 0 0 0
           (mk_subgraph_info (mk_api_schema pets_schema (mk_object_type "Query" [] [] []) None) None)
           conn_is_wf metadata_is_wf subgraph0 block6_ok eq_refl eq_refl eq_refl) as (db1 & e1 & e2 & Hrun & Hrev).
  - split; [reflexivity|]. split; reflexivity.
  - unfold is_i32. lia.
  - exists db1, e1, e2. split; [exact Hrun|]. apply Hrev. exists 0%nat.
    assert (db1 = db6) as E; [|rewrite E; exact no_data_sources6].
    rewrite db6_is. change (ly_subgraph (cn_storage conn)) with "QmPets" in Hrun. by rewrite Hrun.
Defined.

Lemma revert_block_operations_correct_witness :
  exists db' event metadata dep',
    revert_block_operations (PG := Reference.server) normalize (fun _ => "") info conn db6 "QmPets" at6 at5
    = Ok (db', block_ptr_store_event "QmPets", event)
    /\ subgraph_at (PG := Reference.server) normalize conn db' (Some at5)
         (entity_revert 6 (modified conn 6 (no_pets, metadata0) block6).1, metadata) dep'.
Proof.
  destruct subgraph6 as [metadata Hs].
  destruct (revert_block_operations_correct (PG := Reference.server) normalize (fun _ => "") info conn db6 at6 at5 _ _
              conn_is_wf metadata_is_wf Hs) as (db' & event & metadata' & dep' & Hrun & Hs' & _).
  - split; [reflexivity|cbn; unfold BLOCK_NUMBER_MAX; lia|by eexists| |exists 0%nat; exact no_data_sources6|by vm_compute|by vm_compute].
    exists 0%Z, 0%Z, 0%Z. split; [split; [vm_refl|split; vm_refl]|]. unfold is_i32. lia.
  - exists db', event, metadata', dep'. split; [exact Hrun|exact Hs'].
Defined.

Lemma revert_block_reports_witness :
  exists v db' changes count, represents (PG := Reference.server) pets_layout db6 v
    /\ layout_revert_block (PG := Reference.server) pets_layout db6 6 = Ok (db', changes, count)
    /\ reports pets_layout 6 v changes.
Proof.
  destruct pets6 as [v Hv].
  destruct (revert_block_reports (PG := Reference.server) pets_layout db6 v 6 (proj1 layouts_wf) Hv) as (db' & changes & count & Hrun & _ & Hr & _).
  - unfold BLOCK_NUMBER_MAX. lia.
  - exists v, db', changes, count. split; [exact Hv|]. split; [exact Hrun|exact Hr].
Defined.

Lemma past_can_not_be_written_witness :
  (exists e, layout_insert (PG := Reference.server) pets_layout db6 rex rex6 3 = Err (SESql e))
  /\ (exists e, layout_update (PG := Reference.server) pets_layout db6 rex rex6 3 = Err (SESql e))
  /\ exists e, layout_delete (PG := Reference.server) pets_layout db6 rex 3 = Err (SESql e).
Proof.
  destruct pets6 as [v Hv].
  apply (past_can_not_be_written (PG := Reference.server) normalize pets_layout db6 v 3 rex rex6 pets (DText "rex") 6 (proj1 layouts_wf) Hv).
  - split; [reflexivity|reflexivity|reflexivity|].
    assert (db_enums db6 = ∅) as E by vm_refl. change (storable normalize (db_enums db6) pets rex6). rewrite E. apply rex_storable.
  - unfold BLOCK_NUMBER_MAX. lia.
  - exists pet6. assert (rows_of db6 pets = [pet6]) as E by vm_refl.
    split; [change (pet6 ∈ rows_of db6 pets); rewrite E; left|]. split; vm_refl.
Defined.

Definition ages : Column := mk_column "ages" "ages" (ListType (NamedType "Int")) CTInt None false.

Lemma column_values_roundtrip_witness :
  exists e v', bind_value (VList [VInt 3; VInt 4]) CTInt = Ok e
    /\ (forall r, eval ∅ r e = Ok (DArray [DInteger 3; DInteger 4]))
    /\ has_type (DArray [DInteger 3; DInteger 4]) (cd_type (column_ddl ages)) = true
    /\ from_column_value (V := Value) normalize CTInt (to_jsonb (DArray [DInteger 3; DInteger 4])) = Ok v'
    /\ v' ≡ VList [VInt 3; VInt 4].
Proof.
  apply (column_values_roundtrip normalize ∅ ages (VList [VInt 3; VInt 4]) (DArray [DInteger 3; DInteger 4])).
  - apply column_list; [done|done|]. repeat (constructor; [constructor; unfold is_i32; lia|]). constructor.
  - done.
Defined.

(** *** What the theorems leave out *)

(** An entity that was removed still conflicts with one of another type: the
    query looks at all versions. *)
Definition old_pet : Row :=
  list_to_map [("id", DText "rex"); ("name", DText "Rex"); ("block_range", DRange (RangeBounds (Some 1%Z) (Some 3%Z)))].
Definition db_removed : Database :=
  mk_database {[tb_qualified_name pets := mk_table_state (table_ddl pets) [old_pet]]} ∅.

Example removed_entities_conflict :
  layout_find (PG := Reference.server) normalize pets_layout db_removed "Pet" "rex" BLOCK_NUMBER_MAX = Ok (db_removed, None)
  /\ layout_conflicting_entity (PG := Reference.server) pets_layout db_removed "rex" ["Pet"] = Ok (db_removed, Some "Pet").
Proof. split; vm_refl. Qed.

(** A table that gained an optional attribute can be copied, by the check of
    its columns, but the statement that copies it asks for the attribute in
    the source. *)
Definition old_pets : Table :=
  mk_table "Pet" "pet" (qualified_name "sgd0" "pet")
    (List.filter (fun c => negb (String.eqb (col_name c) "age")) (tb_columns pets)) false 0.
Definition db_copy : Database :=
  mk_database (list_to_map [(tb_qualified_name pets, mk_table_state (table_ddl pets) []);
                            (tb_qualified_name old_pets, mk_table_state (table_ddl old_pets) [])]) ∅.

Example added_attributes_are_not_copied :
  table_can_copy_from pets old_pets = []
  /\ copy_table (PG := Reference.server) db_copy (pets, old_pets) = Err (SESql UndefinedColumn).
Proof. split; vm_refl. Qed.
(** *** Queries *)
#[local] Existing Instance ReferenceQueries.queries.
#[local] Existing Instance ReferenceQueries.queries_laws.

Definition names : Column := Eval vm_compute in default (mk_column "" "" (NamedType "Int") CTInt None false) (table_column pets "name").

Definition pet_query : EntityQuery :=
  query_order
    (query_filter (query_range (query_new "QmPets" 6 (All ["Pet"])) (range_first 10))
       (FAnd [FStartsWith "name" (VString "R"); FGreaterOrEqual "name" (VString "A")]))
    (Descending "name" VT_String).

Lemma pets_names : plain_names pets.
Proof.
  split; [|reflexivity]. apply Forall_forall. unfold pets. cbn. repeat constructor.
Qed.

Lemma names_plain : plain_column pets "name" names.
Proof. split; try reflexivity. Qed.

Lemma pet_query_fits : fits_table normalize pets db6 (eq_filter pet_query).
Proof.
  assert (forall enums, fits normalize enums names (VString "A")) as Hf.
  { intros enums. exists (DText "A"). apply column_scalar; [reflexivity|constructor]. }
  cbn. split; [|split; [|done]]; exists names; (split; [apply names_plain|]); cbn.
  - split; [by split|]. by exists "R".
  - split; [reflexivity|]. split; [reflexivity|]. split; [apply Hf|done].
Qed.

Lemma find_selects_sorts_limits_witness :
  exists es ds,
    find (PG := Reference.server) normalize (fun _ => "") 150 (fun _ => "") conn db6 pet_query = Ok es
    /\ Forall2 (fun e de => e ≡ stored_entity pets de.2) es (limited (Some 10%Z) 0 ds)
    /\ (DText "rex", rex6) ∈ ds.
Proof.
  destruct subgraph6 as [metadata Hs].
  destruct (find_selects_sorts_limits (PG := Reference.server) normalize (fun _ => "") 150 (fun _ => "") conn db6 _ _ _
              pet_query "Pet" pets (Some ("name", true)) conn_is_wf Hs) as (es & ds & Hrun & Hes & _ & Hds).
  - reflexivity.
  - reflexivity.
  - exact pets_names.
  - exact pet_query_fits.
  - split; [reflexivity|]. exists names. by split.
  - exists es, ds. split; [exact Hrun|]. split; [exact Hes|]. apply Hds. split; vm_compute; reflexivity.
Defined.

(** Three pets at block 6, two of them with an age, and a past version. *)
Definition pet_row (id name : string) (age : Datum) (upper : option Z) : Row :=
  {["id" := DText id; "name" := DText name; "age" := age; "block_range" := DRange (RangeBounds (Some 1%Z) upper)]}.
Definition db_pets : Database :=
  mk_database {[tb_qualified_name pets := mk_table_state (table_ddl pets)
    [pet_row "ace" "Ace" DNull None; pet_row "rex" "Rex" (DInteger 3) None;
     pet_row "old" "Old" (DInteger 9) (Some 4%Z); pet_row "bo" "Bo" (DInteger 7) None]]} ∅.
Definition found_names (filter : option EntityFilter) (order : EntityOrder) (first : option Z) (skip : Z)
  : list (option Value) :=
  let q := mk_query "QmPets" 6 (All ["Pet"]) filter order (mk_range first skip) in
  match find (PG := Reference.server) normalize (fun _ => "") 150 (fun _ => "") conn db_pets q with
  | Ok es => (fun e : Entity => e !! "name") <$> es
  | _ => []
  end.

(** Nulls come last in both directions. *)
Example sorted_by_age :
  found_names None (Ascending "age" VT_Int) None 0 = [Some (VString "Rex"); Some (VString "Bo"); Some (VString "Ace")]
  /\ found_names None (Descending "age" VT_Int) None 0 = [Some (VString "Bo"); Some (VString "Rex"); Some (VString "Ace")]
  /\ found_names (Some (FNot "age" (VInt 3))) DefaultOrder None 0 = [Some (VString "Bo")]
  /\ found_names (Some (FNotEndsWith "name" (VString "o"))) DefaultOrder (Some 1%Z) 1 = [Some (VString "Rex")].
Proof. split; [vm_refl|]. split; [vm_refl|]. split; vm_refl. Qed.
End Witness.
