(* ===== verification/ProofOfIndexing.v ===== *)
(** * Proofs of indexing

    Models [graph/src/components/subgraph/proof_of_indexing/]: the events a
    mapping's changes to entities amount to, their streams by causality region,
    and the finishing of a proof.  The stable-hash crate is the class
    [StableHashing]: sequence numbers, an incremental hasher that does not
    depend on the order of its inputs, and the hashing of the primitive types. *)

From stdpp Require Import prelude list strings gmap fin_maps pretty.
From Stdlib Require Import ZArith Lia.
From Stdlib Require Strings.Byte.
From S2P Require Import Prelude.
From S2P Require Import StoreValue.
From S2P Require Import EthTypes.

#[local] Open Scope string_scope.
#[local] Open Scope list_scope.

Class StableHashing := {
  SeqNo : Type;
  seq_root : SeqNo;
  (** the child, and the number after [next_child] *)
  next_child : SeqNo -> SeqNo * SeqNo;
  skip : SeqNo -> Z -> SeqNo;
  SetHasher : Type;
  hasher_new : SetHasher;
  hasher_write : SetHasher -> SeqNo -> list Byte.byte -> SetHasher;
  finish_unordered : SetHasher -> SetHasher -> SeqNo -> SetHasher;
  hasher_finish : SetHasher -> list Byte.byte;
  to_bytes : SetHasher -> list Byte.byte;
  from_bytes : list Byte.byte -> SetHasher;
  hash_usize : Z -> SeqNo -> SetHasher -> SetHasher;
  hash_str : string -> SeqNo -> SetHasher -> SetHasher;
  hash_bytes : list Byte.byte -> SeqNo -> SetHasher -> SetHasher;
  hash_opt_bytes : option (list Byte.byte) -> SeqNo -> SetHasher -> SetHasher;
  hash_entity : Entity -> SeqNo -> SetHasher -> SetHasher;
}.

Inductive ProofOfIndexingEvent :=
| RemoveEntity (event_entity_type event_id : string)
| SetEntity (event_entity_type event_id : string) (data : Entity).

Section poi.
Context {SH : StableHashing}.

(** [strum]'s names of the variants *)
Definition event_name (e : ProofOfIndexingEvent) : string :=
  match e with RemoveEntity _ _ => "RemoveEntity" | SetEntity _ _ _ => "SetEntity" end.

Definition event_stable_hash (e : ProofOfIndexingEvent) (sequence_number : SeqNo) (state : SetHasher)
  : SetHasher :=
  let '(child, sequence_number) := next_child sequence_number in
  let state := hash_str (event_name e) child state in
  match e with
  | RemoveEntity entity_type id =>
      let '(child, sequence_number) := next_child sequence_number in
      let state := hash_str entity_type child state in
      let '(child, _) := next_child sequence_number in
      hash_str id child state
  | SetEntity entity_type id data =>
      let '(child, sequence_number) := next_child sequence_number in
      let state := hash_str entity_type child state in
      let '(child, sequence_number) := next_child sequence_number in
      let state := hash_str id child state in
      let '(child, _) := next_child sequence_number in
      hash_entity data child state
  end.

Definition traverse_seq_no (counts : list Z) : SeqNo :=
  foldl (fun s i => (next_child (skip s i)).1) seq_root counts.

(** ** The stream of a causality region in a block *)
Record BlockEventStream := mk_event_stream {
  vec_length : Z;
  seq_no : SeqNo;
  digest : SetHasher;
}.

(** The block number is an [u64] and [usize] is as wide: its conversion does not
    fail. *)
Definition event_stream_new (block_number : Z) : BlockEventStream :=
  mk_event_stream 0 (traverse_seq_no [1; 0; block_number; 0])%Z hasher_new.

Definition pause (s : BlockEventStream) (prev : option (list Byte.byte)) : list Byte.byte :=
  let state := hash_usize (vec_length s) (seq_no s) (digest s) in
  let state :=
    match prev with
    | Some prev => finish_unordered state (from_bytes prev) seq_root
    | None => state
    end in
  to_bytes state.

Definition event_stream_write (s : BlockEventStream) (event : ProofOfIndexingEvent)
  : BlockEventStream :=
  let '(child, seq_no) := next_child (seq_no s) in
  mk_event_stream (wrap64 (vec_length s + 1)) seq_no (event_stable_hash event child (digest s)).

(** ** A block's streams *)
Record ProofOfIndexing := mk_poi {
  poi_block_number : Z;
  per_causality_region : gmap string BlockEventStream;
}.

Definition poi_new (block_number : Z) : ProofOfIndexing := mk_poi block_number ∅.

Definition poi_write (p : ProofOfIndexing) (causality_region : string) (event : ProofOfIndexingEvent)
  : ProofOfIndexing :=
  match per_causality_region p !! causality_region with
  | Some entry =>
      mk_poi (poi_block_number p)
        (<[causality_region := event_stream_write entry event]> (per_causality_region p))
  | None =>
      let entry := event_stream_write (event_stream_new (poi_block_number p)) event in
      mk_poi (poi_block_number p) (<[causality_region := entry]> (per_causality_region p))
  end.

Definition poi_take (p : ProofOfIndexing) : gmap string BlockEventStream := per_causality_region p.

(** ** Finishing a proof *)
Record ProofOfIndexingFinisher := mk_finisher {
  fin_block_number : Z;
  fin_state : SetHasher;
  causality_count : Z;
}.

(** The bytes of hashes and addresses. *)
Context (h256_bytes : H256 -> list Byte.byte) (h160_bytes : Address -> list Byte.byte).

Definition finisher_new (block : EthereumBlockPointer) (subgraph_id : string)
    (indexer : option Address) : ProofOfIndexingFinisher :=
  let state := hash_str subgraph_id (traverse_seq_no [1]%Z) hasher_new in
  let state := hash_bytes (h256_bytes (ptr_hash block)) (traverse_seq_no [2]%Z) state in
  let state := hash_opt_bytes (h160_bytes <$> indexer) (traverse_seq_no [3]%Z) state in
  mk_finisher (ptr_number block) state 0.

Definition add_causality_region (f : ProofOfIndexingFinisher) (name : string)
    (region : list Byte.byte) : ProofOfIndexingFinisher :=
  let state := from_bytes region in
  let state := hash_usize (wrap64 (fin_block_number f + 1)) (traverse_seq_no [1; 0]%Z) state in
  let state := hash_str name (traverse_seq_no [0]%Z) state in
  let state := hasher_finish state in
  mk_finisher (fin_block_number f)
    (hasher_write (fin_state f) (traverse_seq_no [0; 1]%Z) state)
    (wrap64 (causality_count f + 1)).

Definition finisher_finish (f : ProofOfIndexingFinisher) : list Byte.byte :=
  hasher_finish (hash_usize (causality_count f) (traverse_seq_no [0; 2]%Z) (fin_state f)).
End poi.

(** ** Regions are independent *)
Section regions.
Context {SH : StableHashing}.

Definition poi_writes (p : ProofOfIndexing) (events : list (string * ProofOfIndexingEvent))
  : ProofOfIndexing :=
  foldl (fun p e => poi_write p e.1 e.2) p events.

(** The events of a region, in order. *)
Definition region_events (region : string) (events : list (string * ProofOfIndexingEvent))
  : list ProofOfIndexingEvent :=
  omap (fun e => if String.eqb e.1 region then Some e.2 else None) events.

Definition stream_of (block_number : Z) (old : option BlockEventStream)
    (events : list ProofOfIndexingEvent) : option BlockEventStream :=
  match events with
  | [] => old
  | _ => Some (foldl event_stream_write (default (event_stream_new block_number) old) events)
  end.

Lemma poi_writes_lookup p events region :
  poi_take (poi_writes p events) !! region
  = stream_of (poi_block_number p) (poi_take p !! region) (region_events region events).
Proof.
  revert p. induction events as [|[r e] events IH]; intros p; [done|].
  unfold poi_writes. cbn [foldl fst snd]. fold (poi_writes (poi_write p r e) events). rewrite IH.
  unfold region_events. rewrite omap_cons_eq. cbn [fst snd].
  fold (region_events region events).
  assert (poi_block_number (poi_write p r e) = poi_block_number p) as ->
    by (unfold poi_write; by destruct (_ !! r)).
  unfold poi_write, poi_take. destruct (String.eqb_spec r region) as [->|Hne].
  - destruct (per_causality_region p !! region) as [s|]; cbn; rewrite lookup_insert_eq;
      by destruct (region_events region events).
  - destruct (per_causality_region p !! r); cbn; by rewrite lookup_insert_ne.
Qed.

(** The streams of a block depend on what was written to each region and in
    which order, not on how the writes to different regions interleave. *)
Lemma regions_independent (block_number : Z) (events events' : list (string * ProofOfIndexingEvent)) :
  (forall region, region_events region events = region_events region events') ->
  poi_take (poi_writes (poi_new block_number) events)
  = poi_take (poi_writes (poi_new block_number) events').
Proof. intros H. apply map_eq. intros region. by rewrite !poi_writes_lookup, H. Qed.
End regions.

(** ** A concrete hashing: the set of what was hashed *)
Module Witness.
Definition item : Type := list Z * list Byte.byte.
Definition bytes_of_string : string -> list Byte.byte := String.list_byte_of_string.

Definition hash_with (b : list Byte.byte) (s : list Z) (h : list item) : list item := (s, b) :: h.

#[export] Instance stable_hashing : StableHashing := {|
  SeqNo := list Z;
  seq_root := [];
  next_child := fun s => (0%Z :: s, match s with n :: s => (n + 1)%Z :: s | [] => [1%Z] end);
  skip := fun s n => match s with m :: s => (m + n)%Z :: s | [] => [n] end;
  SetHasher := list item;
  hasher_new := [];
  hasher_write := fun h s b => hash_with b s h;
  finish_unordered := fun h other s => h ++ other;
  hasher_finish := fun h => h ≫= snd;
  to_bytes := fun h => h ≫= snd;
  from_bytes := fun b => [([], b)];
  hash_usize := fun n s h => hash_with (bytes_of_string (pretty n)) s h;
  hash_str := fun t s h => hash_with (bytes_of_string t) s h;
  hash_bytes := fun b s h => hash_with b s h;
  hash_opt_bytes := fun b s h => hash_with (default [] b) s h;
  hash_entity := fun e s h => hash_with (bytes_of_string (String.concat "," (map_to_list e).*1)) s h;
|}.
End Witness.
