(* ===== verification/HostExports.v ===== *)
(** * Host exports: what mappings do to a block

    Models the functions of [runtime/wasm/src/host_exports.rs] and
    [runtime/wasm/src/module/mod.rs] that read or change the state of a block,
    the block state itself ([graph/src/components/subgraph/instance.rs]), the
    arithmetic mappings call the host for, and the mapping thread's handling of
    a request ([runtime/wasm/src/mapping.rs]).

    WebAssembly code is third-party: a handler is the tree of the calls it
    makes, [MappingProgram], whose branches continue with what the host answers.
    Code that runs into the timeout ends in [Trap].  [run_program] runs a tree
    on the state of the block.  [ms_accesses] counts the accesses to the entity
    cache; the code has no such counter, it is there to say how many accesses a
    theorem allows.

    [mapping_refines_map]: a mapping that ends without error has done to the
    block state what it would have done to a map of entities. *)

From stdpp Require Import prelude list strings gmap fin_maps.
From Stdlib Require Import ZArith Lia.
From Stdlib Require Strings.Byte.
From S2P Require Import Prelude.
From S2P Require Import GraphqlTypes.
From S2P Require Import StoreValue.
From S2P Require Import LfuCache.
From S2P Require Import EntityCache.
From S2P Require Import EthTypes.
From S2P Require Import Manifest.
From S2P Require Import Hosts.
From S2P Require Import GraphqlSchema.
From S2P Require Import ProofOfIndexing.

#[local] Open Scope string_scope.
#[local] Open Scope list_scope.

(** ** The state of a block *)
Section block_state.
Context {ME : ManifestEnv} {PQ : PriorityQueue EntityKey (option Entity)}.

Record BlockState := mk_block_state {
  bs_entity_cache : EntityCache;
  bs_created_data_sources : list DataSourceTemplateInfo;
}.

Definition block_state_new (lfu_cache : LfuCache EntityKey (option Entity)) : BlockState :=
  mk_block_state (with_current lfu_cache) [].
End block_state.

Abbreviation SharedProofOfIndexing := (option ProofOfIndexing).

(** ** Services *)

(** [RuntimeStore]: the store and the schemas of deployments. *)
Class RuntimeStore (RtError : Type) := {
  rt_entities : Store;
  input_schema : string -> res RtError Document;
  uses_relational_schema : string -> res RtError bool;
}.
#[export] Existing Instance rt_entities.

Inductive ContractCallError := Revert (reason : string) | Web3Error | OtherCallError.

(** The ABI of contracts beyond [HostEnv], Ethereum nodes, and IPFS. *)
Class RuntimeServices {ME : ManifestEnv} (HE : HostEnv ME) := {
  Json : Type;
  contract_function : Contract -> string -> option AbiFunction;
  functions_by_name : Contract -> string -> option (list (string * AbiFunction));
  contract_call :
    EthereumBlockPointer -> Address -> AbiFunction -> list Token -> res ContractCallError (list Token);
  json_stream : string -> res string (list (res string Json));
}.

Section exports.
Context {ME : ManifestEnv} {HE : HostEnv ME} {SH : StableHashing} {RS : RuntimeServices HE}.
Context `{CacheWeight EntityKey, CacheWeight (option Entity)}.
Context {PQ : PriorityQueue EntityKey (option Entity)}.

(** ** Mappings *)
Record UnresolvedContractCall := mk_unresolved_call {
  uc_contract_name : string;
  uc_contract_address : Address;
  uc_function_name : string;
  uc_function_signature : option string;
  uc_function_args : list Token;
}.

Inductive LogLevel := Critical | LogError | Warning | Info | Debug_.

Inductive MappingProgram :=
| Return
| Trap (message : string)
| Abort_ (message file_name : option string) (line_number column_number : option Z)
| StoreSet (entity id : string) (data : Entity) (k : MappingProgram)
| StoreRemove (entity id : string) (k : MappingProgram)
| StoreGet (entity id : string) (k : option Entity -> MappingProgram)
| EthereumCall_ (call : UnresolvedContractCall) (k : option (list Token) -> MappingProgram)
| DataSourceCreate (name : string) (params : list string) (context : option Entity)
    (k : MappingProgram)
| LogLog (level : LogLevel) (msg : string) (k : MappingProgram)
| IpfsMap (link : string) (callback : Json -> MappingProgram) (flags : list string)
    (k : MappingProgram).

Context {RtError : Type} {RT : RuntimeStore RtError}.
Context (size_of_entry : Z) (ALLOW_NON_DETERMINISTIC_IPFS : bool).

Inductive AbortLocation :=
| UnknownLocation
| AtFile (file_name : string)
| AtLine (file_name : string) (line_number : Z)
| AtColumn (file_name : string) (line_number column_number : Z).

Inductive ExportError :=
| IdConflict (entity_type : string) (v : Value) (entity_id : string)
| ReadFailed (e : RtError)
| CacheFailed (e : QueryExecutionError)
| InvalidEntity (e : EntityError)
| NoAbi (contract : string)
| UnknownFunction (contract function : string) (signature : option string)
| CallFailed (e : ContractCallError)
| NoTemplate (name data_source : string) (available : list string)
| Aborted (location : AbortLocation) (message : option string)
| Trapped (message : string)
| IpfsMapDeprecated
| FlagsMustContainJson
| IpfsMapFailed (message : string)
| DivisionByZero.

(** [MappingError] *)
Inductive MappingError := PossibleReorg (e : ExportError) | Unknown (e : ExportError).

(** ** Calls on the state *)
Definition abort (message file_name : option string) (line_number column_number : option Z)
  : res ExportError () :=
  match file_name, line_number, column_number with
  | None, None, None => Err (Aborted UnknownLocation message)
  | Some file_name, None, None => Err (Aborted (AtFile file_name) message)
  | Some file_name, Some line, None => Err (Aborted (AtLine file_name line) message)
  | Some file_name, Some line, Some column => Err (Aborted (AtColumn file_name line column) message)
  | _, _, _ => Panic
  end.

(** The state of a block while a mapping runs; the proof of indexing is shared
    by all mappings of the block. *)
Record MappingState := mk_mapping_state {
  ms_state : BlockState;
  ms_proof_of_indexing : SharedProofOfIndexing;
  ms_accesses : Z;
}.

Definition set_entity_cache (s : MappingState) (c : EntityCache) (accesses : Z) : MappingState :=
  mk_mapping_state (mk_block_state c (bs_created_data_sources (ms_state s)))
    (ms_proof_of_indexing s) (ms_accesses s + accesses).

Definition write_event (he : HostExports) (s : MappingState) (e : ProofOfIndexingEvent)
  : MappingState :=
  mk_mapping_state (ms_state s)
    ((fun p => poi_write p (he_causality_region he) e) <$> ms_proof_of_indexing s) (ms_accesses s).

Definition entity_cache_of (s : MappingState) : EntityCache := bs_entity_cache (ms_state s).

Definition export_key (he : HostExports) (entity_type entity_id : string) : EntityKey :=
  mk_key (he_subgraph_id he) entity_type entity_id.

Definition id_conflicts (data : Entity) (entity_id : string) : option Value :=
  match data !! "id" with
  | Some (VString s) => if String.eqb s entity_id then None else Some (VString s)
  | v => v
  end.

(** Validity is checked on the data alone first, and only if that fails on the
    entity with the changes. *)
Definition store_set (he : HostExports) (s : MappingState) (entity_type entity_id : string)
    (data : Entity) : res ExportError MappingState :=
  let s := write_event he s (SetEntity entity_type entity_id data) in
  match id_conflicts data entity_id with
  | Some v => Err (IdConflict entity_type v entity_id)
  | None =>
      let data := <["id" := VString entity_id]> data in
      let key := export_key he entity_type entity_id in
      let? schema := map_err ReadFailed (input_schema (he_subgraph_id he)) in
      match validate_entity schema key data with
      | Panic => Panic
      | valid =>
          let '(cache, r) := cache_set size_of_entry (entity_cache_of s) key data in
          let? _ := map_err CacheFailed r in
          let s := set_entity_cache s cache 1 in
          if is_ok valid then Ok s else
          let? relational := map_err ReadFailed (uses_relational_schema (he_subgraph_id he)) in
          if negb relational then Ok s else
          let '(cache, r) := cache_get size_of_entry (entity_cache_of s) key in
          let? entity := map_err CacheFailed r in
          let? entity := unwrap entity in
          let? _ := map_err InvalidEntity (validate_entity schema key entity) in
          Ok (set_entity_cache s cache 1)
      end
  end.

Definition store_remove (he : HostExports) (s : MappingState) (entity_type entity_id : string)
  : MappingState :=
  let s := write_event he s (RemoveEntity entity_type entity_id) in
  set_entity_cache s (cache_remove (entity_cache_of s) (export_key he entity_type entity_id)) 0.

Definition export_store_get (he : HostExports) (s : MappingState) (entity_type entity_id : string)
  : res ExportError (MappingState * option Entity) :=
  let '(cache, r) := cache_get size_of_entry (entity_cache_of s) (export_key he entity_type entity_id) in
  let? entity := map_err CacheFailed r in
  Ok (set_entity_cache s cache 1, entity).

Definition data_source_create (he : HostExports) (s : MappingState) (name : string)
    (params : list string) (context : option Entity) : res ExportError MappingState :=
  let? template :=
    ok_or (snd <$> list_find (fun template => dt_name template = name) (he_templates he))
      (NoTemplate name (he_data_source_name he) (dt_name <$> he_templates he)) in
  let info := mk_template_info (he_data_source_name he) template params context in
  Ok (mk_mapping_state
        (mk_block_state (entity_cache_of s) (bs_created_data_sources (ms_state s) ++ [info]))
        (ms_proof_of_indexing s) (ms_accesses s)).

(** ** Contract calls *)
Definition resolve_function (he : HostExports) (call : UnresolvedContractCall)
  : res ExportError AbiFunction :=
  let? abi := ok_or
    (snd <$> list_find (fun abi => abi_name abi = uc_contract_name call) (he_abis he))
    (NoAbi (uc_contract_name call)) in
  let contract := abi_contract abi in
  let unknown :=
    UnknownFunction (uc_contract_name call) (uc_function_name call) (uc_function_signature call) in
  match uc_function_signature call with
  | None => ok_or (contract_function contract (uc_function_name call)) unknown
  | Some function_signature =>
      let? functions := ok_or (functions_by_name contract (uc_function_name call)) unknown in
      match list_find (fun f => function_signature = fst f) functions with
      | Some (_, (_, function)) => Ok function
      | None => Err unknown
      end
  end.

(** [None] for a call that was reverted.  Building the call takes the pointer
    of the block, which unwraps its hash and number. *)
Definition ethereum_call (he : HostExports) (block : LightEthereumBlock)
    (call : UnresolvedContractCall) : res MappingError (option (list Token)) :=
  let? function := map_err Unknown (resolve_function he call) in
  let? block_ptr := lift_panic (ptr_of_block block) in
  match contract_call block_ptr (uc_contract_address call) function (uc_function_args call) with
  | Ok tokens => Ok (Some tokens)
  | Err (Revert _) => Ok None
  | Err Web3Error => Err (PossibleReorg (CallFailed Web3Error))
  | Err e => Err (Unknown (CallFailed e))
  | Panic => Panic
  end.

(** ** Running a mapping *)

(** The state callbacks of [ipfs.map] start from: an empty block state and the
    shared proof of indexing. *)
Definition derive_with_empty_block_state (s : MappingState) : MappingState :=
  mk_mapping_state (block_state_new LfuCache.new) (ms_proof_of_indexing s) (ms_accesses s).

Definition extend_state (s : MappingState) (output_state : BlockState) : res ExportError MappingState :=
  let n := Z.of_nat (size (updates (bs_entity_cache output_state))) in
  let '(cache, r) :=
    cache_extend size_of_entry (entity_cache_of s) (bs_entity_cache output_state) in
  let? _ := map_err CacheFailed r in
  Ok (mk_mapping_state
        (mk_block_state cache
           (bs_created_data_sources (ms_state s) ++ bs_created_data_sources output_state))
        (ms_proof_of_indexing s) (ms_accesses s + n)).

Definition with_shared (s t : MappingState) : MappingState :=
  mk_mapping_state (ms_state s) (ms_proof_of_indexing t) (ms_accesses t).

(** The callbacks run one after the other, each on the next value; all errors
    of a callback become ordinary errors. *)
Definition ipfs_step (run : Json -> MappingState -> res MappingError MappingState)
    (s : MappingState * list BlockState) (value : res string Json)
  : res ExportError (MappingState * list BlockState) :=
  let? value := map_err IpfsMapFailed value in
  match run value (derive_with_empty_block_state s.1) with
  | Ok out => Ok (with_shared s.1 out, s.2 ++ [ms_state out])
  | Err (PossibleReorg _) | Err (Unknown _) => Err (IpfsMapFailed "callback failed")
  | Panic => Panic
  end.

Definition ipfs_map (run : Json -> MappingState -> res MappingError MappingState) (link : string)
    (flags : list string) (s : MappingState) : res ExportError MappingState :=
  if negb ALLOW_NON_DETERMINISTIC_IPFS then Err IpfsMapDeprecated else
  if negb (bool_decide ("json" ∈ flags)) then Err FlagsMustContainJson else
  let? values := map_err IpfsMapFailed (json_stream link) in
  let? x := fold_res (ipfs_step run) (s, []) values in
  fold_res extend_state x.1 x.2.

Fixpoint run_program (he : HostExports) (block : LightEthereumBlock) (p : MappingProgram)
    (s : MappingState) : res MappingError MappingState :=
  match p with
  | Return => Ok s
  | Trap message => Err (Unknown (Trapped message))
  | Abort_ message file_name line_number column_number =>
      match map_err Unknown (abort message file_name line_number column_number) with
      | Err e => Err e
      | _ => Panic
      end
  | StoreSet entity id data k =>
      let? s := map_err Unknown (store_set he s entity id data) in
      run_program he block k s
  | StoreRemove entity id k => run_program he block k (store_remove he s entity id)
  | StoreGet entity id k =>
      let? x := map_err Unknown (export_store_get he s entity id) in
      run_program he block (k x.2) x.1
  | EthereumCall_ call k =>
      let? tokens := ethereum_call he block call in
      run_program he block (k tokens) s
  | DataSourceCreate name params context k =>
      let? s := map_err Unknown (data_source_create he s name params context) in
      run_program he block k s
  | LogLog level _ k =>
      match level with Critical => Panic | _ => run_program he block k s end
  | IpfsMap link callback flags k =>
      let? s := map_err Unknown
        (ipfs_map (fun value s => run_program he block (callback value) s) link flags s) in
      run_program he block k s
  end.
End exports.

(** ** What a mapping means for a map of entities *)
Section meaning.
Context {ME : ManifestEnv} {HE : HostEnv ME} {SH : StableHashing} {RS : RuntimeServices HE}.
Context `{CacheWeight EntityKey, CacheWeight (option Entity)}.
Context {PQ : PriorityQueue EntityKey (option Entity)}.
Context {RtError : Type} {RT : RuntimeStore RtError} (size_of_entry : Z).
Context (S : gmap EntityKey Entity) {SL : StoreLaws (ST := rt_entities) S}.
Context (he : HostExports) (block : LightEthereumBlock).
Implicit Types (W : gmap EntityKey Entity) (s : MappingState) (p : MappingProgram).

Abbreviation run := (run_program size_of_entry false he block).

(** A change is accepted when the data is valid for the schema, the schema is
    not relational, or the entity it leads to is valid. *)
Definition accepted (key : EntityKey) (data : Entity) W : Prop :=
  exists schema, input_schema (he_subgraph_id he) = Ok schema
  /\ (validate_entity schema key data = Ok ()
      \/ uses_relational_schema (he_subgraph_id he) = Ok false
      \/ exists e, visible (Some e) (W !! key) /\ validate_entity schema key e = Ok ()).

(** [meaning p W W' es cs]: on the map [W] the program leaves [W'], emits the
    events [es] and creates the data sources [cs]. *)
Inductive meaning : MappingProgram -> gmap EntityKey Entity -> gmap EntityKey Entity ->
    list ProofOfIndexingEvent -> list DataSourceTemplateInfo -> Prop :=
| meaning_return W : meaning Return W W [] []
| meaning_set entity id data k W W' es cs :
    let key := export_key he entity id in
    let new := set_spec W key (<["id" := VString id]> data) in
    id_conflicts data id = None -> accepted key (<["id" := VString id]> data) new ->
    meaning k new W' es cs ->
    meaning (StoreSet entity id data k) W W' (SetEntity entity id data :: es) cs
| meaning_remove entity id k W W' es cs :
    meaning k (delete (export_key he entity id) W) W' es cs ->
    meaning (StoreRemove entity id k) W W' (RemoveEntity entity id :: es) cs
| meaning_get entity id k r W W' es cs :
    visible r (W !! export_key he entity id) -> meaning (k r) W W' es cs ->
    meaning (StoreGet entity id k) W W' es cs
| meaning_call call k tokens W W' es cs :
    ethereum_call (RtError := RtError) he block call = Ok tokens -> meaning (k tokens) W W' es cs ->
    meaning (EthereumCall_ call k) W W' es cs
| meaning_create name params context template k W W' es cs :
    template ∈ he_templates he -> dt_name template = name -> meaning k W W' es cs ->
    meaning (DataSourceCreate name params context k) W W' es
      (mk_template_info (he_data_source_name he) template params context :: cs)
| meaning_log level msg k W W' es cs :
    level <> Critical -> meaning k W W' es cs -> meaning (LogLog level msg k) W W' es cs.

(** *** Single calls *)
Definition events_written (es : list ProofOfIndexingEvent) (o : SharedProofOfIndexing)
  : SharedProofOfIndexing :=
  (fun q => poi_writes q ((fun e => (he_causality_region he, e)) <$> es)) <$> o.

Lemma events_written_nil o : events_written [] o = o.
Proof. by destruct o. Qed.

Lemma events_written_cons e es o :
  events_written (e :: es) o
  = events_written es ((fun q => poi_write q (he_causality_region he) e) <$> o).
Proof. by destruct o. Qed.

Lemma id_conflicts_none data id :
  id_conflicts data id = None <-> data !! "id" = None \/ data !! "id" = Some (VString id).
Proof.
  unfold id_conflicts. destruct (data !! "id") as [v|]; [|tauto]. destruct v as [s|?|?|?|?|?| |?];
    try naive_solver.
  destruct (String.eqb_spec s id); naive_solver.
Qed.

Lemma cache_set_result c key e c1 W n m :
  cache_set size_of_entry c key e = (c1, Ok tt) -> (0 <= n)%Z -> (m < 2 ^ 64 - 1)%Z -> m = (n + 1)%Z ->
  implements S c W m -> implements S c1 (set_spec W key e) n.
Proof.
  intros Hc Hn Hm -> Hi.
  destruct (cache_set_implements size_of_entry S c W key e n) as (c' & Hc' & Hi'); [lia|done|].
  rewrite Hc in Hc'. by injection Hc' as <-.
Qed.

Lemma cache_get_result c key c1 r W n m :
  cache_get size_of_entry c key = (c1, Ok r) -> (0 <= n)%Z -> (m < 2 ^ 64 - 1)%Z -> m = (n + 1)%Z ->
  implements S c W m -> visible r (W !! key) /\ implements S c1 W n.
Proof.
  intros Hc Hn Hm -> Hi.
  destruct (cache_get_implements size_of_entry S c W key n) as (c' & r' & Hc' & Hv & Hi'); [lia|done|].
  rewrite Hc in Hc'. by injection Hc' as <- <-.
Qed.

Lemma store_set_spec s entity id data s1 W n :
  store_set size_of_entry he s entity id data = Ok s1 ->
  let key := export_key he entity id in
  let data' := <["id" := VString id]> data in
  (ms_accesses s + 1 <= ms_accesses s1)%Z
  /\ id_conflicts data id = None
  /\ ms_proof_of_indexing s1 = events_written [SetEntity entity id data] (ms_proof_of_indexing s)
  /\ bs_created_data_sources (ms_state s1) = bs_created_data_sources (ms_state s)
  /\ ((0 <= n)%Z -> (n + (ms_accesses s1 - ms_accesses s) < 2 ^ 64 - 1)%Z ->
      implements S (entity_cache_of s) W (n + (ms_accesses s1 - ms_accesses s)) ->
      accepted key data' (set_spec W key data')
      /\ implements S (entity_cache_of s1) (set_spec W key data') n).
Proof.
  intros H1 key data'. unfold store_set in H1. cbv zeta in H1.
  set (s0 := write_event he s (SetEntity entity id data)) in *.
  assert (Hp : ms_proof_of_indexing s0
               = events_written [SetEntity entity id data] (ms_proof_of_indexing s)).
  { rewrite events_written_cons, events_written_nil. done. }
  destruct (id_conflicts data id) eqn:Hid; [done|]. fold key data' in H1.
  destruct (input_schema (he_subgraph_id he)) as [schema| |] eqn:Hs; try done.
  cbn [map_err res_bind] in H1. change (entity_cache_of s0) with (entity_cache_of s) in H1.
  destruct (validate_entity schema key data') as [[]|e|] eqn:Hv; [| |done];
    destruct (cache_set size_of_entry (entity_cache_of s) key data') as [c1 [[]| |]] eqn:Hc;
    try done; cbn [map_err res_bind is_ok] in H1.
  { injection H1 as <-. cbn. split_and!; [lia|done|done|done|]. intros Hn Hm Hi.
    split; [exists schema; auto|]. eapply cache_set_result; [done..| |done]. lia. }
  destruct (uses_relational_schema _) as [rel| |] eqn:Hr; try done.
  cbn [map_err res_bind] in H1. destruct rel; cbn [negb] in H1.
  - change (entity_cache_of (set_entity_cache s0 c1 1)) with c1 in H1.
    destruct (cache_get size_of_entry c1 key) as [c2 [[r|]| |]] eqn:Hg; try done;
      cbn [map_err res_bind unwrap] in H1; try done.
    destruct (validate_entity schema key r) as [[]| |] eqn:Hv2; try done.
    cbn [map_err res_bind] in H1. injection H1 as <-. cbn. split_and!; [lia|done|done|done|].
    intros Hn Hm Hi.
    assert (Hi1 : implements S c1 (set_spec W key data') (n + 1)).
    { eapply cache_set_result; [done|lia|exact Hm|lia|done]. }
    destruct (cache_get_result _ _ _ _ _ n (n + 1) Hg Hn ltac:(lia) eq_refl Hi1) as [Hvis Hi2].
    split; [|done]. exists schema. eauto 10.
  - injection H1 as <-. cbn. split_and!; [lia|done|done|done|]. intros Hn Hm Hi.
    split; [exists schema; auto|]. eapply cache_set_result; [done..| |done]. lia.
Qed.

Lemma store_get_spec s entity id s1 r W n :
  export_store_get size_of_entry he s entity id = Ok (s1, r) ->
  ms_accesses s1 = (ms_accesses s + 1)%Z
  /\ ms_proof_of_indexing s1 = ms_proof_of_indexing s
  /\ bs_created_data_sources (ms_state s1) = bs_created_data_sources (ms_state s)
  /\ ((0 <= n)%Z -> (n + 1 < 2 ^ 64 - 1)%Z -> implements S (entity_cache_of s) W (n + 1) ->
      visible r (W !! export_key he entity id) /\ implements S (entity_cache_of s1) W n).
Proof.
  unfold export_store_get.
  destruct (cache_get size_of_entry _ _) as [c1 [r1| |]] eqn:Hg; try done.
  cbn [map_err res_bind]. intros [= <- <-]. cbn. split_and!; [done..|]. intros Hn Hm Hi.
  by eapply cache_get_result.
Qed.

Lemma data_source_create_spec s name params context s1 :
  data_source_create (RtError := RtError) he s name params context = Ok s1 ->
  exists template, template ∈ he_templates he /\ dt_name template = name
  /\ s1 = mk_mapping_state
            (mk_block_state (entity_cache_of s)
               (bs_created_data_sources (ms_state s)
                ++ [mk_template_info (he_data_source_name he) template params context]))
            (ms_proof_of_indexing s) (ms_accesses s).
Proof.
  unfold data_source_create. destruct (list_find _ _) as [[i template]|] eqn:E; [|done].
  apply list_find_elem in E as [? ?]. cbn. intros [= <-]. eauto.
Qed.

Lemma run_accesses p s s' : run p s = Ok s' -> (ms_accesses s <= ms_accesses s')%Z.
Proof.
  revert s. induction p as [|m|m f l c|entity id data k IH|entity id k IH|entity id k IH|call k IH
    |name params context k IH|level msg k IH|link callback _ flags k IH]; intros s; cbn.
  - by intros [= <-].
  - done.
  - by destruct (abort _ _ _ _) as [[]| |].
  - destruct (store_set _ _ _ _ _ _) as [s1| |] eqn:E; try done. intros Hr%IH.
    destruct (store_set_spec _ _ _ _ _ ∅ 0 E) as [? _]. lia.
  - intros Hr%IH. cbn in Hr. lia.
  - destruct (export_store_get _ _ _ _ _) as [[s1 r]| |] eqn:E; try done. intros Hr%IH.
    destruct (store_get_spec _ _ _ _ _ ∅ 0 E) as [? _]. cbn in Hr. lia.
  - destruct (ethereum_call _ _ _) as [tokens| |]; try done. apply IH.
  - destruct (data_source_create _ _ _ _ _) as [s1| |] eqn:E; try done. intros Hr%IH.
    apply data_source_create_spec in E as (? & _ & _ & ->). done.
  - destruct level; try done; apply IH.
  - done.
Qed.

(** *** Refinement *)
Ltac same_budget Hi :=
  match type of Hi with implements _ _ _ ?m =>
    match goal with |- implements _ _ _ ?m' => replace m' with m by (cbn; lia); exact Hi end
  end.

Lemma run_refines p s s' W n :
  run p s = Ok s' -> (0 <= n)%Z -> (n + (ms_accesses s' - ms_accesses s) < 2 ^ 64 - 1)%Z ->
  implements S (entity_cache_of s) W (n + (ms_accesses s' - ms_accesses s)) ->
  exists W' es cs, meaning p W W' es cs
  /\ implements S (entity_cache_of s') W' n
  /\ ms_proof_of_indexing s' = events_written es (ms_proof_of_indexing s)
  /\ bs_created_data_sources (ms_state s') = bs_created_data_sources (ms_state s) ++ cs.
Proof.
  revert s W. induction p as [|m|m f l c|entity id data k IH|entity id k IH|entity id k IH|call k IH
    |name params context k IH|level msg k IH|link callback _ flags k IH]; intros s W; cbn.
  - intros [= <-] Hn Hm Hi. exists W, [], []. split; [constructor|].
    rewrite events_written_nil, app_nil_r. split; [|done].
    by replace (n + (ms_accesses s - ms_accesses s))%Z with n in Hi by lia.
  - done.
  - by destruct (abort _ _ _ _) as [[]| |].
  - destruct (store_set _ _ _ _ _ _) as [s1| |] eqn:E; try done. intros Hr Hn Hm Hi.
    pose proof (run_accesses _ _ _ Hr) as Ha.
    destruct (store_set_spec _ _ _ _ _ W (n + (ms_accesses s' - ms_accesses s1)) E)
      as (Ha1 & Hid & Hp & Hcs & Himp).
    destruct Himp as [Hacc Hi1]; [lia|lia| |].
    { same_budget Hi. }
    destruct (IH _ _ Hr Hn ltac:(lia) Hi1) as (W' & es & cs & Hmean & Hi' & Hp' & Hcs').
    exists W', (SetEntity entity id data :: es), cs. split; [by constructor|]. split; [done|].
    rewrite Hp', Hp, !events_written_cons, events_written_nil, Hcs', Hcs. done.
  - intros Hr Hn Hm Hi. destruct (IH _ (delete (export_key he entity id) W) Hr Hn)
      as (W' & es & cs & Hmean & Hi' & Hp' & Hcs').
    + cbn. lia.
    + cbn. apply cache_remove_implements. same_budget Hi.
    + exists W', (RemoveEntity entity id :: es), cs. split; [by constructor|]. split; [done|].
      by rewrite Hp', Hcs', events_written_cons.
  - destruct (export_store_get _ _ _ _ _) as [[s1 r]| |] eqn:E; try done. cbn. intros Hr Hn Hm Hi.
    pose proof (run_accesses _ _ _ Hr) as Ha.
    destruct (store_get_spec _ _ _ _ _ W (n + (ms_accesses s' - ms_accesses s1)) E)
      as (Ha1 & Hp & Hcs & Himp).
    destruct Himp as [Hvis Hi1]; [lia|lia| |].
    { same_budget Hi. }
    destruct (IH _ _ _ Hr Hn ltac:(lia) Hi1) as (W' & es & cs & Hmean & Hi' & Hp' & Hcs').
    exists W', es, cs. split; [by econstructor|]. split; [done|]. by rewrite Hp', Hp, Hcs', Hcs.
  - destruct (ethereum_call _ _ _) as [tokens| |] eqn:E; try done. intros Hr Hn Hm Hi.
    destruct (IH _ _ _ Hr Hn Hm Hi) as (W' & es & cs & Hmean & ?).
    exists W', es, cs. split; [by econstructor|done].
  - destruct (data_source_create _ _ _ _ _) as [s1| |] eqn:E; try done. intros Hr Hn Hm Hi.
    apply data_source_create_spec in E as (template & Hin & Hname & ->).
    destruct (IH _ W Hr Hn Hm Hi) as (W' & es & cs & Hmean & Hi' & Hp' & Hcs').
    exists W', es. eexists. split; [by eapply meaning_create|]. split; [done|].
    rewrite Hp', Hcs'. cbn. by rewrite <- app_assoc.
  - destruct level; try done; intros Hr Hn Hm Hi;
      destruct (IH _ _ Hr Hn Hm Hi) as (W' & es & cs & Hmean & ?);
      exists W', es, cs; (split; [by constructor|done]).
  - done.
Qed.

Lemma meaning_isolated p W W' es cs k :
  meaning p W W' es cs -> subgraph_id k <> he_subgraph_id he -> W' !! k = W !! k.
Proof.
  intros Hm Hk. induction Hm as [|entity id data q W W' es cs key new Hid Hacc Hm IH
    |entity id q W W' es cs Hm IH| | | |]; try done.
  - rewrite IH. unfold new, set_spec. apply lookup_insert_ne. intros <-. by apply Hk.
  - rewrite IH. apply lookup_delete_ne. intros <-. by apply Hk.
Qed.

(** C10: A mapping that ends without error, run without
    [ALLOW_NON_DETERMINISTIC_IPFS] (so that [ipfs.map] fails), has done to the
    state of the block what its calls mean for a map of entities, as long as it
    accesses no entity 2^64 times: it read the entities the map held, left a cache that stands for
    the map with its accepted changes applied, appended the events of its
    changes in order to the region of its data source, and appended the data
    sources it created.  It changed no entity of another deployment. *)
Theorem mapping_refines_map p s s' W n :
  run p s = Ok s' -> (0 <= n)%Z ->
  let accesses := (ms_accesses s' - ms_accesses s)%Z in
  (n + accesses < 2 ^ 64 - 1)%Z -> implements S (entity_cache_of s) W (n + accesses) ->
  exists W' es cs, meaning p W W' es cs
  /\ implements S (entity_cache_of s') W' n
  /\ ms_proof_of_indexing s' = events_written es (ms_proof_of_indexing s)
  /\ bs_created_data_sources (ms_state s') = bs_created_data_sources (ms_state s) ++ cs
  /\ (forall k, subgraph_id k <> he_subgraph_id he -> W' !! k = W !! k).
Proof.
  intros Hr Hn accesses Hm Hi.
  destruct (run_refines _ _ _ _ _ Hr Hn Hm Hi) as (W' & es & cs & Hmean & Hi' & Hp & Hcs).
  exists W', es, cs. do 4 (split; [done|]). intros k. by apply (meaning_isolated _ _ _ _ _ k Hmean).
Qed.
End meaning.

(** ** Witnesses *)
Module Witness.
Import Manifest.Witness.
Import EthFilters.Witness.
Import Hosts.Witness.
Import ProofOfIndexing.Witness.
#[export] Existing Instance text_env.
#[export] Existing Instance thread_env.
#[export] Existing Instance scan_queue.

#[export] Instance services : RuntimeServices thread_env := {|
  Json := string;
  contract_function := fun _ f => Some f;
  functions_by_name := fun _ f => Some [(f, f)];
  contract_call := fun _ address _ args =>
    if Z.eqb address 5 then Err Web3Error else Ok args;
  json_stream := fun link => Ok [Ok link];
|}.

#[export] Instance key_weight : CacheWeight EntityKey :=
  fun k => Z.of_nat (String.length (key_entity_id k)).
#[export] Instance entity_weight : CacheWeight (option Entity) :=
  fun e => match e with Some e => Z.of_nat (size e) | None => 0%Z end.

Definition cat : EntityKey := mk_key "sub" "Pet" "cat".
Definition cat_entity : Entity := {["id" := VString "cat"; "name" := VString "Tom"]}.
Definition pets : gmap EntityKey Entity := {[cat := cat_entity]}.

#[export] Instance runtime_store : RuntimeStore string := {|
  rt_entities := MapStore.store pets;
  input_schema := fun _ => Ok GraphqlSchema.Witness.schema;
  uses_relational_schema := fun _ => Ok true;
|}.

#[export] Instance runtime_laws : StoreLaws (ST := rt_entities) pets :=
  MapStore.store_laws pets (proj2 (map_Forall_singleton _ _ _) eq_refl).

Definition pet_template : DataSourceTemplate :=
  let m := ds_mapping d1 in mk_template "ethereum/contract" (Some "mainnet") "Pet" (mk_template_source "abi") m.

Definition exports : HostExports :=
  host_exports_new "sub" "0.0.4" "Pets" (Some 1%Z) "mainnet" None [pet_template] [].

(** Renames the cat, gives it the tags it did not have, adopts a dog and
    watches its contract. *)
Definition rename : MappingProgram :=
  StoreGet "Pet" "cat" (fun e =>
    match e with
    | Some _ =>
        StoreSet "Pet" "cat" {["tags" := VList [VString "red"]]}
          (StoreSet "Pet" "dog" {["name" := VString "Rex"]}
             (DataSourceCreate "Pet" ["0x01"] None Return))
    | None => Trap "no cat"
    end).

Definition start : MappingState :=
  mk_mapping_state (block_state_new LfuCache.new) (Some (poi_new 7)) 0.

Lemma start_implements n : implements pets (entity_cache_of start) pets n.
Proof.
  split; [|split].
  - split; [split; [done|apply map_Forall_empty]|].
    intros k v. cbn. rewrite lookup_fmap, lookup_empty. done.
  - apply map_Forall_empty.
  - intros k. cbn. rewrite lookup_empty. reflexivity.
Qed.

Definition finish : MappingState :=
  match run_program (RT := runtime_store) 8 false exports block rename start with
  | Ok s => s
  | _ => start
  end.

Lemma rename_runs : run_program (RT := runtime_store) 8 false exports block rename start = Ok finish.
Proof.
  assert (Hok : is_ok (run_program (RT := runtime_store) 8 false exports block rename start) = true)
    by (vm_compute; reflexivity).
  unfold finish. by destruct (run_program _ _ _ _ _ _).
Qed.

Lemma finish_accesses : ms_accesses finish = 4%Z.
Proof. vm_compute. reflexivity. Qed.

Lemma mapping_refines_map_witness :
  exists W' es cs,
    meaning exports block rename pets W' es cs
    /\ implements pets (entity_cache_of finish) W' 0
    /\ ms_proof_of_indexing finish = events_written exports es (Some (poi_new 7))
    /\ bs_created_data_sources (ms_state finish) = [] ++ cs
    /\ forall k, subgraph_id k <> "sub" -> W' !! k = pets !! k.
Proof.
  apply (mapping_refines_map 8 pets exports block rename start finish pets 0).
  - apply rename_runs.
  - lia.
  - rewrite finish_accesses. cbn. lia.
  - apply start_implements.
Defined.
End Witness.
