(* ===== verification/InstanceManager.v ===== *)
(** * The instance manager

    Models [core/src/subgraph/instance_manager.rs]: how a running subgraph
    processes the blocks of its stream.  The triggers of a block run in the
    hosts of the subgraph's instance over a block state (the entity cache and
    the data sources created so far); created data sources are instantiated,
    stored and run on the same block until no more are created; then the cache
    is turned into modifications, which go to the store in one transaction.

    The store is the class [SubgraphStore].  A handler is a [MappingProgram] of
    [HostExports]; [MappingThread] embeds the states and errors of running one
    into those of [Hosts].  Starting and stopping a subgraph, its run over the
    items of the block stream ([run_step]) and the cancelation of the stream
    ([graph/src/ext/futures.rs]) are at the end.  Metrics, loggers and
    stopwatches are left out. *)

From stdpp Require Import prelude list strings gmap fin_maps.
From Stdlib Require Import ZArith Lia.
From Stdlib Require Strings.Byte.
From S2P Require Import Prelude.
From S2P Require Import GraphqlTypes.
From S2P Require Import StoreValue.
From S2P Require Import LfuCache.
From S2P Require Import EntityCache.
From S2P Require Import EthTypes.
From S2P Require Import Manifest.
From S2P Require Import EthFilters.
From S2P Require Import Triggers.
From S2P Require Import Hosts.
From S2P Require Import StoreEvents.
From S2P Require Import Metadata.
From S2P Require Import MetadataEntities.
From S2P Require Import ProofOfIndexing.
From S2P Require Import HostExports.

#[local] Open Scope string_scope.
#[local] Open Scope list_scope.

(** ** Interfaces *)
Class SubgraphStore := {
  DB : Type;
  DBError : Type;
  runtime_of : DB -> RuntimeStore DBError;
  supports_proof_of_indexing : DB -> string -> res DBError bool;
  transact_block_operations :
    DB -> string -> EthereumBlockPointer -> list EntityModification -> res DBError (DB * bool);
  migrate_subgraph_deployment : DB -> string -> EthereumBlockPointer -> DB;
  apply_metadata_operations : DB -> list MetadataOperation -> res DBError DB;
  start_subgraph_deployment : DB -> string -> list MetadataOperation -> res DBError DB;
  (** the metadata queries for a deployment's health and its errors *)
  query_health : DB -> string -> res DBError qvalue;
  query_non_fatal_errors : DB -> string -> res DBError qvalue;
}.

Definition entities_of {SS : SubgraphStore} (db : DB) : Store := rt_entities (RuntimeStore := runtime_of db).

(** What the instance manager relies on: the lookups answer from a map of
    entities, a transaction applies the modifications to it, and preparing a
    migration does not change entities. *)
Class SubgraphStoreLaws (SS : SubgraphStore) := {
  view : DB -> gmap EntityKey Entity;
  lookups_answer db : StoreLaws (ST := entities_of db) (view db);
  transact_applies db id ptr mods db' migrate :
    transact_block_operations db id ptr mods = Ok (db', migrate) -> view db' = apply_mods (view db) mods;
  migrate_keeps db id ptr : view (migrate_subgraph_deployment db id ptr) = view db;
}.

(** The states and errors mapping threads work with are those of running a
    mapping; a thread that panics is gone, and its requests fail. *)
Class MappingThread {ME : ManifestEnv} (HE : HostEnv ME) {SH : StableHashing}
    {PQ : PriorityQueue EntityKey (option Entity)} {RS : RuntimeServices HE} (E : Type) := {
  of_state : MappingState -> St;
  to_state : St -> MappingState;
  to_of s : to_state (of_state s) = s;
  mapping_failed : MappingError (RtError := E) -> SendError;
  mapping_terminated : SendError;
  possible_reorg : SendError -> bool;
  reorg_iff e : possible_reorg (mapping_failed e)
                = match e with PossibleReorg _ => true | Unknown _ => false end;
  terminated_no_reorg : possible_reorg mapping_terminated = false;
}.

Section manager.
Context {ME : ManifestEnv} {HE : HostEnv ME} {SH : StableHashing} {RS : RuntimeServices HE}.
Context {SS : SubgraphStore}.
Context `{CacheWeight EntityKey, CacheWeight (option Entity)}.
Context {PQ : PriorityQueue EntityKey (option Entity)}.
Context {TH : MappingThread HE DBError}.
Context {G : Type} `{GM : GraphMap LogFilterNode G} `{EA : EthereumAdapter G}.
Context {STX : ScalarText} {MT : MetadataText}.
Context (size_of_entry : Z).
(** Configuration, and the random ids: the [n]th is [new_v4 n]. *)
Context (MAX_DATA_SOURCES : option nat) (ENTITY_CACHE_SIZE : Z) (new_v4 : nat -> string).
Context (ALLOW_NON_DETERMINISTIC_IPFS : bool).
(** The code of the handlers: [None] if the module has no such function. *)
Context (handler_program :
  Sender -> string -> MappingTrigger -> LightEthereumBlock -> option MappingProgram).
(** The order in which a hash map is drained. *)
Context (drain : gmap string BlockEventStream -> list (string * BlockEventStream)).

Record IndexingInputs := mk_inputs {
  in_deployment_id : string;
  in_network_name : string;
  in_start_blocks : list Z;
  in_include_calls_in_blocks : bool;
  in_top_level_templates : list DataSourceTemplate;
}.

Record IndexingState := mk_state {
  ix_instance : SubgraphInstance;
  ix_log_filter : EthereumLogFilter G;
  ix_call_filter : EthereumCallFilter;
  ix_block_filter : EthereumBlockFilter;
  ix_entity_lfu_cache : LfuCache EntityKey (option Entity);
  ix_next_id : nat;
}.

Record IndexingContext := mk_indexing_context { inputs : IndexingInputs; state : IndexingState }.

Definition set_instance (c : IndexingContext) (i : SubgraphInstance) : IndexingContext :=
  mk_indexing_context (inputs c)
    (mk_state i (ix_log_filter (state c)) (ix_call_filter (state c)) (ix_block_filter (state c))
       (ix_entity_lfu_cache (state c)) (ix_next_id (state c))).

Definition set_cache (c : IndexingContext) (cache : LfuCache EntityKey (option Entity))
  : IndexingContext :=
  mk_indexing_context (inputs c)
    (mk_state (ix_instance (state c)) (ix_log_filter (state c)) (ix_call_filter (state c))
       (ix_block_filter (state c)) cache (ix_next_id (state c))).

Inductive ProcessError :=
| FromHost (e : HostError)
| FromTemplate (e : TemplateError)
| FromTriggers (e : BlocksError)
| FromCache (e : QueryExecutionError)
| FromStore (e : DBError).

(** [CancelableError] *)
Inductive CancelableError := Cancel | Failure_ (e : ProcessError).

(** [MappingError::PossibleReorg] *)
Definition is_possible_reorg (e : HostError) : bool :=
  match e with MappingFailed e => possible_reorg e | _ => false end.

(** ** The mapping thread *)
Definition run_mapping (db : DB) (h : RuntimeHost) (handler : string) (t : MappingTrigger)
    (b : LightEthereumBlock) (s : St) : res SendError St :=
  match handler_program (rh_sender h) handler t b with
  | None => Err (mapping_failed (Unknown (Trapped ("function " +:+ handler +:+ " not found"))))
  | Some program =>
      match run_program (RT := runtime_of db) size_of_entry ALLOW_NON_DETERMINISTIC_IPFS
              (rh_host_exports h) b program (to_state s) with
      | Ok s => Ok (of_state s)
      | Err e => Err (mapping_failed e)
      | Panic => Err mapping_terminated
      end
  end.

(** ** Triggers *)
Definition process_triggers (db : DB) (instance : SubgraphInstance) (block : LightEthereumBlock)
    (triggers : list EthereumTrigger) (s : St) : res HostError St :=
  fold_res (fun s trigger => process_trigger (run_mapping db) instance block trigger s) s triggers.

(** ** Created data sources *)
Definition create_step (ctx_and_made : IndexingContext * (list DataSource * list RuntimeHost))
    (info : DataSourceTemplateInfo)
  : res ProcessError (IndexingContext * (list DataSource * list RuntimeHost)) :=
  let '(ctx, (data_sources, runtime_hosts)) := ctx_and_made in
  let? data_source := map_err FromTemplate (data_source_of_template info) in
  let '(instance, r) := add_dynamic_data_source MAX_DATA_SOURCES (ix_instance (state ctx)) data_source
                        (in_top_level_templates (inputs ctx)) in
  let? host := map_err FromHost r in
  let ctx := set_instance ctx instance in
  match host with
  | Some host => Ok (ctx, (data_sources ++ [data_source], runtime_hosts ++ [host]))
  | None => Ok (ctx, (data_sources, runtime_hosts))
  end.

Definition create_dynamic_data_sources (ctx : IndexingContext)
    (created_data_sources : list DataSourceTemplateInfo)
  : res ProcessError (IndexingContext * (list DataSource * list RuntimeHost)) :=
  fold_res create_step (ctx, ([], [])) created_data_sources.

(** The entity operations for a data source, under a fresh id.  The last part of
    the state counts accesses to the entity cache. *)
Definition persist_operations (deployment_id : string) (block_ptr : EthereumBlockPointer)
    (data_source : DataSource) (next_id : nat) : list EntityOperation :=
  write_entity_operations
    (generate_dynamic (dynamic_entity_of deployment_id data_source block_ptr)
       (make_id (new_v4 next_id))).

Definition persist_step (db : DB) (deployment_id : string) (block_ptr : EthereumBlockPointer)
    (s : EntityCache * nat * Z) (data_source : DataSource) : res ProcessError (EntityCache * nat * Z) :=
  let '(entity_cache, next_id, accesses) := s in
  let operations := persist_operations deployment_id block_ptr data_source next_id in
  let '(entity_cache, r) := append (ST := entities_of db) size_of_entry entity_cache operations in
  let? _ := map_err FromCache r in
  Ok (entity_cache, S next_id, accesses + Z.of_nat (length operations))%Z.

Definition extend_filters (s : IndexingState) (data_sources : list DataSource) (next_id : nat)
  : IndexingState :=
  mk_state (ix_instance s)
    (log_filter_extend (ix_log_filter s) (log_filter_from_data_sources data_sources))
    (call_filter_extend (ix_call_filter s) (call_filter_from_data_sources data_sources))
    (block_filter_extend (ix_block_filter s) (block_filter_from_data_sources data_sources))
    (ix_entity_lfu_cache s) next_id.

Definition persist_dynamic_data_sources (db : DB) (ctx : IndexingContext) (entity_cache : EntityCache)
    (accesses : Z) (data_sources : list DataSource) (block_ptr : EthereumBlockPointer)
  : res ProcessError (IndexingContext * EntityCache * Z) :=
  let? x := fold_res (persist_step db (in_deployment_id (inputs ctx)) block_ptr)
              (entity_cache, ix_next_id (state ctx), accesses) data_sources in
  let '(entity_cache, next_id, accesses) := x in
  Ok (mk_indexing_context (inputs ctx) (extend_filters (state ctx) data_sources next_id),
      entity_cache, accesses).

Definition block_state_of (s : St) : BlockState := ms_state (to_state s).

(** One turn of the loop over created data sources. *)
Definition created_turn (db : DB) (block : BlockFinality) (block_ptr : EthereumBlockPointer)
    (ctx : IndexingContext) (s : St) : res ProcessError (IndexingContext * St) :=
  let? made := create_dynamic_data_sources ctx (bs_created_data_sources (block_state_of s)) in
  let '(ctx, (data_sources, runtime_hosts)) := made in
  let? block_with_triggers := map_err FromTriggers
    (triggers_in_block (log_filter_from_data_sources data_sources)
       (call_filter_from_data_sources data_sources) (block_filter_from_data_sources data_sources)
       block) in
  let? persisted :=
    persist_dynamic_data_sources db ctx (bs_entity_cache (block_state_of s))
      (ms_accesses (to_state s)) data_sources block_ptr in
  let '(ctx, entity_cache, accesses) := persisted in
  let s := of_state (mk_mapping_state (mk_block_state entity_cache [])
                       (ms_proof_of_indexing (to_state s)) accesses) in
  let? s := map_err FromHost
    (fold_res (fun s trigger => process_trigger_in_runtime_hosts (run_mapping db) runtime_hosts
                                  (light_block block) trigger s)
       s (bwt_triggers block_with_triggers)) in
  Ok (ctx, s).

(** The [while] loop; [None] when the fuel runs out. *)
Fixpoint created_loop (fuel : nat) (db : DB) (block : BlockFinality)
    (block_ptr : EthereumBlockPointer) (ctx : IndexingContext) (s : St)
  : option (res ProcessError (IndexingContext * St)) :=
  match bs_created_data_sources (block_state_of s) with
  | [] => Some (Ok (ctx, s))
  | _ =>
      match fuel with
      | 0 => None
      | S fuel =>
          match created_turn db block block_ptr ctx s with
          | Ok (ctx, s) => created_loop fuel db block block_ptr ctx s
          | Err e => Some (Err e)
          | Panic => Some Panic
          end
      end
  end.

(** ** The proof of indexing *)
Definition POI_OBJECT : string := "Poi$".

Definition poi_key (deployment_id causality_region : string) : EntityKey :=
  mk_key deployment_id POI_OBJECT causality_region.

(** The digest of the entity, which must be bytes. *)
Definition previous_digest (entity : option Entity) : res ProcessError (option (list Byte.byte)) :=
  match entity with
  | None => Ok None
  | Some entity => match entity !! "digest" with Some (VBytes b) => Ok (Some b) | _ => Panic end
  end.

Definition poi_step (db : DB) (deployment_id : string) (entity_cache : EntityCache)
    (x : string * BlockEventStream) : res ProcessError EntityCache :=
  let '(causality_region, stream) := x in
  let entity_key := poi_key deployment_id causality_region in
  let '(entity_cache, r) := cache_get (ST := entities_of db) size_of_entry entity_cache entity_key in
  let? entity := map_err FromCache r in
  let? prev_poi := previous_digest entity in
  let updated_proof_of_indexing := pause stream prev_poi in
  let new_poi_entity :=
    entity_of [("id", VString causality_region); ("digest", VBytes updated_proof_of_indexing)] in
  let '(entity_cache, r) :=
    cache_set (ST := entities_of db) size_of_entry entity_cache entity_key new_poi_entity in
  let? _ := map_err FromCache r in
  Ok entity_cache.

Definition update_proof_of_indexing (db : DB) (deployment_id : string) (poi : ProofOfIndexing)
    (entity_cache : EntityCache) : res ProcessError EntityCache :=
  fold_res (poi_step db deployment_id) entity_cache (drain (poi_take poi)).

(** ** A block *)

(** What comes of the triggers of a block: a possible reorganisation, or the
    state to finish the block with. *)
Inductive Triggered :=
| Reorg (ctx : IndexingContext)
| Processed (ctx : IndexingContext) (s : St) (needs_restart : bool).

(** The first half of [process_block].  The LFU cache is taken out of the
    context at the start. *)
Definition process_block_triggers (fuel : nat) (db : DB) (ctx : IndexingContext)
    (block : EthereumBlockWithTriggers) (block_ptr : EthereumBlockPointer)
  : option (res ProcessError Triggered) :=
  let triggers := bwt_triggers block in
  let block := bwt_ethereum_block block in
  match supports_proof_of_indexing db (in_deployment_id (inputs ctx)) with
  | Ok supported =>
      let proof_of_indexing :=
        if supported : bool then Some (poi_new (ptr_number block_ptr)) else None in
      let lfu_cache := ix_entity_lfu_cache (state ctx) in
      let ctx := set_cache ctx LfuCache.new in
      let s := of_state (mk_mapping_state (block_state_new lfu_cache) proof_of_indexing 0) in
      match process_triggers db (ix_instance (state ctx)) (light_block block) triggers s with
      | Ok s =>
          let needs_restart :=
            negb (bool_decide (length (bs_created_data_sources (block_state_of s)) = 0)) in
          match created_loop fuel db block block_ptr ctx s with
          | Some (Ok (ctx, s)) => Some (Ok (Processed ctx s needs_restart))
          | Some (Err e) => Some (Err e)
          | Some Panic => Some Panic
          | None => None
          end
      | Err e => if is_possible_reorg e then Some (Ok (Reorg ctx)) else Some (Err (FromHost e))
      | Panic => Some Panic
      end
  | Err e => Some (Err (FromStore e))
  | Panic => Some Panic
  end.

(** The second half: from the state after the triggers to the transaction.
    [is_canceled] is what the cancel handle says then. *)
Definition finish_block (db : DB) (ctx : IndexingContext) (s : St)
    (block_ptr : EthereumBlockPointer) (is_canceled needs_restart : bool)
  : DB * res CancelableError (IndexingContext * bool) :=
  if is_canceled then (db, Err Cancel) else
  let deployment_id := in_deployment_id (inputs ctx) in
  let entity_cache := bs_entity_cache (block_state_of s) in
  let r :=
    let? entity_cache :=
      match ms_proof_of_indexing (to_state s) with
      | Some poi => update_proof_of_indexing db deployment_id poi entity_cache
      | None => Ok entity_cache
      end in
    let? x := map_err FromCache (as_modifications (ST := entities_of db) size_of_entry entity_cache) in
    let '(mods, cache) := x in
    match evict cache ENTITY_CACHE_SIZE with
    | Ok (_, cache) =>
        if negb (LfuCache.is_empty (ix_entity_lfu_cache (state ctx))) then Panic else
        let? y := map_err FromStore (transact_block_operations db deployment_id block_ptr mods) in
        let '(db, should_migrate) := y in
        let db :=
          if should_migrate : bool then migrate_subgraph_deployment db deployment_id block_ptr
          else db in
        Ok (db, set_cache ctx cache)
    | _ => Panic
    end in
  match r with
  | Ok (db, ctx) => (db, Ok (ctx, needs_restart))
  | Err e => (db, Err (Failure_ e))
  | Panic => (db, Panic)
  end.

Definition process_block (fuel : nat) (db : DB) (ctx : IndexingContext) (is_canceled : bool)
    (block : EthereumBlockWithTriggers)
  : option (DB * res CancelableError (IndexingContext * bool)) :=
  match ptr_of_finality (bwt_ethereum_block block) with
  | Ok block_ptr =>
      match process_block_triggers fuel db ctx block block_ptr with
      | Some (Ok (Processed ctx s needs_restart)) =>
          Some (finish_block db ctx s block_ptr is_canceled needs_restart)
      | Some (Ok (Reorg ctx)) => Some (db, Ok (ctx, true))
      | Some (Err e) => Some (db, Err (Failure_ e))
      | Some Panic => Some (db, Panic)
      | None => None
      end
  | _ => Some (db, Panic)
  end.

(** ** Running a subgraph *)

(** The guards of the streams of running subgraphs, by deployment
    ([SharedInstanceKeepAliveMap]): a stream is canceled once its guard is gone.
    Guards are told apart by a number. *)
Abbreviation Instances := (gmap string nat).

Record World := mk_world {
  w_db : DB;
  w_instances : Instances;
  w_next_guard : nat;
}.

Definition Filters : Type := EthereumLogFilter G * EthereumCallFilter * EthereumBlockFilter.

(** A run of [run_subgraph]: the context, the filters the block stream was built
    with, the stream's guard, and whether the stream has yielded its
    cancelation. *)
Record Run := mk_run {
  run_ctx : IndexingContext;
  run_filters : Filters;
  run_guard : nat;
  run_cancel_seen : bool;
}.

Inductive RunState := Running (r : Run) | Ended.

Definition context_filters (ctx : IndexingContext) : Filters :=
  (ix_log_filter (state ctx), ix_call_filter (state ctx), ix_block_filter (state ctx)).

(** The head of the outer loop. *)
Definition build_stream (w : World) (ctx : IndexingContext) : World * Run :=
  let guard := w_next_guard w in
  (mk_world (w_db w) (<[in_deployment_id (inputs ctx) := guard]> (w_instances w)) (S guard),
   mk_run ctx (context_filters ctx) guard false).

(** [CancelHandle::is_canceled] *)
Definition canceled (instances : Instances) (r : Run) : bool :=
  negb (bool_decide (instances !! in_deployment_id (inputs (run_ctx r)) = Some (run_guard r))).

Inductive StreamItem :=
| ItemBlock (block : EthereumBlockWithTriggers)
| ItemRevert
| ItemError.

(** [Cancelable::poll]: the receiver is fused, so that the cancelation is an error
    of the stream once, and the inner stream is polled again afterwards. *)
Definition cancelable_poll (instances : Instances) (r : Run) (inner : StreamItem)
  : StreamItem * Run :=
  if canceled instances r && negb (run_cancel_seen r)
  then (ItemError, mk_run (run_ctx r) (run_filters r) (run_guard r) true)
  else (inner, r).

Definition set_run_ctx (r : Run) (ctx : IndexingContext) : Run :=
  mk_run ctx (run_filters r) (run_guard r) (run_cancel_seen r).

(** Marking the subgraph as failed; an error of the store is only logged. *)
Context (error_text : ProcessError -> string).

Definition mark_failed (db : DB) (id : string) (e : ProcessError)
    (block_ptr : EthereumBlockPointer) (error_id : string) : DB :=
  let error := mk_subgraph_error id (error_text e) (Some block_ptr) None in
  match apply_metadata_operations db (fail_operations id error error_id) with
  | Ok db => db
  | _ => db
  end.

(** A block of the stream.  [checked] are the guards when [process_block] asks
    whether the stream has been canceled, [after] those when it returns. *)
Definition handle_block (fuel : nat) (w : World) (checked after : Instances) (r : Run)
    (block : EthereumBlockWithTriggers) (error_id : string) : option (World * RunState) :=
  match ptr_of_finality (bwt_ethereum_block block) with
  | Ok block_ptr =>
      match process_block fuel (w_db w) (run_ctx r) (canceled checked r) block with
      | Some (db, Ok (ctx, true)) =>
          let id := in_deployment_id (inputs ctx) in
          let '(w, r) := build_stream (mk_world db (delete id after) (w_next_guard w)) ctx in
          Some (w, Running r)
      | Some (db, Ok (ctx, false)) =>
          Some (mk_world db after (w_next_guard w), Running (set_run_ctx r ctx))
      | Some (db, Err (Failure_ e)) =>
          let id := in_deployment_id (inputs (run_ctx r)) in
          Some (mk_world (mark_failed db id e block_ptr error_id) after (w_next_guard w), Ended)
      | Some (db, _) => Some (mk_world db after (w_next_guard w), Ended)
      | None => None
      end
  | _ => Some (mk_world (w_db w) after (w_next_guard w), Ended)
  end.

Definition clear_cache (r : Run) : Run := set_run_ctx r (set_cache (run_ctx r) LfuCache.new).

(** *** Starting and stopping *)
Inductive StartError :=
| StartStore (e : DBError)
| StartMetadata (e : FieldError)
| StartHosts (e : HostError).

Definition map_index (map : list (string * qvalue)) (key : string) : res StartError qvalue :=
  match list_find (fun x => x.1 = key) map with Some (_, (_, value)) => Ok value | None => Panic end.

(** [LazyMetadata] *)
Definition deployment_of_response (value : qvalue) : res StartError (list (string * qvalue)) :=
  match value with
  | QObject map =>
      let? deployment := map_index map "subgraphDeployment" in
      match deployment with QObject deployment => Ok deployment | _ => Panic end
  | _ => Panic
  end.

Definition health (db : DB) (id : string) : res StartError SubgraphHealth :=
  let? value := map_err StartStore (query_health db id) in
  let? deployment := deployment_of_response value in
  map_err StartMetadata (get_required deployment "health").

Definition has_non_fatal_errors (db : DB) (id : string) : res StartError bool :=
  let? value := map_err StartStore (query_non_fatal_errors db id) in
  let? deployment := deployment_of_response value in
  let? errors := map_index deployment "nonFatalErrors" in
  match errors with QList errs => Ok (negb (bool_decide (length errs = 0))) | _ => Panic end.

Definition start_status_ops (db : DB) (id : string) : res StartError (list MetadataOperation) :=
  let? h := health db id in
  match h with
  | Failed =>
      let? errors := has_non_fatal_errors db id in
      Ok (unfail_operations id (if errors : bool then Unhealthy else Healthy))
  | Healthy | Unhealthy => Ok []
  end.

Definition start_context (manifest : SubgraphManifest) (network_name : string)
    (instance : SubgraphInstance) : IndexingContext :=
  let data_sources := sm_data_sources manifest in
  mk_indexing_context
    (mk_inputs (sm_id manifest) network_name (start_blocks manifest) (requires_traces manifest)
       (sm_templates manifest))
    (mk_state instance (log_filter_from_data_sources data_sources)
       (call_filter_from_data_sources data_sources) (block_filter_from_data_sources data_sources)
       LfuCache.new 0).

(** The run starts with building its stream. *)
Definition start_subgraph (w : World) (manifest : SubgraphManifest) : World * res StartError Run :=
  let id := sm_id manifest in
  match
    let? status_ops := start_status_ops (w_db w) id in
    map_err StartStore (start_subgraph_deployment (w_db w) id status_ops)
  with
  | Ok db =>
      let w := mk_world db (w_instances w) (w_next_guard w) in
      match
        let? network_name := lift_panic (Manifest.network_name manifest) in
        let? instance := map_err StartHosts (from_manifest manifest) in
        Ok (start_context manifest network_name instance)
      with
      | Ok ctx => let '(w, r) := build_stream w ctx in (w, Ok r)
      | Err e => (w, Err e)
      | Panic => (w, Panic)
      end
  | Err e => (w, Err e)
  | Panic => (w, Panic)
  end.

Definition stop_subgraph (w : World) (id : string) : World :=
  mk_world (w_db w) (delete id (w_instances w)) (w_next_guard w).

(** *** Steps of a run *)

(** What the calls of a block cost in accesses to the entity cache. *)
Definition block_accesses (s : St) : Z :=
  ms_accesses (to_state s)
  + match ms_proof_of_indexing (to_state s) with
    | Some poi => 2 * Z.of_nat (size (poi_take poi))
    | None => 0
    end.

Definition block_cost (fuel : nat) (db : DB) (ctx : IndexingContext)
    (block : EthereumBlockWithTriggers) : Z :=
  match ptr_of_finality (bwt_ethereum_block block) with
  | Ok block_ptr =>
      match process_block_triggers fuel db ctx block block_ptr with
      | Some (Ok (Processed _ s _)) => block_accesses s
      | _ => 0
      end
  | _ => 0
  end.

(** The others never put back a guard that is gone. *)
Definition others (r : Run) (before after : Instances) : Prop :=
  canceled before r = true -> canceled after r = true.

(** A step of a run with what it costs.  Before it emits a revert the block
    stream has reverted blocks in the store; apart from that nobody else changes
    the entities the run's cache holds. *)
Inductive run_step (fuel : nat) : Z -> World * RunState -> World * RunState -> Prop :=
| step_block w r r' block checked after error_id w' st :
    cancelable_poll (w_instances w) r (ItemBlock block) = (ItemBlock block, r') ->
    others r (w_instances w) checked -> others r checked after ->
    handle_block fuel w checked after r' block error_id = Some (w', st) ->
    run_step fuel (block_cost fuel (w_db w) (run_ctx r) block) (w, Running r) (w', st)
| step_revert w r r' db :
    cancelable_poll (w_instances w) r ItemRevert = (ItemRevert, r') ->
    run_step fuel 0 (w, Running r)
      (mk_world db (w_instances w) (w_next_guard w), Running (clear_cache r'))
| step_error w r inner r' :
    cancelable_poll (w_instances w) r inner = (ItemError, r') ->
    run_step fuel 0 (w, Running r) (w, Running r')
| step_other w r db after next :
    others r (w_instances w) after ->
    (forall k, is_Some (values (ix_entity_lfu_cache (state (run_ctx r))) !! k) ->
       store_get (Store := entities_of db) k = store_get (Store := entities_of (w_db w)) k) ->
    run_step fuel 0 (w, Running r) (mk_world db after next, Running r).

Inductive run_steps (fuel : nat) : Z -> World * RunState -> World * RunState -> Prop :=
| steps_none x : run_steps fuel 0 x x
| steps_one c c' x y z : run_step fuel c x y -> run_steps fuel c' y z -> run_steps fuel (c + c') x z.
End manager.
