(* ===== verification/BlockMeaning.v ===== *)
(** * What a block means

    The specification of processing a block ([core/src/subgraph/instance_manager.rs]):
    which calls of handlers the block's triggers lead to, in which order, and what
    they do to a map of entities, to the proof of indexing and to the list of data
    sources to create.  [block_means] is the whole block:

    - its triggers run in the hosts of the subgraph ([triggers_run]);
    - as long as data sources are created they are stored and the triggers of
      their own run in their hosts ([created_runs]);
    - the proofs of indexing are written ([regions_written]).

    There is no cache and no modification here; [BlockProcessing] proves that the
    instance manager does to the store what [block_means] says. *)

From stdpp Require Import prelude list strings gmap fin_maps.
From Stdlib Require Import ZArith Lia.
From S2P Require Import Prelude.
From S2P Require Import StoreValue.
From S2P Require Import EntityCache.
From S2P Require Import EthTypes.
From S2P Require Import Manifest.
From S2P Require Import EthFilters.
From S2P Require Import Triggers.
From S2P Require Import Hosts.
From S2P Require Import StoreEvents.
From S2P Require Import MetadataEntities.
From S2P Require Import ProofOfIndexing.
From S2P Require Import HostExports.
From S2P Require Import InstanceManager.

#[local] Open Scope string_scope.
#[local] Open Scope list_scope.

Section block.
Context {ME : ManifestEnv} {HE : HostEnv ME} {SH : StableHashing} {RS : RuntimeServices HE}.
Context {SS : SubgraphStore}.
Context {G : Type} `{GM : GraphMap LogFilterNode G} `{EA : EthereumAdapter G}.
Context {STX : ScalarText} {MT : MetadataText}.
Context (MAX_DATA_SOURCES : option nat) (new_v4 : nat -> string).
Context (handler_program :
  Sender -> string -> MappingTrigger -> LightEthereumBlock -> option MappingProgram).
Context (db : DB) (deployment_id : string).

(** The entities, the proof of indexing and the data sources to create. *)
Record BlockMap := mk_block_map {
  bm_entities : gmap EntityKey Entity;
  bm_poi : SharedProofOfIndexing;
  bm_created : list DataSourceTemplateInfo;
}.

(** ** Triggers *)

(** A handler's code means what its calls mean. *)
Definition mapping_runs (h : RuntimeHost) (b : LightEthereumBlock) (handler : string)
    (mt : MappingTrigger) (a a' : BlockMap) : Prop :=
  exists p W' es cs,
    handler_program (rh_sender h) handler mt b = Some p
    /\ meaning (RT := runtime_of db) (rh_host_exports h) b p (bm_entities a) W' es cs
    /\ a' = mk_block_map W' (events_written (rh_host_exports h) es (bm_poi a)) (bm_created a ++ cs).

(** A trigger runs the handler of each host that handles it, hosts in order. *)
Definition host_runs (b : LightEthereumBlock) (t : EthereumTrigger) (h : RuntimeHost)
    (a a' : BlockMap) : Prop :=
  handled h t /\ (exists o, host_call h b t o /\
    match o with None => a' = a | Some (handler, mt) => mapping_runs h b handler mt a a' end)
  \/ ~ handled h t /\ a' = a.

Definition triggers_run (hosts : list RuntimeHost) (b : LightEthereumBlock)
    (ts : list EthereumTrigger) : BlockMap -> BlockMap -> Prop :=
  fold_rel (fun t => fold_rel (host_runs b t) hosts) ts.

(** ** Created data sources *)
Section created.
Context (network : string) (templates : list DataSourceTemplate).

Definition below_limit (hosts : list RuntimeHost) : Prop :=
  forall m, MAX_DATA_SOURCES = Some m -> length hosts < m.

Definition host_built (d : DataSource) (h : RuntimeHost) : Prop :=
  exists sender, host_build network deployment_id d templates sender = Ok h.

(** [instantiated hosts infos ds hs]: making a data source of each of [infos]
    gives the data sources [ds] with the hosts [hs]; one whose host there is
    already counts for nothing. *)
Inductive instantiated : list RuntimeHost -> list DataSourceTemplateInfo ->
    list DataSource -> list RuntimeHost -> Prop :=
| instantiated_none hosts : instantiated hosts [] [] []
| instantiated_known hosts info infos d h ds hs :
    data_source_of_template info = Ok d -> below_limit hosts -> host_built d h ->
    (exists k, k ∈ hosts /\ host_eqb k h = true) ->
    instantiated hosts infos ds hs -> instantiated hosts (info :: infos) ds hs
| instantiated_new hosts info infos d h ds hs :
    data_source_of_template info = Ok d -> below_limit hosts -> host_built d h ->
    (forall k, k ∈ hosts -> host_eqb k h = false) ->
    instantiated (hosts ++ [h]) infos ds hs ->
    instantiated hosts (info :: infos) (d :: ds) (h :: hs).

(** Data sources are stored under the ids from the [n]th on. *)
Fixpoint stored_sources (block_ptr : EthereumBlockPointer) (ds : list DataSource) (n : nat)
  : list EntityOperation :=
  match ds with
  | [] => []
  | d :: ds => persist_operations new_v4 deployment_id block_ptr d n ++ stored_sources block_ptr ds (S n)
  end.

(** From the hosts, the number of ids used and the map to those when no more data
    sources are created. *)
Inductive created_runs (block : BlockFinality) (block_ptr : EthereumBlockPointer) :
    list RuntimeHost -> nat -> BlockMap -> list RuntimeHost -> nat -> BlockMap -> Prop :=
| created_none hosts n a : bm_created a = [] -> created_runs block block_ptr hosts n a hosts n a
| created_some hosts n a ds hs bwt a1 hosts' n' a' :
    bm_created a <> [] ->
    instantiated hosts (bm_created a) ds hs ->
    triggers_in_block (log_filter_from_data_sources ds) (call_filter_from_data_sources ds)
      (block_filter_from_data_sources ds) block = Ok bwt ->
    triggers_run hs (light_block block) (bwt_triggers bwt)
      (mk_block_map (foldl op_spec (bm_entities a) (stored_sources block_ptr ds n)) (bm_poi a) []) a1 ->
    created_runs block block_ptr (hosts ++ hs) (n + length ds) a1 hosts' n' a' ->
    created_runs block block_ptr hosts n a hosts' n' a'.
End created.

(** ** Proofs of indexing *)

(** The proof of a region is its stream of the block on top of the proof the
    region had. *)
Definition region_written (x : string * BlockEventStream) (W W' : gmap EntityKey Entity) : Prop :=
  let key := poi_key deployment_id x.1 in
  exists entity prev,
    visible entity (W !! key)
    /\ match entity with
       | None => prev = None
       | Some e => exists b, e !! "digest" = Some (VBytes b) /\ prev = Some b
       end
    /\ W' = set_spec W key {["id" := VString x.1; "digest" := VBytes (pause x.2 prev)]}.

Definition regions_written (poi : SharedProofOfIndexing) (W W' : gmap EntityKey Entity) : Prop :=
  match poi with
  | None => W' = W
  | Some poi => exists l, l ≡ₚ map_to_list (poi_take poi) /\ fold_rel region_written l W W'
  end.

(** ** The block *)
Record block_means (network : string) (templates : list DataSourceTemplate)
    (block : EthereumBlockWithTriggers) (block_ptr : EthereumBlockPointer)
    (hosts : list RuntimeHost) (n : nat) (W : gmap EntityKey Entity)
    (hosts' : list RuntimeHost) (n' : nat) (W' : gmap EntityKey Entity) (created : bool) : Prop := {
  bk_runs : exists supported a1 a2,
    supports_proof_of_indexing db deployment_id = Ok supported
    /\ triggers_run hosts (light_block (bwt_ethereum_block block)) (bwt_triggers block)
         (mk_block_map W (if supported : bool then Some (poi_new (ptr_number block_ptr)) else None) []) a1
    /\ created = negb (bool_decide (bm_created a1 = []))
    /\ created_runs network templates (bwt_ethereum_block block) block_ptr hosts n a1 hosts' n' a2
    /\ regions_written (bm_poi a2) (bm_entities a2) W';
}.

(** A mapping the block's triggers called found that the block may not be on the
    chain any more. *)
Definition reorg_found (run : RuntimeHost -> LightEthereumBlock -> MappingProgram -> MappingState ->
      res (MappingError (RtError := DBError)) MappingState)
    (hosts : list RuntimeHost) (block : EthereumBlockWithTriggers) : Prop :=
  let b := light_block (bwt_ethereum_block block) in
  exists t h handler mt p s e,
    t ∈ bwt_triggers block /\ h ∈ hosts /\ handled h t /\ host_call h b t (Some (handler, mt))
    /\ handler_program (rh_sender h) handler mt b = Some p /\ run h b p s = Err (PossibleReorg e).

(** ** Other deployments *)

Definition other_key (k : EntityKey) : Prop :=
  subgraph_id k <> deployment_id /\ subgraph_id k <> SUBGRAPHS_ID.

Definition own (h : RuntimeHost) : Prop := he_subgraph_id (rh_host_exports h) = deployment_id.

Definition same_others (W W' : gmap EntityKey Entity) : Prop :=
  forall k, other_key k -> W' !! k = W !! k.

#[local] Instance same_others_preorder : PreOrder same_others.
Proof. split; [by intros W k|]. intros W1 W2 W3 H1 H2 k Hk. by rewrite H2, H1. Qed.

Definition map_others (a a' : BlockMap) : Prop := same_others (bm_entities a) (bm_entities a').
#[local] Instance map_others_preorder : PreOrder map_others.
Proof. exact (preorder_on bm_entities same_others _). Qed.

Lemma foldl_op_spec_other ops W k :
  Forall (fun op => match op with OpSet k' _ | OpRemove k' => k' <> k end) ops ->
  foldl op_spec W ops !! k = W !! k.
Proof.
  revert W. induction ops as [|op ops IH]; intros W Hops; [done|]. apply Forall_cons in Hops as [Hop Hops].
  cbn [foldl]. rewrite IH by done. destruct op; cbn; [by apply lookup_insert_ne|by apply lookup_delete_ne].
Qed.

Lemma stored_sources_other block_ptr ds n W : same_others W (foldl op_spec W (stored_sources block_ptr ds n)).
Proof.
  intros k [_ Hk]. apply foldl_op_spec_other. revert n. induction ds as [|d ds IH]; intros n; [constructor|].
  apply Forall_app. split; [|apply IH]. unfold persist_operations, write_entity_operations.
  apply Forall_fmap, Forall_true. intros x. cbn. intros <-. by apply Hk.
Qed.

Lemma triggers_run_others hosts b ts a a' :
  Forall own hosts -> triggers_run hosts b ts a a' -> map_others a a'.
Proof.
  rewrite Forall_forall. intros Ho. apply fold_rel_relates; [apply _|]. intros t x y _.
  apply fold_rel_relates; [apply _|]. intros h u v Hh [[_ ([[handler mt]|] & _ & Hr)]|[_ ->]]; [|by subst|done].
  destruct Hr as (p & W' & es & cs & _ & Hm & ->). intros k [Hk _]. cbn.
  eapply meaning_isolated; [exact Hm|]. by rewrite (Ho h Hh).
Qed.

Lemma instantiated_own network templates hosts infos ds hs :
  instantiated network templates hosts infos ds hs -> Forall own hs.
Proof.
  induction 1 as [|hosts info infos d h ds hs _ _ _ _ _ IH|hosts info infos d h ds hs _ _ [sender Hb] _ _ IH];
    [constructor|done|]. constructor; [|done]. unfold own, host_build, runtime_host_new in *.
  destruct (negb _); [done|]. res_inv. destruct (negb _); [done|]. res_inv. destruct (negb _); [done|].
  by res_inv.
Qed.

Lemma created_runs_others network templates block block_ptr hosts n a hosts' n' a' :
  created_runs network templates block block_ptr hosts n a hosts' n' a' -> map_others a a'.
Proof.
  induction 1 as [|hosts n a ds hs bwt a1 hosts' n' a' _ Hi _ Hr _ IH]; [reflexivity|].
  etrans; [|exact IH]. etrans; [|by eapply triggers_run_others; [by eapply instantiated_own|exact Hr]].
  apply stored_sources_other.
Qed.

Lemma regions_written_others poi W W' : regions_written poi W W' -> same_others W W'.
Proof.
  destruct poi as [poi|]; [|by intros ->]. intros (l & _ & Hr). revert Hr.
  apply fold_rel_relates; [apply _|]. intros x V V' _ (e & prev & _ & _ & ->) k [Hk _].
  unfold set_spec. apply lookup_insert_ne. intros <-. by apply Hk.
Qed.

Lemma block_means_others network templates block block_ptr hosts n W hosts' n' W' created :
  Forall own hosts ->
  block_means network templates block block_ptr hosts n W hosts' n' W' created -> same_others W W'.
Proof.
  intros Ho [(supported & a1 & a2 & _ & Ht & _ & Hc & Hr)].
  apply triggers_run_others in Ht; [|done]. apply created_runs_others in Hc.
  apply regions_written_others in Hr. etrans; [exact Ht|]. etrans; [exact Hc|exact Hr].
Qed.
End block.
