(* ===== verification/BlockProcessing.v ===== *)
(** * Processing blocks: what is proved

    The theorems about [InstanceManager].  [BlockMeaning] says what a block means
    to a map of entities; [advances] follows the map that a cache stands for, with
    the number of accesses to the entity cache, which must stay below 2^64 for the
    cache's counters.  The configuration is the default one of
    [ALLOW_NON_DETERMINISTIC_IPFS], off.

    - [block_refines_map]: one transaction brings the store to the map the block
      means, or nothing happens;
    - [block_processing_ends]: with a limit on data sources the loop over created
      data sources ends;
    - [running_subgraph_invariant]: in a run the cache agrees with the store and
      the stream's filters cover the hosts' handlers, apart from block handlers
      with a call filter. *)

From stdpp Require Import prelude list strings gmap fin_maps.
From Stdlib Require Import ZArith Lia.
From Stdlib Require Strings.Byte.
From S2P Require Import Prelude.
From S2P Require Import GraphqlTypes.
From S2P Require Import StoreValue.
From S2P Require Import LfuCache.
From S2P Require Import EntityCache.
From S2P Require Import EthTypes.
From S2P Require Import Manifest.
From S2P Require Import EthFilters.
From S2P Require Import Triggers.
From S2P Require Import Hosts.
From S2P Require Import StoreEvents.
From S2P Require Import Metadata.
From S2P Require Import MetadataEntities.
From S2P Require Import MetadataLoad.
From S2P Require Import ProofOfIndexing.
From S2P Require Import HostExports.
From S2P Require Import InstanceManager.
From S2P Require Import BlockMeaning.

#[local] Open Scope string_scope.
#[local] Open Scope list_scope.

(** ** Blocks as changes to a map of entities *)
Section refinement.
Context {ME : ManifestEnv} {HE : HostEnv ME} {SH : StableHashing} {RS : RuntimeServices HE}.
Context {SS : SubgraphStore} {SL : SubgraphStoreLaws SS}.
Context `{CacheWeight EntityKey, CacheWeight (option Entity)}.
Context {PQ : PriorityQueue EntityKey (option Entity)}.
Context {TH : MappingThread HE DBError}.
Context {G : Type} `{GML : GraphMapLaws LogFilterNode G} `{EA : EthereumAdapter G}.
Context {STX : ScalarText} {MT : MetadataText}.
Context (size_of_entry : Z).
Context (MAX_DATA_SOURCES : option nat) (ENTITY_CACHE_SIZE : Z) (new_v4 : nat -> string).
Context (handler_program :
  Sender -> string -> MappingTrigger -> LightEthereumBlock -> option MappingProgram).
Context (drain : gmap string BlockEventStream -> list (string * BlockEventStream)).
Hypothesis drain_spec : forall m, drain m ≡ₚ map_to_list m.
Hypothesis cache_size : (0 <= ENTITY_CACHE_SIZE)%Z.
Context (db : DB) (deployment_id : string).
#[local] Existing Instance lookups_answer.

Abbreviation run := (run_mapping size_of_entry false handler_program db).
Abbreviation Entities := (gmap EntityKey Entity).

(** [advances (c, a) (c', a') R]: with [a' - a] accesses left, a cache that stands
    for a map has become one that stands for a map [R] leads to. *)
Definition advances (x y : EntityCache * Z) (R : Entities -> Entities -> Prop) : Prop :=
  (x.2 <= y.2)%Z
  /\ forall W n, (0 <= n)%Z -> (n + (y.2 - x.2) < 2 ^ 64 - 1)%Z ->
     implements (view db) x.1 W (n + (y.2 - x.2)) ->
     exists W', R W W' /\ implements (view db) y.1 W' n.

Lemma advances_refl x (R : Entities -> Entities -> Prop) : (forall W, R W W) -> advances x x R.
Proof.
  destruct x as [c a]. intros HR. split; [cbn; lia|]. intros W n Hn Hm Hi. exists W. split; [done|]. cbn in *.
  by replace (n + (a - a))%Z with n in Hi by lia.
Qed.

Lemma advances_trans x y z (R1 R2 R : Entities -> Entities -> Prop) :
  advances x y R1 -> advances y z R2 -> (forall W W1 W2, R1 W W1 -> R2 W1 W2 -> R W W2) ->
  advances x z R.
Proof.
  destruct x as [c1 a1], y as [c2 a2], z as [c3 a3]. intros [Ha1 H1] [Ha2 H2] HR. cbn in *.
  split; [cbn; lia|]. cbn. intros W n Hn Hm Hi.
  destruct (H1 W (n + (a3 - a2))%Z) as (W1 & HW1 & Hi1); [lia|lia| |].
  { by replace (n + (a3 - a2) + (a2 - a1))%Z with (n + (a3 - a1))%Z by lia. }
  destruct (H2 W1 n Hn ltac:(lia) Hi1) as (W2 & HW2 & Hi2).
  exists W2. split; [by eapply HR|done].
Qed.

Lemma advances_mono x y (R R' : Entities -> Entities -> Prop) :
  advances x y R -> (forall W W', R W W' -> R' W W') -> advances x y R'.
Proof.
  intros [Ha Hx] HR. split; [done|]. intros W n Hn Hm Hi.
  destruct (Hx W n Hn Hm Hi) as (W' & ? & ?). eauto.
Qed.

(** *** States *)
Definition progress (s : MappingState) : EntityCache * Z := (entity_cache_of s, ms_accesses s).

(** The state with a map in place of the cache that stands for it. *)
Definition with_map (s : St) (W : Entities) : BlockMap :=
  mk_block_map W (ms_proof_of_indexing (to_state s)) (bs_created_data_sources (ms_state (to_state s))).

Definition st_advances (s s' : St) (R : BlockMap -> BlockMap -> Prop) : Prop :=
  advances (progress (to_state s)) (progress (to_state s'))
    (fun W W' => R (with_map s W) (with_map s' W')).

Lemma st_advances_fold {A} (Q : A -> St -> St -> Prop) (R : A -> BlockMap -> BlockMap -> Prop) l s s' :
  (forall x s s', Q x s s' -> st_advances s s' (R x)) ->
  fold_rel Q l s s' -> st_advances s s' (fold_rel R l).
Proof.
  intros HQ. induction 1 as [s|x l s s1 s' Hx _ IH]; [apply advances_refl; constructor|].
  eapply advances_trans; [by apply HQ|exact IH|]. intros W W1 W2. apply fold_rel_cons.
Qed.

Lemma run_mapping_advances h handler mt b s s' :
  run h handler mt b s = Ok s' -> st_advances s s' (mapping_runs handler_program db h b handler mt).
Proof.
  unfold run_mapping. destruct (handler_program _ _ _ _) as [p|] eqn:Ep; [|done].
  destruct (run_program _ _ _ _ _ _) as [s1| |] eqn:E; try done. intros [= <-].
  unfold st_advances, progress, with_map. rewrite to_of.
  split; [exact (run_accesses size_of_entry (view db) _ _ _ _ _ E)|].
  intros W n Hn Hm Hi.
  destruct (run_refines size_of_entry (view db) _ _ _ _ _ _ _ E Hn Hm Hi)
    as (W' & es & cs & Hmean & Hi' & Hp & Hcs).
  exists W'. split; [|done]. exists p, W', es, cs. by rewrite Hp, Hcs.
Qed.

Lemma host_sends_advances b t h s s' :
  host_sends run b t h s s' -> st_advances s s' (host_runs handler_program db b t h).
Proof.
  intros [[Ht ([[handler mt]|] & Ho & Hs)]|[Ht ->]].
  - cbn in Hs. unfold send in Hs. destruct (run _ _ _ _ _) as [s1| |] eqn:E; cbn [map_err] in Hs; try done.
    injection Hs as <-. eapply advances_mono; [by apply run_mapping_advances|].
    intros W W' Hr. left. split; [done|]. by exists (Some (handler, mt)).
  - injection Hs as <-. apply advances_refl. intros W. left. split; [done|]. by exists None.
  - apply advances_refl. intros W. by right.
Qed.

Lemma triggers_advance hosts b ts s s' :
  fold_res (fun s t => process_trigger_in_runtime_hosts run hosts b t s) s ts = Ok s' ->
  st_advances s s' (triggers_run handler_program db hosts b ts).
Proof.
  intros Hf%fold_rel_fold_res. revert Hf. apply st_advances_fold. intros t x y Hx%process_trigger_sends.
  revert Hx. apply st_advances_fold. intros h u v. apply host_sends_advances.
Qed.

(** *** Storing data sources *)
Abbreviation persist := (persist_step (EA := EA) size_of_entry new_v4 db deployment_id).

Lemma append_advances ops c c1 a :
  append (ST := entities_of db) size_of_entry c ops = (c1, Ok tt) ->
  advances (c, a) (c1, (a + Z.of_nat (length ops))%Z) (fun W W' => W' = foldl op_spec W ops).
Proof.
  intros Ea. split; [cbn; lia|]. cbn. intros W m Hm Hlt Hi.
  replace (m + (a + Z.of_nat (length ops) - a))%Z with (m + Z.of_nat (length ops))%Z in * by lia.
  destruct (append_implements (SL := lookups_answer db) size_of_entry (view db) ops c W m) as (c' & Ha' & Hi'); [lia|lia|done|].
  rewrite Ha' in Ea. injection Ea as <-. by eexists.
Qed.

Lemma persist_advances block_ptr ds c n a c' n' a' :
  fold_res (persist block_ptr) (c, n, a) ds = Ok (c', n', a') ->
  n' = n + length ds
  /\ advances (c, a) (c', a')
       (fun W W' => W' = foldl op_spec W (stored_sources new_v4 deployment_id block_ptr ds n)).
Proof.
  revert c n a. induction ds as [|d ds IH]; intros c n a; cbn [fold_res].
  { intros [= <- <- <-]. split; [cbn; lia|]. by apply advances_refl. }
  unfold persist_step at 1.
  destruct (append _ _ _) as [c1 [[]| |]] eqn:Ea; cbn [map_err res_bind]; try done.
  intros Hf. destruct (IH _ _ _ Hf) as [-> Hadv]. split; [cbn; lia|].
  eapply advances_trans; [by apply append_advances|exact Hadv|]. intros W W1 W2 -> ->.
  cbn [stored_sources]. by rewrite foldl_app.
Qed.

(** *** Created data sources *)
(** What creating data sources does to the context. *)
Record creates (x y : IndexingContext (G := G) * (list DataSource * list RuntimeHost)) : Prop := {
  cr_inputs : inputs y.1 = inputs x.1;
  cr_rest : state y.1 = state (set_instance x.1 (ix_instance (state y.1)));
  cr_distinct : distinct_hosts (si_hosts (ix_instance (state x.1))) ->
                distinct_hosts (si_hosts (ix_instance (state y.1)));
  cr_id : si_subgraph_id (ix_instance (state y.1)) = si_subgraph_id (ix_instance (state x.1));
  cr_new : exists ds hs, y.2 = (x.2.1 ++ ds, x.2.2 ++ hs)
    /\ si_hosts (ix_instance (state y.1)) = si_hosts (ix_instance (state x.1)) ++ hs
    /\ Forall2 host_of ds hs
    /\ Forall (fun d => is_Some (src_address (ds_source d))) ds
    /\ Forall (fun h => he_subgraph_id (rh_host_exports h)
                        = si_subgraph_id (ix_instance (state x.1))) hs
    /\ (hs = [] \/ forall m, MAX_DATA_SOURCES = Some m ->
                   length (si_hosts (ix_instance (state y.1))) <= m);
}.

Lemma creates_preorder : PreOrder creates.
Proof.
  split.
  - intros [[i s] [ds hs]]. split; try done. { by destruct s. }
    exists [], []. rewrite !app_nil_r. split_and!; try done; by constructor || left.
  - intros x y z [Hi1 Hr1 Hu1 Hd1 (ds1 & hs1 & E1 & H1 & F1 & A1 & O1 & L1)]
      [Hi2 Hr2 Hu2 Hd2 (ds2 & hs2 & E2 & H2 & F2 & A2 & O2 & L2)].
    split; [congruence| |auto|congruence|].
    { rewrite Hr2. unfold set_instance at 1. cbn. rewrite Hr1. done. }
    exists (ds1 ++ ds2), (hs1 ++ hs2). rewrite Hd1 in O2. split_and!.
    + rewrite E2, E1. cbn [fst snd]. by rewrite !(assoc_L (++)).
    + by rewrite H2, H1, (assoc_L (++)).
    + by apply Forall2_app.
    + by apply Forall_app.
    + by apply Forall_app.
    + destruct L2 as [->|L2]; [|by right]. rewrite app_nil_r in *. rewrite H2.
      destruct L1 as [->|L1]; [by left|by right].
Qed.

Lemma create_step_creates x info y : create_step MAX_DATA_SOURCES x info = Ok y -> creates x y.
Proof.
  destruct x as [ctx [ds hs]]. unfold create_step.
  destruct (data_source_of_template info) as [d| |] eqn:Ed; cbn [map_err res_bind]; try done.
  pose proof (add_dynamic_data_source_spec MAX_DATA_SOURCES (ix_instance (state ctx)) d
                (in_top_level_templates (inputs ctx))) as Hsp.
  destruct (add_dynamic_data_source _ _ _ _) as [i r] eqn:Ea.
  destruct r as [[h|]| |]; cbn [map_err res_bind]; try done; intros [= <-].
  - apply add_dynamic_data_source_adds in Ea as (Ho & Hid & Hh & Hs & Hl).
    split; try done; [intros Hu; by apply Hsp|]. exists [d], [h]. cbn. split_and!; try done.
    + by constructor.
    + constructor; [|done]. unfold data_source_of_template in Ed. res_inv. by eexists.
    + by constructor.
    + by right.
  - apply add_dynamic_data_source_none in Ea as [Hh Hs].
    split; try done; [intros Hu; by apply Hsp|]. exists [], []. cbn. rewrite !app_nil_r.
    split_and!; try done; by constructor || left.
Qed.

Lemma create_creates ctx infos y :
  create_dynamic_data_sources MAX_DATA_SOURCES ctx infos = Ok y -> creates (ctx, ([], [])) y.
Proof.
  pose proof creates_preorder. unfold create_dynamic_data_sources. apply fold_res_relates; [done|].
  intros x info z _. apply create_step_creates.
Qed.

(** *** The loop over created data sources *)
Definition own_ctx (ctx : IndexingContext (G := G)) : Prop :=
  in_deployment_id (inputs ctx) = deployment_id
  /\ si_subgraph_id (ix_instance (state ctx)) = deployment_id
  /\ Forall (own deployment_id) (si_hosts (ix_instance (state ctx))).

Definition filters_cover (ctx : IndexingContext (G := G)) : Prop :=
  specific (ix_call_filter (state ctx))
  /\ Forall (covered_by (ix_log_filter (state ctx)) (ix_call_filter (state ctx))
               (ix_block_filter (state ctx))) (si_hosts (ix_instance (state ctx))).

Definition hosts_of (ctx : IndexingContext (G := G)) : list RuntimeHost :=
  si_hosts (ix_instance (state ctx)).

(** What turns of the loop do. *)
Record turned (x y : IndexingContext (G := G) * St) : Prop := {
  tu_inputs : inputs y.1 = inputs x.1;
  tu_cache : ix_entity_lfu_cache (state y.1) = ix_entity_lfu_cache (state x.1);
  tu_own : own_ctx x.1 -> own_ctx y.1;
  tu_distinct : distinct_hosts (hosts_of x.1) -> distinct_hosts (hosts_of y.1);
  tu_cover : filters_cover x.1 -> filters_cover y.1;
  tu_bound : length (hosts_of y.1) = length (hosts_of x.1)
             \/ forall m, MAX_DATA_SOURCES = Some m -> length (hosts_of y.1) <= m;
}.

#[local] Instance turned_preorder : PreOrder turned.
Proof.
  split.
  - intros x. split; try done. by left.
  - intros x y z [Hi1 Hc1 Ho1 Hd1 Hf1 Hb1] [Hi2 Hc2 Ho2 Hd2 Hf2 Hb2].
    split; try congruence; auto.
    destruct Hb2 as [Hb2|Hb2]; [|by right]. rewrite Hb2. exact Hb1.
Qed.

Lemma creates_own ctx y :
  creates (ctx, ([], [])) y -> own_ctx ctx -> own_ctx y.1 /\ Forall (own deployment_id) y.2.2.
Proof.
  intros [Hi Hr Hu Hd (ds & hs & E & Hh & _ & _ & Ho & _)] (H1 & H2 & H3). cbn in *.
  rewrite E. cbn. rewrite H2 in Ho. split; [|done]. split_and!; [congruence..|].
  rewrite Hh. by apply Forall_app.
Qed.

Lemma creates_cover ctx y next_id :
  creates (ctx, ([], [])) y -> filters_cover ctx ->
  filters_cover (mk_indexing_context (inputs y.1) (extend_filters (state y.1) y.2.1 next_id)).
Proof.
  intros [Hi Hr Hu Hd (ds & hs & E & Hh & Hho & Ha & _ & _)] [Hs Hc]. cbn in *.
  pose proof (from_iter_specific (call_entries ds)) as Hs'.
  rewrite E. cbn. rewrite Hr. cbn. split; cbn; [by apply extend_specific|].
  rewrite Hh. apply Forall_app. split.
  - eapply Forall_impl; [exact Hc|]. intros h. by apply covered_extend_l.
  - apply Forall_forall. intros h Hin. apply covered_extend_r; [done..|].
    apply list_elem_of_lookup in Hin as [i Hi'].
    destruct (Forall2_lookup_r _ _ _ _ _ Hho Hi') as (d & Hd' & Hof).
    apply (filters_cover_hosts ds d); [|by eapply list_elem_of_lookup_2|done].
    eapply Forall_impl; [exact Ha|]. intros d' Hd'' _. exact Hd''.
Qed.

Lemma created_turn_turned block block_ptr ctx s y :
  created_turn size_of_entry MAX_DATA_SOURCES new_v4 false handler_program db block block_ptr ctx s
  = Ok y -> turned (ctx, s) y.
Proof.
  unfold created_turn.
  destruct (create_dynamic_data_sources _ _ _) as [[ctx1 [ds hs]]| |] eqn:Ec; cbn [res_bind]; try done.
  apply create_creates in Ec.
  destruct (triggers_in_block _ _ _ _) as [bwt| |]; cbn [map_err res_bind]; try done.
  unfold persist_dynamic_data_sources.
  destruct (fold_res _ _ ds) as [[[cache next_id] accesses]| |] eqn:Ep; cbn [res_bind]; try done.
  set (s0 := of_state _).
  destruct (fold_res _ s0 _) as [s1| |] eqn:Et; cbn [map_err res_bind]; try done. intros [= <-].
  pose proof (cr_inputs _ _ Ec) as Hin. pose proof (cr_rest _ _ Ec) as Hrest. cbn [fst] in Hin, Hrest.
  split; cbn [fst snd].
  - done.
  - cbn. rewrite Hrest. done.
  - intros Ho. destruct (creates_own _ _ Ec Ho) as [Ho' _]. exact Ho'.
  - intros Hd. exact (cr_distinct _ _ Ec Hd).
  - intros Hc. exact (creates_cover _ _ next_id Ec Hc).
  - destruct (cr_new _ _ Ec) as (ds' & hs' & _ & Hh & _ & _ & _ & [->|Hl]); [left|by right].
    unfold hosts_of. cbn. cbn in Hh. by rewrite Hh, app_nil_r.
Qed.

Lemma created_loop_turned fuel block block_ptr ctx s y :
  created_loop size_of_entry MAX_DATA_SOURCES new_v4 false handler_program fuel db block block_ptr ctx s
  = Some (Ok y) -> turned (ctx, s) y.
Proof.
  revert ctx s. induction fuel as [|fuel IH]; intros ctx s; cbn;
    destruct (bs_created_data_sources _); try done; try (by intros [= <-]).
  destruct (created_turn _ _ _ _ _ _ _ _ _ _) as [[ctx1 s1]| |] eqn:E; try done.
  apply created_turn_turned in E. intros Hl. etrans; [exact E|]. by apply IH.
Qed.

(** *** What the loop means *)
Section loop.
Context (network : string) (templates : list DataSourceTemplate).

(** The network and the templates of a context, which no block changes. *)
Definition on_network (ctx : IndexingContext (G := G)) : Prop :=
  si_subgraph_id (ix_instance (state ctx)) = deployment_id
  /\ si_network (ix_instance (state ctx)) = network
  /\ in_top_level_templates (inputs ctx) = templates.

Abbreviation instantiated_ := (instantiated MAX_DATA_SOURCES deployment_id network templates).

Lemma create_instantiated infos ctx ds0 hs0 ctx' ds1 hs1 :
  fold_res (create_step MAX_DATA_SOURCES) (ctx, (ds0, hs0)) infos = Ok (ctx', (ds1, hs1)) ->
  on_network ctx ->
  on_network ctx' /\ exists ds hs, ds1 = ds0 ++ ds /\ hs1 = hs0 ++ hs
    /\ hosts_of ctx' = hosts_of ctx ++ hs /\ instantiated_ (hosts_of ctx) infos ds hs.
Proof.
  revert ctx ds0 hs0. induction infos as [|info infos IH]; intros ctx ds0 hs0; cbn [fold_res].
  { intros [= <- <- <-] Hnet. split; [done|]. exists [], []. rewrite !app_nil_r. split_and!; try done. constructor. }
  unfold create_step at 1.
  destruct (data_source_of_template info) as [d| |] eqn:Ed; cbn [map_err res_bind]; try done.
  destruct (add_dynamic_data_source _ _ _ _) as [i r] eqn:Ea.
  destruct r as [o| |]; cbn [map_err res_bind]; try done.
  apply add_dynamic_data_source_made in Ea as (Hn & Hid & Hlt & sender & h & Hb & Ho).
  intros Hf (Hid0 & Hnet & Htpl). rewrite Hnet, Hid0, Htpl in Hb.
  assert (Hnet' : on_network (set_instance ctx i)).
  { split_and!; cbn; [congruence..|done]. }
  destruct o as [h'|]; cbn [res_bind] in Hf; destruct (IH _ _ _ Hf Hnet')
    as (Hnet1 & ds & hs & -> & -> & Hh & Hinst); (split; [exact Hnet1|]).
  - destruct Ho as (-> & Hhi & Hnew). exists (d :: ds), (h :: hs). rewrite <- !app_assoc. split_and!; try done.
    + rewrite Hh. unfold hosts_of. cbn. rewrite Hhi, <- app_assoc. done.
    + eapply instantiated_new; [exact Ed|exact Hlt|by exists sender|exact Hnew|].
      unfold hosts_of in Hinst. cbn in Hinst. by rewrite Hhi in Hinst.
  - destruct Ho as (Hhi & Hold). exists ds, hs. split_and!; try done.
    + rewrite Hh. unfold hosts_of. cbn. by rewrite Hhi.
    + eapply instantiated_known; [exact Ed|exact Hlt|by exists sender|exact Hold|].
      unfold hosts_of in Hinst. cbn in Hinst. by rewrite Hhi in Hinst.
Qed.

Abbreviation created_runs_ :=
  (created_runs MAX_DATA_SOURCES new_v4 handler_program db deployment_id network templates).

(** A turn of the loop, as a step of [created_runs]. *)
Lemma created_turn_advances block block_ptr ctx s ctx' s' :
  created_turn size_of_entry MAX_DATA_SOURCES new_v4 false handler_program db block block_ptr ctx s
  = Ok (ctx', s') ->
  in_deployment_id (inputs ctx) = deployment_id -> on_network ctx -> bs_created_data_sources (block_state_of s) <> [] ->
  on_network ctx' /\ in_deployment_id (inputs ctx') = deployment_id
  /\ st_advances s s' (fun a a1 => forall hosts n a',
       created_runs_ block block_ptr (hosts_of ctx') (ix_next_id (state ctx')) a1 hosts n a' ->
       created_runs_ block block_ptr (hosts_of ctx) (ix_next_id (state ctx)) a hosts n a').
Proof.
  unfold created_turn. intros Hrun Hid Hnet Hne.
  destruct (create_dynamic_data_sources _ _ _) as [[ctx1 [ds hs]]| |] eqn:Ec; cbn [res_bind] in Hrun; try done.
  pose proof (create_creates _ _ _ Ec) as Hcr.
  apply create_instantiated in Ec as (Hnet1 & ds' & hs' & Eds & Ehs & Hh & Hinst); [|done].
  cbn [app] in Eds, Ehs. subst ds' hs'.
  destruct (triggers_in_block _ _ _ _) as [bwt| |] eqn:Eb; cbn [map_err res_bind] in Hrun; try done.
  unfold persist_dynamic_data_sources in Hrun.
  destruct (fold_res _ _ ds) as [[[cache next_id] accesses]| |] eqn:Ep; cbn [res_bind] in Hrun; try done.
  set (s0 := of_state _) in Hrun.
  destruct (fold_res _ s0 _) as [s1| |] eqn:Et; cbn [map_err res_bind] in Hrun; try done. injection Hrun as <- <-.
  pose proof (cr_inputs _ _ Hcr) as Hin. pose proof (cr_rest _ _ Hcr) as Hrest. cbn [fst] in Hin, Hrest.
  rewrite Hin, Hid in Ep. apply persist_advances in Ep as [-> Hadv].
  split; [exact Hnet1|]. split; [cbn; congruence|].
  eapply (advances_trans _ (progress (to_state s0))); [|by apply triggers_advance|].
  { unfold progress at 2, s0. rewrite to_of. exact Hadv. }
  cbn beta. intros W W1 W2 -> Hr hosts n a' Hc.
  eapply created_some; [exact Hne|exact Hinst|exact Eb| |].
  - unfold with_map at 1, s0 in Hr. rewrite to_of in Hr. cbn in Hr. rewrite Hrest in Hr. exact Hr.
  - unfold hosts_of in Hc |- *. cbn in Hc. unfold hosts_of in Hh. rewrite Hh in Hc.
    rewrite Hrest in Hc. exact Hc.
Qed.

Lemma created_loop_advances fuel block block_ptr ctx s ctx' s' :
  created_loop size_of_entry MAX_DATA_SOURCES new_v4 false handler_program fuel db block block_ptr ctx s
  = Some (Ok (ctx', s')) ->
  in_deployment_id (inputs ctx) = deployment_id -> on_network ctx ->
  st_advances s s' (fun a a' =>
    created_runs_ block block_ptr (hosts_of ctx) (ix_next_id (state ctx)) a
      (hosts_of ctx') (ix_next_id (state ctx')) a').
Proof.
  revert ctx s. induction fuel as [|fuel IH]; intros ctx s; cbn [created_loop];
    destruct (bs_created_data_sources (block_state_of s)) as [|info infos] eqn:Ecr; try done.
  1,2: intros [= <- <-] _ _; apply advances_refl; intros W; by constructor.
  destruct (created_turn _ _ _ _ _ _ _ _ _ _) as [[ctx1 s1]| |] eqn:E; try done. intros Hl Hid Hnet.
  apply created_turn_advances in E as (Hnet1 & Hid1 & Hadv); [|done..|by rewrite Ecr].
  eapply advances_trans; [exact Hadv|by apply IH|]. intros W W1 W2 Hturn Hrest. by apply Hturn.
Qed.
End loop.

(** *** The proof of indexing *)
Lemma poi_entity region digest :
  entity_of [("id", VString region); ("digest", digest)]
  = ({["id" := VString region; "digest" := digest]} : Entity).
Proof. unfold entity_of. cbn. by rewrite insert_insert_ne. Qed.

Lemma poi_step_advances c x c' a :
  poi_step size_of_entry db deployment_id c x = Ok c' ->
  advances (c, a) (c', a + 2)%Z (region_written deployment_id x).
Proof.
  destruct x as [region stream]. unfold poi_step.
  destruct (cache_get _ _ _) as [c1 [r| |]] eqn:Eg; cbn [map_err res_bind]; try done.
  destruct (previous_digest r) as [prev| |] eqn:Epd; cbn [res_bind]; try done.
  set (e := entity_of _).
  destruct (cache_set _ _ _ _) as [c2 [[]| |]] eqn:Es; cbn [map_err res_bind]; try done.
  intros [= <-]. split; [cbn; lia|]. cbn. intros W n Hn Hm Hi.
  replace (n + (a + 2 - a))%Z with (n + 2)%Z in * by lia.
  destruct (cache_get_result (RT := runtime_of db) size_of_entry (view db) _ _ _ _ W (n + 1) (n + 2)
              Eg ltac:(lia) Hm ltac:(lia) Hi) as [Hvis Hi1].
  exists (set_spec W (poi_key deployment_id region) e). split.
  - exists r, prev. split; [exact Hvis|]. split; [|by unfold e; rewrite poi_entity].
    unfold previous_digest in Epd. destruct r as [r|]; [|by injection Epd as <-].
    destruct (r !! "digest") as [[]|]; try done. injection Epd as <-. by eexists.
  - by eapply (cache_set_result (RT := runtime_of db) size_of_entry (view db) _ _ _ _ W n (n + 1) Es);
      try lia.
Qed.

Lemma update_poi_advances poi c c' a :
  update_proof_of_indexing size_of_entry drain db deployment_id poi c = Ok c' ->
  advances (c, a) (c', a + 2 * Z.of_nat (size (poi_take poi)))%Z (regions_written deployment_id (Some poi)).
Proof.
  unfold update_proof_of_indexing. intros Hf.
  assert (Hl : advances (c, a) (c', a + 2 * Z.of_nat (length (drain (poi_take poi))))%Z
                 (fold_rel (region_written deployment_id) (drain (poi_take poi)))).
  { revert c a Hf. induction (drain (poi_take poi)) as [|x l IH]; intros c a; cbn [fold_res].
    - intros [= <-]. replace (a + 2 * Z.of_nat (length []))%Z with a by (cbn; lia).
      apply advances_refl. constructor.
    - destruct (poi_step _ _ _ _ _) as [c1| |] eqn:E; cbn [res_bind]; try done. intros Hl.
      apply (IH _ (a + 2)%Z) in Hl. cbn [length].
      replace (a + 2 * Z.of_nat (S (length l)))%Z with (a + 2 + 2 * Z.of_nat (length l))%Z by lia.
      eapply advances_trans; [exact (poi_step_advances _ _ _ a E)|exact Hl|].
      intros W W1 W2. apply fold_rel_cons. }
  rewrite (Permutation_length (drain_spec (poi_take poi))), length_map_to_list in Hl.
  eapply advances_mono; [exact Hl|]. intros W W' Hr. eexists. split; [|exact Hr]. apply drain_spec.
Qed.

(** *** Finishing a block *)

Lemma evict_agrees cur cur' o T :
  agrees cur T -> evict cur ENTITY_CACHE_SIZE = Ok (o, cur') -> agrees cur' T.
Proof.
  intros [Hi Ha] He. split.
  - destruct (evict_with_period_spec cur ENTITY_CACHE_SIZE STALE_PERIOD Hi cache_size)
      as [[_ E]|(_ & ? & c1 & E & Hi1 & _)];
      unfold evict in He; rewrite E in He; by injection He as <- <-.
  - intros k v Hv. eapply Ha, evict_values; [exact He|exact Hv].
Qed.

Lemma as_modifications_headroom c mods cur n :
  agrees (current c) (view db) -> (n + 1 < 2 ^ 64)%Z -> headroom (current c) n ->
  as_modifications (ST := entities_of db) size_of_entry c = Ok (mods, cur) -> headroom cur n.
Proof.
  intros Ha Hn Hh Em k x Hx.
  destruct (as_modifications_freq (SL := lookups_answer db) size_of_entry (view db) _ _ _ _ _ Ha Em Hx)
    as [[_ Hx']| ->]; [exact (Hh k x Hx')|lia].
Qed.

(** What the transaction of a block does to the store. *)
Record transacted (W : gmap EntityKey Entity) (block_ptr : EthereumBlockPointer) (db' : DB) : Prop := {
  tr_mods : exists mods db1 (migrate : bool),
    transact_block_operations db deployment_id block_ptr mods = Ok (db1, migrate)
    /\ db' = (if migrate then migrate_subgraph_deployment db1 deployment_id block_ptr else db1)
    /\ NoDup (entity_key <$> mods);
  tr_view k : same (view db' !! k) (W !! k);
}.

Lemma finish_block_spec ctx s block_ptr canceled restart db' r W n :
  finish_block size_of_entry ENTITY_CACHE_SIZE drain db ctx s block_ptr canceled restart = (db', r) ->
  in_deployment_id (inputs ctx) = deployment_id ->
  (0 <= n)%Z -> 
  let regions := (block_accesses s - ms_accesses (to_state s))%Z in
  (n + regions + 1 < 2 ^ 64)%Z ->
  implements (view db) (bs_entity_cache (block_state_of s)) W (n + regions) ->
  match r with
  | Ok (ctx', restart') =>
      restart' = restart /\ canceled = false
      /\ (exists cache, ctx' = set_cache ctx cache /\ agrees cache (view db') /\ headroom cache n)
      /\ exists W', regions_written deployment_id (ms_proof_of_indexing (to_state s)) W W'
                    /\ transacted W' block_ptr db'
  | _ => db' = db
  end.
Proof.
  intros Hf Hid Hn regions Hm Hi. unfold finish_block in Hf. rewrite Hid in Hf.
  destruct canceled; [by injection Hf as <- <-|].
  set (upd := match ms_proof_of_indexing _ with Some _ => _ | None => _ end) in Hf.
  destruct upd as [c| |] eqn:Eu; cbn [res_bind] in Hf; [|by injection Hf as <- <-..].
  assert (Hadv : advances (bs_entity_cache (block_state_of s), 0%Z) (c, regions)
                   (regions_written deployment_id (ms_proof_of_indexing (to_state s)))).
  { unfold regions, block_accesses. unfold upd in Eu.
    destruct (ms_proof_of_indexing (to_state s)) as [poi|].
    - apply (update_poi_advances _ _ _ 0) in Eu. by rewrite Z.add_0_l in Eu; rewrite Z.add_simpl_l.
    - injection Eu as <-. rewrite Z.add_simpl_l. by apply advances_refl. }
  destruct Hadv as [Hr Hadv]. cbn [fst snd] in Hr, Hadv.
  destruct (Hadv W n Hn ltac:(lia)) as (W' & HW & (Ha & Hh & Hupd)).
  { by rewrite Z.sub_0_r. }
  destruct (as_modifications_spec (SL := lookups_answer db) size_of_entry (view db) c Ha)
    as (mods & cur & Em & Hmod).
  rewrite Em in Hf. cbn [map_err res_bind] in Hf.
  pose proof (as_modifications_headroom _ _ _ n Ha ltac:(lia) Hh Em) as Hh'.
  destruct (evict cur ENTITY_CACHE_SIZE) as [[o cur']| |] eqn:Ee; [|by injection Hf as <- <-..].
  destruct (negb _); [by injection Hf as <- <-|].
  destruct (transact_block_operations _ _ _ _) as [[db1 migrate]| |] eqn:Et;
    cbn [map_err res_bind] in Hf; [|by injection Hf as <- <-..].
  injection Hf as <- <-. split; [done|]. split; [done|].
  assert (Hv : view (if migrate then migrate_subgraph_deployment db1 deployment_id block_ptr else db1)
               = apply_mods (view db) mods).
  { rewrite <- (transact_applies db deployment_id block_ptr mods db1 migrate Et).
    destruct migrate; [apply migrate_keeps|done]. }
  split.
  - exists cur'. split; [done|]. rewrite Hv. split.
    + eapply evict_agrees; [apply Hmod|exact Ee].
    + eapply evict_headroom; [exact Ee|exact Hh'].
  - exists W'. split; [done|]. split.
    + exists mods, db1, migrate. split_and!; try done.
      eapply sublist_NoDup; [|apply Hmod]. apply NoDup_btree_keys.
    + intros k. rewrite Hv. etrans; [by eapply modified_all|]. apply Hupd.
Qed.

(** *** A block *)
Abbreviation block_triggers := (fun fuel ctx block block_ptr =>
  process_block_triggers size_of_entry MAX_DATA_SOURCES new_v4 false handler_program
    fuel db ctx block block_ptr).
Abbreviation block_run := (fun fuel ctx canceled block =>
  process_block size_of_entry MAX_DATA_SOURCES ENTITY_CACHE_SIZE new_v4 false handler_program drain
    fuel db ctx canceled block).

(** What there is to a block whose triggers were processed. *)
Lemma block_triggers_parts fuel ctx block block_ptr ctx1 s1 restart :
  block_triggers fuel ctx block block_ptr = Some (Ok (Processed ctx1 s1 restart)) ->
  exists supported s0 s,
    supports_proof_of_indexing db (in_deployment_id (inputs ctx)) = Ok supported
    /\ to_state s0 = mk_mapping_state (block_state_new (ix_entity_lfu_cache (state ctx)))
                       (if supported : bool then Some (poi_new (ptr_number block_ptr)) else None) 0
    /\ st_advances s0 s (triggers_run handler_program db (hosts_of ctx)
                           (light_block (bwt_ethereum_block block)) (bwt_triggers block))
    /\ restart = negb (bool_decide (bs_created_data_sources (block_state_of s) = []))
    /\ created_loop size_of_entry MAX_DATA_SOURCES new_v4 false handler_program fuel db
         (bwt_ethereum_block block) block_ptr (set_cache ctx LfuCache.new) s = Some (Ok (ctx1, s1)).
Proof.
  unfold process_block_triggers.
  destruct (supports_proof_of_indexing _ _) as [supported| |]; try done.
  set (s0 := of_state _).
  destruct (process_triggers _ _ _ _ _ _ _ _) as [s| |] eqn:Et; [|by destruct (is_possible_reorg _)|done].
  destruct (created_loop _ _ _ _ _ _ _ _ _ _ _) as [[[ctx2 s2]| |]|] eqn:El; try done.
  intros [= -> -> <-]. exists supported, s0, s. split; [done|]. split; [unfold s0; by rewrite to_of|].
  split; [by apply triggers_advance|]. split; [|done]. f_equal. apply bool_decide_ext.
  by destruct (bs_created_data_sources _).
Qed.

Lemma block_triggers_turned fuel ctx block block_ptr ctx1 s1 restart :
  block_triggers fuel ctx block block_ptr = Some (Ok (Processed ctx1 s1 restart)) ->
  (exists s, turned (set_cache ctx LfuCache.new, s) (ctx1, s1))
  /\ (restart = false -> ctx1 = set_cache ctx LfuCache.new).
Proof.
  intros (supported & s0 & s & _ & _ & _ & -> & El)%block_triggers_parts.
  split; [exists s; by eapply created_loop_turned|].
  intros Hnil%negb_false_iff%bool_decide_eq_true.
  destruct fuel; cbn in El; rewrite Hnil in El; by injection El as <- <-.
Qed.

(** A context of the deployment is on its own network with its own templates. *)
Lemma own_on_network ctx :
  own_ctx ctx ->
  on_network (si_network (ix_instance (state ctx))) (in_top_level_templates (inputs ctx)) ctx.
Proof. intros (_ & Hid & _). by split. Qed.

(** The first half of a block, by what it means. *)
Lemma block_triggers_spec fuel ctx block block_ptr ctx1 s1 restart :
  block_triggers fuel ctx block block_ptr = Some (Ok (Processed ctx1 s1 restart)) -> own_ctx ctx ->
  in_deployment_id (inputs ctx1) = deployment_id /\
  advances (bs_entity_cache (block_state_new (ix_entity_lfu_cache (state ctx))), 0%Z) (progress (to_state s1))
    (fun W W1 => forall W', regions_written deployment_id (ms_proof_of_indexing (to_state s1)) W1 W' ->
       block_means MAX_DATA_SOURCES new_v4 handler_program db deployment_id
         (si_network (ix_instance (state ctx))) (in_top_level_templates (inputs ctx)) block block_ptr
         (hosts_of ctx) (ix_next_id (state ctx)) W (hosts_of ctx1) (ix_next_id (state ctx1)) W' restart).
Proof.
  intros Hb Ho. destruct (block_triggers_turned _ _ _ _ _ _ _ Hb) as [[s' Htu] _].
  apply block_triggers_parts in Hb as (supported & s0 & s & Hsup & Hs0 & Hadv & Hre & Hl).
  split; [apply (tu_own _ _ Htu Ho)|]. pose proof Ho as (Hid & _). rewrite Hid in Hsup.
  eapply created_loop_advances in Hl; [|exact Hid|exact (own_on_network _ Ho)].
  unfold st_advances, progress, with_map in Hadv. rewrite Hs0 in Hadv. cbn in Hadv.
  eapply advances_trans; [exact Hadv|exact Hl|]. intros W W1 W2 Htr Hcr W' Hreg.
  split. exists supported. eexists _, _. split; [exact Hsup|]. split; [exact Htr|].
  split; [exact Hre|]. split; [exact Hcr|]. exact Hreg.
Qed.

(** A possible reorganisation was found by a handler that was due. *)
Abbreviation reorg_found_ := (reorg_found handler_program
  (fun h b p s => run_program (RT := runtime_of db) size_of_entry false (rh_host_exports h) b p s)).

Lemma run_mapping_reorg h handler mt b s e :
  run h handler mt b s = Err e -> possible_reorg e = true ->
  exists p e', handler_program (rh_sender h) handler mt b = Some p
    /\ run_program (RT := runtime_of db) size_of_entry false (rh_host_exports h) b p (to_state s)
       = Err (PossibleReorg e').
Proof.
  unfold run_mapping. destruct (handler_program _ _ _ _) as [p|].
  - destruct (run_program _ _ _ _ _ _) as [|e'|] eqn:E; intros [= <-];
      rewrite ?reorg_iff, ?terminated_no_reorg; [|done].
    destruct e' as [e'|e']; [|done]. intros _. by exists p, e'.
  - intros [= <-]. by rewrite reorg_iff.
Qed.

Lemma triggers_reorg hosts block s e :
  fold_res (fun s t => process_trigger_in_runtime_hosts run hosts (light_block (bwt_ethereum_block block)) t s)
    s (bwt_triggers block) = Err e ->
  is_possible_reorg e = true -> reorg_found_ hosts block.
Proof.
  intros Hf Hr. destruct e; try done.
  apply fold_res_fails in Hf as (t & s0 & Ht & Hp).
  apply process_trigger_fails in Hp as (h & handler & mt & s1 & Hh & Hhd & Hc & Hs).
  apply run_mapping_reorg in Hs as (p & e' & Hp & He); [|done].
  by exists t, h, handler, mt, p, (to_state s1), e'.
Qed.

Abbreviation cost := (fun fuel ctx block =>
  block_cost size_of_entry MAX_DATA_SOURCES new_v4 false handler_program fuel db ctx block).

Lemma block_triggers_reorg fuel ctx block block_ptr ctx1 :
  block_triggers fuel ctx block block_ptr = Some (Ok (Reorg ctx1)) ->
  ctx1 = set_cache ctx LfuCache.new /\ reorg_found_ (hosts_of ctx) block.
Proof.
  unfold process_block_triggers.
  destruct (supports_proof_of_indexing _ _) as [supported| |]; try done.
  destruct (process_triggers _ _ _ _ _ _ _ _) as [s|e|] eqn:Et; [|destruct (is_possible_reorg e) eqn:Er|done].
  - by destruct (created_loop _ _ _ _ _ _ _ _ _ _ _) as [[[]| |]|].
  - intros [= <-]. split; [done|]. by eapply triggers_reorg.
  - done.
Qed.

Lemma regions_nonneg s : (ms_accesses (to_state s) <= block_accesses s)%Z.
Proof. unfold block_accesses. destruct (ms_proof_of_indexing _); lia. Qed.

Lemma empty_cache_agrees T : agrees LfuCache.new T.
Proof.
  split; [split; [done|apply map_Forall_empty]|]. intros k v. cbn. by rewrite lookup_fmap, lookup_empty.
Qed.

(** What a block did: nothing, for a handler that was due found a possible
    reorganisation; or what the block means, in one transaction. *)
Inductive block_done (ctx : IndexingContext (G := G)) (canceled : bool)
    (block : EthereumBlockWithTriggers) : DB -> IndexingContext (G := G) -> bool -> Prop :=
| done_reorg :
    reorg_found_ (hosts_of ctx) block ->
    block_done ctx canceled block db (set_cache ctx LfuCache.new) true
| done_transaction block_ptr W' db' ctx' restart :
    canceled = false ->
    ptr_of_finality (bwt_ethereum_block block) = Ok block_ptr ->
    block_means MAX_DATA_SOURCES new_v4 handler_program db deployment_id
      (si_network (ix_instance (state ctx))) (in_top_level_templates (inputs ctx)) block block_ptr
      (hosts_of ctx) (ix_next_id (state ctx)) (view db)
      (hosts_of ctx') (ix_next_id (state ctx')) W' restart ->
    transacted W' block_ptr db' -> same_others deployment_id (view db) W' ->
    block_done ctx canceled block db' ctx' restart.

Lemma process_block_spec fuel ctx canceled block db' r n :
  block_run fuel ctx canceled block = Some (db', r) ->
  own_ctx ctx -> agrees (ix_entity_lfu_cache (state ctx)) (view db) -> (0 <= n)%Z ->
  (n + cost fuel ctx block < 2 ^ 64 - 1)%Z ->
  headroom (ix_entity_lfu_cache (state ctx)) (n + cost fuel ctx block) ->
  match r with
  | Ok (ctx', restart) =>
      agrees (ix_entity_lfu_cache (state ctx')) (view db')
      /\ headroom (ix_entity_lfu_cache (state ctx')) n
      /\ (restart = false -> ctx' = set_cache ctx (ix_entity_lfu_cache (state ctx')))
      /\ block_done ctx canceled block db' ctx' restart
  | _ => db' = db
  end.
Proof.
  intros Hb Ho Ha Hn. unfold process_block, block_cost in *.
  destruct (ptr_of_finality _) as [block_ptr| |] eqn:Hptr; [|by injection Hb as <- <-..].
  destruct (process_block_triggers _ _ _ _ _ _ _ _ _ _) as [[[ctx1|ctx1 s1 restart]| |]|] eqn:Et; try done;
    [|injection Hb as Hb|by injection Hb as <- <-..].
  - injection Hb as <- <-. apply block_triggers_reorg in Et as [-> Hre]. intros _ _.
    split; [apply empty_cache_agrees|]. split; [apply map_Forall_empty|]. split; [done|by constructor].
  - intros Hm Hh. destruct (block_triggers_turned _ _ _ _ _ _ _ Et) as [_ Hsame].
    destruct (block_triggers_spec _ _ _ _ _ _ _ Et Ho) as (Hid & Hle & Hadv).
    pose proof (regions_nonneg s1) as Hreg.
    set (regions := (block_accesses s1 - ms_accesses (to_state s1))%Z) in *.
    cbn [fst snd progress] in Hle, Hadv. rewrite Z.sub_0_r in Hadv.
    destruct (Hadv (view db) (n + regions)%Z) as (W1 & HW1 & Hi1); [lia|unfold regions; lia| |].
    { split; [done|]. split; [|intros k; cbn; by rewrite lookup_empty].
      eapply headroom_weaken; [|exact Hh]. unfold regions. lia. }
    eapply finish_block_spec in Hb; [|exact Hid|exact Hn| |exact Hi1]; [|fold regions; unfold regions; lia].
    destruct r as [[ctx' restart']| |]; [|done..].
    destruct Hb as (-> & -> & (cache & -> & Hca & Hch) & W' & HW' & Htr).
    split; [done|]. split; [done|]. split; [intros Hr; by rewrite (Hsame Hr)|].
    apply HW1 in HW'. econstructor; [done|exact Hptr|exact HW'|exact Htr|].
    eapply block_means_others; [apply Ho|exact HW'].
Qed.

(** *** Hosts and filters of the context *)
Definition hosts_bounded (n0 : nat) (ctx : IndexingContext (G := G)) : Prop :=
  forall m, MAX_DATA_SOURCES = Some m -> length (hosts_of ctx) <= Nat.max n0 m.

Lemma process_block_keeps fuel ctx canceled block db' ctx' restart n0 :
  block_run fuel ctx canceled block = Some (db', Ok (ctx', restart)) ->
  own_ctx ctx -> filters_cover ctx -> hosts_bounded n0 ctx ->
  own_ctx ctx' /\ filters_cover ctx' /\ hosts_bounded n0 ctx' /\ inputs ctx' = inputs ctx
  /\ (restart = false -> exists cache, ctx' = set_cache ctx cache).
Proof.
  intros Hb Ho Hc Hn. unfold process_block in Hb.
  destruct (ptr_of_finality _) as [block_ptr| |]; try done.
  destruct (process_block_triggers _ _ _ _ _ _ _ _ _ _) as [[[ctx1|ctx1 s1 restart1]| |]|] eqn:Et; try done.
  - injection Hb as <- <- <-. by destruct (block_triggers_reorg _ _ _ _ _ Et) as [-> _].
  - destruct (block_triggers_turned _ _ _ _ _ _ _ Et) as ((s & Htu) & Hsame).
    assert (Hk : own_ctx ctx1 /\ filters_cover ctx1 /\ hosts_bounded n0 ctx1 /\ inputs ctx1 = inputs ctx).
    { split; [exact (tu_own _ _ Htu Ho)|]. split; [exact (tu_cover _ _ Htu Hc)|].
      split; [|exact (tu_inputs _ _ Htu)]. intros m Hm.
      destruct (tu_bound _ _ Htu) as [Hb'|Hb']; cbn [fst] in Hb'.
      - rewrite Hb'. exact (Hn m Hm).
      - specialize (Hb' m Hm). lia. }
    injection Hb as Hb. unfold finish_block in Hb. destruct canceled; [done|].
    destruct (res_bind _ _) as [[db1 ctx2]| |] eqn:E; try done. injection Hb as <- <- <-.
    assert (exists cache, ctx2 = set_cache ctx1 cache) as [cache ->].
    2: { destruct Hk as (? & ? & ? & ?). do 4 (split; [done|]). intros Hr. exists cache.
         by rewrite (Hsame Hr). }
    revert E. destruct (match ms_proof_of_indexing _ with Some _ => _ | None => _ end) as [c| |];
      cbn [res_bind]; try done.
    destruct (as_modifications _ _) as [[mods cur]| |]; cbn [map_err res_bind]; try done.
    destruct (evict _ _) as [[o cur']| |]; try done. destruct (negb _); [done|].
    destruct (transact_block_operations _ _ _ _) as [[db2 migrate]| |]; cbn [map_err res_bind]; try done.
    intros [= _ <-]. by exists cur'.
Qed.

Lemma cost_nonneg fuel ctx block : own_ctx ctx -> (0 <= cost fuel ctx block)%Z.
Proof.
  intros Ho. unfold block_cost. destruct (ptr_of_finality _) as [block_ptr| |]; try done.
  destruct (process_block_triggers _ _ _ _ _ _ _ _ _ _) as [[[|ctx1 s1 restart]| |]|] eqn:Et; try done.
  destruct (block_triggers_spec _ _ _ _ _ _ _ Et Ho) as (_ & Hle & _). cbn [fst snd progress] in Hle.
  pose proof (regions_nonneg s1). lia.
Qed.

(** *** The loop ends *)

(** Triggers have no effect without hosts. *)
Lemma no_hosts b ts s s' :
  fold_res (fun s t => process_trigger_in_runtime_hosts run [] b t s) s ts = Ok s' -> s' = s.
Proof.
  intros Hf. symmetry. revert Hf. apply (fold_res_relates eq). intros x t y _.
  apply process_relates; [split; [done|by intros ? ? ? -> ->]|].
  intros h handler mt u v []%not_elem_of_nil.
Qed.

Lemma created_turn_progress block block_ptr ctx s ctx' s' max :
  MAX_DATA_SOURCES = Some max ->
  created_turn size_of_entry MAX_DATA_SOURCES new_v4 false handler_program db block block_ptr ctx s
  = Ok (ctx', s') ->
  bs_created_data_sources (block_state_of s') = []
  \/ length (hosts_of ctx) < length (hosts_of ctx') <= max.
Proof.
  intros Hmax. unfold created_turn.
  destruct (create_dynamic_data_sources _ _ _) as [[ctx1 [ds hs]]| |] eqn:Ec; cbn [res_bind]; try done.
  apply create_creates in Ec.
  destruct (triggers_in_block _ _ _ _) as [bwt| |]; cbn [map_err res_bind]; try done.
  unfold persist_dynamic_data_sources.
  destruct (fold_res _ _ ds) as [[[cache next_id] accesses]| |] eqn:Ep; cbn [res_bind]; try done.
  set (s0 := of_state _).
  destruct (fold_res _ s0 _) as [s1| |] eqn:Et; cbn [map_err res_bind]; try done. intros [= <- <-].
  destruct (cr_new _ _ Ec) as (ds' & hs' & E & Hh & _ & _ & _ & Hl). cbn in E, Hh.
  injection E as -> ->. destruct hs' as [|h hs'].
  - left. apply no_hosts in Et as ->. unfold block_state_of, s0. by rewrite to_of.
  - right. destruct Hl as [?|Hl]; [done|]. specialize (Hl max Hmax). unfold hosts_of. cbn in Hl |- *.
    split; [|done]. rewrite Hh, length_app. cbn. lia.
Qed.

Lemma created_loop_ends fuel block block_ptr ctx s max :
  MAX_DATA_SOURCES = Some max -> S (max - length (hosts_of ctx)) <= fuel ->
  created_loop size_of_entry MAX_DATA_SOURCES new_v4 false handler_program fuel db block block_ptr ctx s
  <> None.
Proof.
  intros Hmax. revert ctx s. induction fuel as [|fuel IH]; intros ctx s Hf; [lia|]. cbn.
  destruct (bs_created_data_sources _); [done|].
  destruct (created_turn _ _ _ _ _ _ _ _ _ _) as [[ctx1 s1]| |] eqn:E; try done.
  destruct (created_turn_progress _ _ _ _ _ _ _ Hmax E) as [Hnil|Hlt].
  - by destruct fuel; cbn; rewrite Hnil.
  - apply IH. lia.
Qed.

(** C2: A block does to the store what it means ([block_means]): the triggers of
    the block run the handlers of the hosts that handle them, trigger by trigger and
    host by host; the data sources these create are stored, the triggers they have
    in the block run in the new hosts, until no more are created; the proof of
    indexing of each region is put on top of the one it had.  The result is the
    map of entities the store holds afterwards, stored in one transaction with at
    most one modification of an entity; the instance has the new hosts; the stream
    is to be built again if there are any; and the entities of other deployments
    are the same.  Otherwise a handler that was due found a possible
    reorganisation, nothing is stored, and the stream is to be built again.  An
    error or a cancelation leaves the store as it was.  The cache kept for the next
    block agrees with the new store.  (For handlers run without
    [ALLOW_NON_DETERMINISTIC_IPFS], under which [ipfs.map] fails.) *)
Theorem block_refines_map fuel ctx canceled block db' r n :
  block_run fuel ctx canceled block = Some (db', r) ->
  own_ctx ctx -> agrees (ix_entity_lfu_cache (state ctx)) (view db) -> (0 <= n)%Z ->
  (n + cost fuel ctx block < 2 ^ 64 - 1)%Z ->
  headroom (ix_entity_lfu_cache (state ctx)) (n + cost fuel ctx block) ->
  match r with
  | Ok (ctx', restart) =>
      agrees (ix_entity_lfu_cache (state ctx')) (view db')
      /\ headroom (ix_entity_lfu_cache (state ctx')) n
      /\ (restart = false -> ctx' = set_cache ctx (ix_entity_lfu_cache (state ctx')))
      /\ block_done ctx canceled block db' ctx' restart
  | _ => db' = db
  end.
Proof. apply process_block_spec. Qed.

(** C38: With a limit on the number of data sources, processing a block ends: each
    turn of the loop over created data sources adds a host or is the last, so
    that a turn more than the limit is fuel enough. *)
Theorem block_processing_ends fuel ctx canceled block max :
  MAX_DATA_SOURCES = Some max -> max < fuel ->
  exists db' r, block_run fuel ctx canceled block = Some (db', r).
Proof.
  intros Hmax Hf. unfold process_block.
  destruct (ptr_of_finality _) as [block_ptr| |]; [|by eauto..].
  destruct (process_block_triggers _ _ _ _ _ _ _ _ _ _) as [[[|]| |]|] eqn:E;
    [by eauto| |by eauto|by eauto|].
  { destruct (finish_block _ _ _ _ _ _ _ _ _) eqn:Ef. by eauto. }
  exfalso. unfold process_block_triggers in E.
  destruct (supports_proof_of_indexing _ _) as [supported| |]; try done.
  destruct (process_triggers _ _ _ _ _ _ _ _) as [s|e|]; [|by destruct (is_possible_reorg e)|done].
  destruct (created_loop _ _ _ _ _ _ _ _ _ _ _) as [[[]| |]|] eqn:El; try done.
  revert El. apply (created_loop_ends _ _ _ _ _ max); [done|lia].
Qed.
End refinement.


(** ** Runs *)
Section runs.
Context {ME : ManifestEnv} {HE : HostEnv ME} {SH : StableHashing} {RS : RuntimeServices HE}.
Context {SS : SubgraphStore} {SL : SubgraphStoreLaws SS}.
Context `{CacheWeight EntityKey, CacheWeight (option Entity)}.
Context {PQ : PriorityQueue EntityKey (option Entity)}.
Context {TH : MappingThread HE DBError}.
Context {G : Type} `{GML : GraphMapLaws LogFilterNode G} `{EA : EthereumAdapter G}.
Context {STX : ScalarText} {MT : MetadataText}.
Context (size_of_entry : Z).
Context (MAX_DATA_SOURCES : option nat) (ENTITY_CACHE_SIZE : Z) (new_v4 : nat -> string).
Context (handler_program :
  Sender -> string -> MappingTrigger -> LightEthereumBlock -> option MappingProgram).
Context (drain : gmap string BlockEventStream -> list (string * BlockEventStream)).
Context (error_text : ProcessError -> string).
Hypothesis drain_spec : forall m, drain m ≡ₚ map_to_list m.
Hypothesis cache_size : (0 <= ENTITY_CACHE_SIZE)%Z.

Abbreviation step := (run_step (G := G) size_of_entry MAX_DATA_SOURCES ENTITY_CACHE_SIZE new_v4 false
  handler_program drain error_text).
Abbreviation steps := (run_steps (G := G) size_of_entry MAX_DATA_SOURCES ENTITY_CACHE_SIZE new_v4 false
  handler_program drain error_text).

(** What holds of a run: its hosts are the deployment's, and the filters of its
    stream are those of the context, which cover all hosts. *)
Record run_ok (n0 : nat) (r : Run (G := G)) : Prop := {
  ro_own : own_ctx (in_deployment_id (inputs (run_ctx r))) (run_ctx r);
  ro_cover : filters_cover (run_ctx r);
  ro_filters : run_filters r = context_filters (run_ctx r);
  ro_bound : hosts_bounded MAX_DATA_SOURCES n0 (run_ctx r);
}.

(** The cache of a run, with [n] accesses to spare. *)
Definition cache_ok (db : DB) (r : Run (G := G)) (n : Z) : Prop :=
  agrees (ix_entity_lfu_cache (state (run_ctx r))) (view db)
  /\ headroom (ix_entity_lfu_cache (state (run_ctx r))) n.

Definition on_run (P : DB -> Run (G := G) -> Prop) (x : World * RunState) : Prop :=
  match x.2 with Running r => P (w_db x.1) r | Ended => True end.

Lemma poll_same instances (r : Run (G := G)) inner item r' :
  cancelable_poll instances r inner = (item, r') ->
  run_ctx r' = run_ctx r /\ run_filters r' = run_filters r.
Proof. unfold cancelable_poll. destruct (_ && _); by intros [= _ <-]. Qed.

Lemma run_ok_same n0 (r r' : Run (G := G)) :
  run_ctx r' = run_ctx r -> run_filters r' = run_filters r -> run_ok n0 r -> run_ok n0 r'.
Proof. intros Hc Hf []. split; rewrite ?Hc, ?Hf; done. Qed.

Abbreviation handle := (handle_block (G := G) size_of_entry MAX_DATA_SOURCES ENTITY_CACHE_SIZE new_v4 false
  handler_program drain error_text).
Abbreviation cost := (block_cost (G := G) size_of_entry MAX_DATA_SOURCES new_v4 false handler_program).

(** A block that does not end the run went through [process_block]. *)
Lemma handle_block_running fuel w checked after r block error_id w' r' :
  handle fuel w checked after r block error_id = Some (w', Running r') ->
  exists restart,
    process_block size_of_entry MAX_DATA_SOURCES ENTITY_CACHE_SIZE new_v4 false handler_program drain
      fuel (w_db w) (run_ctx r) (canceled checked r) block
    = Some (w_db w', Ok (run_ctx r', restart))
    /\ (if restart : bool then run_filters r' = context_filters (run_ctx r')
        else run_filters r' = run_filters r).
Proof.
  unfold handle_block. destruct (ptr_of_finality _) as [block_ptr| |]; try done.
  destruct (process_block _ _ _ _ _ _ _ _ _ _ _) as [[db [[ctx [|]]|[|e]|]]|]; try done;
    intros [= <- <-]; [exists true|exists false]; done.
Qed.

Lemma step_ok fuel c x y n0 :
  step fuel c x y -> on_run (fun _ r => run_ok n0 r) x ->
  (0 <= c)%Z /\ on_run (fun _ r => run_ok n0 r) y.
Proof.
  intros Hs. destruct Hs as [w r r' block checked after error_id w' st Hp _ _ Hb|w r r' db Hp
    |w r inner r' Hp|w r db after next _ _]; unfold on_run; cbn [fst snd]; intros Hr.
  - split; [eapply cost_nonneg, Hr|]. destruct st as [r2|]; [|done].
    apply poll_same in Hp as [Hp1 Hp2].
    apply handle_block_running in Hb as (restart & E & Hf). rewrite Hp1 in E.
    destruct Hr as [Ho Hc Hfl Hbd].
    pose proof (process_block_keeps size_of_entry MAX_DATA_SOURCES ENTITY_CACHE_SIZE new_v4
      handler_program drain (w_db w) _ _ _ _ _ _ _ _ _ E Ho Hc Hbd) as (Ho' & Hc' & Hbd' & Hin & Hsame).
    rewrite <- Hin in Ho'. split; try done. destruct restart; [done|].
    rewrite Hf, Hp2, Hfl. by destruct (Hsame eq_refl) as [cache ->].
  - apply poll_same in Hp as [Hp1 Hp2]. split; [done|]. destruct Hr.
    split; cbn; rewrite ?Hp1, ?Hp2; done.
  - apply poll_same in Hp as [Hp1 Hp2]. split; [done|]. by eapply run_ok_same.
  - done.
Qed.

Lemma step_cache fuel c x y n0 n :
  step fuel c x y -> on_run (fun _ r => run_ok n0 r) x -> (0 <= n)%Z -> (n + c < 2 ^ 64 - 1)%Z ->
  on_run (fun db r => cache_ok db r (n + c)) x -> on_run (fun db r => cache_ok db r n) y.
Proof.
  intros Hs. destruct Hs as [w r r' block checked after error_id w' st Hp _ _ Hb|w r r' db Hp
    |w r inner r' Hp|w r db after next _ Hother]; unfold on_run; cbn [fst snd]; intros Hr Hn Hm.
  - destruct st as [r2|]; [|done]. apply poll_same in Hp as [Hp1 Hp2].
    apply handle_block_running in Hb as (restart & E & _). rewrite Hp1 in E. intros [Ha Hh].
    by destruct (process_block_spec size_of_entry MAX_DATA_SOURCES ENTITY_CACHE_SIZE new_v4
      handler_program drain drain_spec cache_size (w_db w) _ _ _ _ _ _ _ n E (ro_own _ _ Hr) Ha Hn Hm Hh)
      as (Ha' & Hh' & _).
  - intros _. split; [apply empty_cache_agrees|apply map_Forall_empty].
  - rewrite Z.add_0_r. apply poll_same in Hp as [Hp1 _]. unfold cache_ok. by rewrite Hp1.
  - rewrite Z.add_0_r. intros [[Hi Ha] Hh]. split; [|done]. split; [done|]. intros k v Hv. cbn.
    destruct (get_law (StoreLaws := lookups_answer db) k) as (x1 & E1 & S1).
    destruct (get_law (StoreLaws := lookups_answer (w_db w)) k) as (x2 & E2 & S2).
    rewrite (Hother k) in E1 by (by rewrite Hv). rewrite E2 in E1. injection E1 as ->.
    etrans; [apply (Ha k v Hv)|]. etrans; [symmetry; exact S2|exact S1].
Qed.

Lemma steps_ok fuel c x z n0 :
  steps fuel c x z -> on_run (fun _ r => run_ok n0 r) x ->
  (0 <= c)%Z /\ on_run (fun _ r => run_ok n0 r) z.
Proof.
  induction 1 as [x|c c' x y z Hs _ IH]; intros Hx; [done|].
  destruct (step_ok _ _ _ _ n0 Hs Hx) as [Hc Hy]. destruct (IH Hy) as [Hc' Hz]. split; [lia|done].
Qed.

Lemma steps_cache fuel c x z n0 n :
  steps fuel c x z -> on_run (fun _ r => run_ok n0 r) x -> (0 <= n)%Z -> (n + c < 2 ^ 64 - 1)%Z ->
  on_run (fun db r => cache_ok db r (n + c)) x -> on_run (fun db r => cache_ok db r n) z.
Proof.
  intros Hs. revert n. induction Hs as [x|c c' x y z Hs Hss IH]; intros n Hx Hn Hm.
  - by rewrite Z.add_0_r.
  - intros Hc. destruct (step_ok _ _ _ _ n0 Hs Hx) as [Hc0 Hy].
    destruct (steps_ok _ _ _ _ n0 Hss Hy) as [Hc' _].
    apply IH; [done|done|lia|]. eapply step_cache; [exact Hs|exact Hx|lia|lia|].
    replace (n + c' + c)%Z with (n + (c + c'))%Z by lia. exact Hc.
Qed.

(** *** The start *)
Lemma new_hosts_step_spec templates x d y :
  new_hosts_step templates x d = Ok y ->
  si_subgraph_id y.1 = si_subgraph_id x.1
  /\ exists hs errs, y.2 = (x.2.1 ++ hs, x.2.2 ++ errs) /\ length hs + length errs = 1
     /\ Forall (fun h => host_of d h /\ he_subgraph_id (rh_host_exports h) = si_subgraph_id x.1) hs.
Proof.
  destruct x as [i [hosts errors]]. unfold new_hosts_step.
  pose proof (new_host_id i d templates) as Hid.
  destruct (new_host i d templates) as [i1 [h|e|]] eqn:E; try done; intros [= <-]; cbn in *; split; try done.
  - exists [h], []. rewrite app_nil_r. split_and!; try done. constructor; [|done].
    by eapply new_host_spec.
  - exists [], [e]. by rewrite app_nil_r.
Qed.

Lemma new_hosts_spec templates ds x y :
  fold_res (new_hosts_step templates) x ds = Ok y ->
  si_subgraph_id y.1 = si_subgraph_id x.1
  /\ exists hs errs, y.2 = (x.2.1 ++ hs, x.2.2 ++ errs) /\ length hs + length errs = length ds
     /\ Forall (fun h => (exists d, d ∈ ds /\ host_of d h)
                         /\ he_subgraph_id (rh_host_exports h) = si_subgraph_id x.1) hs.
Proof.
  revert x. induction ds as [|d ds IH]; intros x; cbn [fold_res].
  { intros [= <-]. split; [done|]. exists [], []. rewrite !app_nil_r. split_and!; try done. by destruct x.2. }
  destruct (new_hosts_step templates x d) as [x1| |] eqn:E; cbn [res_bind]; try done. intros Hf.
  apply new_hosts_step_spec in E as (Hid1 & hs1 & e1 & E1 & L1 & F1).
  destruct (IH _ Hf) as (Hid & hs & es & E2 & L2 & F2). split; [congruence|].
  exists (hs1 ++ hs), (e1 ++ es). rewrite E2, E1. cbn [fst snd]. rewrite !(assoc_L (++)), !length_app.
  split_and!; [done|cbn; lia|]. apply Forall_app. split.
  - eapply Forall_impl; [exact F1|]. intros h [Ho Hs]. split; [|done]. exists d. split; [by left|done].
  - eapply Forall_impl; [exact F2|]. intros h [(d' & Hd & Ho) Hs]. split; [|congruence].
    exists d'. split; [by right|done].
Qed.

Lemma from_manifest_spec manifest i :
  from_manifest manifest = Ok i ->
  si_subgraph_id i = sm_id manifest /\ length (si_hosts i) = length (sm_data_sources manifest)
  /\ Forall (fun h => (exists d, d ∈ sm_data_sources manifest /\ host_of d h)
                      /\ he_subgraph_id (rh_host_exports h) = sm_id manifest) (si_hosts i).
Proof.
  unfold from_manifest. destruct (Manifest.network_name manifest) as [network| |]; cbn [lift_panic res_bind]; try done.
  destruct (fold_res _ _ _) as [[i1 [hosts errors]]| |] eqn:E; cbn [res_bind]; try done.
  apply new_hosts_spec in E as (Hid & hs & es & E & L & F). cbn in *. injection E as -> ->.
  destruct es; [|done]. cbn. intros [= <-]. cbn in *. split_and!; [done|lia|done].
Qed.

Lemma start_context_ok manifest network i guard :
  from_manifest manifest = Ok i -> Forall addressed (sm_data_sources manifest) ->
  let ctx := start_context (G := G) manifest network i in
  run_ok (length (sm_data_sources manifest)) (mk_run ctx (context_filters ctx) guard false).
Proof.
  intros Hi Ha ctx. apply from_manifest_spec in Hi as (Hid & Hl & Hf). split; cbn.
  - split_and!; [done|done|]. eapply Forall_impl; [exact Hf|]. by intros h [_ ?].
  - split; cbn; [apply from_iter_specific|]. eapply Forall_impl; [exact Hf|].
    intros h [(d & Hd & Ho) _]. by eapply filters_cover_hosts.
  - done.
  - intros m _. unfold hosts_of. cbn. rewrite Hl. lia.
Qed.

Lemma start_subgraph_ok w manifest w0 r0 :
  start_subgraph (G := G) w manifest = (w0, Ok r0) -> Forall addressed (sm_data_sources manifest) ->
  run_ok (length (sm_data_sources manifest)) r0
  /\ ix_entity_lfu_cache (state (run_ctx r0)) = LfuCache.new.
Proof.
  unfold start_subgraph. destruct (res_bind (start_status_ops _ _) _) as [db| |]; try done.
  destruct (Manifest.network_name manifest) as [network| |]; cbn [lift_panic res_bind]; try done.
  destruct (from_manifest manifest) as [i| |] eqn:E; cbn [map_err res_bind]; try done.
  intros [= <- <-] Ha. split; [by apply start_context_ok|done].
Qed.

(** C9: As long as fewer than 2^64 accesses to the entity cache were made, a
    running subgraph's cache agrees with the store between the items of its
    stream, whatever blocks, reverts, restarts and changes by others happened; its
    hosts all belong to the deployment, the filters of its stream let through every
    log, call and block that a host has an event handler, a call handler or a
    handler without filter for (blocks for handlers with a call filter are left
    out: the filter of a stream does not have the addresses of their contracts),
    and there are no more hosts than the manifest has or the limit allows.
    ([ALLOW_NON_DETERMINISTIC_IPFS] is off.) *)
Theorem running_subgraph_invariant fuel total w0 manifest w1 r0 w r :
  start_subgraph (G := G) w0 manifest = (w1, Ok r0) -> Forall addressed (sm_data_sources manifest) ->
  steps fuel total (w1, Running r0) (w, Running r) -> (total < 2 ^ 64 - 1)%Z ->
  agrees (ix_entity_lfu_cache (state (run_ctx r))) (view (w_db w))
  /\ Forall (fun h => own (in_deployment_id (inputs (run_ctx r))) h
                      /\ covered_by (run_filters r).1.1 (run_filters r).1.2 (run_filters r).2 h)
       (hosts_of (run_ctx r))
  /\ (forall m, MAX_DATA_SOURCES = Some m ->
      length (hosts_of (run_ctx r)) <= Nat.max (length (sm_data_sources manifest)) m).
Proof.
  intros Hst Had Hs Ht. destruct (start_subgraph_ok _ _ _ _ Hst Had) as [Hok Hnew].
  assert (Hx : on_run (fun _ r => run_ok (length (sm_data_sources manifest)) r) (w1, Running r0)) by done.
  destruct (steps_ok _ _ _ _ _ Hs Hx) as [_ [Ho Hc Hf Hb]].
  destruct (steps_cache _ _ _ _ _ 0 Hs Hx ltac:(lia) ltac:(lia)) as [Ha _].
  { unfold on_run, cache_ok. cbn. rewrite Hnew. split; [apply empty_cache_agrees|apply map_Forall_empty]. }
  split; [exact Ha|]. split; [|exact Hb]. cbn in Hf. rewrite Hf. cbn.
  destruct Ho as (_ & _ & Ho), Hc as [_ Hc]. apply Forall_and. by split.
Qed.

(** A possible reorganisation puts a guard back, even when the subgraph was
    stopped while its block was processed. *)
Lemma reorg_forgets_stop fuel w checked after r block block_ptr error_id ctx :
  ptr_of_finality (bwt_ethereum_block block) = Ok block_ptr ->
  process_block_triggers size_of_entry MAX_DATA_SOURCES new_v4 false handler_program
    fuel (w_db w) (run_ctx r) block block_ptr = Some (Ok (Reorg ctx)) ->
  exists w' r', handle fuel w checked after r block error_id = Some (w', Running r')
    /\ canceled (w_instances w') r' = false.
Proof.
  intros Hp Ht. unfold handle_block, process_block. rewrite Hp, Ht. eexists _, _.
  split; [reflexivity|]. unfold canceled. cbn. rewrite lookup_insert_eq.
  by rewrite bool_decide_eq_true_2.
Qed.
End runs.

Module Witness.
Import Manifest.Witness.
Import ProofOfIndexing.Witness.
#[local] Existing Instance text_env.
#[local] Existing Instance TextInstance.text.
#[local] Existing Instance MetadataLoad.Witness.metadata_text.
#[local] Existing Instance HostExports.Witness.key_weight.
#[local] Existing Instance HostExports.Witness.entity_weight.
#[local] Existing Instance scan_queue.
Abbreviation Graph := (list (LogFilterNode * LogFilterNode)).

#[local] Instance thread_env : HostEnv text_env := {|
  Sender := nat;
  St := MappingState;
  SendError := option (MappingError (RtError := string));
  AbiEvent := string;
  AbiFunction := string;
  Token := Byte.byte;
  api_version_ok := fun v => Some (String.eqb v "0.0.4");
  contract_eqb := String.eqb;
  contract_event_with_signature := fun _ e => Some e;
  contract_function_with_signature := fun _ f => Some f;
  parse_log := fun _ _ data => Some data;
  decode_input := fun _ data => Some data;
  decode_output := fun _ data => Some data;
  function_inputs := fun _ => [];
  function_outputs := fun _ => [];
  spawn_mapping := fun _ => Ok 1;
  store_for_network := fun n => String.eqb n "mainnet";
  adapter_with_capabilities := fun _ _ => true;
|}.

#[local] Instance services : RuntimeServices thread_env := {|
  Json := string;
  contract_function := fun _ f => Some f;
  functions_by_name := fun _ f => Some [(f, f)];
  contract_call := fun _ address _ args => if Z.eqb address 5 then Err Web3Error else Ok args;
  json_stream := fun link => Ok [Ok link];
|}.

#[local] Instance thread : MappingThread thread_env string := {|
  of_state := fun s => s;
  to_state := fun s => s;
  to_of := fun s => eq_refl;
  mapping_failed := Some;
  mapping_terminated := None;
  possible_reorg := fun e => match e with Some (PossibleReorg _) => true | _ => false end;
  reorg_iff := fun e => eq_refl;
  terminated_no_reorg := eq_refl;
|}.

(** A store that refuses entities without their id. *)
Definition Map : Type := { m : gmap EntityKey Entity | MapStore.well_formed m }.

#[local] Instance well_formed_decision m : Decision (MapStore.well_formed m) .
Proof. unfold MapStore.well_formed. apply map_Forall_dec. intros k e. cbn. apply bool_eq_dec. Defined.

Definition transact (db : Map) (mods : list EntityModification) : res string (Map * bool) :=
  match decide (MapStore.well_formed (apply_mods (`db) mods)) with
  | left wf => Ok (exist _ _ wf, false)
  | right _ => Err "no id"
  end.

#[local] Instance map_store : SubgraphStore := {|
  DB := Map;
  DBError := string;
  runtime_of := fun db => {| rt_entities := MapStore.store (`db);
                             input_schema := fun _ => Ok GraphqlSchema.Witness.schema;
                             uses_relational_schema := fun _ => Ok true |};
  supports_proof_of_indexing := fun _ _ => Ok true;
  transact_block_operations := fun db _ _ mods => transact db mods;
  migrate_subgraph_deployment := fun db _ _ => db;
  apply_metadata_operations := fun db _ => Ok db;
  start_subgraph_deployment := fun db _ _ => Ok db;
  query_health := fun _ _ =>
    Ok (QObject [("subgraphDeployment", QObject [("health", QEnum "healthy")])]);
  query_non_fatal_errors := fun _ _ => Err "no errors";
|}.

#[local] Instance map_store_laws : SubgraphStoreLaws map_store.
Proof.
  refine {| view := fun db : DB => proj1_sig (db : Map) |}.
  - intros [m wf]. exact (MapStore.store_laws m wf).
  - intros db id ptr mods db' migrate. cbn. unfold transact. destruct (decide _) as [wf|]; [|done].
    by intros [= <- _].
  - done.
Defined.

#[local] Instance node : EthereumAdapter Graph := Triggers.Witness.node.

(** Adopts the dog and watches its contract, the first time. *)
Definition adopt : MappingProgram :=
  StoreGet "Pet" "dog" (fun e =>
    match e with
    | None => StoreSet "Pet" "dog" {["name" := VString "Rex"]} (DataSourceCreate "Pet" ["0xaa"] None Return)
    | Some _ => StoreRemove "Pet" "cat" Return
    end).

Definition program (sender : Sender) (handler : string) (t : MappingTrigger) (b : LightEthereumBlock)
  : option MappingProgram := if String.eqb handler "handle" then Some adopt else None.

Definition d1 : DataSource :=
  let m := ds_mapping EthFilters.Witness.ds1 in
  mk_data_source "ethereum/contract" (Some "mainnet") "Pets" (mk_source (Some 1%Z) "abi" 0)
    (mk_mapping (m_kind m) (m_api_version m) (m_language m) (m_entities m)
       [mk_abi "abi" "contract" (mk_link "/ipfs/abi")] [] [] (m_event_handlers m) (m_runtime m) (m_link m))
    None [].
Definition pet_template : DataSourceTemplate :=
  mk_template "ethereum/contract" (Some "mainnet") "Pet" (mk_template_source "abi") (ds_mapping d1).

Definition pets_manifest : SubgraphManifest :=
  mk_manifest "sub" "/ipfs/sub" "0.0.2" None None "type Pet" [d1] None [pet_template].

Definition cat : EntityKey := mk_key "sub" "Pet" "cat".
Definition pets : Map :=
  exist _ {[cat := {["id" := VString "cat"; "name" := VString "Tom"]} : Entity]}
    (proj2 (map_Forall_singleton _ _ _) eq_refl).

Definition light : LightEthereumBlock :=
  mk_block (Some 104%Z) 103 0 0 0 0 0 (Some 6%Z) 0 0 0 0 None None [mk_tx 77 (Some 0%Z) 0 None 0 0 0 []].
Definition a_log (address topic : Z) : Log :=
  mk_log address [topic] [] (Some 104%Z) (Some 6%Z) (Some 77%Z) (Some 0%Z) (Some 0%Z).
Definition pets_block : EthereumBlockWithTriggers :=
  mk_block_with_triggers (NonFinal (mk_block_with_calls (mk_eth_block light []) [])) [TLog (a_log 1 7)].

Definition started : World * res StartError (Run (G := Graph)) :=
  start_subgraph (mk_world pets ∅ 0) pets_manifest.

Definition fresh_id (n : nat) : string := TextInstance.print_Z (Z.of_nat n).

Definition block_result (fuel : nat) (w : World) (r : Run (G := Graph)) :=
  process_block 8 (Some 3) 100 fresh_id false program map_to_list fuel (w_db w) (run_ctx r)
    (canceled (w_instances w) r) pets_block.
Definition block_costs (w : World) (r : Run (G := Graph)) : Z :=
  block_cost 8 (Some 3) fresh_id false program 4 (w_db w) (run_ctx r) pets_block.

Definition world : World := started.1.
Definition first_run : Run :=
  match started with
  | (_, Ok r) => r
  | _ => let ctx := start_context pets_manifest "" (mk_instance "" "" [] ∅) in
         mk_run ctx (context_filters ctx) 0 true
  end.

Lemma starts : started = (world, Ok first_run).
Proof.
  assert (Hok : is_ok started.2 = true) by (vm_compute; reflexivity).
  unfold world, first_run. by destruct started as [w [r| |]].
Qed.

Lemma addressed_sources : Forall addressed (sm_data_sources pets_manifest).
Proof. constructor; [|constructor]. intros _. by eexists. Qed.

Lemma first_ok n :
  own_ctx "sub" (run_ctx first_run)
  /\ agrees (ix_entity_lfu_cache (state (run_ctx first_run))) (view (w_db world))
  /\ headroom (ix_entity_lfu_cache (state (run_ctx first_run))) n.
Proof.
  destruct (start_subgraph_ok (Some 3) _ _ _ _ starts addressed_sources) as [[Ho _ _ _] ->].
  assert (Hid : in_deployment_id (inputs (run_ctx first_run)) = "sub") by (vm_compute; reflexivity).
  rewrite Hid in Ho. split; [exact Ho|]. split; [apply empty_cache_agrees|apply map_Forall_empty].
Qed.

Lemma cheap : (block_costs world first_run < 2 ^ 64 - 1)%Z.
Proof. vm_compute. reflexivity. Qed.

Lemma processed : exists db ctx,
  block_result 4 world first_run = Some (db, Ok (ctx, true)) /\ length (hosts_of ctx) = 2.
Proof.
  assert (Hok : match block_result 4 world first_run with
                | Some (_, Ok (ctx, true)) => Nat.eqb (length (hosts_of ctx)) 2
                | _ => false end = true) by (vm_compute; reflexivity).
  destruct (block_result _ _ _) as [[db [[ctx [|]]| |]]|]; try done.
  exists db, ctx. split; [done|]. by apply Nat.eqb_eq.
Qed.

Lemma drained (m : gmap string BlockEventStream) : map_to_list m ≡ₚ map_to_list m.
Proof. reflexivity. Qed.

Lemma block_refines_map_witness : exists db ctx,
  block_result 4 world first_run = Some (db, Ok (ctx, true))
  /\ agrees (ix_entity_lfu_cache (state ctx)) (view db)
  /\ block_done 8 (Some 3) fresh_id program (w_db world) "sub" (run_ctx first_run)
       (canceled (w_instances world) first_run) pets_block db ctx true.
Proof.
  destruct processed as (db & ctx & E & _). exists db, ctx. split; [exact E|].
  destruct (first_ok (0 + block_costs world first_run)) as (Ho & Ha & Hh).
  pose proof (block_refines_map 8 (Some 3) 100 fresh_id program map_to_list drained ltac:(lia)
    (w_db world) "sub" 4 (run_ctx first_run) _ pets_block db _ 0 E Ho Ha ltac:(lia) cheap Hh)
    as (Ha' & _ & _ & Hd).
  by split.
Defined.

Lemma block_processing_ends_witness : 3 < 4 /\ exists db r, block_result 4 world first_run = Some (db, r).
Proof.
  split; [lia|].
  apply (block_processing_ends (HE := thread_env) 8 (Some 3) 100 fresh_id program map_to_list (w_db world) 4
           (run_ctx first_run) _ pets_block 3); [reflexivity|lia].
Defined.

Definition no_text (e : ProcessError) : string := "".

Definition one_step (w : World) (x : RunState) : Prop :=
  run_steps (G := Graph) 8 (Some 3) 100 fresh_id false program map_to_list no_text 4
    (block_costs world first_run + 0) (world, Running first_run) (w, x).

Lemma pets_ptr : ptr_of_finality (bwt_ethereum_block pets_block) = Ok (mk_ptr 104 6).
Proof. reflexivity. Qed.

Lemma runs : exists w r, one_step w (Running r) /\ length (hosts_of (run_ctx r)) = 2.
Proof.
  destruct processed as (db & ctx & E & Hl).
  assert (Hh : exists w r, handle_block 8 (Some 3) 100 fresh_id false program map_to_list no_text 4 world
                 (w_instances world) (w_instances world) first_run pets_block "e" = Some (w, Running r)
                 /\ run_ctx r = ctx).
  { unfold handle_block. rewrite pets_ptr. fold (block_result 4 world first_run). rewrite E.
    eexists _, _. by split. }
  destruct Hh as (w & r & Hh & Hctx). exists w, r. split; [|by rewrite Hctx].
  assert (Hc : canceled (w_instances world) first_run = false) by (vm_compute; reflexivity).
  assert (Hp : cancelable_poll (w_instances world) first_run (ItemBlock pets_block)
               = (ItemBlock pets_block, first_run)) by (unfold cancelable_poll; by rewrite Hc).
  unfold one_step, block_costs. eapply steps_one; [|apply steps_none].
  exact (step_block _ _ _ _ _ _ _ _ _ _ _ _ _ _ _ _ _ _ Hp (fun H => H) (fun H => H) Hh).
Qed.

Lemma running_subgraph_invariant_witness : exists w r,
  one_step w (Running r) /\ length (hosts_of (run_ctx r)) = 2
  /\ agrees (ix_entity_lfu_cache (state (run_ctx r))) (view (w_db w))
  /\ Forall (fun h => covered_by (run_filters r).1.1 (run_filters r).1.2 (run_filters r).2 h)
       (hosts_of (run_ctx r)).
Proof.
  destruct runs as (w & r & Hs & Hl). exists w, r. split; [exact Hs|]. split; [exact Hl|].
  destruct (running_subgraph_invariant 8 (Some 3) 100 fresh_id program map_to_list no_text drained
    ltac:(lia) 4 _ _ _ _ _ _ _ starts addressed_sources Hs) as (Ha & Hf & _).
  { rewrite Z.add_0_r. exact cheap. }
  split; [exact Ha|]. eapply Forall_impl; [exact Hf|]. by intros h [_ ?].
Defined.
End Witness.
